(* ===== verification/_CoqProject ===== *)
-Q . S2P
Prelude.v
Varint.v
Protocol.v
Frames.v
AckFrame.v
FrameParser.v
Fec.v
FecCodes.v
FecManager.v
HandleFrames.v
RingBuffer.v
Queues.v
Float64.v
FlowControl.v
ReceivedPackets.v
SentHistory.v
Ecn.v
SentHandler.v
SentLedger.v
SentSafety.v
FrameSorter.v
SorterCorrect.v
CryptoStream.v
ReceiveStream.v
SendStream.v
SendCorrect.v
StreamTransfer.v
Headers.v
RetransmissionQueue.v
Framer.v
StreamsMap.v
StreamLimits.v
FramerStreams.v
PacketPacker.v
PackerCorrect.v
TransportParameters.v
ConnectionIDs.v
ConnIDsCorrect.v
Congestion.v
MtuDiscovery.v
PacketProtection.v
KeyUpdate.v
CryptoSetup.v
Unpacker.v
