(* ===== verification/Prelude.v ===== *)
(** Verification of 0xFEC, an implementation of QUIC in Go (quic-go) with forward
    erasure correction.

    * The program

    Two endpoints exchange UDP datagrams that hold protected packets; a packet
    carries frames.  On the send side the application writes to send streams; the
    framer cuts the data of active streams into STREAM frames; the packet packer
    composes packets from acknowledgements, retransmissions, control frames,
    DATAGRAM frames and STREAM frames, and wraps the FEC protected ones into
    SOURCE_SYMBOL frames, from which the FEC sender computes REPAIR frames; the
    sent packet handler keeps what is in flight until it is acknowledged or lost.
    Packets are protected with the keys of the TLS handshake, which are updated as
    the connection goes on.  On the receive side the protection is removed, headers
    and frames are parsed, the received packet handler decides what to acknowledge, the FEC receiver recovers the payloads of lost
    packets, frames are dispatched, and the frame sorter reassembles the data of
    receive streams.  Flow control limits what streams and the connection send, the
    congestion controller and the pacer what is in flight; path MTU discovery finds
    the packet size.  Packets are routed to connections by their connection IDs,
    which the endpoints issue and retire.

    * The files

    Each file holds one module with the state of a component as a record, its data
    as inductive types and one definition per function of the source, which keeps
    the function's name where Rocq allows it.  Methods take and return the record
    they are called on; several objects that a call changes are a tuple.

    - Prelude: results of Go functions, machine integers, readers, state monad.
    - Varint (quicvarint/varint.go), Protocol (internal/protocol), Frames, AckFrame
      and FrameParser (internal/wire: frames and their parser), Headers
      (internal/wire: packet headers).
    - Fec (internal/fec: blocks, block codes, manager), FecCodes (the contract of a
      block code and its proofs), FecManager (sender and receiver), HandleFrames
      (connection.go: the loop over the frames of a packet, with recovery).
    - RingBuffer (internal/utils/ringbuffer), Queues (repair_queue.go,
      datagram_queue.go), Float64 (the float64 arithmetic of Go on integers),
      FlowControl (internal/flowcontrol).
    - ReceivedPackets (internal/ackhandler/received_packet_*.go), SentHistory,
      Ecn, SentHandler (internal/ackhandler/sent_packet_*.go, ecn.go and
      internal/utils/rtt_stats.go), SentLedger and SentSafety (their correctness).
    - FrameSorter and SorterCorrect (frame_sorter.go), CryptoStream
      (crypto_stream*.go), ReceiveStream (receive_stream.go), SendStream and
      SendCorrect (send_stream.go), StreamTransfer (a stream from end to end).
    - RetransmissionQueue (retransmission_queue.go), Framer and FramerStreams
      (framer.go, and its composition with the send streams), StreamsMap and
      StreamLimits (streams_map*.go), PacketPacker and PackerCorrect
      (packet_packer.go).
    - TransportParameters (internal/wire/transport_parameters.go), ConnectionIDs and
      ConnIDsCorrect (conn_id_*.go, packet_handler_map.go, closed_conn.go),
      Congestion (internal/congestion), MtuDiscovery (mtu_discoverer.go).
    - PacketProtection, KeyUpdate and CryptoSetup (internal/handshake: AEADs and
      header protection, the 1-RTT keys and their updates, the keys of the
      handshake, session tickets and address tokens), Unpacker
      (packet_unpacker.go).

    * Conventions

    A function that can fail returns [res]: [Ok], [Err] for a Go error, [Panic] for
    a panic (index and slice bounds, nil dereferences, explicit panics).  A method
    that changes its receiver is a computation of the state monad [st], in which
    the changes made before an error or a panic are kept.  Integers are [Z]; where
    the width matters the wrap-around is written out ([u8], [u16], [u64], [i64]).
    Bytes are integers below 256, slices lists of them, with their spare capacity
    ([slice]) where the code uses it.  Go's maps are finite maps; where the code
    iterates over a map the order is a parameter.  Calls that block are split
    where they wait into a first part and resumptions, and goroutines interleave
    at these points and at calls ([step] relations); mutexes are not modelled
    beyond that, a method that holds its lock is one step.  Buffer pools, time and
    logging are arguments or left out.

    Interfaces of the Go code are type classes; where a client is verified against
    an interface, its laws are a class of their own, with an instance for the
    implementation that is verified here ([FrameCodec] of the frames, [SchemeSpec]
    of the block codes, the laws of the framer's streams) or a concrete instance
    that shows the laws can be met.  Code outside the sources (the Reed-Solomon
    package, the cryptographic primitives, random numbers, TLS) is a parameter, with its documented
    behaviour as hypotheses.

    * The theorems

    - FEC: the XOR and the Reed-Solomon code recover the lost payloads
      ([xor_recovery], [reed_solomon_recovery]), the receiver refines an abstract
      specification for every sequence of arrivals ([receiver_refines_spec]), the
      sender emits the repair symbols of each block ([sender_repairs]), and a
      connection handles the frames of a lost packet once they are recovered
      ([lost_packet_recovered]).
    - Streams: what is read is a prefix of what was written, from end to end over a
      lossy network ([stream_transferred]), with the pieces for each side (frames
      carry the data, reads in order, completion, no lost wake-ups), the frame
      sorter ([sorter_reassembles]), flow control ([flow_control_respected],
      [window_update_due]) and stream limits ([streams_opened_in_order],
      [peer_streams_accepted]).
    - Loss recovery: every frame sent is acknowledged, lost or in flight, exactly
      once, and no call of the sent packet handler panics
      ([sent_packets_conserved]); ACK frames are validated exactly
      ([received_ack_exact]); acknowledgements are sent in time and are exact
      ([acks_sent_in_time], [received_history_correct]); lost frames are sent again
      exactly once ([retransmissions_conserved]); ECN validation.
    - Packets: headers and frames survive the wire (round trips), parsers never
      panic and terminate on any input, packets are packed within their size and
      are read back by the peer ([packet_packed]), unless a STREAM frame without a
      length comes before a SOURCE_SYMBOL frame ([mixed_streams_swallowed]); every
      stream with data is served ([streams_served]), and what the framer returns is
      what the packer relies on ([framer_streams]).
    - Protection: what the packer seals the peer's unpacker opens
      ([short_packet_unpacked], [long_packet_unpacked]), unpacking is safe on any
      bytes and only authentic packets change the keys ([unpack_safe]), and the endpoints agree on the keys however they
      update them ([key_updates_agree]).
    - Connection: connection IDs of two endpoints agree ([connection_ids_agree],
      [connection_ids_accounted]), transport parameters survive the handshake
      ([transport_parameters_roundtrip], [Unmarshal_limits]), the congestion window
      and the pacing rate are bounded ([congestion_window_bounded], [pacing_rate]),
      the search for the packet size ends close to the best one ([mtu_discovery]),
      address tokens and session tickets are read back ([address_tokens],
      [session_resumption]).

    Several lemmas next to the theorems show behaviour outside their hypotheses:
    inputs on which the code panics, loses a wake-up or loses data.

    * Bounds and fuel

    Loops that are not structural have a fuel argument, which their callers choose
    as a bound on the number of rounds (the length of the input for parsers and
    queues, the size of a map for the frame sorter); running out is a panic with
    its own message, and the theorems that a call does not panic show that it does
    not happen.  Offsets are below 2^62 and packet numbers below 2^62, as QUIC
    requires; payloads that are protected fit a packet buffer of 1452 bytes.

    * Not modelled

    The TLS handshake and the cryptographic primitives (parameters), the sockets,
    the server, the client and the transport, the run loop of the connection with
    its timers, HTTP/3 and logging.  The sent packet handler is verified against
    any congestion controller; the one of the sources is verified on its own. *)

From stdpp Require Export base decidable option list numbers strings gmap.
From Stdlib Require Export ZArith Lia.
#[global] Open Scope Z_scope.

(** * Results of Go functions

    A Go function returns a value, returns a non-nil [error], or panics. *)

(** Errors the modelled code tells apart: [io.EOF], [io.ErrUnexpectedEOF],
    errors only carried around as messages, and [qerr.TransportError] with its
    code, the frame type it was raised for (0 if none) and its message. *)
Inductive go_error : Type :=
| EOF
| ErrUnexpectedEOF
| ErrMsg (msg : string)
| TransportError (code frameType : Z) (cause : go_error).

(** Transport error codes (internal/qerr/error_codes.go). *)
Definition InternalError : Z := 0x1.
Definition FlowControlError : Z := 0x3.
Definition StreamLimitError : Z := 0x4.
Definition StreamStateError : Z := 0x5.
Definition FinalSizeError : Z := 0x6.
Definition FrameEncodingError : Z := 0x7.
Definition TransportParameterError : Z := 0x8.
Definition ConnectionIDLimitError : Z := 0x9.
Definition ProtocolViolation : Z := 0xa.
Definition CryptoBufferExceeded : Z := 0xd.

Inductive res (A : Type) : Type :=
| Ok (a : A)
| Err (e : go_error)
| Panic (msg : string).
Arguments Ok {A} _.
Arguments Err {A} _.
Arguments Panic {A} _.

#[global] Instance go_error_eq_dec : EqDecision go_error.
Proof. solve_decision. Defined.

#[global] Instance res_eq_dec `{EqDecision A} : EqDecision (res A).
Proof. solve_decision. Defined.

#[global] Instance res_ret : MRet res := λ A a, Ok a.
#[global] Instance res_bind : MBind res := λ A B k m,
  match m with
  | Ok a => k a
  | Err e => Err e
  | Panic p => Panic p
  end.

Definition is_ok {A} (m : res A) : bool :=
  match m with Ok _ => true | _ => false end.

(** * Bytes and machine integers *)

Abbreviation byte := Z (only parsing).
Abbreviation bytes := (list Z).

Definition is_byte (b : Z) : Prop := 0 ≤ b < 256.
Definition bytes_ok (l : bytes) : Prop := Forall is_byte l.

(** Conversions [uint8(x)], [uint16(x)], [uint32(x)], [uint64(x)], [int64(x)]. *)
Definition u8 (z : Z) : Z := z mod 2 ^ 8.
Definition u16 (z : Z) : Z := z mod 2 ^ 16.
Definition u32 (z : Z) : Z := z mod 2 ^ 32.
Definition u64 (z : Z) : Z := z mod 2 ^ 64.
Definition i64 (z : Z) : Z := (z + 2 ^ 63) mod 2 ^ 64 - 2 ^ 63.

#[global] Arguments u8 : simpl never.
#[global] Arguments u16 : simpl never.
#[global] Arguments u32 : simpl never.
#[global] Arguments u64 : simpl never.
#[global] Arguments i64 : simpl never.

(** [len(b)]. *)
Definition blen {A} (b : list A) : Z := Z.of_nat (length b).

#[global] Arguments blen : simpl never.

(** A slice of bytes with its backing array: the [len] visible bytes and the
    bytes between [len] and [cap]. *)
Record slice : Type := mkSlice { sl_data : bytes; sl_spare : bytes }.

#[global] Instance slice_eq_dec : EqDecision slice.
Proof. solve_decision. Defined.

Definition slice_nil : slice := mkSlice [] [].
Definition sl_len (s : slice) : Z := blen (sl_data s).
Definition sl_cap (s : slice) : Z := blen (sl_data s) + blen (sl_spare s).

(** [make([]byte, n)]: [n] zero bytes. *)
Definition zeros (n : Z) : bytes := replicate (Z.to_nat n) 0.

(** Indexing and slicing, with Go's run-time checks: [b[i]], [b[i] = v] and
    [b[:n]], which may extend a slice up to its capacity. *)
Definition get_at {A} (l : list A) (i : Z) : res A :=
  if i <? 0 then Panic "index out of range"
  else match l !! Z.to_nat i with Some x => Ok x | None => Panic "index out of range" end.

Definition set_at {A} (l : list A) (i : Z) (v : A) : res (list A) :=
  if (i <? 0) || (blen l <=? i) then Panic "index out of range"
  else Ok (<[Z.to_nat i := v]> l).

Definition sl_upto (s : slice) (n : Z) : res slice :=
  if (n <? 0) || (sl_cap s <? n) then Panic "slice bounds out of range"
  else let arr := sl_data s ++ sl_spare s in
       Ok (mkSlice (take (Z.to_nat n) arr) (drop (Z.to_nat n) arr)).

(** * State passing with errors

    A method that may fail: the state it leaves is kept on every outcome. *)
Definition st (S A : Type) : Type := S → res A * S.

#[global] Instance st_ret S : MRet (st S) := λ A a s, (Ok a, s).
#[global] Instance st_bind S : MBind (st S) := λ A B k m s,
  match m s with
  | (Ok a, s') => k a s'
  | (Err e, s') => (Err e, s')
  | (Panic p, s') => (Panic p, s')
  end.

Definition st_get {S} : st S S := λ s, (Ok s, s).
Definition st_put {S} (s' : S) : st S () := λ _, (Ok tt, s').
Definition st_modify {S} (f : S → S) : st S () := λ s, (Ok tt, f s).
Definition st_lift {S A} (r : res A) : st S A := λ s, (r, s).
Definition st_fail {S A} (e : go_error) : st S A := λ s, (Err e, s).
Definition st_panic {S A} (m : string) : st S A := λ s, (Panic m, s).

(** A loop [for _, x := range l] whose body returns on errors. *)
Fixpoint st_iter {S A} (body : A → st S ()) (l : list A) : st S () :=
  match l with
  | [] => mret tt
  | x :: l => body x ≫= λ _, st_iter body l
  end.

(** * The byte reader

    [bytes.Reader] as a state and error monad over the unread bytes: the
    position is kept when a read fails, as in the Go code. *)
Definition rd (A : Type) : Type := bytes → res A * bytes.

#[global] Instance rd_ret : MRet rd := λ A a s, (Ok a, s).
#[global] Instance rd_bind : MBind rd := λ A B k m s,
  match m s with
  | (Ok a, s') => k a s'
  | (Err e, s') => (Err e, s')
  | (Panic p, s') => (Panic p, s')
  end.

Definition rd_fail {A} (e : go_error) : rd A := λ s, (Err e, s).
Definition rd_panic {A} (m : string) : rd A := λ s, (Panic m, s).

(** [r.Len()]: the number of unread bytes. *)
Definition rd_len : rd Z := λ s, (Ok (blen s), s).

(** [r.ReadByte()]. *)
Definition ReadByte : rd Z := λ s,
  match s with
  | [] => (Err EOF, [])
  | b :: s' => (Ok b, s')
  end.

(** [io.ReadFull(r, buf)] for a buffer of [n] bytes: nothing is read for an
    empty buffer, [io.EOF] if no byte was read, [io.ErrUnexpectedEOF] if some
    but not all bytes were. *)
Definition ReadFull (n : Z) : rd bytes := λ s,
  if n <=? 0 then (Ok [], s)
  else match s with
       | [] => (Err EOF, [])
       | _ => if blen s <? n then (Err ErrUnexpectedEOF, [])
              else (Ok (take (Z.to_nat n) s), drop (Z.to_nat n) s)
       end.

(** * Lemmas on the two monads *)

Create HintDb go.

Lemma res_bind_ok {A B} (a : A) (k : A → res B) : (Ok a ≫= k) = k a.
Proof. reflexivity. Qed.

Lemma res_bind_inv {A B} (m : res A) (k : A → res B) b :
  m ≫= k = Ok b → ∃ a, m = Ok a ∧ k a = Ok b.
Proof. destruct m; simpl; naive_solver. Qed.

Lemma st_bind_ok {S A B} (m : st S A) (k : A → st S B) s a s' :
  m s = (Ok a, s') → (m ≫= k) s = k a s'.
Proof. intros H. unfold mbind, st_bind. by rewrite H. Qed.

Lemma st_lift_ok {S A B} (r : res A) a (k : A → st S B) s : r = Ok a → (st_lift r ≫= k) s = k a s.
Proof. by intros ->. Qed.

Lemma st_bind_assoc {S A B C} (m : st S A) (k : A → st S B) (f : B → st S C) s :
  ((m ≫= k) ≫= f) s = (m ≫= λ x, k x ≫= f) s.
Proof. unfold mbind, st_bind. by destruct (m s) as [[] ?]. Qed.

Lemma get_at_lookup {A} (l : list A) (i : nat) x : l !! i = Some x → get_at l (Z.of_nat i) = Ok x.
Proof.
  intros H. unfold get_at. rewrite (proj2 (Z.ltb_ge _ _)) by lia. by rewrite Nat2Z.id, H.
Qed.

Lemma rd_bind_ok {A B} (m : rd A) (k : A → rd B) s s' a :
  m s = (Ok a, s') → (m ≫= k) s = k a s'.
Proof. intros H. unfold mbind, rd_bind. by rewrite H. Qed.

Lemma rd_bind_err {A B} (m : rd A) (k : A → rd B) s s' e :
  m s = (Err e, s') → (m ≫= k) s = (Err e, s').
Proof. intros H. unfold mbind, rd_bind. by rewrite H. Qed.

Lemma rd_bind_inv {A B} (m : rd A) (k : A → rd B) s s' b :
  (m ≫= k) s = (Ok b, s') → ∃ a s1, m s = (Ok a, s1) ∧ k a s1 = (Ok b, s').
Proof. unfold mbind, rd_bind. destruct (m s) as [[a|e|p] s1]; naive_solver. Qed.

Lemma ReadByte_cons b s : ReadByte (b :: s) = (Ok b, s).
Proof. reflexivity. Qed.

Lemma blen_nonneg {A} (l : list A) : 0 ≤ blen l.
Proof. unfold blen. lia. Qed.

Lemma blen_app {A} (l k : list A) : blen (l ++ k) = blen l + blen k.
Proof. unfold blen. rewrite length_app. lia. Qed.

Lemma blen_cons {A} (x : A) l : blen (x :: l) = 1 + blen l.
Proof. unfold blen. simpl length. lia. Qed.

Lemma blen_nil {A} : blen (@nil A) = 0.
Proof. reflexivity. Qed.

Lemma blen_one {A} (x : A) : blen [x] = 1.
Proof. reflexivity. Qed.

Lemma to_nat_blen {A} (l : list A) : Z.to_nat (blen l) = length l.
Proof. unfold blen. lia. Qed.

Lemma blen_0_nil {A} (l : list A) : blen l = 0 → l = [].
Proof. unfold blen. destruct l; [done | simpl; lia]. Qed.

Lemma blen_zeros n : 0 ≤ n → blen (zeros n) = n.
Proof. intros. unfold blen, zeros. rewrite length_replicate. lia. Qed.

Lemma rd_len_bind {A} (k : Z → rd A) s : (rd_len ≫= k) s = k (blen s) s.
Proof. reflexivity. Qed.

(** Reading exactly the bytes that were written. *)
Lemma ReadFull_app d s : ReadFull (blen d) (d ++ s) = (Ok d, s).
Proof.
  unfold ReadFull. destruct (Z.leb_spec (blen d) 0) as [H|H].
  - pose proof (blen_nonneg d).
    rewrite (blen_0_nil d) by lia. reflexivity.
  - destruct d as [|x d]; [by cbn in H|]. simpl app.
    rewrite (proj2 (Z.ltb_ge _ _)) by (rewrite !blen_cons, blen_app; pose proof (blen_nonneg s); lia).
    unfold blen. rewrite Nat2Z.id.
    change (x :: d ++ s) with ((x :: d) ++ s). rewrite take_app_length, drop_app_length. done.
Qed.

Lemma ReadFull_app_n n d s : n = blen d → ReadFull n (d ++ s) = (Ok d, s).
Proof. intros ->. apply ReadFull_app. Qed.

(** A successful [ReadFull] splits the input at [n] bytes. *)
Lemma ReadFull_inv n s d s' :
  0 ≤ n → ReadFull n s = (Ok d, s') → s = d ++ s' ∧ blen d = n.
Proof.
  intros Hn. unfold ReadFull. destruct (Z.leb_spec n 0) as [H|H].
  - intros [= <- <-]. split; [done|]. rewrite blen_nil. lia.
  - destruct s as [|x s0]; [done|]. remember (x :: s0) as s eqn:Es.
    destruct (Z.ltb_spec (blen s) n) as [H'|H']; [done|].
    intros [= <- <-]. split; [by rewrite take_drop|].
    unfold blen in *. rewrite length_take. lia.
Qed.

(** * Parsers that cannot panic

    [rd_safe N P m]: on every input of at most [N] bytes the parser [m] does
    not panic, leaves a suffix of its input, and a result satisfies [P]. *)
Definition input_ok (N : Z) (s : bytes) : Prop := bytes_ok s ∧ blen s ≤ N.

Definition rd_safe {A} (N : Z) (P : A → Prop) (m : rd A) : Prop := ∀ s, input_ok N s →
  match m s with
  | (Ok a, s') => P a ∧ s' `suffix_of` s
  | (Err _, s') => s' `suffix_of` s
  | (Panic _, _) => False
  end.

Lemma input_ok_suffix N s s' : s' `suffix_of` s → input_ok N s → input_ok N s'.
Proof.
  intros [w ->] [Hb Hl]. split; [by apply Forall_app in Hb as [_ ?]|].
  rewrite blen_app in Hl. pose proof (blen_nonneg w). lia.
Qed.

Lemma rd_safe_ret {A} N (P : A → Prop) a : P a → rd_safe N P (mret a).
Proof. intros H s _. simpl. split; done. Qed.

Lemma rd_safe_fail {A} N (P : A → Prop) e : rd_safe N P (rd_fail e).
Proof. intros s _. simpl. done. Qed.

Lemma rd_safe_bind {A B} N (P : A → Prop) (Q : B → Prop) (m : rd A) (k : A → rd B) :
  rd_safe N P m → (∀ a, P a → rd_safe N Q (k a)) → rd_safe N Q (m ≫= k).
Proof.
  intros Hm Hk s Hs. specialize (Hm s Hs). unfold mbind, rd_bind.
  destruct (m s) as [[a|e|p] s']; [|done|done]. destruct Hm as [Ha Hsuf].
  specialize (Hk a Ha s' (input_ok_suffix _ _ _ Hsuf Hs)).
  destruct (k a s') as [[b|e|p] s'']; [|by etrans|done]. destruct Hk. split; [done|by etrans].
Qed.

Lemma rd_safe_weaken {A} N (P Q : A → Prop) (m : rd A) :
  (∀ a, P a → Q a) → rd_safe N P m → rd_safe N Q m.
Proof.
  intros HPQ Hm s Hs. specialize (Hm s Hs). destruct (m s) as [[a|e|p] s']; naive_solver.
Qed.

Lemma ReadByte_safe N : rd_safe N is_byte ReadByte.
Proof.
  intros [|b s] [Hb _]; simpl; [done|]. apply Forall_cons in Hb as [? _]. split; [done|].
  by apply suffix_cons_r.
Qed.

Lemma rd_len_safe N : rd_safe N (λ l, 0 ≤ l ≤ N) rd_len.
Proof. intros s [_ Hl]. simpl. pose proof (blen_nonneg s). done. Qed.

Lemma ReadFull_safe N n : 0 ≤ n → rd_safe N (λ d, blen d = n ∧ bytes_ok d) (ReadFull n).
Proof.
  intros Hn s [Hb _]. destruct (ReadFull n s) as [[d|e|p] s'] eqn:E.
  - destruct (ReadFull_inv n s d s' Hn E) as [-> Hl]. apply Forall_app in Hb as [? _].
    split; [done|by exists d].
  - unfold ReadFull in E. repeat case_match; simplify_eq; apply suffix_nil.
  - unfold ReadFull in E. repeat case_match; simplify_eq.
Qed.

(** * Lemmas on machine integers *)

Lemma u8_range z : 0 ≤ u8 z < 256.
Proof. unfold u8. apply Z.mod_pos_bound. lia. Qed.

Lemma u8_small z : 0 ≤ z < 256 → u8 z = z.
Proof. intros. unfold u8. apply Z.mod_small. lia. Qed.

Lemma u16_small z : 0 ≤ z < 65536 → u16 z = z.
Proof. intros. unfold u16. apply Z.mod_small. lia. Qed.

Lemma u32_small z : 0 ≤ z < 2 ^ 32 → u32 z = z.
Proof. intros. unfold u32. by apply Z.mod_small. Qed.

Lemma u64_small z : 0 ≤ z < 2 ^ 64 → u64 z = z.
Proof. intros. unfold u64. by apply Z.mod_small. Qed.

Lemma u64_range z : 0 ≤ u64 z < 2 ^ 64.
Proof. unfold u64. by apply Z.mod_pos_bound. Qed.

Lemma i64_small z : - 2 ^ 63 ≤ z < 2 ^ 63 → i64 z = z.
Proof. intros. unfold i64. rewrite Z.mod_small; lia. Qed.

Lemma i64_range z : - 2 ^ 63 ≤ i64 z < 2 ^ 63.
Proof. unfold i64. pose proof (Z.mod_pos_bound (z + 2 ^ 63) (2 ^ 64)). lia. Qed.

Create Rewrite HintDb blen.
#[export] Hint Rewrite @blen_app @blen_cons @blen_nil : blen.

(** A property of the integers below a bound, by evaluation. *)
Lemma forall_below (n : Z) (P : Z → bool) :
  forallb P (seqZ 0 n) = true → ∀ x, 0 ≤ x < n → P x = true.
Proof.
  intros H x Hx. rewrite forallb_forall in H. apply H.
  apply list_elem_of_In, elem_of_seqZ. lia.
Qed.

(** * [sort.Search]

    Binary search for the smallest index in [\[0, n)] at which a monotone
    predicate holds.  The interval shrinks at every step, so [n] steps are
    enough. *)
Fixpoint search_loop (fuel : nat) (f : Z → bool) (i j : Z) : Z :=
  match fuel with
  | O => i
  | S fuel =>
      if i <? j then
        let h := (i + j) / 2 in
        if negb (f h) then search_loop fuel f (h + 1) j else search_loop fuel f i h
      else i
  end.

Definition Search (n : Z) (f : Z → bool) : Z := search_loop (Z.to_nat n) f 0 n.

Lemma search_loop_spec fuel f i j : 0 ≤ i ≤ j → j - i ≤ Z.of_nat fuel →
  (∀ a b, i ≤ a ≤ b → b < j → f a = true → f b = true) →
  let r := search_loop fuel f i j in
  i ≤ r ≤ j ∧ (∀ k, i ≤ k < r → f k = false) ∧ (r < j → f r = true).
Proof.
  revert i j. induction fuel as [|fuel IH]; intros i j Hij Hf Hmono; simpl.
  { split; [lia|]. split; intros; lia. }
  destruct (Z.ltb_spec i j) as [Hlt|Hge]; [|split; [lia|split; intros; lia]].
  assert (Hh : i ≤ (i + j) / 2 < j).
  { split; [apply Z.div_le_lower_bound; lia|apply Z.div_lt_upper_bound; lia]. }
  set (h := (i + j) / 2) in *. destruct (f h) eqn:Eh; simpl.
  - destruct (IH i h) as (H1 & H2 & H3); [lia|lia|intros; eapply Hmono; eauto; lia|].
    split; [lia|]. split; [done|]. intros Hr.
    destruct (Z.eq_dec (search_loop fuel f i h) h) as [E|E]; [by rewrite E|]. apply H3. lia.
  - destruct (IH (h + 1) j) as (H1 & H2 & H3); [lia|lia|intros; eapply Hmono; eauto; lia|].
    split; [lia|]. split; [|done]. intros k Hk.
    destruct (Z.lt_ge_cases h k); [apply H2; lia|].
    destruct (f k) eqn:Ek; [|done]. rewrite (Hmono k h) in Eh; [done|lia|lia|done].
Qed.

Lemma Search_spec n f : 0 ≤ n → (∀ a b, 0 ≤ a ≤ b → b < n → f a = true → f b = true) →
  let r := Search n f in
  0 ≤ r ≤ n ∧ (∀ k, 0 ≤ k < r → f k = false) ∧ (r < n → f r = true).
Proof. intros Hn Hm. apply search_loop_spec; [lia|lia|done]. Qed.

(** Case analysis on the boolean comparisons of the code. *)
Ltac zcase :=
  match goal with
  | |- context [?a <=? ?b] => destruct (Z.leb_spec a b)
  | |- context [?a <? ?b] => destruct (Z.ltb_spec a b)
  | |- context [?a =? ?b] => destruct (Z.eqb_spec a b)
  end.

Ltac zcase_in H :=
  match type of H with
  | context [?a <=? ?b] => destruct (Z.leb_spec a b)
  | context [?a <? ?b] => destruct (Z.ltb_spec a b)
  | context [?a =? ?b] => destruct (Z.eqb_spec a b)
  end.
