(* ===== verification/Varint.v ===== *)
(** QUIC variable-length integers (src/quicvarint/varint.go): [Read],
    [Append], [AppendWithLen] and [Len], the round trip of the encoding, its
    length, and the bounds of what the reader returns. *)

From S2P Require Import Prelude.

Module quicvarint.

Definition maxVarInt1 : Z := 63.
Definition maxVarInt2 : Z := 16383.
Definition maxVarInt4 : Z := 1073741823.
Definition maxVarInt8 : Z := 4611686018427387903.
Definition Max : Z := maxVarInt8.

(** The length is a power of two given by the two top bits of the first byte. *)
Definition Read : rd Z :=
  firstByte ← ReadByte;
  let len := Z.shiftl 1 (Z.shiftr (Z.land firstByte 0xc0) 6) in
  let b1 := Z.land firstByte (0xff - 0xc0) in
  if len =? 1 then mret b1 else
  b2 ← ReadByte;
  if len =? 2 then mret (u64 (b2 + Z.shiftl b1 8)) else
  b3 ← ReadByte;
  b4 ← ReadByte;
  if len =? 4 then mret (u64 (b4 + Z.shiftl b3 8 + Z.shiftl b2 16 + Z.shiftl b1 24)) else
  b5 ← ReadByte;
  b6 ← ReadByte;
  b7 ← ReadByte;
  b8 ← ReadByte;
  mret (u64 (b8 + Z.shiftl b7 8 + Z.shiftl b6 16 + Z.shiftl b5 24 + Z.shiftl b4 32
             + Z.shiftl b3 40 + Z.shiftl b2 48 + Z.shiftl b1 56)).

Definition Append (b : bytes) (i : Z) : res bytes :=
  if i <=? maxVarInt1 then Ok (b ++ [u8 i]) else
  if i <=? maxVarInt2 then Ok (b ++ [Z.lor (u8 (Z.shiftr i 8)) 0x40; u8 i]) else
  if i <=? maxVarInt4 then
    Ok (b ++ [Z.lor (u8 (Z.shiftr i 24)) 0x80; u8 (Z.shiftr i 16); u8 (Z.shiftr i 8); u8 i]) else
  if i <=? maxVarInt8 then
    Ok (b ++ [Z.lor (u8 (Z.shiftr i 56)) 0xc0; u8 (Z.shiftr i 48); u8 (Z.shiftr i 40);
              u8 (Z.shiftr i 32); u8 (Z.shiftr i 24); u8 (Z.shiftr i 16); u8 (Z.shiftr i 8); u8 i])
  else Panic "doesn't fit into 62 bits".

Definition Len (i : Z) : res Z :=
  if i <=? maxVarInt1 then Ok 1 else
  if i <=? maxVarInt2 then Ok 2 else
  if i <=? maxVarInt4 then Ok 4 else
  if i <=? maxVarInt8 then Ok 8 else
  Panic "value doesn't fit into 62 bits: ".

(** The two loops of the Go code: [length-l-1] zero bytes, then the [l] low
    bytes of [i], most significant first. *)
Definition AppendWithLen (b : bytes) (i : Z) (length : Z) : res bytes :=
  if negb (length =? 1) && negb (length =? 2) && negb (length =? 4) && negb (length =? 8)
  then Panic "invalid varint length" else
  l ← Len i;
  if l =? length then Append b i else
  if length <? l then Panic "cannot encode in that many bytes" else
  let b := if length =? 2 then b ++ [0x40]
           else if length =? 4 then b ++ [0x80]
           else if length =? 8 then b ++ [0xc0] else b in
  let b := b ++ replicate (Z.to_nat (length - l - 1)) 0 in
  Ok (b ++ map (λ j, u8 (Z.shiftr i (8 * (l - 1 - j)))) (seqZ 0 l)).

(** ** Specification: encoding as a pure function, encodable values *)

Definition encodable (i : Z) : Prop := 0 ≤ i ≤ Max.

Definition enc (i : Z) : bytes :=
  match Append [] i with Ok e => e | _ => [] end.

Definition size (i : Z) : Z :=
  match Len i with Ok l => l | _ => 0 end.

#[global] Instance encodable_dec i : Decision (encodable i).
Proof. unfold encodable. apply _. Defined.

Lemma encodable_u64 i : encodable i → u64 i = i.
Proof. unfold encodable, Max, maxVarInt8. intros. apply u64_small. lia. Qed.

Lemma encodable_i64 i : encodable i → i64 i = i.
Proof. unfold encodable, Max, maxVarInt8. intros. apply i64_small. lia. Qed.

Lemma Append_enc b i : encodable i → Append b i = Ok (b ++ enc i).
Proof.
  unfold encodable, enc, Append, Max. intros [H1 H2].
  repeat (zcase; [done|]). lia.
Qed.

Lemma Len_size i : encodable i → Len i = Ok (size i).
Proof. unfold encodable, size, Len, Max. intros [H1 H2]. repeat (zcase; [done|]). lia. Qed.

(** [Len] is the number of bytes [Append] writes. *)
Lemma blen_enc i : encodable i → blen (enc i) = size i.
Proof.
  unfold encodable, enc, size, Append, Len, Max. intros [H1 H2].
  repeat (zcase; [done|]). lia.
Qed.

Lemma size_range i : encodable i → 1 ≤ size i ≤ 8.
Proof.
  unfold encodable, size, Len, Max. intros [H1 H2]. repeat (zcase; [lia|]). lia.
Qed.

Lemma size_nonneg i : 0 ≤ size i.
Proof. unfold size, Len. repeat zcase; lia. Qed.

Lemma size_mono i j : 0 ≤ i ≤ j → j ≤ Max → size i ≤ size j.
Proof.
  unfold size, Len, Max, maxVarInt1, maxVarInt2, maxVarInt4, maxVarInt8. intros.
  repeat zcase; lia.
Qed.

(** ** The first byte *)

Lemma first_byte_tag (x : Z) (t : Z) :
  0 ≤ x < 64 → 0 ≤ t < 4 →
  Z.shiftr (Z.land (Z.lor x (64 * t)) 0xc0) 6 = t ∧ Z.land (Z.lor x (64 * t)) 0x3f = x.
Proof.
  intros Hx Ht.
  pose proof (forall_below 4 (λ t, forallb (λ x,
     (Z.shiftr (Z.land (Z.lor x (64 * t)) 0xc0) 6 =? t) &&
     (Z.land (Z.lor x (64 * t)) 0x3f =? x)) (seqZ 0 64)) ltac:(by vm_compute) t Ht) as H.
  pose proof (forall_below 64 _ H x Hx) as H'. simpl in H'.
  apply andb_prop in H' as [H1 H2]. apply Z.eqb_eq in H1, H2. done.
Qed.

Lemma first_byte_range (x : Z) : 0 ≤ x < 256 →
  0 ≤ Z.shiftr (Z.land x 0xc0) 6 < 4 ∧ 0 ≤ Z.land x 0x3f < 64.
Proof.
  intros Hx.
  pose proof (forall_below 256 (λ x,
     (0 <=? Z.shiftr (Z.land x 0xc0) 6) && (Z.shiftr (Z.land x 0xc0) 6 <? 4) &&
     (0 <=? Z.land x 0x3f) && (Z.land x 0x3f <? 64)) ltac:(by vm_compute) x Hx) as H.
  simpl in H. lia.
Qed.

(** Splitting off the lowest byte of a non-negative integer. *)
Lemma shiftr_byte i k k' : 0 ≤ k → k' = k + 8 →
  Z.shiftr i k = u8 (Z.shiftr i k) + Z.shiftr i k' * 256 ∧ 0 ≤ u8 (Z.shiftr i k) < 256.
Proof.
  intros ? ->. split; [|apply u8_range]. unfold u8. rewrite <- Z.shiftr_shiftr by lia.
  rewrite (Z.shiftr_div_pow2 (Z.shiftr i k) 8) by lia. change (2 ^ 8) with 256.
  pose proof (Z.div_mod (Z.shiftr i k) 256). lia.
Qed.

Lemma u8_shiftr_small i k n : 0 ≤ k → 0 ≤ i < n * 2 ^ k → 0 < n ≤ 256 →
  u8 (Z.shiftr i k) = Z.shiftr i k ∧ 0 ≤ Z.shiftr i k < n.
Proof.
  intros Hk Hi Hn. assert (0 ≤ Z.shiftr i k < n).
  { rewrite Z.shiftr_div_pow2 by lia. split; [apply Z.div_pos; lia|].
    apply Z.div_lt_upper_bound; lia. }
  split; [|done]. apply u8_small. lia.
Qed.

(** One [ReadByte] of a non-empty input. *)
Ltac read_byte := erewrite rd_bind_ok; [|apply ReadByte_cons].

Lemma Read_enc i s : encodable i → Read (enc i ++ s) = (Ok i, s).
Proof.
  unfold encodable, Max, enc, Append, maxVarInt1, maxVarInt2, maxVarInt4, maxVarInt8.
  intros [Hi0 Hi]. unfold Read. change (0xff - 0xc0) with 0x3f. repeat zcase; simpl app; try lia.
  - read_byte.
    destruct (first_byte_tag (u8 i) 0) as [Ht Hx]; [rewrite u8_small; lia|lia|].
    rewrite Z.mul_0_r, Z.lor_0_r in Ht, Hx. rewrite Ht, Hx, u8_small by lia. done.
  - destruct (u8_shiftr_small i 8 64) as [E R]; [lia..|].
    destruct (first_byte_tag (u8 (Z.shiftr i 8)) 1) as [Ht Hx]; [lia..|].
    change (64 * 1) with 64 in *. read_byte. rewrite Ht. simpl (Z.shiftl 1 1 =? 1). cbv iota.
    read_byte. rewrite Hx, E. unfold mret, rd_ret. repeat f_equal.
    rewrite u64_small; rewrite Z.shiftl_mul_pow2 by lia;
      pose proof (shiftr_byte i 0 8 ltac:(lia) eq_refl); rewrite Z.shiftr_0_r in *; lia.
  - destruct (u8_shiftr_small i 24 64) as [E R]; [lia..|].
    destruct (first_byte_tag (u8 (Z.shiftr i 24)) 2) as [Ht Hx]; [lia..|].
    change (64 * 2) with 128 in *. read_byte. rewrite Ht.
    simpl (Z.shiftl 1 2 =? 1). cbv iota. read_byte.
    simpl (Z.shiftl 1 2 =? 2). cbv iota. do 2 read_byte. rewrite Hx, E.
    simpl (Z.shiftl 1 2 =? 4). unfold mret, rd_ret. repeat f_equal.
    pose proof (shiftr_byte i 0 8 ltac:(lia) eq_refl); pose proof (shiftr_byte i 8 16 ltac:(lia) eq_refl);
    pose proof (shiftr_byte i 16 24 ltac:(lia) eq_refl). rewrite Z.shiftr_0_r in *.
    rewrite u64_small; rewrite !Z.shiftl_mul_pow2 by lia; lia.
  - destruct (u8_shiftr_small i 56 64) as [E R]; [lia..|].
    destruct (first_byte_tag (u8 (Z.shiftr i 56)) 3) as [Ht Hx]; [lia..|].
    change (64 * 3) with 192 in *. read_byte. rewrite Ht.
    simpl (Z.shiftl 1 3 =? 1). cbv iota. read_byte.
    simpl (Z.shiftl 1 3 =? 2). cbv iota. do 2 read_byte.
    simpl (Z.shiftl 1 3 =? 4). cbv iota. do 4 read_byte. rewrite Hx, E.
    unfold mret, rd_ret. repeat f_equal.
    pose proof (shiftr_byte i 0 8 ltac:(lia) eq_refl); pose proof (shiftr_byte i 8 16 ltac:(lia) eq_refl);
    pose proof (shiftr_byte i 16 24 ltac:(lia) eq_refl); pose proof (shiftr_byte i 24 32 ltac:(lia) eq_refl);
    pose proof (shiftr_byte i 32 40 ltac:(lia) eq_refl); pose proof (shiftr_byte i 40 48 ltac:(lia) eq_refl);
    pose proof (shiftr_byte i 48 56 ltac:(lia) eq_refl). rewrite Z.shiftr_0_r in *.
    rewrite u64_small; rewrite !Z.shiftl_mul_pow2 by lia; lia.
Qed.

(** ** What the reader returns on arbitrary input *)

Lemma first_byte_cases x : 0 ≤ x < 256 →
  let len := Z.shiftl 1 (Z.shiftr (Z.land x 0xc0) 6) in
  (len = 1 ∨ len = 2 ∨ len = 4 ∨ len = 8) ∧ 0 ≤ Z.land x 0x3f < 64.
Proof.
  intros H. destruct (first_byte_range x H) as [[H1 H2] H3]. split; [|done].
  assert (Z.shiftr (Z.land x 0xc0) 6 = 0 ∨ Z.shiftr (Z.land x 0xc0) 6 = 1 ∨
          Z.shiftr (Z.land x 0xc0) 6 = 2 ∨ Z.shiftr (Z.land x 0xc0) 6 = 3)
    as [->|[->|[->| ->]]] by lia; simpl; auto.
Qed.

(** [Read] on well-formed bytes: it never panics, fails only with [io.EOF],
    and otherwise consumes 1, 2, 4 or 8 bytes and returns a 62-bit value. *)
Lemma Read_spec s : bytes_ok s →
  (∃ w v s', Read s = (Ok v, s') ∧ s = w ++ s' ∧ encodable v ∧ 1 ≤ blen w ≤ 8)
  ∨ (∃ s', Read s = (Err EOF, s') ∧ suffix s' s).
Proof.
  intros Hs. unfold encodable, Max, maxVarInt8, Read. change (0xff - 0xc0) with 0x3f.
  unfold mbind, rd_bind, mret, rd_ret, ReadByte.
  destruct s as [|x s]; [right; eexists; split; [done|apply suffix_nil]|].
  apply Forall_cons in Hs as [Hx Hs]. unfold is_byte in Hx.
  destruct (first_byte_cases x Hx) as [Hlen Hb1].
  destruct Hlen as [E|[E|[E|E]]]; rewrite E; simpl;
    [left; exists [x], (Z.land x 63), s; unfold blen; simpl; repeat split; try done; lia|..];
    repeat match goal with
    | |- context [match ?s with [] => _ | _ => _ end] =>
        is_var s; destruct s as [|? s];
        [right; eexists; split; [reflexivity|apply suffix_nil]|];
        let Hb := fresh "Hb" in
        match goal with H : Forall is_byte (_ :: _) |- _ => apply Forall_cons in H as [Hb H] end;
        unfold is_byte in Hb; simpl
    end;
    left; rewrite !Z.shiftl_mul_pow2 by lia; rewrite u64_small by lia.
  - exists [x; z], (z + Z.land x 63 * 2 ^ 8), s. unfold blen; simpl length. repeat split; lia.
  - exists [x; z; z0; z1]. do 2 eexists. split; [reflexivity|]. unfold blen; simpl length.
    repeat split; lia.
  - exists [x; z; z0; z1; z2; z3; z4; z5]. do 2 eexists. split; [reflexivity|].
    unfold blen; simpl length. repeat split; lia.
Qed.

Lemma Read_inv s v s' : bytes_ok s → Read s = (Ok v, s') →
  encodable v ∧ bytes_ok s' ∧ ∃ w, s = w ++ s' ∧ 1 ≤ blen w ≤ 8.
Proof.
  intros Hs H. destruct (Read_spec s Hs) as [(w & v' & s1 & E & -> & He & Hl)|(s1 & E & _)];
    rewrite E in H; simplify_eq.
  repeat split; [apply He..| |by eauto]. by apply Forall_app in Hs as [_ ?].
Qed.

Lemma Read_safe N : rd_safe N encodable Read.
Proof.
  intros s [Hs _]. destruct (Read_spec s Hs) as [(w & v & s' & -> & -> & Hv & _)|(s' & -> & Hsuf)];
    [|done]. split; [done|by exists w].
Qed.

(** ** Encodings of a prescribed length *)

Ltac eval_lens :=
  change (seqZ 0 1) with [0]; change (seqZ 0 2) with [0; 1]; change (seqZ 0 4) with [0; 1; 2; 3];
  simpl map;
  repeat match goal with
  | |- context [8 * (?a - 1 - ?b)] =>
      let v := eval vm_compute in (8 * (a - 1 - b)) in change (8 * (a - 1 - b)) with v
  | |- context [Z.to_nat (?a - ?b - 1)] =>
      let v := eval vm_compute in (Z.to_nat (a - b - 1)) in change (Z.to_nat (a - b - 1)) with v
  end; simpl replicate.

Ltac eval_tag :=
  match goal with
  | |- context [Z.shiftl 1 (Z.shiftr (Z.land ?x 192) 6)] =>
      let v := eval vm_compute in (Z.shiftl 1 (Z.shiftr (Z.land x 192) 6)) in
      change (Z.shiftl 1 (Z.shiftr (Z.land x 192) 6)) with v;
      let w := eval vm_compute in (Z.land x (255 - 192)) in
      change (Z.land x (255 - 192)) with w; cbv [Z.eqb Pos.eqb]
  end.

Lemma AppendWithLen_enc b i l : encodable i → l ∈ [1; 2; 4; 8] → size i ≤ l →
  ∃ w, AppendWithLen b i l = Ok (b ++ w) ∧ blen w = l ∧ ∀ s, Read (w ++ s) = (Ok i, s).
Proof.
  intros Hi Hl Hle. unfold AppendWithLen. rewrite (Len_size i Hi). simpl mbind.
  assert (Hg : negb (l =? 1) && negb (l =? 2) && negb (l =? 4) && negb (l =? 8) = false).
  { set_unfold in Hl. destruct Hl as [->|[->|[->|[->|[]]]]]; reflexivity. }
  rewrite Hg. destruct (Z.eqb_spec (size i) l) as [E|E].
  { exists (enc i). rewrite Append_enc by done. split; [done|].
    split; [by rewrite blen_enc|]. intros s. by apply Read_enc. }
  rewrite (proj2 (Z.ltb_ge l (size i))) by lia.
  assert (Hc : size i = 1 ∧ i ≤ 63 ∨ size i = 2 ∧ i ≤ 16383 ∨ size i = 4 ∧ i ≤ 1073741823 ∨ size i = 8).
  { unfold size, Len, maxVarInt1, maxVarInt2, maxVarInt4, maxVarInt8.
    destruct Hi as [? Hi]; unfold Max, maxVarInt8 in Hi. repeat zcase; lia. }
  destruct Hi as [Hi0 Hi].
  set_unfold in Hl.
  destruct Hl as [->|[->|[->|[->|[]]]]]; destruct Hc as [[Hsz Hi']|[[Hsz Hi']|[[Hsz Hi']|Hsz]]];
    try lia; rewrite Hsz; eval_lens; cbv [Z.eqb Pos.eqb]; rewrite <- ?app_assoc;
    (eexists; split; [reflexivity|]; split; [reflexivity|]);
    intros s; unfold Read; simpl app; repeat (read_byte; try eval_tag);
    unfold mret, rd_ret; f_equal; f_equal; rewrite ?Z.shiftr_0_r;
    try pose proof (u8_range (Z.shiftr i 24)); try pose proof (u8_range (Z.shiftr i 16));
    try pose proof (u8_range (Z.shiftr i 8)); try pose proof (u8_range i);
    rewrite u64_small; rewrite !Z.shiftl_mul_pow2 by lia;
    pose proof (shiftr_byte i 0 8 ltac:(lia) eq_refl) as B0;
    pose proof (shiftr_byte i 8 16 ltac:(lia) eq_refl) as B1;
    pose proof (shiftr_byte i 16 24 ltac:(lia) eq_refl) as B2;
    pose proof (shiftr_byte i 24 32 ltac:(lia) eq_refl) as B3;
    assert (Z.shiftr i 32 = 0) by (rewrite Z.shiftr_div_pow2 by lia; apply Z.div_small; lia);
    rewrite ?Z.shiftr_0_r in *; lia.
Qed.

(** ** Properties *)

(** Writing a value with [quicvarint.Append] never fails for a 62-bit
    value, writes [quicvarint.Len] bytes, and [quicvarint.Read] returns the
    value and leaves exactly what followed it; a larger value panics.
    [quicvarint.AppendWithLen] with a length of 1, 2, 4 or 8 bytes that is large
    enough writes exactly that many bytes, read back in the same way. *)
Theorem Append_Read_roundtrip (b s : bytes) (i : Z) : 0 ≤ i →
  (i ≤ Max → ∃ w, Append b i = Ok (b ++ w) ∧ Len i = Ok (blen w) ∧ Read (w ++ s) = (Ok i, s) ∧
     ∀ l, l ∈ [1; 2; 4; 8] → blen w ≤ l →
       ∃ w', AppendWithLen b i l = Ok (b ++ w') ∧ blen w' = l ∧ Read (w' ++ s) = (Ok i, s)) ∧
  (Max < i → Append b i = Panic "doesn't fit into 62 bits").
Proof.
  intros H0. split.
  - intros H. assert (Hi : encodable i) by done. exists (enc i).
    rewrite Append_enc, Len_size, (blen_enc i), (Read_enc i) by done. split_and!; [done..|]. intros l Hl Hle.
    destruct (AppendWithLen_enc b i l Hi Hl Hle) as (w & ? & ? & ?). eauto.
  - intros H. unfold Append, Max in *. unfold maxVarInt1, maxVarInt2, maxVarInt4, maxVarInt8 in *. repeat (zcase; [lia|]). done.
Qed.

Lemma Append_Read_roundtrip_witness :
  ∃ w, Append [7] 494878333 = Ok ([7] ++ w) ∧ Len 494878333 = Ok (blen w) ∧
       Read (w ++ [1; 2]) = (Ok 494878333, [1; 2]) ∧
       ∃ w', AppendWithLen [7] 494878333 8 = Ok ([7] ++ w') ∧ blen w' = 8 ∧ Read (w' ++ [1; 2]) = (Ok 494878333, [1; 2]).
Proof.
  destruct (proj1 (Append_Read_roundtrip [7] [1; 2] 494878333 ltac:(lia))) as (w & Ha & Hl & Hr & H); [vm_compute; discriminate|].
  exists w. split_and!; [done..|]. apply H; [set_solver|]. change (Len 494878333) with (Ok 4) in Hl. injection Hl as <-. lia.
Defined.

End quicvarint.
