(* ===== verification/Protocol.v ===== *)
(** Protocol-level types and arithmetic (src/internal/protocol): packet number
    truncation and recovery (packet_number.go), stream identifiers
    (stream.go), connection identifiers (connection_id.go), ECN code points,
    encryption levels, perspectives, key phases and the constants used by the
    other components. *)

From S2P Require Import Prelude.

Module protocol.

(** ** Constants (protocol.go, params.go) *)

Definition MaxByteCount : Z := 2 ^ 62 - 1.
Definition InvalidByteCount : Z := -1.
Definition MaxPacketBufferSize : Z := 1452.
Definition MaxFECHeaderOverhead : Z := 18.
Definition MaxFECPacketBufferSize : Z := MaxPacketBufferSize - MaxFECHeaderOverhead.
Definition RepairPayloadMetadataLen : Z := 2.
Definition FECDisabled : Z := 0x0.
Definition XORFECScheme : Z := 0x1.
Definition ReedSolomonFECScheme : Z := 0x2.
Definition DefaultAckDelayExponent : Z := 3.
Definition MaxAckDelayExponent : Z := 20.
Definition AckDelayExponent : Z := 3.
Definition MaxAckFrameSize : Z := 1000.
Definition MaxNumAckRanges : Z := 32.
Definition MinStreamFrameBufferSize : Z := 128.
Definition MaxStreamFrameSorterGaps : Z := 1000.
Definition MaxConnIDLen : Z := 20.
Definition MaxStreamCount : Z := 2 ^ 60.

(** ** Enumerations *)

Inductive Perspective : Type := PerspectiveServer | PerspectiveClient.
Inductive StreamType : Type := StreamTypeUni | StreamTypeBidi.
Inductive EncryptionLevel : Type :=
| EncryptionInitial | EncryptionHandshake | Encryption0RTT | Encryption1RTT.
Inductive ECN : Type := ECNUnsupported | ECNNon | ECT1 | ECT0 | ECNCE.
Inductive KeyPhaseBit : Type := KeyPhaseUndefined | KeyPhaseZero | KeyPhaseOne.

#[global] Instance Perspective_eq_dec : EqDecision Perspective.
Proof. solve_decision. Defined.
#[global] Instance StreamType_eq_dec : EqDecision StreamType.
Proof. solve_decision. Defined.
#[global] Instance EncryptionLevel_eq_dec : EqDecision EncryptionLevel.
Proof. solve_decision. Defined.
#[global] Instance ECN_eq_dec : EqDecision ECN.
Proof. solve_decision. Defined.

(** [3 - p] on the constants 1 (server) and 2 (client). *)
Definition Opposite (p : Perspective) : Perspective :=
  match p with PerspectiveServer => PerspectiveClient | PerspectiveClient => PerspectiveServer end.

Definition KeyPhase_Bit (p : Z) : KeyPhaseBit :=
  if p mod 2 =? 0 then KeyPhaseZero else KeyPhaseOne.

Definition ParseECNHeaderBits (bits : Z) : res ECN :=
  if bits =? 0 then Ok ECNNon
  else if bits =? 2 then Ok ECT0
  else if bits =? 1 then Ok ECT1
  else if bits =? 3 then Ok ECNCE
  else Panic "invalid ECN bits".

Definition ToHeaderBits (e : ECN) : res Z :=
  match e with
  | ECNNon => Ok 0
  | ECT0 => Ok 2
  | ECT1 => Ok 1
  | ECNCE => Ok 3
  | ECNUnsupported => Panic "ECN unsupported"
  end.

(** ** Packet numbers *)

Definition InvalidPacketNumber : Z := -1.

Definition delta (a b : Z) : Z := if a <? b then b - a else a - b.

Definition closestTo (target a b : Z) : Z :=
  if delta target a <? delta target b then a else b.

(** A [PacketNumberLen] other than 1 to 4 leaves [epochDelta] at zero. *)
Definition epochDelta (packetNumberLength : Z) : Z :=
  if packetNumberLength =? 1 then Z.shiftl 1 8
  else if packetNumberLength =? 2 then Z.shiftl 1 16
  else if packetNumberLength =? 3 then Z.shiftl 1 24
  else if packetNumberLength =? 4 then Z.shiftl 1 32
  else 0.

Definition DecodePacketNumber (packetNumberLength lastPacketNumber wirePacketNumber : Z) : Z :=
  let epochDelta := epochDelta packetNumberLength in
  let epoch := Z.land lastPacketNumber (Z.lnot (epochDelta - 1)) in
  let prevEpochBegin := if epochDelta <? epoch then epoch - epochDelta else 0 in
  let nextEpochBegin := epoch + epochDelta in
  closestTo (lastPacketNumber + 1) (epoch + wirePacketNumber)
    (closestTo (lastPacketNumber + 1) (prevEpochBegin + wirePacketNumber)
               (nextEpochBegin + wirePacketNumber)).

Definition GetPacketNumberLengthForHeader (packetNumber leastUnacked : Z) : Z :=
  let diff := u64 (i64 (packetNumber - leastUnacked)) in
  if diff <? Z.shiftl 1 (16 - 1) then 2
  else if diff <? Z.shiftl 1 (24 - 1) then 3
  else 4.

(** ** Streams *)

Definition InvalidStreamID : Z := -1.

(** The switch that sets the variable [first]. *)
Definition first_id (stype : StreamType) (pers : Perspective) : Z :=
  match stype, pers with
  | StreamTypeBidi, PerspectiveClient => 0
  | StreamTypeBidi, PerspectiveServer => 1
  | StreamTypeUni, PerspectiveClient => 2
  | StreamTypeUni, PerspectiveServer => 3
  end.

Definition StreamNum_StreamID (s : Z) (stype : StreamType) (pers : Perspective) : Z :=
  if s =? 0 then InvalidStreamID else
  i64 (first_id stype pers + 4 * (s - 1)).

Definition StreamID_InitiatedBy (s : Z) : Perspective :=
  if Z.rem s 2 =? 0 then PerspectiveClient else PerspectiveServer.

Definition StreamID_Type (s : Z) : StreamType :=
  if 2 <=? Z.rem s 4 then StreamTypeUni else StreamTypeBidi.

Definition StreamID_StreamNum (s : Z) : Z := Z.quot s 4 + 1.

(** ** Connection IDs *)

Record ConnectionID : Type := mkConnectionID {
  cid_b : bytes;   (* [20]byte *)
  cid_l : Z;       (* uint8 *)
}.

#[global] Instance ConnectionID_eq_dec : EqDecision ConnectionID.
Proof. solve_decision. Defined.

Definition maxConnectionIDLen : Z := 20.

Definition ConnectionID_zero : ConnectionID := mkConnectionID (replicate 20 0) 0.

Definition ConnectionID_Len (c : ConnectionID) : Z := cid_l c.

Definition ConnectionID_Bytes (c : ConnectionID) : bytes := take (Z.to_nat (cid_l c)) (cid_b c).

(** [copy(c.b[:c.l], b)] into a zeroed array. *)
Definition cid_array (b : bytes) : bytes := b ++ replicate (20 - length b) 0.

Definition ParseConnectionID (b : bytes) : res ConnectionID :=
  if maxConnectionIDLen <? blen b then Panic "invalid conn id length"
  else Ok (mkConnectionID (cid_array b) (u8 (blen b))).

Definition ErrInvalidConnectionIDLen : go_error := ErrMsg "invalid Connection ID length".

Definition ReadConnectionID (l : Z) : rd ConnectionID := λ s,
  if l =? 0 then (Ok ConnectionID_zero, s)
  else if maxConnectionIDLen <? l then (Err ErrInvalidConnectionIDLen, s)
  else match ReadFull l s with
       | (Ok d, s') => (Ok (mkConnectionID (cid_array d) (u8 l)), s')
       | (Err ErrUnexpectedEOF, s') => (Err EOF, s')
       | (Err e, s') => (Err e, s')
       | (Panic p, s') => (Panic p, s')
       end.

(** Connection IDs as the constructors build them: the array has 20 bytes and
    the bytes beyond the length are zero. *)
Definition ConnectionID_wf (c : ConnectionID) : Prop :=
  ∃ d, blen d ≤ 20 ∧ cid_b c = cid_array d ∧ cid_l c = blen d.

(** ** Lemmas *)

Lemma epochDelta_pow l : 1 ≤ l ≤ 4 → epochDelta l = 2 ^ (8 * l).
Proof.
  intros. assert (l = 1 ∨ l = 2 ∨ l = 3 ∨ l = 4) as [->|[->|[->| ->]]] by lia; reflexivity.
Qed.

Lemma land_lnot_ones a n : 0 ≤ n → Z.land a (Z.lnot (2 ^ n - 1)) = 2 ^ n * (a / 2 ^ n).
Proof.
  intros Hn. replace (2 ^ n - 1) with (Z.ones n) by (rewrite Z.ones_equiv; lia).
  rewrite <- Z.ldiff_land, Z.ldiff_ones_r, Z.shiftl_mul_pow2, Z.shiftr_div_pow2 by lia. lia.
Qed.

Lemma delta_abs a b : delta a b = Z.abs (a - b).
Proof. unfold delta. zcase; lia. Qed.

Lemma closestTo_cases t a b :
  (closestTo t a b = a ∧ Z.abs (t - a) < Z.abs (t - b)) ∨
  (closestTo t a b = b ∧ Z.abs (t - b) ≤ Z.abs (t - a)).
Proof. unfold closestTo. rewrite !delta_abs. zcase; lia. Qed.

(** The candidate at distance less than half an epoch is selected. *)
Lemma closestTo_unique D t x y z : 0 < D →
  Z.abs (x - t) * 2 < D → (y = x ∨ Z.abs (y - x) >= D) → (z = x ∨ Z.abs (z - x) >= D) →
  closestTo t x (closestTo t y z) = x ∧
  closestTo t y (closestTo t x z) = x ∧ closestTo t y (closestTo t z x) = x.
Proof.
  intros HD Hx Hy Hz.
  split_and!.
  - destruct (closestTo_cases t y z) as [[-> ?]|[-> ?]];
      edestruct (closestTo_cases t x) as [[-> ?]|[-> ?]]; destruct Hy, Hz; lia.
  - destruct (closestTo_cases t x z) as [[-> ?]|[-> ?]];
      edestruct (closestTo_cases t y) as [[-> ?]|[-> ?]]; destruct Hy, Hz; lia.
  - destruct (closestTo_cases t z x) as [[-> ?]|[-> ?]];
      edestruct (closestTo_cases t y) as [[-> ?]|[-> ?]]; destruct Hy, Hz; lia.
Qed.

Lemma DecodePacketNumber_window l last pn :
  1 ≤ l ≤ 4 → 0 ≤ last → 0 ≤ pn → Z.abs (pn - (last + 1)) * 2 < 2 ^ (8 * l) →
  DecodePacketNumber l last (pn mod 2 ^ (8 * l)) = pn.
Proof.
  intros Hl Hlast Hpn Hw. unfold DecodePacketNumber. rewrite epochDelta_pow by done.
  rewrite land_lnot_ones by lia.
  set (D := 2 ^ (8 * l)) in *. assert (0 < D) by (apply Z.pow_pos_nonneg; lia).
  pose proof (Z.div_mod pn D). pose proof (Z.div_mod last D).
  pose proof (Z.mod_pos_bound pn D). pose proof (Z.mod_pos_bound last D).
  set (q := pn / D) in *. set (e := last / D) in *. set (w := pn mod D) in *.
  assert (0 ≤ e) by (apply Z.div_pos; lia). assert (0 ≤ q) by (apply Z.div_pos; lia).
  set (P := if D <? D * e then D * e - D else 0).
  assert (P = D * e - D ∨ e = 0 ∧ P = 0 ∧ D * e = 0) as HP.
  { subst P. destruct (Z.ltb_spec D (D * e)); [lia|]. assert (e ≤ 1) by nia.
    assert (e = 0 ∨ e = 1) as [He|He] by lia; rewrite He; lia. }
  assert (q = e ∨ q = e - 1 ∨ q = e + 1) as [Hq|[Hq|Hq]] by nia.
  - rewrite Hq in *. replace (D * e + w) with pn by lia. apply (closestTo_unique D); lia.
  - rewrite Hq in *. assert (D * (e - 1) = D * e - D) by lia.
    replace (P + w) with pn by nia. apply (closestTo_unique D); lia.
  - rewrite Hq in *. assert (D * (e + 1) = D * e + D) by lia.
    replace (D * e + D + w) with pn by lia. apply (closestTo_unique D); lia.
Qed.

Lemma GetPacketNumberLengthForHeader_bound pn leastUnacked :
  0 ≤ pn < 2 ^ 62 → -1 ≤ leastUnacked ≤ pn → pn - leastUnacked < 2 ^ 31 →
  let l := GetPacketNumberLengthForHeader pn leastUnacked in
  2 ≤ l ≤ 4 ∧ (pn - leastUnacked) * 2 < 2 ^ (8 * l).
Proof.
  intros Hpn Hl Hd. unfold GetPacketNumberLengthForHeader.
  rewrite i64_small, u64_small by lia.
  change (Z.shiftl 1 (16 - 1)) with (2 ^ 15). change (Z.shiftl 1 (24 - 1)) with (2 ^ 23).
  simpl. repeat zcase; simpl; lia.
Qed.

Lemma cid_array_length d : blen d ≤ 20 → length (cid_array d) = 20%nat.
Proof. unfold cid_array, blen. rewrite length_app, length_replicate. lia. Qed.

Lemma ConnectionID_Bytes_array d l : l = blen d →
  ConnectionID_Bytes (mkConnectionID (cid_array d) l) = d.
Proof.
  intros ->. unfold ConnectionID_Bytes, cid_array, blen. simpl.
  by rewrite Nat2Z.id, take_app_length.
Qed.

(** Reading back the bytes of a well-formed connection ID gives it again. *)
Lemma ReadConnectionID_app c s : ConnectionID_wf c →
  ReadConnectionID (ConnectionID_Len c) (ConnectionID_Bytes c ++ s) = (Ok c, s).
Proof.
  destruct c as [b l]. intros (d & Hd & Hb & Hl); simpl in *. subst.
  rewrite ConnectionID_Bytes_array by done. unfold ReadConnectionID, ConnectionID_Len. simpl.
  destruct (Z.eqb_spec (blen d) 0) as [E|E].
  { rewrite (blen_0_nil d) by done. done. }
  rewrite (proj2 (Z.ltb_ge _ _)) by (unfold maxConnectionIDLen; lia).
  rewrite ReadFull_app, u8_small by (pose proof (blen_nonneg d); lia). done.
Qed.

Lemma ConnectionID_Len_Bytes c : ConnectionID_wf c →
  blen (ConnectionID_Bytes c) = ConnectionID_Len c ∧ 0 ≤ ConnectionID_Len c ≤ 20.
Proof.
  destruct c as [b l]. intros (d & Hd & Hb & Hl); simpl in *. subst.
  rewrite ConnectionID_Bytes_array by done. unfold ConnectionID_Len. simpl.
  pose proof (blen_nonneg d). lia.
Qed.

Lemma ParseConnectionID_Bytes c : ConnectionID_wf c → ParseConnectionID (ConnectionID_Bytes c) = Ok c.
Proof.
  destruct c as [b l]. intros (d & Hd & Hb & Hl); simpl in *. subst. rewrite ConnectionID_Bytes_array by done.
  unfold ParseConnectionID, maxConnectionIDLen. rewrite (proj2 (Z.ltb_ge _ _)) by lia. pose proof (blen_nonneg d).
  by rewrite u8_small by lia.
Qed.

Lemma ReadConnectionID_safe N l : 0 ≤ l →
  rd_safe N (λ c, ConnectionID_wf c ∧ ConnectionID_Len c = l) (ReadConnectionID l).
Proof.
  intros Hl s Hs. unfold ReadConnectionID. destruct (Z.eqb_spec l 0) as [->|Hl0].
  { split; [|done]. split; [|done]. by exists []. }
  destruct (Z.ltb_spec maxConnectionIDLen l) as [|Hmax]; [done|]. unfold maxConnectionIDLen in Hmax.
  pose proof (ReadFull_safe N l Hl s Hs) as H.
  destruct (ReadFull l s) as [[d|e|p] s'] eqn:E; [|by destruct e|done].
  destruct H as [[Hd _] Hsuf]. split; [|done]. rewrite u8_small by lia.
  split; [|done]. exists d. simpl. repeat split; lia.
Qed.

(** ** Properties *)

(** C40: packet number truncation is inverted by the receiver.  If the sender
    picks the length with [GetPacketNumberLengthForHeader] for its least
    unacknowledged packet number, the receiver has received everything below
    that number (so its largest number [last] is at least [leastUnacked-1]),
    and [last] is ahead of the packet by less than half of the window, then
    [DecodePacketNumber] maps the truncated number to the number sent. *)
Theorem DecodePacketNumber_correct (pn leastUnacked last : Z) :
  0 ≤ pn < 2 ^ 62 → -1 ≤ leastUnacked ≤ pn → pn - leastUnacked < 2 ^ 31 →
  0 ≤ last → leastUnacked ≤ last + 1 →
  let l := GetPacketNumberLengthForHeader pn leastUnacked in
  (last + 1 - pn) * 2 < 2 ^ (8 * l) →
  DecodePacketNumber l last (pn mod 2 ^ (8 * l)) = pn.
Proof.
  intros Hpn Hu Hd Hlast Hrcv l Hahead.
  destruct (GetPacketNumberLengthForHeader_bound pn leastUnacked) as [Hl Hb]; [done..|].
  apply DecodePacketNumber_window; fold l in Hl, Hb; lia.
Qed.

Lemma DecodePacketNumber_correct_witness :
  DecodePacketNumber 2 44000 (70000 mod 2 ^ (8 * 2)) = 70000.
Proof. apply (DecodePacketNumber_correct 70000 43000 44000); vm_compute; intuition discriminate. Defined.

(** Stream numbers and stream IDs determine each other: the ID of the
    n-th stream of a type opened by a peer is at least 0, has that type and
    initiator, and its stream number is n. *)
Lemma StreamID_spec (n : Z) (st : StreamType) (p : Perspective) :
  1 ≤ n ≤ MaxStreamCount →
  let id := StreamNum_StreamID n st p in
  0 ≤ id < 2 ^ 62 ∧ StreamID_Type id = st ∧ StreamID_InitiatedBy id = p ∧
  StreamID_StreamNum id = n.
Proof.
  unfold MaxStreamCount. intros Hn. cbv zeta. unfold StreamNum_StreamID.
  destruct (Z.eqb_spec n 0) as [|_]; [lia|].
  set (first := first_id st p).
  assert (Hf : 0 ≤ first < 4) by (subst first; destruct st, p; simpl; lia).
  rewrite i64_small by lia.
  unfold StreamID_Type, StreamID_InitiatedBy, StreamID_StreamNum.
  rewrite !Z.rem_mod_nonneg, Z.quot_div_nonneg by lia.
  assert (E4 : (first + 4 * (n - 1)) mod 4 = first).
  { symmetry. apply (Z.mod_unique_pos _ _ (n - 1)); lia. }
  assert (E2 : (first + 4 * (n - 1)) mod 2 = first mod 2).
  { replace (first + 4 * (n - 1)) with (first + 2 * (n - 1) * 2) by lia. apply Z.mod_add. lia. }
  assert (Ed : (first + 4 * (n - 1)) / 4 = n - 1).
  { symmetry. apply (Z.div_unique_pos _ _ _ first); lia. }
  rewrite E4, E2, Ed. split; [lia|]. subst first. destruct st, p; simpl; repeat split; lia.
Qed.

End protocol.
