(* ===== verification/Frames.v ===== *)
(** QUIC frames (src/internal/wire/..._frame.go): data types, parsers,
    [Append] and [Length] of every frame but ACK, the splitting of STREAM and
    CRYPTO frames, and the law each frame type satisfies: what [Append] writes
    has [Length] bytes and is parsed back.  The interface [Frame] and its law
    [FrameCodec] are what the frame parser (FrameParser.v) is proved against. *)

From S2P Require Import Prelude Varint Protocol.
Import protocol.

Module wire.

(** The Go interface [wire.Frame]; the version argument is unused by all
    implementations. *)
Class Frame (F : Type) := {
  Append : bytes → F → res bytes;
  Length : F → res Z;
}.

(** ** Frame types (frame_parser.go) *)

Definition pingFrameType : Z := 0x1.
Definition ackFrameType : Z := 0x2.
Definition ackECNFrameType : Z := 0x3.
Definition resetStreamFrameType : Z := 0x4.
Definition stopSendingFrameType : Z := 0x5.
Definition cryptoFrameType : Z := 0x6.
Definition newTokenFrameType : Z := 0x7.
Definition maxDataFrameType : Z := 0x10.
Definition maxStreamDataFrameType : Z := 0x11.
Definition bidiMaxStreamsFrameType : Z := 0x12.
Definition uniMaxStreamsFrameType : Z := 0x13.
Definition dataBlockedFrameType : Z := 0x14.
Definition streamDataBlockedFrameType : Z := 0x15.
Definition bidiStreamBlockedFrameType : Z := 0x16.
Definition uniStreamBlockedFrameType : Z := 0x17.
Definition newConnectionIDFrameType : Z := 0x18.
Definition retireConnectionIDFrameType : Z := 0x19.
Definition pathChallengeFrameType : Z := 0x1a.
Definition pathResponseFrameType : Z := 0x1b.
Definition connectionCloseFrameType : Z := 0x1c.
Definition applicationCloseFrameType : Z := 0x1d.
Definition handshakeDoneFrameType : Z := 0x1e.
Definition repairFrameType : Z := 0x32a80fec.
Definition sourceSymbolFrameType : Z := 0x32a80fec55.
Definition symbolACKFrameType : Z := 0x32a80fecac.
Definition FECWindowFrameType : Z := 0x32a80fecc0.

(** ** Frames without a body *)

Record PingFrame := mkPingFrame {}.

#[global] Instance PingFrame_Frame : Frame PingFrame := {
  Append b f := Ok (b ++ [pingFrameType]);
  Length f := Ok 1;
}.

Record HandshakeDoneFrame := mkHandshakeDoneFrame {}.

#[global] Instance HandshakeDoneFrame_Frame : Frame HandshakeDoneFrame := {
  Append b f := Ok (b ++ [handshakeDoneFrameType]);
  Length f := Ok 1;
}.

(** ** Frames of integers *)

Record ResetStreamFrame := mkResetStreamFrame {
  rst_StreamID : Z; rst_ErrorCode : Z; rst_FinalSize : Z }.

Definition parseResetStreamFrame : rd ResetStreamFrame :=
  sid ← quicvarint.Read;
  errorCode ← quicvarint.Read;
  bo ← quicvarint.Read;
  mret (mkResetStreamFrame (i64 sid) errorCode (i64 bo)).

Definition ResetStreamFrame_Append (b : bytes) (f : ResetStreamFrame) : res bytes :=
  let b := b ++ [resetStreamFrameType] in
  b ← quicvarint.Append b (u64 (rst_StreamID f));
  b ← quicvarint.Append b (rst_ErrorCode f);
  b ← quicvarint.Append b (u64 (rst_FinalSize f));
  Ok b.

Definition ResetStreamFrame_Length (f : ResetStreamFrame) : res Z :=
  l1 ← quicvarint.Len (u64 (rst_StreamID f));
  l2 ← quicvarint.Len (rst_ErrorCode f);
  l3 ← quicvarint.Len (u64 (rst_FinalSize f));
  Ok (1 + l1 + l2 + l3).

#[global] Instance ResetStreamFrame_Frame : Frame ResetStreamFrame := {
  Append := ResetStreamFrame_Append; Length := ResetStreamFrame_Length }.

Record StopSendingFrame := mkStopSendingFrame { ss_StreamID : Z; ss_ErrorCode : Z }.

Definition parseStopSendingFrame : rd StopSendingFrame :=
  streamID ← quicvarint.Read;
  errorCode ← quicvarint.Read;
  mret (mkStopSendingFrame (i64 streamID) errorCode).

Definition StopSendingFrame_Append (b : bytes) (f : StopSendingFrame) : res bytes :=
  let b := b ++ [stopSendingFrameType] in
  b ← quicvarint.Append b (u64 (ss_StreamID f));
  b ← quicvarint.Append b (ss_ErrorCode f);
  Ok b.

Definition StopSendingFrame_Length (f : StopSendingFrame) : res Z :=
  l1 ← quicvarint.Len (u64 (ss_StreamID f));
  l2 ← quicvarint.Len (ss_ErrorCode f);
  Ok (1 + l1 + l2).

#[global] Instance StopSendingFrame_Frame : Frame StopSendingFrame := {
  Append := StopSendingFrame_Append; Length := StopSendingFrame_Length }.

Record MaxDataFrame := mkMaxDataFrame { md_MaximumData : Z }.

Definition parseMaxDataFrame : rd MaxDataFrame :=
  byteOffset ← quicvarint.Read;
  mret (mkMaxDataFrame (i64 byteOffset)).

Definition MaxDataFrame_Append (b : bytes) (f : MaxDataFrame) : res bytes :=
  let b := b ++ [maxDataFrameType] in
  b ← quicvarint.Append b (u64 (md_MaximumData f));
  Ok b.

Definition MaxDataFrame_Length (f : MaxDataFrame) : res Z :=
  l1 ← quicvarint.Len (u64 (md_MaximumData f));
  Ok (1 + l1).

#[global] Instance MaxDataFrame_Frame : Frame MaxDataFrame := {
  Append := MaxDataFrame_Append; Length := MaxDataFrame_Length }.

Record MaxStreamDataFrame := mkMaxStreamDataFrame { msd_StreamID : Z; msd_MaximumStreamData : Z }.

Definition parseMaxStreamDataFrame : rd MaxStreamDataFrame :=
  sid ← quicvarint.Read;
  offset ← quicvarint.Read;
  mret (mkMaxStreamDataFrame (i64 sid) (i64 offset)).

Definition MaxStreamDataFrame_Append (b : bytes) (f : MaxStreamDataFrame) : res bytes :=
  let b := b ++ [maxStreamDataFrameType] in
  b ← quicvarint.Append b (u64 (msd_StreamID f));
  b ← quicvarint.Append b (u64 (msd_MaximumStreamData f));
  Ok b.

Definition MaxStreamDataFrame_Length (f : MaxStreamDataFrame) : res Z :=
  l1 ← quicvarint.Len (u64 (msd_StreamID f));
  l2 ← quicvarint.Len (u64 (msd_MaximumStreamData f));
  Ok (1 + l1 + l2).

#[global] Instance MaxStreamDataFrame_Frame : Frame MaxStreamDataFrame := {
  Append := MaxStreamDataFrame_Append; Length := MaxStreamDataFrame_Length }.

(** The zero value of [protocol.StreamType] is [StreamTypeUni]; it is kept when
    the type is neither of the two frame types. *)
Record MaxStreamsFrame := mkMaxStreamsFrame { ms_Type : StreamType; ms_MaxStreamNum : Z }.

Definition parseMaxStreamsFrame (typ : Z) : rd MaxStreamsFrame :=
  let t := if typ =? bidiMaxStreamsFrameType then StreamTypeBidi
           else if typ =? uniMaxStreamsFrameType then StreamTypeUni else StreamTypeUni in
  streamID ← quicvarint.Read;
  let n := i64 streamID in
  if MaxStreamCount <? n then rd_fail (ErrMsg "exceeds the maximum stream count") else
  mret (mkMaxStreamsFrame t n).

Definition MaxStreamsFrame_Append (b : bytes) (f : MaxStreamsFrame) : res bytes :=
  let b := match ms_Type f with
           | StreamTypeBidi => b ++ [bidiMaxStreamsFrameType]
           | StreamTypeUni => b ++ [uniMaxStreamsFrameType]
           end in
  b ← quicvarint.Append b (u64 (ms_MaxStreamNum f));
  Ok b.

Definition MaxStreamsFrame_Length (f : MaxStreamsFrame) : res Z :=
  l1 ← quicvarint.Len (u64 (ms_MaxStreamNum f));
  Ok (1 + l1).

#[global] Instance MaxStreamsFrame_Frame : Frame MaxStreamsFrame := {
  Append := MaxStreamsFrame_Append; Length := MaxStreamsFrame_Length }.

Record DataBlockedFrame := mkDataBlockedFrame { db_MaximumData : Z }.

Definition parseDataBlockedFrame : rd DataBlockedFrame :=
  offset ← quicvarint.Read;
  mret (mkDataBlockedFrame (i64 offset)).

Definition DataBlockedFrame_Append (b : bytes) (f : DataBlockedFrame) : res bytes :=
  let b := b ++ [dataBlockedFrameType] in
  quicvarint.Append b (u64 (db_MaximumData f)).

Definition DataBlockedFrame_Length (f : DataBlockedFrame) : res Z :=
  l1 ← quicvarint.Len (u64 (db_MaximumData f));
  Ok (1 + l1).

#[global] Instance DataBlockedFrame_Frame : Frame DataBlockedFrame := {
  Append := DataBlockedFrame_Append; Length := DataBlockedFrame_Length }.

Record StreamDataBlockedFrame := mkStreamDataBlockedFrame {
  sdb_StreamID : Z; sdb_MaximumStreamData : Z }.

Definition parseStreamDataBlockedFrame : rd StreamDataBlockedFrame :=
  sid ← quicvarint.Read;
  offset ← quicvarint.Read;
  mret (mkStreamDataBlockedFrame (i64 sid) (i64 offset)).

Definition StreamDataBlockedFrame_Append (b : bytes) (f : StreamDataBlockedFrame) : res bytes :=
  let b := b ++ [0x15] in
  b ← quicvarint.Append b (u64 (sdb_StreamID f));
  b ← quicvarint.Append b (u64 (sdb_MaximumStreamData f));
  Ok b.

Definition StreamDataBlockedFrame_Length (f : StreamDataBlockedFrame) : res Z :=
  l1 ← quicvarint.Len (u64 (sdb_StreamID f));
  l2 ← quicvarint.Len (u64 (sdb_MaximumStreamData f));
  Ok (1 + l1 + l2).

#[global] Instance StreamDataBlockedFrame_Frame : Frame StreamDataBlockedFrame := {
  Append := StreamDataBlockedFrame_Append; Length := StreamDataBlockedFrame_Length }.

Record StreamsBlockedFrame := mkStreamsBlockedFrame { sb_Type : StreamType; sb_StreamLimit : Z }.

Definition parseStreamsBlockedFrame (typ : Z) : rd StreamsBlockedFrame :=
  let t := if typ =? bidiStreamBlockedFrameType then StreamTypeBidi
           else if typ =? uniStreamBlockedFrameType then StreamTypeUni else StreamTypeUni in
  streamLimit ← quicvarint.Read;
  let n := i64 streamLimit in
  if MaxStreamCount <? n then rd_fail (ErrMsg "exceeds the maximum stream count") else
  mret (mkStreamsBlockedFrame t n).

Definition StreamsBlockedFrame_Append (b : bytes) (f : StreamsBlockedFrame) : res bytes :=
  let b := match sb_Type f with
           | StreamTypeBidi => b ++ [bidiStreamBlockedFrameType]
           | StreamTypeUni => b ++ [uniStreamBlockedFrameType]
           end in
  b ← quicvarint.Append b (u64 (sb_StreamLimit f));
  Ok b.

Definition StreamsBlockedFrame_Length (f : StreamsBlockedFrame) : res Z :=
  l1 ← quicvarint.Len (u64 (sb_StreamLimit f));
  Ok (1 + l1).

#[global] Instance StreamsBlockedFrame_Frame : Frame StreamsBlockedFrame := {
  Append := StreamsBlockedFrame_Append; Length := StreamsBlockedFrame_Length }.

Record RetireConnectionIDFrame := mkRetireConnectionIDFrame { rcid_SequenceNumber : Z }.

Definition parseRetireConnectionIDFrame : rd RetireConnectionIDFrame :=
  seq ← quicvarint.Read;
  mret (mkRetireConnectionIDFrame seq).

Definition RetireConnectionIDFrame_Append (b : bytes) (f : RetireConnectionIDFrame) : res bytes :=
  let b := b ++ [retireConnectionIDFrameType] in
  b ← quicvarint.Append b (rcid_SequenceNumber f);
  Ok b.

Definition RetireConnectionIDFrame_Length (f : RetireConnectionIDFrame) : res Z :=
  l1 ← quicvarint.Len (rcid_SequenceNumber f);
  Ok (1 + l1).

#[global] Instance RetireConnectionIDFrame_Frame : Frame RetireConnectionIDFrame := {
  Append := RetireConnectionIDFrame_Append; Length := RetireConnectionIDFrame_Length }.

(** [Epoch] is a [uint16], [Size] a [uint32]. *)
Record FECWindowFrame := mkFECWindowFrame { fw_Epoch : Z; fw_Size : Z }.

Definition parseFECWindowFrame : rd FECWindowFrame :=
  epoch ← quicvarint.Read;
  size ← quicvarint.Read;
  mret (mkFECWindowFrame (u16 epoch) (u32 size)).

Definition FECWindowFrame_Append (b : bytes) (f : FECWindowFrame) : res bytes :=
  b ← quicvarint.Append b FECWindowFrameType;
  b ← quicvarint.Append b (fw_Epoch f);
  b ← quicvarint.Append b (fw_Size f);
  Ok b.

Definition FECWindowFrame_Length (f : FECWindowFrame) : res Z :=
  l0 ← quicvarint.Len FECWindowFrameType;
  l1 ← quicvarint.Len (fw_Epoch f);
  l2 ← quicvarint.Len (fw_Size f);
  Ok (l0 + l1 + l2).

#[global] Instance FECWindowFrame_Frame : Frame FECWindowFrame := {
  Append := FECWindowFrame_Append; Length := FECWindowFrame_Length }.

(** ** Frames of bytes *)

Record PathChallengeFrame := mkPathChallengeFrame { pc_Data : bytes }.   (* [8]byte *)

(** [io.ReadFull] into a fixed-size array, with [io.ErrUnexpectedEOF] turned
    into [io.EOF]. *)
Definition readArray (n : Z) : rd bytes := λ s,
  match ReadFull n s with
  | (Err ErrUnexpectedEOF, s') => (Err EOF, s')
  | r => r
  end.

Definition parsePathChallengeFrame : rd PathChallengeFrame :=
  d ← readArray 8;
  mret (mkPathChallengeFrame d).

#[global] Instance PathChallengeFrame_Frame : Frame PathChallengeFrame := {
  Append b f := Ok ((b ++ [pathChallengeFrameType]) ++ pc_Data f);
  Length f := Ok (1 + 8) }.

Record PathResponseFrame := mkPathResponseFrame { pr_Data : bytes }.     (* [8]byte *)

Definition parsePathResponseFrame : rd PathResponseFrame :=
  d ← readArray 8;
  mret (mkPathResponseFrame d).

#[global] Instance PathResponseFrame_Frame : Frame PathResponseFrame := {
  Append b f := Ok ((b ++ [pathResponseFrameType]) ++ pr_Data f);
  Length f := Ok (1 + 8) }.

Record NewTokenFrame := mkNewTokenFrame { nt_Token : bytes }.

Definition parseNewTokenFrame : rd NewTokenFrame :=
  tokenLen ← quicvarint.Read;
  l ← rd_len;
  if l <? tokenLen then rd_fail EOF else
  if tokenLen =? 0 then rd_fail (ErrMsg "token must not be empty") else
  token ← ReadFull tokenLen;
  mret (mkNewTokenFrame token).

Definition NewTokenFrame_Append (b : bytes) (f : NewTokenFrame) : res bytes :=
  let b := b ++ [newTokenFrameType] in
  b ← quicvarint.Append b (u64 (blen (nt_Token f)));
  Ok (b ++ nt_Token f).

Definition NewTokenFrame_Length (f : NewTokenFrame) : res Z :=
  l1 ← quicvarint.Len (u64 (blen (nt_Token f)));
  Ok (1 + l1 + blen (nt_Token f)).

#[global] Instance NewTokenFrame_Frame : Frame NewTokenFrame := {
  Append := NewTokenFrame_Append; Length := NewTokenFrame_Length }.

Record NewConnectionIDFrame := mkNewConnectionIDFrame {
  nc_SequenceNumber : Z;
  nc_RetirePriorTo : Z;
  nc_ConnectionID : ConnectionID;
  nc_StatelessResetToken : bytes;   (* [16]byte *)
}.

Definition parseNewConnectionIDFrame : rd NewConnectionIDFrame :=
  seq ← quicvarint.Read;
  ret ← quicvarint.Read;
  if seq <? ret then rd_fail (ErrMsg "Retire Prior To value larger than Sequence Number") else
  connIDLen ← ReadByte;
  if connIDLen =? 0 then rd_fail (ErrMsg "invalid zero-length connection ID") else
  connID ← ReadConnectionID connIDLen;
  token ← readArray 16;
  mret (mkNewConnectionIDFrame seq ret connID token).

Definition NewConnectionIDFrame_Append (b : bytes) (f : NewConnectionIDFrame) : res bytes :=
  let b := b ++ [newConnectionIDFrameType] in
  b ← quicvarint.Append b (nc_SequenceNumber f);
  b ← quicvarint.Append b (nc_RetirePriorTo f);
  let connIDLen := ConnectionID_Len (nc_ConnectionID f) in
  if MaxConnIDLen <? connIDLen then Err (ErrMsg "invalid connection ID length") else
  let b := b ++ [u8 connIDLen] in
  let b := b ++ ConnectionID_Bytes (nc_ConnectionID f) in
  Ok (b ++ nc_StatelessResetToken f).

Definition NewConnectionIDFrame_Length (f : NewConnectionIDFrame) : res Z :=
  l1 ← quicvarint.Len (nc_SequenceNumber f);
  l2 ← quicvarint.Len (nc_RetirePriorTo f);
  Ok (1 + l1 + l2 + 1 + ConnectionID_Len (nc_ConnectionID f) + 16).

#[global] Instance NewConnectionIDFrame_Frame : Frame NewConnectionIDFrame := {
  Append := NewConnectionIDFrame_Append; Length := NewConnectionIDFrame_Length }.

(** The reason phrase, a Go string, as its bytes. *)
Record ConnectionCloseFrame := mkConnectionCloseFrame {
  cc_IsApplicationError : bool;
  cc_ErrorCode : Z;
  cc_FrameType : Z;
  cc_ReasonPhrase : bytes;
}.

Definition parseConnectionCloseFrame (typ : Z) : rd ConnectionCloseFrame :=
  let isApp := typ =? applicationCloseFrameType in
  ec ← quicvarint.Read;
  ft ← (if negb isApp then quicvarint.Read else mret 0);
  reasonPhraseLen ← quicvarint.Read;
  l ← rd_len;
  if l <? i64 reasonPhraseLen then rd_fail EOF else
  reasonPhrase ← ReadFull reasonPhraseLen;
  mret (mkConnectionCloseFrame isApp ec ft reasonPhrase).

Definition ConnectionCloseFrame_Append (b : bytes) (f : ConnectionCloseFrame) : res bytes :=
  let b := if cc_IsApplicationError f then b ++ [applicationCloseFrameType]
           else b ++ [connectionCloseFrameType] in
  b ← quicvarint.Append b (cc_ErrorCode f);
  b ← (if negb (cc_IsApplicationError f) then quicvarint.Append b (cc_FrameType f) else Ok b);
  b ← quicvarint.Append b (u64 (blen (cc_ReasonPhrase f)));
  Ok (b ++ cc_ReasonPhrase f).

Definition ConnectionCloseFrame_Length (f : ConnectionCloseFrame) : res Z :=
  l1 ← quicvarint.Len (cc_ErrorCode f);
  l2 ← quicvarint.Len (u64 (blen (cc_ReasonPhrase f)));
  let length := 1 + l1 + l2 + blen (cc_ReasonPhrase f) in
  if negb (cc_IsApplicationError f)
  then l3 ← quicvarint.Len (cc_FrameType f); Ok (length + l3)
  else Ok length.

#[global] Instance ConnectionCloseFrame_Frame : Frame ConnectionCloseFrame := {
  Append := ConnectionCloseFrame_Append; Length := ConnectionCloseFrame_Length }.

(** ** CRYPTO *)

Record CryptoFrame := mkCryptoFrame { cf_Offset : Z; cf_Data : bytes }.

Definition parseCryptoFrame : rd CryptoFrame :=
  offset ← quicvarint.Read;
  dataLen ← quicvarint.Read;
  l ← rd_len;
  if l <? dataLen then rd_fail EOF else
  data ← (if negb (dataLen =? 0) then ReadFull dataLen else mret []);
  mret (mkCryptoFrame (i64 offset) data).

Definition CryptoFrame_Append (b : bytes) (f : CryptoFrame) : res bytes :=
  let b := b ++ [cryptoFrameType] in
  b ← quicvarint.Append b (u64 (cf_Offset f));
  b ← quicvarint.Append b (u64 (blen (cf_Data f)));
  Ok (b ++ cf_Data f).

Definition CryptoFrame_Length (f : CryptoFrame) : res Z :=
  l1 ← quicvarint.Len (u64 (cf_Offset f));
  l2 ← quicvarint.Len (u64 (blen (cf_Data f)));
  Ok (1 + l1 + l2 + blen (cf_Data f)).

#[global] Instance CryptoFrame_Frame : Frame CryptoFrame := {
  Append := CryptoFrame_Append; Length := CryptoFrame_Length }.

Definition CryptoFrame_MaxDataLen (f : CryptoFrame) (maxSize : Z) : res Z :=
  l1 ← quicvarint.Len (u64 (cf_Offset f));
  let headerLen := 1 + l1 + 1 in
  if maxSize <? headerLen then Ok 0 else
  let maxDataLen := maxSize - headerLen in
  l ← quicvarint.Len (u64 maxDataLen);
  Ok (if negb (l =? 1) then maxDataLen - 1 else maxDataLen).

(** The result is the frame split off (if any), whether splitting was
    required, and the receiver [f] after the call.  [new.Data\[n:\]] panics if
    [n] exceeds the length of the data, and [make] if the new length is negative. *)
Definition CryptoFrame_MaybeSplitOffFrame (f : CryptoFrame) (maxSize : Z)
    : res (option CryptoFrame * bool * CryptoFrame) :=
  l ← CryptoFrame_Length f;
  if l <=? maxSize then Ok (None, false, f) else
  n ← CryptoFrame_MaxDataLen f maxSize;
  if n =? 0 then Ok (None, true, f) else
  let newLen := blen (cf_Data f) - n in
  if newLen <? 0 then Panic "makeslice: len out of range" else
  Ok (Some (mkCryptoFrame (cf_Offset f) (take (Z.to_nat n) (cf_Data f))), true,
      mkCryptoFrame (i64 (cf_Offset f + n)) (drop (Z.to_nat n) (cf_Data f))).

(** ** STREAM *)

Record StreamFrame := mkStreamFrame {
  sf_StreamID : Z;
  sf_Offset : Z;
  sf_Data : bytes;
  sf_Fin : bool;
  sf_DataLenPresent : bool;
  sf_fromPool : bool;
  sf_FECProtected : bool;
}.

Definition StreamFrame_DataLen (f : StreamFrame) : Z := blen (sf_Data f).

(** A frame taken from the pool has a data buffer of capacity
    [MaxPacketBufferSize], [fromPool] set and [FECProtected] reset. *)
Definition parseStreamFrame (typ : Z) : rd StreamFrame :=
  let hasOffset := 0 <? Z.land typ 4 in
  let fin := 0 <? Z.land typ 1 in
  let hasDataLen := 0 <? Z.land typ 2 in
  streamID ← quicvarint.Read;
  offset ← (if hasOffset then quicvarint.Read else mret 0);
  dataLen ← (if hasDataLen then quicvarint.Read else rd_len);
  let fromPool := negb (dataLen <? MinStreamFrameBufferSize) in
  if fromPool && (MaxPacketBufferSize <? dataLen) then rd_fail EOF else
  data ← (if negb (dataLen =? 0) then ReadFull dataLen else mret []);
  let frame := mkStreamFrame (i64 streamID) (i64 offset) data fin hasDataLen fromPool false in
  if MaxByteCount <? i64 (sf_Offset frame + StreamFrame_DataLen frame)
  then rd_fail (ErrMsg "stream data overflows maximum offset")
  else mret frame.

Definition StreamFrame_Append (b : bytes) (f : StreamFrame) : res bytes :=
  if (blen (sf_Data f) =? 0) && negb (sf_Fin f)
  then Err (ErrMsg "StreamFrame: attempting to write empty frame without FIN") else
  let typ := 0x8 in
  let typ := if sf_Fin f then Z.lxor typ 1 else typ in
  let hasOffset := negb (sf_Offset f =? 0) in
  let typ := if sf_DataLenPresent f then Z.lxor typ 2 else typ in
  let typ := if hasOffset then Z.lxor typ 4 else typ in
  let b := b ++ [typ] in
  b ← quicvarint.Append b (u64 (sf_StreamID f));
  b ← (if hasOffset then quicvarint.Append b (u64 (sf_Offset f)) else Ok b);
  b ← (if sf_DataLenPresent f then quicvarint.Append b (u64 (StreamFrame_DataLen f)) else Ok b);
  Ok (b ++ sf_Data f).

Definition StreamFrame_Length (f : StreamFrame) : res Z :=
  l1 ← quicvarint.Len (u64 (sf_StreamID f));
  let length := 1 + l1 in
  length ← (if negb (sf_Offset f =? 0)
            then l ← quicvarint.Len (u64 (sf_Offset f)); Ok (length + l) else Ok length);
  length ← (if sf_DataLenPresent f
            then l ← quicvarint.Len (u64 (StreamFrame_DataLen f)); Ok (length + l) else Ok length);
  Ok (length + StreamFrame_DataLen f).

#[global] Instance StreamFrame_Frame : Frame StreamFrame := {
  Append := StreamFrame_Append; Length := StreamFrame_Length }.

Definition StreamFrame_MaxDataLen (f : StreamFrame) (maxSize : Z) : res Z :=
  l1 ← quicvarint.Len (u64 (sf_StreamID f));
  let headerLen := 1 + l1 in
  headerLen ← (if negb (sf_Offset f =? 0)
               then l ← quicvarint.Len (u64 (sf_Offset f)); Ok (headerLen + l) else Ok headerLen);
  let headerLen := if sf_DataLenPresent f then headerLen + 1 else headerLen in
  if maxSize <? headerLen then Ok 0 else
  let maxDataLen := maxSize - headerLen in
  if sf_DataLenPresent f
  then l ← quicvarint.Len (u64 maxDataLen);
       Ok (if negb (l =? 1) then maxDataLen - 1 else maxDataLen)
  else Ok maxDataLen.

(** The data slices are swapped with those of a pool frame, whose buffer has
    capacity [MaxPacketBufferSize]: reslicing it to the remaining length
    panics beyond that. *)
Definition StreamFrame_MaybeSplitOffFrame (f : StreamFrame) (maxSize : Z)
    : res (option StreamFrame * bool * StreamFrame) :=
  l ← StreamFrame_Length f;
  if l <=? maxSize then Ok (None, false, f) else
  n ← StreamFrame_MaxDataLen f maxSize;
  if n =? 0 then Ok (None, true, f) else
  let rest := blen (sf_Data f) - n in
  if (rest <? 0) || (MaxPacketBufferSize <? rest) then Panic "slice bounds out of range" else
  Ok (Some (mkStreamFrame (sf_StreamID f) (sf_Offset f) (take (Z.to_nat n) (sf_Data f)) false
              (sf_DataLenPresent f) (sf_fromPool f) false), true,
      mkStreamFrame (sf_StreamID f) (i64 (sf_Offset f + n)) (drop (Z.to_nat n) (sf_Data f))
        (sf_Fin f) (sf_DataLenPresent f) true (sf_FECProtected f)).

(** ** DATAGRAM *)

Record DatagramFrame := mkDatagramFrame {
  df_DataLenPresent : bool; df_Data : bytes; df_FECProtected : bool }.

Definition parseDatagramFrame (typ : Z) : rd DatagramFrame :=
  let dataLenPresent := 0 <? Z.land typ 1 in
  length ← (if dataLenPresent
            then len ← quicvarint.Read;
                 l ← rd_len;
                 if l <? len then rd_fail EOF else mret len
            else rd_len);
  data ← ReadFull length;
  mret (mkDatagramFrame dataLenPresent data false).

Definition DatagramFrame_Append (b : bytes) (f : DatagramFrame) : res bytes :=
  let typ := 0x30 in
  let typ := if df_DataLenPresent f then Z.lxor typ 1 else typ in
  let b := b ++ [typ] in
  b ← (if df_DataLenPresent f then quicvarint.Append b (u64 (blen (df_Data f))) else Ok b);
  Ok (b ++ df_Data f).

Definition DatagramFrame_MaxDataLen (f : DatagramFrame) (maxSize : Z) : res Z :=
  let headerLen := 1 in
  let headerLen := if df_DataLenPresent f then headerLen + 1 else headerLen in
  if maxSize <? headerLen then Ok 0 else
  let maxDataLen := maxSize - headerLen in
  if df_DataLenPresent f
  then l ← quicvarint.Len (u64 maxDataLen);
       Ok (if negb (l =? 1) then maxDataLen - 1 else maxDataLen)
  else Ok maxDataLen.

Definition DatagramFrame_Length (f : DatagramFrame) : res Z :=
  let length := 1 + blen (df_Data f) in
  if df_DataLenPresent f
  then l ← quicvarint.Len (u64 (blen (df_Data f))); Ok (length + l)
  else Ok length.

#[global] Instance DatagramFrame_Frame : Frame DatagramFrame := {
  Append := DatagramFrame_Append; Length := DatagramFrame_Length }.

(** ** FEC frames *)

Record BlockMetadata := mkBlockMetadata { bm_BlockID : Z; bm_ParityID : Z }.

Record RepairFrame := mkRepairFrame { rf_Metadata : BlockMetadata; rf_Payload : bytes }.

Definition parseRepairFrame : rd RepairFrame :=
  blockID ← quicvarint.Read;
  parityID ← quicvarint.Read;
  payloadLen ← quicvarint.Read;
  l ← rd_len;
  if l <? payloadLen then rd_fail EOF else
  payload ← (if negb (payloadLen =? 0) then ReadFull payloadLen else mret []);
  mret (mkRepairFrame (mkBlockMetadata blockID parityID) payload).

Definition RepairFrame_Append (b : bytes) (f : RepairFrame) : res bytes :=
  b ← quicvarint.Append b repairFrameType;
  b ← quicvarint.Append b (bm_BlockID (rf_Metadata f));
  b ← quicvarint.Append b (bm_ParityID (rf_Metadata f));
  b ← quicvarint.Append b (u64 (blen (rf_Payload f)));
  Ok (b ++ rf_Payload f).

Definition RepairFrame_Length (f : RepairFrame) : res Z :=
  l0 ← quicvarint.Len repairFrameType;
  l1 ← quicvarint.Len (bm_BlockID (rf_Metadata f));
  l2 ← quicvarint.Len (bm_ParityID (rf_Metadata f));
  l3 ← quicvarint.Len (u64 (blen (rf_Payload f)));
  Ok (l0 + l1 + l2 + l3 + blen (rf_Payload f)).

#[global] Instance RepairFrame_Frame : Frame RepairFrame := {
  Append := RepairFrame_Append; Length := RepairFrame_Length }.

(** The payload keeps its spare capacity, which the Reed-Solomon scheme uses. *)
Record SourceSymbolFrame := mkSourceSymbolFrame { ssf_SSID : Z; ssf_Payload : slice }.

(** [make([]byte, payloadLen, protocol.MaxPacketBufferSize)] panics when the
    length exceeds the capacity. *)
Definition ParseSourceSymbolFrame : rd SourceSymbolFrame :=
  sid ← quicvarint.Read;
  payloadLen ← quicvarint.Read;
  l ← rd_len;
  if l <? payloadLen then rd_fail EOF else
  payload ← (if negb (payloadLen =? 0) then
               if MaxPacketBufferSize <? payloadLen then rd_panic "makeslice: cap out of range" else
               d ← ReadFull payloadLen;
               mret (mkSlice d (zeros (MaxPacketBufferSize - payloadLen)))
             else mret slice_nil);
  mret (mkSourceSymbolFrame sid payload).

Definition SourceSymbolFrame_HeaderLen (f : SourceSymbolFrame) : res Z :=
  l0 ← quicvarint.Len sourceSymbolFrameType;
  l1 ← quicvarint.Len (ssf_SSID f);
  l2 ← quicvarint.Len (u64 (sl_len (ssf_Payload f)));
  Ok (l0 + l1 + l2).

Definition SourceSymbolFrame_Append (b : bytes) (f : SourceSymbolFrame) : res bytes :=
  b ← quicvarint.Append b sourceSymbolFrameType;
  b ← quicvarint.Append b (ssf_SSID f);
  b ← quicvarint.Append b (u64 (sl_len (ssf_Payload f)));
  Ok (b ++ sl_data (ssf_Payload f)).

Definition SourceSymbolFrame_Length (f : SourceSymbolFrame) : res Z :=
  l0 ← quicvarint.Len sourceSymbolFrameType;
  l1 ← quicvarint.Len (ssf_SSID f);
  l2 ← quicvarint.Len (u64 (sl_len (ssf_Payload f)));
  Ok (l0 + l1 + l2 + sl_len (ssf_Payload f)).

#[global] Instance SourceSymbolFrame_Frame : Frame SourceSymbolFrame := {
  Append := SourceSymbolFrame_Append; Length := SourceSymbolFrame_Length }.

(** ** The law of a frame type

    A well-formed frame is written as its type followed by a body, over exactly
    [Length] bytes, and the parser of that type reads the body back.  Frames
    without a length field extend to the end of the packet, and fields that are
    not sent on the wire take the value the parser sets. *)
Class FrameCodec (F : Type) `{Frame F} (parse : Z → rd F) := {
  frame_wf : F → Prop;
  frame_type : F → Z;
  frame_norm : F → F;
  frame_delimited : F → bool;
  frame_codec : ∀ f, frame_wf f →
    quicvarint.encodable (frame_type f) ∧ ∃ body,
      (∀ b, Append b f = Ok (b ++ quicvarint.enc (frame_type f) ++ body)) ∧
      Length f = Ok (blen (quicvarint.enc (frame_type f) ++ body)) ∧
      ∀ s, frame_delimited f = true ∨ s = [] →
           parse (frame_type f) (body ++ s) = (Ok (frame_norm f), s);
}.

#[export] Hint Extern 1 (quicvarint.encodable _) =>
  first [assumption | solve [unfold quicvarint.encodable, quicvarint.Max, quicvarint.maxVarInt8 in *;
                             try match goal with |- context [blen ?d] => pose proof (blen_nonneg d) end; lia]] : go.

Ltac enc_side := auto with go.

(** Evaluates the writes, the lengths and the reads of a frame. *)
Ltac codec_write :=
  rewrite ?quicvarint.encodable_u64 by enc_side;
  repeat (rewrite quicvarint.Append_enc by enc_side; rewrite ?res_bind_ok);
  rewrite <- ?app_assoc; reflexivity.

Ltac codec_length :=
  rewrite ?quicvarint.encodable_u64 by enc_side;
  repeat (rewrite quicvarint.Len_size by enc_side; rewrite ?res_bind_ok);
  repeat first [rewrite blen_app | rewrite blen_cons | rewrite blen_nil
               | rewrite quicvarint.blen_enc by enc_side]; f_equal; lia.

Ltac codec_read :=
  rewrite <- ?app_assoc;
  repeat (erewrite rd_bind_ok; [|apply quicvarint.Read_enc; enc_side]);
  rewrite ?quicvarint.encodable_i64 by enc_side.

Ltac codec_triple w :=
  intros f Hf; (split; [by vm_compute|]); exists w; split_and!.

(** The check of a length against the remaining bytes, then the read. *)
Lemma checked_read {A} (d s : bytes) (e : go_error) (k : bytes → rd A) :
  (l ← rd_len; if l <? blen d then rd_fail e else
   x ← (if negb (blen d =? 0) then ReadFull (blen d) else mret []); k x) (d ++ s) = k d s.
Proof.
  rewrite rd_len_bind, blen_app. rewrite (proj2 (Z.ltb_ge _ _)) by (pose proof (blen_nonneg s); lia).
  destruct (Z.eqb_spec (blen d) 0) as [E|E]; simpl negb; cbv iota.
  - rewrite (blen_0_nil d) by done. done.
  - erewrite rd_bind_ok; [|apply ReadFull_app]. done.
Qed.

#[global] Program Instance PingFrame_Codec : FrameCodec PingFrame (λ _, mret (mkPingFrame)) := {
  frame_wf f := True; frame_type f := pingFrameType;
  frame_norm f := f; frame_delimited f := true }.
Next Obligation. intros [] _. split; [by vm_compute|]. by exists []. Qed.

#[global] Program Instance HandshakeDoneFrame_Codec :
    FrameCodec HandshakeDoneFrame (λ _, mret (mkHandshakeDoneFrame)) := {
  frame_wf f := True; frame_type f := handshakeDoneFrameType;
  frame_norm f := f; frame_delimited f := true }.
Next Obligation. intros [] _. split; [by vm_compute|]. by exists []. Qed.

#[global] Program Instance ResetStreamFrame_Codec :
    FrameCodec ResetStreamFrame (λ _, parseResetStreamFrame) := {
  frame_wf f := quicvarint.encodable (rst_StreamID f) ∧ quicvarint.encodable (rst_ErrorCode f) ∧
                quicvarint.encodable (rst_FinalSize f);
  frame_type f := resetStreamFrameType; frame_norm f := f; frame_delimited f := true }.
Next Obligation.
  intros [sid ec fs] (H1 & H2 & H3); simpl in *. split; [by vm_compute|].
  exists (quicvarint.enc sid ++ quicvarint.enc ec ++ quicvarint.enc fs). split_and!.
  - intros b. unfold ResetStreamFrame_Append; simpl. codec_write.
  - unfold ResetStreamFrame_Length; simpl. codec_length.
  - intros s _. unfold parseResetStreamFrame. codec_read. done.
Qed.

#[global] Program Instance StopSendingFrame_Codec :
    FrameCodec StopSendingFrame (λ _, parseStopSendingFrame) := {
  frame_wf f := quicvarint.encodable (ss_StreamID f) ∧ quicvarint.encodable (ss_ErrorCode f);
  frame_type f := stopSendingFrameType; frame_norm f := f; frame_delimited f := true }.
Next Obligation.
  intros [sid ec] (H1 & H2); simpl in *. split; [by vm_compute|].
  exists (quicvarint.enc sid ++ quicvarint.enc ec). split_and!.
  - intros b. unfold StopSendingFrame_Append; simpl. codec_write.
  - unfold StopSendingFrame_Length; simpl. codec_length.
  - intros s _. unfold parseStopSendingFrame. codec_read. done.
Qed.

#[global] Program Instance MaxDataFrame_Codec : FrameCodec MaxDataFrame (λ _, parseMaxDataFrame) := {
  frame_wf f := quicvarint.encodable (md_MaximumData f);
  frame_type f := maxDataFrameType; frame_norm f := f; frame_delimited f := true }.
Next Obligation.
  intros [m] H1; simpl in *. split; [by vm_compute|]. exists (quicvarint.enc m). split_and!.
  - intros b. unfold MaxDataFrame_Append; simpl. codec_write.
  - unfold MaxDataFrame_Length; simpl. codec_length.
  - intros s _. unfold parseMaxDataFrame. codec_read. done.
Qed.

#[global] Program Instance MaxStreamDataFrame_Codec :
    FrameCodec MaxStreamDataFrame (λ _, parseMaxStreamDataFrame) := {
  frame_wf f := quicvarint.encodable (msd_StreamID f) ∧ quicvarint.encodable (msd_MaximumStreamData f);
  frame_type f := maxStreamDataFrameType; frame_norm f := f; frame_delimited f := true }.
Next Obligation.
  intros [sid m] (H1 & H2); simpl in *. split; [by vm_compute|].
  exists (quicvarint.enc sid ++ quicvarint.enc m). split_and!.
  - intros b. unfold MaxStreamDataFrame_Append; simpl. codec_write.
  - unfold MaxStreamDataFrame_Length; simpl. codec_length.
  - intros s _. unfold parseMaxStreamDataFrame. codec_read. done.
Qed.

Lemma MaxStreamCount_encodable n : 0 ≤ n ≤ MaxStreamCount → quicvarint.encodable n.
Proof. unfold MaxStreamCount, quicvarint.encodable, quicvarint.Max, quicvarint.maxVarInt8. lia. Qed.

Definition MaxStreamsFrame_typ (f : MaxStreamsFrame) : Z :=
  match ms_Type f with
  | StreamTypeBidi => bidiMaxStreamsFrameType | StreamTypeUni => uniMaxStreamsFrameType
  end.

Definition StreamsBlockedFrame_typ (f : StreamsBlockedFrame) : Z :=
  match sb_Type f with
  | StreamTypeBidi => bidiStreamBlockedFrameType | StreamTypeUni => uniStreamBlockedFrameType
  end.

#[global] Program Instance MaxStreamsFrame_Codec : FrameCodec MaxStreamsFrame parseMaxStreamsFrame := {
  frame_wf f := 0 ≤ ms_MaxStreamNum f ≤ MaxStreamCount;
  frame_type := MaxStreamsFrame_typ;
  frame_norm f := f; frame_delimited f := true }.
Next Obligation.
  intros [t n] H1; simpl in *. pose proof (MaxStreamCount_encodable n H1).
  split; [by destruct t; vm_compute|]. exists (quicvarint.enc n). split_and!.
  - intros b. unfold MaxStreamsFrame_Append; destruct t; simpl; codec_write.
  - unfold MaxStreamsFrame_Length; destruct t; simpl; codec_length.
  - intros s _. unfold parseMaxStreamsFrame. codec_read.
    rewrite (proj2 (Z.ltb_ge _ _)) by lia. by destruct t.
Qed.

#[global] Program Instance DataBlockedFrame_Codec :
    FrameCodec DataBlockedFrame (λ _, parseDataBlockedFrame) := {
  frame_wf f := quicvarint.encodable (db_MaximumData f);
  frame_type f := dataBlockedFrameType; frame_norm f := f; frame_delimited f := true }.
Next Obligation.
  intros [m] H1; simpl in *. split; [by vm_compute|]. exists (quicvarint.enc m). split_and!.
  - intros b. unfold DataBlockedFrame_Append; simpl. codec_write.
  - unfold DataBlockedFrame_Length; simpl. codec_length.
  - intros s _. unfold parseDataBlockedFrame. codec_read. done.
Qed.

#[global] Program Instance StreamDataBlockedFrame_Codec :
    FrameCodec StreamDataBlockedFrame (λ _, parseStreamDataBlockedFrame) := {
  frame_wf f := quicvarint.encodable (sdb_StreamID f) ∧ quicvarint.encodable (sdb_MaximumStreamData f);
  frame_type f := streamDataBlockedFrameType; frame_norm f := f; frame_delimited f := true }.
Next Obligation.
  intros [sid m] (H1 & H2); simpl in *. split; [by vm_compute|].
  exists (quicvarint.enc sid ++ quicvarint.enc m). split_and!.
  - intros b. unfold StreamDataBlockedFrame_Append; simpl. codec_write.
  - unfold StreamDataBlockedFrame_Length; simpl. codec_length.
  - intros s _. unfold parseStreamDataBlockedFrame. codec_read. done.
Qed.

#[global] Program Instance StreamsBlockedFrame_Codec :
    FrameCodec StreamsBlockedFrame parseStreamsBlockedFrame := {
  frame_wf f := 0 ≤ sb_StreamLimit f ≤ MaxStreamCount;
  frame_type := StreamsBlockedFrame_typ;
  frame_norm f := f; frame_delimited f := true }.
Next Obligation.
  intros [t n] H1; simpl in *. pose proof (MaxStreamCount_encodable n H1).
  split; [by destruct t; vm_compute|]. exists (quicvarint.enc n). split_and!.
  - intros b. unfold StreamsBlockedFrame_Append; destruct t; simpl; codec_write.
  - unfold StreamsBlockedFrame_Length; destruct t; simpl; codec_length.
  - intros s _. unfold parseStreamsBlockedFrame. codec_read.
    rewrite (proj2 (Z.ltb_ge _ _)) by lia. by destruct t.
Qed.

#[global] Program Instance RetireConnectionIDFrame_Codec :
    FrameCodec RetireConnectionIDFrame (λ _, parseRetireConnectionIDFrame) := {
  frame_wf f := quicvarint.encodable (rcid_SequenceNumber f);
  frame_type f := retireConnectionIDFrameType; frame_norm f := f; frame_delimited f := true }.
Next Obligation.
  intros [m] H1; simpl in *. split; [by vm_compute|]. exists (quicvarint.enc m). split_and!.
  - intros b. unfold RetireConnectionIDFrame_Append; simpl. codec_write.
  - unfold RetireConnectionIDFrame_Length; simpl. codec_length.
  - intros s _. unfold parseRetireConnectionIDFrame. codec_read. done.
Qed.

#[global] Program Instance FECWindowFrame_Codec :
    FrameCodec FECWindowFrame (λ _, parseFECWindowFrame) := {
  frame_wf f := 0 ≤ fw_Epoch f < 2 ^ 16 ∧ 0 ≤ fw_Size f < 2 ^ 32;
  frame_type f := FECWindowFrameType; frame_norm f := f; frame_delimited f := true }.
Next Obligation.
  intros [e sz] (H1 & H2); simpl in *. split; [by vm_compute|].
  assert (quicvarint.encodable FECWindowFrameType) by by vm_compute.
  exists (quicvarint.enc e ++ quicvarint.enc sz). split_and!.
  - intros b. unfold FECWindowFrame_Append; simpl. codec_write.
  - unfold FECWindowFrame_Length; simpl. codec_length.
  - intros s _. unfold parseFECWindowFrame. codec_read. rewrite u16_small, u32_small by lia. done.
Qed.

Lemma readArray_app d s n : n = blen d → readArray n (d ++ s) = (Ok d, s).
Proof. intros ->. unfold readArray. by rewrite ReadFull_app. Qed.

#[global] Program Instance PathChallengeFrame_Codec :
    FrameCodec PathChallengeFrame (λ _, parsePathChallengeFrame) := {
  frame_wf f := blen (pc_Data f) = 8;
  frame_type f := pathChallengeFrameType; frame_norm f := f; frame_delimited f := true }.
Next Obligation.
  intros [d] H1; simpl in *. split; [by vm_compute|]. exists d. split_and!.
  - intros b. by rewrite <- app_assoc.
  - simpl. by rewrite blen_cons, H1.
  - intros s _. unfold parsePathChallengeFrame. erewrite rd_bind_ok; [|by apply readArray_app]. done.
Qed.

#[global] Program Instance PathResponseFrame_Codec :
    FrameCodec PathResponseFrame (λ _, parsePathResponseFrame) := {
  frame_wf f := blen (pr_Data f) = 8;
  frame_type f := pathResponseFrameType; frame_norm f := f; frame_delimited f := true }.
Next Obligation.
  intros [d] H1; simpl in *. split; [by vm_compute|]. exists d. split_and!.
  - intros b. by rewrite <- app_assoc.
  - simpl. by rewrite blen_cons, H1.
  - intros s _. unfold parsePathResponseFrame. erewrite rd_bind_ok; [|by apply readArray_app]. done.
Qed.

(** A byte sequence short enough for a varint length. *)
Definition data_ok (d : bytes) : Prop := blen d ≤ quicvarint.Max.

Lemma data_ok_encodable d : data_ok d → quicvarint.encodable (blen d).
Proof. unfold data_ok, quicvarint.encodable. pose proof (blen_nonneg d). lia. Qed.
#[export] Hint Resolve data_ok_encodable : go.

Lemma data_ok_i64 d : data_ok d → i64 (blen d) = blen d.
Proof. intros. apply quicvarint.encodable_i64. auto with go. Qed.

#[global] Program Instance NewTokenFrame_Codec :
    FrameCodec NewTokenFrame (λ _, parseNewTokenFrame) := {
  frame_wf f := data_ok (nt_Token f) ∧ nt_Token f ≠ [];
  frame_type f := newTokenFrameType; frame_norm f := f; frame_delimited f := true }.
Next Obligation.
  intros [d] (H1 & H2); simpl in *. split; [by vm_compute|].
  exists (quicvarint.enc (blen d) ++ d). split_and!.
  - intros b. unfold NewTokenFrame_Append; simpl. codec_write.
  - unfold NewTokenFrame_Length; simpl. codec_length.
  - intros s _. unfold parseNewTokenFrame. codec_read. rewrite rd_len_bind, blen_app.
    pose proof (blen_nonneg s). rewrite (proj2 (Z.ltb_ge _ _)) by lia.
    destruct (Z.eqb_spec (blen d) 0) as [E|_]; [by apply blen_0_nil in E|].
    erewrite rd_bind_ok; [|apply ReadFull_app]. done.
Qed.

#[global] Program Instance NewConnectionIDFrame_Codec :
    FrameCodec NewConnectionIDFrame (λ _, parseNewConnectionIDFrame) := {
  frame_wf f := quicvarint.encodable (nc_SequenceNumber f) ∧
    0 ≤ nc_RetirePriorTo f ≤ nc_SequenceNumber f ∧
    ConnectionID_wf (nc_ConnectionID f) ∧ ConnectionID_Len (nc_ConnectionID f) ≠ 0 ∧
    blen (nc_StatelessResetToken f) = 16;
  frame_type f := newConnectionIDFrameType; frame_norm f := f; frame_delimited f := true }.
Next Obligation.
  intros [seq ret cid tok] (H1 & H2 & H3 & H4 & H5); simpl in *. split; [by vm_compute|].
  assert (quicvarint.encodable ret) by (destruct H1; unfold quicvarint.encodable; lia).
  destruct (ConnectionID_Len_Bytes cid H3) as [Hlen Hr].
  exists (quicvarint.enc seq ++ quicvarint.enc ret ++ [ConnectionID_Len cid] ++
          ConnectionID_Bytes cid ++ tok). split_and!.
  - intros b. unfold NewConnectionIDFrame_Append; simpl.
    repeat (rewrite quicvarint.Append_enc by enc_side; rewrite ?res_bind_ok).
    rewrite (proj2 (Z.ltb_ge _ _)) by (unfold MaxConnIDLen; lia).
    rewrite u8_small by lia. rewrite <- !app_assoc. reflexivity.
  - unfold NewConnectionIDFrame_Length; simpl. codec_length.
  - intros s _. unfold parseNewConnectionIDFrame. codec_read.
    rewrite (proj2 (Z.ltb_ge _ _)) by lia. simpl app.
    erewrite rd_bind_ok; [|apply ReadByte_cons].
    destruct (Z.eqb_spec (ConnectionID_Len cid) 0); [done|].
    erewrite rd_bind_ok; [|by apply ReadConnectionID_app].
    erewrite rd_bind_ok; [|by apply readArray_app]. done.
Qed.

#[global] Program Instance ConnectionCloseFrame_Codec :
    FrameCodec ConnectionCloseFrame parseConnectionCloseFrame := {
  frame_wf f := quicvarint.encodable (cc_ErrorCode f) ∧ quicvarint.encodable (cc_FrameType f) ∧
    (cc_IsApplicationError f = true → cc_FrameType f = 0) ∧ data_ok (cc_ReasonPhrase f);
  frame_type f := if cc_IsApplicationError f then applicationCloseFrameType
                  else connectionCloseFrameType;
  frame_norm f := f; frame_delimited f := true }.
Next Obligation.
  intros [[] ec ft d] (H1 & H2 & H3 & H4); simpl in *; (split; [by vm_compute|]).
  - exists (quicvarint.enc ec ++ quicvarint.enc (blen d) ++ d). split_and!.
    + intros b. unfold ConnectionCloseFrame_Append; simpl. codec_write.
    + unfold ConnectionCloseFrame_Length; simpl. codec_length.
    + intros s _. unfold parseConnectionCloseFrame; simpl. codec_read.
      erewrite rd_bind_ok; [|done]. codec_read.
      rewrite rd_len_bind, blen_app. pose proof (blen_nonneg s).
      rewrite (proj2 (Z.ltb_ge _ _)) by lia.
      erewrite rd_bind_ok; [|apply ReadFull_app]. by rewrite (H3 eq_refl).
  - exists (quicvarint.enc ec ++ quicvarint.enc ft ++ quicvarint.enc (blen d) ++ d). split_and!.
    + intros b. unfold ConnectionCloseFrame_Append; simpl. codec_write.
    + unfold ConnectionCloseFrame_Length; simpl. codec_length.
    + intros s _. unfold parseConnectionCloseFrame; simpl. codec_read.
      rewrite rd_len_bind, blen_app. pose proof (blen_nonneg s).
      rewrite (proj2 (Z.ltb_ge _ _)) by lia.
      erewrite rd_bind_ok; [|apply ReadFull_app]. done.
Qed.

#[global] Program Instance CryptoFrame_Codec : FrameCodec CryptoFrame (λ _, parseCryptoFrame) := {
  frame_wf f := quicvarint.encodable (cf_Offset f) ∧ data_ok (cf_Data f);
  frame_type f := cryptoFrameType; frame_norm f := f; frame_delimited f := true }.
Next Obligation.
  intros [o d] (H1 & H2); simpl in *. split; [by vm_compute|].
  exists (quicvarint.enc o ++ quicvarint.enc (blen d) ++ d). split_and!.
  - intros b. unfold CryptoFrame_Append; simpl. codec_write.
  - unfold CryptoFrame_Length; simpl. codec_length.
  - intros s _. unfold parseCryptoFrame. codec_read. by rewrite checked_read.
Qed.

#[global] Program Instance RepairFrame_Codec : FrameCodec RepairFrame (λ _, parseRepairFrame) := {
  frame_wf f := quicvarint.encodable (bm_BlockID (rf_Metadata f)) ∧
    quicvarint.encodable (bm_ParityID (rf_Metadata f)) ∧ data_ok (rf_Payload f);
  frame_type f := repairFrameType; frame_norm f := f; frame_delimited f := true }.
Next Obligation.
  intros [[bid pid] d] (H1 & H2 & H3); simpl in *. split; [by vm_compute|].
  assert (quicvarint.encodable repairFrameType) by by vm_compute.
  exists (quicvarint.enc bid ++ quicvarint.enc pid ++ quicvarint.enc (blen d) ++ d). split_and!.
  - intros b. unfold RepairFrame_Append; simpl. codec_write.
  - unfold RepairFrame_Length; simpl. codec_length.
  - intros s _. unfold parseRepairFrame. codec_read. by rewrite checked_read.
Qed.

(** The payload of a parsed SOURCE_SYMBOL frame, in a fresh zeroed buffer of
    [MaxPacketBufferSize] bytes (no buffer for an empty payload). *)
Definition payload_slice (d : bytes) : slice :=
  match d with [] => slice_nil | _ => mkSlice d (zeros (MaxPacketBufferSize - blen d)) end.

#[global] Program Instance SourceSymbolFrame_Codec :
    FrameCodec SourceSymbolFrame (λ _, ParseSourceSymbolFrame) := {
  frame_wf f := quicvarint.encodable (ssf_SSID f) ∧ sl_len (ssf_Payload f) ≤ MaxPacketBufferSize;
  frame_type f := sourceSymbolFrameType;
  frame_norm f := mkSourceSymbolFrame (ssf_SSID f) (payload_slice (sl_data (ssf_Payload f)));
  frame_delimited f := true }.
Next Obligation.
  intros [sid [d t]] (H1 & H2); unfold sl_len in *; simpl in *. split; [by vm_compute|].
  assert (quicvarint.encodable sourceSymbolFrameType) by by vm_compute.
  assert (data_ok d) by (unfold data_ok, MaxPacketBufferSize, quicvarint.Max, quicvarint.maxVarInt8 in *; lia).
  exists (quicvarint.enc sid ++ quicvarint.enc (blen d) ++ d). split_and!.
  - intros b. unfold SourceSymbolFrame_Append, sl_len; simpl. codec_write.
  - unfold SourceSymbolFrame_Length, sl_len; simpl. codec_length.
  - intros s _. unfold ParseSourceSymbolFrame. codec_read. rewrite rd_len_bind, blen_app.
    pose proof (blen_nonneg s). rewrite (proj2 (Z.ltb_ge _ _)) by lia.
    destruct d as [|x d]; [done|].
    destruct (Z.eqb_spec (blen (x :: d)) 0) as [E|_]; [by apply blen_0_nil in E|]. simpl negb. cbv iota.
    rewrite (proj2 (Z.ltb_ge _ _)) by lia.
    erewrite rd_bind_ok; [|erewrite rd_bind_ok; [|apply ReadFull_app]; reflexivity]. done.
Qed.

#[global] Program Instance DatagramFrame_Codec : FrameCodec DatagramFrame parseDatagramFrame := {
  frame_wf f := data_ok (df_Data f);
  frame_type f := if df_DataLenPresent f then 0x31 else 0x30;
  frame_norm f := mkDatagramFrame (df_DataLenPresent f) (df_Data f) false;
  frame_delimited f := df_DataLenPresent f }.
Next Obligation.
  intros [[] d p] H1; simpl in *; (split; [by vm_compute|]).
  - exists (quicvarint.enc (blen d) ++ d). split_and!.
    + intros b. unfold DatagramFrame_Append; simpl. codec_write.
    + unfold DatagramFrame_Length; simpl. codec_length.
    + intros s _. unfold parseDatagramFrame; simpl. rewrite <- app_assoc.
      erewrite rd_bind_ok.
      2:{ erewrite rd_bind_ok; [|apply quicvarint.Read_enc; enc_side].
          rewrite rd_len_bind, blen_app. pose proof (blen_nonneg s).
          rewrite (proj2 (Z.ltb_ge _ _)) by lia. reflexivity. }
      erewrite rd_bind_ok; [|apply ReadFull_app]. done.
  - exists d. split_and!.
    + intros b. unfold DatagramFrame_Append; simpl. by rewrite <- app_assoc.
    + unfold DatagramFrame_Length; simpl. codec_length.
    + intros s [?| ->]; [done|]. rewrite app_nil_r. unfold parseDatagramFrame; simpl.
      rewrite rd_len_bind. erewrite rd_bind_ok; [done|].
      rewrite <- (app_nil_r d) at 2. apply ReadFull_app.
Qed.

(** The type byte of a STREAM frame. *)
Definition StreamFrame_typ (f : StreamFrame) : Z :=
  0x8 + (if sf_Fin f then 1 else 0) + (if sf_DataLenPresent f then 2 else 0)
      + (if sf_Offset f =? 0 then 0 else 4).

#[global] Program Instance StreamFrame_Codec : FrameCodec StreamFrame parseStreamFrame := {
  frame_wf f := quicvarint.encodable (sf_StreamID f) ∧ 0 ≤ sf_Offset f ∧
    sf_Offset f + StreamFrame_DataLen f ≤ MaxByteCount ∧
    StreamFrame_DataLen f ≤ MaxPacketBufferSize ∧ (sf_Data f ≠ [] ∨ sf_Fin f = true);
  frame_type f := StreamFrame_typ f;
  frame_norm f := mkStreamFrame (sf_StreamID f) (sf_Offset f) (sf_Data f) (sf_Fin f)
                    (sf_DataLenPresent f)
                    (negb (StreamFrame_DataLen f <? MinStreamFrameBufferSize)) false;
  frame_delimited f := sf_DataLenPresent f }.
Next Obligation.
  intros [sid o d fin dlp fp fec] (H1 & H2 & H3 & H4 & H5).
  unfold StreamFrame_DataLen, StreamFrame_typ in *; simpl in *.
  pose proof (blen_nonneg d) as Hd.
  assert (data_ok d) by (unfold data_ok, MaxPacketBufferSize, quicvarint.Max, quicvarint.maxVarInt8 in *; lia).
  assert (quicvarint.encodable o)
    by (unfold quicvarint.encodable, MaxByteCount, quicvarint.Max, quicvarint.maxVarInt8 in *; lia).
  split; [destruct fin, dlp, (o =? 0); by vm_compute|].
  exists (quicvarint.enc sid ++ (if o =? 0 then [] else quicvarint.enc o) ++
          (if dlp then quicvarint.enc (blen d) else []) ++ d). split_and!.
  - intros b. unfold StreamFrame_Append, StreamFrame_DataLen; simpl.
    assert ((blen d =? 0) && negb fin = false) as ->.
    { destruct fin; [apply andb_false_r|]. destruct H5 as [H5|]; [|done].
      destruct (Z.eqb_spec (blen d) 0) as [E|]; [by apply blen_0_nil in E|done]. }
    destruct (Z.eqb_spec o 0) as [->|]; destruct fin, dlp; simpl; codec_write.
  - unfold StreamFrame_Length, StreamFrame_DataLen; simpl.
    destruct (Z.eqb_spec o 0) as [->|]; destruct fin, dlp; simpl; codec_length.
  - intros s Hs. unfold parseStreamFrame, StreamFrame_DataLen; simpl.
    assert (Hdata : ∀ k : bytes → rd StreamFrame,
      (data ← (if negb (blen d =? 0) then ReadFull (blen d) else mret []); k data) (d ++ s) = k d s).
    { intros k. destruct (Z.eqb_spec (blen d) 0) as [E|E]; simpl.
      - rewrite (blen_0_nil d) by done. done.
      - erewrite rd_bind_ok; [done|]. apply ReadFull_app. }
    assert (Hcap : negb (blen d <? MinStreamFrameBufferSize) && (MaxPacketBufferSize <? blen d) = false).
    { rewrite (proj2 (Z.ltb_ge MaxPacketBufferSize _)) by lia. apply andb_false_r. }
    assert (Hoff : (MaxByteCount <? i64 (o + blen d)) = false).
    { rewrite i64_small; unfold MaxByteCount in *; lia. }
    rewrite <- !app_assoc.
    erewrite rd_bind_ok; [|apply quicvarint.Read_enc; enc_side].
    erewrite (rd_bind_ok _ _ _ ((if dlp then quicvarint.enc (blen d) else []) ++ d ++ s) o).
    2:{ destruct (Z.eqb_spec o 0) as [->|]; destruct fin, dlp; try reflexivity;
        apply quicvarint.Read_enc; enc_side. }
    erewrite (rd_bind_ok _ _ _ (d ++ s) (blen d)).
    2:{ destruct dlp.
        - destruct (o =? 0), fin; apply quicvarint.Read_enc; enc_side.
        - destruct Hs as [|Hs]; [done|]. rewrite Hs, app_nil_r. destruct (o =? 0), fin; reflexivity. }
    rewrite Hcap, Hdata. rewrite (quicvarint.encodable_i64 sid), (quicvarint.encodable_i64 o) by enc_side.
    simpl. rewrite Hoff.
    destruct (o =? 0), fin, dlp; reflexivity.
Qed.

(** ** Splitting frames *)

(** The largest data length for a length prefix of one byte, or of two when
    one is not enough, computed from a budget [m] that includes one byte of
    prefix: the result and its prefix fit into [m] plus that byte. *)
Lemma max_data_len_fits (m : Z) : 0 ≤ m ≤ 16383 →
  let n := if negb (quicvarint.size m =? 1) then m - 1 else m in
  0 ≤ n ∧ quicvarint.size n + n ≤ m + 1 ∧
  ∀ k, 0 ≤ k → m + 1 < quicvarint.size k + k → n < k.
Proof.
  intros Hm. unfold quicvarint.size, quicvarint.Len, quicvarint.maxVarInt1, quicvarint.maxVarInt2,
    quicvarint.maxVarInt4, quicvarint.maxVarInt8.
  destruct (Z.leb_spec m 63); simpl.
  - split; [lia|]. split; [repeat zcase; lia|]. intros k Hk. repeat zcase; lia.
  - destruct (Z.leb_spec m 16383); simpl; [|lia].
    split; [lia|]. split; [repeat zcase; lia|]. intros k Hk. repeat zcase; lia.
Qed.

(** Bytes of a STREAM frame before the length field. *)
Definition StreamFrame_hdr (f : StreamFrame) : Z :=
  1 + quicvarint.size (sf_StreamID f)
    + (if sf_Offset f =? 0 then 0 else quicvarint.size (sf_Offset f)).

(** Frames [MaybeSplitOffFrame] is called on: anything this endpoint queued. *)
Definition StreamFrame_sendable (f : StreamFrame) : Prop :=
  quicvarint.encodable (sf_StreamID f) ∧ 0 ≤ sf_Offset f ∧
  sf_Offset f + StreamFrame_DataLen f ≤ MaxByteCount ∧ StreamFrame_DataLen f ≤ MaxPacketBufferSize.

Lemma sendable_encodable f : StreamFrame_sendable f →
  quicvarint.encodable (sf_StreamID f) ∧ quicvarint.encodable (sf_Offset f) ∧
  quicvarint.encodable (StreamFrame_DataLen f) ∧ 2 ≤ StreamFrame_hdr f ≤ 17.
Proof.
  intros (H1 & H2 & H3 & H4). pose proof (blen_nonneg (sf_Data f)).
  unfold StreamFrame_DataLen, MaxByteCount, MaxPacketBufferSize in *.
  assert (quicvarint.encodable (sf_Offset f))
    by (unfold quicvarint.encodable, quicvarint.Max, quicvarint.maxVarInt8; lia).
  split; [done|]. split; [done|]. split;
    [unfold quicvarint.encodable, quicvarint.Max, quicvarint.maxVarInt8; lia|].
  unfold StreamFrame_hdr. pose proof (quicvarint.size_range _ H1).
  pose proof (quicvarint.size_range (sf_Offset f) ltac:(done)). destruct (sf_Offset f =? 0); lia.
Qed.

Lemma StreamFrame_Length_eq f : StreamFrame_sendable f →
  StreamFrame_Length f = Ok (StreamFrame_hdr f
    + (if sf_DataLenPresent f then quicvarint.size (StreamFrame_DataLen f) else 0)
    + StreamFrame_DataLen f).
Proof.
  intros Hf. destruct (sendable_encodable f Hf) as (H1 & H2 & H3 & _).
  unfold StreamFrame_Length, StreamFrame_hdr.
  rewrite !quicvarint.encodable_u64, !quicvarint.Len_size by done. rewrite res_bind_ok.
  destruct (sf_Offset f =? 0), (sf_DataLenPresent f); simpl; rewrite ?res_bind_ok; f_equal; lia.
Qed.

Lemma StreamFrame_MaxDataLen_eq f maxSize : StreamFrame_sendable f → maxSize ≤ 16383 →
  let h := StreamFrame_hdr f + (if sf_DataLenPresent f then 1 else 0) in
  StreamFrame_MaxDataLen f maxSize = Ok
    (if maxSize <? h then 0
     else if sf_DataLenPresent f && negb (quicvarint.size (maxSize - h) =? 1)
          then maxSize - h - 1 else maxSize - h).
Proof.
  intros Hf Hm h. destruct (sendable_encodable f Hf) as (H1 & H2 & _ & H4).
  unfold StreamFrame_MaxDataLen.
  rewrite (quicvarint.encodable_u64 (sf_StreamID f)), (quicvarint.encodable_u64 (sf_Offset f)) by done.
  rewrite !quicvarint.Len_size by done. rewrite res_bind_ok.
  assert (E : ∀ A (k : Z → res A),
    ((if negb (sf_Offset f =? 0)
      then l ← Ok (quicvarint.size (sf_Offset f)); Ok (1 + quicvarint.size (sf_StreamID f) + l)
      else Ok (1 + quicvarint.size (sf_StreamID f))) ≫= k) = k (StreamFrame_hdr f)).
  { intros. unfold StreamFrame_hdr. destruct (sf_Offset f =? 0); simpl; rewrite ?Z.add_0_r; done. }
  rewrite E. subst h. destruct (sf_DataLenPresent f); simpl.
  - destruct (Z.ltb_spec maxSize (StreamFrame_hdr f + 1)); [done|].
    assert (quicvarint.encodable (maxSize - (StreamFrame_hdr f + 1)))
      by (unfold quicvarint.encodable, quicvarint.Max, quicvarint.maxVarInt8; lia).
    rewrite quicvarint.encodable_u64, quicvarint.Len_size by done. done.
  - rewrite Z.add_0_r. by destruct (Z.ltb_spec maxSize (StreamFrame_hdr f)).
Qed.

(** What a data length chosen by [MaxDataLen] guarantees. *)
Lemma StreamFrame_MaxDataLen_spec f maxSize : StreamFrame_sendable f → maxSize ≤ 16383 →
  ∃ n, StreamFrame_MaxDataLen f maxSize = Ok n ∧ 0 ≤ n ∧
    (0 < n → StreamFrame_hdr f + (if sf_DataLenPresent f then quicvarint.size n else 0) + n ≤ maxSize) ∧
    (∀ k, 0 < k → maxSize < StreamFrame_hdr f + (if sf_DataLenPresent f then quicvarint.size k else 0) + k →
          n < k) ∧
    (n = 0 → maxSize < StreamFrame_hdr f + (if sf_DataLenPresent f then 1 else 0) + 1).
Proof.
  intros Hf Hm. eexists. split; [by apply StreamFrame_MaxDataLen_eq|].
  destruct (sendable_encodable f Hf) as (_ & _ & _ & H4).
  destruct (sf_DataLenPresent f); simpl.
  - destruct (Z.ltb_spec maxSize (StreamFrame_hdr f + 1)); [split_and!; intros; lia|].
    pose proof (max_data_len_fits (maxSize - (StreamFrame_hdr f + 1))) as (Ha & Hb & Hc); [lia|].
    split_and!; [lia|intros; lia|intros k Hk Hlt; apply Hc; lia|].
    intros Hn0. destruct (Z.eqb_spec (quicvarint.size (maxSize - (StreamFrame_hdr f + 1))) 1) as [E|E];
      simpl in *; [lia|]. assert (maxSize = StreamFrame_hdr f + 2) as -> by lia.
    replace (StreamFrame_hdr f + 2 - (StreamFrame_hdr f + 1)) with 1 in E by lia. done.
  - rewrite Z.add_0_r. destruct (Z.ltb_spec maxSize (StreamFrame_hdr f)); split_and!; intros; lia.
Qed.

(** [StreamFrame.MaybeSplitOffFrame] never panics on a frame this endpoint
    can queue, and does what its documentation says.  A frame that fits is left
    alone; otherwise either not even one byte of data fits and nothing changes,
    or the data is cut in two non-empty parts at consecutive offsets, the first
    part fits, and FIN stays on the second. *)
Lemma StreamFrame_split_spec (f : StreamFrame) (maxSize : Z) :
  StreamFrame_sendable f →
  match StreamFrame_MaybeSplitOffFrame f maxSize with
  | Ok (None, false, f') => f' = f ∧ ∃ l, Length f = Ok l ∧ l ≤ maxSize
  | Ok (None, true, f') => f' = f ∧
      maxSize < StreamFrame_hdr f + (if sf_DataLenPresent f then 1 else 0) + 1
  | Ok (Some new, true, f') =>
      sf_Data f = sf_Data new ++ sf_Data f' ∧ sf_Data new ≠ [] ∧ sf_Data f' ≠ [] ∧
      sf_StreamID new = sf_StreamID f ∧ sf_StreamID f' = sf_StreamID f ∧
      sf_Offset new = sf_Offset f ∧ sf_Offset f' = sf_Offset f + StreamFrame_DataLen new ∧
      sf_Fin new = false ∧ sf_Fin f' = sf_Fin f ∧
      ∃ l, Length new = Ok l ∧ l ≤ maxSize
  | _ => False
  end.
Proof.
  intros Hf. unfold StreamFrame_MaybeSplitOffFrame. simpl Length.
  destruct (sendable_encodable f Hf) as (H1 & H2 & H3 & H4).
  pose proof (StreamFrame_Length_eq f Hf) as HL. rewrite HL, res_bind_ok.
  destruct Hf as (_ & Ho & Hmax & Hcap). pose proof (quicvarint.size_range _ H3) as Hs.
  zcase; [by eauto|]. unfold MaxByteCount, MaxPacketBufferSize in *.
  destruct (StreamFrame_MaxDataLen_spec f maxSize) as (n & -> & Hn & Hfit & Hmin & Hzero);
    [done|destruct (sf_DataLenPresent f); lia|]. rewrite res_bind_ok.
  unfold StreamFrame_DataLen in *.
  destruct (Z.eqb_spec n 0) as [Hn0|Hn0]; [by eauto|].
  assert (n < blen (sf_Data f)) as Hlt.
  { destruct (Z.eq_dec (blen (sf_Data f)) 0) as [E|E].
    - rewrite E in *. destruct (sf_DataLenPresent f);
        [change (quicvarint.size 0) with 1 in *; pose proof (quicvarint.size_nonneg n)|]; lia.
    - pose proof (blen_nonneg (sf_Data f)). apply Hmin; lia. }
  rewrite (proj2 (Z.ltb_ge (_ - n) 0)), (proj2 (Z.ltb_ge _ (_ - n))) by lia. simpl.
  assert (Ht : blen (take (Z.to_nat n) (sf_Data f)) = n)
    by (unfold blen in *; rewrite length_take; lia).
  assert (Hd : blen (drop (Z.to_nat n) (sf_Data f)) = blen (sf_Data f) - n)
    by (unfold blen in *; rewrite length_drop; lia).
  rewrite i64_small by lia.
  split_and!; try done; [by rewrite take_drop|intros E; rewrite E in Ht; unfold blen in Ht; simpl in Ht; lia
    |intros E; rewrite E in Hd; unfold blen in *; simpl in Hd; lia|unfold StreamFrame_DataLen; simpl; lia|].
  eexists. split.
  { apply StreamFrame_Length_eq. unfold StreamFrame_sendable, StreamFrame_DataLen,
      MaxByteCount, MaxPacketBufferSize; simpl. rewrite Ht. split; [done|lia]. }
  unfold StreamFrame_hdr, StreamFrame_DataLen in *; simpl. rewrite Ht. lia.
Qed.

Definition CryptoFrame_hdr (f : CryptoFrame) : Z := 1 + quicvarint.size (cf_Offset f).

Definition CryptoFrame_sendable (f : CryptoFrame) : Prop :=
  0 ≤ cf_Offset f ∧ cf_Offset f + blen (cf_Data f) ≤ MaxByteCount.

Lemma CryptoFrame_Length_eq f : CryptoFrame_sendable f →
  quicvarint.encodable (cf_Offset f) ∧ quicvarint.encodable (blen (cf_Data f)) ∧
  CryptoFrame_Length f =
    Ok (CryptoFrame_hdr f + quicvarint.size (blen (cf_Data f)) + blen (cf_Data f)).
Proof.
  intros [H1 H2]. pose proof (blen_nonneg (cf_Data f)).
  unfold MaxByteCount in *.
  assert (quicvarint.encodable (cf_Offset f) ∧ quicvarint.encodable (blen (cf_Data f))) as [? ?]
    by (unfold quicvarint.encodable, quicvarint.Max, quicvarint.maxVarInt8; lia).
  split; [done|]. split; [done|]. unfold CryptoFrame_Length, CryptoFrame_hdr. 
  rewrite !quicvarint.encodable_u64, !quicvarint.Len_size by done. done.
Qed.

Lemma CryptoFrame_MaxDataLen_eq f maxSize : CryptoFrame_sendable f → maxSize ≤ 16383 →
  CryptoFrame_MaxDataLen f maxSize = Ok
    (let m := maxSize - (CryptoFrame_hdr f + 1) in
     if m <? 0 then 0 else if negb (quicvarint.size m =? 1) then m - 1 else m).
Proof.
  intros Hf Hm. destruct (CryptoFrame_Length_eq f Hf) as (H1 & _ & _).
  unfold CryptoFrame_MaxDataLen.
  rewrite (quicvarint.encodable_u64 (cf_Offset f)), (quicvarint.Len_size (cf_Offset f)) by done.
  rewrite res_bind_ok. fold (CryptoFrame_hdr f). cbv zeta.
  pose proof (quicvarint.size_nonneg (cf_Offset f)).
  destruct (Z.ltb_spec maxSize (CryptoFrame_hdr f + 1)), (Z.ltb_spec (maxSize - (CryptoFrame_hdr f + 1)) 0);
    try lia; [done|].
  assert (quicvarint.encodable (maxSize - (CryptoFrame_hdr f + 1)))
    by (unfold quicvarint.encodable, quicvarint.Max, quicvarint.maxVarInt8, CryptoFrame_hdr in *; lia).
  by rewrite quicvarint.encodable_u64, quicvarint.Len_size by done.
Qed.

(** [CryptoFrame.MaybeSplitOffFrame], for packets of at most 16383 bytes:
    the frame is left alone if it fits, nothing changes if not even one byte
    of data fits, and otherwise the data is cut in two parts at consecutive
    offsets, the first of which is not empty and fits. *)
Lemma CryptoFrame_split_spec (f : CryptoFrame) (maxSize : Z) :
  CryptoFrame_sendable f → maxSize ≤ 16383 →
  match CryptoFrame_MaybeSplitOffFrame f maxSize with
  | Ok (None, false, f') => f' = f ∧ ∃ l, Length f = Ok l ∧ l ≤ maxSize
  | Ok (None, true, f') => f' = f ∧ maxSize < CryptoFrame_hdr f + 1 + 1
  | Ok (Some new, true, f') =>
      cf_Data f = cf_Data new ++ cf_Data f' ∧ cf_Data new ≠ [] ∧ cf_Data f' ≠ [] ∧
      cf_Offset new = cf_Offset f ∧ cf_Offset f' = cf_Offset f + blen (cf_Data new) ∧
      ∃ l, Length new = Ok l ∧ l ≤ maxSize
  | _ => False
  end.
Proof.
  intros Hf Hm. unfold CryptoFrame_MaybeSplitOffFrame. simpl Length.
  destruct (CryptoFrame_Length_eq f Hf) as (H1 & H2 & HL). rewrite HL, res_bind_ok.
  zcase; [by eauto|].
  rewrite (CryptoFrame_MaxDataLen_eq f maxSize Hf Hm), res_bind_ok. cbv zeta.
  set (m := maxSize - (CryptoFrame_hdr f + 1)) in *.
  destruct (Z.ltb_spec m 0); [simpl; split; [done|lia]|].
  assert (m ≤ 16383) by (pose proof (quicvarint.size_nonneg (cf_Offset f));
    unfold m, CryptoFrame_hdr; lia).
  destruct (max_data_len_fits m) as (Hn & Hfit & Hmin); [lia|].
  set (n := if negb (quicvarint.size m =? 1) then m - 1 else m) in *.
  assert (n < blen (cf_Data f)) as Hlt by (apply Hmin; [apply blen_nonneg|lia]).
  destruct (Z.eqb_spec n 0) as [Hn0|Hn0].
  { split; [done|]. assert (m = 0 ∨ 63 < m) as [|] by
      (unfold n, quicvarint.size, quicvarint.Len, quicvarint.maxVarInt1 in Hn0;
       destruct (Z.leb_spec m 63); simpl in Hn0; lia); [lia|].
    unfold n in Hn0. destruct (negb _); lia. }
  rewrite (proj2 (Z.ltb_ge (_ - n) 0)) by lia.
  destruct Hf as [Ho Hmax]. unfold MaxByteCount in *.
  assert (Ht : blen (take (Z.to_nat n) (cf_Data f)) = n)
    by (unfold blen in *; rewrite length_take; lia).
  assert (Hd : blen (drop (Z.to_nat n) (cf_Data f)) = blen (cf_Data f) - n)
    by (unfold blen in *; rewrite length_drop; lia).
  simpl. rewrite i64_small by lia.
  split_and!; try done; [by rewrite take_drop|intros E; rewrite E in Ht; unfold blen in Ht; simpl in Ht; lia
    |intros E; rewrite E in Hd; unfold blen in *; simpl in Hd; lia|lia|].
  edestruct (CryptoFrame_Length_eq (mkCryptoFrame (cf_Offset f) (take (Z.to_nat n) (cf_Data f))))
    as (_ & _ & HL').
  { unfold CryptoFrame_sendable, MaxByteCount; simpl. rewrite Ht. lia. }
  eexists. split; [exact HL'|]. unfold CryptoFrame_hdr in *; simpl. rewrite Ht. lia.
Qed.

(** The data length [DatagramFrame.MaxDataLen] allows fits the frame. *)
Lemma DatagramFrame_MaxDataLen_fits dlp fec maxSize n d : maxSize ≤ 16383 →
  DatagramFrame_MaxDataLen (mkDatagramFrame dlp [] fec) maxSize = Ok n →
  0 < n → blen d = n →
  ∃ l, Length (mkDatagramFrame dlp d fec) = Ok l ∧ l ≤ maxSize.
Proof.
  intros Hm. unfold DatagramFrame_MaxDataLen; simpl. unfold DatagramFrame_Length; simpl.
  destruct dlp; simpl; zcase.
  - intros [= <-]. lia.
  - assert (quicvarint.encodable (maxSize - 2))
      by (unfold quicvarint.encodable, quicvarint.Max, quicvarint.maxVarInt8; lia).
    rewrite quicvarint.encodable_u64, quicvarint.Len_size, res_bind_ok by done.
    destruct (max_data_len_fits (maxSize - 2)) as (Ha & Hb & _); [lia|].
    intros [= <-] Hn Hd. rewrite Hd in *.
    set (n := if negb _ then _ else _) in *.
    assert (quicvarint.encodable n)
      by (pose proof (quicvarint.size_nonneg n);
          unfold quicvarint.encodable, quicvarint.Max, quicvarint.maxVarInt8; lia).
    rewrite quicvarint.encodable_u64, quicvarint.Len_size, res_bind_ok by done.
    eexists. split; [done|]. lia.
  - intros [= <-]. lia.
  - intros [= <-] Hn Hd. eexists. split; [done|]. lia.
Qed.

End wire.
