(* ===== verification/AckFrame.v ===== *)
(** ACK frames (src/internal/wire/ack_frame.go, ack_range.go): parsing with
    the validation of ranges, writing with the size limit, lookup of a packet
    number by binary search, and the round trip. *)

From S2P Require Import Prelude Varint Protocol Frames.
Import protocol.

Module ack.

Record AckRange := mkAckRange { Smallest : Z; Largest : Z }.

Definition AckRange_Len (r : AckRange) : Z := Largest r - Smallest r + 1.

Record AckFrame := mkAckFrame {
  AckRanges : list AckRange;
  DelayTime : Z;                 (* time.Duration, nanoseconds *)
  ECT0 : Z; ECT1 : Z; ECNCE : Z;
}.

#[global] Instance AckRange_eq_dec : EqDecision AckRange.
Proof. solve_decision. Defined.

Definition InfDuration : Z := 2 ^ 63 - 1.
Definition Microsecond : Z := 1000.

Definition errInvalidAckRanges : go_error :=
  ErrMsg "AckFrame: ACK frame contains invalid ACK ranges".

(** ** Validation *)

Fixpoint checkConsistency (last : AckRange) (rs : list AckRange) : bool :=
  match rs with
  | [] => true
  | ackRange :: rs =>
      if Smallest last <=? Smallest ackRange then false
      else if Smallest last <=? Largest ackRange + 1 then false
      else checkConsistency ackRange rs
  end.

Definition validateAckRanges (f : AckFrame) : bool :=
  match AckRanges f with
  | [] => false
  | r0 :: rs =>
      if negb (forallb (λ r, Smallest r <=? Largest r) (r0 :: rs)) then false
      else checkConsistency r0 rs
  end.

(** ** Parsing *)

(** [time.Duration(delay*1<<ackDelayExponent) * time.Microsecond], replaced by
    [InfDuration] when it comes out negative. *)
Definition decodeAckDelay (delay ackDelayExponent : Z) : Z :=
  let d := i64 (i64 (u64 (Z.shiftl delay ackDelayExponent)) * Microsecond) in
  if d <? 0 then InfDuration else d.

(** The loop over the further ranges.  Every iteration reads at least one
    byte, so fuel for one iteration more than there are bytes is enough. *)
Fixpoint readRanges (fuel : nat) (numBlocks : Z) (smallest : Z) (acc : list AckRange)
    : rd (list AckRange) :=
  if numBlocks <=? 0 then mret acc else
  match fuel with
  | O => rd_panic "out of fuel"
  | S fuel =>
      g ← quicvarint.Read;
      let gap := i64 g in
      if smallest <? gap + 2 then rd_fail errInvalidAckRanges else
      let largest := smallest - gap - 2 in
      ab ← quicvarint.Read;
      let ackBlock := i64 ab in
      if largest <? ackBlock then rd_fail errInvalidAckRanges else
      let smallest := largest - ackBlock in
      readRanges fuel (numBlocks - 1) smallest (acc ++ [mkAckRange smallest largest])
  end.

Definition parseAckFrame (typ : Z) (ackDelayExponent : Z) : rd AckFrame := λ s,
  (let ecn := typ =? wire.ackECNFrameType in
   la ← quicvarint.Read;
   let largestAcked := i64 la in
   delay ← quicvarint.Read;
   let delayTime := decodeAckDelay delay ackDelayExponent in
   numBlocks ← quicvarint.Read;
   ab ← quicvarint.Read;
   let ackBlock := i64 ab in
   if largestAcked <? ackBlock then rd_fail (ErrMsg "invalid first ACK range") else
   let smallest := largestAcked - ackBlock in
   ranges ← readRanges (S (length s)) numBlocks smallest [mkAckRange smallest largestAcked];
   let frame := mkAckFrame ranges delayTime 0 0 0 in
   if negb (validateAckRanges frame) then rd_fail errInvalidAckRanges else
   if ecn then
     ect0 ← quicvarint.Read;
     ect1 ← quicvarint.Read;
     ecnce ← quicvarint.Read;
     mret (mkAckFrame ranges delayTime ect0 ect1 ecnce)
   else mret frame) s.

(** ** Writing *)

(** Indexing the slice of ranges. *)
Definition range_at (f : AckFrame) (i : nat) : res AckRange :=
  match AckRanges f !! i with
  | Some r => Ok r
  | None => Panic "index out of range"
  end.

Definition LargestAcked (f : AckFrame) : res Z := r ← range_at f 0; Ok (Largest r).

Definition LowestAcked (f : AckFrame) : res Z :=
  r ← range_at f (length (AckRanges f) - 1); Ok (Smallest r).

Definition encodeAckDelay (delay : Z) : Z :=
  u64 (Z.quot delay (1000 * Z.shiftl 1 AckDelayExponent)).

Definition encodeAckRange (f : AckFrame) (i : nat) : res (Z * Z) :=
  match i with
  | O => r ← range_at f 0; Ok (0, u64 (Largest r - Smallest r))
  | S i' =>
      p ← range_at f i';
      r ← range_at f i;
      Ok (u64 (Smallest p - Largest r - 2), u64 (Largest r - Smallest r))
  end.

(** The loop from [i] to the end, [n] iterations. *)
Fixpoint numEncodable_loop (f : AckFrame) (n : nat) (i : nat) (len : Z) : res Z :=
  match n with
  | O => Ok (Z.of_nat i)
  | S n =>
      '(gap, rlen) ← encodeAckRange f i;
      l1 ← quicvarint.Len gap;
      l2 ← quicvarint.Len rlen;
      let rangeLen := l1 + l2 in
      if MaxAckFrameSize <? len + rangeLen then Ok (Z.of_nat i - 1)
      else numEncodable_loop f n (S i) (len + rangeLen)
  end.

Definition numEncodableAckRanges (f : AckFrame) : res Z :=
  la ← LargestAcked f;
  l1 ← quicvarint.Len (u64 la);
  l2 ← quicvarint.Len (encodeAckDelay (DelayTime f));
  let length := 1 + l1 + l2 + 2 in
  numEncodable_loop f (List.length (AckRanges f) - 1) 1 length.

Fixpoint appendRanges (f : AckFrame) (n : nat) (i : nat) (b : bytes) : res bytes :=
  match n with
  | O => Ok b
  | S n =>
      '(gap, len) ← encodeAckRange f i;
      b ← quicvarint.Append b gap;
      b ← quicvarint.Append b len;
      appendRanges f n (S i) b
  end.

Definition hasECN (f : AckFrame) : bool := (0 <? ECT0 f) || (0 <? ECT1 f) || (0 <? ECNCE f).

Definition AckFrame_Append (b : bytes) (f : AckFrame) : res bytes :=
  let b := if hasECN f then b ++ [wire.ackECNFrameType] else b ++ [wire.ackFrameType] in
  la ← LargestAcked f;
  b ← quicvarint.Append b (u64 la);
  b ← quicvarint.Append b (encodeAckDelay (DelayTime f));
  numRanges ← numEncodableAckRanges f;
  b ← quicvarint.Append b (u64 (numRanges - 1));
  '(_, firstRange) ← encodeAckRange f 0;
  b ← quicvarint.Append b firstRange;
  b ← appendRanges f (Z.to_nat (numRanges - 1)) 1 b;
  if hasECN f then
    b ← quicvarint.Append b (ECT0 f);
    b ← quicvarint.Append b (ECT1 f);
    b ← quicvarint.Append b (ECNCE f);
    Ok b
  else Ok b.

Fixpoint lengthRanges (f : AckFrame) (n : nat) (i : nat) (length : Z) : res Z :=
  match n with
  | O => Ok length
  | S n =>
      '(gap, len) ← encodeAckRange f i;
      l1 ← quicvarint.Len gap;
      l2 ← quicvarint.Len len;
      lengthRanges f n (S i) (length + l1 + l2)
  end.

Definition AckFrame_Length (f : AckFrame) : res Z :=
  r0 ← range_at f 0;
  let largestAcked := Largest r0 in
  numRanges ← numEncodableAckRanges f;
  l1 ← quicvarint.Len (u64 largestAcked);
  l2 ← quicvarint.Len (encodeAckDelay (DelayTime f));
  let length := 1 + l1 + l2 in
  l3 ← quicvarint.Len (u64 (numRanges - 1));
  let length := length + l3 in
  let lowestInFirstRange := Smallest r0 in
  l4 ← quicvarint.Len (u64 (largestAcked - lowestInFirstRange));
  let length := length + l4 in
  length ← lengthRanges f (Z.to_nat (numRanges - 1)) 1 length;
  if hasECN f then
    e0 ← quicvarint.Len (ECT0 f);
    e1 ← quicvarint.Len (ECT1 f);
    e2 ← quicvarint.Len (ECNCE f);
    Ok (length + e0 + e1 + e2)
  else Ok length.

#[global] Instance AckFrame_Frame : wire.Frame AckFrame := {
  wire.Append := AckFrame_Append; wire.Length := AckFrame_Length }.

(** ** Lookup *)

Definition HasMissingRanges (f : AckFrame) : bool := 1 <? blen (AckRanges f).

Definition smallest_le (f : AckFrame) (p : Z) (i : Z) : bool :=
  match AckRanges f !! Z.to_nat i with
  | Some r => Smallest r <=? p
  | None => false
  end.

Definition AcksPacket (f : AckFrame) (p : Z) : res bool :=
  lowest ← LowestAcked f;
  if p <? lowest then Ok false else
  largest ← LargestAcked f;
  if largest <? p then Ok false else
  let i := Search (blen (AckRanges f)) (smallest_le f p) in
  r ← range_at f (Z.to_nat i);
  Ok (p <=? Largest r).

(** [Reset] truncates the slice; the ranges of the loop are copies. *)
Definition Reset (f : AckFrame) : AckFrame := mkAckFrame [] 0 0 0 0.

(** ** Valid ranges *)

Definition range_ok (r : AckRange) : Prop := Smallest r ≤ Largest r.
Definition range_gt (a b : AckRange) : Prop := Largest b + 1 < Smallest a.

Inductive ranges_valid : list AckRange → Prop :=
| ranges_valid_nil : ranges_valid []
| ranges_valid_cons r rs :
    range_ok r → Forall (range_gt r) rs → ranges_valid rs → ranges_valid (r :: rs).

Lemma ranges_valid_spec r0 rs :
  forallb (λ r, Smallest r <=? Largest r) (r0 :: rs) && checkConsistency r0 rs = true ↔
  ranges_valid (r0 :: rs).
Proof.
  revert r0. induction rs as [|r1 rs IH]; intros r0.
  - simpl. rewrite !andb_true_r, Z.leb_le. split.
    + intros. constructor; [done|done|constructor].
    + inversion 1; by subst.
  - specialize (IH r1). simpl in *. split.
    + intros H.
      destruct (Z.leb_spec (Smallest r0) (Smallest r1)), (Z.leb_spec (Smallest r0) (Largest r1 + 1));
        rewrite ?andb_false_r in H; try done.
      apply andb_prop in H as [H3 H4]. apply andb_prop in H3 as [H3 H5].
      assert (ranges_valid (r1 :: rs)) as Hv by (apply IH; by rewrite H5, H4).
      constructor; [by apply Z.leb_le|..|done]. inversion Hv as [|? ? Hok Hgt]; subst.
      constructor; [done|]. eapply Forall_impl; [exact Hgt|]. unfold range_gt, range_ok in *. lia.
    + inversion 1 as [|? ? Hok Hgt Hv]; subst. apply IH in Hv as Hb.
      apply andb_prop in Hb as [Hb1 Hb2]. apply Forall_cons in Hgt as [Hgt _].
      inversion Hv as [|? ? Hok1 _ _]; subst. unfold range_gt, range_ok in *.
      rewrite (proj2 (Z.leb_le _ _) Hok), Hb1. simpl.
      rewrite (proj2 (Z.leb_gt _ _)), (proj2 (Z.leb_gt _ _)) by lia. done.
Qed.

Lemma validateAckRanges_spec f :
  validateAckRanges f = true ↔ AckRanges f ≠ [] ∧ ranges_valid (AckRanges f).
Proof.
  unfold validateAckRanges. destruct (AckRanges f) as [|r0 rs]; [naive_solver|].
  rewrite <- ranges_valid_spec. destruct (forallb _ _); simpl; naive_solver.
Qed.

Lemma ranges_valid_lookup rs i j ri rj : ranges_valid rs →
  rs !! i = Some ri → rs !! j = Some rj → (i < j)%nat → range_gt ri rj.
Proof.
  intros Hv. revert i j. induction Hv as [|r rs Hok Hgt Hv IH]; intros i j Hi Hj Hij; [done|].
  destruct j as [|j]; [lia|]. destruct i as [|i]; simpl in *; simplify_eq.
  - rewrite Forall_forall in Hgt. apply Hgt, list_elem_of_lookup. eauto.
  - eapply IH; eauto. lia.
Qed.

Lemma ranges_valid_ok rs r : ranges_valid rs → r ∈ rs → range_ok r.
Proof.
  induction 1 as [|r' rs Hok Hgt Hv IH]; [by rewrite elem_of_nil|].
  rewrite elem_of_cons. intros [->|?]; auto.
Qed.

Lemma ranges_valid_Smallest_le rs i j ri rj : ranges_valid rs →
  rs !! i = Some ri → rs !! j = Some rj → (i ≤ j)%nat → Smallest rj ≤ Smallest ri ∧ Largest rj ≤ Largest ri.
Proof.
  intros Hv Hi Hj Hij. destruct (Nat.eq_dec i j) as [->|Hne]; [simplify_eq; lia|].
  assert (range_gt ri rj) by (eapply ranges_valid_lookup; eauto; lia).
  assert (range_ok ri) by (eapply ranges_valid_ok, list_elem_of_lookup; eauto).
  assert (range_ok rj) by (eapply ranges_valid_ok, list_elem_of_lookup; eauto).
  unfold range_gt, range_ok in *. lia.
Qed.

Definition in_range (p : Z) (r : AckRange) : bool := (Smallest r <=? p) && (p <=? Largest r).

(** If [i] is the first range whose smallest packet number is at most [p], only
    that range can contain [p]. *)
Lemma in_range_unique rs i ri p : ranges_valid rs → rs !! i = Some ri → Smallest ri ≤ p →
  (∀ k rk, (k < i)%nat → rs !! k = Some rk → p < Smallest rk) →
  existsb (in_range p) rs = (p <=? Largest ri).
Proof.
  intros Hv Hi Hp Hlt. apply Bool.eq_true_iff_eq. rewrite existsb_exists, Z.leb_le. split.
  - intros (r & Hr & Hin). apply list_elem_of_In, list_elem_of_lookup in Hr as [k Hk].
    unfold in_range in Hin. destruct (Nat.lt_trichotomy k i) as [H|[H|H]].
    + specialize (Hlt k r H Hk). lia.
    + subst. simplify_eq. lia.
    + assert (range_gt ri r) by (eapply ranges_valid_lookup; eauto). unfold range_gt in *. lia.
  - intros Hl. exists ri. split; [by apply list_elem_of_In, list_elem_of_lookup; eauto|].
    unfold in_range. lia.
Qed.

Lemma smallest_le_mono f p a b : ranges_valid (AckRanges f) →
  0 ≤ a ≤ b → b < blen (AckRanges f) → smallest_le f p a = true → smallest_le f p b = true.
Proof.
  intros Hv Hab Hb. unfold smallest_le, blen in *.
  destruct (AckRanges f !! Z.to_nat a) as [ra|] eqn:Ha; [|done].
  destruct (lookup_lt_is_Some_2 (AckRanges f) (Z.to_nat b)) as [rb Hrb]; [lia|].
  rewrite Hrb, !Z.leb_le.
  pose proof (ranges_valid_Smallest_le _ _ _ _ _ Hv Ha Hrb ltac:(lia)). lia.
Qed.

Lemma AcksPacket_spec (f : AckFrame) (p : Z) : validateAckRanges f = true →
  AcksPacket f p = Ok (existsb (in_range p) (AckRanges f)).
Proof.
  intros Hf. apply validateAckRanges_spec in Hf as [Hne Hv].
  unfold AcksPacket, LowestAcked, LargestAcked, range_at.
  assert (Hlen : (0 < length (AckRanges f))%nat) by (destruct (AckRanges f); simpl; [done|lia]).
  destruct (lookup_lt_is_Some_2 (AckRanges f) 0) as [r0 H0]; [lia|].
  destruct (lookup_lt_is_Some_2 (AckRanges f) (length (AckRanges f) - 1)) as [rn Hn]; [lia|].
  rewrite H0, Hn. simpl.
  destruct (Search_spec (blen (AckRanges f)) (smallest_le f p)) as (Hr & Hbelow & Hat);
    [apply blen_nonneg|intros; by eapply smallest_le_mono|].
  set (i := Search _ _) in *. unfold blen in *.
  assert (Hnone : (∀ k rk, AckRanges f !! k = Some rk → in_range p rk = false) →
    Ok false = Ok (existsb (in_range p) (AckRanges f))).
  { intros Hk. f_equal. symmetry. apply Bool.not_true_iff_false. rewrite existsb_exists.
    intros (r & Hin & E). apply list_elem_of_In, list_elem_of_lookup in Hin as [k Hin].
    by rewrite (Hk k r Hin) in E. }
  destruct (Z.ltb_spec p (Smallest rn)) as [Hlo|Hlo].
  { apply Hnone. intros k rk Hk. assert (k < length (AckRanges f))%nat by (by eapply lookup_lt_Some).
    pose proof (ranges_valid_Smallest_le _ _ _ _ _ Hv Hk Hn ltac:(lia)). unfold in_range. lia. }
  destruct (Z.ltb_spec (Largest r0) p) as [Hhi|Hhi].
  { apply Hnone. intros k rk Hk.
    pose proof (ranges_valid_Smallest_le _ _ _ _ _ Hv H0 Hk ltac:(lia)). unfold in_range. lia. }
  assert (Hin : i < Z.of_nat (length (AckRanges f))).
  { destruct (Z.eq_dec i (Z.of_nat (length (AckRanges f)))) as [E|E]; [|lia].
    specialize (Hbelow (Z.of_nat (length (AckRanges f)) - 1)). unfold smallest_le in Hbelow.
    replace (Z.to_nat (Z.of_nat (length (AckRanges f)) - 1)) with (length (AckRanges f) - 1)%nat in Hbelow by lia.
    rewrite Hn in Hbelow. lia. }
  destruct (lookup_lt_is_Some_2 (AckRanges f) (Z.to_nat i)) as [ri Hi]; [lia|].
  rewrite Hi. simpl. f_equal. symmetry. specialize (Hat Hin). unfold smallest_le in Hat.
  rewrite Hi in Hat. apply (in_range_unique _ (Z.to_nat i)); [done|done|lia|].
  intros k rk Hk Hrk. specialize (Hbelow (Z.of_nat k)). unfold smallest_le in Hbelow.
  rewrite Nat2Z.id, Hrk in Hbelow. lia.
Qed.

(** [AcksPacket], a binary search over the ranges of a valid ACK frame, is
    membership of the packet number in one of the ranges, and never indexes
    out of range. *)
Theorem AcksPacket_correct (f : AckFrame) (p : Z) : validateAckRanges f = true →
  AcksPacket f p = Ok (existsb (in_range p) (AckRanges f)).
Proof. exact (AcksPacket_spec f p). Qed.

Lemma AcksPacket_correct_witness :
  let f := mkAckFrame [mkAckRange 90 100; mkAckRange 50 70; mkAckRange 1 3] 0 0 0 0 in
  AcksPacket f 55 = Ok (existsb (in_range 55) (AckRanges f)).
Proof. apply AcksPacket_correct. reflexivity. Defined.

(** ** Encoding of the ranges *)

(** The bytes written for the ranges after [prev]. *)
Fixpoint enc_ranges (prev : AckRange) (rs : list AckRange) : bytes :=
  match rs with
  | [] => []
  | r :: rs => quicvarint.enc (Smallest prev - Largest r - 2)
               ++ quicvarint.enc (Largest r - Smallest r) ++ enc_ranges r rs
  end.

Definition range_bounded (r : AckRange) : Prop := 0 ≤ Smallest r ∧ Largest r ≤ quicvarint.Max.

Lemma range_encodable p r rs : ranges_valid (p :: r :: rs) → Forall range_bounded (p :: r :: rs) →
  quicvarint.encodable (Smallest p - Largest r - 2) ∧ quicvarint.encodable (Largest r - Smallest r) ∧
  ranges_valid (r :: rs) ∧ Forall range_bounded (r :: rs).
Proof.
  inversion 1 as [|? ? Hok Hgt Hv]; subst. intros Hb.
  apply Forall_cons in Hb as [[Hp1 Hp2] Hb]. apply Forall_cons in Hgt as [Hgt _].
  pose proof (ranges_valid_ok _ r Hv ltac:(by left)) as Hr.
  apply Forall_cons in Hb as Hb'. destruct Hb' as [[Hr1 Hr2] _].
  unfold range_gt, range_ok, quicvarint.encodable in *. repeat split; try done; lia.
Qed.

Lemma ranges_valid_app p rs1 rs2 : ranges_valid (p :: rs1 ++ rs2) → ranges_valid (p :: rs1).
Proof.
  revert p. induction rs1 as [|r rs1 IH]; intros p Hv; inversion Hv as [|? ? Hok Hgt Hv']; subst.
  - repeat constructor. done.
  - apply Forall_app in Hgt as [Hgt _] || (rewrite app_comm_cons in Hgt; apply Forall_app in Hgt as [Hgt _]).
    constructor; auto.
Qed.

(** What [encodeAckRange] computes in the middle of the list. *)
Lemma encodeAckRange_eq f pre p r rs : AckRanges f = pre ++ p :: r :: rs →
  ranges_valid (p :: r :: rs) → Forall range_bounded (p :: r :: rs) →
  encodeAckRange f (S (length pre)) = Ok (Smallest p - Largest r - 2, Largest r - Smallest r).
Proof.
  intros Hf Hv Hb. destruct (range_encodable p r rs Hv Hb) as (H1 & H2 & _).
  unfold encodeAckRange, range_at. rewrite Hf.
  rewrite (list_lookup_middle pre (r :: rs) p (length pre)) by done. rewrite lookup_app_r by lia.
  replace (S (length pre) - length pre)%nat with 1%nat by lia. simpl.
  by rewrite !quicvarint.encodable_u64.
Qed.

Section ranges_induction.
Variable f : AckFrame.

Lemma cons_shift (pre : list AckRange) p rs :
  AckRanges f = pre ++ p :: rs → AckRanges f = (pre ++ [p]) ++ rs ∧ length (pre ++ [p]) = S (length pre).
Proof. intros ->. rewrite <- app_assoc, length_app. simpl. split; [done|lia]. Qed.

Lemma appendRanges_enc rs1 rs2 pre p b : AckRanges f = pre ++ p :: rs1 ++ rs2 →
  ranges_valid (p :: rs1 ++ rs2) → Forall range_bounded (p :: rs1 ++ rs2) →
  appendRanges f (length rs1) (S (length pre)) b = Ok (b ++ enc_ranges p rs1).
Proof.
  revert pre p b. induction rs1 as [|r rs1 IH]; intros pre p b Hf Hv Hb;
    cbn [appendRanges length enc_ranges].
  { by rewrite app_nil_r. }
  rewrite (encodeAckRange_eq f pre p r (rs1 ++ rs2) Hf Hv Hb), res_bind_ok.
  destruct (range_encodable p r _ Hv Hb) as (H1 & H2 & Hv' & Hb').
  rewrite !quicvarint.Append_enc, !res_bind_ok, quicvarint.Append_enc, res_bind_ok by done.
  destruct (cons_shift _ _ _ Hf) as [Hf' Hl]. rewrite <- Hl.
  rewrite (IH (pre ++ [p]) r _ Hf' Hv' Hb'). by rewrite <- !app_assoc.
Qed.

Lemma lengthRanges_enc rs1 rs2 pre p len : AckRanges f = pre ++ p :: rs1 ++ rs2 →
  ranges_valid (p :: rs1 ++ rs2) → Forall range_bounded (p :: rs1 ++ rs2) →
  lengthRanges f (length rs1) (S (length pre)) len = Ok (len + blen (enc_ranges p rs1)).
Proof.
  revert pre p len. induction rs1 as [|r rs1 IH]; intros pre p len Hf Hv Hb;
    cbn [lengthRanges length enc_ranges].
  { by rewrite Z.add_0_r. }
  rewrite (encodeAckRange_eq f pre p r (rs1 ++ rs2) Hf Hv Hb), res_bind_ok.
  destruct (range_encodable p r _ Hv Hb) as (H1 & H2 & Hv' & Hb').
  rewrite !quicvarint.Len_size, !res_bind_ok by done.
  destruct (cons_shift _ _ _ Hf) as [Hf' Hl]. rewrite <- Hl.
  rewrite (IH (pre ++ [p]) r _ Hf' Hv' Hb'), !blen_app, !quicvarint.blen_enc by done. f_equal. lia.
Qed.

(** The loop of [numEncodableAckRanges] returns a number of ranges whose
    encoding respects the size limit, and at least the ranges before [i] when
    the next range is known to fit. *)
Lemma numEncodable_loop_spec rs pre p len : AckRanges f = pre ++ p :: rs →
  ranges_valid (p :: rs) → Forall range_bounded (p :: rs) →
  let i := S (length pre) in
  ∃ n, numEncodable_loop f (length rs) i len = Ok (Z.of_nat n) ∧
    (i - 1 ≤ n ≤ i + length rs)%nat ∧
    (len + 16 ≤ MaxAckFrameSize → (i ≤ n)%nat) ∧
    (len ≤ MaxAckFrameSize → (i ≤ n)%nat →
       len + blen (enc_ranges p (take (n - i) rs)) ≤ MaxAckFrameSize).
Proof.
  revert pre p len. induction rs as [|r rs IH]; intros pre p len Hf Hv Hb i; cbn [numEncodable_loop length].
  { exists i. split; [done|]. split; [lia|]. split; [lia|]. intros ? _.
    rewrite Nat.sub_diag. simpl. rewrite blen_nil. lia. }
  subst i. rewrite (encodeAckRange_eq f pre p r rs Hf Hv Hb), res_bind_ok.
  destruct (range_encodable p r _ Hv Hb) as (H1 & H2 & Hv' & Hb').
  rewrite !quicvarint.Len_size, !res_bind_ok by done.
  pose proof (quicvarint.size_range _ H1). pose proof (quicvarint.size_range _ H2).
  destruct (Z.ltb_spec MaxAckFrameSize
    (len + (quicvarint.size (Smallest p - Largest r - 2) + quicvarint.size (Largest r - Smallest r)))).
  { exists (length pre). split; [f_equal; lia|]. split; [lia|]. split; lia. }
  destruct (cons_shift _ _ _ Hf) as [Hf' Hl].
  destruct (IH (pre ++ [p]) r
    (len + (quicvarint.size (Smallest p - Largest r - 2) + quicvarint.size (Largest r - Smallest r)))
    Hf' Hv' Hb') as (n & Hn & Hr & _ & Hsz).
  rewrite Hl in *. exists n. rewrite Hn. split; [done|]. split; [lia|]. split; [lia|]. intros _ Hi.
  destruct (n - S (length pre))%nat as [|m] eqn:Em; [simpl; rewrite blen_nil; lia|].
  simpl. rewrite !blen_app, !quicvarint.blen_enc by done.
  replace (n - S (S (length pre)))%nat with m in Hsz by lia. lia.
Qed.

End ranges_induction.

Lemma readRanges_enc rs p acc fuel s :
  ranges_valid (p :: rs) → Forall range_bounded (p :: rs) → (length rs ≤ fuel)%nat →
  readRanges fuel (blen rs) (Smallest p) acc (enc_ranges p rs ++ s) = (Ok (acc ++ rs), s).
Proof.
  revert p acc fuel. induction rs as [|r rs IH]; intros p acc fuel Hv Hb Hfuel.
  { destruct fuel; simpl; by rewrite app_nil_r. }
  destruct fuel as [|fuel]; [simpl in Hfuel; lia|].
  destruct (range_encodable p r rs Hv Hb) as (H1 & H2 & Hv' & Hb').
  cbn [readRanges enc_ranges]. rewrite blen_cons. pose proof (blen_nonneg rs).
  rewrite (proj2 (Z.leb_gt _ _)) by lia. rewrite <- !app_assoc.
  erewrite rd_bind_ok; [|by apply quicvarint.Read_enc]. rewrite (quicvarint.encodable_i64 _ H1).
  inversion Hv as [|? ? Hok Hgt _]; subst. apply Forall_cons in Hgt as [Hgt _].
  pose proof (ranges_valid_ok _ r Hv' ltac:(by left)) as Hr.
  apply Forall_cons in Hb' as Hb2. destruct Hb2 as [[Hr1 Hr2] _].
  unfold range_gt, range_ok in *.
  rewrite (proj2 (Z.ltb_ge _ _)) by lia.
  erewrite rd_bind_ok; [|by apply quicvarint.Read_enc]. rewrite (quicvarint.encodable_i64 _ H2).
  rewrite (proj2 (Z.ltb_ge _ _)) by lia.
  replace (Smallest p - (Smallest p - Largest r - 2) - 2) with (Largest r) by lia.
  replace (Largest r - (Largest r - Smallest r)) with (Smallest r) by lia.
  replace (1 + blen rs - 1) with (blen rs) by lia.
  rewrite IH by (done || (simpl in Hfuel; lia)). rewrite <- app_assoc. by destruct r.
Qed.

Lemma length_enc_ranges p rs : ranges_valid (p :: rs) → Forall range_bounded (p :: rs) →
  (length rs ≤ length (enc_ranges p rs))%nat.
Proof.
  revert p. induction rs as [|r rs IH]; intros p Hv Hb; simpl; [lia|].
  destruct (range_encodable p r rs Hv Hb) as (H1 & H2 & Hv' & Hb').
  rewrite !length_app. specialize (IH r Hv' Hb').
  pose proof (quicvarint.blen_enc _ H1). pose proof (quicvarint.size_range _ H1).
  unfold blen in *. lia.
Qed.

(** ** The frame as a whole *)

Definition ack_wf (f : AckFrame) : Prop :=
  validateAckRanges f = true ∧ Forall range_bounded (AckRanges f) ∧
  0 ≤ DelayTime f < 2 ^ 63 ∧
  quicvarint.encodable (ECT0 f) ∧ quicvarint.encodable (ECT1 f) ∧ quicvarint.encodable (ECNCE f).

Definition numEnc (f : AckFrame) : nat :=
  match numEncodableAckRanges f with Ok n => Z.to_nat n | _ => 0%nat end.

(** The frame the peer sees: the ranges that were encoded, and the delay in
    units of [1 << AckDelayExponent] microseconds. *)
Definition ack_norm (f : AckFrame) : AckFrame :=
  mkAckFrame (take (numEnc f) (AckRanges f)) (8000 * (DelayTime f / 8000))
             (ECT0 f) (ECT1 f) (ECNCE f).

Lemma encodeAckDelay_eq d : 0 ≤ d < 2 ^ 63 →
  encodeAckDelay d = d / 8000 ∧ quicvarint.encodable (encodeAckDelay d).
Proof.
  intros Hd. unfold encodeAckDelay. change (1000 * Z.shiftl 1 AckDelayExponent) with 8000.
  rewrite Z.quot_div_nonneg by lia.
  assert (0 ≤ d / 8000 ∧ 8000 * (d / 8000) ≤ d) as [H1 H2]
    by (split; [apply Z.div_pos; lia|apply Z.mul_div_le; lia]).
  rewrite u64_small by lia. split; [done|].
  unfold quicvarint.encodable, quicvarint.Max, quicvarint.maxVarInt8. lia.
Qed.

Lemma decodeAckDelay_eq d : 0 ≤ d → 8000 * d < 2 ^ 63 → decodeAckDelay d AckDelayExponent = 8000 * d.
Proof.
  intros H0 Hd. unfold decodeAckDelay, AckDelayExponent, Microsecond.
  rewrite Z.shiftl_mul_pow2 by lia. rewrite u64_small, (i64_small (d * 2 ^ 3)), i64_small by lia.
  zcase; lia.
Qed.

Lemma hasECN_false f : ack_wf f → hasECN f = false → ECT0 f = 0 ∧ ECT1 f = 0 ∧ ECNCE f = 0.
Proof. intros (_ & _ & _ & [? _] & [? _] & [? _]). unfold hasECN. lia. Qed.

(** The number of encoded ranges, and the size of their encoding. *)
Lemma numEncodable_spec f r0 rs : ack_wf f → AckRanges f = r0 :: rs →
  let base := 1 + quicvarint.size (Largest r0) + quicvarint.size (DelayTime f / 8000) + 2 in
  numEncodableAckRanges f = Ok (Z.of_nat (numEnc f)) ∧ (1 ≤ numEnc f ≤ S (length rs))%nat ∧
  base + blen (enc_ranges r0 (take (numEnc f - 1) rs)) ≤ MaxAckFrameSize.
Proof.
  intros (Hv & Hb & Hd & _) Hf base.
  apply validateAckRanges_spec in Hv as [_ Hv]. rewrite Hf in *.
  destruct (encodeAckDelay_eq (DelayTime f) Hd) as [Hed Hee].
  assert (quicvarint.encodable (Largest r0)) as Hla.
  { apply Forall_cons in Hb as [[? ?] _]. pose proof (ranges_valid_ok _ r0 Hv ltac:(by left)).
    unfold quicvarint.encodable, range_ok in *. lia. }
  assert (Hnum : numEncodableAckRanges f = numEncodable_loop f (length rs) 1 base).
  { unfold numEncodableAckRanges, LargestAcked, range_at. rewrite Hf. simpl.
    rewrite quicvarint.encodable_u64, !quicvarint.Len_size, !res_bind_ok by done.
    rewrite Nat.sub_0_r, Hed. done. }
  pose proof (quicvarint.size_range _ Hla). pose proof (quicvarint.size_range _ Hee) as Hse.
  rewrite Hed in Hse.
  destruct (numEncodable_loop_spec f rs [] r0 base Hf Hv Hb) as (n & Hn & Hr & Hge & Hsz).
  simpl in *. unfold numEnc. rewrite Hnum, Hn, Nat2Z.id.
  assert (base + 16 ≤ MaxAckFrameSize) by (unfold base, MaxAckFrameSize; lia).
  split; [done|]. split; [specialize (Hge ltac:(done)); lia|]. apply Hsz; [lia|]. by apply Hge.
Qed.

(** Few enough ranges are all encoded: each takes at most 16 bytes. *)
Lemma numEncodable_loop_all f rs pre p len : AckRanges f = pre ++ p :: rs →
  ranges_valid (p :: rs) → Forall range_bounded (p :: rs) →
  len + 16 * blen rs ≤ MaxAckFrameSize →
  numEncodable_loop f (length rs) (S (length pre)) len = Ok (Z.of_nat (length (AckRanges f))).
Proof.
  revert pre p len. induction rs as [|r rs IH]; intros pre p len Hf Hv Hb Hlen; cbn [numEncodable_loop length].
  { rewrite Hf, length_app. simpl. f_equal. lia. }
  rewrite (encodeAckRange_eq f pre p r rs Hf Hv Hb), res_bind_ok.
  destruct (range_encodable p r _ Hv Hb) as (H1 & H2 & Hv' & Hb').
  rewrite !quicvarint.Len_size, !res_bind_ok by done. rewrite blen_cons in Hlen.
  pose proof (quicvarint.size_range _ H1). pose proof (quicvarint.size_range _ H2).
  pose proof (blen_nonneg rs).
  rewrite (proj2 (Z.ltb_ge _ _)) by lia.
  destruct (cons_shift _ _ _ _ Hf) as [Hf' Hl]. rewrite <- Hl. eapply IH; eauto. lia.
Qed.

Lemma numEnc_all f r0 rs : ack_wf f → AckRanges f = r0 :: rs → blen rs ≤ 31 →
  numEnc f = length (r0 :: rs).
Proof.
  intros (Hv & Hb & Hd & _) Hf Hlen.
  apply validateAckRanges_spec in Hv as [_ Hv]. rewrite Hf in *.
  destruct (encodeAckDelay_eq (DelayTime f) Hd) as [_ Hee].
  assert (quicvarint.encodable (Largest r0)) as Hla.
  { apply Forall_cons in Hb as [[? ?] _]. pose proof (ranges_valid_ok _ r0 Hv ltac:(by left)).
    unfold quicvarint.encodable, range_ok in *. lia. }
  unfold numEnc, numEncodableAckRanges, LargestAcked, range_at. rewrite Hf. simpl.
  rewrite quicvarint.encodable_u64, !quicvarint.Len_size, !res_bind_ok, Nat.sub_0_r by done.
  pose proof (quicvarint.size_range _ Hla). pose proof (quicvarint.size_range _ Hee).
  rewrite (numEncodable_loop_all f rs [] r0) by (done || (unfold MaxAckFrameSize; lia)).
  rewrite Nat2Z.id, Hf. done.
Qed.

Section codec.
Context (f : AckFrame) (r0 : AckRange) (rs : list AckRange).
Context (Hwf : ack_wf f) (Hf : AckRanges f = r0 :: rs).

(** The further ranges that are encoded. *)
Let enc_rs : list AckRange := take (numEnc f - 1) rs.

Let ecn : bytes :=
  if hasECN f then quicvarint.enc (ECT0 f) ++ quicvarint.enc (ECT1 f) ++ quicvarint.enc (ECNCE f) else [].

Definition ack_body : bytes :=
  quicvarint.enc (Largest r0) ++ quicvarint.enc (DelayTime f / 8000) ++
  quicvarint.enc (blen enc_rs) ++ quicvarint.enc (Largest r0 - Smallest r0) ++
  enc_ranges r0 enc_rs ++ ecn.

Lemma ack_ranges_valid : ranges_valid (r0 :: rs) ∧ Forall range_bounded (r0 :: rs).
Proof.
  destruct Hwf as (Hv & Hb & _). apply validateAckRanges_spec in Hv as [_ Hv].
  by rewrite Hf in Hv, Hb.
Qed.

Lemma enc_rs_valid : ranges_valid (r0 :: enc_rs) ∧ Forall range_bounded (r0 :: enc_rs).
Proof.
  destruct ack_ranges_valid as [Hv Hb]. rewrite <- (take_drop (numEnc f - 1) rs) in Hv, Hb.
  split; [by eapply ranges_valid_app|]. rewrite app_comm_cons in Hb. by apply Forall_app in Hb as [? _].
Qed.

Lemma enc_rs_num :
  blen enc_rs ≤ 1000 ∧ numEncodableAckRanges f = Ok (blen enc_rs + 1) ∧
  take (numEnc f) (AckRanges f) = r0 :: enc_rs ∧
  1 + quicvarint.size (Largest r0) + quicvarint.size (DelayTime f / 8000) + 2
    + blen (enc_ranges r0 enc_rs) ≤ MaxAckFrameSize.
Proof.
  destruct (numEncodable_spec f r0 rs Hwf Hf) as (Hnum & Hn & Hsize).
  destruct enc_rs_valid as [Hv Hb]. pose proof (length_enc_ranges r0 enc_rs Hv Hb) as Hl.
  assert (Hlen : length enc_rs = (numEnc f - 1)%nat) by (unfold enc_rs; rewrite length_take; lia).
  fold enc_rs in Hsize.
  pose proof (quicvarint.size_nonneg (Largest r0)). pose proof (quicvarint.size_nonneg (DelayTime f / 8000)).
  split; [unfold blen, MaxAckFrameSize in *; lia|]. split; [rewrite Hnum; unfold blen; f_equal; lia|].
  split; [|done]. rewrite Hf. unfold enc_rs. destruct (numEnc f) as [|n]; [lia|]. simpl.
  by rewrite Nat.sub_0_r.
Qed.

Lemma ack_encodable :
  quicvarint.encodable (Largest r0) ∧ quicvarint.encodable (Largest r0 - Smallest r0) ∧
  quicvarint.encodable (blen enc_rs) ∧ quicvarint.encodable (DelayTime f / 8000) ∧
  encodeAckDelay (DelayTime f) = DelayTime f / 8000 ∧ range_ok r0.
Proof.
  destruct ack_ranges_valid as [Hv Hb]. destruct enc_rs_num as [Hn _].
  destruct Hwf as (_ & _ & Hd & _). destruct (encodeAckDelay_eq _ Hd) as [Hed Hee].
  rewrite Hed in Hee. apply Forall_cons in Hb as [[? ?] _].
  pose proof (ranges_valid_ok _ r0 Hv ltac:(by left)). pose proof (blen_nonneg enc_rs).
  unfold quicvarint.encodable, quicvarint.Max, quicvarint.maxVarInt8, range_ok in *.
  repeat split; lia.
Qed.

(** Evaluates a sequence of varint writes or lengths. *)
Ltac ack_eval :=
  repeat first [rewrite quicvarint.encodable_u64 by done | rewrite quicvarint.Append_enc by done
               | rewrite quicvarint.Len_size by done | rewrite res_bind_ok].

Lemma AckFrame_Append_enc b :
  AckFrame_Append b f =
  Ok (b ++ (if hasECN f then [wire.ackECNFrameType] else [wire.ackFrameType]) ++ ack_body).
Proof.
  destruct ack_encodable as (Hla & Hfr & Hnn & Hdl & Hed & _). destruct enc_rs_num as (_ & Hnum & _).
  destruct ack_ranges_valid as [Hv Hb]. destruct Hwf as (_ & _ & _ & He0 & He1 & He2).
  assert (H0 : encodeAckRange f 0 = Ok (0, Largest r0 - Smallest r0))
    by (unfold encodeAckRange, range_at; rewrite Hf; simpl; by rewrite quicvarint.encodable_u64).
  assert (Hl0 : LargestAcked f = Ok (Largest r0)) by (unfold LargestAcked, range_at; by rewrite Hf).
  unfold AckFrame_Append. rewrite Hl0, Hed, Hnum, H0. ack_eval.
  replace (blen enc_rs + 1 - 1) with (blen enc_rs) by lia. ack_eval.
  rewrite to_nat_blen.
  rewrite (appendRanges_enc f enc_rs (drop (numEnc f - 1) rs) [] r0)
    by (unfold enc_rs; rewrite ?take_drop; done).
  rewrite res_bind_ok. unfold ack_body, ecn. destruct (hasECN f); ack_eval;
    rewrite ?app_nil_r, <- !app_assoc; reflexivity.
Qed.

Lemma AckFrame_Length_enc : AckFrame_Length f = Ok (1 + blen ack_body).
Proof.
  destruct ack_encodable as (Hla & Hfr & Hnn & Hdl & Hed & _). destruct enc_rs_num as (_ & Hnum & _).
  destruct ack_ranges_valid as [Hv Hb]. destruct Hwf as (_ & _ & _ & He0 & He1 & He2).
  unfold AckFrame_Length, range_at. rewrite Hf. simpl. rewrite Hed, Hnum. ack_eval.
  replace (blen enc_rs + 1 - 1) with (blen enc_rs) by lia. ack_eval.
  rewrite to_nat_blen.
  rewrite (lengthRanges_enc f enc_rs (drop (numEnc f - 1) rs) [] r0)
    by (unfold enc_rs; rewrite ?take_drop; done).
  rewrite res_bind_ok. unfold ack_body, ecn. rewrite !blen_app, !quicvarint.blen_enc by done.
  destruct (hasECN f); ack_eval; rewrite ?blen_app, ?blen_nil, ?quicvarint.blen_enc by done; f_equal; lia.
Qed.

Lemma parseAckFrame_enc s :
  parseAckFrame (if hasECN f then wire.ackECNFrameType else wire.ackFrameType) AckDelayExponent
    (ack_body ++ s) = (Ok (ack_norm f), s).
Proof.
  destruct ack_encodable as (Hla & Hfr & Hnn & Hdl & Hed & Hok0).
  destruct enc_rs_num as (_ & _ & Htake & _). destruct enc_rs_valid as [Hv Hb].
  pose proof (hasECN_false f Hwf) as Hnoecn. destruct Hwf as (_ & _ & Hd & He0 & He1 & He2).
  unfold parseAckFrame, ack_body. rewrite <- !app_assoc. set (fuel := S _).
  repeat (erewrite rd_bind_ok; [|by apply quicvarint.Read_enc]).
  rewrite !quicvarint.encodable_i64 by done. unfold range_ok in Hok0.
  pose proof (proj1 (Forall_cons _ _ _) Hb) as [[Hr1 Hr2] _].
  rewrite (proj2 (Z.ltb_ge _ _)) by lia.
  replace (Largest r0 - (Largest r0 - Smallest r0)) with (Smallest r0) by lia.
  erewrite rd_bind_ok.
  2:{ apply readRanges_enc; [done|done|]. unfold fuel. rewrite !length_app.
      pose proof (length_enc_ranges r0 enc_rs Hv Hb). lia. }
  replace (mkAckRange (Smallest r0) (Largest r0)) with r0 by (by destruct r0).
  rewrite decodeAckDelay_eq by (pose proof (Z.mul_div_le (DelayTime f) 8000);
    first [apply Z.div_pos; lia | lia]).
  rewrite (proj2 (validateAckRanges_spec _)) by done. simpl negb. cbv iota.
  unfold ack_norm, ecn. rewrite Htake. destruct (hasECN f) eqn:Hecn; simpl.
  - rewrite <- !app_assoc. repeat (erewrite rd_bind_ok; [|by apply quicvarint.Read_enc]). done.
  - by destruct (Hnoecn eq_refl) as (-> & -> & ->).
Qed.

End codec.

#[global] Program Instance AckFrame_Codec :
    wire.FrameCodec AckFrame (λ typ, parseAckFrame typ AckDelayExponent) := {
  wire.frame_wf := ack_wf;
  wire.frame_type f := if hasECN f then wire.ackECNFrameType else wire.ackFrameType;
  wire.frame_norm := ack_norm;
  wire.frame_delimited f := true }.
Next Obligation.
  intros f Hwf. split; [by destruct (hasECN f); vm_compute|].
  destruct (AckRanges f) as [|r0 rs] eqn:Hf.
  { destruct Hwf as [Hv _]. unfold validateAckRanges in Hv. by rewrite Hf in Hv. }
  exists (ack_body f r0 rs). split_and!.
  - intros b. simpl. rewrite (AckFrame_Append_enc f r0 rs Hwf Hf). by destruct (hasECN f).
  - simpl. rewrite (AckFrame_Length_enc f r0 rs Hwf Hf). destruct (hasECN f); rewrite ?blen_app; reflexivity.
  - intros s _. by apply parseAckFrame_enc.
Qed.

(** The size of an ACK frame.  Every well-formed frame is written with
    at least its first range and over at most [MaxAckFrameSize] bytes plus the
    three ECN counters and the first range, which [numEncodableAckRanges] does
    not count; and a frame of at most [MaxNumAckRanges] ranges is written with
    all of them. *)
Theorem AckFrame_size (f : AckFrame) : ack_wf f →
  (∃ l, wire.Length f = Ok l ∧ l ≤ MaxAckFrameSize + 8 + 3 * 8) ∧
  (1 ≤ numEnc f ≤ length (AckRanges f))%nat ∧
  (blen (AckRanges f) ≤ MaxNumAckRanges → numEnc f = length (AckRanges f)).
Proof.
  intros Hwf. destruct (AckRanges f) as [|r0 rs] eqn:Hf.
  { destruct Hwf as [Hv _]. unfold validateAckRanges in Hv. by rewrite Hf in Hv. }
  destruct (ack_encodable f r0 rs Hwf Hf) as (Hla & Hfr & Hnn & Hdl & _ & _).
  destruct (enc_rs_num f r0 rs Hwf Hf) as (Hn1000 & _ & _ & Hsize).
  destruct (numEncodable_spec f r0 rs Hwf Hf) as (_ & Hn & _).
  split_and!.
  - eexists. split; [simpl; by apply AckFrame_Length_enc|].
    unfold ack_body. rewrite !blen_app, !quicvarint.blen_enc by done.
    assert (quicvarint.size (blen (take (numEnc f - 1) rs)) ≤ 2).
    { pose proof (quicvarint.size_mono (blen (take (numEnc f - 1) rs)) 1000) as Hm.
      change (quicvarint.size 1000) with 2 in Hm. apply Hm; [|by vm_compute].
      split; [apply blen_nonneg|done]. }
    pose proof (quicvarint.size_range _ Hfr). destruct Hwf as (_ & _ & _ & He0 & He1 & He2).
    pose proof (quicvarint.size_range _ He0). pose proof (quicvarint.size_range _ He1).
    pose proof (quicvarint.size_range _ He2).
    destruct (hasECN f); rewrite ?blen_app, ?blen_nil, ?quicvarint.blen_enc by done; lia.
  - lia.
  - simpl; lia.
  - intros Hmax. apply (numEnc_all f r0 rs Hwf Hf). rewrite blen_cons in Hmax.
    unfold MaxNumAckRanges in Hmax. lia.
Qed.

Lemma AckFrame_size_witness :
  let f := mkAckFrame [mkAckRange 90 100; mkAckRange 50 70; mkAckRange 1 3] 16000 1 2 3 in
  (∃ l, wire.Length f = Ok l ∧ l ≤ MaxAckFrameSize + 8 + 3 * 8) ∧
  (1 ≤ numEnc f ≤ length (AckRanges f))%nat ∧
  (blen (AckRanges f) ≤ MaxNumAckRanges → numEnc f = length (AckRanges f)).
Proof.
  apply (AckFrame_size (mkAckFrame [mkAckRange 90 100; mkAckRange 50 70; mkAckRange 1 3] 16000 1 2 3)).
  split; [reflexivity|]. split; [repeat constructor; vm_compute; discriminate|].
  vm_compute. intuition discriminate.
Defined.

(** ** Parsing arbitrary input *)

Lemma decodeAckDelay_range d e : 0 ≤ decodeAckDelay d e < 2 ^ 63.
Proof.
  unfold decodeAckDelay. pose proof (i64_range (i64 (u64 (Z.shiftl d e)) * Microsecond)).
  zcase; unfold InfDuration; lia.
Qed.

(** The loop terminates within its fuel, and keeps the packet numbers in range. *)
Lemma readRanges_safe fuel n smallest acc s :
  bytes_ok s → (length s < fuel)%nat → 0 ≤ smallest ≤ quicvarint.Max → Forall range_bounded acc →
  match readRanges fuel n smallest acc s with
  | (Ok rs, s') => (Forall range_bounded rs ∧ ∃ rs', rs = acc ++ rs') ∧ s' `suffix_of` s
  | (Err _, s') => s' `suffix_of` s
  | (Panic _, _) => False
  end.
Proof.
  revert n smallest acc s. induction fuel as [|fuel IH]; intros n smallest acc s Hs Hf Hsm Hacc; [lia|].
  cbn [readRanges]. destruct (n <=? 0).
  { simpl. split; [|done]. split; [done|]. exists []. by rewrite app_nil_r. }
  unfold mbind, rd_bind.
  destruct (quicvarint.Read_spec s Hs) as [(w & g & s1 & -> & -> & Hg & Hw)|(s1 & -> & Hsuf)]; [|done].
  apply Forall_app in Hs as Hs'. destruct Hs' as [_ Hs1]. rewrite (quicvarint.encodable_i64 _ Hg).
  destruct (Z.ltb_spec smallest (g + 2)); [simpl; by exists w|].
  destruct (quicvarint.Read_spec s1 Hs1) as [(w2 & ab & s2 & -> & -> & Hab & Hw2)|(s2 & -> & Hsuf)];
    [|etrans; [exact Hsuf|by exists w]].
  apply Forall_app in Hs1 as [_ Hs2]. rewrite (quicvarint.encodable_i64 _ Hab).
  destruct (Z.ltb_spec (smallest - g - 2) ab); [simpl; exists (w ++ w2); by rewrite app_assoc|].
  destruct Hg as [Hg0 Hg1]. destruct Hab as [Hab0 Hab1].
  assert (Hlen : (length s2 < fuel)%nat).
  { rewrite !length_app in Hf. unfold blen in *. lia. }
  specialize (IH (n - 1) (smallest - g - 2 - ab)
    (acc ++ [mkAckRange (smallest - g - 2 - ab) (smallest - g - 2)]) s2 Hs2 Hlen ltac:(lia)).
  assert (Hacc' : Forall range_bounded (acc ++ [mkAckRange (smallest - g - 2 - ab) (smallest - g - 2)])).
  { apply Forall_app. split; [done|]. repeat constructor; simpl; lia. }
  specialize (IH Hacc'). destruct (readRanges _ _ _ _ s2) as [[rs|e|m] s3]; [|etrans; [exact IH|]|done].
  - destruct IH as [[Hrs [rs' ->]] Hsuf]. split.
    + split; [done|]. rewrite <- app_assoc. by eexists.
    + etrans; [exact Hsuf|]. exists (w ++ w2). by rewrite app_assoc.
  - exists (w ++ w2). by rewrite app_assoc.
Qed.

(** Parsing an ACK frame never panics, in particular never runs out of fuel,
    and what it returns is well-formed. *)
Lemma parseAckFrame_safe N typ e : rd_safe N ack_wf (parseAckFrame typ e).
Proof.
  intros s0 Hs0. unfold parseAckFrame. set (fuel := S (length s0)).
  assert (Hlen : (length s0 < fuel)%nat) by (unfold fuel; lia). clearbody fuel.
  match goal with |- context [?m s0] => cut (rd_safe (blen s0) ack_wf m) end.
  { intros H. apply H. destruct Hs0. by split. }
  eapply rd_safe_bind; [apply quicvarint.Read_safe|intros la Hla].
  eapply rd_safe_bind; [apply quicvarint.Read_safe|intros delay Hdelay].
  eapply rd_safe_bind; [apply quicvarint.Read_safe|intros nb Hnb].
  eapply rd_safe_bind; [apply quicvarint.Read_safe|intros ab Hab].
  rewrite !quicvarint.encodable_i64 by done. destruct Hla as [Hla0 Hla1]. destruct Hab as [Hab0 Hab1].
  destruct (Z.ltb_spec la ab); [apply rd_safe_fail|].
  eapply (rd_safe_bind _ (Forall range_bounded)).
  { intros s [Hs Hl]. unfold blen in Hl.
    pose proof (readRanges_safe fuel nb (la - ab) [mkAckRange (la - ab) la] s Hs ltac:(lia) ltac:(lia)
      ltac:(repeat constructor; simpl; lia)) as H'.
    destruct (readRanges _ _ _ _ s) as [[rs|er|m] s3]; naive_solver. }
  intros rs Hrs. pose proof (decodeAckDelay_range delay e) as Hd.
  destruct (validateAckRanges (mkAckFrame rs (decodeAckDelay delay e) 0 0 0)) eqn:Hv; [|apply rd_safe_fail].
  simpl negb. cbv iota. unfold validateAckRanges in Hv. simpl in Hv.
  assert (quicvarint.encodable 0) by by vm_compute.
  destruct (typ =? wire.ackECNFrameType).
  - eapply rd_safe_bind; [apply quicvarint.Read_safe|intros e0 He0].
    eapply rd_safe_bind; [apply quicvarint.Read_safe|intros e1 He1].
    eapply rd_safe_bind; [apply quicvarint.Read_safe|intros e2 He2].
    apply rd_safe_ret. done.
  - apply rd_safe_ret. done.
Qed.

(** The delay of an ACK frame is only replaced by the maximum if the product
    comes out negative: a field of 2^61 units of 8 microseconds is decoded as 0. *)
Lemma decodeAckDelay_overflow : decodeAckDelay (2 ^ 61) AckDelayExponent = 0.
Proof. reflexivity. Qed.

(** The size of an ACK frame with 500 ranges and with the ECN counters
    exceeds the maximum ACK frame size. *)
Example AckFrame_exceeds_MaxAckFrameSize :
  let top := mkAckRange 100000 200000 in
  let f := mkAckFrame (top :: ((λ i, mkAckRange (99990 - 4 * Z.of_nat i) (99991 - 4 * Z.of_nat i)) <$> seq 0 500))
             0 (2 ^ 31) (2 ^ 31) (2 ^ 31) in
  ack_wf f ∧ wire.Length f = Ok 1026.
Proof.
  split; [|vm_compute; reflexivity]. split; [vm_compute; reflexivity|].
  split; [|split; [by vm_compute|split_and!; by vm_compute]]. constructor; [by vm_compute|].
  apply Forall_fmap, Forall_seq. intros i Hi. unfold range_bounded, quicvarint.Max, quicvarint.maxVarInt8; simpl. lia.
Qed.

End ack.
