(* ===== verification/FrameParser.v ===== *)
(** The frame parser (src/internal/wire/frame_parser.go): dispatch on the frame
    type, PADDING, the frames allowed at each encryption level, and the loop of
    [handleFrames] over the payload of a packet.  Proved against the law
    [FrameCodec] of the frame types: whatever frames an endpoint writes into a
    packet, the peer's parser reads back; and no packet makes the parser panic. *)

From S2P Require Import Prelude Varint Protocol Frames AckFrame.
Import protocol.

Module parser.
Import wire ack.

(** A value of the interface type [wire.Frame]. *)
Inductive frame : Type :=
| FPing (f : PingFrame)
| FAck (f : AckFrame)
| FResetStream (f : ResetStreamFrame)
| FStopSending (f : StopSendingFrame)
| FCrypto (f : CryptoFrame)
| FNewToken (f : NewTokenFrame)
| FStream (f : StreamFrame)
| FMaxData (f : MaxDataFrame)
| FMaxStreamData (f : MaxStreamDataFrame)
| FMaxStreams (f : MaxStreamsFrame)
| FDataBlocked (f : DataBlockedFrame)
| FStreamDataBlocked (f : StreamDataBlockedFrame)
| FStreamsBlocked (f : StreamsBlockedFrame)
| FNewConnectionID (f : NewConnectionIDFrame)
| FRetireConnectionID (f : RetireConnectionIDFrame)
| FPathChallenge (f : PathChallengeFrame)
| FPathResponse (f : PathResponseFrame)
| FConnectionClose (f : ConnectionCloseFrame)
| FHandshakeDone (f : HandshakeDoneFrame)
| FDatagram (f : DatagramFrame)
| FRepair (f : RepairFrame)
| FSourceSymbol (f : SourceSymbolFrame)
| FFECWindow (f : FECWindowFrame).

Record FrameParser := mkFrameParser {
  ackDelayExponent : Z;
  supportsDatagrams : bool;
}.

Definition NewFrameParser (supportsDatagrams : bool) : FrameParser :=
  mkFrameParser 0 supportsDatagrams.

Definition SetAckDelayExponent (p : FrameParser) (exp : Z) : FrameParser :=
  mkFrameParser exp (supportsDatagrams p).

Definition isAllowedAtEncLevel (f : frame) (encLevel : EncryptionLevel) : bool :=
  match encLevel with
  | EncryptionInitial | EncryptionHandshake =>
      match f with
      | FCrypto _ | FAck _ | FConnectionClose _ | FPing _ => true
      | _ => false
      end
  | Encryption0RTT =>
      match f with
      | FCrypto _ | FAck _ | FConnectionClose _ | FNewToken _ | FPathResponse _
      | FRetireConnectionID _ => false
      | _ => true
      end
  | Encryption1RTT => true
  end.

(** The switch over the frame type. *)
Definition parseBody (p : FrameParser) (typ : Z) (encLevel : EncryptionLevel) : rd frame :=
  if Z.land typ 0xf8 =? 0x8 then f ← parseStreamFrame typ; mret (FStream f)
  else if typ =? pingFrameType then mret (FPing mkPingFrame)
  else if (typ =? ackFrameType) || (typ =? ackECNFrameType) then
    let exponent := if bool_decide (encLevel = Encryption1RTT)
                    then ackDelayExponent p else DefaultAckDelayExponent in
    f ← parseAckFrame typ exponent; mret (FAck f)
  else if typ =? resetStreamFrameType then f ← parseResetStreamFrame; mret (FResetStream f)
  else if typ =? stopSendingFrameType then f ← parseStopSendingFrame; mret (FStopSending f)
  else if typ =? cryptoFrameType then f ← parseCryptoFrame; mret (FCrypto f)
  else if typ =? newTokenFrameType then f ← parseNewTokenFrame; mret (FNewToken f)
  else if typ =? maxDataFrameType then f ← parseMaxDataFrame; mret (FMaxData f)
  else if typ =? maxStreamDataFrameType then f ← parseMaxStreamDataFrame; mret (FMaxStreamData f)
  else if (typ =? bidiMaxStreamsFrameType) || (typ =? uniMaxStreamsFrameType) then
    f ← parseMaxStreamsFrame typ; mret (FMaxStreams f)
  else if typ =? dataBlockedFrameType then f ← parseDataBlockedFrame; mret (FDataBlocked f)
  else if typ =? streamDataBlockedFrameType then
    f ← parseStreamDataBlockedFrame; mret (FStreamDataBlocked f)
  else if (typ =? bidiStreamBlockedFrameType) || (typ =? uniStreamBlockedFrameType) then
    f ← parseStreamsBlockedFrame typ; mret (FStreamsBlocked f)
  else if typ =? newConnectionIDFrameType then
    f ← parseNewConnectionIDFrame; mret (FNewConnectionID f)
  else if typ =? retireConnectionIDFrameType then
    f ← parseRetireConnectionIDFrame; mret (FRetireConnectionID f)
  else if typ =? pathChallengeFrameType then f ← parsePathChallengeFrame; mret (FPathChallenge f)
  else if typ =? pathResponseFrameType then f ← parsePathResponseFrame; mret (FPathResponse f)
  else if (typ =? connectionCloseFrameType) || (typ =? applicationCloseFrameType) then
    f ← parseConnectionCloseFrame typ; mret (FConnectionClose f)
  else if typ =? handshakeDoneFrameType then mret (FHandshakeDone mkHandshakeDoneFrame)
  else if typ =? repairFrameType then f ← parseRepairFrame; mret (FRepair f)
  else if typ =? sourceSymbolFrameType then f ← ParseSourceSymbolFrame; mret (FSourceSymbol f)
  else if typ =? FECWindowFrameType then f ← parseFECWindowFrame; mret (FFECWindow f)
  else if ((typ =? 0x30) || (typ =? 0x31)) && supportsDatagrams p then
    f ← parseDatagramFrame typ; mret (FDatagram f)
  else rd_fail (ErrMsg "unknown frame type").

Definition parseFrame (p : FrameParser) (typ : Z) (encLevel : EncryptionLevel) : rd frame :=
  frame ← parseBody p typ encLevel;
  if negb (isAllowedAtEncLevel frame encLevel)
  then rd_fail (ErrMsg "not allowed at encryption level")
  else mret frame.

(** Errors are wrapped into a [TransportError] of kind FRAME_ENCODING_ERROR. *)
Definition wrapErr {A} (frameType : Z) (m : rd A) : rd A := λ s,
  match m s with
  | (Err e, s') => (Err (TransportError FrameEncodingError frameType e), s')
  | r => r
  end.

(** The loop that skips PADDING; every iteration reads at least one byte. *)
Fixpoint parseNext_loop (p : FrameParser) (encLevel : EncryptionLevel) (fuel : nat) : rd (option frame) :=
  match fuel with
  | O => rd_panic "out of fuel"
  | S fuel =>
      l ← rd_len;
      if l =? 0 then mret None else
      typ ← wrapErr 0 quicvarint.Read;
      if typ =? 0 then parseNext_loop p encLevel fuel else
      f ← wrapErr typ (parseFrame p typ encLevel);
      mret (Some f)
  end.

Definition parseNext (p : FrameParser) (encLevel : EncryptionLevel) : rd (option frame) := λ s,
  parseNext_loop p encLevel (S (length s)) s.

(** The number of bytes consumed, and the frame or the error. *)
Definition ParseNext (p : FrameParser) (data : bytes) (encLevel : EncryptionLevel)
    : Z * res (option frame) :=
  let startLen := blen data in
  let '(frame, r) := parseNext p encLevel data in
  (startLen - blen r, frame).

(** ** The interface at the sum type *)

Definition frame_Append (b : bytes) (f : frame) : res bytes :=
  match f with
  | FPing f => Append b f | FAck f => Append b f | FResetStream f => Append b f
  | FStopSending f => Append b f | FCrypto f => Append b f | FNewToken f => Append b f
  | FStream f => Append b f | FMaxData f => Append b f | FMaxStreamData f => Append b f
  | FMaxStreams f => Append b f | FDataBlocked f => Append b f
  | FStreamDataBlocked f => Append b f | FStreamsBlocked f => Append b f
  | FNewConnectionID f => Append b f | FRetireConnectionID f => Append b f
  | FPathChallenge f => Append b f | FPathResponse f => Append b f
  | FConnectionClose f => Append b f | FHandshakeDone f => Append b f
  | FDatagram f => Append b f | FRepair f => Append b f | FSourceSymbol f => Append b f
  | FFECWindow f => Append b f
  end.

Definition frame_Length (f : frame) : res Z :=
  match f with
  | FPing f => Length f | FAck f => Length f | FResetStream f => Length f
  | FStopSending f => Length f | FCrypto f => Length f | FNewToken f => Length f
  | FStream f => Length f | FMaxData f => Length f | FMaxStreamData f => Length f
  | FMaxStreams f => Length f | FDataBlocked f => Length f
  | FStreamDataBlocked f => Length f | FStreamsBlocked f => Length f
  | FNewConnectionID f => Length f | FRetireConnectionID f => Length f
  | FPathChallenge f => Length f | FPathResponse f => Length f
  | FConnectionClose f => Length f | FHandshakeDone f => Length f
  | FDatagram f => Length f | FRepair f => Length f | FSourceSymbol f => Length f
  | FFECWindow f => Length f
  end.

#[global] Instance frame_Frame : Frame frame := { Append := frame_Append; Length := frame_Length }.

(** ** The law of the parser *)

(** Frames an endpoint may put into a packet of an encryption level, for a
    peer that parses with [p]: ACK delays are sent with exponent
    [AckDelayExponent], which the peer uses for 1-RTT packets, and DATAGRAM
    frames only go to peers that support them. *)
Definition peer_ok (p : FrameParser) (lvl : EncryptionLevel) (f : frame) : Prop :=
  match f with
  | FAck _ => lvl = Encryption1RTT → ackDelayExponent p = AckDelayExponent
  | FDatagram _ => supportsDatagrams p = true
  | _ => True
  end.

Definition well_formed (f : frame) : Prop :=
  match f with
  | FPing f => frame_wf f
  | FAck f => frame_wf f
  | FResetStream f => frame_wf f
  | FStopSending f => frame_wf f
  | FCrypto f => frame_wf f
  | FNewToken f => frame_wf f
  | FStream f => frame_wf f
  | FMaxData f => frame_wf f
  | FMaxStreamData f => frame_wf f
  | FMaxStreams f => frame_wf f
  | FDataBlocked f => frame_wf f
  | FStreamDataBlocked f => frame_wf f
  | FStreamsBlocked f => frame_wf f
  | FNewConnectionID f => frame_wf f
  | FRetireConnectionID f => frame_wf f
  | FPathChallenge f => frame_wf f
  | FPathResponse f => frame_wf f
  | FConnectionClose f => frame_wf f
  | FHandshakeDone f => frame_wf f
  | FDatagram f => frame_wf f
  | FRepair f => frame_wf f
  | FSourceSymbol f => frame_wf f
  | FFECWindow f => frame_wf f
  end.

Definition sendable (p : FrameParser) (lvl : EncryptionLevel) (f : frame) : Prop :=
  isAllowedAtEncLevel f lvl = true ∧ well_formed f ∧ peer_ok p lvl f.

Definition type_of (f : frame) : Z :=
  match f with
  | FPing f => frame_type f
  | FAck f => frame_type f
  | FResetStream f => frame_type f
  | FStopSending f => frame_type f
  | FCrypto f => frame_type f
  | FNewToken f => frame_type f
  | FStream f => frame_type f
  | FMaxData f => frame_type f
  | FMaxStreamData f => frame_type f
  | FMaxStreams f => frame_type f
  | FDataBlocked f => frame_type f
  | FStreamDataBlocked f => frame_type f
  | FStreamsBlocked f => frame_type f
  | FNewConnectionID f => frame_type f
  | FRetireConnectionID f => frame_type f
  | FPathChallenge f => frame_type f
  | FPathResponse f => frame_type f
  | FConnectionClose f => frame_type f
  | FHandshakeDone f => frame_type f
  | FDatagram f => frame_type f
  | FRepair f => frame_type f
  | FSourceSymbol f => frame_type f
  | FFECWindow f => frame_type f
  end.

Definition norm (f : frame) : frame :=
  match f with
  | FPing f => FPing (frame_norm f)
  | FAck f => FAck (frame_norm f)
  | FResetStream f => FResetStream (frame_norm f)
  | FStopSending f => FStopSending (frame_norm f)
  | FCrypto f => FCrypto (frame_norm f)
  | FNewToken f => FNewToken (frame_norm f)
  | FStream f => FStream (frame_norm f)
  | FMaxData f => FMaxData (frame_norm f)
  | FMaxStreamData f => FMaxStreamData (frame_norm f)
  | FMaxStreams f => FMaxStreams (frame_norm f)
  | FDataBlocked f => FDataBlocked (frame_norm f)
  | FStreamDataBlocked f => FStreamDataBlocked (frame_norm f)
  | FStreamsBlocked f => FStreamsBlocked (frame_norm f)
  | FNewConnectionID f => FNewConnectionID (frame_norm f)
  | FRetireConnectionID f => FRetireConnectionID (frame_norm f)
  | FPathChallenge f => FPathChallenge (frame_norm f)
  | FPathResponse f => FPathResponse (frame_norm f)
  | FConnectionClose f => FConnectionClose (frame_norm f)
  | FHandshakeDone f => FHandshakeDone (frame_norm f)
  | FDatagram f => FDatagram (frame_norm f)
  | FRepair f => FRepair (frame_norm f)
  | FSourceSymbol f => FSourceSymbol (frame_norm f)
  | FFECWindow f => FFECWindow (frame_norm f)
  end.

Definition delimited (f : frame) : bool :=
  match f with
  | FPing f => frame_delimited f
  | FAck f => frame_delimited f
  | FResetStream f => frame_delimited f
  | FStopSending f => frame_delimited f
  | FCrypto f => frame_delimited f
  | FNewToken f => frame_delimited f
  | FStream f => frame_delimited f
  | FMaxData f => frame_delimited f
  | FMaxStreamData f => frame_delimited f
  | FMaxStreams f => frame_delimited f
  | FDataBlocked f => frame_delimited f
  | FStreamDataBlocked f => frame_delimited f
  | FStreamsBlocked f => frame_delimited f
  | FNewConnectionID f => frame_delimited f
  | FRetireConnectionID f => frame_delimited f
  | FPathChallenge f => frame_delimited f
  | FPathResponse f => frame_delimited f
  | FConnectionClose f => frame_delimited f
  | FHandshakeDone f => frame_delimited f
  | FDatagram f => frame_delimited f
  | FRepair f => frame_delimited f
  | FSourceSymbol f => frame_delimited f
  | FFECWindow f => frame_delimited f
  end.

Section dispatch.
Context (p : FrameParser) (lvl : EncryptionLevel).

(** If the switch reaches the parser of [C], the frame is parsed as [C] does. *)
Lemma parseFrame_dispatch {F} (C : F → frame) (parse : rd F) typ f s s' :
  parseBody p typ lvl = (x ← parse; mret (C x)) →
  parse s = (Ok f, s') → isAllowedAtEncLevel (C f) lvl = true →
  parseFrame p typ lvl s = (Ok (C f), s').
Proof.
  intros Hb Hp Ha. unfold parseFrame. rewrite Hb.
  erewrite rd_bind_ok; [|erewrite rd_bind_ok; [|exact Hp]; reflexivity]. by rewrite Ha.
Qed.

Lemma StreamFrame_typ_mask f : Z.land (StreamFrame_typ f) 0xf8 = 0x8.
Proof. unfold StreamFrame_typ. by destruct (sf_Fin f), (sf_DataLenPresent f), (sf_Offset f =? 0). Qed.

Lemma allowed_norm f : isAllowedAtEncLevel (norm f) lvl = isAllowedAtEncLevel f lvl.
Proof. by destruct f. Qed.

End dispatch.

#[global] Program Instance frame_Codec (p : FrameParser) (lvl : EncryptionLevel) :
    FrameCodec frame (λ typ, parseFrame p typ lvl) := {
  frame_wf := sendable p lvl; frame_type := type_of; frame_norm := norm;
  frame_delimited := delimited }.
Next Obligation.
  intros p lvl f (Hallow & Hwf & Hpeer). rewrite <- allowed_norm in Hallow.
  destruct f as [f|f|f|f|f|f|f|f|f|f|f|f|f|f|f|f|f|f|f|f|f|f|f];
    destruct (frame_codec f Hwf) as (Htyp & body & Happ & Hlen & Hparse);
    (split; [exact Htyp|]); exists body; (split; [exact Happ|]); (split; [exact Hlen|]);
    intros s Hs;
    (match goal with |- _ = (Ok (norm (?C f)), _) =>
       eapply (parseFrame_dispatch p lvl C); [|apply (Hparse s Hs)|exact Hallow] end);
    try reflexivity; simpl.
  - (* ACK *) unfold parseBody.
    replace (if bool_decide (lvl = Encryption1RTT) then ackDelayExponent p else DefaultAckDelayExponent)
      with AckDelayExponent by (case_bool_decide; [symmetry; auto|done]).
    by destruct (hasECN f).
  - (* STREAM *) unfold parseBody. by rewrite StreamFrame_typ_mask.
  - (* MAX_STREAMS *) unfold MaxStreamsFrame_typ. by destruct (ms_Type f).
  - (* STREAMS_BLOCKED *) unfold StreamsBlockedFrame_typ. by destruct (sb_Type f).
  - (* CONNECTION_CLOSE *) by destruct (cc_IsApplicationError f).
  - (* DATAGRAM *) simpl in Hpeer. unfold parseBody. rewrite Hpeer. by destruct (df_DataLenPresent f).
Qed.

(** ** Packets *)

Lemma type_of_nonzero f : type_of f ≠ 0.
Proof.
  destruct f as [f|f|f|f|f|f|f|f|f|f|f|f|f|f|f|f|f|f|f|f|f|f|f]; simpl; try done.
  - by destruct (hasECN f).
  - unfold StreamFrame_typ. by destruct (sf_Fin f), (sf_DataLenPresent f), (sf_Offset f =? 0).
  - unfold MaxStreamsFrame_typ. by destruct (ms_Type f).
  - unfold StreamsBlockedFrame_typ. by destruct (sb_Type f).
  - by destruct (cc_IsApplicationError f).
  - by destruct (df_DataLenPresent f).
Qed.

Lemma wrapErr_ok {A} typ (m : rd A) s s' a : m s = (Ok a, s') → wrapErr typ m s = (Ok a, s').
Proof. intros H. unfold wrapErr. by rewrite H. Qed.

Section packets.
Context (p : FrameParser) (lvl : EncryptionLevel).

(** Parsing skips any number of PADDING frames and returns the next frame. *)
Lemma parseNext_loop_padding n fuel s :
  (n ≤ fuel)%nat → s ≠ [] →
  parseNext_loop p lvl fuel (replicate n 0 ++ s) = parseNext_loop p lvl (fuel - n) s.
Proof.
  revert fuel. induction n as [|n IH]; intros fuel Hf Hs; [by rewrite Nat.sub_0_r|].
  destruct fuel as [|fuel]; [lia|]. cbn [parseNext_loop replicate app].
  rewrite rd_len_bind, blen_cons. pose proof (blen_nonneg (replicate n 0 ++ s)).
  destruct (Z.eqb_spec (1 + blen (replicate n 0 ++ s)) 0); [lia|].
  erewrite rd_bind_ok;
    [|apply wrapErr_ok; change (0 :: ?x) with (quicvarint.enc 0 ++ x); by apply quicvarint.Read_enc].
  simpl. rewrite IH by (lia || done). f_equal.
Qed.

Lemma sendable_enc f : sendable p lvl f → ∃ e,
  (∀ b, Append b f = Ok (b ++ e)) ∧ Length f = Ok (blen e) ∧ e ≠ [] ∧
  ∀ n s, delimited f = true ∨ s = [] →
         parseNext p lvl (replicate n 0 ++ e ++ s) = (Ok (Some (norm f)), s).
Proof.
  intros Hf. destruct (@frame_codec _ _ _ (frame_Codec p lvl) f Hf)
    as (Htyp & body & Happ & Hlen & Hparse).
  exists (quicvarint.enc (type_of f) ++ body). split; [exact Happ|]. split; [exact Hlen|].
  assert (Hne : quicvarint.enc (type_of f) ≠ []).
  { intros E. pose proof (quicvarint.blen_enc _ Htyp) as Hb. simpl in Hb. rewrite E in Hb.
    pose proof (quicvarint.size_range _ Htyp). simpl in *. unfold blen in Hb. simpl in Hb. lia. }
  split; [by destruct (quicvarint.enc (type_of f))|]. intros n s Hs. unfold parseNext.
  rewrite parseNext_loop_padding; [|rewrite length_app, length_replicate; lia
    |destruct (quicvarint.enc (type_of f)); done].
  rewrite !length_app, length_replicate. set (fuel := (_ - n)%nat).
  destruct fuel as [|fuel'] eqn:E; [subst fuel; lia|]. cbn [parseNext_loop].
  rewrite rd_len_bind.
  destruct (Z.eqb_spec (blen ((quicvarint.enc (type_of f) ++ body) ++ s)) 0) as [E0|_].
  { apply blen_0_nil in E0. by destruct (quicvarint.enc (type_of f)). }
  rewrite <- app_assoc.
  erewrite rd_bind_ok; [|apply wrapErr_ok; by apply quicvarint.Read_enc].
  destruct (Z.eqb_spec (type_of f) 0) as [E0|_]; [by apply type_of_nonzero in E0|].
  erewrite rd_bind_ok; [|apply wrapErr_ok; by apply Hparse]. done.
Qed.

Lemma ParseNext_drop data l f : ParseNext p data lvl = (l, f) →
  ∀ r, (parseNext p lvl data).2 = r → r `suffix_of` data → drop (Z.to_nat l) data = r.
Proof.
  unfold ParseNext. destruct (parseNext p lvl data) as [f' r']. intros [= <- _] r Hr [w ->].
  simpl in Hr. subst r'. rewrite blen_app. replace (blen w + blen r - blen r) with (blen w) by lia.
  rewrite to_nat_blen. apply drop_app_length.
Qed.

(** The frames of a packet payload, as the loop of [handleFrames] takes them. *)
Fixpoint parsePayload (fuel : nat) (data : bytes) : res (list frame) :=
  match fuel with
  | O => Panic "out of fuel"
  | S fuel =>
      if blen data =? 0 then Ok [] else
      let '(l, r) := ParseNext p data lvl in
      frame ← r;
      let data := drop (Z.to_nat l) data in
      match frame with
      | None => Ok []
      | Some f => fs ← parsePayload fuel data; Ok (f :: fs)
      end
  end.

(** Frames written one after the other, as the packet packer does. *)
Fixpoint appendFrames (b : bytes) (fs : list frame) : res bytes :=
  match fs with
  | [] => Ok b
  | f :: fs => b ← Append b f; appendFrames b fs
  end.

Fixpoint totalLength (fs : list frame) : res Z :=
  match fs with
  | [] => Ok 0
  | f :: fs => l ← Length f; r ← totalLength fs; Ok (l + r)
  end.

(** Only the last frame may extend to the end of the packet. *)
Fixpoint all_but_last_delimited (fs : list frame) : bool :=
  match fs with
  | [] | [_] => true
  | f :: fs => delimited f && all_but_last_delimited fs
  end.

Lemma payload_roundtrip fs : Forall (sendable p lvl) fs → all_but_last_delimited fs = true →
  ∃ e, (∀ b, appendFrames b fs = Ok (b ++ e)) ∧ totalLength fs = Ok (blen e) ∧
       (∀ fuel, (length fs < fuel)%nat → parsePayload fuel e = Ok (map norm fs)) ∧
       (length fs ≤ length e)%nat.
Proof.
  induction fs as [|f fs IH]; intros Hs Hd.
  { exists []. split; [intros; by rewrite app_nil_r|]. split; [done|]. split; [|done].
    intros [|fuel]; [lia|done]. }
  apply Forall_cons in Hs as [Hf Hs].
  assert (all_but_last_delimited fs = true ∧ (delimited f = true ∨ fs = [])) as [Hd' Hdf].
  { destruct fs; [by auto|]. simpl in Hd. apply andb_prop in Hd as [? ?]. auto. }
  destruct (IH Hs Hd') as (e & Happ & Hlen & Hpar & Hle).
  destruct (sendable_enc f Hf) as (ef & Hfa & Hfl & Hne & Hfp).
  exists (ef ++ e). split_and!.
  - intros b. cbn [appendFrames]. rewrite Hfa, res_bind_ok, Happ. by rewrite <- app_assoc.
  - cbn [totalLength]. rewrite Hfl, res_bind_ok, Hlen, res_bind_ok, blen_app. done.
  - intros [|fuel] Hfuel; [lia|]. cbn [parsePayload].
    destruct (Z.eqb_spec (blen (ef ++ e)) 0) as [E|_]; [apply blen_0_nil in E; by destruct ef|].
    assert (Hpn : parseNext p lvl (ef ++ e) = (Ok (Some (norm f)), e)).
    { apply (Hfp 0%nat). destruct Hdf as [?| ->]; [by left|right].
      specialize (Happ []). simpl in Happ. by inversion Happ. }
    destruct (ParseNext p (ef ++ e) lvl) as [l r] eqn:E.
    assert (Hdrop : drop (Z.to_nat l) (ef ++ e) = e).
    { eapply ParseNext_drop; [exact E|by rewrite Hpn|by exists ef]. }
    unfold ParseNext in E. rewrite Hpn in E. inversion E; subst r. rewrite res_bind_ok.
    cbv zeta. subst l. rewrite Hdrop, Hpar by (simpl in Hfuel; lia). done.
  - rewrite length_app. destruct ef; [done|]. simpl. lia.
Qed.

End packets.

(** C25: everything an endpoint writes into a packet is read back.  For every
    sequence of frames allowed at the encryption level, with fields in range,
    of which only the last may lack a length field, [Append] of all of them
    succeeds, takes the sum of their [Length]s, and the peer's frame parser,
    run over the payload, returns exactly these frames (the ACK frames with the
    ranges that fit and the delay in their unit). *)
Theorem packet_payload_roundtrip (p : FrameParser) (lvl : EncryptionLevel) (fs : list frame) :
  Forall (sendable p lvl) fs → all_but_last_delimited fs = true →
  ∃ payload, appendFrames [] fs = Ok payload ∧ totalLength fs = Ok (blen payload) ∧
             parsePayload p lvl (S (length fs)) payload = Ok (map norm fs).
Proof.
  intros Hs Hd. destruct (payload_roundtrip p lvl fs Hs Hd) as (e & Ha & Hl & Hp & _).
  exists e. split; [apply (Ha [])|]. split; [done|]. apply Hp. lia.
Qed.

Lemma packet_payload_roundtrip_witness :
  let p := mkFrameParser 3 true in
  let fs := [FPing mkPingFrame;
             FAck (mkAckFrame [mkAckRange 90 100; mkAckRange 50 70] 16000 0 0 0);
             FSourceSymbol (mkSourceSymbolFrame 7 (mkSlice [1; 2; 3] []));
             FRepair (mkRepairFrame (mkBlockMetadata 3 0) [9; 9]);
             FStream (mkStreamFrame 4 1000 [5; 6] true false false false)] in
  ∃ payload, appendFrames [] fs = Ok payload ∧ totalLength fs = Ok (blen payload) ∧
             parsePayload p Encryption1RTT (S (length fs)) payload = Ok (map norm fs).
Proof.
  apply (packet_payload_roundtrip (mkFrameParser 3 true) Encryption1RTT).
  - repeat (apply Forall_cons; split); [..|apply Forall_nil; done];
      repeat (split || constructor); vm_compute; intuition discriminate.
  - reflexivity.
Defined.

(** ** Arbitrary input *)

(** What every parsed frame satisfies: it can be written again, except that a
    peer may send an empty STREAM frame without FIN. *)
Definition parsed_ok (f : frame) : Prop :=
  match f with
  | FStream f => StreamFrame_sendable f
  | f => well_formed f
  end.

Section safety.
(** Payloads are at most as long as a packet buffer. *)
Abbreviation N := MaxPacketBufferSize.

Lemma N_ok d : blen d ≤ N → data_ok d.
Proof. unfold data_ok, MaxPacketBufferSize, quicvarint.Max, quicvarint.maxVarInt8. lia. Qed.

Ltac safe :=
  repeat first
    [ apply rd_safe_fail
    | eapply rd_safe_bind; [apply quicvarint.Read_safe|intros ? ?; cbn beta in *]
    | eapply rd_safe_bind; [apply ReadByte_safe|intros ? ?; cbn beta in *]
    | eapply rd_safe_bind; [apply rd_len_safe|intros ? ?; cbn beta in *] ].

(** Reading a field whose length was checked against the remaining bytes. *)
Lemma read_data_safe n : 0 ≤ n ≤ N →
  rd_safe N (λ d, blen d = n ∧ data_ok d)
    (if negb (n =? 0) then ReadFull n else mret []).
Proof.
  intros Hn. destruct (Z.eqb_spec n 0) as [->|]; simpl.
  - apply rd_safe_ret. split; [done|]. by apply N_ok.
  - eapply rd_safe_weaken; [|apply ReadFull_safe; lia]. simpl. intros d [Hd _].
    split; [done|]. apply N_ok. lia.
Qed.

Lemma ReadFull_data_safe n : 0 ≤ n ≤ N → rd_safe N (λ d, blen d = n ∧ data_ok d) (ReadFull n).
Proof.
  intros Hn. eapply rd_safe_weaken; [|apply ReadFull_safe; lia]. simpl. intros d [Hd _].
  split; [done|]. apply N_ok. lia.
Qed.

Lemma readArray_safe n : 0 ≤ n → rd_safe N (λ d, blen d = n) (readArray n).
Proof.
  intros Hn s Hs. pose proof (ReadFull_safe N n Hn s Hs) as H. unfold readArray.
  destruct (ReadFull n s) as [[d|e|m] s']; [naive_solver|by destruct e|done].
Qed.

Lemma parseNewTokenFrame_safe : rd_safe N (frame_wf (F := NewTokenFrame)) parseNewTokenFrame.
Proof.
  unfold parseNewTokenFrame. safe. destruct (Z.ltb_spec a0 a); [safe|].
  destruct (Z.eqb_spec a 0); [safe|]. destruct H as [H _].
  eapply rd_safe_bind; [apply ReadFull_data_safe; lia|]. intros d [Hd Hok].
  apply rd_safe_ret. split; [done|]. simpl. intros ->. unfold blen in Hd. simpl in Hd. lia.
Qed.

Lemma parseNewConnectionIDFrame_safe :
  rd_safe N (frame_wf (F := NewConnectionIDFrame)) parseNewConnectionIDFrame.
Proof.
  unfold parseNewConnectionIDFrame. safe. destruct (Z.ltb_spec a a0); [safe|].
  safe. unfold is_byte in H2. destruct (Z.eqb_spec a1 0); [safe|].
  eapply rd_safe_bind; [apply ReadConnectionID_safe; lia|]. intros c [Hc Hl].
  eapply rd_safe_bind; [by apply readArray_safe|]. intros t Ht.
  apply rd_safe_ret. destruct H0. repeat split; simpl; try done; try apply H; lia.
Qed.

Lemma parseConnectionCloseFrame_safe typ :
  rd_safe N (frame_wf (F := ConnectionCloseFrame)) (parseConnectionCloseFrame typ).
Proof.
  unfold parseConnectionCloseFrame. safe.
  eapply (rd_safe_bind _ (λ ft, quicvarint.encodable ft ∧ ((typ =? applicationCloseFrameType) = true → ft = 0))).
  { destruct (typ =? applicationCloseFrameType); simpl.
    - apply rd_safe_ret. split; [by vm_compute|done].
    - eapply rd_safe_weaken; [|apply quicvarint.Read_safe]. simpl. done. }
  intros ft [Hft Happ]. safe. rewrite quicvarint.encodable_i64 by done.
  destruct (Z.ltb_spec a1 a0); [safe|]. destruct H0 as [H0 _].
  eapply rd_safe_bind; [apply ReadFull_data_safe; lia|]. intros d [Hd Hok].
  apply rd_safe_ret. simpl. done.
Qed.

Lemma parseCryptoFrame_safe : rd_safe N (frame_wf (F := CryptoFrame)) parseCryptoFrame.
Proof.
  unfold parseCryptoFrame. safe. destruct (Z.ltb_spec a1 a0); [safe|]. destruct H0 as [H0 _].
  eapply rd_safe_bind; [apply read_data_safe; lia|]. intros d [Hd Hok].
  apply rd_safe_ret. simpl. by rewrite quicvarint.encodable_i64.
Qed.

Lemma parseRepairFrame_safe : rd_safe N (frame_wf (F := RepairFrame)) parseRepairFrame.
Proof.
  unfold parseRepairFrame. safe. destruct (Z.ltb_spec a2 a1); [safe|]. destruct H1 as [H1 _].
  eapply rd_safe_bind; [apply read_data_safe; lia|]. intros d [Hd Hok].
  apply rd_safe_ret. simpl. done.
Qed.

Lemma ParseSourceSymbolFrame_safe : rd_safe N (frame_wf (F := SourceSymbolFrame)) ParseSourceSymbolFrame.
Proof.
  unfold ParseSourceSymbolFrame. safe. destruct (Z.ltb_spec a1 a0); [safe|]. destruct H0 as [H0 _].
  eapply (rd_safe_bind _ (λ d, sl_len d ≤ N)).
  - destruct (Z.eqb_spec a0 0); simpl; [by apply rd_safe_ret|].
    rewrite (proj2 (Z.ltb_ge _ _)) by lia.
    eapply rd_safe_bind; [apply ReadFull_data_safe; lia|]. intros d [Hd Hok]. apply rd_safe_ret.
    unfold sl_len. simpl. lia.
  - intros d Hd. by apply rd_safe_ret.
Qed.

Lemma parseDatagramFrame_safe typ : rd_safe N (frame_wf (F := DatagramFrame)) (parseDatagramFrame typ).
Proof.
  unfold parseDatagramFrame.
  eapply (rd_safe_bind _ (λ l, 0 ≤ l ≤ N)).
  - destruct (0 <? Z.land typ 1); [|apply rd_len_safe]. safe. destruct (Z.ltb_spec a0 a); [safe|].
    destruct H as [H _]. apply rd_safe_ret. lia.
  - intros l Hl. eapply rd_safe_bind; [by apply ReadFull_data_safe|]. intros d [Hd Hok].
    by apply rd_safe_ret.
Qed.

Lemma stream_tail_safe sid o l fin dlp pool :
  quicvarint.encodable sid → quicvarint.encodable o → 0 ≤ l ≤ N →
  rd_safe N StreamFrame_sendable
    (data ← (if negb (l =? 0) then ReadFull l else mret []);
     let frame := mkStreamFrame (i64 sid) (i64 o) data fin dlp pool false in
     if MaxByteCount <? i64 (sf_Offset frame + StreamFrame_DataLen frame)
     then rd_fail (ErrMsg "stream data overflows maximum offset")
     else mret frame).
Proof.
  intros Hsid Ho Hl. eapply rd_safe_bind; [by apply read_data_safe|]. intros d [Hd _].
  rewrite (quicvarint.encodable_i64 sid), (quicvarint.encodable_i64 o) by done.
  unfold StreamFrame_DataLen; simpl. destruct Ho as [Ho1 Ho2].
  unfold quicvarint.Max, quicvarint.maxVarInt8 in Ho2. unfold MaxPacketBufferSize in Hl.
  rewrite i64_small by lia.
  destruct (Z.ltb_spec MaxByteCount (o + blen d)); [apply rd_safe_fail|apply rd_safe_ret].
  unfold StreamFrame_sendable, StreamFrame_DataLen, MaxPacketBufferSize; simpl. split; [done|lia].
Qed.

Lemma parseStreamFrame_safe typ : rd_safe N StreamFrame_sendable (parseStreamFrame typ).
Proof.
  unfold parseStreamFrame. safe.
  eapply (rd_safe_bind _ quicvarint.encodable).
  { destruct (0 <? Z.land typ 4); [apply quicvarint.Read_safe|]. apply rd_safe_ret. by vm_compute. }
  intros o Ho. eapply (rd_safe_bind _ (λ l, 0 ≤ l)).
  { destruct (0 <? Z.land typ 2); eapply rd_safe_weaken; try apply quicvarint.Read_safe;
      try apply rd_len_safe; simpl; [intros ? [? _]; lia|lia]. }
  intros l Hl. destruct (Z.ltb_spec l MinStreamFrameBufferSize), (Z.ltb_spec MaxPacketBufferSize l);
    simpl; try apply rd_safe_fail; unfold MinStreamFrameBufferSize, MaxPacketBufferSize in *; try lia.
  all: apply stream_tail_safe; try done; unfold MaxPacketBufferSize; lia.
Qed.

(** The parsers that read integers only. *)
Ltac ints_safe := safe; apply rd_safe_ret; simpl; rewrite ?quicvarint.encodable_i64 by done; done.

Lemma streams_safe {A} (C : Z → A) (P : A → Prop) n :
  quicvarint.encodable n → (∀ n, 0 ≤ n ≤ MaxStreamCount → P (C n)) →
  rd_safe N P (if MaxStreamCount <? i64 n then rd_fail (ErrMsg "exceeds the maximum stream count")
               else mret (C (i64 n))).
Proof.
  intros Hn HP. rewrite quicvarint.encodable_i64 by done.
  destruct (Z.ltb_spec MaxStreamCount n); [apply rd_safe_fail|]. apply rd_safe_ret, HP.
  destruct Hn. lia.
Qed.

Lemma parseBody_safe p typ lvl : rd_safe N parsed_ok (parseBody p typ lvl).
Proof.
  unfold parseBody.
  destruct (_ =? 8). { eapply rd_safe_bind; [apply parseStreamFrame_safe|]. intros; by apply rd_safe_ret. }
  repeat (match goal with |- context [if ?b then _ else _] => destruct b end;
    [first [ by apply rd_safe_ret
           | eapply rd_safe_bind; [first
               [ apply parseAckFrame_safe | apply parseNewTokenFrame_safe | apply parseCryptoFrame_safe
               | apply parseNewConnectionIDFrame_safe | apply parseConnectionCloseFrame_safe
               | apply parseRepairFrame_safe | apply ParseSourceSymbolFrame_safe
               | apply parseDatagramFrame_safe ] | intros; by apply rd_safe_ret]
           | eapply (rd_safe_bind _ frame_wf); [|intros; by apply rd_safe_ret];
             first [unfold parseResetStreamFrame; ints_safe | unfold parseStopSendingFrame; ints_safe
                   |unfold parseMaxDataFrame; ints_safe | unfold parseMaxStreamDataFrame; ints_safe
                   |unfold parseDataBlockedFrame; ints_safe|unfold parseStreamDataBlockedFrame; ints_safe
                   |unfold parseRetireConnectionIDFrame; ints_safe
                   |unfold parseMaxStreamsFrame; safe; by apply streams_safe
                   |unfold parseStreamsBlockedFrame; safe; by apply streams_safe
                   |unfold parseFECWindowFrame; safe; apply rd_safe_ret; simpl;
                    unfold u16, u32; split; by apply Z.mod_pos_bound
                   |unfold parsePathChallengeFrame;
                    eapply rd_safe_bind; [by apply readArray_safe|intros; by apply rd_safe_ret]
                   |unfold parsePathResponseFrame;
                    eapply rd_safe_bind; [by apply readArray_safe|intros; by apply rd_safe_ret]] ] |]).
  apply rd_safe_fail.
Qed.

Definition accepted (lvl : EncryptionLevel) (f : frame) : Prop :=
  parsed_ok f ∧ isAllowedAtEncLevel f lvl = true.

Lemma parseFrame_safe p typ lvl : rd_safe N (accepted lvl) (parseFrame p typ lvl).
Proof.
  unfold parseFrame. eapply rd_safe_bind; [apply parseBody_safe|]. intros f Hf.
  destruct (isAllowedAtEncLevel f lvl) eqn:E; simpl; [|apply rd_safe_fail]. by apply rd_safe_ret.
Qed.

(** The outcome of one call of [parseNext] on [s] that leaves [s']. *)
Definition next_ok (lvl : EncryptionLevel) (s : bytes) (r : res (option frame)) (s' : bytes) : Prop :=
  s' `suffix_of` s ∧
  match r with
  | Ok None => s' = []
  | Ok (Some f) => accepted lvl f ∧ (length s' < length s)%nat
  | Err e => ∃ typ cause, e = TransportError FrameEncodingError typ cause
  | Panic _ => False
  end.

Lemma next_ok_app lvl w s r s' : next_ok lvl s r s' → next_ok lvl (w ++ s) r s'.
Proof.
  intros [Hsuf H]. split; [by apply suffix_app_r|].
  destruct r as [[f|]|e|m]; [|done..]. rewrite length_app. split; [apply H|]. destruct H. lia.
Qed.

Lemma parseNext_loop_safe p lvl fuel s : input_ok N s → (length s < fuel)%nat →
  let '(r, s') := parseNext_loop p lvl fuel s in next_ok lvl s r s'.
Proof.
  revert s. induction fuel as [|fuel IH]; intros s Hs Hf; [lia|]. cbn [parseNext_loop].
  rewrite rd_len_bind. destruct (Z.eqb_spec (blen s) 0) as [E|E].
  { assert (s = []) as -> by (destruct s; [done|by unfold blen in E]). by split. }
  unfold mbind, rd_bind, wrapErr. destruct (quicvarint.Read_spec s (proj1 Hs))
    as [(w & typ & s' & -> & -> & _ & Hw)|(s' & -> & Hsuf)]; [|by split; [|eauto]].
  assert (Hs' : input_ok N s') by (eapply input_ok_suffix; [by exists w|done]).
  rewrite length_app in Hf. unfold blen in Hw. destruct (Z.eqb_spec typ 0).
  { specialize (IH s' Hs' ltac:(lia)). destruct (parseNext_loop p lvl fuel s').
    by apply next_ok_app. }
  pose proof (parseFrame_safe p typ lvl s' Hs') as H.
  destruct (parseFrame p typ lvl s') as [[f|e|m] s'']; [|by apply next_ok_app; split; [|eauto]|done].
  destruct H as [Hf' Hsuf]. split; [by apply suffix_app_r|]. split; [done|].
  apply suffix_length in Hsuf. rewrite length_app. lia.
Qed.

End safety.

(** C26: No packet payload makes the frame parser panic or loop, at any
    encryption level: for every byte string of at most a packet buffer
    ([MaxPacketBufferSize] = 1452 bytes) [ParseNext] reports a number of
    consumed bytes within the input and returns either a frame, which then
    meets the well-formedness condition of its type, is allowed at the
    encryption level and has consumed at least one byte; or no frame, having
    consumed the whole input; or a FRAME_ENCODING_ERROR. *)
Theorem ParseNext_safe p lvl data :
  bytes_ok data → blen data ≤ MaxPacketBufferSize →
  let '(n, r) := ParseNext p data lvl in
  0 ≤ n ≤ blen data ∧
  match r with
  | Ok None => n = blen data
  | Ok (Some f) => parsed_ok f ∧ isAllowedAtEncLevel f lvl = true ∧ 0 < n
  | Err e => ∃ typ cause, e = TransportError FrameEncodingError typ cause
  | Panic _ => False
  end.
Proof.
  intros Hb Hl. unfold ParseNext, parseNext.
  pose proof (parseNext_loop_safe p lvl (S (length data)) data ltac:(done) ltac:(lia)) as H.
  destruct (parseNext_loop p lvl (S (length data)) data) as [r s']. destruct H as [Hsuf H].
  apply suffix_length in Hsuf. unfold blen. split; [lia|].
  destruct r as [[f|]|e|m]; [|by subst; simpl; lia|done|done]. destruct H as [[? ?] ?].
  split_and!; [done..|lia].
Qed.

Lemma ParseNext_safe_witness :
  (ParseNext (NewFrameParser false) [0; 0; 0x1c; 0x0a] EncryptionInitial).2 =
    Err (TransportError FrameEncodingError 0x1c EOF) ∧
  ∃ typ cause, TransportError FrameEncodingError 0x1c EOF = TransportError FrameEncodingError typ cause.
Proof.
  split; [reflexivity|].
  pose proof (ParseNext_safe (NewFrameParser false) EncryptionInitial [0; 0; 0x1c; 0x0a]) as H.
  vm_compute in H. apply H; [repeat constructor; done|done].
Defined.

(** The test [typ&0xf8 == 0x8] looks at the low byte of the frame type only:
    the unknown type 0x108 (sent as the varint 0x4108) is taken for a STREAM
    frame. *)
Example unknown_type_parsed_as_stream p :
  ParseNext p [0x41; 0x08; 0x04; 0x61; 0x62] Encryption1RTT =
    (5, Ok (Some (FStream (mkStreamFrame 4 0 [0x61; 0x62] false false false false)))).
Proof. reflexivity. Qed.

End parser.
