(* ===== verification/Fec.v ===== *)
(** The FEC layer (internal/fec): blocks of source and repair symbols, the
    XOR and Reed-Solomon block codes, and the manager that runs the sender
    and the receiver. *)

From S2P Require Import Prelude.
From S2P Require Import Varint.
From S2P Require Import Protocol.
From S2P Require Import Frames.

Module fec.
Import protocol wire.

(** * Blocks (block.go) *)

Record block := mkBlock {
  b_id : Z;
  ssidToSourcePayload : gmap Z slice;
  pidToRepairPayload : gmap Z bytes;
  smallestSSID : Z;
  largestSSID : Z;
  totNumSourceSymbols : Z;
  totNumRepairSymbols : Z;
  biggestSourceSymbolLenSoFar : Z;
}.

(** [len(m)] of a map. *)
Definition mlen {V} (m : gmap Z V) : Z := Z.of_nat (size m).

Definition newBlock (id totNumSourceSymbols totNumRepairSymbols : Z) : block :=
  let smallest := u64 (id * u64 totNumSourceSymbols) in
  let largest := u64 (smallest + u64 totNumSourceSymbols - 1) in
  mkBlock id ∅ ∅ smallest largest (i64 (i64 largest - i64 smallest + 1)) totNumRepairSymbols 0.

Definition set_sources (b : block) (m : gmap Z slice) : block :=
  mkBlock (b_id b) m (pidToRepairPayload b) (smallestSSID b) (largestSSID b)
    (totNumSourceSymbols b) (totNumRepairSymbols b) (biggestSourceSymbolLenSoFar b).

Definition set_repairs (b : block) (m : gmap Z bytes) : block :=
  mkBlock (b_id b) (ssidToSourcePayload b) m (smallestSSID b) (largestSSID b)
    (totNumSourceSymbols b) (totNumRepairSymbols b) (biggestSourceSymbolLenSoFar b).

Definition set_biggest (b : block) (n : Z) : block :=
  mkBlock (b_id b) (ssidToSourcePayload b) (pidToRepairPayload b) (smallestSSID b) (largestSSID b)
    (totNumSourceSymbols b) (totNumRepairSymbols b) n.

Definition addSourceSymbol (f : SourceSymbolFrame) : st block () := λ b,
  if (ssf_SSID f <? smallestSSID b) || (largestSSID b <? ssf_SSID f)
  then (Err (ErrMsg "source symbol was provided to the wrong block"), b)
  else match ssidToSourcePayload b !! ssf_SSID f with
       | Some _ => (Ok tt, b)
       | None =>
           let b := set_sources b (<[ssf_SSID f := ssf_Payload f]> (ssidToSourcePayload b)) in
           let b := if biggestSourceSymbolLenSoFar b <? sl_len (ssf_Payload f)
                    then set_biggest b (sl_len (ssf_Payload f)) else b in
           (Ok tt, b)
       end.

Definition addRepairSymbol (f : RepairFrame) : st block () := λ b,
  if negb (b_id b =? bm_BlockID (rf_Metadata f))
  then (Err (ErrMsg "the repair symbol was provided to the wrong block"), b)
  else match pidToRepairPayload b !! bm_ParityID (rf_Metadata f) with
       | Some _ => (Ok tt, b)
       | None =>
           let b := set_repairs b (<[bm_ParityID (rf_Metadata f) := rf_Payload f]> (pidToRepairPayload b)) in
           (Ok tt, set_biggest b (blen (rf_Payload f) - RepairPayloadMetadataLen))
       end.

Definition isRecoverable (b : block) : bool :=
  totNumSourceSymbols b <=? mlen (ssidToSourcePayload b) + mlen (pidToRepairPayload b).

Definition isComplete (b : block) : bool :=
  mlen (ssidToSourcePayload b) =? totNumSourceSymbols b.

(** * Block codes (scheme.go)

    The interface [BlockFECScheme]; both methods may write to the block. *)
Record BlockFECScheme := mkScheme {
  repairSymbols : st block (list RepairFrame);
  recoverSymbolPayloads : st block bytes;
}.

(** The two length bytes of a payload, as both codes store them. *)
Definition highByte (payload : slice) : Z := u8 (Z.shiftr (u16 (sl_len payload)) 8).
Definition lowByte (payload : slice) : Z := u8 (Z.land (u16 (sl_len payload)) 0xFF).

(** [uint16(hi)<<8 | uint16(lo)]. *)
Definition joinLen (hi lo : Z) : Z := Z.lor (u16 (Z.shiftl hi 8)) lo.

Section codes.
(** Go iterates over a map in an unspecified order. *)
Context (range : ∀ V : Type, gmap Z V → list (Z * V)).

(** ** XOR (xor.go) *)

(** The loop [for i := 0; i < len(payload); i++]: it panics when the payload
    is longer than [xorSoFar]. *)
Fixpoint xorRepair (xorSoFar payload : bytes) : res bytes :=
  match payload, xorSoFar with
  | [], _ => Ok xorSoFar
  | p :: payload, x :: xorSoFar =>
      rest ← xorRepair xorSoFar payload;
      Ok (Z.lxor x p :: rest)
  | _ :: _, [] => Panic "index out of range"
  end.

Definition xor (xorSoFar : bytes) (payload : slice) (biggest : Z) : res bytes :=
  xorSoFar ← xorRepair xorSoFar (sl_data payload);
  x ← get_at xorSoFar biggest;
  xorSoFar ← set_at xorSoFar biggest (Z.lxor x (highByte payload));
  x ← get_at xorSoFar (biggest + 1);
  set_at xorSoFar (biggest + 1) (Z.lxor x (lowByte payload)).

Fixpoint xor_sources (xorSoFar : bytes) (biggest : Z) (l : list (Z * slice)) : res bytes :=
  match l with
  | [] => Ok xorSoFar
  | (_, payload) :: l => xorSoFar ← xor xorSoFar payload biggest; xor_sources xorSoFar biggest l
  end.

Fixpoint xor_repairs (recoveredSymbol : bytes) (l : list (Z * bytes)) : res bytes :=
  match l with
  | [] => Ok recoveredSymbol
  | (_, data) :: l => recoveredSymbol ← xorRepair recoveredSymbol data; xor_repairs recoveredSymbol l
  end.

Definition xor_repairSymbols : st block (list RepairFrame) := λ b,
  if negb (isComplete b)
  then (Err (ErrMsg "block does not have enough source symbols to generate repair symbols"), b)
  else if negb (totNumRepairSymbols b =? 1)
  then (Err (ErrMsg "xor only supports 1 repair symbol"), b)
  else if MaxFECPacketBufferSize <? biggestSourceSymbolLenSoFar b
  then (Err (ErrMsg "source symbol payload len is too big for FEC headers"), b)
  else
    let repairPayloadLen := RepairPayloadMetadataLen + biggestSourceSymbolLenSoFar b in
    if repairPayloadLen <? 0 then (Panic "makeslice: len out of range", b) else
    match xor_sources (zeros repairPayloadLen) (biggestSourceSymbolLenSoFar b)
            (range _ (ssidToSourcePayload b)) with
    | Ok xorSoFar => (Ok [mkRepairFrame (mkBlockMetadata (b_id b) 0) xorSoFar], b)
    | Err e => (Err e, b)
    | Panic m => (Panic m, b)
    end.

(** [for ssid := b.smallestSSID; ssid <= b.largestSSID; ssid++]: every symbol
    that is missing is set to the recovered one.  The loop does not end when
    [largestSSID] is the largest 64-bit number. *)
Fixpoint fill_missing (fuel : nat) (ssid largest : Z) (p : slice) (m : gmap Z slice) : res (gmap Z slice) :=
  match fuel with
  | O => Panic "loop does not terminate"
  | S fuel =>
      if largest <? ssid then Ok m
      else fill_missing fuel (u64 (ssid + 1)) largest p
             (match m !! ssid with Some _ => m | None => <[ssid := p]> m end)
  end.

Definition fill_fuel (b : block) : nat := S (Z.to_nat (largestSSID b - smallestSSID b + 1)).

Definition xor_recoverSymbolPayloads : st block bytes := λ b,
  if negb (isRecoverable b)
  then (Err (ErrMsg "not enough present symbols to repair the missing ones"), b)
  else if isComplete b then (Ok [], b)
  else
    let recovered :=
      recoveredSymbol ← xor_repairs (zeros MaxPacketBufferSize) (range _ (pidToRepairPayload b));
      recoveredSymbol ← xor_sources recoveredSymbol (biggestSourceSymbolLenSoFar b)
                          (range _ (ssidToSourcePayload b));
      hi ← get_at recoveredSymbol (biggestSourceSymbolLenSoFar b);
      lo ← get_at recoveredSymbol (biggestSourceSymbolLenSoFar b + 1);
      recoveredPayload ← sl_upto (mkSlice recoveredSymbol []) (joinLen hi lo);
      m ← fill_missing (fill_fuel b) (smallestSSID b) (largestSSID b) recoveredPayload
            (ssidToSourcePayload b);
      Ok (recoveredPayload, m) in
    match recovered with
    | Ok (recoveredPayload, m) =>
        let b := set_sources b m in
        if negb (isComplete b)
        then (Err (ErrMsg "block is not complete after recovery"), b)
        else (Ok (sl_data recoveredPayload), b)
    | Err e => (Err e, b)
    | Panic m => (Panic m, b)
    end.

Definition xorScheme : BlockFECScheme := mkScheme xor_repairSymbols xor_recoverSymbolPayloads.

(** ** Reed-Solomon (reed_solomon.go)

    The encoder of github.com/klauspost/reedsolomon: both operations fill in
    the shards they compute and keep the others. *)
Record Encoder := mkEncoder {
  Encode : list slice → res (list slice);
  ReconstructData : list slice → res (list slice);
}.

Section rs.
Context (enc : Encoder).

(** The shard of a source symbol: its payload extended within its capacity,
    with the length of the payload in the last two bytes.  The bytes written
    are those of the payload's own buffer. *)
Definition addLengthToSourceSymbolPayload (ssid : Z) : st block slice := λ b,
  match ssidToSourcePayload b !! ssid with
  | None => (Err (ErrMsg "block is complete but SID does not exist"), b)
  | Some payload =>
      let shardLen := RepairPayloadMetadataLen + biggestSourceSymbolLenSoFar b in
      if sl_cap payload <? shardLen
      then (Err (ErrMsg "shard len is greater than capacity of payload"), b)
      else
        let shard :=
          shard ← sl_upto payload shardLen;
          d ← set_at (sl_data shard) (biggestSourceSymbolLenSoFar b) (highByte payload);
          d ← set_at d (biggestSourceSymbolLenSoFar b + 1) (lowByte payload);
          Ok (mkSlice d (sl_spare shard)) in
        match shard with
        | Ok shard =>
            match sl_upto shard (sl_len payload) with
            | Ok payload => (Ok shard, set_sources b (<[ssid := payload]> (ssidToSourcePayload b)))
            | _ => (Panic "slice bounds out of range", b)
            end
        | Err e => (Err e, b)
        | Panic m => (Panic m, b)
        end
  end.

(** [for i := range repairSymbols]: one frame for each parity shard. *)
Fixpoint repair_frames (id n i : Z) (m : nat) (shards : list slice) : res (list RepairFrame) :=
  match m with
  | O => Ok []
  | S m =>
      shard ← get_at shards (n + i);
      rest ← repair_frames id n (i + 1) m shards;
      Ok (mkRepairFrame (mkBlockMetadata id i) (sl_data shard) :: rest)
  end.

(** The shards of the source symbols [smallestSSID + i] for [i] in the list. *)
Fixpoint sourceShards (idx : list Z) : st block (list slice) :=
  match idx with
  | [] => mret []
  | i :: idx =>
      b ← st_get;
      shard ← addLengthToSourceSymbolPayload (u64 (smallestSSID b + i));
      shards ← sourceShards idx;
      mret (shard :: shards)
  end.

Definition rs_repairSymbols : st block (list RepairFrame) :=
  b ← st_get;
  if negb (isComplete b)
  then st_fail (ErrMsg "block does not have enough source symbols to generate repair symbols")
  else if MaxFECPacketBufferSize <? biggestSourceSymbolLenSoFar b
  then st_fail (ErrMsg "source symbol payload len is too big for FEC headers")
  else
    let n := totNumSourceSymbols b in
    shards ← sourceShards (seqZ 0 n);
    repairShard ← st_lift (sl_upto (mkSlice [] (zeros MaxPacketBufferSize))
                             (RepairPayloadMetadataLen + biggestSourceSymbolLenSoFar b));
    shards ← st_lift (Encode enc (shards ++ replicate (Z.to_nat (totNumRepairSymbols b)) repairShard));
    st_lift (repair_frames (b_id b) n 0 (Z.to_nat (totNumRepairSymbols b)) shards).

(** The first loop of the recovery: the shards of the present source symbols,
    nil for the missing ones, whose indices are collected. *)
Fixpoint presentShards (idx : list Z) : st block (list slice * list Z) :=
  match idx with
  | [] => mret ([], [])
  | i :: idx =>
      b ← st_get;
      let ssid := u64 (smallestSSID b + i) in
      match ssidToSourcePayload b !! ssid with
      | None =>
          '(shards, missing) ← presentShards idx;
          mret (slice_nil :: shards, i :: missing)
      | Some _ =>
          shard ← addLengthToSourceSymbolPayload ssid;
          '(shards, missing) ← presentShards idx;
          mret (shard :: shards, missing)
      end
  end.

(** [for parityID, payload := range b.pidToRepairPayload]. *)
Fixpoint place_repairs (n : Z) (l : list (Z * bytes)) (shards : list slice) : res (list slice) :=
  match l with
  | [] => Ok shards
  | (parityID, payload) :: l =>
      shards ← set_at shards (i64 (n + i64 parityID)) (mkSlice payload []);
      place_repairs n l shards
  end.

(** The payloads of the missing symbols, one after the other. *)
Fixpoint collect_missing (biggest : Z) (missing : list Z) (shards : list slice) : res bytes :=
  match missing with
  | [] => Ok []
  | i :: missing =>
      shard ← get_at shards i;
      hi ← get_at (sl_data shard) biggest;
      lo ← get_at (sl_data shard) (biggest + 1);
      payload ← sl_upto shard (joinLen hi lo);
      rest ← collect_missing biggest missing shards;
      Ok (sl_data payload ++ rest)
  end.

Definition rs_recoverSymbolPayloads : st block bytes :=
  b ← st_get;
  if negb (isRecoverable b)
  then st_fail (ErrMsg "not enough present symbols to repair the missing ones")
  else if isComplete b then mret []
  else
    let n := totNumSourceSymbols b in
    '(shards, missing) ← presentShards (seqZ 0 n);
    shards ← st_lift (place_repairs n (range _ (pidToRepairPayload b))
                        (shards ++ replicate (Z.to_nat (totNumRepairSymbols b)) slice_nil));
    shards ← st_lift (ReconstructData enc shards);
    st_lift (collect_missing (biggestSourceSymbolLenSoFar b) missing shards).

Definition reedSolomonScheme : BlockFECScheme := mkScheme rs_repairSymbols rs_recoverSymbolPayloads.

End rs.
End codes.

(** * The manager (manager.go) *)

Record blockStatus := mkBlockStatus { bs_block : option block; isProcessed : bool }.

Record manager := mkManager {
  scheme : BlockFECScheme;
  nextSID : Z;
  numTotSourceSymbols : Z;
  numTotRepairSymbols : Z;
  blockStatuses : gmap Z blockStatus;
}.

Definition set_statuses (m : manager) (s : gmap Z blockStatus) : manager :=
  mkManager (scheme m) (nextSID m) (numTotSourceSymbols m) (numTotRepairSymbols m) s.

Definition NewManager (scheme : BlockFECScheme) (numTotSourceSymbols numTotRepairSymbols : Z) : res manager :=
  if (numTotSourceSymbols <? 0) || (numTotRepairSymbols <? 0)
  then Err (ErrMsg "numTotSourceSymbols and numTotRepairSymbols may not be negative")
  else Ok (mkManager scheme 0 numTotSourceSymbols numTotRepairSymbols ∅).

(** [NewSender] and [NewReceiver] have the same body: nil when FEC is
    disabled, the XOR code over 2 + 1 symbols, Reed-Solomon over 20 + 10. *)
Section new.
Context (range : ∀ V : Type, gmap Z V → list (Z * V)).
Context (reedsolomon_New : Z → Z → res Encoder).

Definition NewSender (id : Z) : res (option manager) :=
  if id =? FECDisabled then Ok None
  else if id =? XORFECScheme then m ← NewManager (xorScheme range) 2 1; Ok (Some m)
  else if id =? ReedSolomonFECScheme then
    enc ← reedsolomon_New 20 10;
    m ← NewManager (reedSolomonScheme range enc) 20 10; Ok (Some m)
  else Err (ErrMsg "unknown FEC scheme").

Definition NewReceiver (id : Z) : res (option manager) :=
  if id =? FECDisabled then Ok None
  else if id =? XORFECScheme then m ← NewManager (xorScheme range) 2 1; Ok (Some m)
  else if id =? ReedSolomonFECScheme then
    enc ← reedsolomon_New 20 10;
    m ← NewManager (reedSolomonScheme range enc) 20 10; Ok (Some m)
  else Err (ErrMsg "unknown FEC scheme").
End new.

Definition NextSSID : st manager Z := λ m,
  (Ok (nextSID m), mkManager (scheme m) (u64 (nextSID m + 1)) (numTotSourceSymbols m)
                     (numTotRepairSymbols m) (blockStatuses m)).

Definition sidToBlockID (m : manager) (sid : Z) : res Z :=
  let n := u64 (numTotSourceSymbols m) in
  if n =? 0 then Panic "integer divide by zero" else Ok (sid / n).

(** [m.blockStatuses[blockID]], after creating the entry if there is none. *)
Definition getStatus (m : manager) (blockID : Z) : manager * blockStatus :=
  match blockStatuses m !! blockID with
  | Some bS => (m, bS)
  | None =>
      let bS := mkBlockStatus (Some (newBlock blockID (numTotSourceSymbols m) (numTotRepairSymbols m))) false in
      (set_statuses m (<[blockID := bS]> (blockStatuses m)), bS)
  end.

Definition putStatus (blockID : Z) (bS : blockStatus) (m : manager) : manager :=
  set_statuses m (<[blockID := bS]> (blockStatuses m)).

(** Runs a method of the block of a status; the block is shared, so that what
    the method writes stays in [m.blockStatuses] on every outcome. *)
Definition on_block {A} (blockID : Z) (bS : blockStatus) (op : st block A) : st manager (A * block) := λ m,
  match bs_block bS with
  | None => (Panic "invalid memory address or nil pointer dereference", m)
  | Some b =>
      let '(r, b) := op b in
      (a ← r; Ok (a, b), putStatus blockID (mkBlockStatus (Some b) (isProcessed bS)) m)
  end.

Definition dropped : blockStatus := mkBlockStatus None true.

Definition AddSourceSymbolFrame (f : SourceSymbolFrame) : st manager (list RepairFrame) :=
  m ← st_get;
  blockID ← st_lift (sidToBlockID m (ssf_SSID f));
  let '(m, bS) := getStatus m blockID in
  _ ← st_put m;
  if isProcessed bS then mret [] else
  '(_, b) ← on_block blockID bS (addSourceSymbol f);
  if isComplete b then
    '(repairSymbols, _) ← on_block blockID (mkBlockStatus (Some b) false) (repairSymbols (scheme m));
    _ ← st_modify (putStatus blockID dropped);
    mret repairSymbols
  else mret [].

Definition HandleRepairFrame (f : RepairFrame) : st manager bytes :=
  m ← st_get;
  let blockID := bm_BlockID (rf_Metadata f) in
  let '(m, bS) := getStatus m blockID in
  _ ← st_put m;
  if isProcessed bS then mret [] else
  '(_, b) ← on_block blockID bS (addRepairSymbol f);
  if isRecoverable b then
    '(sourceSymbolBytes, _) ← on_block blockID (mkBlockStatus (Some b) false)
                                (recoverSymbolPayloads (scheme m));
    _ ← st_modify (putStatus blockID dropped);
    mret sourceSymbolBytes
  else mret [].

Definition HandleSourceSymbolFrame (f : SourceSymbolFrame) : st manager bytes :=
  m ← st_get;
  blockID ← st_lift (sidToBlockID m (ssf_SSID f));
  let '(m, bS) := getStatus m blockID in
  _ ← st_put m;
  if isProcessed bS then mret [] else
  '(_, b) ← on_block blockID bS (addSourceSymbol f);
  _ ← (if isComplete b then st_modify (putStatus blockID dropped) else mret tt);
  mret (sl_data (ssf_Payload f)).

End fec.
