(* ===== verification/FecCodes.v ===== *)
(** Correctness of the block codes: the contract the manager relies on
    ([SchemeSpec]), and its proofs for the XOR code and, given an encoder that
    behaves as documented, for the Reed-Solomon code. *)

From S2P Require Import Prelude.
From S2P Require Import Varint.
From S2P Require Import Protocol.
From S2P Require Import Frames.
From S2P Require Import Fec.

Module codes.
Import protocol wire fec.

(** * Honest blocks

    A block protects [n] payloads; a copy of it holds some of them, and some
    of the repair payloads computed from them. *)

Definition payload_ok (p : bytes) : Prop :=
  p ≠ [] ∧ blen p ≤ MaxFECPacketBufferSize ∧ bytes_ok p.

Definition payloads_ok (n : Z) (ps : list bytes) : Prop := blen ps = n ∧ Forall payload_ok ps.

Fixpoint maxlen (ps : list bytes) : Z :=
  match ps with [] => 0 | p :: ps => Z.max (blen p) (maxlen ps) end.

(** The payloads that a map of source symbols holds or misses, when the
    symbols are numbered from [base]. *)
Fixpoint present (m : gmap Z slice) (base : Z) (ps : list bytes) : list bytes :=
  match ps with
  | [] => []
  | p :: ps => match m !! base with
               | Some _ => p :: present m (base + 1) ps
               | None => present m (base + 1) ps
               end
  end.

Fixpoint missing (m : gmap Z slice) (base : Z) (ps : list bytes) : list bytes :=
  match ps with
  | [] => []
  | p :: ps => match m !! base with
               | Some _ => missing m (base + 1) ps
               | None => p :: missing m (base + 1) ps
               end
  end.

Definition source_map (base : Z) (ps : list bytes) (m : gmap Z slice) : Prop :=
  ∀ x sl, m !! x = Some sl → ∃ i p, x = base + Z.of_nat i ∧ ps !! i = Some p ∧ sl = payload_slice p.

Definition repair_map (qs : list bytes) (m : gmap Z bytes) : Prop :=
  ∀ x q, m !! x = Some q → ∃ i, x = Z.of_nat i ∧ qs !! i = Some q.

Definition block_shape (id n r : Z) (b : block) : Prop :=
  b_id b = id ∧ smallestSSID b = id * n ∧ largestSSID b = id * n + n - 1 ∧
  totNumSourceSymbols b = n ∧ totNumRepairSymbols b = r ∧
  0 ≤ id ∧ 1 ≤ n ∧ 0 ≤ r ∧ id * n + n ≤ 2 ^ 62 ∧ n + r ≤ 2 ^ 30.

(** The block holds symbols of the payloads [ps] and repair symbols of [qs]. *)
Record honest (id n r : Z) (ps qs : list bytes) (b : block) : Prop := {
  honest_shape : block_shape id n r b;
  honest_sources : source_map (id * n) ps (ssidToSourcePayload b);
  honest_repairs : repair_map qs (pidToRepairPayload b);
}.

(** The contents of the payload buffers a block refers to stay the same. *)
Definition keeps_data (b b' : block) : Prop :=
  ∀ x, sl_data <$> ssidToSourcePayload b' !! x = sl_data <$> ssidToSourcePayload b !! x.

Fixpoint parity_frames (id : Z) (i : Z) (qs : list bytes) : list RepairFrame :=
  match qs with
  | [] => []
  | q :: qs => mkRepairFrame (mkBlockMetadata id i) q :: parity_frames id (i + 1) qs
  end.

(** * The contract of a block code *)

Class SchemeSpec (sch : BlockFECScheme) (n r : Z) := {
  (** the repair payloads of the payloads of a block *)
  parity : list bytes → list bytes;
  parity_shape : ∀ ps, payloads_ok n ps →
    blen (parity ps) = r ∧ Forall (λ q, blen q = maxlen ps + RepairPayloadMetadataLen) (parity ps);
  repair_spec : ∀ id ps b, payloads_ok n ps → honest id n r ps (parity ps) b →
    mlen (ssidToSourcePayload b) = n → biggestSourceSymbolLenSoFar b = maxlen ps →
    ∃ b', repairSymbols sch b = (Ok (parity_frames id 0 (parity ps)), b') ∧ keeps_data b b';
  recover_spec : ∀ id ps b, payloads_ok n ps → honest id n r ps (parity ps) b →
    n ≤ mlen (ssidToSourcePayload b) + mlen (pidToRepairPayload b) →
    mlen (ssidToSourcePayload b) < n → biggestSourceSymbolLenSoFar b = maxlen ps →
    ∃ b', recoverSymbolPayloads sch b = (Ok (concat (missing (ssidToSourcePayload b) (id * n) ps)), b');
}.

(** * Counting symbols *)

Lemma maxlen_ge p ps : p ∈ ps → blen p ≤ maxlen ps.
Proof. induction ps as [|q ps IH]; intros H; [by apply elem_of_nil in H|]. simpl. set_unfold. destruct H as [->|H]; [lia|]. specialize (IH H). lia. Qed.

Lemma maxlen_bound n ps : payloads_ok n ps → 0 ≤ maxlen ps ≤ MaxFECPacketBufferSize.
Proof.
  intros [_ H]. induction H as [|p ps [_ [Hp _]] _ IH]; simpl; [by vm_compute|].
  pose proof (blen_nonneg p). lia.
Qed.

Lemma source_map_delete base p ps m : source_map base (p :: ps) m → source_map (base + 1) ps (delete base m).
Proof.
  intros H x sl Hx. apply lookup_delete_Some in Hx as [Hne Hx].
  destruct (H x sl Hx) as ([|i] & q & -> & Hq & ->); [lia|]. exists i, q. split_and!; [lia|done|done].
Qed.

Lemma source_map_head base p ps m sl : source_map base (p :: ps) m → m !! base = Some sl → sl = payload_slice p.
Proof.
  intros H Hx. destruct (H _ _ Hx) as ([|i] & q & Hi & Hq & ->); [by simplify_eq/=|lia].
Qed.

Lemma present_ext m m' base ps : (∀ x, base ≤ x → m !! x = m' !! x) →
  present m base ps = present m' base ps ∧ missing m base ps = missing m' base ps.
Proof.
  revert base. induction ps as [|p ps IH]; intros base H; [done|]. simpl. rewrite H by lia.
  destruct (IH (base + 1)) as [-> ->]; [|done]. intros x Hx. apply H. lia.
Qed.

Lemma present_delete m base ps :
  present (delete base m) (base + 1) ps = present m (base + 1) ps ∧
  missing (delete base m) (base + 1) ps = missing m (base + 1) ps.
Proof. apply present_ext. intros x Hx. apply lookup_delete_ne. lia. Qed.

Lemma present_insert m base v ps :
  missing (<[base := v]> m) (base + 1) ps = missing m (base + 1) ps.
Proof. apply present_ext. intros x Hx. apply lookup_insert_ne. lia. Qed.

Lemma present_missing_Permutation m base ps : ps ≡ₚ present m base ps ++ missing m base ps.
Proof.
  revert base. induction ps as [|p ps IH]; intros base; [done|]. simpl. destruct (m !! base).
  - simpl. by constructor.
  - rewrite <- Permutation_middle. by constructor.
Qed.

Lemma source_map_nil base m : source_map base [] m → m = ∅.
Proof. intros H. apply map_empty. intros x. apply eq_None_not_Some. intros [sl Hx]. by destruct (H x sl Hx) as (? & ? & _ & ? & _). Qed.

(** The entries of an honest map are the payloads present. *)
Lemma map_to_list_present base ps m : source_map base ps m →
  (map_to_list m).*2 ≡ₚ payload_slice <$> present m base ps.
Proof.
  revert base m. induction ps as [|p ps IH]; intros base m H.
  { apply source_map_nil in H as ->. by rewrite map_to_list_empty. }
  simpl. destruct (present_delete m base ps) as [E _].
  pose proof (IH _ _ (source_map_delete _ _ _ _ H)) as IH'. rewrite E in IH'.
  destruct (m !! base) as [sl|] eqn:Hb; [|by rewrite delete_id in IH'].
  rewrite (source_map_head _ _ _ _ _ H Hb) in Hb.
  rewrite <- (insert_delete_id m base _ Hb), map_to_list_insert by apply lookup_delete_eq. simpl.
  rewrite IH'. destruct (present_ext m (<[base := payload_slice p]> (delete base m)) (base + 1) ps) as [<- _]; [|done].
  intros x Hx. rewrite lookup_insert_ne, lookup_delete_ne by lia. done.
Qed.

Lemma size_present base ps m : source_map base ps m → mlen m = blen (present m base ps).
Proof.
  intros H. unfold mlen, blen. f_equal. rewrite <- length_map_to_list, <- (length_fmap snd).
  rewrite (map_to_list_present base ps m H). by rewrite length_fmap.
Qed.

Lemma count_missing base ps m : source_map base ps m → mlen m + blen (missing m base ps) = blen ps.
Proof.
  intros H. rewrite (size_present base ps m H), <- blen_app. unfold blen.
  by rewrite <- (present_missing_Permutation m base ps).
Qed.

Lemma complete_missing base ps m : source_map base ps m → mlen m = blen ps → missing m base ps = [].
Proof.
  intros H Hm. pose proof (count_missing base ps m H). destruct (missing m base ps) as [|q l]; [done|].
  rewrite blen_cons in *. pose proof (blen_nonneg l). lia.
Qed.

Lemma missing_nil_lookup m base ps i p : missing m base ps = [] → ps !! i = Some p →
  is_Some (m !! (base + Z.of_nat i)).
Proof.
  revert base i. induction ps as [|q ps IH]; intros base [|i] Hm Hi; [done..| |]; simpl in *.
  - rewrite Z.add_0_r. destruct (m !! base); [done|by simplify_eq].
  - replace (base + Z.of_nat (S i)) with (base + 1 + Z.of_nat i) by lia. apply IH; [|done].
    by destruct (m !! base); simplify_eq.
Qed.

Lemma newBlock_shape id n r : 0 ≤ id → 1 ≤ n → 0 ≤ r → id * n + n ≤ 2 ^ 62 → n + r ≤ 2 ^ 30 →
  block_shape id n r (newBlock id n r).
Proof.
  intros. assert (0 ≤ id * n) by nia. unfold newBlock, block_shape; simpl.
  rewrite (u64_small n), (u64_small (id * n)) by lia. rewrite (u64_small (id * n + n - 1)) by lia.
  rewrite !i64_small by (rewrite ?i64_small; lia). split_and!; try done; lia.
Qed.

Lemma newBlock_honest id n r ps qs : 0 ≤ id → 1 ≤ n → 0 ≤ r → id * n + n ≤ 2 ^ 62 → n + r ≤ 2 ^ 30 →
  honest id n r ps qs (newBlock id n r).
Proof. intros. split; [by apply newBlock_shape|done|done]. Qed.

(** * The length bytes *)

Lemma joinLen_length p : sl_len p < 2048 → joinLen (highByte p) (lowByte p) = sl_len p.
Proof.
  intros H. unfold highByte, lowByte. apply Z.eqb_eq.
  refine (forall_below 2048 (λ n,
    joinLen (u8 (Z.shiftr (u16 n) 8)) (u8 (Z.land (u16 n) 0xFF)) =? n) _ (sl_len p) _).
  - vm_compute. reflexivity.
  - split; [apply blen_nonneg|done].
Qed.

(** * XOR of byte strings *)

Definition vxor : bytes → bytes → bytes := zip_with Z.lxor.
Definition vsum (L : Z) (l : list bytes) : bytes := foldr vxor (zeros L) l.

Lemma blen_vxor x y : blen x = blen y → blen (vxor x y) = blen x.
Proof. unfold blen, vxor. rewrite length_zip_with. lia. Qed.

Lemma vxor_comm x y : vxor x y = vxor y x.
Proof. revert y. induction x as [|a x IH]; intros [|b y]; simpl; [done..|]. by rewrite Z.lxor_comm, <- IH. Qed.

Lemma vxor_assoc x y z : vxor x (vxor y z) = vxor (vxor x y) z.
Proof.
  revert y z. induction x as [|a x IH]; intros [|b y] [|c z]; simpl; try done.
  by rewrite Z.lxor_assoc, <- IH.
Qed.

Lemma vxor_zeros x L : blen x = L → vxor x (zeros L) = x.
Proof.
  intros <-. unfold zeros. rewrite to_nat_blen.
  induction x as [|a x IH]; simpl; [done|]. by rewrite Z.lxor_0_r, IH.
Qed.

Lemma vxor_self x : vxor x x = zeros (blen x).
Proof.
  unfold zeros. rewrite to_nat_blen. induction x as [|a x IH]; simpl; [done|].
  by rewrite Z.lxor_nilpotent, IH.
Qed.

Lemma vxor_app a b c d : blen a = blen b → vxor (a ++ c) (b ++ d) = vxor a b ++ vxor c d.
Proof. intros H. apply zip_with_app. unfold blen in H. lia. Qed.

Lemma vsum_cons L x l : vsum L (x :: l) = vxor x (vsum L l).
Proof. done. Qed.

Lemma blen_vsum L l : 0 ≤ L → Forall (λ x, blen x = L) l → blen (vsum L l) = L.
Proof.
  intros HL. induction 1 as [|x l Hx _ IH]; simpl; [rewrite blen_zeros; lia|].
  rewrite blen_vxor; [done|]. by rewrite Hx, IH.
Qed.

Lemma vsum_Permutation L l l' : l ≡ₚ l' → vsum L l = vsum L l'.
Proof.
  induction 1 as [| |x y l|]; simpl; [done|by f_equal| |by etrans].
  by rewrite !vxor_assoc, (vxor_comm y x).
Qed.

Lemma vsum_app L l l' : 0 ≤ L → Forall (λ x, blen x = L) l' →
  vsum L (l ++ l') = vxor (vsum L l) (vsum L l').
Proof.
  intros HL Hl'. induction l as [|x l IH]; simpl.
  - rewrite vxor_comm, vxor_zeros; [done|]. by apply blen_vsum.
  - by rewrite IH, vxor_assoc.
Qed.

(** * Symbols

    A payload as the codes see it: padded to the length [b] of the longest
    payload, followed by its length, in a buffer of [L] bytes. *)
Definition symbol (b : Z) (p : slice) : bytes :=
  sl_data p ++ zeros (b - sl_len p) ++ [highByte p; lowByte p].

Definition wide (L b : Z) (p : slice) : bytes := symbol b p ++ zeros (L - (b + 2)).

Lemma blen_symbol b p : sl_len p ≤ b → blen (symbol b p) = b + 2.
Proof.
  intros. unfold symbol, sl_len in *. rewrite !blen_app, blen_zeros, !blen_cons, blen_nil; lia.
Qed.

Lemma blen_wide L b p : sl_len p ≤ b → b + 2 ≤ L → blen (wide L b p) = L.
Proof. intros. unfold wide. rewrite blen_app, blen_symbol, blen_zeros; lia. Qed.

Lemma xorRepair_spec acc p : blen p ≤ blen acc →
  xorRepair acc p = Ok (vxor acc (p ++ zeros (blen acc - blen p))).
Proof.
  revert acc. induction p as [|x p IH]; intros acc H.
  - simpl. rewrite Z.sub_0_r, vxor_zeros by done. by destruct acc.
  - destruct acc as [|a acc].
    { rewrite blen_cons, blen_nil in H. pose proof (blen_nonneg p). lia. }
    rewrite !blen_cons in *. simpl. rewrite IH by lia. simpl. do 4 f_equal. f_equal. lia.
Qed.

(** Setting an element in the middle of a list. *)
Lemma set_at_app {A} (l r : list A) x v i : blen l = i → set_at (l ++ x :: r) i v = Ok (l ++ v :: r).
Proof.
  intros <-. unfold set_at. rewrite blen_app, blen_cons. pose proof (blen_nonneg l). pose proof (blen_nonneg r).
  rewrite (proj2 (Z.ltb_ge _ _)), (proj2 (Z.leb_gt _ _)) by lia. simpl.
  by rewrite to_nat_blen, insert_app_r_alt, Nat.sub_diag by lia.
Qed.

Lemma get_at_app {A} (l r : list A) x i : blen l = i → get_at (l ++ x :: r) i = Ok x.
Proof. intros <-. apply get_at_lookup. by rewrite list_lookup_middle. Qed.

Lemma split_at (l : bytes) n : 0 ≤ n ≤ blen l → ∃ a c, l = a ++ c ∧ blen a = n.
Proof.
  intros H. exists (take (Z.to_nat n) l), (drop (Z.to_nat n) l). rewrite take_drop. split; [done|].
  unfold blen in *. rewrite length_take. lia.
Qed.

Lemma xor_spec L acc p b : blen acc = L → sl_len p ≤ b → b + 2 ≤ L →
  xor acc p b = Ok (vxor acc (wide L b p)).
Proof.
  intros HL Hp Hb. unfold xor, sl_len in *. pose proof (blen_nonneg (sl_data p)).
  rewrite xorRepair_spec by lia. simpl.
  destruct (split_at acc b) as (a & c & -> & Ha); [lia|]. rewrite blen_app in HL.
  destruct c as [|x [|y c]]; rewrite ?blen_cons, ?blen_nil in HL; [lia..|].
  replace (zeros (blen (a ++ x :: y :: c) - blen (sl_data p)))
    with (zeros (b - blen (sl_data p)) ++ 0 :: 0 :: zeros (L - (b + 2))).
  2:{ rewrite blen_app, !blen_cons. unfold zeros.
      replace (Z.to_nat (blen a + (1 + (1 + blen c)) - blen (sl_data p)))
        with (Z.to_nat (b - blen (sl_data p)) + (2 + Z.to_nat (L - (b + 2))))%nat by lia.
      by rewrite replicate_add. }
  unfold wide, symbol, sl_len. rewrite <- !app_assoc, !(app_assoc (sl_data p)). simpl.
  assert (Hz : blen a = blen (sl_data p ++ zeros (b - blen (sl_data p))))
    by (rewrite blen_app, blen_zeros; lia).
  rewrite !vxor_app by done. simpl. rewrite !Z.lxor_0_r.
  assert (Hv : blen (vxor a (sl_data p ++ zeros (b - blen (sl_data p)))) = b) by (rewrite blen_vxor; lia).
  rewrite get_at_app by done. simpl. rewrite set_at_app by done. simpl.
  rewrite (cons_middle (Z.lxor x (highByte p))), (app_assoc (vxor _ _) [_]).
  rewrite get_at_app by (rewrite blen_app, blen_cons, blen_nil; lia). simpl.
  rewrite set_at_app by (rewrite blen_app, blen_cons, blen_nil; lia). by rewrite <- app_assoc.
Qed.

Lemma xor_sources_spec L b l acc : blen acc = L → b + 2 ≤ L → 0 ≤ L →
  Forall (λ p, sl_len p ≤ b) l.*2 →
  xor_sources acc b l = Ok (vxor acc (vsum L (wide L b <$> l.*2))).
Proof.
  intros HL Hb HL0. revert acc HL. induction l as [|[s p] l IH]; intros acc HL Hl; simpl in *.
  - by rewrite vxor_zeros.
  - apply Forall_cons in Hl as [Hp Hl]. rewrite (xor_spec L) by done. simpl.
    rewrite IH; [by rewrite vxor_assoc| |done]. rewrite blen_vxor; [done|]. by rewrite blen_wide.
Qed.

(** * The XOR code meets the contract *)

Section xor_code.
Context (range : ∀ V : Type, gmap Z V → list (Z * V)).
Context (range_perm : ∀ V (m : gmap Z V), range V m ≡ₚ map_to_list m).

Definition xor_parity (ps : list bytes) : list bytes :=
  [vsum (maxlen ps + RepairPayloadMetadataLen) (symbol (maxlen ps) <$> (payload_slice <$> ps))].

Lemma sl_data_payload_slice p : sl_data (payload_slice p) = p.
Proof. by destruct p. Qed.

Lemma sl_len_payload_slice p : sl_len (payload_slice p) = blen p.
Proof. unfold sl_len. by rewrite sl_data_payload_slice. Qed.

Lemma slices_le ps qs : (∀ q, q ∈ qs → q ∈ ps) →
  Forall (λ p, sl_len p ≤ maxlen ps) (payload_slice <$> qs).
Proof.
  intros H. apply Forall_fmap, Forall_forall. intros q Hq. simpl.
  rewrite sl_len_payload_slice. by apply maxlen_ge, H.
Qed.

Lemma present_sub m base ps q : q ∈ present m base ps → q ∈ ps.
Proof. intros H. rewrite (present_missing_Permutation m base ps). set_solver. Qed.

(** The source symbols of a block, in the order of the iteration. *)
Lemma range_present base ps m : source_map base ps m →
  (range _ m).*2 ≡ₚ payload_slice <$> present m base ps.
Proof. intros H. rewrite range_perm. by apply map_to_list_present. Qed.

Lemma wide_symbol b p : wide (b + 2) b p = symbol b p.
Proof. unfold wide. rewrite Z.sub_diag. apply app_nil_r. Qed.

Lemma xor_present base ps m L acc : source_map base ps m → blen acc = L → maxlen ps + 2 ≤ L → 0 ≤ L →
  xor_sources acc (maxlen ps) (range _ m)
  = Ok (vxor acc (vsum L (wide L (maxlen ps) <$> (payload_slice <$> present m base ps)))).
Proof.
  intros H HL Hb HL0. rewrite (xor_sources_spec L) by
    (done || (rewrite (range_present base ps m H); apply slices_le; apply present_sub)).
  by rewrite (vsum_Permutation L _ _ (fmap_Permutation _ _ _ (range_present base ps m H))).
Qed.

Lemma xor_repairSymbols_spec id n ps b : payloads_ok n ps → honest id n 1 ps (xor_parity ps) b →
  mlen (ssidToSourcePayload b) = n → biggestSourceSymbolLenSoFar b = maxlen ps →
  xor_repairSymbols range b = (Ok (parity_frames id 0 (xor_parity ps)), b).
Proof.
  intros Hok [(Hid & _ & _ & Hn & Hr & _) Hs _] Hm Hb. pose proof (maxlen_bound n ps Hok).
  unfold xor_repairSymbols, isComplete. rewrite Hm, Hn, Z.eqb_refl, Hr, Hb. simpl.
  rewrite (proj2 (Z.ltb_ge _ _)) by lia. unfold RepairPayloadMetadataLen.
  rewrite (proj2 (Z.ltb_ge _ _)) by lia.
  rewrite (xor_present (id * n) ps _ (2 + maxlen ps)); [|done|rewrite blen_zeros; lia|lia..].
  assert (Hmiss : missing (ssidToSourcePayload b) (id * n) ps = []).
  { apply complete_missing; [done|]. by rewrite (proj1 Hok). }
  pose proof (present_missing_Permutation (ssidToSourcePayload b) (id * n) ps) as HP.
  rewrite Hmiss, app_nil_r in HP.
  rewrite <- (vsum_Permutation _ _ _ (fmap_Permutation _ _ _ (fmap_Permutation payload_slice _ _ HP))).
  unfold xor_parity, RepairPayloadMetadataLen. rewrite (Z.add_comm 2). simpl. do 4 f_equal.
  { by rewrite Hid. }
  rewrite vxor_comm, vxor_zeros.
  - f_equal. apply list_fmap_ext. intros _ p _. apply wide_symbol.
  - apply blen_vsum; [lia|]. apply Forall_fmap, (Forall_impl _ _ _ (slices_le ps ps ltac:(done))).
    intros p Hp. simpl. apply blen_wide; lia.
Qed.

Lemma vsum_symbols L b l : 0 ≤ b → b + 2 ≤ L → Forall (λ p, sl_len p ≤ b) l →
  vsum (b + 2) (symbol b <$> l) ++ zeros (L - (b + 2)) = vsum L (wide L b <$> l).
Proof.
  intros Hb HL. induction 1 as [|p l Hp Hl IH].
  - unfold vsum, zeros; simpl. rewrite <- replicate_add. f_equal. lia.
  - rewrite !fmap_cons, !vsum_cons, <- IH. unfold wide. rewrite vxor_app.
    + by rewrite vxor_zeros by (rewrite blen_zeros; lia).
    + rewrite blen_symbol, blen_vsum; [done|lia|by apply Forall_fmap; eapply Forall_impl; [done|]; intros; apply blen_symbol|done].
Qed.

Lemma repair_map_single q m : repair_map [q] m → 1 ≤ mlen m → m = {[0 := q]}.
Proof.
  intros H Hm. destruct (map_choose m) as (x & v & Hx).
  { intros ->. unfold mlen in Hm. rewrite map_size_empty in Hm. lia. }
  assert (Hall : ∀ y w, m !! y = Some w → y = 0 ∧ w = q).
  { intros y w Hy. destruct (H y w Hy) as ([|i] & -> & Hi); simpl in Hi; [by simplify_eq|done]. }
  destruct (Hall x v Hx) as [-> ->]. apply map_eq. intros y.
  destruct (m !! y) as [w|] eqn:Hy.
  - destruct (Hall y w Hy) as [-> ->]. by rewrite lookup_singleton_eq.
  - destruct (decide (y = 0)) as [->|]; [congruence|]. by rewrite lookup_singleton_ne.
Qed.

Lemma mlen_singleton {V} x (v : V) : mlen {[x := v]} = 1.
Proof. unfold mlen. by rewrite map_size_singleton. Qed.

(** The sum of all symbols and of the symbols present is the missing symbol. *)
Lemma vsum_cancel L l l' x : 0 ≤ L → Forall (λ x, blen x = L) (l ++ [x]) → l' ≡ₚ l ++ [x] →
  vxor (vsum L l') (vsum L l) = x.
Proof.
  intros HL Hl Hp. apply Forall_app in Hl as [Hl Hx]. apply Forall_cons in Hx as [Hx _].
  rewrite (vsum_Permutation L l' _ Hp), vsum_app by auto using Forall_cons_2, Forall_nil_2.
  pose proof (blen_vsum L l HL Hl) as Hlen. rewrite vsum_cons. simpl.
  rewrite (vxor_zeros x) by done. rewrite vxor_comm, vxor_assoc, vxor_self, Hlen, vxor_comm.
  by apply vxor_zeros.
Qed.

Lemma fill_missing_spec ps base m p fuel : 0 ≤ base → base + blen ps < 2 ^ 64 →
  (length ps < fuel)%nat →
  ∃ m', fill_missing fuel base (base + blen ps - 1) p m = Ok m' ∧
    mlen m' = mlen m + blen (missing m base ps).
Proof.
  revert base m fuel. induction ps as [|q ps IH]; intros base m fuel Hb Hu Hf;
    (destruct fuel as [|fuel]; [simpl in Hf; lia|]); cbn [fill_missing].
  - rewrite blen_nil, (proj2 (Z.ltb_lt _ _)) by lia. exists m. split; [done|]. simpl. rewrite blen_nil. lia.
  - rewrite blen_cons in *. pose proof (blen_nonneg ps). simpl in Hf.
    rewrite (proj2 (Z.ltb_ge _ _)), u64_small by lia.
    replace (base + (1 + blen ps) - 1) with (base + 1 + blen ps - 1) by lia. simpl.
    destruct (m !! base) eqn:E.
    + apply IH; lia.
    + destruct (IH (base + 1) (<[base := p]> m) fuel) as (m' & -> & Hm'); [lia..|].
      exists m'. split; [done|]. rewrite Hm', present_insert, blen_cons. unfold mlen.
      rewrite map_size_insert_None by done. lia.
Qed.

(** Reading the length and the payload of a recovered symbol. *)
Lemma read_wide L b p : sl_len p ≤ b → b + 2 ≤ L → sl_len p < 2048 →
  get_at (wide L b p) b = Ok (highByte p) ∧ get_at (wide L b p) (b + 1) = Ok (lowByte p) ∧
  ∃ rest, sl_upto (mkSlice (wide L b p) []) (sl_len p) = Ok (mkSlice (sl_data p) rest).
Proof.
  intros Hp HL H. pose proof (blen_nonneg (sl_data p)). unfold sl_len in *.
  pose proof (blen_wide L b p Hp HL) as Hw.
  assert (Ha : blen (sl_data p ++ zeros (b - blen (sl_data p))) = b)
    by (rewrite blen_app, blen_zeros; lia).
  assert (E : wide L b p = (sl_data p ++ zeros (b - blen (sl_data p))) ++ highByte p :: lowByte p :: zeros (L - (b + 2)))
    by (unfold wide, symbol, sl_len; by rewrite <- !app_assoc).
  split_and!.
  - rewrite E. by apply get_at_app.
  - rewrite E, (cons_middle (highByte p)), (app_assoc _ [_]). apply get_at_app.
    rewrite blen_app, blen_cons, blen_nil. lia.
  - unfold sl_upto, sl_cap; cbn [sl_data sl_spare]. rewrite Hw. change (blen []) with 0.
    rewrite (proj2 (Z.ltb_ge _ _)), (proj2 (Z.ltb_ge _ _)) by lia. simpl.
    eexists. do 2 f_equal. rewrite E, <- !app_assoc, to_nat_blen. by rewrite take_app_length.
Qed.

(** What the loops of the recovery compute: the symbol of the payload that is
    missing. *)
Lemma xor_recovered base n ps p b : payloads_ok n ps → source_map base ps (ssidToSourcePayload b) →
  pidToRepairPayload b = {[0 := vsum (maxlen ps + 2) (symbol (maxlen ps) <$> (payload_slice <$> ps))]} →
  missing (ssidToSourcePayload b) base ps = [p] →
  (recoveredSymbol ← xor_repairs (zeros MaxPacketBufferSize) (range _ (pidToRepairPayload b));
   xor_sources recoveredSymbol (maxlen ps) (range _ (ssidToSourcePayload b)))
  = Ok (wide MaxPacketBufferSize (maxlen ps) (payload_slice p)).
Proof.
  intros Hok Hs Hr Hm. pose proof (maxlen_bound n ps Hok) as Hb.
  assert (HL : maxlen ps + 2 ≤ MaxPacketBufferSize)
    by (unfold MaxFECPacketBufferSize, MaxFECHeaderOverhead in *; lia).
  assert (H0 : 0 ≤ MaxPacketBufferSize) by done.
  pose proof (range_perm _ (pidToRepairPayload b)) as HP.
  rewrite Hr, map_to_list_singleton in HP. apply Permutation_singleton_r in HP. rewrite Hr, HP.
  cbn [xor_repairs]. assert (Hall : Forall (λ p, sl_len p ≤ maxlen ps) (payload_slice <$> ps)) by by apply slices_le.
  assert (Hsym : blen (vsum (maxlen ps + 2) (symbol (maxlen ps) <$> (payload_slice <$> ps))) = maxlen ps + 2).
  { apply blen_vsum; [lia|]. apply Forall_fmap. eapply Forall_impl; [done|]. intros. by apply blen_symbol. }
  rewrite xorRepair_spec by (rewrite Hsym, blen_zeros; lia). cbn [mbind res_bind].
  rewrite Hsym, (blen_zeros MaxPacketBufferSize), vsum_symbols by (done || lia).
  assert (Hwide : ∀ q, q ∈ ps → blen (wide MaxPacketBufferSize (maxlen ps) (payload_slice q)) = MaxPacketBufferSize).
  { intros q Hq. apply blen_wide; [|done]. rewrite sl_len_payload_slice. by apply maxlen_ge. }
  assert (Hwides : ∀ qs, (∀ q, q ∈ qs → q ∈ ps) →
    Forall (λ x, blen x = MaxPacketBufferSize) (wide MaxPacketBufferSize (maxlen ps) <$> (payload_slice <$> qs))).
  { intros qs Hqs. apply Forall_fmap, Forall_fmap, Forall_forall. intros q Hq. simpl. auto. }
  rewrite (vxor_comm (zeros _)), vxor_zeros by (apply blen_vsum; [done|by apply Hwides]).
  rewrite (xor_present base ps _ MaxPacketBufferSize); [|done|apply blen_vsum; [done|by apply Hwides]|done..].
  pose proof (present_missing_Permutation (ssidToSourcePayload b) base ps) as Hperm. rewrite Hm in Hperm.
  f_equal. apply vsum_cancel; [done| |].
  - apply Forall_app. split; [apply Hwides, present_sub|]. constructor; [|constructor].
    apply Hwide. rewrite Hperm. set_solver.
  - rewrite Hperm at 2. by rewrite !fmap_app.
Qed.

Lemma xor_recover_spec id n ps b : payloads_ok n ps → honest id n 1 ps (xor_parity ps) b →
  n ≤ mlen (ssidToSourcePayload b) + mlen (pidToRepairPayload b) →
  mlen (ssidToSourcePayload b) < n → biggestSourceSymbolLenSoFar b = maxlen ps →
  ∃ b', xor_recoverSymbolPayloads range b
    = (Ok (concat (missing (ssidToSourcePayload b) (id * n) ps)), b').
Proof.
  intros Hok [(Hid & Hsm & Hla & Hn & Hr & ? & ? & ? & ? & _) Hs Hrep] Hge Hlt Hb.
  pose proof (maxlen_bound n ps Hok) as Hmax.
  assert (1 ≤ mlen (pidToRepairPayload b)) as Hone by lia.
  pose proof (repair_map_single _ _ Hrep Hone) as Hpid. rewrite Hpid, mlen_singleton in Hge.
  pose proof (count_missing _ _ _ Hs) as Hc. rewrite (proj1 Hok) in Hc.
  destruct (missing (ssidToSourcePayload b) (id * n) ps) as [|p [|q l]] eqn:Em;
    rewrite ?blen_cons, ?blen_nil in Hc; [lia| |pose proof (blen_nonneg l); lia].
  unfold xor_recoverSymbolPayloads, isRecoverable, isComplete.
  rewrite Hn, Hpid, mlen_singleton, (proj2 (Z.leb_le _ _)), (proj2 (Z.eqb_neq _ _)) by lia.
  cbn [negb]. rewrite <- Hpid, Hb.
  pose proof (xor_recovered (id * n) n ps p b Hok Hs Hpid Em) as HR.
  apply res_bind_inv in HR as (acc & Hacc & HR). rewrite Hacc. cbn [mbind res_bind]. rewrite HR. cbn [mbind res_bind].
  assert (Hp : blen p ≤ maxlen ps).
  { apply maxlen_ge. rewrite (present_missing_Permutation (ssidToSourcePayload b) (id * n) ps), Em. set_solver. }
  unfold MaxFECPacketBufferSize, MaxFECHeaderOverhead, MaxPacketBufferSize in Hmax.
  destruct (read_wide MaxPacketBufferSize (maxlen ps) (payload_slice p)) as (-> & -> & rest & Hup);
    rewrite ?sl_len_payload_slice; [done|unfold MaxPacketBufferSize; lia..|]. cbn [mbind res_bind].
  rewrite joinLen_length by (rewrite sl_len_payload_slice; lia). rewrite Hup. cbn [mbind res_bind].
  unfold fill_fuel. rewrite Hla, Hsm. replace (id * n + n - 1) with (id * n + blen ps - 1) by (rewrite (proj1 Hok); lia).
  destruct (fill_missing_spec ps (id * n) (ssidToSourcePayload b) (mkSlice (sl_data (payload_slice p)) rest)
    (S (Z.to_nat (id * n + blen ps - 1 - id * n + 1)))) as (m' & -> & Hm').
  { nia. } { rewrite (proj1 Hok). lia. } { unfold blen. lia. }
  cbn [mbind res_bind]. cbn [ssidToSourcePayload set_sources totNumSourceSymbols].
  rewrite Hm', Em, blen_cons, blen_nil, Hn, (proj2 (Z.eqb_eq _ _)) by lia. simpl.
  eexists. do 2 f_equal. by rewrite sl_data_payload_slice, app_nil_r.
Qed.

#[export] Instance xorScheme_spec n : SchemeSpec (xorScheme range) n 1.
Proof.
  refine {| parity := xor_parity |}.
  - intros ps Hok. pose proof (maxlen_bound n ps Hok). split; [done|].
    constructor; [|constructor]. apply blen_vsum; [unfold RepairPayloadMetadataLen; lia|].
    apply Forall_fmap. eapply Forall_impl; [by apply (slices_le ps ps)|]. intros. by apply blen_symbol.
  - intros id ps b Hok Hh Hm Hb. exists b. split; [by apply (xor_repairSymbols_spec id n)|by intros x].
  - intros id ps b. apply xor_recover_spec.
Defined.

End xor_code.
(** * The Reed-Solomon code meets the contract *)

Definition nonempty (s : slice) : bool := negb (bool_decide (sl_data s = [])).

(** The documented behaviour of an encoder for [n] data shards and [r] parity
    shards: [Encode] keeps the data shards and computes the parity shards;
    [ReconstructData], given at least [n] of the shards and nil for the
    others, fills in the data shards. *)
Class ReedSolomonCode (enc : Encoder) (n r : Z) := {
  rs_parity : list bytes → list bytes;
  rs_parity_shape : ∀ L ds, 0 < L → blen ds = n → Forall (λ d, blen d = L) ds →
    blen (rs_parity ds) = r ∧ Forall (λ d, blen d = L) (rs_parity ds);
  Encode_spec : ∀ L data par, 0 < L → blen data = n → blen par = r →
    Forall (λ s, sl_len s = L) data → Forall (λ s, sl_len s = L) par →
    ∃ par', Encode enc (data ++ par) = Ok (data ++ par') ∧
      sl_data <$> par' = rs_parity (sl_data <$> data);
  ReconstructData_spec : ∀ L ds shards, 0 < L → blen ds = n → Forall (λ d, blen d = L) ds →
    Forall2 (λ s d, sl_data s = [] ∨ sl_data s = d) shards (ds ++ rs_parity ds) →
    n ≤ blen (filter nonempty shards) →
    ∃ shards', ReconstructData enc shards = Ok shards' ∧ take (Z.to_nat n) (sl_data <$> shards') = ds;
}.

Section rs_code.
Context (range : ∀ V : Type, gmap Z V → list (Z * V)).
Context (range_perm : ∀ V (m : gmap Z V), range V m ≡ₚ map_to_list m).
Context (enc : Encoder) (n r : Z) `{!ReedSolomonCode enc n r}.

Abbreviation sym ps := (λ p, symbol (maxlen ps) (payload_slice p)) (only parsing).

Lemma payload_slice_ok p : payload_ok p → payload_slice p = mkSlice p (zeros (MaxPacketBufferSize - blen p)).
Proof. intros [Hp _]. by destruct p. Qed.

Lemma zeros_add a b : 0 ≤ a → 0 ≤ b → zeros (a + b) = zeros a ++ zeros b.
Proof. intros. unfold zeros. rewrite Z2Nat.inj_add by done. apply replicate_add. Qed.

Lemma take_app_blen {A} (l l' : list A) i : blen l = i → take (Z.to_nat i) (l ++ l') = l.
Proof. intros <-. rewrite to_nat_blen. apply take_app_length. Qed.

Lemma drop_app_blen {A} (l l' : list A) i : blen l = i → drop (Z.to_nat i) (l ++ l') = l'.
Proof. intros <-. rewrite to_nat_blen. apply drop_app_length. Qed.

(** A slice cut after [i] bytes of its buffer. *)
Lemma sl_upto_app l l' d sp i : d ++ sp = l ++ l' → blen l = i →
  sl_upto (mkSlice d sp) i = Ok (mkSlice l l').
Proof.
  intros E Hi. unfold sl_upto, sl_cap; cbn [sl_data sl_spare]. rewrite <- blen_app, E, blen_app.
  pose proof (blen_nonneg l). pose proof (blen_nonneg l').
  rewrite (proj2 (Z.ltb_ge _ _)), (proj2 (Z.ltb_ge _ _)) by lia. cbn [orb].
  by rewrite take_app_blen, drop_app_blen.
Qed.

Lemma addLength_spec x p b B : payload_ok p → ssidToSourcePayload b !! x = Some (payload_slice p) →
  biggestSourceSymbolLenSoFar b = B → blen p ≤ B ≤ MaxFECPacketBufferSize →
  ∃ sp sp', addLengthToSourceSymbolPayload x b =
    (Ok (mkSlice (symbol B (payload_slice p)) sp),
     set_sources b (<[x := mkSlice p sp']> (ssidToSourcePayload b))).
Proof.
  intros Hp Hx HB HpB. pose proof (blen_nonneg p).
  unfold addLengthToSourceSymbolPayload. rewrite Hx, HB. unfold RepairPayloadMetadataLen.
  unfold MaxFECPacketBufferSize, MaxFECHeaderOverhead in HpB.
  rewrite sl_len_payload_slice. unfold symbol. rewrite sl_data_payload_slice, sl_len_payload_slice.
  generalize (highByte (payload_slice p)), (lowByte (payload_slice p)). intros hi lo.
  rewrite (payload_slice_ok p Hp). unfold sl_cap; cbn [sl_data sl_spare].
  rewrite blen_zeros by lia. rewrite (proj2 (Z.ltb_ge _ _)) by lia.
  assert (E : p ++ zeros (MaxPacketBufferSize - blen p) =
              ((p ++ zeros (B - blen p)) ++ [0; 0]) ++ zeros (MaxPacketBufferSize - (B + 2))).
  { rewrite <- !app_assoc. f_equal. change [0; 0] with (zeros 2).
    rewrite <- !zeros_add by lia. f_equal. lia. }
  assert (Hlen : blen (p ++ zeros (B - blen p)) = B) by (rewrite blen_app, blen_zeros; lia).
  rewrite (sl_upto_app _ _ _ _ (2 + B) E) by (rewrite blen_app, Hlen, !blen_cons, blen_nil; lia).
  cbn [mbind res_bind sl_data sl_spare]. rewrite set_at_app by done. cbn [mbind res_bind].
  rewrite (cons_middle hi), (app_assoc _ [hi]).
  rewrite set_at_app by (rewrite blen_app, blen_cons, blen_nil; lia). cbn [mbind res_bind].
  rewrite <- (app_assoc _ [hi] [lo]). cbn [app].
  erewrite (sl_upto_app p); [|by rewrite <- !app_assoc|done].
  eexists _, _. by rewrite <- app_assoc.
Qed.

Lemma keeps_data_set x b p sp : ssidToSourcePayload b !! x = Some (payload_slice p) →
  keeps_data b (set_sources b (<[x := mkSlice p sp]> (ssidToSourcePayload b))).
Proof.
  intros Hx y. simpl. destruct (decide (x = y)) as [<-|].
  - rewrite lookup_insert_eq, Hx. simpl. by rewrite sl_data_payload_slice.
  - by rewrite lookup_insert_ne.
Qed.

(** The indices of the symbols missing, and the shards of the others. *)
Fixpoint missing_idx (m : gmap Z slice) (base i : Z) (ps : list bytes) : list Z :=
  match ps with
  | [] => []
  | _ :: ps => match m !! (base + i) with
               | Some _ => missing_idx m base (i + 1) ps
               | None => i :: missing_idx m base (i + 1) ps
               end
  end.

Fixpoint shard_list (B : Z) (m : gmap Z slice) (base : Z) (ps : list bytes) : list bytes :=
  match ps with
  | [] => []
  | p :: ps => match m !! base with
               | Some _ => symbol B (payload_slice p)
               | None => []
               end :: shard_list B m (base + 1) ps
  end.

Lemma missing_idx_ext m m' base i ps : (∀ x, base + i ≤ x → m !! x = m' !! x) →
  missing_idx m base i ps = missing_idx m' base i ps.
Proof.
  revert i. induction ps as [|p ps IH]; intros i H; [done|]. simpl. rewrite H by lia.
  rewrite (IH (i + 1)); [done|]. intros x Hx. apply H. lia.
Qed.

Lemma shard_list_ext B m m' base ps : (∀ x, base ≤ x → m !! x = m' !! x) →
  shard_list B m base ps = shard_list B m' base ps.
Proof.
  revert base. induction ps as [|p ps IH]; intros base H; [done|]. simpl. rewrite H by lia.
  rewrite (IH (base + 1)); [done|]. intros x Hx. apply H. lia.
Qed.

Definition clean (m : gmap Z slice) (base : Z) (ps : list bytes) : Prop :=
  ∀ j p, ps !! j = Some p →
    m !! (base + Z.of_nat j) = None ∨ m !! (base + Z.of_nat j) = Some (payload_slice p).

Lemma clean_cons m base p ps v : clean m base (p :: ps) →
  (m !! base = None ∨ m !! base = Some (payload_slice p)) ∧
  clean m (base + 1) ps ∧ clean (<[base := v]> m) (base + 1) ps.
Proof.
  intros H. split_and!.
  - specialize (H 0%nat p eq_refl). by rewrite Z.add_0_r in H.
  - intros j q Hq. specialize (H (S j) q Hq). by replace (base + 1 + Z.of_nat j) with (base + Z.of_nat (S j)) by lia.
  - intros j q Hq. specialize (H (S j) q Hq). rewrite lookup_insert_ne by lia.
    by replace (base + 1 + Z.of_nat j) with (base + Z.of_nat (S j)) by lia.
Qed.

Lemma seqZ_blen_cons {A} i (x : A) l : seqZ i (blen (x :: l)) = i :: seqZ (i + 1) (blen l).
Proof.
  pose proof (blen_nonneg l). rewrite blen_cons, seqZ_cons by lia. f_equal. f_equal; lia.
Qed.

Definition sized (B : Z) (p : bytes) : Prop := payload_ok p ∧ blen p ≤ B.

Lemma presentShards_spec ps i b B : Forall (sized B) ps → B ≤ MaxFECPacketBufferSize →
  biggestSourceSymbolLenSoFar b = B → 0 ≤ smallestSSID b + i →
  smallestSSID b + i + blen ps ≤ 2 ^ 64 → clean (ssidToSourcePayload b) (smallestSSID b + i) ps →
  ∃ shards b', presentShards (seqZ i (blen ps)) b =
      (Ok (shards, missing_idx (ssidToSourcePayload b) (smallestSSID b) i ps), b') ∧
    sl_data <$> shards = shard_list B (ssidToSourcePayload b) (smallestSSID b + i) ps.
Proof.
  intros Hps HB. revert i b. induction Hps as [|p ps [Hp HpB] _ IH]; intros i b Hbig H0 H64 Hcl.
  { by exists [], b. }
  rewrite seqZ_blen_cons. rewrite blen_cons in H64. pose proof (blen_nonneg ps). cbn [presentShards].
  unfold mbind at 1, st_bind at 1, st_get. rewrite u64_small by lia.
  cbn [missing_idx shard_list].
  destruct (clean_cons _ _ _ _ slice_nil Hcl) as [[Hx|Hx] [Hcl' _]]; rewrite Hx.
  - destruct (IH (i + 1) b) as (shards & b' & E & Hd); [done|lia..|by rewrite Z.add_assoc|].
    exists (slice_nil :: shards), b'. rewrite (st_bind_ok _ _ _ _ _ E). split; [done|].
    rewrite fmap_cons, Hd. by rewrite Z.add_assoc.
  - destruct (addLength_spec _ p b B Hp Hx Hbig ltac:(done)) as (sp & sp' & E).
    rewrite (st_bind_ok _ _ _ _ _ E).
    destruct (clean_cons _ _ _ _ (mkSlice p sp') Hcl) as (_ & _ & Hcl'').
    set (b1 := set_sources _ _) in *.
    destruct (IH (i + 1) b1) as (shards & b' & E' & Hd); [done|simpl; lia..|simpl; by rewrite Z.add_assoc|].
    rewrite (st_bind_ok _ _ _ _ _ E'). eexists (_ :: shards), b'. split.
    + unfold mret, st_ret. do 3 f_equal. apply missing_idx_ext. intros y Hy. apply lookup_insert_ne. lia.
    + rewrite fmap_cons, Hd. simpl. f_equal. rewrite Z.add_assoc. apply shard_list_ext.
      intros y Hy. apply lookup_insert_ne. lia.
Qed.

Lemma sourceShards_spec ps i b B : Forall (sized B) ps → B ≤ MaxFECPacketBufferSize →
  biggestSourceSymbolLenSoFar b = B → 0 ≤ smallestSSID b + i →
  smallestSSID b + i + blen ps ≤ 2 ^ 64 →
  (∀ j p, ps !! j = Some p →
     ssidToSourcePayload b !! (smallestSSID b + i + Z.of_nat j) = Some (payload_slice p)) →
  ∃ shards b', sourceShards (seqZ i (blen ps)) b = (Ok shards, b') ∧
    sl_data <$> shards = (λ p, symbol B (payload_slice p)) <$> ps ∧ keeps_data b b'.
Proof.
  intros Hps HB. revert i b. induction Hps as [|p ps [Hp HpB] _ IH]; intros i b Hbig H0 H64 Hcl.
  { by exists [], b. }
  rewrite seqZ_blen_cons. rewrite blen_cons in H64. pose proof (blen_nonneg ps). cbn [sourceShards].
  unfold mbind at 1, st_bind at 1, st_get. rewrite u64_small by lia.
  pose proof (Hcl 0%nat p eq_refl) as Hx. rewrite Z.add_0_r in Hx.
  destruct (addLength_spec _ p b B Hp Hx Hbig ltac:(done)) as (sp & sp' & E).
  rewrite (st_bind_ok _ _ _ _ _ E). pose proof (keeps_data_set _ b p sp' Hx) as Hk.
  set (b1 := set_sources _ _) in *.
  destruct (IH (i + 1) b1) as (shards & b' & E' & Hd & Hk'); [done|simpl; lia..| |].
  { intros j q Hq. simpl. rewrite lookup_insert_ne by lia. specialize (Hcl (S j) q Hq).
    by replace (smallestSSID b + (i + 1) + Z.of_nat j) with (smallestSSID b + i + Z.of_nat (S j)) by lia. }
  rewrite (st_bind_ok _ _ _ _ _ E'). eexists _, b'. split_and!; [done|by rewrite !fmap_cons, Hd|].
  intros x. by rewrite Hk', Hk.
Qed.

Definition rs_scheme_parity (ps : list bytes) : list bytes :=
  rs_parity ((λ p, symbol (maxlen ps) (payload_slice p)) <$> ps).

Lemma symbols_len ps : Forall (λ d, blen d = maxlen ps + 2)
  ((λ p, symbol (maxlen ps) (payload_slice p)) <$> ps).
Proof.
  apply Forall_fmap, Forall_forall. intros p Hp. simpl. apply blen_symbol.
  rewrite sl_len_payload_slice. by apply maxlen_ge.
Qed.

Lemma sized_all ps : payloads_ok n ps → Forall (sized (maxlen ps)) ps.
Proof.
  intros [_ H]. rewrite Forall_forall in H. apply Forall_forall. intros p Hp.
  split; [by apply H|by apply maxlen_ge].
Qed.

Lemma repair_frames_spec id par data i : blen data = n + i →
  repair_frames id n i (length par) (data ++ par) = Ok (parity_frames id i (sl_data <$> par)).
Proof.
  revert data i. induction par as [|s par IH]; intros data i H; [done|]. cbn [length repair_frames].
  rewrite get_at_app by done. cbn [mbind res_bind].
  rewrite (cons_middle s), (app_assoc data). rewrite (IH (data ++ [s])); [done|].
  rewrite blen_app, blen_cons, blen_nil. lia.
Qed.

Lemma sl_len_data (l : list slice) L : Forall (λ d, blen d = L) (sl_data <$> l) → Forall (λ s, sl_len s = L) l.
Proof. by rewrite Forall_fmap. Qed.

Lemma blen_fmap {A B} (f : A → B) l : blen (f <$> l) = blen l.
Proof. unfold blen. by rewrite length_fmap. Qed.

Lemma rs_scheme_parity_shape ps : payloads_ok n ps →
  blen (rs_scheme_parity ps) = r ∧ Forall (λ q, blen q = maxlen ps + 2) (rs_scheme_parity ps).
Proof.
  intros Hok. pose proof (maxlen_bound n ps Hok).
  apply rs_parity_shape; [lia| |apply symbols_len]. by rewrite blen_fmap, (proj1 Hok).
Qed.

Lemma rs_repairSymbols_spec id ps b : payloads_ok n ps → honest id n r ps (rs_scheme_parity ps) b →
  mlen (ssidToSourcePayload b) = n → biggestSourceSymbolLenSoFar b = maxlen ps →
  ∃ b', rs_repairSymbols enc b = (Ok (parity_frames id 0 (rs_scheme_parity ps)), b') ∧ keeps_data b b'.
Proof.
  intros Hok [(Hid & Hsm & Hla & Hn & Hr & ? & ? & ? & ? & ?) Hs _] Hm Hb.
  pose proof (maxlen_bound n ps Hok) as Hmax. pose proof (proj1 Hok) as Hlen.
  unfold rs_repairSymbols. unfold mbind at 1, st_bind at 1, st_get. unfold isComplete.
  rewrite Hm, Hn, Z.eqb_refl, Hb, Hr, Hid. cbn [negb].
  rewrite (proj2 (Z.ltb_ge _ _)) by lia. rewrite <- Hlen.
  pose proof (complete_missing _ _ _ Hs ltac:(by rewrite Hlen)) as Hmiss.
  destruct (sourceShards_spec ps 0 b (maxlen ps)) as (shards & b' & E & Hd & Hk);
    [by apply sized_all|lia|done|lia|rewrite Hlen; lia| |].
  { intros j p Hj. rewrite Z.add_0_r, Hsm. destruct (missing_nil_lookup _ _ _ j p Hmiss Hj) as [sl Hsl].
    rewrite Hsl. f_equal. destruct (Hs _ _ Hsl) as (j' & p' & Ej & Hj' & ->).
    assert (j' = j) as -> by lia. by simplify_eq. }
  rewrite (st_bind_ok _ _ _ _ _ E). cbn [sl_data sl_spare].
  assert (Hz : zeros MaxPacketBufferSize = zeros (RepairPayloadMetadataLen + maxlen ps) ++
                 zeros (MaxPacketBufferSize - (RepairPayloadMetadataLen + maxlen ps))).
  { unfold MaxFECPacketBufferSize, MaxFECHeaderOverhead, RepairPayloadMetadataLen in *.
    rewrite <- zeros_add by lia. f_equal. lia. }
  unfold RepairPayloadMetadataLen in *.
  rewrite (sl_upto_app _ _ [] _ _ Hz) by (apply blen_zeros; lia).
  unfold mbind at 1, st_bind at 1, st_lift at 1.
  destruct (Encode_spec (enc := enc) (maxlen ps + 2) shards
    (replicate (Z.to_nat r) (mkSlice (zeros (2 + maxlen ps)) (zeros (MaxPacketBufferSize - (2 + maxlen ps))))))
    as (par' & HE & Hpar); [lia| | | | |].
  { rewrite <- (blen_fmap sl_data), Hd, blen_fmap. done. }
  { unfold blen. rewrite length_replicate. lia. }
  { apply sl_len_data. rewrite Hd. apply symbols_len. }
  { apply Forall_replicate. unfold sl_len. simpl. rewrite blen_zeros; lia. }
  rewrite HE. unfold mbind at 1, st_bind at 1, st_lift at 1.
  assert (Hr' : Z.to_nat r = length par').
  { destruct (rs_scheme_parity_shape ps Hok) as [Hl _]. unfold rs_scheme_parity in Hl.
    rewrite <- Hd, <- Hpar, blen_fmap in Hl. unfold blen in Hl. lia. }
  exists b'. split; [|done]. unfold st_lift. rewrite Hr', Hlen, repair_frames_spec.
  - unfold rs_scheme_parity. by rewrite Hpar, Hd.
  - rewrite <- (blen_fmap sl_data), Hd, blen_fmap. lia.
Qed.

(** ** Recovery *)

(** The parity part of the shards, as a table over the parity IDs. *)
Definition repair_shard (m : gmap Z bytes) (i : Z) : slice :=
  match m !! i with Some q => mkSlice q [] | None => slice_nil end.

Definition repair_table (m : gmap Z bytes) : list slice := repair_shard m <$> seqZ 0 r.

Lemma repair_table_insert shards m k q : 0 ≤ k < r → n + r < 2 ^ 63 → blen shards = n →
  set_at (shards ++ repair_table m) (i64 (n + i64 k)) (mkSlice q [])
  = Ok (shards ++ repair_table (<[k := q]> m)).
Proof.
  intros Hk Hnr Hl. pose proof (blen_nonneg shards).
  rewrite (i64_small k), i64_small by lia.
  unfold repair_table. replace r with (k + (1 + (r - k - 1))) by lia.
  rewrite !seqZ_app, (seqZ_cons (0 + k)) by lia. simpl. rewrite !fmap_app. simpl.
  rewrite !app_assoc. rewrite set_at_app.
  2:{ rewrite blen_app, blen_fmap. unfold blen at 2. rewrite length_seqZ. lia. }
  assert (Hext : ∀ l : list Z, (∀ x, x ∈ l → x ≠ k) → repair_shard (<[k := q]> m) <$> l = repair_shard m <$> l).
  { intros l Hl'. apply list_fmap_ext. intros i x Hx. unfold repair_shard.
    rewrite lookup_insert_ne; [done|]. intros ->. by eapply Hl'; [eapply list_elem_of_lookup_2|]. }
  rewrite !Hext.
  - rewrite Z.add_0_l. unfold repair_shard at 4. by rewrite lookup_insert_eq.
  - intros x Hx. apply elem_of_seqZ in Hx. lia.
  - intros x Hx. apply elem_of_seqZ in Hx. lia.
Qed.

Fixpoint insert_all (l : list (Z * bytes)) (m : gmap Z bytes) : gmap Z bytes :=
  match l with [] => m | (k, q) :: l => insert_all l (<[k := q]> m) end.

Lemma insert_all_union l m : NoDup l.*1 → insert_all l m = list_to_map l ∪ m.
Proof.
  revert m. induction l as [|[k q] l IH]; intros m Hl; simpl in *; [by rewrite (left_id_L ∅ (∪))|].
  apply NoDup_cons in Hl as [Hk Hl]. rewrite IH by done.
  rewrite <- insert_union_r, insert_union_l; [done|]. by apply not_elem_of_list_to_map_1.
Qed.

Lemma place_repairs_table l shards m : Forall (λ kq, 0 ≤ kq.1 < r) l → n + r < 2 ^ 63 → blen shards = n →
  place_repairs n l (shards ++ repair_table m) = Ok (shards ++ repair_table (insert_all l m)).
Proof.
  intros Hl Hnr Hs. revert m. induction Hl as [|[k q] l Hk _ IH]; intros m; [done|].
  cbn [place_repairs]. rewrite repair_table_insert by done. apply IH.
Qed.

Lemma insert_all_range m : insert_all (range _ m) ∅ = m.
Proof.
  assert (Hnd : NoDup (range _ m).*1) by (rewrite range_perm; apply NoDup_fst_map_to_list).
  rewrite insert_all_union by done. rewrite (right_id_L ∅ (∪)).
  rewrite <- (list_to_map_to_list m) at 2. by apply list_to_map_proper.
Qed.

Lemma repair_table_empty : repair_table ∅ = replicate (Z.to_nat r) slice_nil.
Proof.
  apply list_eq. intros i. unfold repair_table. rewrite list_lookup_fmap.
  destruct (decide (i < Z.to_nat r)%nat).
  - rewrite lookup_seqZ_lt, lookup_replicate_2 by lia. done.
  - rewrite lookup_seqZ_ge by lia. symmetry. apply lookup_replicate_None. lia.
Qed.

(** Counting the shards that are present. *)
Lemma filter_fmap_len {A} (f : A → slice) (P : A → bool) l : (∀ x, x ∈ l → nonempty (f x) = P x) →
  blen (filter nonempty (f <$> l)) = blen (filter P l).
Proof.
  induction l as [|x l IH]; intros H; [done|]. rewrite fmap_cons, !filter_cons.
  rewrite (H x) by set_solver. assert (Hl : ∀ x, x ∈ l → nonempty (f x) = P x) by set_solver.
  specialize (IH Hl). destruct (decide (P x)); rewrite ?blen_cons, IH; done.
Qed.

Lemma repair_table_count qs m : repair_map qs m → blen qs = r → Forall (λ q, q ≠ []) qs →
  blen (filter nonempty (repair_table m)) = mlen m.
Proof.
  intros Hm Hr Hq. unfold repair_table. rewrite (filter_fmap_len _ (λ i, bool_decide (is_Some (m !! i)))).
  - unfold mlen, blen. f_equal. rewrite <- length_map_to_list, <- (length_fmap fst).
    apply Permutation_length, NoDup_Permutation.
    + apply NoDup_filter, NoDup_seqZ.
    + apply NoDup_fst_map_to_list.
    + intros i. rewrite list_elem_of_filter, elem_of_seqZ, bool_decide_spec. split.
      * intros [[q Hi] _]. apply list_elem_of_fmap. exists (i, q). split; [done|]. by apply elem_of_map_to_list.
      * intros Hi. apply list_elem_of_fmap in Hi as ([k q] & -> & Hi). apply elem_of_map_to_list in Hi.
        split; [by exists q|]. destruct (Hm _ _ Hi) as (j & -> & Hj). apply lookup_lt_Some in Hj.
        simpl. unfold blen in Hr. lia.
  - intros i _. unfold repair_shard, nonempty. destruct (m !! i) as [q|] eqn:Hi; [|done]. simpl.
    destruct (Hm _ _ Hi) as (j & -> & Hj). rewrite Forall_lookup in Hq. specialize (Hq _ _ Hj).
    by rewrite bool_decide_eq_false_2.
Qed.

Lemma shard_list_relates B m base ps : Forall2 (λ s d, s = [] ∨ s = d)
  (shard_list B m base ps) ((λ p, symbol B (payload_slice p)) <$> ps).
Proof.
  revert base. induction ps as [|p ps IH]; intros base; simpl; [done|].
  constructor; [destruct (m !! base); auto|apply IH].
Qed.

Lemma shard_list_count B m base ps (shards : list slice) : sl_data <$> shards = shard_list B m base ps →
  Forall (sized B) ps → blen (filter nonempty shards) = blen (present m base ps).
Proof.
  intros H Hps. revert base shards H. induction Hps as [|p ps [[Hp _] _] _ IH]; intros base shards H.
  { by destruct shards. }
  destruct shards as [|s shards]; [done|]. rewrite fmap_cons in H. cbn [shard_list] in H. simplify_eq.
  rename select (sl_data <$> shards = _) into Hs. rename select (sl_data s = _) into Hh.
  specialize (IH _ _ Hs). cbn [present]. destruct (m !! base).
  - rewrite filter_cons_True.
    + by rewrite !blen_cons, IH.
    + unfold nonempty. rewrite Hh, bool_decide_eq_false_2; [done|].
      unfold symbol. rewrite sl_data_payload_slice. by destruct p.
  - rewrite filter_cons_False; [done|]. unfold nonempty. rewrite Hh, bool_decide_eq_true_2 by done. by intros [].
Qed.

Lemma repair_table_relates qs m : repair_map qs m → blen qs = r →
  Forall2 (λ s d, sl_data s = [] ∨ sl_data s = d) (repair_table m) qs.
Proof.
  intros Hm Hr. apply Forall2_same_length_lookup_2.
  { unfold repair_table. rewrite length_fmap, length_seqZ. unfold blen in Hr. lia. }
  intros i s q Hs Hq. unfold repair_table in Hs. apply list_lookup_fmap_Some in Hs as (k & -> & Hk).
  apply lookup_seqZ in Hk as [-> _]. unfold repair_shard. destruct (m !! _) as [q'|] eqn:E; [|by left].
  destruct (Hm _ _ E) as (j & Ej & Hj). assert (i = j) as -> by lia. right. simpl. congruence.
Qed.

Lemma collect_missing_spec B m base ps i shards : Forall (sized B) ps → 0 ≤ i → B ≤ MaxFECPacketBufferSize →
  (∀ j p, ps !! j = Some p → ∃ s, shards !! (Z.to_nat i + j)%nat = Some s ∧
     sl_data s = symbol B (payload_slice p)) →
  collect_missing B (missing_idx m base i ps) shards = Ok (concat (missing m (base + i) ps)).
Proof.
  intros Hps Hi0 HB. revert i Hi0. induction Hps as [|p ps [Hp HpB] _ IH]; intros i Hi0 H; [done|].
  assert (Htail : collect_missing B (missing_idx m base (i + 1) ps) shards = Ok (concat (missing m (base + (i + 1)) ps))).
  { apply IH; [lia|]. intros j q Hj. destruct (H (S j) q Hj) as (s & Hs & Hd). exists s. split; [|done].
    by replace (Z.to_nat (i + 1) + j)%nat with (Z.to_nat i + S j)%nat by lia. }
  rewrite Z.add_assoc in Htail. cbn [missing_idx missing]. destruct (m !! (base + i)); [done|].
  cbn [collect_missing concat]. destruct (H 0%nat p eq_refl) as (s & Hs & Hd).
  rewrite Nat.add_0_r in Hs. rewrite <- (Z2Nat.id i) at 1 by done. rewrite (get_at_lookup _ _ _ Hs). cbn [mbind res_bind].
  unfold MaxFECPacketBufferSize, MaxFECHeaderOverhead, MaxPacketBufferSize in HB.
  destruct (read_wide (B + 2) B (payload_slice p)) as (H1 & H2 & _); rewrite ?sl_len_payload_slice; [lia..|].
  rewrite Hd. rewrite wide_symbol in H1, H2. rewrite H1. cbn [mbind res_bind]. rewrite H2. cbn [mbind res_bind].
  rewrite joinLen_length, sl_len_payload_slice by (rewrite sl_len_payload_slice; lia).
  destruct s as [d sp]. cbn [sl_data] in Hd. subst d. unfold symbol.
  rewrite (sl_upto_app p (zeros (B - blen p) ++ [highByte (payload_slice p); lowByte (payload_slice p)] ++ sp)).
  - cbn [mbind res_bind]. rewrite Htail. done.
  - rewrite sl_data_payload_slice, sl_len_payload_slice, <- !app_assoc. done.
  - done.
Qed.

Lemma honest_clean base ps m : source_map base ps m → clean m base ps.
Proof.
  intros H j p Hj. destruct (m !! _) as [sl|] eqn:E; [|by left]. right.
  destruct (H _ _ E) as (i & q & Ei & Hi & ->). assert (i = j) as -> by lia. by simplify_eq.
Qed.

(** The shards that are handed to [ReconstructData]. *)
Lemma rs_shards id ps b : payloads_ok n ps → honest id n r ps (rs_scheme_parity ps) b →
  biggestSourceSymbolLenSoFar b = maxlen ps →
  ∃ shards b', presentShards (seqZ 0 n) b =
      (Ok (shards, missing_idx (ssidToSourcePayload b) (id * n) 0 ps), b') ∧
    place_repairs n (range _ (pidToRepairPayload b))
      (shards ++ replicate (Z.to_nat r) slice_nil) =
      Ok (shards ++ repair_table (pidToRepairPayload b)) ∧
    Forall2 (λ s d, sl_data s = [] ∨ sl_data s = d) (shards ++ repair_table (pidToRepairPayload b))
      (((λ p, symbol (maxlen ps) (payload_slice p)) <$> ps) ++ rs_scheme_parity ps) ∧
    blen (filter nonempty (shards ++ repair_table (pidToRepairPayload b)))
      = mlen (ssidToSourcePayload b) + mlen (pidToRepairPayload b).
Proof.
  intros Hok [(Hid & Hsm & _ & _ & _ & ? & ? & ? & ? & ?) Hs Hrep] Hb.
  pose proof (maxlen_bound n ps Hok) as Hmax. pose proof (proj1 Hok) as Hlen.
  destruct (rs_scheme_parity_shape ps Hok) as [Hpl Hpf].
  destruct (presentShards_spec ps 0 b (maxlen ps)) as (shards & b' & E & Hd);
    [by apply sized_all|lia|done|lia|rewrite Hlen; lia|rewrite Z.add_0_r, Hsm; by apply honest_clean|].
  rewrite Z.add_0_r, Hsm in Hd. rewrite Hlen, Hsm in E.
  pose proof (shard_list_relates (maxlen ps) (ssidToSourcePayload b) (id * n) ps) as Hrel.
  rewrite <- Hd, Forall2_fmap_l in Hrel.
  assert (Hsl : blen shards = n).
  { unfold blen in *. apply Forall2_length in Hrel. rewrite length_fmap in Hrel. lia. }
  exists shards, b'. split_and!.
  - done.
  - rewrite <- repair_table_empty, place_repairs_table; [by rewrite insert_all_range| |lia|done].
    rewrite range_perm. apply Forall_forall. intros [k q] Hk. apply elem_of_map_to_list in Hk.
    destruct (Hrep _ _ Hk) as (i & -> & Hi). apply lookup_lt_Some in Hi. unfold blen in Hpl. simpl. lia.
  - apply Forall2_app; [done|]. by apply repair_table_relates.
  - rewrite filter_app, blen_app. f_equal.
    + rewrite (shard_list_count (maxlen ps) (ssidToSourcePayload b) (id * n) ps) by (done || by apply sized_all).
      symmetry. by apply size_present.
    + apply (repair_table_count (rs_scheme_parity ps)); [done..|]. eapply Forall_impl; [done|].
      simpl. intros q Hq ->. rewrite blen_nil in Hq. lia.
Qed.

Lemma rs_recover_spec id ps b : payloads_ok n ps → honest id n r ps (rs_scheme_parity ps) b →
  n ≤ mlen (ssidToSourcePayload b) + mlen (pidToRepairPayload b) →
  mlen (ssidToSourcePayload b) < n → biggestSourceSymbolLenSoFar b = maxlen ps →
  ∃ b', rs_recoverSymbolPayloads range enc b
    = (Ok (concat (missing (ssidToSourcePayload b) (id * n) ps)), b').
Proof.
  intros Hok Hh Hge Hlt Hb. pose proof (maxlen_bound n ps Hok) as Hmax.
  destruct (rs_shards id ps b Hok Hh Hb) as (shards & b' & Hp & Hpl & Hrel & Hc).
  destruct Hh as [(Hid & Hsm & _ & Hn & Hr & ? & ? & ? & ? & ?) Hs Hrep].
  unfold rs_recoverSymbolPayloads, isRecoverable, isComplete. unfold mbind at 1, st_bind at 1, st_get.
  rewrite Hn, (proj2 (Z.leb_le _ _)), (proj2 (Z.eqb_neq _ _)) by lia. cbn [negb].
  rewrite (st_bind_ok _ _ _ _ _ Hp), Hr. unfold mbind at 1, st_bind at 1, st_lift at 1. rewrite Hpl.
  destruct (ReconstructData_spec (enc := enc) (maxlen ps + 2) ((λ p, symbol (maxlen ps) (payload_slice p)) <$> ps)
     (shards ++ repair_table (pidToRepairPayload b))) as (shards' & HR & Hds);
    [lia|by rewrite blen_fmap, (proj1 Hok)|apply symbols_len|done|lia|].
  unfold mbind at 1, st_bind at 1, st_lift at 1. rewrite HR.
  exists b'. unfold st_lift. f_equal. rewrite Hb.
  rewrite <- (Z.add_0_r (id * n)) at 2. apply collect_missing_spec; [by apply sized_all|lia..|].
  intros j p Hj. assert (Hlk : (take (Z.to_nat n) (sl_data <$> shards')) !! j = Some (symbol (maxlen ps) (payload_slice p))).
  { by rewrite Hds, list_lookup_fmap, Hj. }
  apply lookup_take_Some in Hlk as [Hlk _]. apply list_lookup_fmap_Some in Hlk as (s & Es & Hlk).
  exists s. split; [exact Hlk|by symmetry].
Qed.

#[export] Instance reedSolomonScheme_spec : SchemeSpec (reedSolomonScheme range enc) n r.
Proof.
  refine {| parity := rs_scheme_parity |}.
  - apply rs_scheme_parity_shape.
  - apply rs_repairSymbols_spec.
  - apply rs_recover_spec.
Defined.

End rs_code.
End codes.
