(* ===== verification/FecManager.v ===== *)
(** The sender and the receiver of the FEC layer, proved against the contract
    of a block code: the repair symbols a sender emits, and the payloads a
    receiver hands to the connection for any sequence of arrivals. *)

From S2P Require Import Prelude.
From S2P Require Import Varint.
From S2P Require Import Protocol.
From S2P Require Import Frames.
From S2P Require Import Fec.
From S2P Require Import FecCodes.

Module fecManager.
Import protocol wire fec codes.

(** * Operations on blocks *)

Section blocks.
Context (n r : Z).

Lemma maxlen_app ps p : maxlen (ps ++ [p]) = Z.max (maxlen ps) (blen p).
Proof.
  induction ps as [|q ps IH]; simpl; [pose proof (blen_nonneg p); lia|]. rewrite IH. lia.
Qed.

Lemma mlen_insert {V} (m : gmap Z V) x v : m !! x = None → mlen (<[x := v]> m) = mlen m + 1.
Proof. intros H. unfold mlen. rewrite map_size_insert_None by done. lia. Qed.

Lemma mlen_dom {V} (m : gmap Z V) : mlen m = Z.of_nat (size (dom m)).
Proof. unfold mlen. by rewrite size_dom. Qed.

(** The block after a source symbol that it did not hold. *)
Definition with_source (b : block) (x : Z) (p : bytes) : block :=
  set_biggest (set_sources b (<[x := payload_slice p]> (ssidToSourcePayload b)))
    (Z.max (biggestSourceSymbolLenSoFar b) (blen p)).

Lemma addSourceSymbol_new b x p : smallestSSID b ≤ x ≤ largestSSID b →
  ssidToSourcePayload b !! x = None →
  addSourceSymbol (mkSourceSymbolFrame x (payload_slice p)) b = (Ok tt, with_source b x p).
Proof.
  intros Hx Hn. unfold addSourceSymbol, with_source; cbn [ssf_SSID ssf_Payload].
  rewrite (proj2 (Z.ltb_ge _ _)), (proj2 (Z.ltb_ge _ _)), Hn by lia. cbn [orb].
  rewrite sl_len_payload_slice. cbn [biggestSourceSymbolLenSoFar set_sources].
  destruct (Z.ltb_spec (biggestSourceSymbolLenSoFar b) (blen p)).
  - by rewrite Z.max_r by lia.
  - rewrite Z.max_l by lia. by destruct b.
Qed.

Lemma addSourceSymbol_known b x p sl : smallestSSID b ≤ x ≤ largestSSID b →
  ssidToSourcePayload b !! x = Some sl →
  addSourceSymbol (mkSourceSymbolFrame x p) b = (Ok tt, b).
Proof.
  intros Hx Hn. unfold addSourceSymbol; cbn [ssf_SSID ssf_Payload].
  by rewrite (proj2 (Z.ltb_ge _ _)), (proj2 (Z.ltb_ge _ _)), Hn by lia.
Qed.

Lemma source_map_insert base ps m i p : source_map base ps m → ps !! i = Some p →
  source_map base ps (<[base + Z.of_nat i := payload_slice p]> m).
Proof.
  intros H Hi x sl Hx. apply lookup_insert_Some in Hx as [[<- <-]|[_ Hx]]; [by exists i, p|by apply H].
Qed.

Lemma source_map_app base ps ps' m : source_map base ps m → source_map base (ps ++ ps') m.
Proof.
  intros H x sl Hx. destruct (H x sl Hx) as (i & p & -> & Hi & ->). exists i, p.
  split_and!; [done| |done]. by apply lookup_app_l_Some.
Qed.
End blocks.

(** * Runs of the manager's operations on an open block *)

Section runs.
Context (m m1 : manager) (id : Z) (b b1 b2 : block).
Context (Hget : getStatus m id = (m1, mkBlockStatus (Some b) false)).

Lemma putStatus_twice bS bS' m' : putStatus id bS (putStatus id bS' m') = putStatus id bS m'.
Proof. unfold putStatus, set_statuses. simpl. by rewrite insert_insert_eq. Qed.

Lemma on_block_ok {A} (op : st block A) a m' : op b = (Ok a, b1) →
  on_block id (mkBlockStatus (Some b) false) op m' =
    (Ok (a, b1), putStatus id (mkBlockStatus (Some b1) false) m').
Proof. intros H. unfold on_block. simpl. by rewrite H. Qed.

Lemma AddSourceSymbolFrame_incomplete f : sidToBlockID m (ssf_SSID f) = Ok id →
  addSourceSymbol f b = (Ok tt, b1) → isComplete b1 = false →
  AddSourceSymbolFrame f m = (Ok [], putStatus id (mkBlockStatus (Some b1) false) m1).
Proof.
  intros Hid Hadd Hc. unfold AddSourceSymbolFrame, mbind, st_bind, st_get, st_lift.
  rewrite Hid, Hget. unfold st_put. cbn [isProcessed]. rewrite (on_block_ok _ tt) by done.
  by rewrite Hc.
Qed.

Lemma AddSourceSymbolFrame_complete f rs : sidToBlockID m (ssf_SSID f) = Ok id →
  addSourceSymbol f b = (Ok tt, b1) → isComplete b1 = true →
  repairSymbols (scheme m1) b1 = (Ok rs, b2) →
  AddSourceSymbolFrame f m = (Ok rs, putStatus id dropped m1).
Proof.
  intros Hid Hadd Hc Hrep. unfold AddSourceSymbolFrame, mbind, st_bind, st_get, st_lift.
  rewrite Hid, Hget. unfold st_put. cbn [isProcessed]. rewrite (on_block_ok _ tt) by done.
  rewrite Hc. unfold on_block. cbn [bs_block isProcessed]. rewrite Hrep. unfold st_modify.
  cbn [mbind res_bind]. by rewrite !putStatus_twice.
Qed.

Lemma HandleSourceSymbolFrame_run f : sidToBlockID m (ssf_SSID f) = Ok id →
  addSourceSymbol f b = (Ok tt, b1) →
  HandleSourceSymbolFrame f m = (Ok (sl_data (ssf_Payload f)),
    putStatus id (if isComplete b1 then dropped else mkBlockStatus (Some b1) false) m1).
Proof.
  intros Hid Hadd. unfold HandleSourceSymbolFrame, mbind, st_bind, st_get, st_lift.
  rewrite Hid, Hget. unfold st_put. cbn [isProcessed]. rewrite (on_block_ok _ tt) by done.
  destruct (isComplete b1); [|done]. unfold st_modify. by rewrite putStatus_twice.
Qed.

Lemma HandleRepairFrame_wait f : bm_BlockID (rf_Metadata f) = id →
  addRepairSymbol f b = (Ok tt, b1) → isRecoverable b1 = false →
  HandleRepairFrame f m = (Ok [], putStatus id (mkBlockStatus (Some b1) false) m1).
Proof.
  intros Hid Hadd Hc. unfold HandleRepairFrame, mbind, st_bind, st_get. rewrite Hid, Hget.
  unfold st_put. cbn [isProcessed]. rewrite (on_block_ok _ tt) by done. by rewrite Hc.
Qed.

Lemma HandleRepairFrame_recover f ps : bm_BlockID (rf_Metadata f) = id →
  addRepairSymbol f b = (Ok tt, b1) → isRecoverable b1 = true →
  recoverSymbolPayloads (scheme m1) b1 = (Ok ps, b2) →
  HandleRepairFrame f m = (Ok ps, putStatus id dropped m1).
Proof.
  intros Hid Hadd Hc Hrec. unfold HandleRepairFrame, mbind, st_bind, st_get. rewrite Hid, Hget.
  unfold st_put. cbn [isProcessed]. rewrite (on_block_ok _ tt) by done. rewrite Hc.
  unfold on_block. cbn [bs_block isProcessed]. rewrite Hrec. unfold st_modify.
  cbn [mbind res_bind]. by rewrite !putStatus_twice.
Qed.

Lemma processed_runs m' : getStatus m id = (m', dropped) →
  (∀ f, bm_BlockID (rf_Metadata f) = id → HandleRepairFrame f m = (Ok [], m')) ∧
  (∀ f, sidToBlockID m (ssf_SSID f) = Ok id →
     HandleSourceSymbolFrame f m = (Ok [], m') ∧ AddSourceSymbolFrame f m = (Ok [], m')).
Proof.
  intros H. split.
  - intros f Hid. unfold HandleRepairFrame, mbind, st_bind, st_get. by rewrite Hid, H.
  - intros f Hid. unfold HandleSourceSymbolFrame, AddSourceSymbolFrame, mbind, st_bind, st_get, st_lift.
    by rewrite Hid, H.
Qed.
End runs.

(** * The sender

    What the packer does for the payload of a packet with protected frames. *)
Definition sendSourceSymbol (payload : bytes) : st manager (SourceSymbolFrame * list RepairFrame) :=
  ssid ← NextSSID;
  let ssf := mkSourceSymbolFrame ssid (payload_slice payload) in
  repairFrames ← AddSourceSymbolFrame ssf;
  mret (ssf, repairFrames).

Fixpoint sendAll (payloads : list bytes) : st manager (list (SourceSymbolFrame * list RepairFrame)) :=
  match payloads with
  | [] => mret []
  | p :: payloads => x ← sendSourceSymbol p; l ← sendAll payloads; mret (x :: l)
  end.

Section sender.
Context (sch : BlockFECScheme) (n r : Z) `{!SchemeSpec sch n r}.
Context (Hn : 1 ≤ n) (Hr : 0 ≤ r) (Hnr : n + r ≤ 2 ^ 30).

(** A block that holds the payloads [cur], the first ones of block [id]. *)
Record filling (id : Z) (cur : list bytes) (b : block) : Prop := {
  filling_shape : block_shape id n r b;
  filling_sources : source_map (id * n) cur (ssidToSourcePayload b);
  filling_count : mlen (ssidToSourcePayload b) = blen cur;
  filling_repairs : pidToRepairPayload b = ∅;
  filling_biggest : biggestSourceSymbolLenSoFar b = maxlen cur;
}.

(** After the payloads [Ps]: the blocks before the current one are dropped,
    the current one holds the payloads sent since. *)
Record sender_inv (Ps : list bytes) (m : manager) : Prop := {
  si_scheme : scheme m = sch;
  si_n : numTotSourceSymbols m = n;
  si_r : numTotRepairSymbols m = r;
  si_done : ∀ id, 0 ≤ id < blen Ps / n → blockStatuses m !! id = Some dropped;
  si_later : ∀ id, blen Ps / n < id → blockStatuses m !! id = None;
  si_cur : let id := blen Ps / n in let cur := drop (Z.to_nat (n * id)) Ps in
    match blockStatuses m !! id with
    | None => cur = []
    | Some bS => ∃ b, bS = mkBlockStatus (Some b) false ∧ filling id cur b ∧ cur ≠ []
    end;
}.

Lemma NewManager_inv : ∃ m, NewManager sch n r = Ok m ∧ sender_inv [] m ∧ nextSID m = 0.
Proof.
  unfold NewManager. rewrite (proj2 (Z.ltb_ge _ _)), (proj2 (Z.ltb_ge _ _)) by lia.
  eexists. split; [done|]. split; [|done]. split; try done.
  - intros id Hid. change (blen []) with 0 in Hid. rewrite Z.div_0_l in Hid by lia. lia.
  - cbn zeta. by rewrite drop_nil.
Qed.

Lemma getStatus_filling Ps m : sender_inv Ps m → blen Ps + n ≤ 2 ^ 62 →
  let id := blen Ps / n in
  ∃ b, getStatus m id = (putStatus id (mkBlockStatus (Some b) false) m, mkBlockStatus (Some b) false) ∧
    filling id (drop (Z.to_nat (n * id)) Ps) b.
Proof.
  intros Hinv Hb id. pose proof (blen_nonneg Ps).
  assert (Hid : 0 ≤ id) by (apply Z.div_pos; lia).
  assert (Hid' : n * id ≤ blen Ps) by (apply Z.mul_div_le; lia).
  pose proof (si_cur _ _ Hinv) as Hcur. cbn zeta in Hcur. fold id in Hcur. unfold getStatus.
  destruct (blockStatuses m !! id) as [bS|] eqn:E.
  - destruct Hcur as (b & -> & Hf & _). exists b. split; [|done]. f_equal. unfold putStatus.
    rewrite insert_id by done. by destruct m.
  - rewrite (si_n _ _ Hinv), (si_r _ _ Hinv). eexists. split; [done|]. rewrite Hcur.
    split; try done. apply newBlock_shape; lia.
Qed.

(** Adding the next payload to the current block. *)
Lemma filling_add id cur b p : filling id cur b → blen cur < n →
  addSourceSymbol (mkSourceSymbolFrame (id * n + blen cur) (payload_slice p)) b
    = (Ok tt, with_source b (id * n + blen cur) p) ∧
  filling id (cur ++ [p]) (with_source b (id * n + blen cur) p).
Proof.
  intros [Hs Hm Hc Hrep Hbig] Hlt. pose proof (blen_nonneg cur).
  assert (Hnew : ssidToSourcePayload b !! (id * n + blen cur) = None).
  { apply eq_None_not_Some. intros [sl Hsl]. destruct (Hm _ _ Hsl) as (i & q & Ei & Hi & _).
    apply lookup_lt_Some in Hi. unfold blen in Ei. lia. }
  pose proof Hs as (? & Hsm & Hla & ?). split; [apply addSourceSymbol_new; [lia|done]|].
  split; simpl.
  - exact Hs.
  - unfold blen. apply source_map_insert; [by apply source_map_app|]. by rewrite list_lookup_middle.
  - rewrite mlen_insert, Hc, blen_app, blen_one by done. lia.
  - done.
  - by rewrite maxlen_app, Hbig.
Qed.

Lemma filling_honest id cur b : filling id cur b → honest id n r cur (parity cur) b.
Proof. intros [Hs Hm _ Hrep _]. split; [done|done|]. by rewrite Hrep. Qed.

Lemma sender_inv_next Ps m k : sender_inv Ps m →
  sender_inv Ps (mkManager (scheme m) k (numTotSourceSymbols m) (numTotRepairSymbols m) (blockStatuses m)).
Proof. by intros []. Qed.

(** The position of the next payload: block and index in the block. *)
Lemma position (Ps : list bytes) : let id := blen Ps / n in let cur := drop (Z.to_nat (n * id)) Ps in
  0 ≤ id ∧ blen Ps = id * n + blen cur ∧ blen cur < n.
Proof.
  cbn zeta. pose proof (blen_nonneg Ps). pose proof (Z.div_mod (blen Ps) n ltac:(lia)).
  pose proof (Z.mod_pos_bound (blen Ps) n ltac:(lia)).
  assert (0 ≤ blen Ps / n) by (apply Z.div_pos; lia).
  assert (E : blen (drop (Z.to_nat (n * (blen Ps / n))) Ps) = blen Ps - n * (blen Ps / n)).
  { unfold blen in *. rewrite length_drop. nia. }
  rewrite E. lia.
Qed.

Lemma drop_snoc_cur (Ps : list bytes) (p : bytes) : let id := blen Ps / n in
  drop (Z.to_nat (n * id)) (Ps ++ [p]) = drop (Z.to_nat (n * id)) Ps ++ [p].
Proof.
  cbn zeta. destruct (position Ps) as (H1 & H2 & H3). pose proof (blen_nonneg (drop (Z.to_nat (n * (blen Ps / n))) Ps)).
  apply drop_app_le. unfold blen in *. nia.
Qed.

(** Recording the status of the current block after one more payload. *)
Lemma sender_inv_step Ps m p bS : sender_inv Ps m →
  let id := blen Ps / n in let cur := drop (Z.to_nat (n * id)) Ps ++ [p] in
  (blen cur = n ∧ bS = dropped ∨
   blen cur < n ∧ ∃ b, bS = mkBlockStatus (Some b) false ∧ filling id cur b) →
  sender_inv (Ps ++ [p]) (putStatus id bS m).
Proof.
  intros Hinv id cur H. destruct (position Ps) as (Hid & Hpos & Hlt). fold id in Hid, Hpos, Hlt.
  assert (Hcur : blen cur = blen (drop (Z.to_nat (n * id)) Ps) + 1)
    by (unfold cur; rewrite blen_app, blen_one; lia).
  assert (Hlen : blen (Ps ++ [p]) = blen Ps + 1) by (rewrite blen_app, blen_one; lia).
  destruct H as [[Hc ->]|(Hc & b & -> & Hf)].
  - assert (Hdiv : blen (Ps ++ [p]) / n = id + 1).
    { rewrite Hlen, Hpos. symmetry. apply (Z.div_unique _ _ _ 0); lia. }
    destruct Hinv as [? ? ? Hd Hl Hcu]. split; try done; rewrite Hdiv; cbn [putStatus set_statuses blockStatuses].
    + intros i Hi. destruct (decide (i = id)) as [->|]; [by rewrite lookup_insert_eq|].
      rewrite lookup_insert_ne by done. apply Hd. fold id. lia.
    + intros i Hi. rewrite lookup_insert_ne by lia. apply Hl. fold id. lia.
    + rewrite lookup_insert_ne, Hl by (fold id; lia). apply drop_ge. unfold blen in *. nia.
  - assert (Hdiv : blen (Ps ++ [p]) / n = id).
    { rewrite Hlen, Hpos. symmetry. apply (Z.div_unique _ _ _ (blen cur)); [|lia].
      pose proof (blen_nonneg cur). lia. }
    destruct Hinv as [? ? ? Hd Hl Hcu]. split; try done; rewrite Hdiv; cbn [putStatus set_statuses blockStatuses].
    + intros i Hi. rewrite lookup_insert_ne by lia. apply Hd. fold id. lia.
    + intros i Hi. rewrite lookup_insert_ne by lia. by apply Hl.
    + rewrite lookup_insert_eq. exists b. split; [done|]. pose proof (drop_snoc_cur Ps p) as Hdr.
      cbn zeta in Hdr. fold id in Hdr. rewrite !Hdr.
      split; [done|]. intros Hnil. by apply app_nil in Hnil as [_ ?].
Qed.

(** The repair frames that are due after one more payload. *)
Definition due (Ps : list bytes) (p : bytes) : list RepairFrame :=
  let id := blen Ps / n in
  if (blen Ps + 1) mod n =? 0
  then parity_frames id 0 (parity (drop (Z.to_nat (n * id)) (Ps ++ [p]))) else [].

Lemma due_complete (Ps : list bytes) (p : bytes) : let id := blen Ps / n in let cur := drop (Z.to_nat (n * id)) Ps ++ [p] in
  ((blen Ps + 1) mod n =? 0) = (blen cur =? n).
Proof.
  intros id cur. destruct (position Ps) as (Hid & Hpos & Hlt). fold id in Hid, Hpos, Hlt.
  unfold cur. rewrite blen_app, blen_one. set (c := blen (drop _ Ps)) in *.
  pose proof (blen_nonneg (drop (Z.to_nat (n * id)) Ps)) as Hc. fold c in Hc.
  destruct (Z.eqb_spec (c + 1) n).
  - apply Z.eqb_eq. rewrite Hpos. symmetry. apply (Z.mod_unique _ _ (id + 1)); lia.
  - apply Z.eqb_neq. rewrite Hpos. rewrite <- (Z.mod_unique (id * n + c + 1) n id (c + 1)); lia.
Qed.

Lemma send_step Ps m p : sender_inv Ps m → nextSID m = blen Ps → Forall payload_ok (Ps ++ [p]) →
  blen Ps + n ≤ 2 ^ 62 →
  ∃ m', sendSourceSymbol p m = (Ok (mkSourceSymbolFrame (blen Ps) (payload_slice p), due Ps p), m') ∧
    sender_inv (Ps ++ [p]) m' ∧ nextSID m' = blen (Ps ++ [p]).
Proof.
  intros Hinv Hnext Hok Hb. destruct (position Ps) as (Hid & Hpos & Hlt).
  unfold sendSourceSymbol. rewrite (st_bind_ok _ _ _ _ _ (eq_refl : NextSSID m = (Ok _, _))).
  rewrite Hnext, u64_small by (pose proof (blen_nonneg Ps); lia).
  set (m1 := mkManager _ _ _ _ _). assert (Hinv1 : sender_inv Ps m1) by by apply sender_inv_next.
  destruct (getStatus_filling Ps m1 Hinv1 Hb) as (b & Hget & Hf). set (id := blen Ps / n) in *.
  assert (Hsid : sidToBlockID m1 (blen Ps) = Ok id).
  { unfold sidToBlockID. by rewrite (si_n _ _ Hinv1), u64_small, (proj2 (Z.eqb_neq _ _)) by lia. }
  destruct (filling_add id _ b p Hf Hlt) as [Hadd Hf']. rewrite <- Hpos in Hadd, Hf'.
  assert (Hcomp : isComplete (with_source b (blen Ps) p) = ((blen Ps + 1) mod n =? 0)).
  { unfold isComplete. rewrite (due_complete Ps p), (filling_count _ _ _ Hf').
    by destruct (filling_shape _ _ _ Hf') as (_ & _ & _ & -> & _). }
  assert (Hnext' : blen Ps + 1 = blen (Ps ++ [p])) by by rewrite blen_app.
  unfold due. rewrite (due_complete Ps p) in *. fold id in Hcomp |- *.
  set (cur := drop (Z.to_nat (n * id)) Ps ++ [p]) in *. destruct (Z.eqb_spec (blen cur) n) as [Hc|Hc].
  - assert (Hdr : drop (Z.to_nat (n * id)) (Ps ++ [p]) = cur) by apply drop_snoc_cur.
    assert (Hcok : payloads_ok n cur).
    { split; [done|]. rewrite <- Hdr. by apply Forall_drop. }
    destruct (repair_spec id cur _ Hcok (filling_honest _ _ _ Hf')) as (b' & HR & _);
      [by rewrite (filling_count _ _ _ Hf')|by rewrite (filling_biggest _ _ _ Hf')|].
    erewrite st_bind_ok; [|eapply AddSourceSymbolFrame_complete; [exact Hget|exact Hsid|exact Hadd|exact Hcomp|]].
    2:{ simpl. rewrite (si_scheme _ _ Hinv). exact HR. }
    eexists. split; [by rewrite Hdr|]. rewrite putStatus_twice.
    split; [apply sender_inv_step; [done|by left]|done].
  - erewrite st_bind_ok; [|eapply AddSourceSymbolFrame_incomplete; [exact Hget|exact Hsid|exact Hadd|exact Hcomp]].
    eexists. split; [done|]. rewrite putStatus_twice.
    assert (blen cur = blen (drop (Z.to_nat (n * id)) Ps) + 1) by (unfold cur; rewrite blen_app, blen_one; lia).
    split; [apply sender_inv_step; [done|right; split; [fold id cur; lia|by eexists]]|done].
Qed.

(** The packets of a whole run. *)
Fixpoint sends (Ps todo : list bytes) : list (SourceSymbolFrame * list RepairFrame) :=
  match todo with
  | [] => []
  | p :: todo => (mkSourceSymbolFrame (blen Ps) (payload_slice p), due Ps p) :: sends (Ps ++ [p]) todo
  end.

Lemma sendAll_spec todo Ps m : sender_inv Ps m → nextSID m = blen Ps → Forall payload_ok (Ps ++ todo) →
  blen (Ps ++ todo) + n ≤ 2 ^ 62 → ∃ m', sendAll todo m = (Ok (sends Ps todo), m').
Proof.
  revert Ps m. induction todo as [|p todo IH]; intros Ps m Hinv Hnext Hok Hb; [by exists m|].
  rewrite (cons_middle p), (app_assoc Ps) in Hok, Hb.
  assert (blen Ps ≤ blen ((Ps ++ [p]) ++ todo))
    by (rewrite !blen_app, blen_one; pose proof (blen_nonneg todo); lia).
  destruct (send_step Ps m p Hinv Hnext) as (m1 & E & Hinv1 & Hnext1);
    [by apply Forall_app in Hok as [? _]|lia|].
  destruct (IH (Ps ++ [p]) m1 Hinv1 Hnext1 Hok Hb) as (m2 & E2). exists m2. cbn [sendAll sends].
  by rewrite (st_bind_ok _ _ _ _ _ E), (st_bind_ok _ _ _ _ _ E2).
Qed.

(** The payloads of block [id] when [Ps] is sent. *)
Definition block_payloads (Ps : list bytes) (id : Z) : list bytes :=
  take (Z.to_nat n) (drop (Z.to_nat (id * n)) Ps).

Lemma sends_lookup todo Ps i p : todo !! i = Some p →
  sends Ps todo !! i = Some (mkSourceSymbolFrame (blen Ps + Z.of_nat i) (payload_slice p),
    if (blen Ps + Z.of_nat i + 1) mod n =? 0
    then let id := (blen Ps + Z.of_nat i) / n in
         parity_frames id 0 (parity (block_payloads (Ps ++ todo) id)) else []).
Proof.
  revert Ps i. induction todo as [|q todo IH]; intros Ps [|i] Hi; simplify_eq/=.
  - rewrite Z.add_0_r. do 2 f_equal. unfold due. rewrite (due_complete Ps p).
    destruct (Z.eqb_spec (blen (drop (Z.to_nat (n * (blen Ps / n))) Ps ++ [p])) n) as [Hc|]; [|done].
    do 2 f_equal. unfold block_payloads. rewrite (cons_middle p Ps todo), (app_assoc Ps), (Z.mul_comm (blen Ps / n)).
    destruct (position Ps) as (? & Hpos & ?). rewrite blen_app, blen_one in Hc.
    pose proof (blen_nonneg (drop (Z.to_nat (n * (blen Ps / n))) Ps)).
    rewrite (drop_app_le (Ps ++ [p])) by (rewrite length_app; unfold blen in *; simpl; nia).
    rewrite take_app_le; rewrite drop_snoc_cur, ?length_app; [|unfold blen in *; simpl; lia].
    rewrite take_ge; [done|]. rewrite length_app. unfold blen in *. simpl. lia.
  - rewrite IH by done. rewrite blen_app, blen_one.
    replace (blen Ps + 1 + Z.of_nat i) with (blen Ps + Z.of_nat (S i)) by lia.
    by rewrite <- (app_assoc Ps).
Qed.

End sender.
(** * The receiver

    ** Specification

    A receiver is described by the source and repair symbols it has seen of
    every block.  An arrival hands up the payloads of a list of SSIDs: the
    symbol itself, or, when a repair symbol makes the block recoverable, the
    symbols still missing; nothing once the block is done. *)

Inductive arrival :=
| Src (ssid : Z)
| Rep (id pid : Z).

Inductive status :=
| Open (sources repairs : gset Z)
| Done.

Section spec.
Context (n : Z).

Definition status_of (a : gmap Z status) (id : Z) : status := default (Open ∅ ∅) (a !! id).

Definition unseen (ss : gset Z) (id : Z) : list Z := filter (λ x, x ∉ ss) (seqZ (id * n) n).

Definition spec_step (e : arrival) (a : gmap Z status) : list Z * gmap Z status :=
  match e with
  | Src x =>
      let id := x / n in
      match status_of a id with
      | Done => ([], a)
      | Open ss rs =>
          let ss' := {[x]} ∪ ss in
          ([x], <[id := if Z.of_nat (size ss') =? n then Done else Open ss' rs]> a)
      end
  | Rep id j =>
      match status_of a id with
      | Done => ([], a)
      | Open ss rs =>
          let rs' := {[j]} ∪ rs in
          if n <=? Z.of_nat (size ss) + Z.of_nat (size rs')
          then (unseen ss id, <[id := Done]> a)
          else ([], <[id := Open ss rs']> a)
      end
  end.

Fixpoint spec_run (es : list arrival) (a : gmap Z status) : list (list Z) * gmap Z status :=
  match es with
  | [] => ([], a)
  | e :: es =>
      let '(out, a) := spec_step e a in
      let '(outs, a) := spec_run es a in
      (out :: outs, a)
  end.
End spec.

(** ** What the specification promises

    The symbols of a block that a sequence of arrivals contains. *)
Section delivery.
Context (n : Z) (Hn : 1 ≤ n).

Definition sources_seen (es : list arrival) (id : Z) : gset Z :=
  list_to_set (omap (λ e, match e with Src x => if x / n =? id then Some x else None | _ => None end) es).

Definition repairs_seen (es : list arrival) (id : Z) : gset Z :=
  list_to_set (omap (λ e, match e with Rep i j => if i =? id then Some j else None | _ => None end) es).

(** The SSIDs handed up by a run. *)
Definition handed_up (es : list arrival) : list Z := concat (spec_run n es ∅).1.

Lemma spec_run_snoc es e a : spec_run n (es ++ [e]) a =
  ((spec_run n es a).1 ++ [(spec_step n e (spec_run n es a).2).1], (spec_step n e (spec_run n es a).2).2).
Proof.
  revert a. induction es as [|e' es IH]; intros a; cbn [spec_run app].
  - cbn [fst snd]. by destruct (spec_step n e a).
  - destruct (spec_step n e' a) as [out a1]. rewrite IH. by destruct (spec_run n es a1).
Qed.

Lemma handed_up_snoc es e : handed_up (es ++ [e]) = handed_up es ++ (spec_step n e (spec_run n es ∅).2).1.
Proof. unfold handed_up. rewrite spec_run_snoc. cbn [fst]. rewrite concat_app. simpl. by rewrite app_nil_r. Qed.

Lemma sources_seen_snoc es e id : sources_seen (es ++ [e]) id =
  match e with Src x => if x / n =? id then {[x]} ∪ sources_seen es id else sources_seen es id
             | _ => sources_seen es id end.
Proof.
  unfold sources_seen. rewrite omap_app, list_to_set_app_L. destruct e as [x|i j]; simpl; [|set_solver].
  destruct (x / n =? id); set_solver.
Qed.

Lemma repairs_seen_snoc es e id : repairs_seen (es ++ [e]) id =
  match e with Rep i j => if i =? id then {[j]} ∪ repairs_seen es id else repairs_seen es id
             | _ => repairs_seen es id end.
Proof.
  unfold repairs_seen. rewrite omap_app, list_to_set_app_L. destruct e as [x|i j]; simpl; [set_solver|].
  destruct (i =? id); set_solver.
Qed.

Lemma sources_seen_block es id x : x ∈ sources_seen es id → x ∈ seqZ (id * n) n.
Proof.
  unfold sources_seen. rewrite elem_of_list_to_set, list_elem_of_omap. intros ([y|i j] & _ & H); [|done].
  destruct (Z.eqb_spec (y / n) id) as [E|]; [|done]. simplify_eq.
  pose proof (Z.div_mod x n ltac:(lia)). pose proof (Z.mod_pos_bound x n ltac:(lia)).
  apply elem_of_seqZ. lia.
Qed.

(** A set of SSIDs of a block that has [n] elements is the whole block. *)
Lemma full_block es id : Z.of_nat (size (sources_seen es id)) = n →
  ∀ x, x ∈ seqZ (id * n) n → x ∈ sources_seen es id.
Proof.
  intros Hsz. assert (E : sources_seen es id = list_to_set (seqZ (id * n) n)); [|rewrite E; set_solver].
  apply set_subseteq_size_eq.
  - intros x Hx. apply elem_of_list_to_set. by eapply sources_seen_block.
  - rewrite size_list_to_set by apply NoDup_seqZ. rewrite length_seqZ. lia.
Qed.

Record delivery_inv (es : list arrival) (id : Z) : Prop := {
  di_open : ∀ ss rs, status_of (spec_run n es ∅).2 id = Open ss rs →
    ss = sources_seen es id ∧ rs = repairs_seen es id ∧ ∀ x, x ∈ ss → x ∈ handed_up es;
  di_done : status_of (spec_run n es ∅).2 id = Done → ∀ x, x ∈ seqZ (id * n) n → x ∈ handed_up es;
}.

Lemma status_of_insert a id s : status_of (<[id := s]> a) id = s.
Proof. unfold status_of. by rewrite lookup_insert_eq. Qed.

Lemma status_of_insert_ne a id id' s : id ≠ id' → status_of (<[id := s]> a) id' = status_of a id'.
Proof. intros. unfold status_of. by rewrite lookup_insert_ne. Qed.

(** An arrival for another block, or for a block that is done. *)
Lemma delivery_inv_keep es e id : delivery_inv es id →
  status_of (spec_run n (es ++ [e]) ∅).2 id = status_of (spec_run n es ∅).2 id →
  (∀ ss rs, status_of (spec_run n es ∅).2 id = Open ss rs →
     sources_seen (es ++ [e]) id = sources_seen es id ∧ repairs_seen (es ++ [e]) id = repairs_seen es id) →
  delivery_inv (es ++ [e]) id.
Proof.
  intros [Hop Hdo] Hst Hseen. split; rewrite Hst.
  - intros ss rs Hs. destruct (Hseen _ _ Hs) as [-> ->]. destruct (Hop _ _ Hs) as (? & ? & H).
    split_and!; [done|done|]. intros x Hx. rewrite handed_up_snoc. set_solver.
  - intros Hs x Hx. rewrite handed_up_snoc. set_solver.
Qed.

Lemma delivery_inv_source es x : delivery_inv es (x / n) → delivery_inv (es ++ [Src x]) (x / n).
Proof.
  intros Hinv. pose proof Hinv as [Hop Hdo]. pose proof (spec_run_snoc es (Src x) ∅) as E. cbn [spec_step] in E.
  destruct (status_of (spec_run n es ∅).2 (x / n)) as [ss rs|] eqn:Hs; cbn [fst snd] in E.
  2:{ apply delivery_inv_keep; [done| |by rewrite Hs]. by rewrite E, Hs. }
  destruct (Hop _ _ eq_refl) as (Hss & Hrs & Hdel).
  assert (Hh : handed_up (es ++ [Src x]) = handed_up es ++ [x]).
  { rewrite handed_up_snoc. cbn [spec_step]. by rewrite Hs. }
  assert (Hseen : sources_seen (es ++ [Src x]) (x / n) = {[x]} ∪ ss) by (rewrite sources_seen_snoc, Z.eqb_refl; by subst).
  split; rewrite E; cbn [snd]; rewrite status_of_insert, Hh.
  - intros ss' rs' H. destruct (_ =? n); simplify_eq. rewrite repairs_seen_snoc.
    split_and!; [done|done|]. intros y Hy. set_solver.
  - intros H y Hy. destruct (Z.eqb_spec (Z.of_nat (size ({[x]} ∪ ss))) n) as [Hn'|]; [|done].
    rewrite <- Hseen in Hn'. pose proof (full_block _ _ Hn' y Hy) as Hin. rewrite Hseen in Hin. set_solver.
Qed.

Lemma delivery_inv_repair es id j : delivery_inv es id → delivery_inv (es ++ [Rep id j]) id.
Proof.
  intros Hinv. pose proof Hinv as [Hop Hdo]. pose proof (spec_run_snoc es (Rep id j) ∅) as E. cbn [spec_step] in E.
  destruct (status_of (spec_run n es ∅).2 id) as [ss rs|] eqn:Hs; cbn [fst snd] in E.
  2:{ apply delivery_inv_keep; [done| |by rewrite Hs]. by rewrite E, Hs. }
  destruct (Hop _ _ eq_refl) as (Hss & Hrs & Hdel). pose proof (handed_up_snoc es (Rep id j)) as Hh.
  cbn [spec_step] in Hh. rewrite Hs in Hh.
  destruct (n <=? _); cbn [fst snd] in E, Hh; (split; rewrite E; cbn [snd]; rewrite status_of_insert); try done.
  - intros _ x Hx. rewrite Hh. destruct (decide (x ∈ ss)); [set_solver|].
    apply elem_of_app. right. by apply list_elem_of_filter.
  - intros ss' rs' H. simplify_eq. rewrite sources_seen_snoc, repairs_seen_snoc, Z.eqb_refl, Hh, app_nil_r.
    done.
Qed.

Lemma delivery_inv_run es id : delivery_inv es id.
Proof.
  induction es as [|e es IH] using rev_ind.
  { split; unfold status_of; simpl; rewrite lookup_empty; [|done]. intros ss rs H. simplify_eq/=. split_and!; [done|done|set_solver]. }
  destruct (decide (match e with Src x => x / n | Rep i _ => i end = id)) as [<-|Hne].
  { destruct e; [by apply delivery_inv_source|by apply delivery_inv_repair]. }
  apply delivery_inv_keep; [done| |].
  - rewrite spec_run_snoc. cbn [snd]. destruct e as [x|i j]; cbn [spec_step].
    + destruct (status_of _ (x / n)); cbn [snd]; [by apply status_of_insert_ne|done].
    + destruct (status_of _ i); [|done]. by destruct (n <=? _); cbn [snd]; apply status_of_insert_ne.
  - intros _ _ _. rewrite sources_seen_snoc, repairs_seen_snoc. destruct e as [x|i j].
    + by rewrite (proj2 (Z.eqb_neq _ _)).
    + by rewrite (proj2 (Z.eqb_neq _ _)).
Qed.

(** Once a repair symbol arrives and at least [n] symbols of the block have
    been seen, all payloads of the block have been handed up. *)
Lemma recoverable_delivered es id j :
  n ≤ Z.of_nat (size (sources_seen es id)) + Z.of_nat (size (repairs_seen (es ++ [Rep id j]) id)) →
  ∀ x, x ∈ seqZ (id * n) n → x ∈ handed_up (es ++ [Rep id j]).
Proof.
  intros Hge. apply (di_done _ _ (delivery_inv_run (es ++ [Rep id j]) id)).
  rewrite spec_run_snoc. cbn [spec_step snd]. destruct (delivery_inv_run es id) as [Hop _].
  destruct (status_of (spec_run n es ∅).2 id) as [ss rs|] eqn:Hs; [|done].
  destruct (Hop _ _ eq_refl) as (-> & -> & _). rewrite repairs_seen_snoc, Z.eqb_refl in Hge.
  rewrite (proj2 (Z.leb_le _ _)) by lia. cbn [snd]. by apply status_of_insert.
Qed.
End delivery.

(** ** The receiver as it is run *)

(** The payloads and the repair payloads that the peer sent, per block. *)
Section run.
Context (n : Z) (data repairs : Z → list bytes).

Definition payload_of (x : Z) : bytes := default [] (data (x / n) !! Z.to_nat (x mod n)).
Definition repair_of (id j : Z) : bytes := default [] (repairs id !! Z.to_nat j).

Definition receive (e : arrival) : st manager bytes :=
  match e with
  | Src x => HandleSourceSymbolFrame (mkSourceSymbolFrame x (payload_slice (payload_of x)))
  | Rep id j => HandleRepairFrame (mkRepairFrame (mkBlockMetadata id j) (repair_of id j))
  end.

Fixpoint receiveAll (es : list arrival) : st manager (list bytes) :=
  match es with
  | [] => mret []
  | e :: es => out ← receive e; outs ← receiveAll es; mret (out :: outs)
  end.
End run.

Section receiver.
Context (sch : BlockFECScheme) (n r : Z) `{!SchemeSpec sch n r}.
Context (Hn : 1 ≤ n) (Hr : 0 ≤ r) (Hnr : n + r ≤ 2 ^ 30).
Context (data : Z → list bytes).

(** The repair symbols are those of the block code. *)
Abbreviation repairs := (λ id, parity (data id)).
Abbreviation payload_of := (payload_of n data).
Abbreviation repair_of := (repair_of repairs).
Abbreviation receive := (receive n data repairs).
Abbreviation receiveAll := (receiveAll n data repairs).

Definition block_sent (id : Z) : Prop := 0 ≤ id ∧ id * n + n ≤ 2 ^ 62 ∧ payloads_ok n (data id).

(** The arrival is a symbol that the peer sent. *)
Definition sent (e : arrival) : Prop :=
  match e with
  | Src x => 0 ≤ x ∧ block_sent (x / n)
  | Rep id j => block_sent id ∧ 0 ≤ j < r
  end.

(** ** Refinement *)

Record block_refines (id : Z) (ss rs : gset Z) (b : block) : Prop := {
  br_honest : honest id n r (data id) (parity (data id)) b;
  br_S : dom (ssidToSourcePayload b) = ss;
  br_R : dom (pidToRepairPayload b) = rs;
  br_open : mlen (ssidToSourcePayload b) < n;
  br_biggest : 0 ≤ biggestSourceSymbolLenSoFar b ≤ maxlen (data id);
  br_repaired : rs ≠ ∅ → biggestSourceSymbolLenSoFar b = maxlen (data id);
}.

Definition status_refines (id : Z) (s : status) (bS : blockStatus) : Prop :=
  match s with
  | Done => bS = dropped
  | Open ss rs => ∃ b, bS = mkBlockStatus (Some b) false ∧ block_refines id ss rs b
  end.

Record refines (a : gmap Z status) (m : manager) : Prop := {
  rf_scheme : scheme m = sch;
  rf_n : numTotSourceSymbols m = n;
  rf_r : numTotRepairSymbols m = r;
  rf_blocks : ∀ id, block_sent id →
    match a !! id, blockStatuses m !! id with
    | Some s, Some bS => status_refines id s bS
    | None, None => True
    | _, _ => False
    end;
}.

Lemma refines_put id s bS a m : refines a m → status_refines id s bS →
  refines (<[id := s]> a) (putStatus id bS m).
Proof.
  intros [? ? ? Hb] Hs. split; try done. intros i Hi. unfold putStatus, set_statuses; cbn [blockStatuses].
  destruct (decide (i = id)) as [->|]; [by rewrite !lookup_insert_eq|].
  rewrite !lookup_insert_ne by done. by apply Hb.
Qed.

Lemma newBlock_refines id : block_sent id → block_refines id ∅ ∅ (newBlock id n r).
Proof.
  intros (? & ? & Hok). pose proof (maxlen_bound n _ Hok). split; try done.
  - apply newBlock_honest; lia.
  - change (0 < n). lia.
  - simpl. lia.
Qed.

(** The status of a block, which is created when it is seen first. *)
Lemma getStatus_refines a m id : refines a m → block_sent id →
  ∃ m1 bS, getStatus m id = (m1, bS) ∧ status_refines id (status_of a id) bS ∧
    m1 = putStatus id bS m.
Proof.
  intros Hrf Hid. pose proof (rf_blocks _ _ Hrf id Hid) as Hb. unfold getStatus, status_of.
  destruct (a !! id) as [s|], (blockStatuses m !! id) as [bS|] eqn:E; try done.
  - exists m, bS. split_and!; [done|done|]. unfold putStatus. rewrite insert_id by done. by destruct m.
  - rewrite (rf_n _ _ Hrf), (rf_r _ _ Hrf). eexists _, _. split_and!; [done| |done].
    eexists. split; [done|]. by apply newBlock_refines.
Qed.

(** ** Blocks and sets of symbols *)

Lemma position_of x : 0 ≤ x → block_sent (x / n) →
  ∃ i p, x = x / n * n + Z.of_nat i ∧ data (x / n) !! i = Some p ∧ payload_of x = p ∧ Z.of_nat i < n.
Proof.
  intros Hx (_ & _ & Hlen & _). pose proof (Z.div_mod x n ltac:(lia)).
  pose proof (Z.mod_pos_bound x n ltac:(lia)).
  destruct (lookup_lt_is_Some_2 (data (x / n)) (Z.to_nat (x mod n))) as [p Hp]; [unfold blen in Hlen; lia|].
  exists (Z.to_nat (x mod n)), p. unfold payload_of. rewrite Hp. split_and!; [lia|done|done|lia].
Qed.

Lemma missing_unseen m base ps : missing m base ps =
  (λ x, default [] (ps !! Z.to_nat (x - base))) <$> filter (λ x, x ∉ dom m) (seqZ base (blen ps)).
Proof.
  revert base. induction ps as [|p ps IH]; intros base; [done|].
  rewrite seqZ_blen_cons, filter_cons. cbn [missing]. rewrite IH.
  assert (Hext : ∀ l : list Z, (∀ x, x ∈ l → base + 1 ≤ x) →
    (λ x, default [] (ps !! Z.to_nat (x - (base + 1)))) <$> l
    = (λ x, default [] ((p :: ps) !! Z.to_nat (x - base))) <$> l).
  { intros l Hl. apply list_fmap_ext. intros i x Hx. apply list_elem_of_lookup_2, Hl in Hx.
    by replace (Z.to_nat (x - base)) with (S (Z.to_nat (x - (base + 1)))) by lia. }
  rewrite Hext by (intros x Hx; apply list_elem_of_filter in Hx as [_ Hx]; apply elem_of_seqZ in Hx; lia).
  destruct (m !! base) as [sl|] eqn:E.
  - rewrite decide_False; [done|]. rewrite not_elem_of_dom, E. done.
  - rewrite decide_True by by apply not_elem_of_dom. rewrite fmap_cons. by rewrite Z.sub_diag.
Qed.

Lemma missing_payloads m id : block_sent id →
  missing m (id * n) (data id) = payload_of <$> unseen n (dom m) id.
Proof.
  intros (? & ? & Hlen & _). rewrite missing_unseen, Hlen. unfold unseen. apply list_fmap_ext.
  intros i x Hx. apply list_elem_of_lookup_2, list_elem_of_filter in Hx as [_ Hx].
  apply elem_of_seqZ in Hx. unfold payload_of.
  rewrite <- (Z.div_unique x n id (x - id * n)), <- (Z.mod_unique x n id (x - id * n)) by lia. done.
Qed.

(** ** The steps *)

Lemma with_source_refines id ss rs b x p i : block_refines id ss rs b → x = id * n + Z.of_nat i →
  data id !! i = Some p → ssidToSourcePayload b !! x = None →
  mlen (ssidToSourcePayload b) + 1 < n → block_refines id ({[x]} ∪ ss) rs (with_source b x p).
Proof.
  intros [[Hsh Hso Hre] Hss Hrs Hop Hb1 Hb2] -> Hi Hnone Hlt.
  assert (Hp : blen p ≤ maxlen (data id)) by (apply maxlen_ge; by eapply list_elem_of_lookup_2).
  split; simpl.
  - split; [exact Hsh| |exact Hre]. by apply source_map_insert.
  - rewrite dom_insert_L. by rewrite Hss.
  - done.
  - rewrite mlen_insert by done. done.
  - lia.
  - intros Hne. rewrite (Hb2 Hne). lia.
Qed.

Lemma receive_source a m x : refines a m → sent (Src x) →
  ∃ m', receive (Src x) m = (Ok (concat (payload_of <$> (spec_step n (Src x) a).1)), m') ∧
    refines (spec_step n (Src x) a).2 m'.
Proof.
  intros Hrf [Hx Hid]. destruct (position_of x Hx Hid) as (i & p & Ex & Hi & Hpo & Hin).
  set (id := x / n) in *. cbn [receive spec_step]. fold id. rewrite Hpo.
  set (f := mkSourceSymbolFrame x (payload_slice p)).
  assert (Hsid : sidToBlockID m (ssf_SSID f) = Ok id).
  { unfold sidToBlockID. by rewrite (rf_n _ _ Hrf), u64_small, (proj2 (Z.eqb_neq _ _)) by lia. }
  destruct (getStatus_refines a m id Hrf Hid) as (m1 & bS & Hget & Hst & ->).
  destruct (status_of a id) as [ss rs|] eqn:Es; simpl in Hst.
  2:{ subst bS. destruct (processed_runs m id _ Hget) as [_ Hp]. destruct (Hp f Hsid) as [-> _].
      eexists. split; [done|]. simpl. rewrite <- (insert_id a id Done); [by apply refines_put|].
      unfold status_of in Es. destruct (a !! id); simpl in Es; [by f_equal|done]. }
  destruct Hst as (b & -> & Hb). pose proof (br_honest _ _ _ _ Hb) as [(? & Hsm & Hla & Htot & _) Hso _].
  assert (Hrange : smallestSSID b ≤ x ≤ largestSSID b) by lia. cbn [fst snd fmap list_fmap concat].
  rewrite app_nil_r, Hpo. destruct (ssidToSourcePayload b !! x) as [sl|] eqn:Hlk.
  - pose proof (addSourceSymbol_known b x (payload_slice p) sl Hrange Hlk) as Hadd.
    rewrite (HandleSourceSymbolFrame_run m _ id b b Hget f Hsid Hadd), putStatus_twice.
    assert (Hc : isComplete b = false) by (apply Z.eqb_neq; pose proof (br_open _ _ _ _ Hb); lia). rewrite Hc.
    assert (Hin' : x ∈ ss) by (rewrite <- (br_S _ _ _ _ Hb); by eapply elem_of_dom_2).
    rewrite (subseteq_union_1_L {[x]} ss) by set_solver.
    assert (Hsz : Z.of_nat (size ss) < n) by (rewrite <- (br_S _ _ _ _ Hb), <- mlen_dom; apply (br_open _ _ _ _ Hb)).
    rewrite (proj2 (Z.eqb_neq _ _)) by lia.
    eexists. split; [cbn [f ssf_Payload]; by rewrite sl_data_payload_slice|]. apply refines_put; [done|]. by exists b.
  - pose proof (addSourceSymbol_new b x p Hrange Hlk) as Hadd.
    rewrite (HandleSourceSymbolFrame_run m _ id b _ Hget f Hsid Hadd), putStatus_twice.
    eexists. split; [cbn [f ssf_Payload]; by rewrite sl_data_payload_slice|].
    assert (Hsz : Z.of_nat (size ({[x]} ∪ ss)) = mlen (ssidToSourcePayload b) + 1).
    { rewrite <- (br_S _ _ _ _ Hb), <- (dom_insert_L _ _ (payload_slice p)), <- mlen_dom. by apply mlen_insert. }
    rewrite Hsz. unfold isComplete. cbn [with_source set_biggest set_sources ssidToSourcePayload totNumSourceSymbols].
    rewrite mlen_insert, Htot by done. apply refines_put; [done|].
    destruct (Z.eqb_spec (mlen (ssidToSourcePayload b) + 1) n); [done|].
    eexists. split; [done|]. pose proof (br_open _ _ _ _ Hb). eapply with_source_refines; [done..|lia].
Qed.

(** The block after a repair symbol, new or known. *)
Lemma addRepair_refines id ss rs b j : block_sent id → 0 ≤ j < r → block_refines id ss rs b →
  ∃ b', addRepairSymbol (mkRepairFrame (mkBlockMetadata id j) (repair_of id j)) b = (Ok tt, b') ∧
    block_refines id ss ({[j]} ∪ rs) b'.
Proof.
  intros Hid Hj Hb. destruct Hid as (_ & _ & Hok). destruct (parity_shape (data id) Hok) as [Hpl Hpf].
  destruct (lookup_lt_is_Some_2 (parity (data id)) (Z.to_nat j)) as [q Hq]; [unfold blen in Hpl; lia|].
  unfold repair_of. rewrite Hq. simpl default.
  pose proof Hb as [[Hsh Hso Hre] Hss Hrs Hop Hb1 Hb2]. unfold addRepairSymbol. cbn [rf_Metadata rf_Payload bm_BlockID bm_ParityID].
  destruct Hsh as (Hbid & Hsh). rewrite Hbid, Z.eqb_refl. cbn [negb].
  destruct (pidToRepairPayload b !! j) as [q'|] eqn:Hlk.
  - exists b. split; [done|]. rewrite (subseteq_union_1_L {[j]} rs); [done|].
    apply singleton_subseteq_l. rewrite <- Hrs. by eapply elem_of_dom_2.
  - eexists. split; [done|]. rewrite Forall_lookup in Hpf. specialize (Hpf _ _ Hq). simpl in Hpf.
    pose proof (maxlen_bound n _ Hok). split; simpl.
    + split; [by split|exact Hso|]. intros x q' Hx. simpl in Hx. apply lookup_insert_Some in Hx as [[<- <-]|[_ Hx]].
      * exists (Z.to_nat j). split; [lia|done].
      * by apply Hre.
    + done.
    + rewrite dom_insert_L. by rewrite Hrs.
    + done.
    + lia.
    + intros _. lia.
Qed.

Lemma receive_repair a m id j : refines a m → sent (Rep id j) →
  ∃ m', receive (Rep id j) m = (Ok (concat (payload_of <$> (spec_step n (Rep id j) a).1)), m') ∧
    refines (spec_step n (Rep id j) a).2 m'.
Proof.
  intros Hrf [Hid Hj]. cbn [receive spec_step]. set (f := mkRepairFrame _ _).
  destruct (getStatus_refines a m id Hrf Hid) as (m1 & bS & Hget & Hst & ->).
  destruct (status_of a id) as [ss rs|] eqn:Es; simpl in Hst.
  2:{ subst bS. destruct (processed_runs m id _ Hget) as [Hp _]. rewrite (Hp f eq_refl).
      eexists. split; [done|]. simpl. rewrite <- (insert_id a id Done); [by apply refines_put|].
      unfold status_of in Es. destruct (a !! id); simpl in Es; [by f_equal|done]. }
  destruct Hst as (b & -> & Hb). destruct (addRepair_refines id ss rs b j Hid Hj Hb) as (b' & Hadd & Hb').
  pose proof (br_honest _ _ _ _ Hb') as Hh. pose proof Hh as [(_ & _ & _ & Htot & _) _ _].
  assert (Hrec : isRecoverable b' = (n <=? Z.of_nat (size ss) + Z.of_nat (size ({[j]} ∪ rs)))).
  { unfold isRecoverable. by rewrite Htot, !mlen_dom, (br_S _ _ _ _ Hb'), (br_R _ _ _ _ Hb'). }
  destruct (Z.leb_spec n (Z.of_nat (size ss) + Z.of_nat (size ({[j]} ∪ rs)))) as [Hge|Hlt]; cbn [fst snd].
  - destruct (recover_spec id (data id) b') as (b2 & HR).
    { apply Hid. } { done. }
    { by rewrite !mlen_dom, (br_S _ _ _ _ Hb'), (br_R _ _ _ _ Hb'). }
    { apply (br_open _ _ _ _ Hb'). } { apply (br_repaired _ _ _ _ Hb'). set_solver. }
    rewrite <- (rf_scheme _ _ Hrf) in HR.
    rewrite (HandleRepairFrame_recover m _ id b b' b2 Hget f _ eq_refl Hadd Hrec HR).
    rewrite putStatus_twice. eexists. split; [|by apply refines_put].
    by rewrite missing_payloads, (br_S _ _ _ _ Hb').
  - rewrite (HandleRepairFrame_wait m _ id b b' Hget f eq_refl Hadd Hrec), putStatus_twice.
    eexists. split; [done|]. apply refines_put; [done|]. by exists b'.
Qed.

Lemma receive_step a m e : refines a m → sent e →
  ∃ m', receive e m = (Ok (concat (payload_of <$> (spec_step n e a).1)), m') ∧ refines (spec_step n e a).2 m'.
Proof. destruct e; [apply receive_source|apply receive_repair]. Qed.

Lemma receiveAll_spec es a m : refines a m → Forall sent es →
  ∃ m', receiveAll es m = (Ok ((λ l, concat (payload_of <$> l)) <$> (spec_run n es a).1), m') ∧
    refines (spec_run n es a).2 m'.
Proof.
  intros Hrf Hes. revert a m Hrf. induction Hes as [|e es He _ IH]; intros a m Hrf; [by exists m|].
  destruct (receive_step a m e Hrf He) as (m1 & E & Hrf1). cbn [receiveAll spec_run].
  destruct (spec_step n e a) as [out a1]; cbn [fst snd] in *.
  destruct (IH a1 m1 Hrf1) as (m2 & E2 & Hrf2). destruct (spec_run n es a1) as [outs a2]; cbn [fst snd] in *.
  exists m2. by rewrite (st_bind_ok _ _ _ _ _ E), (st_bind_ok _ _ _ _ _ E2).
Qed.

Lemma receive_two a m e1 e2 : refines a m → sent e1 → sent e2 →
  ∃ m1 m2, receive e1 m = (Ok (concat (payload_of <$> (spec_step n e1 a).1)), m1) ∧
    receive e2 m1 = (Ok (concat (payload_of <$> (spec_step n e2 (spec_step n e1 a).2).1)), m2).
Proof.
  intros Hrf H1 H2. destruct (receive_step a m e1 Hrf H1) as (m1 & E1 & Hrf1).
  destruct (receive_step _ m1 e2 Hrf1 H2) as (m2 & E2 & _). by exists m1, m2.
Qed.

Lemma NewManager_refines : ∃ m, NewManager sch n r = Ok m ∧ refines ∅ m.
Proof.
  unfold NewManager. rewrite (proj2 (Z.ltb_ge _ _)), (proj2 (Z.ltb_ge _ _)) by lia.
  eexists. split; [done|]. by split.
Qed.

End receiver.
(** * An encoder for two data shards and one parity shard

    The parity shard is the XOR of the data shards; it shows that the
    documented behaviour of an encoder can be met. *)
Definition parity_encoder : Encoder := {|
  Encode shards :=
    match shards with
    | [a; b; p] => Ok [a; b; mkSlice (vxor (sl_data a) (sl_data b)) (sl_spare p)]
    | _ => Err (ErrMsg "wrong number of shards")
    end;
  ReconstructData shards :=
    match shards with
    | [a; b; p] =>
        match sl_data a, sl_data b, sl_data p with
        | _ :: _, _ :: _, _ => Ok shards
        | [], y :: ys, z :: zs => Ok [mkSlice (vxor (z :: zs) (y :: ys)) []; b; p]
        | x :: xs, [], z :: zs => Ok [a; mkSlice (vxor (z :: zs) (x :: xs)) []; p]
        | _, _, _ => Err (ErrMsg "too few shards given")
        end
    | _ => Err (ErrMsg "wrong number of shards")
    end;
|}.

Lemma vxor_cancel x y : blen x = blen y → vxor (vxor x y) y = x.
Proof. intros H. rewrite <- vxor_assoc, vxor_self, <- H. by apply vxor_zeros. Qed.

Lemma blen_2 {A} (l : list A) : blen l = 2 → ∃ a b, l = [a; b].
Proof. destruct l as [|a [|b [|c l]]]; rewrite ?blen_cons; intros H; try (pose proof (blen_nonneg l); lia); [done|done|eauto]. Qed.

Lemma blen_1 {A} (l : list A) : blen l = 1 → ∃ a, l = [a].
Proof. destruct l as [|a [|b l]]; rewrite ?blen_cons; intros H; try (pose proof (blen_nonneg l); lia); [done|eauto]. Qed.

#[export] Instance parity_encoder_code : ReedSolomonCode parity_encoder 2 1.
Proof.
  refine {| rs_parity ds := match ds with [a; b] => [vxor a b] | _ => [] end |}.
  - intros L ds HL Hl Hf. destruct (blen_2 ds Hl) as (a & b & ->). split; [done|].
    apply Forall_cons in Hf as [Ha Hf]. apply Forall_cons in Hf as [Hb _]. constructor; [|done].
    rewrite blen_vxor; lia.
  - intros L data par HL Hd Hp _ _. destruct (blen_2 data Hd) as (a & b & ->). destruct (blen_1 par Hp) as (p & ->).
    by eexists [_].
  - intros L ds shards HL Hl Hf Hrel Hc. destruct (blen_2 ds Hl) as (a & b & ->). simpl in Hrel.
    apply Forall_cons in Hf as [Ha Hf]. apply Forall_cons in Hf as [Hb _].
    apply Forall2_cons_inv_r in Hrel as (s1 & ? & H1 & Hrel & ->).
    apply Forall2_cons_inv_r in Hrel as (s2 & ? & H2 & Hrel & ->).
    apply Forall2_cons_inv_r in Hrel as (s3 & ? & H3 & Hrel & ->).
    apply Forall2_nil_inv_r in Hrel as ->.
    assert (Hv : blen (vxor a b) = L) by (rewrite blen_vxor; lia).
    pose proof (vxor_cancel b a ltac:(lia)) as Hba. rewrite (vxor_comm b a) in Hba.
    pose proof (vxor_cancel a b ltac:(lia)) as Hab.
    destruct s1 as [d1 p1], s2 as [d2 p2], s3 as [d3 p3]; cbn [sl_data] in *.
    destruct H1 as [->| ->], H2 as [->| ->], H3 as [->| ->].
    all: destruct a as [|x a]; [rewrite blen_nil in *; lia|]; destruct b as [|y b]; [rewrite blen_nil in *; lia|];
      try (exfalso; vm_compute in Hc; by apply Hc); eexists; (split; [reflexivity|]);
      first [done|exact (f_equal (λ d, [d; y :: b]) Hab)|exact (f_equal (λ d, [x :: a; d]) Hba)].
Qed.

(** * Properties *)

Section recovery.
Context (sch : BlockFECScheme) (n r : Z) `{!SchemeSpec sch n r}.
Context (Hn : 1 ≤ n) (Hr : 0 ≤ r) (Hnr : n + r ≤ 2 ^ 30).

(** With [n] symbols of a block, the last of them a repair symbol, every
    payload of the block has been handed up. *)
Lemma block_recovered data es id j : Forall (sent n r data) (es ++ [Rep id j]) →
  n ≤ Z.of_nat (size (sources_seen n es id)) + Z.of_nat (size (repairs_seen (es ++ [Rep id j]) id)) →
  ∃ m m' outs, NewManager sch n r = Ok m ∧
    receiveAll n data (λ id, parity (data id)) (es ++ [Rep id j]) m = (Ok outs, m') ∧
    ∀ p, p ∈ data id → ∃ ps, concat ps ∈ outs ∧ p ∈ ps.
Proof.
  intros Hsent Hge. destruct (NewManager_refines sch n r Hn Hr data) as (m & Hm & Hrf).
  destruct (receiveAll_spec sch n r Hn Hr Hnr data _ _ m Hrf Hsent) as (m' & Hrun & _).
  eexists m, m', _. split_and!; [done|exact Hrun|]. intros p Hp.
  apply Forall_app in Hsent as [_ Hrep]. apply Forall_cons in Hrep as [[(Hid0 & _ & Hlen & _) _] _].
  apply list_elem_of_lookup in Hp as [i Hi]. pose proof (lookup_lt_Some _ _ _ Hi) as Hlt.
  unfold blen in Hlen. set (x := id * n + Z.of_nat i).
  assert (Hx : x ∈ handed_up n (es ++ [Rep id j])).
  { apply recoverable_delivered; [lia|done|]. apply elem_of_seqZ. lia. }
  apply list_elem_of_In, in_concat in Hx as (l & Hl & Hxl). apply list_elem_of_In in Hl, Hxl.
  exists (payload_of n data <$> l). split; [apply list_elem_of_fmap; by exists l|].
  apply list_elem_of_fmap. exists x. split; [|done]. unfold payload_of.
  rewrite <- (Z.div_unique x n id (Z.of_nat i)), <- (Z.mod_unique x n id (Z.of_nat i)) by lia.
  by rewrite Nat2Z.id, Hi.
Qed.
End recovery.

Section theorems.
Context (range : ∀ V : Type, gmap Z V → list (Z * V)).
Context (range_perm : ∀ V (m : gmap Z V), range V m ≡ₚ map_to_list m).

(** C7: recovery with the XOR code.  A receiver of blocks of [n] source
    symbols and one repair symbol gets any sequence of symbols the peer sent:
    lost, reordered, duplicated, of many blocks.  It never fails; and when the
    repair symbol of a block arrives and at least [n] symbols of the block
    have been seen (one may be lost), every payload of the block has been
    handed up unchanged, in whatever order Go iterates over the maps. *)
Theorem xor_recovery n data es id j : 1 ≤ n → n + 1 ≤ 2 ^ 30 →
  Forall (sent n 1 data) (es ++ [Rep id j]) →
  n ≤ Z.of_nat (size (sources_seen n es id)) + Z.of_nat (size (repairs_seen (es ++ [Rep id j]) id)) →
  ∃ m m' outs, NewManager (xorScheme range) n 1 = Ok m ∧
    receiveAll n data (λ id, xor_parity (data id)) (es ++ [Rep id j]) m = (Ok outs, m') ∧
    ∀ p, p ∈ data id → ∃ ps, concat ps ∈ outs ∧ p ∈ ps.
Proof.
  intros Hn Hn1 Hsent Hge.
  exact (block_recovered (SchemeSpec0 := xorScheme_spec range range_perm n) (xorScheme range) n 1
           Hn Z.le_0_1 Hn1 data es id j Hsent Hge).
Qed.

(** C8: recovery with the Reed-Solomon code, for an encoder that behaves as
    documented: as for XOR, with [r] repair symbols, of which any number may
    be needed. *)
Theorem reed_solomon_recovery enc n r `{!ReedSolomonCode enc n r} data es id j :
  1 ≤ n → 0 ≤ r → n + r ≤ 2 ^ 30 →
  Forall (sent n r data) (es ++ [Rep id j]) →
  n ≤ Z.of_nat (size (sources_seen n es id)) + Z.of_nat (size (repairs_seen (es ++ [Rep id j]) id)) →
  ∃ m m' outs, NewManager (reedSolomonScheme range enc) n r = Ok m ∧
    receiveAll n data (λ id, rs_scheme_parity enc n r (data id)) (es ++ [Rep id j]) m = (Ok outs, m') ∧
    ∀ p, p ∈ data id → ∃ ps, concat ps ∈ outs ∧ p ∈ ps.
Proof.
  intros Hn Hr Hnr Hsent Hge.
  exact (block_recovered (SchemeSpec0 := reedSolomonScheme_spec range range_perm enc n r)
           (reedSolomonScheme range enc) n r Hn Hr Hnr data es id j Hsent Hge).
Qed.
End theorems.

(** C2: the receiver implements its specification.  For every code that meets
    the contract and every sequence of symbols the peer sent, each call of
    [HandleSourceSymbolFrame] or [HandleRepairFrame] returns without error
    exactly the payloads that the specification lists: those of the SSIDs of
    [spec_step], in this order. *)
Theorem receiver_refines_spec sch n r `{!SchemeSpec sch n r} data es :
  1 ≤ n → 0 ≤ r → n + r ≤ 2 ^ 30 → Forall (sent n r data) es →
  ∃ m m', NewManager sch n r = Ok m ∧
    receiveAll n data (λ id, parity (data id)) es m =
      (Ok ((λ ssids, concat (payload_of n data <$> ssids)) <$> (spec_run n es ∅).1), m').
Proof.
  intros Hn Hr Hnr Hsent. destruct (NewManager_refines sch n r Hn Hr data) as (m & Hm & Hrf).
  destruct (receiveAll_spec sch n r Hn Hr Hnr data _ _ m Hrf Hsent) as (m' & Hrun & _).
  by exists m, m'.
Qed.

(** The sender.  Payload number [i] is sent as the source symbol with SSID
    [i]; after the last payload of a block, and only then, the sender emits
    the repair frames of the [n] payloads of the block. *)
Theorem sender_repairs sch n r `{!SchemeSpec sch n r} Ps i p :
  1 ≤ n → 0 ≤ r → n + r ≤ 2 ^ 30 → Forall payload_ok Ps → blen Ps + n ≤ 2 ^ 62 →
  Ps !! i = Some p →
  ∃ m m' out, NewManager sch n r = Ok m ∧ sendAll Ps m = (Ok out, m') ∧
    out !! i = Some (mkSourceSymbolFrame (Z.of_nat i) (payload_slice p),
      if (Z.of_nat i + 1) mod n =? 0
      then let id := Z.of_nat i / n in parity_frames id 0 (parity (block_payloads n Ps id))
      else []).
Proof.
  intros Hn Hr Hnr Hok Hb Hi. destruct (NewManager_inv sch n r Hn Hr) as (m & Hm & Hinv & Hnext).
  destruct (sendAll_spec sch n r Hn Hr Hnr Ps [] m Hinv Hnext Hok Hb) as (m' & Hrun).
  eexists m, m', _. split_and!; [done|exact Hrun|].
  rewrite (sends_lookup sch n r Hn Hr Hnr Ps [] i p Hi). by rewrite Z.add_0_l.
Qed.

(** The XOR configuration, from [NewSender] to [NewReceiver]: of two packets,
    the sender emits the repair symbol with the second; the receiver that gets
    the repair symbol and only one of the packets hands up the payloads of
    both, whichever was lost. *)
Lemma xor_end_to_end (range : ∀ V : Type, gmap Z V → list (Z * V)) reedsolomon_New p0 p1 :
  (∀ V (m : gmap Z V), range V m ≡ₚ map_to_list m) → payload_ok p0 → payload_ok p1 →
  ∃ s s' q rcv,
    let f0 := mkSourceSymbolFrame 0 (payload_slice p0) in
    let f1 := mkSourceSymbolFrame 1 (payload_slice p1) in
    NewSender range reedsolomon_New XORFECScheme = Ok (Some s) ∧
    NewReceiver range reedsolomon_New XORFECScheme = Ok (Some rcv) ∧
    sendAll [p0; p1] s = (Ok [(f0, []); (f1, [q])], s') ∧
    q = mkRepairFrame (mkBlockMetadata 0 0) (rf_Payload q) ∧ blen (rf_Payload q) ≤ MaxPacketBufferSize ∧
    (∃ r1 r2, HandleSourceSymbolFrame f0 rcv = (Ok p0, r1) ∧ HandleRepairFrame q r1 = (Ok p1, r2)) ∧
    (∃ r1 r2, HandleSourceSymbolFrame f1 rcv = (Ok p1, r1) ∧ HandleRepairFrame q r1 = (Ok p0, r2)).
Proof.
  intros Hrange H0 H1. pose (I := xorScheme_spec range Hrange 2). set (sch := xorScheme range) in *.
  assert (Hok : payloads_ok 2 [p0; p1]) by (split; [done|auto]).
  destruct (NewManager_inv sch 2 1 ltac:(done) ltac:(done)) as (s & Hs & Hinv & Hnext).
  destruct (sendAll_spec sch 2 1 ltac:(done) ltac:(done) ltac:(done) [p0; p1] [] s Hinv Hnext (proj2 Hok) ltac:(by vm_compute)) as (s' & Hrun).
  destruct (NewManager_refines sch 2 1 ltac:(done) ltac:(done) (λ _, [p0; p1])) as (rcv & Hrcv & Hrf).
  assert (Hb : block_sent 2 (λ _, [p0; p1]) 0) by by split_and!.
  eexists s, s', _, rcv. split_and!; [by injection Hs as <-|by injection Hrcv as <-|exact Hrun|done| | |].
  { pose proof (maxlen_bound 2 _ Hok) as Hm. destruct (parity_shape (SchemeSpec := I) _ Hok) as [_ Hf].
    apply Forall_cons in Hf as [Hq _]. simpl in Hq |- *. unfold MaxFECPacketBufferSize, MaxFECHeaderOverhead, RepairPayloadMetadataLen in *.
    simpl in Hm. lia. }
  - destruct (receive_two sch 2 1 ltac:(done) ltac:(done) ltac:(done) _ _ rcv (Src 0) (Rep 0 0) Hrf
      ltac:(by split) ltac:(by split)) as (r1 & r2 & E1 & E2). exists r1, r2.
    replace (spec_step 2 (Src 0) ∅).1 with [0] in E1 by reflexivity.
    replace (spec_step 2 (Rep 0 0) (spec_step 2 (Src 0) ∅).2).1 with [1] in E2 by (vm_compute; reflexivity).
    cbn [fmap list_fmap concat] in E1, E2. rewrite app_nil_r in E1, E2. by split.
  - destruct (receive_two sch 2 1 ltac:(done) ltac:(done) ltac:(done) _ _ rcv (Src 1) (Rep 0 0) Hrf
      ltac:(by split) ltac:(by split)) as (r1 & r2 & E1 & E2). exists r1, r2.
    replace (spec_step 2 (Src 1) ∅).1 with [1] in E1 by reflexivity.
    replace (spec_step 2 (Rep 0 0) (spec_step 2 (Src 1) ∅).2).1 with [0] in E2 by (vm_compute; reflexivity).
    cbn [fmap list_fmap concat] in E1, E2. rewrite app_nil_r in E1, E2. by split.
Qed.

(** Two payloads in one block, the second lost. *)
Definition two_payloads : list bytes := [[1; 2; 3]; [9]].

Lemma two_payloads_sent r : 1 ≤ r →
  Forall (sent 2 r (λ _, two_payloads)) ([Src 0] ++ [Rep 0 0]).
Proof.
  intros Hr. assert (Hok : payloads_ok 2 two_payloads).
  { split; [done|]. repeat constructor; done. }
  assert (block_sent 2 (λ _, two_payloads) 0) by (split_and!; done).
  constructor; [by split|]. constructor; [|constructor]. split; [done|lia].
Qed.

Lemma xor_recovery_witness :
  ∃ m m' outs, NewManager (xorScheme (λ V m, map_to_list m)) 2 1 = Ok m ∧
    receiveAll 2 (λ _, two_payloads) (λ _, xor_parity two_payloads) ([Src 0] ++ [Rep 0 0]) m = (Ok outs, m') ∧
    ∀ p, p ∈ two_payloads → ∃ ps, concat ps ∈ outs ∧ p ∈ ps.
Proof.
  apply (xor_recovery (λ V m, map_to_list m) (λ V m, reflexivity _) 2 (λ _, two_payloads) [Src 0] 0 0);
    [done|done|by apply two_payloads_sent|by vm_compute].
Defined.

Lemma reed_solomon_recovery_witness :
  ∃ m m' outs, NewManager (reedSolomonScheme (λ V m, map_to_list m) parity_encoder) 2 1 = Ok m ∧
    receiveAll 2 (λ _, two_payloads) (λ _, rs_scheme_parity parity_encoder 2 1 two_payloads)
      ([Src 0] ++ [Rep 0 0]) m = (Ok outs, m') ∧
    ∀ p, p ∈ two_payloads → ∃ ps, concat ps ∈ outs ∧ p ∈ ps.
Proof.
  apply (reed_solomon_recovery (λ V m, map_to_list m) (λ V m, reflexivity _) parity_encoder 2 1
           (λ _, two_payloads) [Src 0] 0 0);
    [done|done|done|by apply two_payloads_sent|by vm_compute].
Defined.

Lemma receiver_refines_spec_witness :
  ∃ m m', NewManager (xorScheme (λ V m, map_to_list m)) 2 1 = Ok m ∧
    receiveAll 2 (λ _, two_payloads) (λ _, xor_parity two_payloads) ([Src 0] ++ [Rep 0 0]) m =
      (Ok [[1; 2; 3]; [9]], m').
Proof.
  apply (receiver_refines_spec (SchemeSpec0 := xorScheme_spec (λ V m, map_to_list m) (λ V m, reflexivity _) 2)
    (xorScheme (λ V m, map_to_list m)) 2 1 (λ _, two_payloads) ([Src 0] ++ [Rep 0 0]));
    [done|done|done|by apply two_payloads_sent].
Defined.

Lemma sender_repairs_witness :
  ∃ m m' out, NewManager (xorScheme (λ V m, map_to_list m)) 2 1 = Ok m ∧ sendAll two_payloads m = (Ok out, m') ∧
    out !! 1%nat = Some (mkSourceSymbolFrame 1 (payload_slice [9]),
      [mkRepairFrame (mkBlockMetadata 0 0) [8; 2; 3; 0; 2]]).
Proof.
  apply (sender_repairs (SchemeSpec0 := xorScheme_spec (λ V m, map_to_list m) (λ V m, reflexivity _) 2)
    (xorScheme (λ V m, map_to_list m)) 2 1 two_payloads 1%nat [9]);
    [done|done|done|repeat constructor; done|by vm_compute|done].
Defined.

(** * Behaviour outside the contract

    The same manager for all examples: blocks of two source symbols and one
    repair symbol. *)
Definition xor_receiver : manager := mkManager (xorScheme (λ V m, map_to_list m)) 0 2 1 ∅.
Definition rs_receiver : manager := mkManager (reedSolomonScheme (λ V m, map_to_list m) parity_encoder) 0 2 1 ∅.

(** Recovery is only attempted when a repair symbol arrives: if the repair
    symbol overtakes the last source symbol that is needed, two of the three
    symbols have been received but the lost payload is never recovered. *)
Example repair_overtakes_source :
  (receiveAll 2 (λ _, two_payloads) (λ _, xor_parity two_payloads) [Rep 0 0; Src 0] xor_receiver).1
    = Ok [[]; [1; 2; 3]] ∧
  (receiveAll 2 (λ _, two_payloads) (λ _, xor_parity two_payloads) [Src 0; Rep 0 0] xor_receiver).1
    = Ok [[1; 2; 3]; [9]].
Proof. split; vm_compute; reflexivity. Qed.

(** A REPAIR frame without the two length bytes makes the XOR recovery index
    its buffer with a negative number. *)
Example short_repair_payload_panics :
  let '(_, m) := HandleSourceSymbolFrame (mkSourceSymbolFrame 0 (payload_slice [1; 2; 3])) xor_receiver in
  (HandleRepairFrame (mkRepairFrame (mkBlockMetadata 0 0) []) m).1 = Panic "index out of range".
Proof. vm_compute. reflexivity. Qed.

(** A REPAIR frame with a parity ID that the code does not have makes the
    Reed-Solomon recovery write outside its shards. *)
Example unknown_parity_id_panics :
  let '(_, m) := HandleSourceSymbolFrame (mkSourceSymbolFrame 0 (payload_slice [1; 2; 3])) rs_receiver in
  (HandleRepairFrame (mkRepairFrame (mkBlockMetadata 0 1) [1; 2; 3; 4; 5]) m).1 = Panic "index out of range".
Proof. vm_compute. reflexivity. Qed.

(** Two REPAIR frames of one block with different parity IDs make the XOR
    receiver hand up bytes that nobody sent, and with other payloads panic. *)
Example two_parity_ids_garbage :
  let '(_, m) := HandleRepairFrame (mkRepairFrame (mkBlockMetadata 0 0) [8; 2; 0; 2]) xor_receiver in
  (HandleRepairFrame (mkRepairFrame (mkBlockMetadata 0 1) [1; 1; 0; 0]) m).1 = Ok [9; 3].
Proof. vm_compute. reflexivity. Qed.

Example two_parity_ids_panic :
  let '(_, m) := HandleRepairFrame (mkRepairFrame (mkBlockMetadata 0 0) [255; 255]) xor_receiver in
  (HandleRepairFrame (mkRepairFrame (mkBlockMetadata 0 1) [0; 0]) m).1 = Panic "slice bounds out of range".
Proof. vm_compute. reflexivity. Qed.

(** With FEC disabled there is no receiver at all. *)
Example disabled_receiver_nil range new : NewReceiver range new FECDisabled = Ok None.
Proof. reflexivity. Qed.

End fecManager.
