(* ===== verification/HandleFrames.v ===== *)
(** The frame loop of a connection (connection.go, [handleFrames]): parsing the
    payload of a packet, feeding SOURCE_SYMBOL and REPAIR frames to the FEC
    receiver and handling the frames it hands up. *)

From S2P Require Import Prelude.
From S2P Require Import Varint.
From S2P Require Import Protocol.
From S2P Require Import Frames.
From S2P Require Import AckFrame.
From S2P Require Import FrameParser.
From S2P Require Import Fec.
From S2P Require Import FecCodes.
From S2P Require Import FecManager.

Module connection.
Import protocol wire ack parser fec codes fecManager.

(** ackhandler/ack_eliciting.go *)
Definition IsFrameAckEliciting (f : frame) : bool :=
  match f with
  | FAck _ | FConnectionClose _ => false
  | _ => true
  end.

Section handle.
(** The parts of the connection that the frame handlers work on: the frame
    parser, the flag [handshakeComplete] and everything else. *)
Context {St : Type}.
Context (frameParser : St → FrameParser) (handshakeComplete : St → bool).
Context (handleFrame : frame → EncryptionLevel → ConnectionID → st St ()).
Context (handleHandshakeComplete : st St ()).

Record conn := mkConn { fecReceiver : option manager; rest : St }.

Definition lift {A} (m : st St A) : st conn A := λ c,
  let '(r, s) := m (rest c) in (r, mkConn (fecReceiver c) s).

(** A method of the FEC receiver; the receiver is nil when FEC is disabled. *)
Definition on_receiver {A} (m : st manager A) : st conn A := λ c,
  match fecReceiver c with
  | None => (Panic "invalid memory address or nil pointer dereference", c)
  | Some rcv => let '(r, rcv) := m rcv in (r, mkConn (Some rcv) (rest c))
  end.

Definition handleSourceSymbolFrame (f : SourceSymbolFrame) : st conn bytes :=
  on_receiver (HandleSourceSymbolFrame f).

Definition handleRepairFrame (f : RepairFrame) : st conn bytes :=
  on_receiver (HandleRepairFrame f).

(** The local variables of the loop. *)
Record locals := mkLocals {
  isAckEliciting : bool;
  handleErr : option go_error;
  frames : list frame;
}.

Section loops.
Context (encLevel : EncryptionLevel) (destConnID : ConnectionID).
(** The callback that logs the frames of the packet, nil if there is no tracer. *)
Context (log : option (list frame → St → St)).

(** A frame was parsed. *)
Definition parsed (f : frame) (v : locals) : locals :=
  mkLocals (isAckEliciting v || IsFrameAckEliciting f) (handleErr v)
    (match log with Some _ => frames v ++ [f] | None => frames v end).

(** An error of a handler: returned at once without a tracer; otherwise kept,
    and the remaining frames are parsed but not handled. *)
Definition handled {A} (m : st conn A) (none : A) (v : locals) : st conn (A * locals) := λ c,
  match m c with
  | (Ok a, c) => (Ok (a, v), c)
  | (Err e, c) =>
      match log with
      | None => (Err e, c)
      | Some _ => (Ok (none, mkLocals (isAckEliciting v) (Some e) (frames v)), c)
      end
  | (Panic m, c) => (Panic m, c)
  end.

Definition handleOne (f : frame) (v : locals) : st conn locals :=
  match handleErr v with
  | Some _ => mret v
  | None => '(_, v) ← handled (lift (handleFrame f encLevel destConnID)) tt v; mret v
  end.

(** The loop over the payload of a source symbol. *)
Fixpoint handleBlockData (fuel : nat) (blockData : bytes) (v : locals) : st conn locals :=
  match fuel with
  | O => st_panic "out of fuel"
  | S fuel =>
      if blen blockData =? 0 then mret v else
      c ← st_get;
      let '(l, r) := ParseNext (frameParser (rest c)) blockData encLevel in
      frame ← st_lift r;
      let blockData := drop (Z.to_nat l) blockData in
      match frame with
      | None => mret v
      | Some f => v ← handleOne f (parsed f v); handleBlockData fuel blockData v
      end
  end.

(** The switch over the frame. *)
Definition dispatch (f : frame) (v : locals) : st conn locals :=
  match handleErr v with
  | Some _ => mret v
  | None =>
      match f with
      | FSourceSymbol f =>
          '(blockData, v) ← handled (handleSourceSymbolFrame f) [] v;
          handleBlockData (S (length blockData)) blockData v
      | FRepair f =>
          '(blockData, v) ← handled (handleRepairFrame f) [] v;
          handleBlockData (S (length blockData)) blockData v
      | f => '(_, v) ← handled (lift (handleFrame f encLevel destConnID)) tt v; mret v
      end
  end.

Fixpoint handleLoop (fuel : nat) (data : bytes) (v : locals) : st conn locals :=
  match fuel with
  | O => st_panic "out of fuel"
  | S fuel =>
      if blen data =? 0 then mret v else
      c ← st_get;
      let '(l, r) := ParseNext (frameParser (rest c)) data encLevel in
      frame ← st_lift r;
      let data := drop (Z.to_nat l) data in
      match frame with
      | None => mret v
      | Some f => v ← dispatch f (parsed f v); handleLoop fuel data v
      end
  end.

Definition handleFrames (data : bytes) : st conn bool :=
  c ← st_get;
  let handshakeWasComplete := handshakeComplete (rest c) in
  v ← handleLoop (S (length data)) data (mkLocals false None []);
  _ ← match log with
      | None => mret tt
      | Some log =>
          _ ← lift (st_modify (log (frames v)));
          match handleErr v with Some e => st_fail e | None => mret tt end
      end;
  c ← st_get;
  _ ← (if negb handshakeWasComplete && handshakeComplete (rest c)
       then lift handleHandshakeComplete else mret tt);
  mret (isAckEliciting v).

End loops.

(** * What the loops do with the frames of a payload *)

Section frames.
Context (encLevel : EncryptionLevel) (destConnID : ConnectionID).

(** Handling a list of frames one after the other. *)
Definition handleAll (fs : list frame) : st St () :=
  st_iter (λ f, handleFrame f encLevel destConnID) fs.

(** The handlers of the frames of this packet leave the parser as it is. *)
Definition keeps_parser : Prop := ∀ f s, frameParser (handleFrame f encLevel destConnID s).2 = frameParser s.

Context (Hkeep : keeps_parser).
Abbreviation blockData := (handleBlockData encLevel destConnID None).
Abbreviation loop := (handleLoop encLevel destConnID None).

Lemma handleOne_ok f v c s' : handleErr v = None →
  handleFrame f encLevel destConnID (rest c) = (Ok tt, s') →
  handleOne encLevel destConnID None f v c = (Ok v, mkConn (fecReceiver c) s').
Proof.
  intros Hv Hf. unfold handleOne, handled, lift, mbind, st_bind, mret, st_ret. by rewrite Hv, Hf.
Qed.

Lemma st_iter_cons_ok {A} (body : A → st St ()) x l s s' :
  st_iter body (x :: l) s = (Ok tt, s') → ∃ s1, body x s = (Ok tt, s1) ∧ st_iter body l s1 = (Ok tt, s').
Proof.
  cbn [st_iter]. unfold mbind, st_bind. destruct (body x s) as [[[]|e|m] s1]; [by eauto|done..].
Qed.

Lemma handleBlockData_frames p fuel data fs v c s' :
  parsePayload p encLevel fuel data = Ok fs → frameParser (rest c) = p → handleErr v = None →
  handleAll fs (rest c) = (Ok tt, s') →
  ∃ v', blockData fuel data v c = (Ok v', mkConn (fecReceiver c) s') ∧ handleErr v' = None ∧
    (isAckEliciting v = true → isAckEliciting v' = true).
Proof.
  revert data fs v c. induction fuel as [|fuel IH]; intros data fs v c Hpar Hp Hv Hall; [done|].
  cbn [parsePayload handleBlockData] in *. destruct (blen data =? 0).
  { simplify_eq/=. injection Hall as <-. exists v. by destruct c. }
  unfold mbind at 1, st_bind at 1, st_get. rewrite Hp.
  destruct (ParseNext p data encLevel) as [l r]. apply res_bind_inv in Hpar as (frame & -> & Hpar).
  unfold mbind at 1, st_bind at 1, st_lift. destruct frame as [f|].
  2:{ simplify_eq/=. injection Hall as <-. exists v. by destruct c. }
  apply res_bind_inv in Hpar as (fs' & Hpar & [= <-]).
  apply st_iter_cons_ok in Hall as (s1 & Hf & Hall).
  rewrite (st_bind_ok _ _ _ _ _ (handleOne_ok f (parsed None f v) c s1 Hv Hf)).
  destruct (IH _ fs' (parsed None f v) (mkConn (fecReceiver c) s1) Hpar) as (v' & E & Hv' & Hack);
    [simpl; by rewrite <- Hp, <- (Hkeep f (rest c)), Hf|done|done|].
  exists v'. split_and!; [done|done|]. intros Ha. apply Hack. simpl. by rewrite Ha.
Qed.

Lemma handleLoop_nil p fuel data v c : parsePayload p encLevel fuel data = Ok [] →
  frameParser (rest c) = p → loop fuel data v c = (Ok v, c).
Proof.
  destruct fuel as [|fuel]; [done|]. intros Hpar Hp. cbn [parsePayload handleLoop] in *.
  destruct (blen data =? 0); [done|]. unfold mbind at 1, st_bind at 1, st_get. rewrite Hp.
  destruct (ParseNext p data encLevel) as [l r]. apply res_bind_inv in Hpar as (frame & -> & Hpar).
  destruct frame as [f|]; [|done]. by apply res_bind_inv in Hpar as (fs' & _ & ?).
Qed.

Lemma handleLoop_cons p fuel data f fs v c : parsePayload p encLevel (S fuel) data = Ok (f :: fs) →
  frameParser (rest c) = p →
  ∃ data', parsePayload p encLevel fuel data' = Ok fs ∧
    loop (S fuel) data v c =
      (dispatch encLevel destConnID None f (parsed None f v) ≫= λ v, loop fuel data' v) c.
Proof.
  intros Hpar Hp. cbn [parsePayload handleLoop] in *. destruct (blen data =? 0); [done|].
  unfold mbind at 1, st_bind at 1, st_get. rewrite Hp.
  destruct (ParseNext p data encLevel) as [l r]. apply res_bind_inv in Hpar as (frame & -> & Hpar).
  destruct frame as [f'|]; [|done]. apply res_bind_inv in Hpar as (fs' & Hpar & [= <- <-]). by eexists.
Qed.

(** The frames that the FEC receiver hands up for a frame. *)
Inductive hands_up (rcv : manager) : frame → bytes → manager → Prop :=
| source_hands_up f block rcv' : HandleSourceSymbolFrame f rcv = (Ok block, rcv') →
    hands_up rcv (FSourceSymbol f) block rcv'
| repair_hands_up f block rcv' : HandleRepairFrame f rcv = (Ok block, rcv') →
    hands_up rcv (FRepair f) block rcv'.

Lemma dispatch_fec p f block rcv rcv' s s' fs v : hands_up rcv f block rcv' →
  parsePayload p encLevel (S (length block)) block = Ok fs → frameParser s = p → handleErr v = None →
  handleAll fs s = (Ok tt, s') →
  ∃ v', dispatch encLevel destConnID None f v (mkConn (Some rcv) s) = (Ok v', mkConn (Some rcv') s') ∧
    handleErr v' = None ∧ (isAckEliciting v = true → isAckEliciting v' = true).
Proof.
  intros Hup Hpar Hp Hv Hall.
  destruct (handleBlockData_frames p _ block fs v (mkConn (Some rcv') s) s' Hpar Hp Hv Hall) as (v' & E & Hv' & Hack).
  exists v'. split; [|done]. unfold dispatch. rewrite Hv.
  destruct Hup as [f block rcv' Hh|f block rcv' Hh];
    (rewrite (st_bind_ok _ _ _ (block, v) (mkConn (Some rcv') s)); [exact E|]);
    unfold handled, handleSourceSymbolFrame, handleRepairFrame, on_receiver; simpl; by rewrite Hh.
Qed.

(** A packet with one SOURCE_SYMBOL or REPAIR frame: the frames in the data
    that the receiver hands up are handled, in order. *)
Lemma handleFrames_fec f d block rcv rcv' s s' fs :
  parsePayload (frameParser s) encLevel (S (length d)) d = Ok [f] → hands_up rcv f block rcv' →
  parsePayload (frameParser s) encLevel (S (length block)) block = Ok fs →
  handleAll fs s = (Ok tt, s') → frameParser s' = frameParser s → handshakeComplete s = true →
  handleFrames encLevel destConnID None d (mkConn (Some rcv) s) = (Ok true, mkConn (Some rcv') s').
Proof.
  intros Hd Hup Hblock Hall Hp' Hhs. unfold handleFrames. unfold mbind at 1, st_bind at 1, st_get.
  set (v := mkLocals false None []). cbn [rest]. rewrite Hhs. cbn [negb andb].
  destruct (handleLoop_cons _ _ d f [] v (mkConn (Some rcv) s) Hd eq_refl) as (d' & Hd' & E).
  destruct (dispatch_fec _ f block rcv rcv' s s' fs (parsed None f v) Hup Hblock eq_refl eq_refl Hall)
    as (v' & E' & Hv' & Hack).
  rewrite (st_bind_ok _ _ _ _ _ E') in E. 
  rewrite (handleLoop_nil (frameParser s) _ _ _ (mkConn (Some rcv') s') Hd' Hp') in E.
  rewrite (st_bind_ok _ _ _ _ _ E). unfold mbind, st_bind, mret, st_ret; simpl.
  rewrite Hack; [done|]. by destruct Hup.
Qed.

Lemma handleAll_keeps fs s r s' : handleAll fs s = (r, s') → frameParser s' = frameParser s.
Proof.
  revert s. induction fs as [|f fs IH]; intros s H; [by inversion H|]. cbn [handleAll st_iter] in H.
  unfold mbind, st_bind in H. pose proof (Hkeep f s) as Hk.
  destruct (handleFrame f encLevel destConnID s) as [[[]|e|m] s1]; simpl in Hk; [|by inversion H; subst..].
  rewrite <- Hk. by eapply IH.
Qed.
End frames.
End handle.
#[global] Arguments mkConn {St}.

(** ** A lost packet *)

(** A packet with a SOURCE_SYMBOL or REPAIR frame only, as the peer reads it. *)
Lemma source_packet p lvl x inner : payload_ok inner → 0 ≤ x ≤ quicvarint.Max → lvl = Encryption1RTT →
  ∃ d, appendFrames [] [FSourceSymbol (mkSourceSymbolFrame x (payload_slice inner))] = Ok d ∧
    parsePayload p lvl (S (length d)) d =
      Ok [FSourceSymbol (mkSourceSymbolFrame x (payload_slice inner))].
Proof.
  intros Hok Hx ->. destruct (payload_roundtrip p Encryption1RTT [FSourceSymbol (mkSourceSymbolFrame x (payload_slice inner))])
    as (d & Ha & _ & Hp & Hl').
  - constructor; [|done]. split_and!; [done| |done]. split; simpl; [done|]. rewrite sl_len_payload_slice.
    destruct Hok as (_ & Hl & _). unfold MaxFECPacketBufferSize, MaxFECHeaderOverhead in Hl. lia.
  - done.
  - exists d. split; [apply (Ha [])|]. rewrite Hp by (simpl in Hl' |- *; lia). simpl. by rewrite sl_data_payload_slice.
Qed.

Lemma repair_packet p lvl q id pid : q = mkRepairFrame (mkBlockMetadata id pid) (rf_Payload q) →
  blen (rf_Payload q) ≤ MaxPacketBufferSize →
  0 ≤ id ≤ quicvarint.Max → 0 ≤ pid ≤ quicvarint.Max → lvl = Encryption1RTT →
  ∃ d, appendFrames [] [FRepair q] = Ok d ∧
    parsePayload p lvl (S (length d)) d = Ok [FRepair q].
Proof.
  intros Hq Hl Hid Hpid ->. destruct (payload_roundtrip p Encryption1RTT [FRepair q]) as (d & Ha & _ & Hp & Hl').
  - constructor; [|done]. split_and!; [done| |done]. rewrite Hq. split_and!; simpl; [done|done|].
    by apply N_ok.
  - done.
  - exists d. split; [apply (Ha [])|]. rewrite Hp by (simpl in Hl' |- *; lia). done.
Qed.

Section lost.
Context {St : Type} (frameParser : St → FrameParser) (handshakeComplete : St → bool).
Context (handleFrame : frame → EncryptionLevel → ConnectionID → st St ()).
Context (handleHandshakeComplete : st St ()) (cid : ConnectionID).
Context (Hkeep : keeps_parser frameParser handleFrame Encryption1RTT cid).

(** A packet payload that is protected: frames of a 1-RTT packet that are read
    back from it. *)
Definition protects (p : FrameParser) (fs : list frame) (payload : bytes) : Prop :=
  Forall (sendable p Encryption1RTT) fs ∧ all_but_last_delimited fs = true ∧
  appendFrames [] fs = Ok payload ∧ payload_ok payload.

Lemma protects_parse p fs payload : protects p fs payload →
  parsePayload p Encryption1RTT (S (length payload)) payload = Ok (map norm fs).
Proof.
  intros (Hs & Hd & Ha & _). destruct (payload_roundtrip p Encryption1RTT fs Hs Hd) as (e & Ha' & _ & Hp & Hl).
  specialize (Ha' []). rewrite Ha in Ha'. injection Ha' as ->. cbn [app] in *. apply Hp. lia.
Qed.

(** The packet with source symbol [x] and then the packet with the repair
    symbol, when the receiver hands up [pa] and [pb]. *)
Lemma two_packets x q s s1 s2 arrived lost pa pb rcv rcv1 rcv2 :
  protects (frameParser s) arrived pa → protects (frameParser s) lost pb →
  handleAll handleFrame Encryption1RTT cid (map norm arrived) s = (Ok tt, s1) →
  handleAll handleFrame Encryption1RTT cid (map norm lost) s1 = (Ok tt, s2) →
  handshakeComplete s = true → handshakeComplete s1 = true → 0 ≤ x ≤ quicvarint.Max →
  q = mkRepairFrame (mkBlockMetadata 0 0) (rf_Payload q) → blen (rf_Payload q) ≤ MaxPacketBufferSize →
  HandleSourceSymbolFrame (mkSourceSymbolFrame x (payload_slice pa)) rcv = (Ok pa, rcv1) →
  HandleRepairFrame q rcv1 = (Ok pb, rcv2) →
  ∃ da dq, appendFrames [] [FSourceSymbol (mkSourceSymbolFrame x (payload_slice pa))] = Ok da ∧
    appendFrames [] [FRepair q] = Ok dq ∧
    handleFrames frameParser handshakeComplete handleFrame handleHandshakeComplete
      Encryption1RTT cid None da (mkConn (Some rcv) s) = (Ok true, mkConn (Some rcv1) s1) ∧
    handleFrames frameParser handshakeComplete handleFrame handleHandshakeComplete
      Encryption1RTT cid None dq (mkConn (Some rcv1) s1) = (Ok true, mkConn (Some rcv2) s2).
Proof.
  intros Ha Hb Hha Hhb Hhs Hhs1 Hx Hq Hql Hs Hr.
  pose proof (handleAll_keeps _ _ _ _ Hkeep _ _ _ _ Hha) as Hp1.
  pose proof (handleAll_keeps _ _ _ _ Hkeep _ _ _ _ Hhb) as Hp2.
  pose proof (protects_parse _ _ _ Ha) as Hpa. pose proof (protects_parse _ _ _ Hb) as Hpb.
  destruct (source_packet (frameParser s) Encryption1RTT x pa) as (da & Hda & Hpda); [apply Ha|done|done|].
  destruct (repair_packet (frameParser s) Encryption1RTT q 0 0) as (dq & Hdq & Hpdq); [done..|].
  exists da, dq. split_and!; [done|done| |].
  - eapply handleFrames_fec; [done|exact Hpda|by constructor|exact Hpa|done|done|done].
  - rewrite <- Hp1 in Hpdq, Hpb.
    eapply handleFrames_fec; [done|exact Hpdq|by constructor|exact Hpb|done|done|done].
Qed.

(** C1: a packet that was lost is handled.  Two 1-RTT packets carry protected
    frames, [arrived] in the one and [lost] in the other, in any order; both
    endpoints use the XOR code.  When the connection has processed the packet
    that arrives and then the packet with the REPAIR frame the sender emitted,
    it has handled exactly the frames [arrived] and then the frames [lost],
    and both packets are ack-eliciting. *)
Theorem lost_packet_recovered range reedsolomon_New (first_lost : bool) s s1 s2 arrived lost pa pb :
  (∀ V (m : gmap Z V), range V m ≡ₚ map_to_list m) →
  protects (frameParser s) arrived pa → protects (frameParser s) lost pb →
  handleAll handleFrame Encryption1RTT cid (map norm arrived) s = (Ok tt, s1) →
  handleAll handleFrame Encryption1RTT cid (map norm lost) s1 = (Ok tt, s2) →
  handshakeComplete s = true → handshakeComplete s1 = true →
  ∃ snd snd' rcv rcv1 rcv2 fa fb q da dq,
    NewSender range reedsolomon_New XORFECScheme = Ok (Some snd) ∧
    NewReceiver range reedsolomon_New XORFECScheme = Ok (Some rcv) ∧
    (if first_lost then sendAll [pb; pa] snd = (Ok [(fb, []); (fa, [q])], snd')
     else sendAll [pa; pb] snd = (Ok [(fa, []); (fb, [q])], snd')) ∧
    appendFrames [] [FSourceSymbol fa] = Ok da ∧ appendFrames [] [FRepair q] = Ok dq ∧
    handleFrames frameParser handshakeComplete handleFrame handleHandshakeComplete
      Encryption1RTT cid None da (mkConn (Some rcv) s) = (Ok true, mkConn (Some rcv1) s1) ∧
    handleFrames frameParser handshakeComplete handleFrame handleHandshakeComplete
      Encryption1RTT cid None dq (mkConn (Some rcv1) s1) = (Ok true, mkConn (Some rcv2) s2).
Proof.
  intros Hrange Ha Hb Hha Hhb Hhs Hhs1. pose proof Ha as (_ & _ & _ & Hoka). pose proof Hb as (_ & _ & _ & Hokb).
  destruct first_lost.
  - destruct (xor_end_to_end range reedsolomon_New pb pa Hrange Hokb Hoka)
      as (snd & snd' & q & rcv & Hsnd & Hrcv & Hsend & Hq & Hql & _ & rcv1 & rcv2 & H1 & H2).
    destruct (two_packets 1 q s s1 s2 arrived lost pa pb rcv rcv1 rcv2) as (da & dq & ? & ? & ? & ?); [done..|].
    by eexists snd, snd', rcv, rcv1, rcv2, _, _, q, da, dq.
  - destruct (xor_end_to_end range reedsolomon_New pa pb Hrange Hoka Hokb)
      as (snd & snd' & q & rcv & Hsnd & Hrcv & Hsend & Hq & Hql & (rcv1 & rcv2 & H1 & H2) & _).
    destruct (two_packets 0 q s s1 s2 arrived lost pa pb rcv rcv1 rcv2) as (da & dq & ? & ? & ? & ?); [done..|].
    by eexists snd, snd', rcv, rcv1, rcv2, _, _, q, da, dq.
Qed.

End lost.

(** A connection that records the frames it handles. *)
Definition record_frame (f : frame) (_ : EncryptionLevel) (_ : ConnectionID) : st (list frame) () :=
  st_modify (λ s, s ++ [f]).

Definition stream_frame (id : Z) (data : bytes) (dataLenPresent : bool) : frame :=
  FStream (mkStreamFrame id 0 data false dataLenPresent false false).

Lemma lost_packet_recovered_witness :
  let p := mkFrameParser 3 false in
  let arrived := [FPing mkPingFrame; stream_frame 4 [97; 98] false] in
  let lost := [stream_frame 8 [99] true] in
  ∃ pa pb snd snd' rcv rcv1 rcv2 fa fb q da dq,
    appendFrames [] arrived = Ok pa ∧ appendFrames [] lost = Ok pb ∧
    NewSender (λ V m, map_to_list m) (λ _ _, Err EOF) XORFECScheme = Ok (Some snd) ∧
    NewReceiver (λ V m, map_to_list m) (λ _ _, Err EOF) XORFECScheme = Ok (Some rcv) ∧
    sendAll [pa; pb] snd = (Ok [(fa, []); (fb, [q])], snd') ∧
    appendFrames [] [FSourceSymbol fa] = Ok da ∧ appendFrames [] [FRepair q] = Ok dq ∧
    handleFrames (λ _, p) (λ _, true) record_frame (mret tt) Encryption1RTT ConnectionID_zero None da
      (mkConn (Some rcv) []) = (Ok true, mkConn (Some rcv1) arrived) ∧
    handleFrames (λ _, p) (λ _, true) record_frame (mret tt) Encryption1RTT ConnectionID_zero None dq
      (mkConn (Some rcv1) arrived) = (Ok true, mkConn (Some rcv2) (arrived ++ lost)).
Proof.
  intros p arrived lost.
  assert (Hp : ∀ fs payload, appendFrames [] fs = Ok payload → Forall (sendable p Encryption1RTT) fs →
    all_but_last_delimited fs = true → payload_ok payload → protects p fs payload) by (intros; by split_and!).
  eexists _, _. destruct (lost_packet_recovered (λ _, p) (λ _, true) record_frame (mret tt) ConnectionID_zero
    (λ _ _, eq_refl) (λ V m, map_to_list m) (λ _ _, Err EOF) false [] arrived (arrived ++ lost) arrived lost
    [0x1; 0x8; 4; 97; 98] [0xa; 8; 1; 99])
    as (snd & snd' & rcv & rcv1 & rcv2 & fa & fb & q & da & dq & H).
  - done.
  - apply Hp; [reflexivity| |reflexivity|split_and!; [done|done|repeat constructor; done]].
    repeat (apply Forall_cons; split); [..|apply Forall_nil; done];
      repeat (split || constructor); vm_compute; intuition discriminate.
  - apply Hp; [reflexivity| |reflexivity|split_and!; [done|done|repeat constructor; done]].
    repeat (apply Forall_cons; split); [..|apply Forall_nil; done];
      repeat (split || constructor); vm_compute; intuition discriminate.
  - reflexivity.
  - reflexivity.
  - done.
  - done.
  - exists snd, snd', rcv, rcv1, rcv2, fa, fb, q, da, dq. split; [reflexivity|]. split; [reflexivity|]. exact H.
Defined.

(** The framer omits the length of the last STREAM frame of a packet, and the
    Reed-Solomon recovery returns the payloads of all lost packets in one
    string: the frame without length then takes the next payload for its data.
    The same happens to a SOURCE_SYMBOL frame that is written after an
    unprotected STREAM frame without length. *)
Example undelimited_frame_swallows_the_next :
  let p := mkFrameParser 3 false in
  ∃ p1 p2, appendFrames [] [stream_frame 4 [97; 98] false] = Ok p1 ∧
    appendFrames [] [stream_frame 8 [99] false] = Ok p2 ∧
    parsePayload p Encryption1RTT 9 (concat [p1; p2]) = Ok [stream_frame 4 ([97; 98] ++ p2) false].
Proof. eexists _, _. split; [reflexivity|]. split; reflexivity. Qed.

End connection.
