(* ===== verification/RingBuffer.v ===== *)
(** The growing ring buffer (internal/utils/ringbuffer) and its refinement of
    a list, and the bounded send queues built on it: repair_queue.go and
    datagram_queue.go. *)

From S2P Require Import Prelude.
From S2P Require Import Protocol.
From S2P Require Import Frames.

Module ringbuffer.

Section ring.
(** The element type with its zero value. *)
Context {T : Type} (zero : T).

Record RingBuffer := mkRingBuffer {
  ring : list T;
  headPos : Z; tailPos : Z;
  full : bool;
}.

Definition empty_ring : RingBuffer := mkRingBuffer [] 0 0 false.

Definition Init (size : Z) (r : RingBuffer) : RingBuffer :=
  mkRingBuffer (replicate (Z.to_nat size) zero) (headPos r) (tailPos r) (full r).

Definition Len (r : RingBuffer) : Z :=
  if full r then blen (ring r)
  else if headPos r <=? tailPos r then tailPos r - headPos r
  else tailPos r - headPos r + blen (ring r).

Definition Empty (r : RingBuffer) : bool := negb (full r) && (headPos r =? tailPos r).

(** [copy(dst, src)]. *)
Definition go_copy (dst src : list T) : list T := take (length dst) src ++ drop (length src) dst.

Definition grow (r : RingBuffer) : RingBuffer :=
  let oldRing := ring r in
  let newSize := blen oldRing * 2 in
  let newSize := if newSize =? 0 then 1 else newSize in
  let new := replicate (Z.to_nat newSize) zero in
  let src := drop (Z.to_nat (headPos r)) oldRing in
  let new := go_copy new src in
  let headLen := Nat.min (length new) (length src) in
  let new := take headLen new ++ go_copy (drop headLen new) (take (Z.to_nat (headPos r)) oldRing) in
  mkRingBuffer new 0 (blen oldRing) false.

Definition PushBack (t : T) (r : RingBuffer) : res RingBuffer :=
  let r := if full r || (blen (ring r) =? 0) then grow r else r in
  ring ← set_at (ring r) (tailPos r) t;
  let tail := tailPos r + 1 in
  let tail := if tail =? blen ring then 0 else tail in
  Ok (mkRingBuffer ring (headPos r) tail (if tail =? headPos r then true else full r)).

Definition PopFront (r : RingBuffer) : res (T * RingBuffer) :=
  if Empty r then Panic "pop from an empty queue" else
  t ← get_at (ring r) (headPos r);
  ring ← set_at (ring r) (headPos r) zero;
  let head := headPos r + 1 in
  let head := if head =? blen ring then 0 else head in
  Ok (t, mkRingBuffer ring head (tailPos r) false).

Definition PeekFront (r : RingBuffer) : res T :=
  if Empty r then Panic "peek from an empty queue" else get_at (ring r) (headPos r).

Definition Clear (r : RingBuffer) : RingBuffer :=
  mkRingBuffer (replicate (length (ring r)) zero) 0 0 false.

(** * The queue a ring buffer represents *)

Definition contents (r : RingBuffer) : list T :=
  let h := Z.to_nat (headPos r) in let t := Z.to_nat (tailPos r) in
  if full r then drop h (ring r) ++ take h (ring r)
  else if headPos r <=? tailPos r then take (t - h) (drop h (ring r))
  else drop h (ring r) ++ take t (ring r).

(** A ring buffer represents a queue in four shapes: nothing allocated; the
    elements in the middle; the elements wrapped around the free ones; full. *)
Inductive represents : RingBuffer → list T → Prop :=
| rep_nil : represents (mkRingBuffer [] 0 0 false) []
| rep_inner a l b : b ≠ [] →
    represents (mkRingBuffer (a ++ l ++ b) (blen a) (blen a + blen l) false) l
| rep_wrap a f l : f ≠ [] → l ≠ [] →
    represents (mkRingBuffer (a ++ f ++ l) (blen a + blen f) (blen a) false) (l ++ a)
| rep_full a l : l ≠ [] → represents (mkRingBuffer (a ++ l) (blen a) (blen a) true) (l ++ a).

Lemma blen_pos {A} (l : list A) : l ≠ [] → 1 ≤ blen l.
Proof. destruct l; [done|]. rewrite blen_cons. pose proof (blen_nonneg l). lia. Qed.

Lemma represents_contents r l : represents r l → contents r = l.
Proof.
  unfold contents. destruct 1 as [|a l b Hb|a f l Hf Hl|a l Hl]; simpl.
  - done.
  - pose proof (blen_nonneg l). rewrite (proj2 (Z.leb_le _ _)) by lia. unfold blen.
    rewrite Nat2Z.id, <- Nat2Z.inj_add, Nat2Z.id, drop_app_length.
    replace (length a + length l - length a)%nat with (length l) by lia. apply take_app_length.
  - pose proof (blen_pos f Hf). rewrite (proj2 (Z.leb_gt _ _)) by lia.
    rewrite <- blen_app, !to_nat_blen, app_assoc, drop_app_length. f_equal.
    rewrite <- app_assoc. apply take_app_length.
  - rewrite !to_nat_blen, drop_app_length. f_equal. apply take_app_length.
Qed.

Lemma set_at_mid {A} (l r : list A) x v i : blen l = i → set_at (l ++ x :: r) i v = Ok (l ++ v :: r).
Proof.
  intros <-. unfold set_at. rewrite blen_app, blen_cons. pose proof (blen_nonneg l). pose proof (blen_nonneg r).
  rewrite (proj2 (Z.ltb_ge _ _)), (proj2 (Z.leb_gt _ _)) by lia. simpl.
  by rewrite to_nat_blen, insert_app_r_alt, Nat.sub_diag by lia.
Qed.

Lemma get_at_mid {A} (l r : list A) x i : blen l = i → get_at (l ++ x :: r) i = Ok x.
Proof. intros <-. apply get_at_lookup. by rewrite list_lookup_middle. Qed.

Lemma Len_represents r l : represents r l → Len r = blen l.
Proof.
  unfold Len. destruct 1 as [|a l b Hb|a f l Hf Hl|a l Hl]; simpl.
  - done.
  - pose proof (blen_nonneg l). rewrite (proj2 (Z.leb_le _ _)); lia.
  - pose proof (blen_pos f Hf). rewrite (proj2 (Z.leb_gt _ _)) by lia. rewrite !blen_app. lia.
  - rewrite !blen_app. lia.
Qed.

Lemma Empty_represents r l : represents r l → Empty r = bool_decide (l = []).
Proof.
  unfold Empty. destruct 1 as [|a l b Hb|a f l Hf Hl|a l Hl]; simpl.
  - done.
  - destruct l as [|x l]; rewrite ?blen_cons.
    + change (blen []) with 0. by rewrite Z.add_0_r, Z.eqb_refl.
    + pose proof (blen_nonneg l). apply Z.eqb_neq. lia.
  - pose proof (blen_pos f Hf). rewrite bool_decide_eq_false_2; [apply Z.eqb_neq; lia|]. by destruct l.
  - rewrite bool_decide_eq_false_2; [done|]. by destruct l.
Qed.

(** Pushing when there is room. *)
Lemma push_inner t a l x b : let r := mkRingBuffer (a ++ l ++ x :: b) (blen a) (blen a + blen l) false in
  ∃ r', (ring ← set_at (ring r) (tailPos r) t;
         let tail := tailPos r + 1 in
         let tail := if tail =? blen ring then 0 else tail in
         Ok (mkRingBuffer ring (headPos r) tail (if tail =? headPos r then true else full r))) = Ok r' ∧
    represents r' (l ++ [t]).
Proof.
  intros r. simpl. rewrite (app_assoc a), set_at_mid by apply blen_app. simpl.
  rewrite <- !app_assoc, !blen_app, blen_cons. pose proof (blen_nonneg l). pose proof (blen_nonneg a).
  pose proof (blen_nonneg b). eexists. split; [done|]. destruct b as [|y b].
  - change (blen []) with 0. rewrite (proj2 (Z.eqb_eq _ _)) by lia. destruct a as [|z a].
    + pose proof (rep_full [] (l ++ [t])) as H'. rewrite app_nil_r in H'. apply H'. by destruct l.
    + rewrite blen_cons in *. rewrite (proj2 (Z.eqb_neq _ _)) by (pose proof (blen_nonneg a); lia).
      pose proof (rep_wrap [] (z :: a) (l ++ [t])) as H'. rewrite app_nil_r in H'.
      rewrite <- (blen_cons z a). apply H'; [done|by destruct l].
  - rewrite blen_cons in *. pose proof (blen_nonneg b). rewrite (proj2 (Z.eqb_neq _ _)) by lia.
    rewrite (proj2 (Z.eqb_neq _ _)) by lia. rewrite (cons_middle t l), (app_assoc l).
    replace (blen a + blen l + 1) with (blen a + blen (l ++ [t])) by (rewrite blen_app, blen_one; lia).
    by apply rep_inner.
Qed.

Lemma grow_full a l : l ≠ [] →
  grow (mkRingBuffer (a ++ l) (blen a) (blen a) true) =
  mkRingBuffer ((l ++ a) ++ replicate (length (a ++ l)) zero) 0 (blen (l ++ a)) false.
Proof.
  intros Hl. unfold grow; simpl. pose proof (blen_pos l Hl). pose proof (blen_nonneg a).
  assert (Hn : Z.to_nat (if blen (a ++ l) * 2 =? 0 then 1 else blen (a ++ l) * 2) = (length l + (length a + length (a ++ l)))%nat).
  { rewrite blen_app, (proj2 (Z.eqb_neq _ _)) by lia. rewrite length_app. unfold blen. lia. }
  rewrite Hn, to_nat_blen, drop_app_length, take_app_length. unfold go_copy.
  rewrite length_replicate, (take_ge l) by lia. rewrite drop_replicate.
  replace (length l + (length a + length (a ++ l)) - length l)%nat with (length a + length (a ++ l))%nat by lia.
  rewrite length_app, length_replicate, Nat.min_r by lia.
  rewrite take_app_length, drop_app_length, length_replicate, (take_ge a) by lia.
  rewrite drop_replicate, !length_app.
  replace (length a + (length a + length l) - length a)%nat with (length a + length l)%nat by lia.
  rewrite app_assoc. f_equal. rewrite !blen_app. lia.
Qed.

Lemma PushBack_represents t r l : represents r l →
  ∃ r', PushBack t r = Ok r' ∧ represents r' (l ++ [t]).
Proof.
  unfold PushBack. destruct 1 as [|a l b Hb|a f l Hf Hl|a l Hl].
  - eexists. split; [reflexivity|]. apply (rep_full [] [t]). done.
  - destruct b as [|x b]; [done|]. cbn [full orb ring].
    rewrite (proj2 (Z.eqb_neq _ _)) by (rewrite !blen_app, blen_cons; pose proof (blen_nonneg a);
      pose proof (blen_nonneg l); pose proof (blen_nonneg b); lia).
    apply push_inner.
  - destruct f as [|x f]; [done|]. cbn [full orb ring tailPos headPos]. pose proof (blen_nonneg a).
    pose proof (blen_pos l Hl). pose proof (blen_nonneg f).
    rewrite (proj2 (Z.eqb_neq _ _)) by (rewrite !blen_app, blen_cons; lia).
    cbn [app tailPos ring headPos full]. rewrite set_at_mid by done. cbn [mbind res_bind].
    rewrite !blen_app, !blen_cons, blen_app, (proj2 (Z.eqb_neq _ _)) by lia.
    eexists. split; [done|]. rewrite (cons_middle t a), (app_assoc a). destruct f as [|y f].
    + change (blen []) with 0. rewrite (proj2 (Z.eqb_eq _ _)) by lia. cbn [app].
      pose proof (rep_full (a ++ [t]) l Hl) as H'. rewrite blen_app, blen_one, (app_assoc l) in H'.
      by replace (blen a + (1 + 0)) with (blen a + 1) by lia.
    + rewrite blen_cons in *. pose proof (blen_nonneg f). rewrite (proj2 (Z.eqb_neq _ _)) by lia.
      pose proof (rep_wrap (a ++ [t]) (y :: f) l ltac:(done) Hl) as H'. rewrite blen_app, blen_one, blen_cons, (app_assoc l) in H'.
      by replace (blen a + (1 + (1 + blen f))) with (blen a + 1 + (1 + blen f)) by lia.
  - rewrite grow_full by done. cbn [full orb]. pose proof (blen_pos l Hl).
    assert (Hn : length (a ++ l) = S (pred (length (a ++ l)))) by (destruct l; [done|]; rewrite length_app; simpl; lia).
    rewrite Hn. cbn [replicate]. apply (push_inner t [] (l ++ a) zero).
Qed.

Lemma PopFront_represents r x l : represents r (x :: l) →
  ∃ r', PopFront r = Ok (x, r') ∧ represents r' l ∧ PeekFront r = Ok x.
Proof.
  intros H. unfold PopFront, PeekFront. rewrite (Empty_represents _ _ H), bool_decide_eq_false_2 by done.
  inversion H as [|a l' b Hb|a f l' Hf Hl|a l' Hl]; subst; cbn [ring headPos tailPos full].
  - pose proof (blen_nonneg a). pose proof (blen_nonneg l). pose proof (blen_pos b Hb).
    cbn [app]. rewrite get_at_mid, set_at_mid by done. cbn [mbind res_bind].
    rewrite !blen_app, !blen_cons, blen_app, (proj2 (Z.eqb_neq _ _)) by lia.
    eexists. split; [done|]. split; [|done]. rewrite (cons_middle zero a), (app_assoc a).
    pose proof (rep_inner (a ++ [zero]) l b Hb) as H'. rewrite blen_app, blen_one in H'.
    by replace (blen a + (1 + blen l)) with (blen a + 1 + blen l) by lia.
  - destruct l' as [|x' l']; [done|]. simplify_eq/=. rewrite (app_assoc a f).
    rewrite get_at_mid, set_at_mid by apply blen_app. cbn [mbind res_bind].
    pose proof (blen_nonneg a). pose proof (blen_pos f Hf). pose proof (blen_nonneg l').
    rewrite !blen_app, !blen_cons. eexists. split; [done|]. split; [|done]. destruct l' as [|y l'].
    + change (blen []) with 0. rewrite (proj2 (Z.eqb_eq _ _)) by lia. rewrite <- app_assoc.
      apply (rep_inner [] a (f ++ [zero])). by destruct f.
    + rewrite (proj2 (Z.eqb_neq _ _)) by (rewrite blen_cons in *; pose proof (blen_nonneg l'); lia).
      rewrite <- app_assoc, (cons_middle zero f), (app_assoc f).
      replace (blen a + blen f + 1) with (blen a + blen (f ++ [zero])) by (rewrite blen_app, blen_one; lia).
      apply (rep_wrap a (f ++ [zero]) (y :: l')); [by destruct f|done].
  - destruct l' as [|x' l']; [done|]. simplify_eq/=. rewrite get_at_mid, set_at_mid by done. cbn [mbind res_bind].
    pose proof (blen_nonneg a). pose proof (blen_nonneg l').
    rewrite !blen_app, !blen_cons. eexists. split; [done|]. split; [|done]. destruct l' as [|y l'].
    + change (blen []) with 0. rewrite (proj2 (Z.eqb_eq _ _)) by lia. by apply (rep_inner [] a [zero]).
    + rewrite (proj2 (Z.eqb_neq _ _)) by (rewrite blen_cons in *; pose proof (blen_nonneg l'); lia).
      rewrite <- (blen_one zero). by apply (rep_wrap a [zero] (y :: l')).
Qed.

Lemma pop_empty r : represents r [] → PopFront r = Panic "pop from an empty queue" ∧
  PeekFront r = Panic "peek from an empty queue".
Proof. intros H. unfold PopFront, PeekFront. by rewrite (Empty_represents _ _ H). Qed.

Lemma Clear_represents r : represents (Clear r) [].
Proof.
  unfold Clear. destruct (ring r) as [|x l]; [apply rep_nil|]. by apply (rep_inner [] [] (replicate _ zero)).
Qed.

(** * Runs of operations *)

Inductive op := Push (t : T) | Pop | Reset.

(** The elements popped and the state reached. *)
Fixpoint run_ring (ops : list op) (r : RingBuffer) : res (list T * RingBuffer) :=
  match ops with
  | [] => Ok ([], r)
  | Push t :: ops => r ← PushBack t r; run_ring ops r
  | Pop :: ops => '(t, r) ← PopFront r; '(out, r) ← run_ring ops r; Ok (t :: out, r)
  | Reset :: ops => run_ring ops (Clear r)
  end.

Fixpoint run_queue (ops : list op) (l : list T) : res (list T * list T) :=
  match ops with
  | [] => Ok ([], l)
  | Push t :: ops => run_queue ops (l ++ [t])
  | Pop :: ops =>
      match l with
      | [] => Panic "pop from an empty queue"
      | t :: l => '(out, l) ← run_queue ops l; Ok (t :: out, l)
      end
  | Reset :: ops => run_queue ops []
  end.

Lemma run_ring_refines ops r l : represents r l →
  match run_queue ops l with
  | Ok (out, l') => ∃ r', run_ring ops r = Ok (out, r') ∧ represents r' l'
  | Err e => run_ring ops r = Err e
  | Panic m => run_ring ops r = Panic m
  end.
Proof.
  revert r l. induction ops as [|o ops IH]; intros r l Hr; [by exists r|].
  destruct o as [t| |]; cbn [run_ring run_queue].
  - destruct (PushBack_represents t r l Hr) as (r1 & -> & Hr1). apply (IH r1 _ Hr1).
  - destruct l as [|x l]; [by rewrite (proj1 (pop_empty r Hr))|].
    destruct (PopFront_represents r x l Hr) as (r1 & -> & Hr1 & _). specialize (IH r1 l Hr1). cbn [mbind res_bind].
    destruct (run_queue ops l) as [[out l']|e|m]; [|by rewrite IH..].
    destruct IH as (r' & -> & Hr'). by exists r'.
  - apply IH, Clear_represents.
Qed.

(** C38: the ring buffer is a queue.  Started empty, any sequence of [PushBack],
    [PopFront] and [Clear] (with the growing, the wrap-around and the
    overwriting of popped slots that they involve) yields the elements of a
    first-in first-out queue, panics exactly when the queue would be popped
    while empty, and never indexes outside its slice; [Len], [Empty] and
    [PeekFront] of the state reached are those of the queue. *)
Theorem ring_refines_queue (ops : list op) :
  match run_queue ops [] with
  | Ok (out, l) => ∃ r, run_ring ops empty_ring = Ok (out, r) ∧ contents r = l ∧ Len r = blen l ∧
      Empty r = bool_decide (l = []) ∧ (∀ x, head l = Some x → PeekFront r = Ok x)
  | Err _ => False
  | Panic m => run_ring ops empty_ring = Panic m
  end.
Proof.
  pose proof (run_ring_refines ops empty_ring [] rep_nil) as H.
  destruct (run_queue ops []) as [[out l]|e|m] eqn:E; [|clear H|done].
  - destruct H as (r & Hr & Hrep). exists r. split_and!; [done|by apply represents_contents|
      by apply Len_represents|by apply Empty_represents|].
    intros x Hx. destruct l as [|y l]; [done|]. simplify_eq/=.
    by destruct (PopFront_represents _ _ _ Hrep) as (_ & _ & _ & ?).
  - revert E. generalize (@nil T). induction ops as [|[t| |] ops IH]; intros l E; simpl in E; [done|by eauto| |by eauto].
    destruct l as [|x l]; [done|]. destruct (run_queue ops l) as [[]|e'|] eqn:E'; simpl in E; [done| |done]. injection E as ->. by eapply IH.
Qed.

End ring.
End ringbuffer.
