(* ===== verification/Queues.v ===== *)
(** The send queue of REPAIR frames (repair_queue.go) and the queues of DATAGRAM
    frames (datagram_queue.go), the latter as a transition system of the
    goroutines that call them. *)

From S2P Require Import Prelude.
From S2P Require Import Protocol.
From S2P Require Import Frames.
From S2P Require Import RingBuffer.

Module queues.
Import protocol wire ringbuffer.

(** * The repair queue *)

Definition maxRepairSendQueueLen : Z := 32.

Record repairQueue := mkRepairQueue {
  sendQueue : RingBuffer (T := option RepairFrame);   (* pointers: None is nil *)
  sent : bool;                                        (* the token of the channel [sent] *)
  closeErr : option go_error;
  closed : bool;
  hasDataCalls : nat;                                 (* calls of the callback [hasData] *)
}.

Definition newRepairQueue : repairQueue := mkRepairQueue empty_ring false None false 0.

Definition repair_Add (f : RepairFrame) : st repairQueue () := λ h,
  if Len (sendQueue h) <? maxRepairSendQueueLen
  then match PushBack None (Some f) (sendQueue h) with
       | Ok r => (Ok tt, mkRepairQueue r (sent h) (closeErr h) (closed h) (S (hasDataCalls h)))
       | Err e => (Err e, h)
       | Panic m => (Panic m, h)
       end
  else (Panic "repair queue full", h).

Definition repair_Peek (h : repairQueue) : res (option RepairFrame) :=
  if Empty (sendQueue h) then Ok None else PeekFront (sendQueue h).

Definition repair_Pop : st repairQueue () := λ h,
  match PopFront None (sendQueue h) with
  | Ok (_, r) => (Ok tt, mkRepairQueue r true (closeErr h) (closed h) (hasDataCalls h))
  | Err e => (Err e, h)
  | Panic m => (Panic m, h)
  end.

Definition repair_CloseWithError (e : go_error) : st repairQueue () := λ h,
  let h' := mkRepairQueue (sendQueue h) (sent h) (Some e) (closed h) (hasDataCalls h) in
  if closed h then (Panic "close of closed channel", h')
  else (Ok tt, mkRepairQueue (sendQueue h) (sent h) (Some e) true (hasDataCalls h)).

(** The frames in the queue. *)
Definition holds (h : repairQueue) (l : list RepairFrame) : Prop :=
  represents (sendQueue h) (Some <$> l).

Lemma repair_Add_ok h l f : holds h l → blen l < maxRepairSendQueueLen →
  ∃ h', repair_Add f h = (Ok tt, h') ∧ holds h' (l ++ [f]) ∧ hasDataCalls h' = S (hasDataCalls h).
Proof.
  intros Hh Hl. unfold repair_Add. rewrite (Len_represents _ _ Hh). unfold blen in *. rewrite length_fmap, (proj2 (Z.ltb_lt _ _)) by done.
  destruct (PushBack_represents None (Some f) _ _ Hh) as (r & -> & Hr). eexists. split; [done|]. split; [|done].
  unfold holds. simpl. by rewrite fmap_app.
Qed.

(** The repair queue.  For a queue that holds the frames [l]: [Add] appends
    a frame and notifies the sender if fewer than [maxRepairSendQueueLen] are
    queued, and panics otherwise; [Peek] returns the first frame, nil for an
    empty queue; [Pop] removes the first frame, and panics if there is none. *)
Theorem repair_queue_correct h l f : holds h l →
  (if blen l <? maxRepairSendQueueLen
   then ∃ h', repair_Add f h = (Ok tt, h') ∧ holds h' (l ++ [f]) ∧ hasDataCalls h' = S (hasDataCalls h)
   else repair_Add f h = (Panic "repair queue full", h)) ∧
  repair_Peek h = Ok (head l) ∧
  match l with
  | [] => repair_Pop h = (Panic "pop from an empty queue", h)
  | _ :: l' => ∃ h', repair_Pop h = (Ok tt, h') ∧ holds h' l' ∧ sent h' = true
  end.
Proof.
  intros Hh. split_and!.
  - destruct (Z.ltb_spec (blen l) maxRepairSendQueueLen); [by apply repair_Add_ok|]. unfold repair_Add.
    rewrite (Len_represents _ _ Hh). unfold blen in *. by rewrite length_fmap, (proj2 (Z.ltb_ge _ _)).
  - unfold repair_Peek. rewrite (Empty_represents _ _ Hh). destruct l as [|x l]; [done|].
    rewrite bool_decide_eq_false_2 by done. by destruct (PopFront_represents None _ _ _ Hh) as (_ & _ & _ & ->).
  - unfold repair_Pop. destruct l as [|x l].
    + by rewrite (proj1 (pop_empty None _ Hh)).
    + destruct (PopFront_represents None _ _ _ Hh) as (r & -> & Hr & _). by eexists.
Qed.

Lemma repair_queue_correct_witness :
  ∃ h', repair_Add (mkRepairFrame (mkBlockMetadata 0 0) []) newRepairQueue = (Ok tt, h') ∧
    holds h' [mkRepairFrame (mkBlockMetadata 0 0) []] ∧ hasDataCalls h' = 1%nat.
Proof. apply (repair_queue_correct newRepairQueue []). apply rep_nil. Defined.

(** * The datagram queue *)

Definition maxDatagramSendQueueLen : Z := 32.
Definition maxDatagramRcvQueueLen : Z := 128.

Record datagramQueue := mkDatagramQueue {
  dq_sendQueue : RingBuffer (T := option DatagramFrame);
  dq_sent : bool;
  rcvQueue : list bytes;
  rcvd : bool;
  dq_closed : option go_error;       (* [closeErr], once [closed] is closed *)
}.

Definition newDatagramQueue : datagramQueue := mkDatagramQueue empty_ring false [] false None.

(** One round of the loop of [Add], up to the second [select]: the frame is
    queued, or the token of [sent] is drained and the caller waits. *)
Inductive add_outcome := Queued (h : datagramQueue) | MustWait (h : datagramQueue) | AddPanics.

Definition datagram_Add (f : DatagramFrame) (h : datagramQueue) : add_outcome :=
  if Len (dq_sendQueue h) <? maxDatagramSendQueueLen
  then match PushBack None (Some f) (dq_sendQueue h) with
       | Ok r => Queued (mkDatagramQueue r (dq_sent h) (rcvQueue h) (rcvd h) (dq_closed h))
       | _ => AddPanics
       end
  else MustWait (mkDatagramQueue (dq_sendQueue h) false (rcvQueue h) (rcvd h) (dq_closed h)).

Definition datagram_Peek (h : datagramQueue) : res (option DatagramFrame) :=
  if Empty (dq_sendQueue h) then Ok None else PeekFront (dq_sendQueue h).

Definition datagram_Pop (h : datagramQueue) : res datagramQueue :=
  '(_, r) ← PopFront None (dq_sendQueue h);
  Ok (mkDatagramQueue r true (rcvQueue h) (rcvd h) (dq_closed h)).

(** A received datagram is dropped when the queue is full. *)
Definition HandleDatagramFrame (f : DatagramFrame) (h : datagramQueue) : datagramQueue :=
  if blen (rcvQueue h) <? maxDatagramRcvQueueLen
  then mkDatagramQueue (dq_sendQueue h) (dq_sent h) (rcvQueue h ++ [df_Data f]) true (dq_closed h)
  else h.

(** One round of the loop of [Receive], up to the [select]. *)
Definition Receive (h : datagramQueue) : option (bytes * datagramQueue) :=
  match rcvQueue h with
  | data :: q => Some (data, mkDatagramQueue (dq_sendQueue h) (dq_sent h) q (rcvd h) (dq_closed h))
  | [] => None
  end.

Definition set_sent (b : bool) (h : datagramQueue) : datagramQueue :=
  mkDatagramQueue (dq_sendQueue h) b (rcvQueue h) (rcvd h) (dq_closed h).
Definition set_rcvd (b : bool) (h : datagramQueue) : datagramQueue :=
  mkDatagramQueue (dq_sendQueue h) (dq_sent h) (rcvQueue h) b (dq_closed h).
Definition set_closed (e : go_error) (h : datagramQueue) : datagramQueue :=
  mkDatagramQueue (dq_sendQueue h) (dq_sent h) (rcvQueue h) (rcvd h) (Some e).

(** ** The goroutines

    Callers of [Add] and [Receive] are about to take the lock or wait in the
    [select]; the connection pops frames, delivers datagrams and closes the
    queue.  Every locked section is one step. *)
Inductive tstate := Locking | Waiting.

Record sys := mkSys {
  queue : datagramQueue;
  adders : list (DatagramFrame * tstate);
  receivers : list tstate;
}.

Inductive step : sys → sys → Prop :=
| s_call_add h f a r : step (mkSys h a r) (mkSys h ((f, Locking) :: a) r)
| s_add_queued h h' f a1 a2 r : datagram_Add f h = Queued h' →
    step (mkSys h (a1 ++ (f, Locking) :: a2) r) (mkSys h' (a1 ++ a2) r)
| s_add_wait h h' f a1 a2 r : datagram_Add f h = MustWait h' →
    step (mkSys h (a1 ++ (f, Locking) :: a2) r) (mkSys h' (a1 ++ (f, Waiting) :: a2) r)
| s_add_woken h f a1 a2 r : dq_sent h = true →
    step (mkSys h (a1 ++ (f, Waiting) :: a2) r) (mkSys (set_sent false h) (a1 ++ (f, Locking) :: a2) r)
| s_add_closed h f a1 a2 r e : dq_closed h = Some e →
    step (mkSys h (a1 ++ (f, Waiting) :: a2) r) (mkSys h (a1 ++ a2) r)
| s_pop h h' a r : datagram_Pop h = Ok h' → step (mkSys h a r) (mkSys h' a r)
| s_handle h f a r : step (mkSys h a r) (mkSys (HandleDatagramFrame f h) a r)
| s_call_receive h a r : step (mkSys h a r) (mkSys h a (Locking :: r))
| s_receive h h' d a r1 r2 : Receive h = Some (d, h') →
    step (mkSys h a (r1 ++ Locking :: r2)) (mkSys h' a (r1 ++ r2))
| s_receive_wait h a r1 r2 : Receive h = None →
    step (mkSys h a (r1 ++ Locking :: r2)) (mkSys h a (r1 ++ Waiting :: r2))
| s_receive_woken h a r1 r2 : rcvd h = true →
    step (mkSys h a (r1 ++ Waiting :: r2)) (mkSys (set_rcvd false h) a (r1 ++ Locking :: r2))
| s_receive_done h a r1 r2 :          (* closed, or the context is done *)
    step (mkSys h a (r1 ++ Waiting :: r2)) (mkSys h a (r1 ++ r2))
| s_close h e a r : dq_closed h = None → step (mkSys h a r) (mkSys (set_closed e h) a r).

(** The states reached by runs in which at most [n] goroutines are in [Receive]. *)
Inductive reachable (n : nat) : sys → Prop :=
| r_init : reachable n (mkSys newDatagramQueue [] [])
| r_step s s' : reachable n s → step s s' → (length (receivers s') ≤ n)%nat → reachable n s'.

Definition waiting_adder (s : sys) : Prop := ∃ f, (f, Waiting) ∈ adders s.

(** A waiting caller of [Add] can still be woken: the token is there, or a
    frame is queued whose [Pop] provides it, or another caller is about to
    queue its frame. *)
Definition can_wake (s : sys) : Prop :=
  dq_sent (queue s) = true ∨ Empty (dq_sendQueue (queue s)) = false ∨ ∃ f, (f, Locking) ∈ adders s.

Record sys_inv (s : sys) : Prop := {
  inv_send : ∃ l, represents (dq_sendQueue (queue s)) (Some <$> l) ∧ blen l ≤ maxDatagramSendQueueLen;
  inv_rcv : blen (rcvQueue (queue s)) ≤ maxDatagramRcvQueueLen;
  inv_wake : waiting_adder s → can_wake s;
}.

Lemma waiting_app a1 a2 x h h' r r' : waiting_adder (mkSys h (a1 ++ a2) r) →
  waiting_adder (mkSys h' (a1 ++ x :: a2) r').
Proof. intros [f Hf]. exists f. simpl in *. set_solver. Qed.

(** A step of the senders keeps the queue bounded and never loses the token
    that wakes a waiting caller. *)
Lemma datagram_Add_spec f h l : represents (dq_sendQueue h) (Some <$> l) → blen l ≤ maxDatagramSendQueueLen →
  match datagram_Add f h with
  | Queued h' => represents (dq_sendQueue h') (Some <$> (l ++ [f])) ∧ blen (l ++ [f]) ≤ maxDatagramSendQueueLen ∧
      rcvQueue h' = rcvQueue h ∧ Empty (dq_sendQueue h') = false
  | MustWait h' => dq_sendQueue h' = dq_sendQueue h ∧ rcvQueue h' = rcvQueue h ∧ Empty (dq_sendQueue h) = false
  | AddPanics => False
  end.
Proof.
  intros Hr Hl. unfold datagram_Add. rewrite (Len_represents _ _ Hr). unfold blen at 1. rewrite length_fmap. fold (blen l).
  destruct (Z.ltb_spec (blen l) maxDatagramSendQueueLen).
  - destruct (PushBack_represents None (Some f) _ _ Hr) as (r & -> & Hr'). simpl.
    rewrite fmap_app. split_and!; [done|rewrite blen_app, blen_one; lia|done|].
    rewrite (Empty_represents _ _ Hr'). apply bool_decide_eq_false_2. by destruct (Some <$> l).
  - simpl. split_and!; [done|done|]. rewrite (Empty_represents _ _ Hr). apply bool_decide_eq_false_2.
    destruct l; [|done]. by vm_compute in H.
Qed.

Lemma HandleDatagramFrame_spec f h : blen (rcvQueue h) ≤ maxDatagramRcvQueueLen →
  let h' := HandleDatagramFrame f h in
  dq_sendQueue h' = dq_sendQueue h ∧ dq_sent h' = dq_sent h ∧ blen (rcvQueue h') ≤ maxDatagramRcvQueueLen ∧
  (rcvQueue h' = rcvQueue h ∧ rcvd h' = rcvd h ∨ rcvd h' = true).
Proof.
  intros Hl. unfold HandleDatagramFrame. destruct (Z.ltb_spec (blen (rcvQueue h)) maxDatagramRcvQueueLen); simpl.
  - split_and!; [done|done|rewrite blen_app, blen_one; lia|by right].
  - split_and!; [done|done|done|by left].
Qed.

Lemma step_inv s s' : sys_inv s → step s s' → sys_inv s'.
Proof.
  intros [(l & Hr & Hl) Hrcv Hw] Hs. unfold can_wake in *. destruct Hs; simpl in *.
  - split; unfold can_wake; simpl; [by exists l|done|]. intros _. right. right. exists f. set_solver.
  - pose proof (datagram_Add_spec f h l Hr Hl) as Ha. rewrite H in Ha. destruct Ha as (? & ? & Hq & ?).
    split; unfold can_wake; simpl; [by exists (l ++ [f])|by rewrite Hq|auto].
  - pose proof (datagram_Add_spec f h l Hr Hl) as Ha. rewrite H in Ha. destruct Ha as (Hd & Hq & ?).
    split; unfold can_wake; simpl; [exists l; by rewrite Hd|by rewrite Hq|rewrite Hd; auto].
  - split; unfold can_wake; simpl; [by exists l|done|]. intros _. right. right. exists f. set_solver.
  - split; unfold can_wake; simpl; [by exists l|done|]. intros Hg.
    destruct (Hw (waiting_app _ _ _ _ _ _ _ Hg)) as [?|[?|[g Hg']]]; [by auto|by auto|].
    right. right. exists g. set_solver.
  - unfold datagram_Pop in H. destruct l as [|x l].
    { by rewrite (proj1 (pop_empty None _ Hr)) in H. }
    destruct (PopFront_represents None _ _ _ Hr) as (r' & Hp & Hr' & _). rewrite Hp in H. injection H as <-.
    split; unfold can_wake; simpl; [|done|by left]. exists l. split; [done|]. rewrite blen_cons in Hl. lia.
  - destruct (HandleDatagramFrame_spec f h Hrcv) as (Hd & Hs & ? & _).
    split; unfold can_wake; simpl; [exists l; by rewrite Hd|done|by rewrite Hd, Hs].
  - by split; unfold can_wake; simpl; [exists l| |].
  - unfold Receive in H. destruct (rcvQueue h) as [|d0 q] eqn:Eq; [done|]. injection H as -> <-.
    split; unfold can_wake; simpl; [by exists l| |done]. rewrite blen_cons in Hrcv. lia.
  - by split; unfold can_wake; simpl; [exists l| |].
  - by split; unfold can_wake; simpl; [exists l| |].
  - by split; unfold can_wake; simpl; [exists l| |].
  - by split; unfold can_wake; simpl; [exists l| |].
Qed.

Lemma reachable_inv n s : reachable n s → sys_inv s.
Proof.
  induction 1 as [|s s' _ IH Hs _]; [|by eapply step_inv].
  split; simpl; [by exists []; split; [apply rep_nil|]|done|]. intros [f Hf]. simpl in Hf. set_solver.
Qed.

(** One receiver. *)
Definition receiver_inv (s : sys) : Prop :=
  Waiting ∈ receivers s → rcvQueue (queue s) ≠ [] → rcvd (queue s) = true.

Lemma single (r1 r2 : list tstate) x : (length (r1 ++ x :: r2) ≤ 1)%nat → r1 = [] ∧ r2 = [].
Proof. rewrite length_app. destruct r1, r2; simpl; intros; [done|lia..]. Qed.

Lemma step_receiver_inv s s' : sys_inv s → (length (receivers s) ≤ 1)%nat → (length (receivers s') ≤ 1)%nat →
  receiver_inv s → step s s' → receiver_inv s'.
Proof.
  intros Hinv H1 H1' Hr Hs. unfold receiver_inv in *.
  destruct Hs as [h f a r|h h' f a1 a2 r Ha|h h' f a1 a2 r Ha|h f a1 a2 r Ha|h f a1 a2 r e Ha|h h' a r Hp|h f a r
    |h a r|h h' d a r1 r2 Hd|h a r1 r2 Hd|h a r1 r2 Hd|h a r1 r2|h e a r Hc]; simpl in *; try done.
  - unfold datagram_Add in Ha. repeat case_match; simplify_eq/=; done.
  - unfold datagram_Add in Ha. repeat case_match; simplify_eq/=; done.
  - unfold datagram_Pop in Hp. destruct (PopFront None (dq_sendQueue h)) as [[? ?]|?|?]; simplify_eq/=; done.
  - destruct (HandleDatagramFrame_spec f h (inv_rcv _ Hinv)) as (_ & _ & _ & [[-> ->]| ->]); [done|done].
  - destruct r; simpl in *; [|lia]. intros Hw. set_solver.
  - apply single in H1 as [-> ->]. intros Hw. set_solver.
  - unfold Receive in Hd. by destruct (rcvQueue h).
  - apply single in H1 as [-> ->]. intros Hw. set_solver.
  - apply single in H1 as [-> ->]. intros Hw. set_solver.
Qed.

Lemma reachable_len n s : reachable n s → (length (receivers s) ≤ n)%nat.
Proof. by destruct 1; [simpl; lia|]. Qed.

Lemma reachable_receiver s : reachable 1 s → receiver_inv s.
Proof.
  induction 1 as [|s s' Hr IH Hs Hl]; [intros Hw; simpl in Hw; set_solver|].
  eapply step_receiver_inv; [by eapply reachable_inv|by apply reachable_len|done|done|done].
Qed.

(** C34: the datagram queues under concurrency.  In every state that any number
    of concurrent calls of [Add], [Receive], [Pop], [HandleDatagramFrame] and
    [CloseWithError] reach: both queues are bounded, [Add] and [Pop] keep the
    ring buffer consistent, and a goroutine that waits in [Add] can be woken;
    and as long as one goroutine at a time calls [Receive], it does not wait
    while a datagram is queued unless it is about to be woken. *)
Theorem datagram_queue_safe n s : reachable n s →
  (∃ l, represents (dq_sendQueue (queue s)) (Some <$> l) ∧ blen l ≤ maxDatagramSendQueueLen) ∧
  blen (rcvQueue (queue s)) ≤ maxDatagramRcvQueueLen ∧
  (waiting_adder s → can_wake s) ∧
  (n = 1%nat → Waiting ∈ receivers s → rcvQueue (queue s) ≠ [] → rcvd (queue s) = true).
Proof.
  intros H. destruct (reachable_inv n s H). split_and!; [done|done|done|].
  intros ->. by apply reachable_receiver.
Qed.

Lemma datagram_queue_safe_witness :
  let h := mkDatagramQueue empty_ring false [[7]] true None in
  reachable 1 (mkSys h [] [Waiting]) ∧
  (Waiting ∈ [Waiting] → rcvQueue h ≠ [] → rcvd h = true).
Proof.
  intros h. assert (Hr : reachable 1 (mkSys h [] [Waiting])).
  { eapply r_step; [|apply (s_handle newDatagramQueue (mkDatagramFrame false [7] false))|simpl; lia].
    eapply r_step; [|apply (s_receive_wait newDatagramQueue [] [] []); done|simpl; lia].
    eapply r_step; [|apply s_call_receive|simpl; lia]. apply r_init. }
  split; [exact Hr|]. apply (datagram_queue_safe 1 _ Hr). reflexivity.
Defined.

(** With two goroutines in [Receive], a wake-up can be lost: two datagrams
    arrive before the first goroutine runs, the channel [rcvd] holds one token,
    and the second goroutine keeps waiting although a datagram is queued. *)
Example two_receivers_lose_wakeup :
  reachable 2 (mkSys (mkDatagramQueue empty_ring false [[8]] false None) [] [Waiting]).
Proof.
  eapply r_step; [|apply (s_receive (mkDatagramQueue empty_ring false [[7]; [8]] false None) _ [7] [] [] [Waiting]); done|simpl; lia].
  eapply r_step; [|apply (s_receive_woken (mkDatagramQueue empty_ring false [[7]; [8]] true None) [] [] [Waiting]); done|simpl; lia].
  eapply r_step; [|apply (s_handle (mkDatagramQueue empty_ring false [[7]] true None) (mkDatagramFrame false [8] false))|simpl; lia].
  eapply r_step; [|apply (s_handle newDatagramQueue (mkDatagramFrame false [7] false))|simpl; lia].
  eapply r_step; [|apply (s_receive_wait newDatagramQueue [] [] [Waiting]); done|simpl; lia].
  eapply r_step; [|apply s_call_receive|simpl; lia].
  eapply r_step; [|apply (s_receive_wait newDatagramQueue [] [] []); done|simpl; lia].
  eapply r_step; [|apply s_call_receive|simpl; lia]. apply r_init.
Qed.

End queues.
