(* ===== verification/Float64.v ===== *)
(** The floating point arithmetic the Go code uses on byte counts and durations:
    conversion from int64, product, quotient and conversion back, with
    rounding to nearest, ties to even. *)

From S2P Require Import Prelude.

Module float64.

(** A finite float64 or float32: [mant * 2 ^ exp].  The values the code computes (byte
    counts, durations, their quotients and products) are far from the
    subnormal range and from overflow, so that the exponent is unbounded here. *)
Record t := mkF { mant : Z; exp : Z }.

Definition num (f : t) : Z := mant f * 2 ^ Z.max 0 (exp f).
Definition den (f : t) : Z := 2 ^ Z.max 0 (- exp f).

(** The integer nearest to [n / d], ties to even. *)
Definition rne (n d : Z) : Z :=
  let q := n / d in
  let r := n mod d in
  if 2 * r <? d then q else if d <? 2 * r then q + 1 else if Z.even q then q else q + 1.

(** The exponent for which [n / d] has a mantissa of [prec] bits. *)
Definition exponent (prec n d : Z) : Z :=
  let e := Z.log2 n - Z.log2 d - prec in
  if 2 ^ prec * (d * 2 ^ Z.max 0 e) <=? n * 2 ^ Z.max 0 (- e) then e + 1 else e.

(** The value with a mantissa of [prec] bits nearest to [n / d], for a positive
    [d]: 53 bits for a float64, 24 bits for a float32. *)
Definition round_to (prec n d : Z) : t :=
  if n =? 0 then mkF 0 0 else
  let e := exponent prec (Z.abs n) d in
  mkF (Z.sgn n * rne (Z.abs n * 2 ^ Z.max 0 (- e)) (d * 2 ^ Z.max 0 e)) e.

Definition round : Z → Z → t := round_to 53.

Definition of_int (z : Z) : t := round z 1.
Definition mul (f g : t) : t := round (num f * num g) (den f * den g).

(** float32. *)
Definition of_int32 (z : Z) : t := round_to 24 z 1.
Definition mul32 (f g : t) : t := round_to 24 (num f * num g) (den f * den g).
Definition add32 (f g : t) : t := round_to 24 (num f * den g + num g * den f) (den f * den g).

(** The divisors of the code are positive. *)
Definition div (f g : t) : t := round (num f * den g) (den f * num g).

(** [int64(f)] truncates towards zero; the result of a value out of range is
    left to the implementation, amd64 gives the least integer. *)
Definition to_int (f : t) : Z :=
  let z := Z.quot (num f) (den f) in
  if (- 2 ^ 63 <=? z) && (z <? 2 ^ 63) then z else - 2 ^ 63.

(** ** Error bound of one rounding *)

Lemma pow2_pos e : 0 < 2 ^ Z.max 0 e.
Proof. apply Z.pow_pos_nonneg; lia. Qed.

Lemma den_pos f : 0 < den f.
Proof. apply pow2_pos. Qed.

Lemma rne_spec n d : 0 < d → 2 * Z.abs (rne n d * d - n) ≤ d.
Proof.
  intros Hd. unfold rne. pose proof (Z.div_mod n d ltac:(lia)). pose proof (Z.mod_pos_bound n d Hd).
  repeat zcase; try destruct (Z.even _); nia.
Qed.

Lemma rne_exact r d : 0 < d → rne (r * d) d = r.
Proof.
  intros Hd. unfold rne. rewrite Z.div_mul, Z.mod_mul by lia. zcase; [done|lia].
Qed.

(** [2 ^ a] over [2 ^ b], the two halves of a power with a signed exponent. *)
Lemma pow2_split e k : 0 ≤ k + e → 0 ≤ k → 2 ^ k * 2 ^ Z.max 0 e = 2 ^ (k + e) * 2 ^ Z.max 0 (- e).
Proof.
  intros H Hk. rewrite <- !Z.pow_add_r by lia. f_equal. lia.
Qed.

Lemma exponent_spec n d : 0 < n → 0 < d →
  let e := exponent 53 n d in
  2 ^ 52 * (d * 2 ^ Z.max 0 e) ≤ n * 2 ^ Z.max 0 (- e) < 2 ^ 53 * (d * 2 ^ Z.max 0 e).
Proof.
  intros Hn Hd. unfold exponent.
  pose proof (Z.log2_spec n Hn) as [Hn1 Hn2]. pose proof (Z.log2_spec d Hd) as [Hd1 Hd2].
  pose proof (Z.log2_nonneg n). pose proof (Z.log2_nonneg d).
  set (a := Z.log2 n) in *. set (b := Z.log2 d) in *. rewrite Z.pow_succ_r in Hn2, Hd2 by lia.
  set (e := a - b - 53).
  assert (Hlo : 2 ^ 52 * (d * 2 ^ Z.max 0 e) ≤ n * 2 ^ Z.max 0 (- e)).
  { assert (2 ^ 52 * (2 * 2 ^ b) * 2 ^ Z.max 0 e = 2 ^ a * 2 ^ Z.max 0 (- e)) as Heq.
    { rewrite <- Z.pow_succ_r by lia. rewrite <- !Z.pow_add_r by lia. f_equal. lia. }
    pose proof (pow2_pos e). pose proof (pow2_pos (- e)). nia. }
  destruct (Z.leb_spec (2 ^ 53 * (d * 2 ^ Z.max 0 e)) (n * 2 ^ Z.max 0 (- e))) as [Hc|Hc]; [|lia].
  destruct (decide (0 ≤ e)).
  - rewrite (Z.max_r 0 (e + 1)), (Z.max_l 0 (- (e + 1))) by lia.
    rewrite (Z.max_r 0 e), (Z.max_l 0 (- e)) in Hc by lia.
    rewrite Z.pow_add_r by lia. split; [lia|].
    assert (2 ^ 53 * (2 ^ b * (2 ^ e * 2 ^ 1)) = 2 * 2 ^ a) as Heq.
    { rewrite <- Z.pow_succ_r by lia. rewrite <- !Z.pow_add_r by lia. f_equal. lia. }
    pose proof (pow2_pos e). rewrite Z.max_r in * by lia. nia.
  - rewrite (Z.max_l 0 (e + 1)), (Z.max_r 0 (- (e + 1))) by lia.
    rewrite (Z.max_l 0 e), (Z.max_r 0 (- e)) in Hc by lia.
    replace (- e) with (1 + - (e + 1)) in Hc by lia. rewrite Z.pow_add_r in Hc by lia. split; [lia|].
    assert (2 ^ 53 * 2 ^ b = 2 * 2 ^ a * 2 ^ (- (e + 1))) as Heq.
    { rewrite <- Z.pow_succ_r by lia. rewrite <- !Z.pow_add_r by lia. f_equal. lia. }
    assert (0 < 2 ^ (- (e + 1))) by (apply Z.pow_pos_nonneg; lia). nia.
Qed.

(** One rounding has a relative error of at most [2 ^ -53]. *)
Lemma round_error n d : 0 ≤ n → 0 < d →
  2 ^ 53 * Z.abs (num (round n d) * d - n * den (round n d)) ≤ n * den (round n d).
Proof.
  intros Hn Hd. unfold round, round_to. destruct (Z.eqb_spec n 0) as [->|]; [by vm_compute|].
  rewrite (Z.abs_eq n), (Z.sgn_pos n) by lia.
  pose proof (exponent_spec n d ltac:(lia) Hd) as [H1 _]. unfold num, den. simpl.
  set (e := exponent 53 n d) in *. pose proof (pow2_pos e). pose proof (pow2_pos (- e)).
  pose proof (rne_spec (n * 2 ^ Z.max 0 (- e)) (d * 2 ^ Z.max 0 e) ltac:(nia)).
  set (q := rne _ _) in *. set (p := 2 ^ Z.max 0 e) in *. set (p' := 2 ^ Z.max 0 (- e)) in *.
  destruct q; lia.
Qed.

Lemma round_nonneg n d : 0 ≤ n → 0 < d → 0 ≤ num (round n d).
Proof.
  intros Hn Hd. pose proof (round_error n d Hn Hd). pose proof (den_pos (round n d)). nia.
Qed.

(** A quotient that has a mantissa of at most 53 bits is not rounded. *)
Lemma round_exact n d r : 0 ≤ r < 2 ^ 53 → 0 < d →
  ∀ a b, 0 ≤ a → 0 ≤ b → n * 2 ^ a = r * d * 2 ^ b →
  num (round n d) * d = n * den (round n d).
Proof.
  intros Hr Hd a b Ha Hb Heq. unfold round, round_to. destruct (Z.eqb_spec n 0) as [->|Hn]; [done|].
  assert (0 < 2 ^ a ∧ 0 < 2 ^ b) as [Hpa Hpb] by (split; apply Z.pow_pos_nonneg; lia).
  assert (0 < n) by nia. assert (0 < r) by nia. rewrite (Z.abs_eq n), (Z.sgn_pos n) by lia.
  pose proof (exponent_spec n d ltac:(lia) Hd) as [H1 _]. unfold num, den. simpl.
  set (e := exponent 53 n d) in *. pose proof (pow2_pos e). pose proof (pow2_pos (- e)).
  set (p := 2 ^ Z.max 0 e) in *. set (p' := 2 ^ Z.max 0 (- e)) in *.
  (* [r * 2 ^ b * p' >= 2 ^ 52 * 2 ^ a * p], so [2 ^ b * p' >= 2 ^ a * p]. *)
  assert (Hge : a + Z.max 0 e ≤ b + Z.max 0 (- e)).
  { apply Znot_gt_le. intros Hgt.
    assert (2 ^ (b + Z.max 0 (- e)) * 2 ≤ 2 ^ (a + Z.max 0 e)) as Hle.
    { rewrite Z.mul_comm, <- Z.pow_succ_r by lia. apply Z.pow_le_mono_r; lia. }
    rewrite !Z.pow_add_r in Hle by lia. fold p p' in Hle.
    assert (2 ^ 52 * (d * p) * 2 ^ a ≤ r * d * 2 ^ b * p') by (rewrite <- Heq; nia).
    assert (2 ^ 52 * (2 ^ a * p) ≤ r * (2 ^ b * p')) by nia.
    set (x := 2 ^ a * p) in *. set (y := 2 ^ b * p') in *. assert (0 < x) by nia. nia. }
  set (k := b + Z.max 0 (- e) - (a + Z.max 0 e)) in *.
  assert (Hk : 2 ^ b * p' = 2 ^ k * (2 ^ a * p)).
  { unfold p, p'. rewrite <- !Z.pow_add_r by lia. f_equal. lia. }
  assert (n * p' = r * 2 ^ k * (d * p)) as Hx.
  { apply (Z.mul_cancel_l _ _ (2 ^ a)); [lia|]. nia. }
  rewrite Hx, rne_exact by nia. destruct (r * 2 ^ k); lia.
Qed.

(** ** The quotient by truncation, bounded and exact *)

Lemma to_int_div f : 0 ≤ num f → num f < 2 ^ 63 * den f → to_int f = num f / den f.
Proof.
  intros H1 H2. pose proof (den_pos f). unfold to_int. rewrite Z.quot_div_nonneg by lia.
  assert (0 ≤ num f / den f < 2 ^ 63).
  { split; [apply Z.div_pos; lia|apply Z.div_lt_upper_bound; lia]. }
  repeat zcase; simpl; lia.
Qed.

(** Products of a byte count with the constants of the code. *)
Section scaled.
Context (c : t) (p q : Z) (Hc : num c * q = p * den c) (Hp : 0 < p) (Hq : 0 < q).

Definition scaled (x : Z) : Z := to_int (mul (of_int x) c).

Lemma scaled_ratio x : 0 ≤ x →
  let f := of_int x in let g := mul f c in
  2 ^ 53 * Z.abs (num f - x * den f) ≤ x * den f ∧
  2 ^ 53 * Z.abs (num g * (den f * q) - num f * p * den g) ≤ num f * p * den g.
Proof.
  intros Hx f g. assert (Hf : 2 ^ 53 * Z.abs (num f - x * den f) ≤ x * den f).
  { pose proof (round_error x 1 Hx ltac:(lia)) as He. by rewrite Z.mul_1_r in He. }
  split; [done|]. pose proof (round_nonneg x 1 Hx ltac:(lia)) as Hnf. fold (of_int x) in Hnf. fold f in Hnf.
  pose proof (den_pos f). pose proof (den_pos c).
  assert (0 < num c) by nia.
  pose proof (round_error (num f * num c) (den f * den c) ltac:(nia) ltac:(nia)) as Hg.
  fold (mul f c) in Hg. fold g in Hg. pose proof (den_pos g).
  assert (Hs : (num g * (den f * q) - num f * p * den g) * den c = (num g * (den f * den c) - num f * num c * den g) * q)
    by (ring_simplify; nia).
  assert (Z.abs (num g * (den f * q) - num f * p * den g) * den c =
    Z.abs (num g * (den f * den c) - num f * num c * den g) * q) as Hs'.
  { rewrite <- (Z.abs_eq (den c)) at 1 by lia. rewrite <- Z.abs_mul, Hs, Z.abs_mul. f_equal. lia. }
  assert (num f * p * den g * den c = num f * num c * den g * q) by nia.
  set (A := Z.abs (num g * (den f * q) - _)) in *. set (B := Z.abs (num g * (den f * den c) - _)) in *. nia.
Qed.

(** Off by a factor of at most [1 + 2 ^ -51] before truncation. *)
Lemma scaled_upper x : 0 ≤ x →
  2 ^ 51 * (num (mul (of_int x) c) * q) ≤ (2 ^ 51 + 1) * (x * p * den (mul (of_int x) c)).
Proof.
  intros Hx. destruct (scaled_ratio x Hx) as [H1 H2]. set (f := of_int x) in *. set (g := mul f c) in *.
  pose proof (den_pos f). pose proof (den_pos g).
  set (nf := num f) in *. set (ng := num g) in *. set (df := den f) in *. set (dg := den g) in *.
  assert (2 ^ 53 * nf ≤ (2 ^ 53 + 1) * (x * df)) by lia.
  assert (2 ^ 53 * (ng * (df * q)) ≤ (2 ^ 53 + 1) * (nf * p * dg)) by lia.
  apply (Z.mul_le_mono_pos_r _ _ df); [done|].
  assert (2 ^ 53 * (nf * p * dg) ≤ (2 ^ 53 + 1) * (x * df * p * dg)).
  { replace (2 ^ 53 * (nf * p * dg)) with (2 ^ 53 * nf * (p * dg)) by ring.
    replace ((2 ^ 53 + 1) * (x * df * p * dg)) with ((2 ^ 53 + 1) * (x * df) * (p * dg)) by ring.
    apply Z.mul_le_mono_nonneg_r; [apply Z.mul_nonneg_nonneg; lia|done]. }
  assert (0 ≤ x * df * p * dg) by (repeat apply Z.mul_nonneg_nonneg; lia).
  set (X := nf * p * dg) in *. set (W := x * df * p * dg) in *.
  replace (2 ^ 51 * (ng * q) * df) with (2 ^ 51 * (ng * (df * q))) by ring.
  replace ((2 ^ 51 + 1) * (x * p * dg) * df) with ((2 ^ 51 + 1) * W) by (unfold W; ring). lia.
Qed.

Lemma scaled_bounds x : 0 ≤ x → x * p < 2 ^ 62 * q → 0 ≤ scaled x ∧ scaled x * q ≤ x * p + x * p / 2 ^ 51 + 1.
Proof.
  intros Hx Hb. unfold scaled. pose proof (scaled_upper x Hx) as Hu. pose proof (den_pos (mul (of_int x) c)) as Hd.
  pose proof (den_pos (of_int x)). pose proof (den_pos c).
  assert (0 ≤ num (mul (of_int x) c)) as Hn.
  { apply round_nonneg; [|nia]. pose proof (round_nonneg x 1 Hx ltac:(lia)). unfold of_int. nia. }
  set (g := mul (of_int x) c) in *.
  rewrite to_int_div; [|done|nia]. split; [apply Z.div_pos; lia|].
  pose proof (Z.mul_div_le (num g) (den g) Hd).
  pose proof (Z.div_mod (x * p) (2 ^ 51) ltac:(lia)). pose proof (Z.mod_pos_bound (x * p) (2 ^ 51) ltac:(lia)).
  set (v := num g / den g) in *.
  assert (2 ^ 51 * (v * q) ≤ (2 ^ 51 + 1) * (x * p)).
  { apply (Z.mul_le_mono_pos_r _ _ (den g)); [done|]. nia. }
  nia.
Qed.

(** With [x * p] below [2 ^ 53] and [q] a power of two nothing is rounded. *)
Lemma scaled_exact x k : 0 ≤ x → 1 ≤ p → q = 2 ^ k → 0 ≤ k → x * p < 2 ^ 53 → scaled x = x * p / q.
Proof.
  intros Hx Hp1 -> Hk Hb. unfold scaled.
  assert (Hf : num (of_int x) * 1 = x * den (of_int x)).
  { assert (x ≤ x * p) by nia. apply (round_exact x 1 x ltac:(lia) ltac:(lia) 0 0); lia. }
  rewrite Z.mul_1_r in Hf.
  set (f := of_int x) in *. pose proof (den_pos f). pose proof (den_pos c).
  assert (Hg : num (mul f c) * (den f * den c) = num f * num c * den (mul f c)).
  { assert (0 ≤ x * p) by nia.
    apply (round_exact (num f * num c) (den f * den c) (x * p) ltac:(lia) ltac:(nia) k 0); [lia..|].
    rewrite Hf, Z.pow_0_r. transitivity (x * den f * (num c * 2 ^ k)); [ring|]. rewrite Hc. ring. }
  pose proof (den_pos (mul f c)). set (g := mul f c) in *.
  assert (Hv : num g * 2 ^ k = x * p * den g).
  { apply (Z.mul_cancel_r _ _ (den f * den c)); [nia|].
    transitivity (num g * (den f * den c) * 2 ^ k); [ring|]. rewrite Hg, Hf.
    transitivity (x * den f * den g * (num c * 2 ^ k)); [ring|]. rewrite Hc. ring. }
  assert (0 < 2 ^ k) by (apply Z.pow_pos_nonneg; lia).
  rewrite to_int_div by nia.
  rewrite <- (Z.div_mul_cancel_r (num g) (den g) (2 ^ k)) by lia. rewrite Hv.
  rewrite (Z.mul_comm (x * p)). apply Z.div_mul_cancel_l; lia.
Qed.
End scaled.

End float64.
