(* ===== verification/FlowControl.v ===== *)
(** Flow control (internal/flowcontrol): the send and receive windows of a
    stream and of the connection, window auto-tuning, and the two endpoints
    composed over a network that loses, duplicates and reorders frames. *)

From S2P Require Import Prelude.
From S2P Require Import Protocol.
From S2P Require Import Float64.

Module flowcontrol.
Import protocol float64.

(** * The base flow controller

    A [time.Time] is the number of nanoseconds since the zero time; the current
    time and the smoothed RTT of [rttStats] are arguments. *)
Record baseFlowController := mkBase {
  bytesSent : Z;
  sendWindow : Z;
  lastBlockedAt : Z;
  bytesRead : Z;
  highestReceived : Z;
  receiveWindow : Z;
  receiveWindowSize : Z;
  maxReceiveWindowSize : Z;
  allowWindowIncrease : option (Z → bool);
  epochStartTime : Z;
  epochStartOffset : Z;
}.

Definition set_sender (sent window blocked : Z) (c : baseFlowController) : baseFlowController :=
  mkBase sent window blocked (bytesRead c) (highestReceived c) (receiveWindow c) (receiveWindowSize c)
    (maxReceiveWindowSize c) (allowWindowIncrease c) (epochStartTime c) (epochStartOffset c).
Definition set_bytesRead (n : Z) (c : baseFlowController) : baseFlowController :=
  mkBase (bytesSent c) (sendWindow c) (lastBlockedAt c) n (highestReceived c) (receiveWindow c)
    (receiveWindowSize c) (maxReceiveWindowSize c) (allowWindowIncrease c) (epochStartTime c) (epochStartOffset c).
Definition set_highestReceived (n : Z) (c : baseFlowController) : baseFlowController :=
  mkBase (bytesSent c) (sendWindow c) (lastBlockedAt c) (bytesRead c) n (receiveWindow c)
    (receiveWindowSize c) (maxReceiveWindowSize c) (allowWindowIncrease c) (epochStartTime c) (epochStartOffset c).
Definition set_window (w size : Z) (c : baseFlowController) : baseFlowController :=
  mkBase (bytesSent c) (sendWindow c) (lastBlockedAt c) (bytesRead c) (highestReceived c) w
    size (maxReceiveWindowSize c) (allowWindowIncrease c) (epochStartTime c) (epochStartOffset c).

Definition startNewAutoTuningEpoch (now : Z) (c : baseFlowController) : baseFlowController :=
  mkBase (bytesSent c) (sendWindow c) (lastBlockedAt c) (bytesRead c) (highestReceived c) (receiveWindow c)
    (receiveWindowSize c) (maxReceiveWindowSize c) (allowWindowIncrease c) now (bytesRead c).

Definition sendWindowSize (c : baseFlowController) : Z :=
  if sendWindow c <? bytesSent c then 0 else i64 (sendWindow c - bytesSent c).

Definition IsNewlyBlocked (c : baseFlowController) : bool * Z * baseFlowController :=
  if negb (sendWindowSize c =? 0) || (sendWindow c =? lastBlockedAt c) then (false, 0, c)
  else (true, sendWindow c, set_sender (bytesSent c) (sendWindow c) (sendWindow c) c).

Definition base_AddBytesSent (n : Z) (c : baseFlowController) : baseFlowController :=
  set_sender (i64 (bytesSent c + n)) (sendWindow c) (lastBlockedAt c) c.

Definition UpdateSendWindow (offset : Z) (c : baseFlowController) : bool * baseFlowController :=
  if sendWindow c <? offset then (true, set_sender (bytesSent c) offset (lastBlockedAt c) c) else (false, c).

Definition addBytesRead (now n : Z) (c : baseFlowController) : baseFlowController :=
  let c := if bytesRead c =? 0 then startNewAutoTuningEpoch now c else c in
  set_bytesRead (i64 (bytesRead c + n)) c.

(** [1 - protocol.WindowUpdateThreshold], a constant of the compiler: 3/4. *)
Definition WindowUpdateThreshold' : t := mkF 3 (-2).

Definition hasWindowUpdate (c : baseFlowController) : bool :=
  let bytesRemaining := i64 (receiveWindow c - bytesRead c) in
  bytesRemaining <=? to_int (mul (of_int (receiveWindowSize c)) WindowUpdateThreshold').

(** [t.Sub(u)] saturates. *)
Definition time_Sub (t u : Z) : Z := Z.max (- 2 ^ 63) (Z.min (2 ^ 63 - 1) (t - u)).

Definition allowed (f : option (Z → bool)) (n : Z) : bool :=
  match f with None => true | Some f => f n end.

(** The quotient is only used if the window size is positive: with a window of
    0 bytes doubling it gives no increase, whatever the comparison says. *)
Definition maybeAdjustWindowSize (now rtt : Z) (c : baseFlowController) : baseFlowController :=
  let bytesReadInEpoch := i64 (bytesRead c - epochStartOffset c) in
  if bytesReadInEpoch <=? Z.quot (receiveWindowSize c) 2 then c else
  if rtt =? 0 then c else
  let fraction := div (of_int bytesReadInEpoch) (of_int (receiveWindowSize c)) in
  let c := if time_Sub now (epochStartTime c) <? to_int (mul (mul (of_int 4) fraction) (of_int rtt)) then
      let newSize := Z.min (i64 (2 * receiveWindowSize c)) (maxReceiveWindowSize c) in
      if (receiveWindowSize c <? newSize) && allowed (allowWindowIncrease c) (i64 (newSize - receiveWindowSize c))
      then set_window (receiveWindow c) newSize c else c
    else c in
  startNewAutoTuningEpoch now c.

Definition getWindowUpdate (now rtt : Z) (c : baseFlowController) : Z * baseFlowController :=
  if negb (hasWindowUpdate c) then (0, c) else
  let c := maybeAdjustWindowSize now rtt c in
  let c := set_window (i64 (bytesRead c + receiveWindowSize c)) (receiveWindowSize c) c in
  (receiveWindow c, c).

Definition checkFlowControlViolation (c : baseFlowController) : bool := receiveWindow c <? highestReceived c.

(** * The connection flow controller

    The connection's [allowWindowIncrease] is never nil, see [preSetup].  A
    method that may call [queueWindowUpdate] returns whether it does. *)
Abbreviation connectionFlowController := baseFlowController (only parsing).

Definition NewConnectionFlowController (receiveWindow maxReceiveWindow : Z) (allow : option (Z → bool))
    : connectionFlowController :=
  mkBase 0 0 0 0 0 receiveWindow receiveWindow maxReceiveWindow allow 0 0.

Definition connection_SendWindowSize (c : connectionFlowController) : Z := sendWindowSize c.

Definition errFlowControl : go_error := TransportError FlowControlError 0 (ErrMsg "received more bytes than allowed").

Definition IncrementHighestReceived (increment : Z) : st connectionFlowController () := λ c,
  let c := set_highestReceived (i64 (highestReceived c + increment)) c in
  (if checkFlowControlViolation c then Err errFlowControl else Ok tt, c).

Definition connection_AddBytesRead (now n : Z) (c : connectionFlowController) : bool * connectionFlowController :=
  let c := addBytesRead now n c in (hasWindowUpdate c, c).

Definition connection_GetWindowUpdate (now rtt : Z) (c : connectionFlowController) : Z * connectionFlowController :=
  getWindowUpdate now rtt c.

Definition EnsureMinimumWindowSize (now inc : Z) : st connectionFlowController () := λ c,
  if receiveWindowSize c <? inc then
    let newSize := Z.min inc (maxReceiveWindowSize c) in
    let delta := i64 (newSize - receiveWindowSize c) in
    if 0 <? delta then
      match allowWindowIncrease c with
      | None => (Panic "invalid memory address or nil pointer dereference", c)
      | Some f =>
        let c := if f delta then set_window (receiveWindow c) newSize c else c in
        (Ok tt, startNewAutoTuningEpoch now c)
      end
    else (Ok tt, startNewAutoTuningEpoch now c)
  else (Ok tt, c).

Definition Reset : st connectionFlowController () := λ c,
  if (0 <? bytesRead c) || (0 <? highestReceived c) || negb (epochStartTime c =? 0)
  then (Err (ErrMsg "flow controller reset after reading data"), c)
  else (Ok tt, set_sender 0 (sendWindow c) 0 c).

(** * The stream flow controller

    Its methods work on the stream's controller and on the connection's. *)
Record streamFlowController := mkStreamFC {
  fc_base : baseFlowController;
  fc_streamID : Z;
  receivedFinalOffset : bool;
}.

Definition NewStreamFlowController (streamID receiveWindow maxReceiveWindow initialSendWindow : Z) : streamFlowController :=
  mkStreamFC (mkBase 0 initialSendWindow 0 0 0 receiveWindow receiveWindow maxReceiveWindow None 0 0) streamID false.

Definition set_base (b : baseFlowController) (c : streamFlowController) : streamFlowController :=
  mkStreamFC b (fc_streamID c) (receivedFinalOffset c).

Definition errFinalSize (msg : string) : go_error := TransportError FinalSizeError 0 (ErrMsg msg).

Definition UpdateHighestReceived (offset : Z) (final : bool) : st (streamFlowController * connectionFlowController) () :=
  λ '(c, conn),
  let old := highestReceived (fc_base c) in
  if receivedFinalOffset c && final && negb (offset =? old)
  then (Err (errFinalSize "received inconsistent final offset"), (c, conn)) else
  if receivedFinalOffset c && (old <? offset)
  then (Err (errFinalSize "received offset beyond the final offset"), (c, conn)) else
  let c := if final then mkStreamFC (fc_base c) (fc_streamID c) true else c in
  if offset =? old then (Ok tt, (c, conn)) else
  if offset <=? old then
    (if final then Err (errFinalSize "received final offset below a received offset") else Ok tt, (c, conn)) else
  let increment := i64 (offset - old) in
  let c := set_base (set_highestReceived offset (fc_base c)) c in
  if checkFlowControlViolation (fc_base c) then (Err errFlowControl, (c, conn)) else
  let '(r, conn) := IncrementHighestReceived increment conn in (r, (c, conn)).

Definition shouldQueueWindowUpdate (c : streamFlowController) : bool :=
  negb (receivedFinalOffset c) && hasWindowUpdate (fc_base c).

(** Whether the stream's and the connection's window update is queued. *)
Definition AddBytesRead (now now' n : Z) (c : streamFlowController) (conn : connectionFlowController)
    : bool * bool * streamFlowController * connectionFlowController :=
  let c := set_base (addBytesRead now n (fc_base c)) c in
  let '(b, conn) := connection_AddBytesRead now' n conn in
  (shouldQueueWindowUpdate c, b, c, conn).

Definition Abandon (now : Z) (c : streamFlowController) (conn : connectionFlowController)
    : bool * connectionFlowController :=
  let unread := i64 (highestReceived (fc_base c) - bytesRead (fc_base c)) in
  if 0 <? unread then connection_AddBytesRead now unread conn else (false, conn).

Definition AddBytesSent (n : Z) (c : streamFlowController) (conn : connectionFlowController)
    : streamFlowController * connectionFlowController :=
  (set_base (base_AddBytesSent n (fc_base c)) c, base_AddBytesSent n conn).

Definition SendWindowSize (c : streamFlowController) (conn : connectionFlowController) : Z :=
  Z.min (sendWindowSize (fc_base c)) (connection_SendWindowSize conn).

(** [protocol.ConnectionFlowControlMultiplier]: 3/2. *)
Definition ConnectionFlowControlMultiplier : t := mkF 3 (-1).

Definition GetWindowUpdate (now now' rtt : Z) : st (streamFlowController * connectionFlowController) Z :=
  λ '(c, conn),
  if receivedFinalOffset c then (Ok 0, (c, conn)) else
  let oldWindowSize := receiveWindowSize (fc_base c) in
  let '(offset, b) := getWindowUpdate now rtt (fc_base c) in
  let c := set_base b c in
  if oldWindowSize <? receiveWindowSize b then
    match EnsureMinimumWindowSize now' (to_int (mul (of_int (receiveWindowSize b)) ConnectionFlowControlMultiplier)) conn with
    | (Ok _, conn) => (Ok offset, (c, conn))
    | (Err e, conn) => (Err e, (c, conn))
    | (Panic p, conn) => (Panic p, (c, conn))
    end
  else (Ok offset, (c, conn)).

(** * The window update threshold

    The float64 computation is the exact [3/4] for windows below [2 ^ 51]
    bytes, and stays within the window for every window. *)
Definition threshold (size : Z) : Z := to_int (mul (of_int size) WindowUpdateThreshold').

Lemma threshold_bounds size : 0 ≤ size < 2 ^ 62 → 0 ≤ threshold size ≤ size.
Proof.
  intros Hs. destruct (scaled_bounds WindowUpdateThreshold' 3 4 eq_refl ltac:(lia) ltac:(lia) size ltac:(lia) ltac:(lia))
    as [H1 H2].
  assert (size * 3 / 2 ^ 51 ≤ size) by (apply Z.div_le_upper_bound; lia).
  unfold scaled in *. fold (threshold size) in *. lia.
Qed.

Lemma threshold_exact size : 0 ≤ size < 2 ^ 51 → threshold size = size * 3 / 4.
Proof.
  intros Hs. by apply (scaled_exact WindowUpdateThreshold' 3 4 eq_refl ltac:(lia) ltac:(lia) size 2); [lia|lia| |lia|lia].
Qed.

Lemma scaled_conn size : 0 ≤ size < 2 ^ 61 →
  0 ≤ to_int (mul (of_int size) ConnectionFlowControlMultiplier).
Proof.
  intros Hs. apply (scaled_bounds ConnectionFlowControlMultiplier 3 2 eq_refl ltac:(lia) ltac:(lia) size); lia.
Qed.

(** * The receive side of one controller *)

Definition limit : Z := 2 ^ 62.

Record rcv_ok (c : baseFlowController) : Prop := {
  ok_read : 0 ≤ bytesRead c ≤ highestReceived c;
  ok_received : highestReceived c ≤ receiveWindow c;
  ok_limit : highestReceived c < limit;
  ok_window : receiveWindow c ≤ bytesRead c + receiveWindowSize c;
  ok_size : 0 ≤ receiveWindowSize c < limit;
  ok_max : 0 ≤ maxReceiveWindowSize c < limit;
  ok_epoch : 0 ≤ epochStartOffset c ≤ bytesRead c;
}.

(** What an operation of the receive side leaves alone, and how windows evolve. *)
Record grows (c c' : baseFlowController) : Prop := {
  g_sent : bytesSent c' = bytesSent c;
  g_window : sendWindow c' = sendWindow c;
  g_received : highestReceived c' = highestReceived c;
  g_rcv : receiveWindow c ≤ receiveWindow c';
  g_size : receiveWindowSize c ≤ receiveWindowSize c';
  g_max : maxReceiveWindowSize c' = maxReceiveWindowSize c;
  g_allow : allowWindowIncrease c' = allowWindowIncrease c;
}.

Ltac destruct_ok :=
  repeat match goal with
  | H : rcv_ok _ |- _ => destruct H
  | H : grows _ _ |- _ => destruct H
  end.

Lemma addBytesRead_ok now n c : rcv_ok c → 0 ≤ n ≤ highestReceived c - bytesRead c →
  let c' := addBytesRead now n c in
  rcv_ok c' ∧ grows c c' ∧ receiveWindow c' = receiveWindow c ∧ bytesRead c' = bytesRead c + n.
Proof.
  intros Hok Hn. destruct Hok. unfold limit in *. unfold addBytesRead.
  assert (i64 (bytesRead c + n) = bytesRead c + n) as He by (apply i64_small; lia).
  destruct (Z.eqb_spec (bytesRead c) 0); simpl; rewrite He; split_and!; try split; simpl; unfold limit; lia || done.
Qed.

Lemma maybeAdjustWindowSize_ok now rtt c : rcv_ok c →
  let c' := maybeAdjustWindowSize now rtt c in
  rcv_ok c' ∧ grows c c' ∧ receiveWindow c' = receiveWindow c ∧ bytesRead c' = bytesRead c ∧
  receiveWindowSize c' ≤ Z.max (receiveWindowSize c) (maxReceiveWindowSize c).
Proof.
  intros Hok. destruct Hok. unfold limit in *. unfold maybeAdjustWindowSize.
  rewrite (i64_small (2 * receiveWindowSize c)) by lia.
  repeat case_match; simpl; split_and!; try split; simpl; unfold limit; try done; try lia;
    apply andb_true_iff in H2 as [Hlt _]; apply Z.ltb_lt in Hlt; lia.
Qed.

Lemma hasWindowUpdate_iff c : rcv_ok c →
  hasWindowUpdate c = (receiveWindow c - bytesRead c <=? threshold (receiveWindowSize c)).
Proof.
  intros []. unfold limit in *. unfold hasWindowUpdate, threshold. by rewrite i64_small by lia.
Qed.

Lemma getWindowUpdate_ok now rtt c off c' : rcv_ok c → getWindowUpdate now rtt c = (off, c') →
  rcv_ok c' ∧ grows c c' ∧ bytesRead c' = bytesRead c ∧ (off = 0 ∨ off = receiveWindow c').
Proof.
  intros Hok Hg. unfold getWindowUpdate in Hg. rewrite hasWindowUpdate_iff in Hg by done.
  destruct (Z.leb_spec (receiveWindow c - bytesRead c) (threshold (receiveWindowSize c))) as [Hle|]; simpl in Hg.
  2: { injection Hg as <- <-. split_and!; [done|by split|done|by left]. }
  destruct (maybeAdjustWindowSize_ok now rtt c Hok) as (Hok' & Hgr & Hw & Hr & _).
  set (d := maybeAdjustWindowSize now rtt c) in *. injection Hg as <- <-.
  pose proof (threshold_bounds (receiveWindowSize c)). destruct_ok. unfold limit in *.
  rewrite i64_small by lia. split_and!; [split; simpl; unfold limit; lia|split; simpl; try done; lia|done|by right].
Qed.

Lemma EnsureMinimumWindowSize_ok now inc c : rcv_ok c → is_Some (allowWindowIncrease c) →
  ∃ c', EnsureMinimumWindowSize now inc c = (Ok tt, c') ∧ rcv_ok c' ∧ grows c c' ∧ bytesRead c' = bytesRead c.
Proof.
  intros Hok [f Hf]. destruct Hok. unfold limit in *. unfold EnsureMinimumWindowSize. rewrite Hf.
  destruct (Z.ltb_spec (receiveWindowSize c) inc); [|exists c; split_and!; [done|by split|by split|done]].
  rewrite i64_small by lia. destruct (Z.ltb_spec 0 (Z.min inc (maxReceiveWindowSize c) - receiveWindowSize c));
    [destruct (f _)|]; (eexists; split; [done|]); split_and!; try split; simpl; unfold limit; try done; lia.
Qed.
(** What [UpdateHighestReceived] does on an offset within all limits. *)
Lemma set_highestReceived_id c : set_highestReceived (highestReceived c) c = c.
Proof. by destruct c. Qed.

Lemma UpdateHighestReceived_ok off fin c conn :
  let b := fc_base c in
  let inc := Z.max off (highestReceived b) - highestReceived b in
  rcv_ok b → rcv_ok conn → 0 ≤ off < limit → off ≤ receiveWindow b →
  (receivedFinalOffset c = true → off ≤ highestReceived b ∧ (fin = true → off = highestReceived b)) →
  (fin = true → highestReceived b ≤ off) →
  highestReceived conn + inc ≤ receiveWindow conn →
  UpdateHighestReceived off fin (c, conn) =
    (Ok tt, (mkStreamFC (set_highestReceived (Z.max off (highestReceived b)) b) (fc_streamID c) (receivedFinalOffset c || fin),
             set_highestReceived (highestReceived conn + inc) conn)).
Proof.
  intros b inc Hb Hc Hoff Hw Hfin Hfin' Hconn. subst b. subst inc. unfold UpdateHighestReceived.
  destruct c as [b id final]; simpl in *.
  assert (final && fin && negb (off =? highestReceived b) = false) as ->.
  { destruct final, fin; try done. destruct (Hfin eq_refl) as [_ He]. rewrite He by done. by rewrite Z.eqb_refl. }
  assert (final && (highestReceived b <? off) = false) as ->.
  { destruct final; [|done]. destruct (Hfin eq_refl). simpl. apply Z.ltb_ge. lia. }
  destruct (Z.eqb_spec off (highestReceived b)) as [->|Hne].
  { rewrite Z.max_id, Z.sub_diag, Z.add_0_r, !set_highestReceived_id. by destruct fin, final. }
  destruct (Z.leb_spec off (highestReceived b)).
  { assert (fin = false) as -> by (destruct fin; [specialize (Hfin' eq_refl); lia|done]).
    rewrite Z.max_r by lia. rewrite Z.sub_diag, Z.add_0_r, !set_highestReceived_id. by rewrite orb_false_r. }
  assert (final = false) as -> by (destruct final; [destruct (Hfin eq_refl); lia|done]).
  rewrite Z.max_l in * by lia. destruct Hb, Hc. unfold limit in *.
  rewrite (i64_small (off - highestReceived b)) by lia. unfold checkFlowControlViolation, IncrementHighestReceived.
  rewrite (i64_small (highestReceived conn + _)) by lia.
  destruct fin; simpl; rewrite (proj2 (Z.ltb_ge _ _)) by lia; unfold checkFlowControlViolation; simpl;
    by rewrite (proj2 (Z.ltb_ge _ _)) by lia.
Qed.

Lemma set_highestReceived_ok n c : rcv_ok c → highestReceived c ≤ n ≤ receiveWindow c → n < limit →
  rcv_ok (set_highestReceived n c).
Proof. intros [] Hn Hl. split; simpl; try done; lia. Qed.

(** * Two endpoints

    The data of one direction.  A channel is a stream with the controller of
    its sender, whether the sender has sent the final offset, the controller of
    its receiver, and whether the receiver has abandoned it.  Frames on the
    wire are never removed: they are lost, delivered late, or several times. *)
Record chan := mkChan {
  c_snd : streamFlowController;
  c_fin : bool;
  c_rcv : streamFlowController;
  c_abandoned : bool;
}.

Inductive msg :=
| StreamData (i : nat) (maxOffset : Z) (fin : bool)   (* STREAM, or RESET_STREAM with its final size *)
| MaxStreamData (i : nat) (limit : Z)
| MaxData (limit : Z).

Record net := mkNet {
  snd_conn : connectionFlowController;
  rcv_conn : connectionFlowController;
  chans : list chan;
  wire : list msg;
}.

Inductive fstep : net → net → Prop :=
| f_send s i ch n fin c' conn' : chans s !! i = Some ch → c_fin ch = false →
    0 ≤ n ≤ SendWindowSize (c_snd ch) (snd_conn s) → AddBytesSent n (c_snd ch) (snd_conn s) = (c', conn') →
    fstep s (mkNet conn' (rcv_conn s) (<[i := mkChan c' fin (c_rcv ch) (c_abandoned ch)]> (chans s))
               (StreamData i (bytesSent (fc_base c')) fin :: wire s))
| f_retransmit s i off fin off' : StreamData i off fin ∈ wire s → 0 ≤ off' ≤ off →
    fstep s (mkNet (snd_conn s) (rcv_conn s) (chans s) (StreamData i off' false :: wire s))
| f_data s i off fin ch r c' conn' : StreamData i off fin ∈ wire s → chans s !! i = Some ch →
    UpdateHighestReceived off fin (c_rcv ch, rcv_conn s) = (r, (c', conn')) →
    fstep s (mkNet (snd_conn s) conn' (<[i := mkChan (c_snd ch) (c_fin ch) c' (c_abandoned ch)]> (chans s)) (wire s))
| f_read s i ch now now' n q q' c' conn' : chans s !! i = Some ch → c_abandoned ch = false →
    0 ≤ n ≤ highestReceived (fc_base (c_rcv ch)) - bytesRead (fc_base (c_rcv ch)) →
    AddBytesRead now now' n (c_rcv ch) (rcv_conn s) = (q, q', c', conn') →
    fstep s (mkNet (snd_conn s) conn' (<[i := mkChan (c_snd ch) (c_fin ch) c' false]> (chans s)) (wire s))
| f_abandon s i ch now q conn' : chans s !! i = Some ch → c_abandoned ch = false →
    receivedFinalOffset (c_rcv ch) = true → Abandon now (c_rcv ch) (rcv_conn s) = (q, conn') →
    fstep s (mkNet (snd_conn s) conn' (<[i := mkChan (c_snd ch) (c_fin ch) (c_rcv ch) true]> (chans s)) (wire s))
| f_stream_update s i ch now now' rtt off c' conn' : chans s !! i = Some ch →
    GetWindowUpdate now now' rtt (c_rcv ch, rcv_conn s) = (Ok off, (c', conn')) → off ≤ MaxByteCount →
    fstep s (mkNet (snd_conn s) conn' (<[i := mkChan (c_snd ch) (c_fin ch) c' (c_abandoned ch)]> (chans s))
               (if off =? 0 then wire s else MaxStreamData i off :: wire s))
| f_conn_update s now rtt off conn' :
    connection_GetWindowUpdate now rtt (rcv_conn s) = (off, conn') → off ≤ MaxByteCount →
    fstep s (mkNet (snd_conn s) conn' (chans s) (if off =? 0 then wire s else MaxData off :: wire s))
| f_max_stream_data s i ch off u b : MaxStreamData i off ∈ wire s → chans s !! i = Some ch →
    UpdateSendWindow off (fc_base (c_snd ch)) = (u, b) →
    fstep s (mkNet (snd_conn s) (rcv_conn s)
      (<[i := mkChan (set_base b (c_snd ch)) (c_fin ch) (c_rcv ch) (c_abandoned ch)]> (chans s)) (wire s))
| f_max_data s off u b : MaxData off ∈ wire s → UpdateSendWindow off (snd_conn s) = (u, b) →
    fstep s (mkNet b (rcv_conn s) (chans s) (wire s)).

(** The configuration of the receiver; the sender learns the initial windows
    from its transport parameters. *)
Record config := mkConfig {
  initialStreamWindow : Z; maxStreamWindow : Z;
  initialConnectionWindow : Z; maxConnectionWindow : Z;
  allowIncrease : Z → bool;
}.

Definition config_ok (k : config) : Prop :=
  0 ≤ initialStreamWindow k ≤ MaxByteCount ∧ 0 ≤ maxStreamWindow k ≤ MaxByteCount ∧
  0 ≤ initialConnectionWindow k ≤ MaxByteCount ∧ 0 ≤ maxConnectionWindow k ≤ MaxByteCount.

Definition initial_chan (k : config) (i : nat) : chan :=
  mkChan (NewStreamFlowController (Z.of_nat i) (initialStreamWindow k) (maxStreamWindow k) (initialStreamWindow k)) false
    (NewStreamFlowController (Z.of_nat i) (initialStreamWindow k) (maxStreamWindow k) (initialStreamWindow k)) false.

Definition initial (k : config) (n : nat) : net :=
  let conn := NewConnectionFlowController (initialConnectionWindow k) (maxConnectionWindow k) (Some (allowIncrease k)) in
  mkNet (UpdateSendWindow (initialConnectionWindow k) conn).2 conn (initial_chan k <$> seq 0 n) [].

Inductive run (k : config) (n : nat) : net → Prop :=
| run_init : run k n (initial k n)
| run_step s s' : run k n s → fstep s s' → run k n s'.

(** ** The invariant *)

Definition total {A} (f : A → Z) (l : list A) : Z := foldr (λ x z, f x + z) 0 l.

Lemma total_insert {A} (f : A → Z) l i x y : l !! i = Some x → total f (<[i := y]> l) = total f l - f x + f y.
Proof.
  revert i. induction l as [|z l IH]; intros [|i] Hi; simplify_eq/=; [lia|]. rewrite (IH i Hi). lia.
Qed.

Lemma total_le {A} (f g : A → Z) l : Forall (λ x, f x ≤ g x) l → total f l ≤ total g l.
Proof. induction 1; simpl; lia. Qed.

Lemma total_lookup_le {A} (f g : A → Z) l i x : Forall (λ x, f x ≤ g x) l → l !! i = Some x →
  total f l + (g x - f x) ≤ total g l.
Proof.
  intros Hl. revert i. induction Hl as [|z l Hz Hl IH]; intros [|i] Hi; simplify_eq/=.
  - pose proof (total_le _ _ _ Hl). lia.
  - specialize (IH i Hi). lia.
Qed.

(** The bytes of a channel the receiving connection counts as read. *)
Definition ch_sent (ch : chan) : Z := bytesSent (fc_base (c_snd ch)).
Definition ch_received (ch : chan) : Z := highestReceived (fc_base (c_rcv ch)).
Definition ch_read (ch : chan) : Z :=
  if c_abandoned ch then ch_received ch else bytesRead (fc_base (c_rcv ch)).

Record chan_ok (ch : chan) : Prop := {
  ch_snd_ok : 0 ≤ ch_sent ch ≤ sendWindow (fc_base (c_snd ch)) ∧ sendWindow (fc_base (c_snd ch)) ≤ MaxByteCount;
  ch_rcv_ok : rcv_ok (fc_base (c_rcv ch));
  ch_le : ch_received ch ≤ ch_sent ch;
  ch_win : sendWindow (fc_base (c_snd ch)) ≤ receiveWindow (fc_base (c_rcv ch));
  ch_final : receivedFinalOffset (c_rcv ch) = true → c_fin ch = true ∧ ch_received ch = ch_sent ch;
  ch_gone : c_abandoned ch = true → receivedFinalOffset (c_rcv ch) = true;
}.

Definition msg_ok (s : net) (m : msg) : Prop :=
  match m with
  | StreamData i off fin => ∃ ch, chans s !! i = Some ch ∧ 0 ≤ off ≤ ch_sent ch ∧
      (fin = true → c_fin ch = true ∧ off = ch_sent ch)
  | MaxStreamData i off => ∃ ch, chans s !! i = Some ch ∧ off ≤ receiveWindow (fc_base (c_rcv ch)) ∧ off ≤ MaxByteCount
  | MaxData off => off ≤ receiveWindow (rcv_conn s) ∧ off ≤ MaxByteCount
  end.

Record net_ok (s : net) : Prop := {
  n_chans : Forall chan_ok (chans s);
  n_snd : bytesSent (snd_conn s) = total ch_sent (chans s);
  n_snd_win : 0 ≤ bytesSent (snd_conn s) ≤ sendWindow (snd_conn s) ∧ sendWindow (snd_conn s) ≤ MaxByteCount;
  n_rcv : rcv_ok (rcv_conn s);
  n_allow : is_Some (allowWindowIncrease (rcv_conn s));
  n_received : highestReceived (rcv_conn s) = total ch_received (chans s);
  n_read : bytesRead (rcv_conn s) = total ch_read (chans s);
  n_win : sendWindow (snd_conn s) ≤ receiveWindow (rcv_conn s);
  n_wire : Forall (msg_ok s) (wire s);
}.
(** Windows and sent offsets only grow, and a stream that is finished sends no
    more, so that frames on the wire stay valid. *)
Record chan_le (ch ch' : chan) : Prop := {
  le_sent : ch_sent ch ≤ ch_sent ch';
  le_fin : c_fin ch = true → c_fin ch' = true ∧ ch_sent ch' = ch_sent ch;
  le_win : receiveWindow (fc_base (c_rcv ch)) ≤ receiveWindow (fc_base (c_rcv ch'));
}.

Lemma msg_ok_insert s i ch ch' k conn w m : chans s !! i = Some ch → chan_le ch ch' →
  receiveWindow (rcv_conn s) ≤ receiveWindow conn →
  msg_ok s m → msg_ok (mkNet k conn (<[i := ch']> (chans s)) w) m.
Proof.
  intros Hi [Hs Hf Hw] Hc. destruct m as [j off fin|j off|off]; simpl; [| |lia].
  - intros (c & Hj & Hoff & Hfin). destruct (decide (i = j)) as [->|Hne].
    + rewrite Hi in Hj. injection Hj as <-. exists ch'. rewrite list_lookup_insert_eq by (by eapply lookup_lt_Some).
      split_and!; [done|lia|lia|]. intros Ht. destruct (Hfin Ht) as [Hcf ->]. destruct (Hf Hcf) as [? ->]. done.
    + exists c. by rewrite list_lookup_insert_ne by done.
  - intros (c & Hj & Hoff). destruct (decide (i = j)) as [->|Hne].
    + rewrite Hi in Hj. injection Hj as <-. exists ch'. rewrite list_lookup_insert_eq by (by eapply lookup_lt_Some).
      split; [done|]. lia.
    + exists c. by rewrite list_lookup_insert_ne by done.
Qed.

Lemma net_ok_chan s i ch : net_ok s → chans s !! i = Some ch → chan_ok ch.
Proof. intros Hs Hi. exact (Forall_lookup_1 _ _ _ _ (n_chans s Hs) Hi). Qed.

Lemma received_le_sent s : net_ok s → Forall (λ ch, ch_received ch ≤ ch_sent ch) (chans s).
Proof. intros Hs. eapply Forall_impl; [apply (n_chans s Hs)|]. by intros ch []. Qed.

Lemma read_le_received s : net_ok s → Forall (λ ch, ch_read ch ≤ ch_received ch) (chans s).
Proof.
  intros Hs. eapply Forall_impl; [apply (n_chans s Hs)|]. intros ch [_ [Hr _] _ _ _ _].
  unfold ch_read, ch_received. destruct (c_abandoned ch); lia.
Qed.

(** A change of one channel and of the receiving connection. *)
Lemma net_ok_rcv s i ch ch' conn w : net_ok s → chans s !! i = Some ch → chan_ok ch' → chan_le ch ch' →
  ch_sent ch' = ch_sent ch → rcv_ok conn → is_Some (allowWindowIncrease conn) →
  receiveWindow (rcv_conn s) ≤ receiveWindow conn →
  highestReceived conn = highestReceived (rcv_conn s) + (ch_received ch' - ch_received ch) →
  bytesRead conn = bytesRead (rcv_conn s) + (ch_read ch' - ch_read ch) →
  (∀ m, m ∈ w → m ∈ wire s ∨ msg_ok (mkNet (snd_conn s) conn (<[i := ch']> (chans s)) w) m) →
  net_ok (mkNet (snd_conn s) conn (<[i := ch']> (chans s)) w).
Proof.
  intros Hs Hi Hch Hle Hsent Hconn Ha Hw Hr Hrd Hm. pose proof Hs as [].
  split; simpl; rewrite ?(total_insert _ _ _ _ _ Hi); try done; try lia.
  - by apply Forall_insert.
  - apply Forall_forall. intros m Hin. destruct (Hm m Hin) as [Hold|]; [|done].
    exact (msg_ok_insert s i ch ch' _ conn _ m Hi Hle Hw (proj1 (Forall_forall _ _) n_wire0 m Hold)).
Qed.

Lemma fstep_data s i off fin ch : net_ok s → StreamData i off fin ∈ wire s → chans s !! i = Some ch →
  ∃ c' conn', UpdateHighestReceived off fin (c_rcv ch, rcv_conn s) = (Ok tt, (c', conn')) ∧
    net_ok (mkNet (snd_conn s) conn' (<[i := mkChan (c_snd ch) (c_fin ch) c' (c_abandoned ch)]> (chans s)) (wire s)).
Proof.
  intros Hs Hm Hi. pose proof (net_ok_chan s i ch Hs Hi) as Hch. pose proof Hs as [].
  apply (proj1 (Forall_forall _ _) n_wire0) in Hm as (ch0 & Hi' & Hoff & Hfin). rewrite Hi in Hi'. injection Hi' as <-.
  pose proof Hch as [[? ?] Hrok Hle Hwin Hfinal Hgone].
  pose proof (total_lookup_le _ _ _ _ _ (received_le_sent s Hs) Hi) as Htot.
  unfold ch_received in *. eexists _, _. split.
  - apply UpdateHighestReceived_ok; try done; unfold MaxByteCount, limit in *; try lia.
    + intros Hf. destruct (Hfinal Hf) as [Hcf He]. rewrite He. split; [lia|]. intros Ht. by destruct (Hfin Ht).
    + intros Ht. destruct (Hfin Ht) as [_ ->]. lia.
  - assert (Hmax : off `max` highestReceived (fc_base (c_rcv ch)) ≤ ch_sent ch) by lia.
    pose proof Hrok as []. unfold MaxByteCount, limit in *.
    apply (net_ok_rcv s i ch); simpl; try done; unfold ch_read, ch_received, ch_sent in *; simpl; try lia.
    + split; unfold ch_received, ch_sent; simpl; try done; try lia.
      * apply set_highestReceived_ok; unfold limit; [done|lia|lia].
      * intros [Hf|Hf]%orb_true_iff.
        -- destruct (Hfinal Hf) as [-> He]. split; [done|lia].
        -- destruct (Hfin Hf) as [-> He]. split; [done|lia].
      * intros Hg. by rewrite Hgone.
    + apply set_highestReceived_ok; unfold limit; [done|lia|lia].
    + destruct (c_abandoned ch) eqn:Ha; [|lia]. assert (Hf := Hgone eq_refl). destruct (Hfinal Hf). lia.
    + intros m Hin. by left.
Qed.
Lemma fstep_read s i ch now now' n q q' c' conn' : net_ok s → chans s !! i = Some ch → c_abandoned ch = false →
  0 ≤ n ≤ highestReceived (fc_base (c_rcv ch)) - bytesRead (fc_base (c_rcv ch)) →
  AddBytesRead now now' n (c_rcv ch) (rcv_conn s) = (q, q', c', conn') →
  net_ok (mkNet (snd_conn s) conn' (<[i := mkChan (c_snd ch) (c_fin ch) c' false]> (chans s)) (wire s)).
Proof.
  intros Hs Hi Ha Hn He. pose proof (net_ok_chan s i ch Hs Hi) as Hch. pose proof Hs as []. destruct Hch.
  pose proof (total_lookup_le _ _ _ _ _ (read_le_received s Hs) Hi) as Ht. unfold ch_read, ch_received in Ht. rewrite Ha in Ht.
  injection He as _ _ <- <-.
  destruct (addBytesRead_ok now n _ ch_rcv_ok0 Hn) as (Hr1 & Hg1 & Hw1 & Hb1).
  destruct (addBytesRead_ok now' n (rcv_conn s) n_rcv0) as (Hr2 & Hg2 & Hw2 & Hb2).
  { rewrite n_received0, n_read0. unfold ch_read, ch_received in *. lia. }
  change (connection_AddBytesRead now' n (rcv_conn s)).2 with (addBytesRead now' n (rcv_conn s)).
  generalize dependent (addBytesRead now n (fc_base (c_rcv ch))). intros b Hr1 Hg1 Hw1 Hb1.
  generalize dependent (addBytesRead now' n (rcv_conn s)). intros k Hr2 Hg2 Hw2 Hb2. destruct Hg1, Hg2.
  apply (net_ok_rcv s i ch); simpl; unfold ch_read, ch_received, ch_sent in *; simpl; rewrite ?Ha; try done; try lia.
  - split; unfold ch_sent, ch_received; simpl; try done; try lia. by rewrite g_received0.
  - by rewrite g_allow1.
  - intros m Hm. by left.
Qed.

Lemma fstep_abandon s i ch now q conn' : net_ok s → chans s !! i = Some ch → c_abandoned ch = false →
  receivedFinalOffset (c_rcv ch) = true → Abandon now (c_rcv ch) (rcv_conn s) = (q, conn') →
  net_ok (mkNet (snd_conn s) conn' (<[i := mkChan (c_snd ch) (c_fin ch) (c_rcv ch) true]> (chans s)) (wire s)).
Proof.
  intros Hs Hi Ha Hf He. pose proof (net_ok_chan s i ch Hs Hi) as Hch. pose proof Hs as []. destruct Hch.
  pose proof (total_lookup_le _ _ _ _ _ (read_le_received s Hs) Hi) as Ht. unfold ch_read, ch_received in Ht. rewrite Ha in Ht.
  pose proof ch_rcv_ok0 as [].
  assert (∃ n, n = highestReceived (fc_base (c_rcv ch)) - bytesRead (fc_base (c_rcv ch)) ∧
    rcv_ok conn' ∧ grows (rcv_conn s) conn' ∧ bytesRead conn' = bytesRead (rcv_conn s) + n) as (n & Hn & Hr2 & Hg2 & Hb2).
  { eexists. split; [done|]. unfold limit in *. unfold Abandon in He. rewrite i64_small in He by lia.
    destruct (Z.ltb_spec 0 (highestReceived (fc_base (c_rcv ch)) - bytesRead (fc_base (c_rcv ch)))) as [Hlt|Hlt].
    - injection He as _ <-. eapply (addBytesRead_ok now) in n_rcv0 as (? & ? & ? & ?); [done|].
      rewrite n_received0, n_read0. unfold ch_read, ch_received in *. lia.
    - injection He as _ <-. split_and!; [done|by split|lia]. }
  destruct Hg2.
  apply (net_ok_rcv s i ch); simpl; unfold ch_read, ch_received, ch_sent in *; simpl; rewrite ?Ha; try done; try lia.
  - by rewrite g_allow0.
  - intros m Hm. by left.
Qed.

Lemma GetWindowUpdate_ok now now' rtt c conn : rcv_ok (fc_base c) → rcv_ok conn → is_Some (allowWindowIncrease conn) →
  ∃ off b conn', GetWindowUpdate now now' rtt (c, conn) = (Ok off, (set_base b c, conn')) ∧
    rcv_ok b ∧ grows (fc_base c) b ∧ bytesRead b = bytesRead (fc_base c) ∧ (off = 0 ∨ off = receiveWindow b) ∧
    rcv_ok conn' ∧ grows conn conn' ∧ bytesRead conn' = bytesRead conn.
Proof.
  intros Hb Hc Ha. unfold GetWindowUpdate. destruct (receivedFinalOffset c) eqn:Hf.
  { exists 0, (fc_base c), conn. split_and!; try done; try (by split); [by destruct c|by left]. }
  destruct (getWindowUpdate now rtt (fc_base c)) as [off b] eqn:Hg.
  apply getWindowUpdate_ok in Hg as (Hok & Hgr & Hrd & Hoff); [|done].
  destruct (receiveWindowSize (fc_base c) <? receiveWindowSize b).
  - destruct (EnsureMinimumWindowSize_ok now' (to_int (mul (of_int (receiveWindowSize b)) ConnectionFlowControlMultiplier))
      conn Hc Ha) as (conn' & -> & ? & ? & ?). by exists off, b, conn'.
  - exists off, b, conn. split_and!; try done; by split.
Qed.

Lemma fstep_stream_update s i ch now now' rtt off c' conn' : net_ok s → chans s !! i = Some ch →
  GetWindowUpdate now now' rtt (c_rcv ch, rcv_conn s) = (Ok off, (c', conn')) → off ≤ MaxByteCount →
  net_ok (mkNet (snd_conn s) conn' (<[i := mkChan (c_snd ch) (c_fin ch) c' (c_abandoned ch)]> (chans s))
    (if off =? 0 then wire s else MaxStreamData i off :: wire s)).
Proof.
  intros Hs Hi He Hoff. pose proof (net_ok_chan s i ch Hs Hi) as Hch. pose proof Hs as []. destruct Hch.
  destruct (GetWindowUpdate_ok now now' rtt (c_rcv ch) (rcv_conn s)) as (off' & b & k & He' & Hb & Hg & Hrd & Ho & Hk & Hgk & Hrk);
    [done..|]. rewrite He' in He. injection He as -> <- <-. destruct Hg, Hgk.
  apply (net_ok_rcv s i ch); simpl; unfold ch_read, ch_received, ch_sent in *; simpl; rewrite ?Hrd, ?g_received0; try done; try lia.
  - split; unfold ch_sent, ch_received; simpl; try done; try lia. by rewrite g_received0.
  - by rewrite g_allow1.
  - intros m Hm. destruct (Z.eqb_spec off 0); [by left|]. apply elem_of_cons in Hm as [->|]; [|by left]. right. simpl.
    eexists. rewrite list_lookup_insert_eq by (by eapply lookup_lt_Some). simpl. split_and!; [done|simpl; lia|done].
Qed.

(** A change of the connection controllers only. *)
Lemma msg_ok_conn s k w r m : receiveWindow (rcv_conn s) ≤ receiveWindow r → msg_ok s m → msg_ok (mkNet k r (chans s) w) m.
Proof. destruct m; simpl; [done|done|lia]. Qed.

Lemma fstep_conn_update s now rtt off conn' : net_ok s →
  connection_GetWindowUpdate now rtt (rcv_conn s) = (off, conn') → off ≤ MaxByteCount →
  net_ok (mkNet (snd_conn s) conn' (chans s) (if off =? 0 then wire s else MaxData off :: wire s)).
Proof.
  intros Hs He Hoff. pose proof Hs as []. apply getWindowUpdate_ok in He as (Hok & Hg & Hr & Ho); [|done]. destruct Hg.
  assert (Hold : Forall (msg_ok (mkNet (snd_conn s) conn' (chans s) (if off =? 0 then wire s else MaxData off :: wire s))) (wire s)).
  { eapply Forall_impl; [done|]. intros m. by apply msg_ok_conn. }
  split; simpl; rewrite ?g_allow0, ?Hr, ?g_received0; try done; try lia.
  destruct (Z.eqb_spec off 0); [done|]. constructor; [|done]. simpl. lia.
Qed.

Lemma fstep_max_data s off u b : net_ok s → MaxData off ∈ wire s → UpdateSendWindow off (snd_conn s) = (u, b) →
  net_ok (mkNet b (rcv_conn s) (chans s) (wire s)).
Proof.
  intros Hs Hm He. pose proof Hs as []. apply (proj1 (Forall_forall _ _) n_wire0) in Hm. simpl in Hm.
  unfold UpdateSendWindow in He. destruct (Z.ltb_spec (sendWindow (snd_conn s)) off); injection He as _ <-;
    split; simpl; try done; try lia; (eapply Forall_impl; [done|]); intros m; by apply msg_ok_conn.
Qed.

Lemma fstep_max_stream_data s i ch off u b : net_ok s → MaxStreamData i off ∈ wire s → chans s !! i = Some ch →
  UpdateSendWindow off (fc_base (c_snd ch)) = (u, b) →
  net_ok (mkNet (snd_conn s) (rcv_conn s)
    (<[i := mkChan (set_base b (c_snd ch)) (c_fin ch) (c_rcv ch) (c_abandoned ch)]> (chans s)) (wire s)).
Proof.
  intros Hs Hm Hi He. pose proof (net_ok_chan s i ch Hs Hi) as Hch. pose proof Hs as []. destruct Hch.
  apply (proj1 (Forall_forall _ _) n_wire0) in Hm as (ch0 & Hi' & Hoff). rewrite Hi in Hi'. injection Hi' as <-.
  assert (bytesSent b = bytesSent (fc_base (c_snd ch)) ∧ bytesSent (fc_base (c_snd ch)) ≤ sendWindow b ∧ sendWindow b ≤ MaxByteCount ∧
    sendWindow b ≤ receiveWindow (fc_base (c_rcv ch))) as (Hsb & Hb).
  { unfold UpdateSendWindow in He. unfold ch_sent in *.
    destruct (Z.ltb_spec (sendWindow (fc_base (c_snd ch))) off); injection He as _ <-; simpl; lia. }
  apply (net_ok_rcv s i ch); simpl; unfold ch_read, ch_received, ch_sent in *; simpl; try done; try lia.
  - split; unfold ch_sent, ch_received; simpl; rewrite ?Hsb; try done; lia.
  - split; unfold ch_sent; simpl; rewrite ?Hsb; [lia|done|lia].
  - intros m Hin. by left.
Qed.

Lemma fstep_send s i ch n fin c' conn' : net_ok s → chans s !! i = Some ch → c_fin ch = false →
  0 ≤ n ≤ SendWindowSize (c_snd ch) (snd_conn s) → AddBytesSent n (c_snd ch) (snd_conn s) = (c', conn') →
  net_ok (mkNet conn' (rcv_conn s) (<[i := mkChan c' fin (c_rcv ch) (c_abandoned ch)]> (chans s))
    (StreamData i (bytesSent (fc_base c')) fin :: wire s)).
Proof.
  intros Hs Hi Hf Hn He. pose proof (net_ok_chan s i ch Hs Hi) as Hch. pose proof Hs as []. destruct Hch.
  unfold SendWindowSize, connection_SendWindowSize, sendWindowSize, ch_sent, MaxByteCount in *.
  rewrite !(proj2 (Z.ltb_ge _ _)) in Hn by lia. rewrite !i64_small in Hn by lia.
  unfold AddBytesSent, base_AddBytesSent in He. rewrite !i64_small in He by lia. injection He as <- <-.
  set (ch' := mkChan _ _ _ _). assert (Hle : chan_le ch ch').
  { split; unfold ch_sent; simpl; [lia|by rewrite Hf|lia]. }
  assert (ch_received ch' = ch_received ch ∧ ch_read ch' = ch_read ch ∧ ch_sent ch' = ch_sent ch + n) as (? & ? & ?) by done.
  change (bytesSent (snd_conn s) = total ch_sent (chans s)) in n_snd0.
  split; simpl; rewrite ?(total_insert _ _ _ _ _ Hi); try done; try (unfold MaxByteCount; lia).
  - apply Forall_insert; [done|]. split; unfold ch_sent, ch_received, MaxByteCount in *; simpl; try done; try lia.
    intros Hfo. destruct (ch_final0 Hfo) as [Hx _]. by rewrite Hf in Hx.
  - constructor.
    + simpl. exists ch'. rewrite list_lookup_insert_eq by (by eapply lookup_lt_Some). unfold ch_sent. simpl. split_and!; [done|lia|lia|done].
    + eapply Forall_impl; [done|]. intros m Hm.
      by apply (msg_ok_insert s i ch ch').
Qed.
Lemma fstep_retransmit s i off fin off' : net_ok s → StreamData i off fin ∈ wire s → 0 ≤ off' ≤ off →
  net_ok (mkNet (snd_conn s) (rcv_conn s) (chans s) (StreamData i off' false :: wire s)).
Proof.
  intros Hs Hm Ho. pose proof Hs as []. apply (proj1 (Forall_forall _ _) n_wire0) in Hm as (ch & Hi & Hoff & _).
  split; simpl; try done. constructor; [exists ch; simpl; split_and!; [done|lia|lia|done]|].
  eapply Forall_impl; [done|]. intros m. by apply msg_ok_conn.
Qed.

Lemma fstep_ok s s' : net_ok s → fstep s s' → net_ok s'.
Proof.
  intros Hs Hst. destruct Hst as [| |s i off fin ch r c' conn' Hm Hi He| | | | | |].
  - by eapply fstep_send.
  - by eapply fstep_retransmit.
  - destruct (fstep_data s i off fin ch Hs Hm Hi) as (c1 & k1 & He1 & Hok). rewrite He1 in He. by injection He as _ <- <-.
  - by eapply fstep_read.
  - by eapply fstep_abandon.
  - by eapply fstep_stream_update.
  - by eapply fstep_conn_update.
  - by eapply fstep_max_stream_data.
  - by eapply fstep_max_data.
Qed.

Lemma total_zero {A} (f : A → Z) l : Forall (λ x, f x = 0) l → total f l = 0.
Proof. induction 1; simpl; lia. Qed.

Lemma initial_ok k n : config_ok k → net_ok (initial k n).
Proof.
  intros (H1 & H2 & H3 & H4). unfold MaxByteCount in *.
  assert (Hz : ∀ f : chan → Z, (∀ i, f (initial_chan k i) = 0) → total f (chans (initial k n)) = 0).
  { intros f Hf. apply total_zero, Forall_fmap, Forall_true. intros i. apply Hf. }
  unfold initial, UpdateSendWindow. simpl.
  split; simpl in *; rewrite ?Hz by done; try done; try (destruct (Z.ltb_spec 0 (initialConnectionWindow k)); simpl; unfold MaxByteCount; lia).
  - apply Forall_fmap, Forall_true. intros i. split; unfold ch_sent, ch_received, MaxByteCount; simpl; try done; try lia.
    split; simpl; unfold limit; lia.
  - split; simpl; unfold limit; lia.
Qed.

Lemma run_ok k n s : config_ok k → run k n s → net_ok s.
Proof. intros Hk. induction 1; [by apply initial_ok|by eapply fstep_ok]. Qed.

(** C12: an endpoint that sends within its windows never violates its peer's.
    Whatever is lost, delayed, duplicated or retransmitted, and whenever the
    receiver reads, abandons streams and auto-tunes its windows: every frame on
    the wire is accepted by [UpdateHighestReceived], asking for a window update
    never fails, the connection's counters are the sums over its streams, and
    each window of the sender is at most the receiver's. *)
Theorem flow_control_respected k n s : config_ok k → run k n s →
  (∀ i off fin ch, StreamData i off fin ∈ wire s → chans s !! i = Some ch →
    ∃ s', UpdateHighestReceived off fin (c_rcv ch, rcv_conn s) = (Ok tt, s')) ∧
  (∀ i ch now now' rtt, chans s !! i = Some ch →
    ∃ off s', GetWindowUpdate now now' rtt (c_rcv ch, rcv_conn s) = (Ok off, s')) ∧
  highestReceived (rcv_conn s) = total ch_received (chans s) ∧
  bytesRead (rcv_conn s) = total ch_read (chans s) ∧
  bytesSent (snd_conn s) = total ch_sent (chans s) ∧
  highestReceived (rcv_conn s) ≤ bytesSent (snd_conn s) ≤ sendWindow (snd_conn s) ∧
  sendWindow (snd_conn s) ≤ receiveWindow (rcv_conn s).
Proof.
  intros Hk Hrun. pose proof (run_ok k n s Hk Hrun) as Hs. pose proof Hs as []. split_and!; try done; try lia.
  - intros i off fin ch Hm Hi. destruct (fstep_data s i off fin ch Hs Hm Hi) as (c' & conn' & He & _). by eexists.
  - intros i ch now now' rtt Hi. destruct (net_ok_chan s i ch Hs Hi).
    destruct (GetWindowUpdate_ok now now' rtt (c_rcv ch) (rcv_conn s)) as (off & b & conn & He & _); [done..|].
    by exists off, (set_base b (c_rcv ch), conn).
  - pose proof (total_le _ _ _ (received_le_sent s Hs)). lia.
Qed.

Lemma flow_control_respected_witness :
  let k := mkConfig 100 1000 150 1500 (λ _, true) in
  let s := initial k 2 in
  ∃ s1, run k 2 s1 ∧ wire s1 = [StreamData 0 100 true] ∧
    (∀ ch, chans s1 !! 0%nat = Some ch → ∃ s', UpdateHighestReceived 100 true (c_rcv ch, rcv_conn s1) = (Ok tt, s')).
Proof.
  intros k s. assert (Hr : ∃ s1, run k 2 s1 ∧ wire s1 = [StreamData 0 100 true]).
  { eexists. split.
    - eapply run_step; [apply run_init|]. eapply (f_send _ 0 (initial_chan k 0) 100 true); [reflexivity|reflexivity| |reflexivity].
      vm_compute. split; discriminate.
    - reflexivity. }
  destruct Hr as (s1 & Hr & Hw). exists s1. split; [exact Hr|]. split; [exact Hw|]. intros ch Hch.
  refine (proj1 (flow_control_respected k 2 s1 _ Hr) 0%nat 100 true ch _ Hch).
  - repeat split; vm_compute; discriminate.
  - rewrite Hw. left.
Defined.

(** The receiver never leaves a sender without credit it could have.  Once
    all bytes of the window are read a window update is due, and the new
    window is at least one whole window size beyond what was read; the window
    advertised never shrinks, and auto-tuning grows the size to at most the
    maximum (or leaves a larger initial size alone).  For windows below
    [2 ^ 51] bytes an update is due exactly if at most three quarters of the
    window size are left. *)
Theorem window_update_due now rtt c : rcv_ok c →
  let '(off, c') := getWindowUpdate now rtt c in
  (bytesRead c = receiveWindow c → off = bytesRead c + receiveWindowSize c' ∧ off = receiveWindow c') ∧
  receiveWindow c ≤ receiveWindow c' ∧
  receiveWindowSize c ≤ receiveWindowSize c' ≤ Z.max (receiveWindowSize c) (maxReceiveWindowSize c) ∧
  (receiveWindowSize c < 2 ^ 51 →
    hasWindowUpdate c = (receiveWindow c - bytesRead c <=? receiveWindowSize c * 3 / 4)).
Proof.
  intros Hok. destruct (getWindowUpdate now rtt c) as [off c'] eqn:Hg.
  pose proof (getWindowUpdate_ok _ _ _ _ _ Hok Hg) as (Hok' & Hgr & Hrd & Hoff).
  pose proof (maybeAdjustWindowSize_ok now rtt c Hok) as (Hoka & Hga & Hwa & Hra & Hmax).
  unfold getWindowUpdate in Hg. rewrite hasWindowUpdate_iff in * by done.
  pose proof (threshold_bounds (receiveWindowSize c) (ok_size c Hok)).
  destruct Hgr, Hok, Hoka. unfold limit in *. split_and!; [|done|done| |].
  - intros He. rewrite (proj2 (Z.leb_le _ _)) in Hg by lia. injection Hg as <- <-. simpl. rewrite i64_small by lia. lia.
  - destruct (negb _); injection Hg as <- <-; simpl; lia.
  - intros Hs. by rewrite threshold_exact by lia.
Qed.

Lemma window_update_due_witness :
  let c := mkBase 0 0 0 100 100 100 100 1000 None 5 0 in
  let c' := mkBase 0 0 0 100 100 300 200 1000 None 6 100 in
  rcv_ok c ∧ getWindowUpdate 6 7 c = (300, c') ∧
  (bytesRead c = receiveWindow c → 300 = bytesRead c + receiveWindowSize c' ∧ 300 = receiveWindow c').
Proof.
  intros c c'. assert (Hok : rcv_ok c) by (split; vm_compute; repeat split; discriminate).
  assert (E : getWindowUpdate 6 7 c = (300, c')) by (vm_compute; reflexivity).
  pose proof (window_update_due 6 7 c Hok) as H. rewrite E in H.
  split; [exact Hok|]. split; [exact E|exact (proj1 H)].
Defined.
End flowcontrol.
