(* ===== verification/ReceivedPackets.v ===== *)
(** The receive side of internal/ackhandler: which packet numbers were
    received (received_packet_history.go), when an ACK is due and what it says
    (received_packet_tracker.go), per packet number space
    (received_packet_handler.go). *)

From S2P Require Import Prelude.
From S2P Require Import Protocol.
From S2P Require Import AckFrame.

Module receivedPackets.
Import protocol ack.

(** * The history

    The linked list of ranges, from its back (the highest range) to its front. *)
Record interval := mkInterval { Start : Z; End : Z }.

Record receivedPacketHistory := mkHistory {
  ranges : list interval;
  deletedBelow : Z;
}.

Definition newReceivedPacketHistory : receivedPacketHistory := mkHistory [] 0.

(** The loop of [addToRanges], from the back of the list. *)
Fixpoint addToRanges_loop (p : Z) (l : list interval) : bool * list interval :=
  match l with
  | [] => (true, [mkInterval p p])
  | el :: prevs =>
      if (Start el <=? p) && (p <=? End el) then (false, l) else
      if End el =? p - 1 then (true, mkInterval (Start el) p :: prevs) else
      if Start el =? p + 1 then
        match prevs with
        | prev :: rest =>
            if End prev + 1 =? p then (true, mkInterval (Start prev) (End el) :: rest)
            else (true, mkInterval p (End el) :: prevs)
        | [] => (true, [mkInterval p (End el)])
        end else
      if End el <? p then (true, mkInterval p p :: l) else
      let '(b, prevs) := addToRanges_loop p prevs in (b, el :: prevs)
  end.

Definition addToRanges (p : Z) (l : list interval) : bool * list interval :=
  if blen l =? 0 then (true, [mkInterval p p]) else addToRanges_loop p l.

(** Removes the front of the list until at most [MaxNumAckRanges] are left. *)
Fixpoint maybeDeleteOldRanges (fuel : nat) (l : list interval) : list interval :=
  match fuel with
  | O => l
  | S fuel => if MaxNumAckRanges <? blen l then maybeDeleteOldRanges fuel (removelast l) else l
  end.

Definition history_ReceivedPacket (p : Z) (h : receivedPacketHistory) : bool * receivedPacketHistory :=
  if p <? deletedBelow h then (false, h) else
  let '(isNew, l) := addToRanges p (ranges h) in
  (isNew, mkHistory (maybeDeleteOldRanges (length l) l) (deletedBelow h)).

(** The loop of [DeleteBelow], from the front of the list. *)
Fixpoint deleteBelow_loop (p : Z) (l : list interval) : list interval :=
  match l with
  | [] => []
  | el :: nexts =>
      if End el <? p then deleteBelow_loop p nexts else
      if (Start el <? p) && (p <=? End el) then mkInterval p (End el) :: nexts else l
  end.

Definition DeleteBelow (p : Z) (h : receivedPacketHistory) : receivedPacketHistory :=
  if p <? deletedBelow h then h else mkHistory (rev (deleteBelow_loop p (rev (ranges h)))) p.

Definition AppendAckRanges (h : receivedPacketHistory) (ackRanges : list AckRange) : list AckRange :=
  ackRanges ++ map (λ el, mkAckRange (Start el) (End el)) (ranges h).

Definition GetHighestAckRange (h : receivedPacketHistory) : AckRange :=
  match ranges h with
  | r :: _ => mkAckRange (Start r) (End r)
  | [] => mkAckRange 0 0
  end.

Fixpoint isDuplicate_loop (p : Z) (l : list interval) : bool :=
  match l with
  | [] => false
  | el :: prevs =>
      if End el <? p then false else
      if (p <=? End el) && (Start el <=? p) then true else isDuplicate_loop p prevs
  end.

Definition history_IsPotentiallyDuplicate (p : Z) (h : receivedPacketHistory) : bool :=
  if p <? deletedBelow h then true else isDuplicate_loop p (ranges h).

(** * The trackers *)

Record receivedPacketTracker := mkTracker {
  ect0 : Z; ect1 : Z; ecnce : Z;
  packetHistory : receivedPacketHistory;
  lastAck : option AckFrame;
  hasNewAck : bool;
}.

Definition newReceivedPacketTracker : receivedPacketTracker :=
  mkTracker 0 0 0 newReceivedPacketHistory None false.

Definition errOldPacket : go_error := ErrMsg "recevedPacketTracker BUG: ReceivedPacket called for old / duplicate packet".

Definition tracker_ReceivedPacket (pn : Z) (ecn : ECN) (ackEliciting : bool) : st receivedPacketTracker () := λ h,
  let '(isNew, hist) := history_ReceivedPacket pn (packetHistory h) in
  let h := mkTracker (ect0 h) (ect1 h) (ecnce h) hist (lastAck h) (hasNewAck h) in
  if negb isNew then (Err errOldPacket, h) else
  let h := match ecn with
           | protocol.ECT0 => mkTracker (u64 (ect0 h + 1)) (ect1 h) (ecnce h) hist (lastAck h) (hasNewAck h)
           | protocol.ECT1 => mkTracker (ect0 h) (u64 (ect1 h + 1)) (ecnce h) hist (lastAck h) (hasNewAck h)
           | protocol.ECNCE => mkTracker (ect0 h) (ect1 h) (u64 (ecnce h + 1)) hist (lastAck h) (hasNewAck h)
           | _ => h
           end in
  if negb ackEliciting then (Ok tt, h)
  else (Ok tt, mkTracker (ect0 h) (ect1 h) (ecnce h) (packetHistory h) (lastAck h) true).

(** The frame is rebuilt in the struct of the last one. *)
Definition tracker_GetAckFrame (h : receivedPacketTracker) : option AckFrame * receivedPacketTracker :=
  if negb (hasNewAck h) then (None, h) else
  let ack := match lastAck h with Some a => a | None => mkAckFrame [] 0 0 0 0 end in
  let ack := Reset ack in
  let ack := mkAckFrame (AppendAckRanges (packetHistory h) (AckRanges ack)) (DelayTime ack) (ect0 h) (ect1 h) (ecnce h) in
  (Some ack, mkTracker (ect0 h) (ect1 h) (ecnce h) (packetHistory h) (Some ack) false).

Definition packetsBeforeAck : Z := 2.
Definition MaxAckDelay : Z := 25 * 10 ^ 6.

(** Times are nanoseconds since the zero [time.Time]. *)
Record appDataReceivedPacketTracker := mkAppTracker {
  tracker : receivedPacketTracker;
  largestObservedRcvdTime : Z;
  largestObserved : Z;
  ignoreBelow : Z;
  maxAckDelay : Z;
  ackQueued : bool;
  ackElicitingPacketsReceivedSinceLastAck : Z;
  ackAlarm : Z;
}.

Definition newAppDataReceivedPacketTracker : appDataReceivedPacketTracker :=
  mkAppTracker newReceivedPacketTracker 0 0 0 MaxAckDelay false 0 0.

Definition isMissing (p : Z) (h : appDataReceivedPacketTracker) : res bool :=
  match lastAck (tracker h) with
  | None => Ok false
  | Some ack =>
      if p <? ignoreBelow h then Ok false else
      largest ← LargestAcked ack;
      if p <? largest then b ← AcksPacket ack p; Ok (negb b) else Ok false
  end.

Definition hasNewMissingPackets (h : appDataReceivedPacketTracker) : res bool :=
  match lastAck (tracker h) with
  | None => Ok false
  | Some ack =>
      let highestRange := GetHighestAckRange (packetHistory (tracker h)) in
      largest ← LargestAcked ack;
      Ok ((largest + 1 <? Smallest highestRange) && (AckRange_Len highestRange =? 1))
  end.

Definition shouldQueueACK (ecn : ECN) (wasMissing : bool) (h : appDataReceivedPacketTracker) : res bool :=
  match lastAck (tracker h) with
  | None => Ok true
  | Some _ =>
      if wasMissing then Ok true else
      if packetsBeforeAck <=? ackElicitingPacketsReceivedSinceLastAck h then Ok true else
      missing ← hasNewMissingPackets h;
      Ok (missing || bool_decide (ecn = protocol.ECNCE))
  end.

Definition set_tracker (t : receivedPacketTracker) (h : appDataReceivedPacketTracker) : appDataReceivedPacketTracker :=
  mkAppTracker t (largestObservedRcvdTime h) (largestObserved h) (ignoreBelow h) (maxAckDelay h) (ackQueued h)
    (ackElicitingPacketsReceivedSinceLastAck h) (ackAlarm h).
Definition set_largest (time pn : Z) (h : appDataReceivedPacketTracker) : appDataReceivedPacketTracker :=
  mkAppTracker (tracker h) time pn (ignoreBelow h) (maxAckDelay h) (ackQueued h)
    (ackElicitingPacketsReceivedSinceLastAck h) (ackAlarm h).
Definition set_ack (queued : bool) (n alarm : Z) (h : appDataReceivedPacketTracker) : appDataReceivedPacketTracker :=
  mkAppTracker (tracker h) (largestObservedRcvdTime h) (largestObserved h) (ignoreBelow h) (maxAckDelay h) queued n alarm.

Definition app_ReceivedPacket (pn : Z) (ecn : ECN) (rcvTime : Z) (ackEliciting : bool)
    : st appDataReceivedPacketTracker () := λ h,
  match tracker_ReceivedPacket pn ecn ackEliciting (tracker h) with
  | (Ok _, t) =>
      let h := set_tracker t h in
      let h := if largestObserved h <=? pn then set_largest rcvTime pn h else h in
      if negb ackEliciting then (Ok tt, h) else
      let h := set_ack (ackQueued h) (ackElicitingPacketsReceivedSinceLastAck h + 1) (ackAlarm h) h in
      match isMissing pn h with
      | Ok missing =>
          match (if ackQueued h then Ok false else shouldQueueACK ecn missing h) with
          | Ok queue =>
              let h := if queue then set_ack true (ackElicitingPacketsReceivedSinceLastAck h) 0 h else h in
              let h := if ackQueued h then h
                       else set_ack false (ackElicitingPacketsReceivedSinceLastAck h) (rcvTime + maxAckDelay h) h in
              (Ok tt, h)
          | Err e => (Err e, h)
          | Panic m => (Panic m, h)
          end
      | Err e => (Err e, h)
      | Panic m => (Panic m, h)
      end
  | (r, t) => (r, set_tracker t h)
  end.

Definition IgnoreBelow (pn : Z) (h : appDataReceivedPacketTracker) : appDataReceivedPacketTracker :=
  if pn <=? ignoreBelow h then h else
  let t := tracker h in
  mkAppTracker (mkTracker (ect0 t) (ect1 t) (ecnce t) (DeleteBelow pn (packetHistory t)) (lastAck t) (hasNewAck t))
    (largestObservedRcvdTime h) (largestObserved h) pn (maxAckDelay h) (ackQueued h)
    (ackElicitingPacketsReceivedSinceLastAck h) (ackAlarm h).

(** [now.Sub(t)] saturates; it is not negative after [max]. *)
Definition app_GetAckFrame (now : Z) (onlyIfQueued : bool) (h : appDataReceivedPacketTracker)
    : option AckFrame * appDataReceivedPacketTracker :=
  if onlyIfQueued && negb (ackQueued h) && ((ackAlarm h =? 0) || (now <? ackAlarm h)) then (None, h) else
  match tracker_GetAckFrame (tracker h) with
  | (None, t) => (None, set_tracker t h)
  | (Some ack, t) =>
      let delay := Z.max 0 (Z.min InfDuration (now - largestObservedRcvdTime h)) in
      let ack := mkAckFrame (AckRanges ack) delay (ECT0 ack) (ECT1 ack) (ECNCE ack) in
      let t := mkTracker (ect0 t) (ect1 t) (ecnce t) (packetHistory t) (Some ack) (hasNewAck t) in
      (Some ack, set_ack false 0 0 (set_tracker t h))
  end.

(** * The packet number spaces

    [sentPackets] is told of every packet; the lowest packet number whose
    acknowledgement is not confirmed, [GetLowestPacketNotConfirmedAcked], is an
    argument.  A dropped packet number space is [None]. *)
Record receivedPacketHandler := mkHandler {
  initialPackets : option receivedPacketTracker;
  handshakePackets : option receivedPacketTracker;
  appDataPackets : appDataReceivedPacketTracker;
  lowest1RTTPacket : Z;
}.

Definition newReceivedPacketHandler : receivedPacketHandler :=
  mkHandler (Some newReceivedPacketTracker) (Some newReceivedPacketTracker) newAppDataReceivedPacketTracker InvalidPacketNumber.

Definition set_app (t : appDataReceivedPacketTracker) (h : receivedPacketHandler) : receivedPacketHandler :=
  mkHandler (initialPackets h) (handshakePackets h) t (lowest1RTTPacket h).

Definition nil_deref {A} : res A := Panic "invalid memory address or nil pointer dereference".

Definition ReceivedPacket (pn : Z) (ecn : ECN) (encLevel : EncryptionLevel) (rcvTime : Z) (ackEliciting : bool) (lowest : Z)
    : st receivedPacketHandler () := λ h,
  match encLevel with
  | EncryptionInitial =>
      match initialPackets h with
      | None => (nil_deref, h)
      | Some t => let '(r, t) := tracker_ReceivedPacket pn ecn ackEliciting t in
                  (r, mkHandler (Some t) (handshakePackets h) (appDataPackets h) (lowest1RTTPacket h))
      end
  | EncryptionHandshake =>
      match handshakePackets h with
      | None => (Ok tt, h)
      | Some t => let '(r, t) := tracker_ReceivedPacket pn ecn ackEliciting t in
                  (r, mkHandler (initialPackets h) (Some t) (appDataPackets h) (lowest1RTTPacket h))
      end
  | Encryption0RTT =>
      if negb (lowest1RTTPacket h =? InvalidPacketNumber) && (lowest1RTTPacket h <? pn)
      then (Err (ErrMsg "received 0-RTT packet after 1-RTT packet"), h)
      else let '(r, t) := app_ReceivedPacket pn ecn rcvTime ackEliciting (appDataPackets h) in (r, set_app t h)
  | Encryption1RTT =>
      let low := if (lowest1RTTPacket h =? InvalidPacketNumber) || (pn <? lowest1RTTPacket h) then pn else lowest1RTTPacket h in
      let h := mkHandler (initialPackets h) (handshakePackets h) (appDataPackets h) low in
      match app_ReceivedPacket pn ecn rcvTime ackEliciting (appDataPackets h) with
      | (Ok _, t) => (Ok tt, set_app (IgnoreBelow lowest t) h)
      | (r, t) => (r, set_app t h)
      end
  end.

Definition DropPackets (encLevel : EncryptionLevel) (h : receivedPacketHandler) : res receivedPacketHandler :=
  match encLevel with
  | EncryptionInitial => Ok (mkHandler None (handshakePackets h) (appDataPackets h) (lowest1RTTPacket h))
  | EncryptionHandshake => Ok (mkHandler (initialPackets h) None (appDataPackets h) (lowest1RTTPacket h))
  | Encryption0RTT => Ok h
  | Encryption1RTT => Panic "Cannot drop keys for encryption level"
  end.

Definition GetAckFrame (now : Z) (encLevel : EncryptionLevel) (onlyIfQueued : bool) (h : receivedPacketHandler)
    : option AckFrame * receivedPacketHandler :=
  match encLevel with
  | EncryptionInitial =>
      match initialPackets h with
      | Some t => let '(a, t) := tracker_GetAckFrame t in
                  (a, mkHandler (Some t) (handshakePackets h) (appDataPackets h) (lowest1RTTPacket h))
      | None => (None, h)
      end
  | EncryptionHandshake =>
      match handshakePackets h with
      | Some t => let '(a, t) := tracker_GetAckFrame t in
                  (a, mkHandler (initialPackets h) (Some t) (appDataPackets h) (lowest1RTTPacket h))
      | None => (None, h)
      end
  | Encryption1RTT => let '(a, t) := app_GetAckFrame now onlyIfQueued (appDataPackets h) in (a, set_app t h)
  | Encryption0RTT => (None, h)
  end.

Definition IsPotentiallyDuplicate (pn : Z) (encLevel : EncryptionLevel) (h : receivedPacketHandler) : res bool :=
  let check (t : option receivedPacketTracker) :=
    match t with
    | Some t => Ok (history_IsPotentiallyDuplicate pn (packetHistory t))
    | None => Panic "unexpected encryption level"
    end in
  match encLevel with
  | EncryptionInitial => check (initialPackets h)
  | EncryptionHandshake => check (handshakePackets h)
  | Encryption0RTT | Encryption1RTT => check (Some (tracker (appDataPackets h)))
  end.

(** * The history tracks a set of packet numbers *)

Definition ack_range (el : interval) : AckRange := mkAckRange (Start el) (End el).
Definition valid (l : list interval) : Prop := ranges_valid (map ack_range l).
Definition mem (q : Z) (l : list interval) : bool := existsb (in_range q) (map ack_range l).

Definition tracked (h : receivedPacketHistory) (q : Z) : bool := mem q (ranges h).

Record history_ok (h : receivedPacketHistory) : Prop := {
  ho_valid : valid (ranges h);
  ho_len : blen (ranges h) ≤ MaxNumAckRanges;
  ho_below : ∀ q, tracked h q = true → deletedBelow h ≤ q;
  ho_nonneg : 0 ≤ deletedBelow h;
}.

Lemma mem_cons q el l : mem q (el :: l) = ((Start el <=? q) && (q <=? End el)) || mem q l.
Proof. done. Qed.

Lemma mem_nil q : mem q [] = false.
Proof. done. Qed.

Lemma mem_app q l l' : mem q (l ++ l') = mem q l || mem q l'.
Proof. unfold mem. by rewrite map_app, existsb_app. Qed.

Lemma valid_cons el l : valid (el :: l) ↔
  Start el ≤ End el ∧ (∀ q, mem q l = true → q + 1 < Start el) ∧ valid l.
Proof.
  unfold valid. simpl. split.
  - inversion 1 as [|? ? Hok Hgt Hv]; subst. split_and!; [done| |done].
    intros q Hq. apply existsb_exists in Hq as (r & Hr & Hin). apply list_elem_of_In in Hr.
    rewrite Forall_forall in Hgt. specialize (Hgt r Hr). unfold range_gt, in_range in *. simpl in *. lia.
  - intros (H1 & H2 & H3). constructor; [done| |done]. apply Forall_forall. intros r Hr.
    pose proof (ranges_valid_ok _ _ H3 Hr) as Hok. unfold range_ok, range_gt in *. simpl. apply H2.
    apply existsb_exists. exists r. split; [by apply list_elem_of_In|]. unfold in_range. lia.
Qed.

Lemma valid_nil : valid [].
Proof. constructor. Qed.

#[local] Hint Resolve valid_nil : core.

(** Boolean equations between range checks. *)
Ltac bsolve := repeat match goal with |- context [mem ?q ?l] => destruct (mem q l) eqn:? end; lia.

(** Adding a packet number, as sets. *)
Lemma addToRanges_loop_spec p l : valid l →
  let '(isNew, l') := addToRanges_loop p l in
  valid l' ∧ isNew = negb (mem p l) ∧ (∀ q, mem q l' = mem q l || (q =? p)) ∧ (length l' ≤ S (length l))%nat ∧
  l' ≠ [].
Proof.
  induction l as [|el l IH]; intros Hv; simpl.
  { split_and!; [|done| |lia|done]. 
    - apply valid_cons. simpl. split_and!; [lia|done|done].
    - intros q. rewrite mem_cons, mem_nil. simpl. lia. }
  rewrite mem_cons. apply valid_cons in Hv as (Hel & Hgt & Hv).
  destruct ((Start el <=? p) && (p <=? End el)) eqn:Hin; simpl.
  { split_and!; [by apply valid_cons|done| |lia|done]. intros q. rewrite mem_cons. bsolve. }
  assert (Hnot : Start el ≤ p + 1 → mem p l = false).
  { intros Hp. destruct (mem p l) eqn:Hm; [|done]. apply Hgt in Hm. lia. }
  destruct (Z.eqb_spec (End el) (p - 1)) as [He|He].
  { split_and!; [|by rewrite Hnot by lia| |simpl; lia|done].
    - apply valid_cons. simpl. split_and!; [lia|done|done].
    - intros q. rewrite !mem_cons. simpl. bsolve. }
  destruct (Z.eqb_spec (Start el) (p + 1)) as [Hs|Hs].
  { rewrite Hnot by lia. destruct l as [|prev rest].
    - split_and!; [|done| |simpl; lia|done].
      + apply valid_cons. simpl. split_and!; [lia|done|done].
      + intros q. rewrite !mem_cons, mem_nil. simpl. bsolve.
    - pose proof Hv as (Hprev & Hgt' & Hv')%valid_cons.
      assert (Hlt : End prev + 1 < Start el) by (apply Hgt; rewrite mem_cons; lia).
      destruct (Z.eqb_spec (End prev + 1) p) as [Hm|Hm].
      + split_and!; [|done| |simpl; lia|done].
        * apply valid_cons. simpl. split_and!; [lia|done|done].
        * intros q. rewrite !mem_cons. simpl. bsolve.
      + split_and!; [|done| |simpl; lia|done].
        * apply valid_cons. simpl. split_and!; [lia| |done]. intros q Hq. specialize (Hgt q Hq).
          rewrite mem_cons in Hq. destruct (mem q rest) eqn:Hr; [specialize (Hgt' q Hr); lia|lia].
        * intros q. rewrite !mem_cons. simpl. bsolve. }
  destruct (Z.ltb_spec (End el) p) as [Hlt|Hlt].
  { rewrite Hnot by lia. split_and!; [|done| |simpl; lia|done].
    - apply valid_cons. simpl. split_and!; [lia| |by apply valid_cons].
      intros q Hq. rewrite mem_cons in Hq. destruct (mem q l) eqn:Hr; [specialize (Hgt q Hr); lia|lia].
    - intros q. rewrite !mem_cons. simpl. bsolve. }
  specialize (IH Hv). destruct (addToRanges_loop p l) as [b l']. destruct IH as (Hv' & -> & Hmem & Hlen & Hne).
  split_and!; [|done| |simpl; lia|done].
  - apply valid_cons. split_and!; [done| |done]. intros q Hq. rewrite Hmem in Hq.
    destruct (mem q l) eqn:Hr; [by apply Hgt|]. simpl in Hq. apply Z.eqb_eq in Hq. lia.
  - intros q. rewrite !mem_cons, Hmem. by rewrite orb_assoc.
Qed.

Lemma addToRanges_eq p l : addToRanges p l = addToRanges_loop p l.
Proof. unfold addToRanges. by destruct l. Qed.

Lemma valid_app l l' : valid (l ++ l') → valid l ∧ valid l' ∧ (∀ q q', mem q l = true → mem q' l' = true → q' + 1 < q).
Proof.
  induction l as [|el l IH]; simpl; [done|]. intros (Hel & Hgt & Hv)%valid_cons.
  destruct (IH Hv) as (H1 & H2 & H3). split_and!; [|done|].
  - apply valid_cons. split_and!; [done| |done]. intros q Hq. apply Hgt. by rewrite mem_app, Hq.
  - intros q q' Hq Hq'. rewrite mem_cons in Hq. specialize (Hgt q'). rewrite mem_app, Hq', orb_true_r in Hgt.
    specialize (Hgt eq_refl). destruct (mem q l) eqn:Hm; [by apply H3|lia].
Qed.

Lemma removelast_app_last {A} (l : list A) : l ≠ [] → ∃ x, l = removelast l ++ [x].
Proof.
  intros Hl. destruct (exists_last Hl) as (l' & x & ->). exists x. by rewrite List.removelast_last.
Qed.

Lemma mem_floor l : ∃ floor, ∀ q, mem q l = mem q l && (floor <=? q).
Proof.
  assert (∃ floor, ∀ q, mem q l = true → floor ≤ q) as [floor Hf].
  { induction l as [|el l [f Hf]]; [by exists 0|]. exists (Z.min f (Start el)). intros q. rewrite mem_cons.
    destruct (mem q l) eqn:Hm; [specialize (Hf q Hm)|]; lia. }
  exists floor. intros q. destruct (mem q l) eqn:Hm; [|done]. specialize (Hf q Hm). lia.
Qed.

(** Dropping the oldest ranges keeps what is above a packet number. *)
Lemma maybeDeleteOldRanges_spec fuel l : valid l → blen l ≤ MaxNumAckRanges + Z.of_nat fuel →
  let l' := maybeDeleteOldRanges fuel l in
  valid l' ∧ blen l' ≤ MaxNumAckRanges ∧ (blen l ≤ MaxNumAckRanges → l' = l) ∧
  ∃ floor, ∀ q, mem q l' = mem q l && (floor <=? q).
Proof.
  revert l. induction fuel as [|fuel IH]; intros l Hv Hlen; simpl.
  { split_and!; [done|lia|done|]. 
    apply mem_floor. }
  destruct (Z.ltb_spec MaxNumAckRanges (blen l)) as [Hgt|Hgt].
  - destruct (removelast_app_last l) as [x Hx]; [by intros ->; vm_compute in Hgt|].
    pose proof Hv as Hv0. rewrite Hx in Hv0. apply valid_app in Hv0 as (H1 & H2 & H3).
    rewrite Hx in Hlen. rewrite blen_app, blen_one in Hlen.
    destruct (IH (removelast l) H1 ltac:(lia)) as (Hv' & Hl' & Hid & floor & Hf).
    split_and!; [done|done|lia|]. exists (Z.max floor (End x + 1)). intros q. rewrite Hf.
    rewrite Hx at 2. rewrite mem_app, mem_cons, mem_nil. simpl.
    apply valid_cons in H2 as (Hok & _ & _). specialize (H3 q (End x)). rewrite mem_cons, mem_nil in H3.
    destruct (mem q (removelast l)); simpl; [|lia]. specialize (H3 eq_refl ltac:(lia)). lia.
  - split_and!; [done|lia|done|].
    apply mem_floor.
Qed.
(** [IsPotentiallyDuplicate]: below the limit, or tracked. *)
Lemma isDuplicate_loop_spec p l : valid l → isDuplicate_loop p l = mem p l.
Proof.
  induction l as [|el l IH]; [done|]. intros (Hel & Hgt & Hv)%valid_cons. simpl. rewrite mem_cons, IH by done.
  destruct (Z.ltb_spec (End el) p) as [Hlt|Hlt].
  - destruct (mem p l) eqn:Hm; [specialize (Hgt p Hm)|]; lia.
  - rewrite andb_comm. by destruct (_ && _).
Qed.

Lemma IsPotentiallyDuplicate_spec p h : history_ok h →
  history_IsPotentiallyDuplicate p h = (p <? deletedBelow h) || tracked h p.
Proof.
  intros []. unfold history_IsPotentiallyDuplicate. rewrite isDuplicate_loop_spec by done. by destruct (p <? deletedBelow h).
Qed.

Lemma history_ReceivedPacket_spec p h : history_ok h →
  let '(isNew, h') := history_ReceivedPacket p h in
  history_ok h' ∧ isNew = negb (history_IsPotentiallyDuplicate p h) ∧ deletedBelow h' = deletedBelow h ∧
  ∃ floor, (∀ q, tracked h' q = (tracked h q || ((q =? p) && (deletedBelow h <=? p))) && (floor <=? q)) ∧
           (blen (ranges h) < MaxNumAckRanges → floor = deletedBelow h).
Proof.
  intros Hh. rewrite IsPotentiallyDuplicate_spec by done. pose proof Hh as [Hv Hlen Hbelow Hnn].
  unfold history_ReceivedPacket, tracked in *.
  destruct (Z.ltb_spec p (deletedBelow h)) as [Hp|Hp]; simpl.
  { split_and!; [done|done|done|]. exists (deletedBelow h). split; [|done]. intros q.
    destruct (mem q (ranges h)) eqn:Hm; [specialize (Hbelow q Hm)|]; lia. }
  rewrite addToRanges_eq. pose proof (addToRanges_loop_spec p (ranges h) Hv) as Hadd.
  destruct (addToRanges_loop p (ranges h)) as [b l]. destruct Hadd as (Hvl & -> & Hmem & Hl & Hne).
  destruct (maybeDeleteOldRanges_spec (length l) l Hvl) as (Hv' & Hlen' & Hid & floor & Hfloor); [unfold blen, MaxNumAckRanges; lia|].
  split_and!; [|done|done|].
  - split; simpl; [done|done| |done]. intros q. unfold tracked. simpl. rewrite Hfloor, Hmem. specialize (Hbelow q).
    destruct (mem q (ranges h)); [specialize (Hbelow eq_refl)|]; lia.
  - simpl. destruct (Z.ltb_spec (blen (ranges h)) MaxNumAckRanges) as [Hsm|Hsm].
    + exists (deletedBelow h). split; [|done]. intros q. rewrite Hid by (unfold blen in *; lia). rewrite Hmem.
      specialize (Hbelow q). destruct (mem q (ranges h)); [specialize (Hbelow eq_refl)|]; lia.
    + exists floor. split; [|lia]. intros q. rewrite Hfloor, Hmem. bsolve.
Qed.

(** [DeleteBelow] removes exactly the packet numbers below its argument. *)
Lemma deleteBelow_loop_spec p l : valid (rev l) →
  let l' := deleteBelow_loop p l in
  valid (rev l') ∧ (∀ q, mem q (rev l') = mem q (rev l) && (p <=? q)) ∧ (length l' ≤ length l)%nat.
Proof.
  induction l as [|el l IH]; intros Hv; [by vm_compute|]. simpl in *.
  pose proof Hv as (H1 & (Hel & _ & _)%valid_cons & H3)%valid_app.
  destruct (Z.ltb_spec (End el) p) as [Hlt|Hlt].
  { destruct (IH H1) as (Hv' & Hm & Hl). split_and!; [done| |lia]. intros q. rewrite Hm, mem_app, mem_cons, mem_nil. bsolve. }
  assert (Hup : ∀ q, mem q (rev l) = true → End el + 1 < q).
  { intros q Hq. apply (H3 q (End el) Hq). rewrite mem_cons. lia. }
  destruct ((Start el <? p) && (p <=? End el)) eqn:Hcut; simpl; split_and!; try lia; try done.
  - assert (Hall : ∀ l1, valid l1 → (∀ q, mem q l1 = true → End el + 1 < q) → valid (l1 ++ [mkInterval p (End el)])).
    { induction l1 as [|e l1 IH1]; intros Hv1 Hq1.
      - apply valid_cons. simpl. split_and!; [lia|done|done].
      - apply valid_cons in Hv1 as (Ha & Hb & Hc). simpl. apply valid_cons. split_and!; [done| |].
        + intros q. rewrite mem_app, mem_cons, mem_nil. simpl.
          assert (End el + 1 < Start e) by (apply Hq1; rewrite mem_cons; lia).
          destruct (mem q l1) eqn:Hm; [specialize (Hb q Hm)|]; lia.
        + apply IH1; [done|]. intros q Hq. apply Hq1. rewrite mem_cons, Hq. by rewrite orb_true_r. }
    by apply Hall.
  - intros q. rewrite !mem_app, !mem_cons, mem_nil. simpl. specialize (Hup q).
    destruct (mem q (rev l)); [specialize (Hup eq_refl)|]; lia.
  - intros q. rewrite !mem_app, !mem_cons, mem_nil. simpl. specialize (Hup q).
    destruct (mem q (rev l)); [specialize (Hup eq_refl)|]; lia.
Qed.

Lemma DeleteBelow_spec p h : history_ok h →
  history_ok (DeleteBelow p h) ∧ (∀ q, tracked (DeleteBelow p h) q = tracked h q && (p <=? q)) ∧
  deletedBelow (DeleteBelow p h) = Z.max p (deletedBelow h).
Proof.
  intros Hh. pose proof Hh as [Hv Hlen Hbelow Hnn]. unfold DeleteBelow, tracked in *.
  destruct (Z.ltb_spec p (deletedBelow h)) as [Hp|Hp].
  - split_and!; [done| |lia]. intros q. specialize (Hbelow q). destruct (mem q (ranges h)); [specialize (Hbelow eq_refl)|]; lia.
  - destruct (deleteBelow_loop_spec p (rev (ranges h))) as (H1 & H2 & H3); [by rewrite rev_involutive|].
    rewrite length_rev in H3. rewrite rev_involutive in H2.
    split_and!; simpl; [|done|lia]. split; simpl; [done| | |lia].
    + unfold blen in *. rewrite length_rev. lia.
    + intros q. unfold tracked. simpl. rewrite H2. lia.
Qed.
Lemma maybeDeleteOldRanges_nonempty fuel l : l ≠ [] → maybeDeleteOldRanges fuel l ≠ [].
Proof.
  revert l. induction fuel as [|fuel IH]; intros l Hl; simpl; [done|].
  destruct (Z.ltb_spec MaxNumAckRanges (blen l)) as [Hgt|]; [|done]. apply IH.
  destruct l as [|x [|y l]]; [done|by vm_compute in Hgt|done].
Qed.

Lemma ReceivedPacket_nonempty p h h' : history_ok h → history_ReceivedPacket p h = (true, h') → ranges h' ≠ [].
Proof.
  intros Hh. unfold history_ReceivedPacket. destruct (p <? deletedBelow h); [done|]. rewrite addToRanges_eq.
  pose proof (addToRanges_loop_spec p (ranges h) (ho_valid h Hh)) as Hadd.
  destruct (addToRanges_loop p (ranges h)) as [b l]. destruct Hadd as (_ & _ & _ & _ & Hne).
  intros [= _ <-]. by apply maybeDeleteOldRanges_nonempty.
Qed.

(** ** Runs of the history *)

Inductive hop := Rcv (p : Z) | Del (p : Z).

Definition hstep (h : receivedPacketHistory) (o : hop) : receivedPacketHistory :=
  match o with Rcv p => (history_ReceivedPacket p h).2 | Del p => DeleteBelow p h end.

Definition run_history (ops : list hop) : receivedPacketHistory := foldl hstep newReceivedPacketHistory ops.

Lemma run_history_ok ops : history_ok (run_history ops) ∧ ∀ q, tracked (run_history ops) q = true → Rcv q ∈ ops.
Proof.
  induction ops as [|o ops [Hok Hin]] using rev_ind.
  { split; [|done]. split; [constructor|by vm_compute|done|done]. }
  unfold run_history. rewrite foldl_app. fold (run_history ops). simpl. set (h := run_history ops) in *. destruct o as [p|p]; simpl.
  - pose proof (history_ReceivedPacket_spec p h Hok) as Hs. destruct (history_ReceivedPacket p h) as [b h'].
    destruct Hs as (Hok' & _ & _ & floor & Htr & _). split; [done|]. simpl. intros q. rewrite Htr.
    intros [[Hq|[Hq _]%andb_true_iff]%orb_true_iff _]%andb_true_iff; [apply Hin in Hq; set_solver|].
    apply Z.eqb_eq in Hq as ->. set_solver.
  - destruct (DeleteBelow_spec p h Hok) as (Hok' & Htr & _). split; [done|]. intros q. rewrite Htr.
    intros [Hq _]%andb_true_iff. apply Hin in Hq. set_solver.
Qed.

(** C31: the history of received packets.  After any sequence of received
    packets and deletions the ranges are those of a valid ACK frame, at most
    [MaxNumAckRanges], and contain only packet numbers that were received.  The
    next packet is reported as new exactly if it is neither below the deletion
    limit nor contained; it is then contained, and so is everything else that
    was, unless there are [MaxNumAckRanges] ranges already, where the packet
    numbers below some limit are dropped. *)
Theorem received_history_correct ops p :
  let h := run_history ops in
  let '(isNew, h') := history_ReceivedPacket p h in
  ranges_valid (AppendAckRanges h []) ∧ blen (AppendAckRanges h []) ≤ MaxNumAckRanges ∧
  (∀ q, tracked h q = true → Rcv q ∈ ops ∧ deletedBelow h ≤ q) ∧
  history_IsPotentiallyDuplicate p h = (p <? deletedBelow h) || tracked h p ∧
  isNew = negb (history_IsPotentiallyDuplicate p h) ∧
  (∃ floor, (∀ q, tracked h' q = (tracked h q || ((q =? p) && (deletedBelow h <=? p))) && (floor <=? q)) ∧
            (blen (ranges h) < MaxNumAckRanges → floor = deletedBelow h)) ∧
  (∀ q, tracked (DeleteBelow p h) q = tracked h q && (p <=? q)).
Proof.
  intros h. destruct (run_history_ok ops) as [Hok Hin]. fold h in Hok, Hin.
  pose proof (history_ReceivedPacket_spec p h Hok) as Hs. destruct (history_ReceivedPacket p h) as [b h'].
  destruct Hs as (_ & -> & _ & Hfloor). pose proof Hok as [Hv Hl Hb _]. split_and!; try done.
  - unfold blen, AppendAckRanges in *. simpl. by rewrite length_map.
  - intros q Hq. split; [by apply Hin|by apply Hb].
  - by apply IsPotentiallyDuplicate_spec.
  - by apply DeleteBelow_spec.
Qed.

(** A packet number whose range was dropped is accepted again: with 33 gaps the
    range of packet 0 is gone, and packet 0 counts as new although it was
    received and lies above the deletion limit. *)
Example dropped_range_accepts_replay :
  let h := run_history (Rcv <$> [0; 2; 4; 6; 8; 10; 12; 14; 16; 18; 20; 22; 24; 26; 28; 30; 32; 34; 36; 38; 40; 42; 44; 46;
                                 48; 50; 52; 54; 56; 58; 60; 62; 64]) in
  history_IsPotentiallyDuplicate 0 h = false ∧ (history_ReceivedPacket 0 h).1 = true.
Proof. vm_compute. done. Qed.

(** ** When an ACK is sent *)

(** States of the 1-RTT tracker: packets that passed the duplicate check arrive
    (at times after the zero time), ACK frames are asked for, and packets are
    ignored below a number that is not above all received ones, as the peer
    acknowledges our ACKs in later packets. *)
Inductive app_reach : appDataReceivedPacketTracker → Prop :=
| ar_new : app_reach newAppDataReceivedPacketTracker
| ar_receive h h' pn ecn t ae : app_reach h → 0 < t → history_IsPotentiallyDuplicate pn (packetHistory (tracker h)) = false →
    app_ReceivedPacket pn ecn t ae h = (Ok tt, h') → app_reach h'
| ar_ignore h pn q : app_reach h → tracked (packetHistory (tracker h)) q = true → pn ≤ q → app_reach (IgnoreBelow pn h)
| ar_get h now only ack h' : app_reach h → app_GetAckFrame now only h = (ack, h') → app_reach h'.

Record app_ok (h : appDataReceivedPacketTracker) : Prop := {
  ao_history : history_ok (packetHistory (tracker h));
  ao_last : ∀ a, lastAck (tracker h) = Some a → validateAckRanges a = true;
  ao_ranges : hasNewAck (tracker h) = true → ranges (packetHistory (tracker h)) ≠ [];
  ao_trigger : hasNewAck (tracker h) = true → ackQueued h = true ∨ 0 < ackAlarm h;
  ao_count : 0 ≤ ackElicitingPacketsReceivedSinceLastAck h;
  ao_pending : ackQueued h = false → ackElicitingPacketsReceivedSinceLastAck h < packetsBeforeAck;
  ao_delay : maxAckDelay h = MaxAckDelay;
}.
Definition last_valid (h : appDataReceivedPacketTracker) : Prop :=
  ∀ a, lastAck (tracker h) = Some a → validateAckRanges a = true.

Lemma LargestAcked_ok a : validateAckRanges a = true → ∃ l, LargestAcked a = Ok l.
Proof.
  unfold validateAckRanges, LargestAcked, range_at. destruct (AckRanges a); [done|]. by eexists.
Qed.

Lemma isMissing_ok p h : last_valid h → ∃ b, isMissing p h = Ok b.
Proof.
  intros Hl. unfold isMissing. destruct (lastAck (tracker h)) as [a|] eqn:Ha; [|by eexists].
  destruct (p <? ignoreBelow h); [by eexists|]. destruct (LargestAcked_ok a (Hl a Ha)) as [l ->]. rewrite res_bind_ok.
  destruct (p <? l); [|by eexists]. rewrite (AcksPacket_spec a p (Hl a Ha)). by eexists.
Qed.

Lemma shouldQueueACK_ok ecn missing h : last_valid h →
  ∃ b, shouldQueueACK ecn missing h = Ok b ∧
    (b = false → ackElicitingPacketsReceivedSinceLastAck h < packetsBeforeAck).
Proof.
  intros Hl. unfold shouldQueueACK, hasNewMissingPackets. destruct (lastAck (tracker h)) as [a|] eqn:Ha; [|by exists true].
  destruct missing; [by exists true|].
  destruct (Z.leb_spec packetsBeforeAck (ackElicitingPacketsReceivedSinceLastAck h)); [by exists true|].
  destruct (LargestAcked_ok a (Hl a Ha)) as [l ->]. rewrite !res_bind_ok. eexists. split; [done|lia].
Qed.

(** The tracker of one packet number space. *)
Lemma tracker_ReceivedPacket_ok pn ecn ae t : history_ok (packetHistory t) →
  history_IsPotentiallyDuplicate pn (packetHistory t) = false →
  ∃ t', tracker_ReceivedPacket pn ecn ae t = (Ok tt, t') ∧ lastAck t' = lastAck t ∧ hasNewAck t' = ae || hasNewAck t ∧
    history_ok (packetHistory t') ∧ ranges (packetHistory t') ≠ [] ∧
    packetHistory t' = (history_ReceivedPacket pn (packetHistory t)).2.
Proof.
  intros Hok Hd. unfold tracker_ReceivedPacket.
  pose proof (history_ReceivedPacket_spec pn (packetHistory t) Hok) as Hs.
  destruct (history_ReceivedPacket pn (packetHistory t)) as [b h'] eqn:Hr. destruct Hs as (Hok' & -> & _).
  rewrite Hd in *. pose proof (ReceivedPacket_nonempty _ _ _ Hok Hr).
  destruct ae; (eexists; split; [reflexivity|]); destruct ecn; by split_and!.
Qed.

Lemma app_ReceivedPacket_ok pn ecn t ae h : app_ok h → 0 < t →
  history_IsPotentiallyDuplicate pn (packetHistory (tracker h)) = false →
  ∃ h', app_ReceivedPacket pn ecn t ae h = (Ok tt, h') ∧ app_ok h' ∧
    packetHistory (tracker h') = (history_ReceivedPacket pn (packetHistory (tracker h))).2 ∧
    (ae = true → hasNewAck (tracker h') = true ∧ (ackQueued h' = true ∨ ackAlarm h' = t + MaxAckDelay)).
Proof.
  intros [Hok Hl Hr Ht Hc Hp Hmd] H0 Hd. unfold app_ReceivedPacket.
  destruct (tracker_ReceivedPacket_ok pn ecn ae (tracker h) Hok Hd) as (t' & -> & Hla & Hna & Hok' & Hne & Hhist).
  set (h1 := if _ <=? _ then _ else _).
  assert (tracker h1 = t' ∧ ackQueued h1 = ackQueued h ∧ ackAlarm h1 = ackAlarm h ∧ maxAckDelay h1 = maxAckDelay h ∧
    ackElicitingPacketsReceivedSinceLastAck h1 = ackElicitingPacketsReceivedSinceLastAck h) as (E1 & E2 & E3 & E4 & E5).
  { unfold h1. by destruct (_ <=? _). }
  destruct ae; cbn [negb].
  2: { exists h1. split; [done|]. split_and!; [|by rewrite E1|done].
    split; rewrite ?E1, ?E2, ?E3, ?E4, ?E5, ?Hla; try done. by rewrite Hna. }
  set (h2 := set_ack _ _ _ h1).
  assert (Hlv : last_valid h2) by (intros a; simpl; rewrite E1, Hla; apply Hl).
  destruct (isMissing_ok pn h2 Hlv) as [m ->]. unfold MaxAckDelay, packetsBeforeAck in *.
  destruct (ackQueued h) eqn:Hq.
  - assert (ackQueued h2 = true) as Hq2 by (simpl; congruence). rewrite Hq2. cbn. rewrite E2. exists h2. split; [done|].
    split_and!; [|simpl; by rewrite E1|by intros; split; [simpl; rewrite E1, Hna|left]].
    split; simpl; rewrite ?E1, ?E2, ?E3, ?E4, ?E5, ?Hla; try done; lia.
  - assert (ackQueued h2 = false) as Hq2 by (simpl; congruence). rewrite Hq2.
    destruct (shouldQueueACK_ok ecn m h2 Hlv) as (b & -> & Hb). destruct b; cbn; rewrite ?E2; (eexists; split; [done|]).
    + split_and!; [|simpl; by rewrite E1|by intros; split; [simpl; rewrite E1, Hna|left]].
      split; simpl; rewrite ?E1, ?E2, ?E3, ?E4, ?E5, ?Hla; try done; [by left|lia].
    + specialize (Hb eq_refl). simpl in Hb. rewrite E5 in Hb. unfold packetsBeforeAck in Hb.
      split_and!; [|simpl; by rewrite E1|].
      * split; simpl; rewrite ?E1, ?E2, ?E3, ?E4, ?E5, ?Hla, ?Hmd; unfold packetsBeforeAck; try done; [right; lia|lia].
      * intros _. simpl. rewrite E1, Hna, E4, Hmd. split; [done|]. by right.
Qed.

Lemma IgnoreBelow_ok pn q h : app_ok h → tracked (packetHistory (tracker h)) q = true → pn ≤ q → app_ok (IgnoreBelow pn h).
Proof.
  intros Hh Hq Hpn. pose proof Hh as [Hok Hl Hr Ht Hc Hp Hmd]. unfold IgnoreBelow. destruct (pn <=? ignoreBelow h); [done|].
  destruct (DeleteBelow_spec pn (packetHistory (tracker h)) Hok) as (Hok' & Htr & _).
  split; simpl; try done. intros _ He. specialize (Htr q). rewrite Hq in Htr. unfold tracked in Htr. rewrite He in Htr.
  rewrite (proj2 (Z.leb_le _ _)) in Htr by lia. done.
Qed.

(** The frame that [GetAckFrame] returns acknowledges exactly the history. *)
Lemma app_GetAckFrame_ok now only h ack h' : app_ok h → app_GetAckFrame now only h = (ack, h') →
  app_ok h' ∧ packetHistory (tracker h') = packetHistory (tracker h) ∧
  (ack = None → h' = h ∧ (hasNewAck (tracker h) = true → only = true ∧ ackQueued h = false ∧ now < ackAlarm h)) ∧
  (∀ a, ack = Some a → validateAckRanges a = true ∧ AckRanges a = AppendAckRanges (packetHistory (tracker h)) [] ∧
    0 ≤ DelayTime a < 2 ^ 63 ∧ hasNewAck (tracker h') = false ∧ ackQueued h' = false ∧ ackAlarm h' = 0).
Proof.
  intros Hh Hg. pose proof Hh as [Hok Hl Hr Ht Hc Hp Hmd]. unfold app_GetAckFrame in Hg.
  destruct (only && negb (ackQueued h) && _) eqn:Hcond.
  { injection Hg as <- <-. split_and!; [done|done| |done]. intros _. split; [done|]. intros Hn.
    apply andb_true_iff in Hcond as [[-> Hq]%andb_true_iff Hal]. apply negb_true_iff in Hq.
    destruct (Ht Hn) as [?|?]; [congruence|]. split_and!; [done|done|lia]. }
  unfold tracker_GetAckFrame in Hg. destruct (hasNewAck (tracker h)) eqn:Hn; simpl in Hg; injection Hg as <- <-.
  2: { split_and!; [by destruct h|done|by intros _; split; [destruct h|]|done]. }
  assert (Hval : ∀ d e0 e1 e2, validateAckRanges (mkAckFrame (AppendAckRanges (packetHistory (tracker h)) []) d e0 e1 e2) = true).
  { intros. apply validateAckRanges_spec. simpl. specialize (Hr eq_refl). split; [|apply Hok].
    unfold AppendAckRanges. by destruct (ranges (packetHistory (tracker h))). }
  split_and!; [|done|done|].
  - split; simpl; try done. intros a [= <-]. apply Hval.
  - intros a [= <-]. simpl. unfold InfDuration. split_and!; done || lia.
Qed.

Lemma app_reach_ok h : app_reach h → app_ok h.
Proof.
  induction 1 as [|h h' pn ecn t ae _ IH Ht Hd Hr|h pn q _ IH Hq Hp|h now only ack h' _ IH Hg].
  - by split.
  - destruct (app_ReceivedPacket_ok pn ecn t ae h IH Ht Hd) as (h1 & Hr1 & Hok & _). rewrite Hr1 in Hr. by injection Hr as <-.
  - by eapply IgnoreBelow_ok.
  - by apply (app_GetAckFrame_ok now only h ack h').
Qed.

(** C32: ack-eliciting packets are acknowledged in time.  In every state of the
    1-RTT tracker that packets passing the duplicate check can reach: receiving
    the next packet succeeds; if it is ack-eliciting, an ACK is due at once or
    the alarm is set to [max_ack_delay] after its arrival; at most one such
    packet waits for the alarm; and once an ACK is due or the alarm has passed,
    [GetAckFrame] returns a valid ACK frame that acknowledges exactly the
    tracked packet numbers. *)
Theorem acks_sent_in_time h : app_reach h →
  (∀ pn ecn t ae, 0 < t → history_IsPotentiallyDuplicate pn (packetHistory (tracker h)) = false →
    ∃ h', app_ReceivedPacket pn ecn t ae h = (Ok tt, h') ∧
      (ae = true → hasNewAck (tracker h') = true ∧ (ackQueued h' = true ∨ ackAlarm h' = t + MaxAckDelay))) ∧
  (ackQueued h = false → ackElicitingPacketsReceivedSinceLastAck h < packetsBeforeAck) ∧
  (hasNewAck (tracker h) = true → ∀ now only, only = false ∨ ackQueued h = true ∨ ackAlarm h ≤ now →
    ∃ a h', app_GetAckFrame now only h = (Some a, h') ∧ validateAckRanges a = true ∧
      (∀ q, AcksPacket a q = Ok (tracked (packetHistory (tracker h)) q)) ∧ hasNewAck (tracker h') = false).
Proof.
  intros Hh%app_reach_ok. split_and!.
  - intros pn ecn t ae Ht Hd. destruct (app_ReceivedPacket_ok pn ecn t ae h Hh Ht Hd) as (h' & Hr & _ & _ & Hae). by exists h'.
  - apply Hh.
  - intros Hn now only Hc. destruct (app_GetAckFrame now only h) as [[a|] h'] eqn:Hg;
      destruct (app_GetAckFrame_ok _ _ _ _ _ Hh Hg) as (_ & _ & Hnone & Hsome).
    + destruct (Hsome a eq_refl) as (Hv & Hrs & _ & Hf & _). exists a, h'. split_and!; try done.
      intros q. rewrite AcksPacket_spec by done. by rewrite Hrs.
    + destruct (Hnone eq_refl) as [_ Hx]. destruct (Hx Hn) as (? & ? & ?). destruct Hc as [?|[?|?]]; [congruence..|lia].
Qed.

Lemma acks_sent_in_time_witness :
  let h := (app_ReceivedPacket 7 ECNNon 1000 true newAppDataReceivedPacketTracker).2 in
  hasNewAck (tracker h) = true ∧
  ∃ a h', app_GetAckFrame 2000 true h = (Some a, h') ∧ validateAckRanges a = true ∧
    (∀ q, AcksPacket a q = Ok (tracked (packetHistory (tracker h)) q)) ∧ hasNewAck (tracker h') = false.
Proof.
  intros h. assert (Hr : app_reach h).
  { eapply (ar_receive newAppDataReceivedPacketTracker h 7 ECNNon 1000 true); [apply ar_new|reflexivity|reflexivity|vm_compute; reflexivity]. }
  assert (Hn : hasNewAck (tracker h) = true) by (vm_compute; reflexivity).
  assert (Hq : ackQueued h = true) by (vm_compute; reflexivity).
  split; [exact Hn|].
  exact (proj2 (proj2 (acks_sent_in_time h Hr)) Hn 2000 true (or_intror (or_introl Hq))).
Defined.

(** A peer that acknowledges an ACK in a packet with a lower number than the
    acknowledged one makes the tracker ignore all it has received: packet 10 is
    received and acknowledged, the peer's packet 7 acknowledges that ACK, so
    that 11 is the lowest packet number not confirmed.  The next ACK frame has
    no ranges, and asking for its length panics. *)
Example empty_ack_frame :
  let h := (ReceivedPacket 10 ECNNon Encryption1RTT 1000 true 0 newReceivedPacketHandler).2 in
  let h := (GetAckFrame 1001 Encryption1RTT true h).2 in
  let '(r, h) := ReceivedPacket 7 ECNNon Encryption1RTT 1002 true 11 h in
  r = Ok tt ∧ (GetAckFrame 1003 Encryption1RTT true h).1 = Some (mkAckFrame [] 3 0 0 0) ∧
  ∃ m, AckFrame_Length (mkAckFrame [] 3 0 0 0) = Panic m.
Proof. vm_compute. split; [reflexivity|]. split; [reflexivity|]. by eexists. Qed.
End receivedPackets.
