(* ===== verification/SentHistory.v ===== *)
(** The sent packets of one packet number space: the packet number generators
    (internal/ackhandler/packet_number_generator.go), the record of a packet
    (packet.go) and the history (sent_packet_history.go). *)

From S2P Require Import Prelude.
From S2P Require Import Protocol.

Module sentHistory.
Import protocol.

(** * Packet number generators

    The random numbers that [Int31n] returns are an argument: the [n]-th call
    with bound [b] returns [rng n b].  The bounds are at most twice
    [SkipPacketMaxPeriod], 128 * 1024, so that the conversion to int32 does not
    change them. *)
Record sequentialPacketNumberGenerator := mkSequential { seq_next : Z }.

Definition newSequentialPacketNumberGenerator (initial : Z) : sequentialPacketNumberGenerator := mkSequential initial.
Definition sequential_Peek (p : sequentialPacketNumberGenerator) : Z := seq_next p.
Definition sequential_Pop (p : sequentialPacketNumberGenerator) : bool * Z * sequentialPacketNumberGenerator :=
  (false, seq_next p, mkSequential (seq_next p + 1)).

Record skippingPacketNumberGenerator := mkSkipping {
  period : Z;
  maxPeriod : Z;
  next : Z;
  nextToSkip : Z;
  calls : nat;       (* of [Int31n], so far *)
}.

Section skipping.
Context (rng : nat → Z → Z).

Definition generateNewSkip (p : skippingPacketNumberGenerator) : skippingPacketNumberGenerator :=
  mkSkipping (Z.min (2 * period p) (maxPeriod p)) (maxPeriod p) (next p)
    (next p + 3 + rng (calls p) (2 * period p)) (S (calls p)).

Definition newSkippingPacketNumberGenerator (initial initialPeriod maxPeriod : Z) : skippingPacketNumberGenerator :=
  generateNewSkip (mkSkipping initialPeriod maxPeriod initial 0 0).

Definition skipping_Peek (p : skippingPacketNumberGenerator) : Z :=
  if next p =? nextToSkip p then next p + 1 else next p.

Definition skipping_Pop (p : skippingPacketNumberGenerator) : bool * Z * skippingPacketNumberGenerator :=
  if next p =? nextToSkip p
  then (true, next p + 1,
        generateNewSkip (mkSkipping (period p) (maxPeriod p) (next p + 2) (nextToSkip p) (calls p)))
  else (false, next p, mkSkipping (period p) (maxPeriod p) (next p + 1) (nextToSkip p) (calls p)).

(** The results of [n] calls of [Pop]. *)
Fixpoint pops (n : nat) (p : skippingPacketNumberGenerator) : list (bool * Z) :=
  match n with
  | O => []
  | S n => let '(skipped, pn, p) := skipping_Pop p in (skipped, pn) :: pops n p
  end.

(** [Int31n] returns a number below its bound. *)
Hypothesis rng_range : ∀ n b, 0 < b → 0 ≤ rng n b < b.

Definition generator_ok (p : skippingPacketNumberGenerator) : Prop :=
  0 < period p ≤ maxPeriod p ∧ next p ≤ nextToSkip p.

(** What a list of results looks like from the packet number [pn] on: numbers
    are consecutive, except that a result marked as skipping leaves one out. *)
Fixpoint sequential_from (pn : Z) (l : list (bool * Z)) : Prop :=
  match l with
  | [] => True
  | (skipped, n) :: l => n = (if skipped then pn + 1 else pn) ∧ sequential_from (n + 1) l
  end.

(** No two skips within three packet numbers. *)
Fixpoint skips_apart (gap : Z) (l : list (bool * Z)) : Prop :=
  match l with
  | [] => True
  | (skipped, _) :: l => if skipped then gap ≤ 0 ∧ skips_apart 3 l else skips_apart (gap - 1) l
  end.

Lemma skips_apart_mono l g g' : g' ≤ g → skips_apart g l → skips_apart g' l.
Proof.
  revert g g'. induction l as [|[[] x] l IHl]; intros g g' Hg; simpl; [done| |].
  - intros [? ?]. split; [lia|done].
  - apply IHl. lia.
Qed.

Lemma skipping_Pop_spec p : generator_ok p →
  let '(skipped, pn, p') := skipping_Pop p in
  generator_ok p' ∧ pn = skipping_Peek p ∧ pn = (if skipped then next p + 1 else next p) ∧ next p' = pn + 1 ∧
  (skipped = true → nextToSkip p = next p ∧ next p' + 3 ≤ nextToSkip p') ∧
  (skipped = false → nextToSkip p' = nextToSkip p ∧ next p < nextToSkip p).
Proof.
  intros [Hp Hn]. unfold skipping_Pop, skipping_Peek. destruct (Z.eqb_spec (next p) (nextToSkip p)); simpl.
  - pose proof (rng_range (calls p) (2 * period p) ltac:(lia)). unfold generator_ok. simpl. split_and!; lia || done.
  - unfold generator_ok. simpl. split_and!; lia || done.
Qed.

Lemma pops_spec n p : generator_ok p →
  sequential_from (next p) (pops n p) ∧ skips_apart (nextToSkip p - next p) (pops n p).
Proof.
  revert p. induction n as [|n IH]; intros p Hp; [done|]. simpl.
  pose proof (skipping_Pop_spec p Hp) as Hs. destruct (skipping_Pop p) as [[skipped pn] p'].
  destruct Hs as (Hp' & _ & Hpn & Hnext & Hskip & Hno). destruct (IH p' Hp') as [H1 H2]. simpl. rewrite <- Hnext.
  split; [done|]. destruct skipped.
  - destruct (Hskip eq_refl) as [-> Hfar]. split; [lia|].
    eapply skips_apart_mono; [|exact H2]. lia.
  - destruct (Hno eq_refl) as [He _]. rewrite He, Hnext, Hpn in H2. by replace (nextToSkip p - next p - 1) with (nextToSkip p - (next p + 1)) by lia.
Qed.

(** Packet numbers are used once.  Whatever the random numbers, the numbers
    popped from the skipping generator increase by one, or by two where [Pop]
    reports a skipped number; [Peek] announces the next one; and at least three
    packet numbers lie between two skipped ones. *)
Theorem packet_numbers_sequential n initial initialPeriod maxPeriod : 0 < initialPeriod ≤ maxPeriod →
  let p := newSkippingPacketNumberGenerator initial initialPeriod maxPeriod in
  sequential_from initial (pops n p) ∧ skips_apart 3 (pops n p) ∧
  (pops n p) !! 0%nat = (if n is O then None else Some ((skipping_Pop p).1.1, skipping_Peek p)).
Proof.
  intros Hp p. pose proof (rng_range 0 (2 * initialPeriod) ltac:(lia)) as Hr.
  assert (Hok : generator_ok p) by (split; simpl; lia).
  destruct (pops_spec n p Hok) as [H1 H2]. split_and!; [done| |].
  - eapply skips_apart_mono; [|exact H2]. simpl. lia.
  - pose proof (skipping_Pop_spec p Hok) as Hs. destruct n; [done|]. simpl. destruct (skipping_Pop p) as [[s pn] p'].
    destruct Hs as (_ & -> & _). done.
Qed.
End skipping.

Lemma packet_numbers_sequential_witness :
  let rng := λ (_ : nat) b, Z.min 1 (b - 1) in
  let p := newSkippingPacketNumberGenerator rng 5 10 100 in
  pops rng 5 p = [(false, 5); (false, 6); (false, 7); (false, 8); (true, 10)] ∧
  sequential_from 5 (pops rng 5 p) ∧ skips_apart 3 (pops rng 5 p).
Proof.
  intros rng p. assert (Hr : ∀ (n : nat) b, 0 < b → 0 ≤ rng n b < b) by (unfold rng; lia).
  pose proof (packet_numbers_sequential rng Hr 5 5 10 100 ltac:(lia)) as H.
  split; [reflexivity|]. split; [exact (proj1 H)|exact (proj1 (proj2 H))].
Defined.

(** * Packets

    Frames with their handlers; a frame without a handler is not reported. *)
Record Frame {F : Type} := mkFrame { frame_Frame : F; frame_Handler : bool }.
Arguments Frame : clear implicits.
Arguments mkFrame {F} _ _.

Section history.
Context {F : Type}.

Record packet := mkPacket {
  SendTime : Z;
  PacketNumber : Z;
  StreamFrames : list (Frame F);
  Frames : list (Frame F);
  p_LargestAcked : Z;
  p_Length : Z;
  p_EncryptionLevel : EncryptionLevel;
  IsPathMTUProbePacket : bool;
  includedInBytesInFlight : bool;
  declaredLost : bool;
  skippedPacket : bool;
}.

Definition outstanding (p : packet) : bool :=
  negb (declaredLost p) && negb (skippedPacket p) && negb (IsPathMTUProbePacket p).

(** A skipped packet number is recorded by a packet with its number only (the
    encryption level of such a packet is not used). *)
Definition skipped_packet (pn : Z) : packet :=
  mkPacket 0 pn [] [] 0 0 EncryptionInitial false false false true.

(** * The history

    An entry is [None] once the packet was acknowledged or lost, and for packets
    that are not ack-eliciting. *)
Record sentPacketHistory := mkSentHistory {
  packets : list (option packet);
  numOutstanding : Z;
  highestPacketNumber : Z;
}.

Definition newSentPacketHistory : sentPacketHistory := mkSentHistory [] 0 InvalidPacketNumber.

Definition nil_deref {A} : res A := Panic "invalid memory address or nil pointer dereference".

Definition checkSequentialPacketNumberUse (pn : Z) (h : sentPacketHistory) : res () :=
  if negb (highestPacketNumber h =? InvalidPacketNumber) && negb (pn =? highestPacketNumber h + 1)
  then Panic "non-sequential packet number use" else Ok tt.

Definition SkippedPacket (pn : Z) (h : sentPacketHistory) : res sentPacketHistory :=
  _ ← checkSequentialPacketNumberUse pn h;
  Ok (mkSentHistory (packets h ++ [Some (skipped_packet pn)]) (numOutstanding h) pn).

Definition SentNonAckElicitingPacket (pn : Z) (h : sentPacketHistory) : res sentPacketHistory :=
  _ ← checkSequentialPacketNumberUse pn h;
  Ok (mkSentHistory (if 0 <? blen (packets h) then packets h ++ [None] else packets h) (numOutstanding h) pn).

Definition SentAckElicitingPacket (p : packet) (h : sentPacketHistory) : res sentPacketHistory :=
  _ ← checkSequentialPacketNumberUse (PacketNumber p) h;
  Ok (mkSentHistory (packets h ++ [Some p]) (if outstanding p then numOutstanding h + 1 else numOutstanding h)
        (PacketNumber p)).

(** The packets that [Iterate] visits, in this order. *)
Definition contents (l : list (option packet)) : list packet := omap id l.

Definition HasOutstandingPackets (h : sentPacketHistory) : bool := 0 <? numOutstanding h.

Definition FirstOutstanding (h : sentPacketHistory) : option packet :=
  if negb (HasOutstandingPackets h) then None else head (filter outstanding (contents (packets h))).

Definition Len (h : sentPacketHistory) : Z := blen (packets h).

Definition getIndex (p : Z) (h : sentPacketHistory) : res (option nat) :=
  match packets h with
  | [] => Ok None
  | None :: _ => nil_deref
  | Some q :: _ =>
      let first := PacketNumber q in
      if p <? first then Ok None else
      let index := p - first in
      if blen (packets h) - 1 <? index then Ok None else Ok (Some (Z.to_nat index))
  end.

(** Deletes the nil entries at the beginning. *)
Fixpoint cleanupStart (l : list (option packet)) : list (option packet) :=
  match l with
  | None :: l => cleanupStart l
  | _ => l
  end.

(** Deletes the skipped packets directly before [idx], and returns where it stops. *)
Fixpoint cleanupSkipped (idx : nat) (l : list (option packet)) : list (option packet) * nat :=
  match idx with
  | O => (l, O)
  | S idx =>
      match l !! idx with
      | Some (Some p) => if skippedPacket p then cleanupSkipped idx (<[idx := None]> l) else (l, idx)
      | _ => (l, idx)
      end
  end.

Definition decrement (p : packet) (n : Z) : res Z :=
  if outstanding p then
    if n - 1 <? 0 then Panic "negative number of outstanding packets" else Ok (n - 1)
  else Ok n.

Definition entry (l : list (option packet)) (idx : nat) : res packet :=
  match l !! idx with
  | Some (Some p) => Ok p
  | Some None => nil_deref
  | None => Panic "index out of range"
  end.

Definition Remove (pn : Z) (h : sentPacketHistory) : res sentPacketHistory :=
  i ← getIndex pn h;
  match i with
  | None => Err (ErrMsg "packet not found in sent packet history")
  | Some idx =>
      p ← entry (packets h) idx;
      n ← decrement p (numOutstanding h);
      let '(l, idx) := cleanupSkipped idx (<[idx := None]> (packets h)) in
      let l := match idx with O => cleanupStart l | _ => l end in
      match l with
      | None :: _ => Panic "remove failed"
      | _ => Ok (mkSentHistory l n (highestPacketNumber h))
      end
  end.

Definition LowestPacketNumber (h : sentPacketHistory) : res Z :=
  match packets h with
  | [] => Ok InvalidPacketNumber
  | Some p :: _ => Ok (PacketNumber p)
  | None :: _ => nil_deref
  end.

Definition DeclareLost (pn : Z) (h : sentPacketHistory) : res sentPacketHistory :=
  i ← getIndex pn h;
  match i with
  | None => Ok h
  | Some idx =>
      p ← entry (packets h) idx;
      n ← decrement p (numOutstanding h);
      let l := <[idx := None]> (packets h) in
      Ok (mkSentHistory (match idx with O => cleanupStart l | _ => l end) n (highestPacketNumber h))
  end.

(** ** The invariant *)

Definition numbered (first : Z) (l : list (option packet)) : Prop :=
  ∀ i p, l !! i = Some (Some p) → PacketNumber p = first + Z.of_nat i.

Definition count_outstanding (l : list packet) : Z := blen (filter outstanding l).

Record history_ok (h : sentPacketHistory) : Prop := {
  h_num : numOutstanding h = count_outstanding (contents (packets h));
  h_packets : packets h = [] ∨
    ∃ p l, packets h = Some p :: l ∧ numbered (PacketNumber p) (packets h) ∧
      PacketNumber p + blen l = highestPacketNumber h ∧ highestPacketNumber h ≠ InvalidPacketNumber;
}.

Lemma contents_app l l' : contents (l ++ l') = contents l ++ contents l'.
Proof. apply omap_app. Qed.

Lemma contents_in l p : p ∈ contents l ↔ Some p ∈ l.
Proof.
  unfold contents. rewrite list_elem_of_omap. split; [intros (x & Hx & Hp); by destruct x; simplify_eq/=|].
  intros H. by exists (Some p).
Qed.

Lemma contents_cleanupStart l : contents (cleanupStart l) = contents l.
Proof. induction l as [|[p|] l IH]; [done|done|]. simpl. by rewrite IH. Qed.

Lemma count_app l l' : count_outstanding (l ++ l') = count_outstanding l + count_outstanding l'.
Proof. unfold count_outstanding. rewrite filter_app, blen_app. done. Qed.

Lemma count_perm l l' : l ≡ₚ l' → count_outstanding l = count_outstanding l'.
Proof. intros H. unfold count_outstanding, blen. by rewrite H. Qed.

Lemma count_cons p l : count_outstanding (p :: l) = (if outstanding p then 1 else 0) + count_outstanding l.
Proof.
  unfold count_outstanding. rewrite filter_cons. destruct (outstanding p); simpl; rewrite ?blen_cons; done || lia.
Qed.

Lemma count_skipped l : Forall (λ p, skippedPacket p = true) l → count_outstanding l = 0.
Proof.
  induction 1 as [|p l Hp Hl IH]; [done|]. rewrite count_cons, IH. unfold outstanding. rewrite Hp, andb_false_r. done.
Qed.

Lemma count_nonneg l : 0 ≤ count_outstanding l.
Proof. apply blen_nonneg. Qed.

(** Entries deleted from the start leave the others at their numbers. *)
Lemma cleanupStart_ok first l : numbered first l → 
  cleanupStart l = [] ∨ ∃ p l', cleanupStart l = Some p :: l' ∧ numbered (PacketNumber p) (cleanupStart l) ∧
    PacketNumber p + blen l' = first + blen l - 1.
Proof.
  revert first. induction l as [|[p|] l IH]; intros first Hn; [by left| |].
  - right. exists p, l. pose proof (Hn 0%nat p eq_refl) as Hp. simpl in *. split_and!; [done| |].
    + intros i q Hi. rewrite (Hn i q Hi). lia.
    + rewrite blen_cons. lia.
  - simpl. destruct (IH (first + 1)) as [He|(p & l' & He & Hn' & Hl)].
    + intros i q Hi. rewrite (Hn (S i) q Hi). lia.
    + by left.
    + right. exists p, l'. split_and!; [done|done|]. rewrite blen_cons. lia.
Qed.

Lemma numbered_set_none first l i : numbered first l → numbered first (<[i := None]> l).
Proof.
  intros Hn j q Hj. destruct (decide (i = j)) as [->|]; [|rewrite list_lookup_insert_ne in Hj by done; by apply Hn].
  destruct (decide (j < length l)%nat); [by rewrite list_lookup_insert_eq in Hj|].
  rewrite list_insert_ge in Hj by lia. by apply Hn.
Qed.

(** The skipped packets directly before the removed one. *)
Lemma cleanupSkipped_spec first l1 r : numbered first (l1 ++ r) →
  ∃ l1' sk i, cleanupSkipped (length l1) (l1 ++ r) = (l1' ++ r, i) ∧ length l1' = length l1 ∧
    contents l1 = contents l1' ++ sk ∧ Forall (λ p, skippedPacket p = true) sk ∧
    numbered first (l1' ++ r) ∧ ((0 < i)%nat → head l1' = head l1 ∧ l1 ≠ []).
Proof.
  revert r. induction l1 as [|x l1 IH] using rev_ind; intros r Hn.
  { exists [], [], 0%nat. split_and!; try done. lia. }
  rewrite length_app, Nat.add_1_r. simpl. rewrite <- app_assoc in *. simpl in *. rewrite list_lookup_middle by done.
  assert (Hkeep : ∃ l1' sk i, (l1 ++ x :: r, length l1) = (l1' ++ r, i) ∧ length l1' = S (length l1) ∧
    contents (l1 ++ [x]) = contents l1' ++ sk ∧ Forall (λ p, skippedPacket p = true) sk ∧
    numbered first (l1' ++ r) ∧ ((0 < i)%nat → head l1' = head (l1 ++ [x]) ∧ l1 ++ [x] ≠ [])).
  { exists (l1 ++ [x]), [], (length l1). rewrite <- app_assoc, app_nil_r, length_app. simpl. split_and!; try done; [lia|].
    intros _. split; [done|]. by destruct l1. }
  destruct x as [p|]; [|exact Hkeep]. destruct (skippedPacket p) eqn:Hs; [|exact Hkeep].
  replace (<[length l1 := None]> (l1 ++ Some p :: r)) with (l1 ++ None :: r) by (by rewrite insert_app_r_alt, Nat.sub_diag by lia).
  destruct (IH (None :: r)) as (l1' & sk & i & He & Hlen & Hc & Hsk & Hn' & Hh).
  { replace (l1 ++ None :: r) with (<[length l1 := None]> (l1 ++ Some p :: r)) by (by rewrite insert_app_r_alt, Nat.sub_diag by lia).
    by apply numbered_set_none. }
  exists (l1' ++ [None]), (sk ++ [p]), i. rewrite <- app_assoc. simpl. split_and!; try done.
  - rewrite length_app. simpl. lia.
  - rewrite !contents_app, Hc. simpl. by rewrite app_nil_r, app_assoc.
  - apply Forall_app. split; [done|]. by repeat constructor.
  - intros Hi. destruct (Hh Hi) as [Heq Hne]. split; [|by destruct l1]. destruct l1 as [|y l1]; [done|].
    destruct l1' as [|y' l1']; [done|]. simpl in *. congruence.
Qed.

(** Looking up a packet of the history by its number. *)
Lemma getIndex_spec h p : history_ok h → p ∈ contents (packets h) →
  ∃ l1 l2, packets h = l1 ++ Some p :: l2 ∧ getIndex (PacketNumber p) h = Ok (Some (length l1)) ∧
    entry (packets h) (length l1) = Ok p.
Proof.
  intros [_ Hp] Hin. apply contents_in in Hin.
  destruct Hp as [Hp|(q & l & Hp & Hn & _)]; [rewrite Hp in Hin; by apply elem_of_nil in Hin|].
  apply list_elem_of_split in Hin as (l1 & l2 & Hl). exists l1, l2. split; [done|].
  assert (Hi : packets h !! length l1 = Some (Some p)) by (by rewrite Hl, list_lookup_middle).
  assert (Hlen : (length l1 < length (packets h))%nat) by (by eapply lookup_lt_Some).
  pose proof (Hn _ _ Hi) as Hpn. split; [|unfold entry; by rewrite Hi].
  unfold getIndex. rewrite Hp. rewrite Hp in Hlen. rewrite Hpn. unfold blen.
  repeat zcase; try lia. f_equal. f_equal. lia.
Qed.

Lemma decrement_ok p l : p ∈ l → decrement p (count_outstanding l) = Ok (count_outstanding l - if outstanding p then 1 else 0).
Proof.
  intros Hin. unfold decrement. apply list_elem_of_split in Hin as (l1 & l2 & ->).
  rewrite count_app, count_cons. pose proof (count_nonneg l1). pose proof (count_nonneg l2).
  destruct (outstanding p); [|by rewrite Z.sub_0_r]. zcase; [lia|done].
Qed.

(** [Remove] deletes the packet and skipped ones before it. *)
Lemma Remove_spec h p : history_ok h → p ∈ contents (packets h) →
  ∃ h' sk, Remove (PacketNumber p) h = Ok h' ∧ history_ok h' ∧ highestPacketNumber h' = highestPacketNumber h ∧
    contents (packets h) ≡ₚ p :: sk ++ contents (packets h') ∧ Forall (λ q, skippedPacket q = true) sk ∧
    ∃ c1 c2, contents (packets h) = c1 ++ sk ++ p :: c2 ∧ contents (packets h') = c1 ++ c2.
Proof.
  intros Hh Hin. destruct (getIndex_spec h p Hh Hin) as (l1 & l2 & Hl & Hidx & Hent). pose proof Hh as [Hnum Hpk].
  destruct Hpk as [Hpk|(p0 & l0 & Hpk & Hn & Hhi & Hinv)]; [rewrite Hpk in Hl; by destruct l1|].
  unfold Remove. rewrite Hidx, res_bind_ok, Hent, res_bind_ok, Hnum, (decrement_ok _ _ Hin), res_bind_ok.
  pose proof Hn as Hn1. rewrite Hl in Hn1. apply (numbered_set_none _ _ (length l1)) in Hn1.
  rewrite Hl, insert_app_r_alt, Nat.sub_diag in * by lia. simpl in *.
  destruct (cleanupSkipped_spec _ l1 (None :: l2) Hn1) as (l1' & sk & i & -> & Hlen & Hc & Hsk & Hn' & Hh').
  assert (Hperm : contents (l1 ++ Some p :: l2) ≡ₚ p :: sk ++ contents (l1' ++ None :: l2)).
  { rewrite !contents_app, Hc. simpl. rewrite <- Permutation_middle. constructor.
    rewrite <- !app_assoc, (app_assoc (contents l1')), (app_assoc sk). f_equiv. by rewrite Permutation_app_comm. }
  assert (Hord : ∀ l, contents l = contents (l1' ++ None :: l2) →
    ∃ c1 c2, contents (l1 ++ Some p :: l2) = c1 ++ sk ++ p :: c2 ∧ contents l = c1 ++ c2).
  { intros l ->. exists (contents l1'), (contents l2). rewrite !contents_app, Hc, <- app_assoc. done. }
  assert (Hcnt : ∀ l, contents l = contents (l1' ++ None :: l2) →
    count_outstanding (contents (l1 ++ Some p :: l2)) - (if outstanding p then 1 else 0) = count_outstanding (contents l)).
  { intros l ->. rewrite (count_perm _ _ Hperm), count_cons, count_app, (count_skipped sk Hsk). lia. }
  assert (Hblen : blen (l1' ++ None :: l2) = 1 + blen l0).
  { apply (f_equal blen) in Hpk as Hb. rewrite blen_app, !blen_cons in Hb.
    rewrite blen_app, blen_cons. unfold blen in *. lia. }
  destruct i as [|i].
  - pose proof (contents_cleanupStart (l1' ++ None :: l2)) as Hcc.
    destruct (cleanupStart_ok _ _ Hn') as [He|(q & l' & He & Hq & Hql)]; rewrite He in *; (eexists _, sk; split; [done|]).
    + split_and!; [|done|by rewrite <- Hcc in Hperm|done|by apply Hord]. split; simpl; [by apply (Hcnt [])|by left].
    + split_and!; [|done|by rewrite <- Hcc in Hperm|done|by apply Hord]. split; simpl; [by apply (Hcnt (Some q :: l'))|]. right. exists q, l'. split_and!; [done|done| |done]. lia.
  - destruct (Hh' ltac:(lia)) as [Hhead Hne]. destruct l1 as [|x1 l1]; [done|]. destruct l1' as [|x1' l1']; [done|].
    simpl in Hhead. injection Hhead as ->. injection Hpk as -> Hpk. simpl.
    eexists _, sk. split; [done|]. split_and!; [|done|done|done|by apply Hord]. split; simpl; [by apply (Hcnt (Some p0 :: l1' ++ None :: l2))|]. right.
    eexists p0, _. split_and!; [done|done| |done]. simpl in Hblen. rewrite blen_cons in Hblen. lia.
Qed.

(** [DeclareLost] deletes just the packet. *)
Lemma DeclareLost_spec h p : history_ok h → p ∈ contents (packets h) →
  ∃ h', DeclareLost (PacketNumber p) h = Ok h' ∧ history_ok h' ∧ highestPacketNumber h' = highestPacketNumber h ∧
    ∃ l1 l2, contents (packets h) = l1 ++ p :: l2 ∧ contents (packets h') = l1 ++ l2.
Proof.
  intros Hh Hin. destruct (getIndex_spec h p Hh Hin) as (l1 & l2 & Hl & Hidx & Hent). pose proof Hh as [Hnum Hpk].
  destruct Hpk as [Hpk|(p0 & l0 & Hpk & Hn & Hhi & Hinv)]; [rewrite Hpk in Hl; by destruct l1|].
  unfold DeclareLost. rewrite Hidx, res_bind_ok, Hent, res_bind_ok, Hnum, (decrement_ok _ _ Hin), res_bind_ok.
  pose proof Hn as Hn1. rewrite Hl in Hn1. apply (numbered_set_none _ _ (length l1)) in Hn1.
  rewrite Hl, insert_app_r_alt, Nat.sub_diag in * by lia. simpl in *.
  set (l' := match length l1 with O => _ | _ => _ end).
  assert (Hc : contents l' = contents l1 ++ contents l2).
  { unfold l'. destruct (length l1); rewrite ?contents_cleanupStart, contents_app; done. }
  eexists. split; [done|]. split_and!; simpl; [|done|].
  - split; simpl.
    + rewrite Hc, contents_app. simpl. rewrite !count_app, count_cons. lia.
    + apply (f_equal blen) in Hpk as Hb. rewrite blen_app, !blen_cons in Hb. unfold l'.
      destruct l1 as [|x1 l1]; simpl.
      * destruct (cleanupStart_ok _ _ Hn1) as [He|(q & l'' & He & Hq & Hql)]; simpl in He; [by left|].
        right. exists q, l''. simpl in Hq, Hql. rewrite blen_cons in Hql. change (blen []) with 0 in Hb. split_and!; [done|done| |done]. lia.
      * injection Hpk as -> Hpk. right. eexists p0, _. split_and!; [done|done| |done].
        rewrite blen_cons in Hb. rewrite blen_app, blen_cons. lia.
  - exists (contents l1), (contents l2). by rewrite Hc, contents_app.
Qed.

(** Sending appends. *)
Lemma checkSequential_ok pn h : highestPacketNumber h = InvalidPacketNumber ∨ pn = highestPacketNumber h + 1 →
  checkSequentialPacketNumberUse pn h = Ok tt.
Proof.
  unfold checkSequentialPacketNumberUse. intros [->| ->]; [done|]. rewrite Z.eqb_refl. by rewrite andb_false_r.
Qed.

Lemma append_ok h e pn n : history_ok h → pn ≠ InvalidPacketNumber →
  highestPacketNumber h = InvalidPacketNumber ∨ pn = highestPacketNumber h + 1 →
  (∀ p, e = Some p → PacketNumber p = pn) → (packets h = [] → e ≠ None) →
  n = count_outstanding (contents (packets h ++ [e])) →
  history_ok (mkSentHistory (packets h ++ [e]) n pn).
Proof.
  intros [Hnum Hp] Hpn Hseq He Hne Hn. split; simpl; [done|]. right. destruct Hp as [Hp|(p & l & Hp & Hnb & Hhi & Hinv)].
  - rewrite Hp. destruct e as [p|]; [|by specialize (Hne Hp)]. exists p, []. rewrite (He p eq_refl). simpl.
    split_and!; [done| |change (blen []) with 0; lia|done].
    intros [|i] q Hq; [simplify_eq/=; rewrite (He q eq_refl); lia|done].
  - exists p, (l ++ [e]). split_and!; [by rewrite Hp| | |done].
    + intros i q Hi. apply lookup_app_Some in Hi as [Hi|[Hge Hi]]; [by apply Hnb|].
      apply list_lookup_singleton_Some in Hi as [Hi He']. subst. rewrite (He q eq_refl).
      rewrite Hp in *. simpl in *. unfold blen in *. destruct Hseq; [done|lia].
    + rewrite blen_app, blen_one. destruct Hseq; [done|lia].
Qed.
End history.

End sentHistory.
