(* ===== verification/Ecn.v ===== *)
(** ECN validation (internal/ackhandler/ecn.go) and the round trip time
    estimate (internal/utils/rtt_stats.go). *)

From S2P Require Import Prelude.
From S2P Require Import Protocol.
From S2P Require Import Float64.

Module ecn.
Import protocol.

Inductive ecnState := ecnStateInitial | ecnStateTesting | ecnStateUnknown | ecnStateCapable | ecnStateFailed.

#[global] Instance ecnState_eq_dec : EqDecision ecnState.
Proof. solve_decision. Defined.
#[global] Instance ECN_eq_dec : EqDecision ECN.
Proof. solve_decision. Defined.

Definition numECNTestingPackets : Z := 10.

Record ecnTracker := mkEcnTracker {
  state : ecnState;
  numSentTesting : Z; numLostTesting : Z;           (* uint8 *)
  firstTestingPacket : Z; lastTestingPacket : Z; firstCapablePacket : Z;
  numSentECT0 : Z; numSentECT1 : Z;
  numAckedECT0 : Z; numAckedECT1 : Z; numAckedECNCE : Z;
}.

Definition newECNTracker : ecnTracker :=
  mkEcnTracker ecnStateInitial 0 0 InvalidPacketNumber InvalidPacketNumber InvalidPacketNumber 0 0 0 0 0.

Definition set_state (s : ecnState) (e : ecnTracker) : ecnTracker :=
  mkEcnTracker s (numSentTesting e) (numLostTesting e) (firstTestingPacket e) (lastTestingPacket e) (firstCapablePacket e)
    (numSentECT0 e) (numSentECT1 e) (numAckedECT0 e) (numAckedECT1 e) (numAckedECNCE e).
Definition set_sent (n0 n1 : Z) (e : ecnTracker) : ecnTracker :=
  mkEcnTracker (state e) (numSentTesting e) (numLostTesting e) (firstTestingPacket e) (lastTestingPacket e) (firstCapablePacket e)
    n0 n1 (numAckedECT0 e) (numAckedECT1 e) (numAckedECNCE e).
Definition set_testing (sent lost first last capable : Z) (e : ecnTracker) : ecnTracker :=
  mkEcnTracker (state e) sent lost first last capable
    (numSentECT0 e) (numSentECT1 e) (numAckedECT0 e) (numAckedECT1 e) (numAckedECNCE e).
Definition set_acked (n0 n1 ce : Z) (e : ecnTracker) : ecnTracker :=
  mkEcnTracker (state e) (numSentTesting e) (numLostTesting e) (firstTestingPacket e) (lastTestingPacket e) (firstCapablePacket e)
    (numSentECT0 e) (numSentECT1 e) n0 n1 ce.

(** The part of [SentPacket] after the switch. *)
Definition sentMarked (pn : Z) (e : ecnTracker) : ecnTracker :=
  let e := if bool_decide (state e = ecnStateCapable) && (firstCapablePacket e =? InvalidPacketNumber)
           then set_testing (numSentTesting e) (numLostTesting e) (firstTestingPacket e) (lastTestingPacket e) pn e else e in
  if negb (bool_decide (state e = ecnStateTesting)) then e else
  let first := if firstTestingPacket e =? InvalidPacketNumber then pn else firstTestingPacket e in
  let e := set_testing (u8 (numSentTesting e + 1)) (numLostTesting e) first (lastTestingPacket e) (firstCapablePacket e) e in
  if numECNTestingPackets <=? numSentECT0 e + numSentECT1 e
  then set_state ecnStateUnknown (set_testing (numSentTesting e) (numLostTesting e) first pn (firstCapablePacket e) e)
  else e.

Definition SentPacket (pn : Z) (ecn : ECN) (e : ecnTracker) : res ecnTracker :=
  match ecn with
  | ECNNon => Ok e
  | ECT0 => Ok (sentMarked pn (set_sent (numSentECT0 e + 1) (numSentECT1 e) e))
  | ECT1 => Ok (sentMarked pn (set_sent (numSentECT0 e) (numSentECT1 e + 1) e))
  | ECNUnsupported => if negb (bool_decide (state e = ecnStateFailed)) then Panic "didn't expect ECN to be unsupported"
                      else Ok (sentMarked pn e)
  | ECNCE => Panic "sent packet with unexpected ECN marking"
  end.

Definition Mode (e : ecnTracker) : ECN * ecnTracker :=
  let e := match state e with ecnStateInitial => set_state ecnStateTesting e | _ => e end in
  (match state e with ecnStateInitial | ecnStateTesting | ecnStateCapable => ECT0 | ecnStateUnknown | ecnStateFailed => ECNNon end, e).

(** Fails validation if all testing packets were lost or CE-marked. *)
Definition failIfMangled (e : ecnTracker) : ecnTracker :=
  let ce := numAckedECNCE e + numLostTesting e in
  if ce <? numSentECT0 e + numSentECT1 e then e else set_state ecnStateFailed e.

Definition ecnMarking (pn : Z) (e : ecnTracker) : ECN :=
  if (pn <? firstTestingPacket e) || (firstTestingPacket e =? InvalidPacketNumber) then ECNNon else
  if (pn <? lastTestingPacket e) || (lastTestingPacket e =? InvalidPacketNumber) then ECT0 else
  if (pn <? firstCapablePacket e) || (firstCapablePacket e =? InvalidPacketNumber) then ECNNon else ECT0.

Definition isTestingPacket (pn : Z) (e : ecnTracker) : bool :=
  if firstTestingPacket e =? InvalidPacketNumber then false
  else (firstTestingPacket e <=? pn) && ((pn <=? lastTestingPacket e) || (lastTestingPacket e =? InvalidPacketNumber)).

Definition LostPacket (pn : Z) (e : ecnTracker) : ecnTracker :=
  if negb (bool_decide (state e = ecnStateTesting)) && negb (bool_decide (state e = ecnStateUnknown)) then e else
  if negb (isTestingPacket pn e) then e else
  let e := set_testing (numSentTesting e) (u8 (numLostTesting e + 1)) (firstTestingPacket e) (lastTestingPacket e) (firstCapablePacket e) e in
  if negb (bool_decide (state e = ecnStateUnknown)) then e else
  if numSentTesting e <=? numLostTesting e then set_state ecnStateFailed e else failIfMangled e.

Definition count_marked (m : ECN) (pns : list Z) (e : ecnTracker) : Z :=
  blen (filter (λ pn, ecnMarking pn e = m) pns).

(** [HandleNewlyAcked], on the numbers of the packets. *)
Definition HandleNewlyAcked (pns : list Z) (ect0 ect1 ecnce : Z) (e : ecnTracker) : bool * ecnTracker :=
  if bool_decide (state e = ecnStateFailed) then (false, e) else
  if (numSentECT0 e <? ect0) || (numSentECT1 e <? ect1) then (false, set_state ecnStateFailed e) else
  let ackedECT0 := count_marked ECT0 pns e in
  let ackedECT1 := count_marked ECT1 pns e in
  if ((0 <? ackedECT0) || (0 <? ackedECT1)) && (ect0 =? 0) && (ect1 =? 0) && (ecnce =? 0)
  then (false, set_state ecnStateFailed e) else
  let newECT0 := ect0 - numAckedECT0 e in
  let newECT1 := ect1 - numAckedECT1 e in
  let newECNCE := ecnce - numAckedECNCE e in
  if (newECT0 <? 0) || (newECT1 <? 0) || (newECNCE <? 0) then (false, set_state ecnStateFailed e) else
  if newECT0 + newECNCE <? ackedECT0 then (false, set_state ecnStateFailed e) else
  if newECT1 + newECNCE <? ackedECT1 then (false, set_state ecnStateFailed e) else
  let e := set_acked ect0 ect1 ecnce e in
  let e := if bool_decide (state e = ecnStateUnknown) then failIfMangled e else e in
  if bool_decide (state e = ecnStateFailed) then (false, e) else
  let e := if bool_decide (state e = ecnStateTesting) || bool_decide (state e = ecnStateUnknown) then
             if existsb (λ pn, isTestingPacket pn e) pns && ((0 <? newECT0) || (0 <? newECT1))
             then set_state ecnStateCapable e else e
           else e in
  (bool_decide (state e = ecnStateCapable) && (0 <? newECNCE), e).

(** ** Runs

    A packet is sent with the marking that [Mode] asks for; packet numbers
    increase. *)
Inductive estep (e : ecnTracker) : ecnTracker → Prop :=
| e_send pn e' : 0 ≤ pn → SentPacket pn (Mode e).1 (Mode e).2 = Ok e' → estep e e'
| e_lost pn : estep e (LostPacket pn e)
| e_acked pns ect0 ect1 ecnce : 0 ≤ ect0 → 0 ≤ ect1 → 0 ≤ ecnce → estep e (HandleNewlyAcked pns ect0 ect1 ecnce e).2.

Inductive ereach : ecnTracker → Prop :=
| er_new : ereach newECNTracker
| er_step e e' : ereach e → estep e e' → ereach e'.

Record ecn_ok (e : ecnTracker) : Prop := {
  eo_ect1 : numSentECT1 e = 0;
  eo_testing : state e = ecnStateTesting → numSentTesting e = numSentECT0 e ∧ numSentECT0 e < numECNTestingPackets;
  eo_initial : state e = ecnStateInitial → numSentECT0 e = 0 ∧ numSentTesting e = 0;
  eo_unknown : state e = ecnStateUnknown → numSentECT0 e = numECNTestingPackets ∧ numSentTesting e = numECNTestingPackets;
  eo_acked : 0 ≤ numAckedECT0 e ∧ 0 ≤ numAckedECT1 e ∧ 0 ≤ numAckedECNCE e;
  eo_sent : 0 ≤ numSentECT0 e ∧ numSentTesting e ≤ numECNTestingPackets;
}.

Lemma failIfMangled_ok e : ecn_ok e → ecn_ok (failIfMangled e).
Proof. intros []. unfold failIfMangled. destruct (_ <? _); split; simpl; done. Qed.

Lemma set_state_ok s e : ecn_ok e → s = ecnStateFailed ∨ s = ecnStateCapable → ecn_ok (set_state s e).
Proof. intros [] [->| ->]; split; simpl; done. Qed.

Lemma estep_ok e e' : ecn_ok e → estep e e' → ecn_ok e'.
Proof.
  intros Hok Hs. unfold numECNTestingPackets in *. destruct Hs as [pn e' Hpn Hs|pn|pns ect0 ect1 ecnce H0 H1 H2].
  - destruct e as [s nt nl f l c n0 n1 a0 a1 ce], Hok. simpl in *. unfold numECNTestingPackets in *. subst n1.
    assert (Hu : ∀ n, 0 ≤ n < 10 → u8 (n + 1) = n + 1) by (intros; apply u8_small; lia).
    destruct s; simpl in Hs; injection Hs as <-; try (split; simpl; done).
    + destruct (eo_initial0 eq_refl) as [-> ->]. unfold sentMarked. simpl. rewrite Hu by lia. split; simpl; try done; lia.
    + destruct (eo_testing0 eq_refl) as [-> Hlt]. unfold sentMarked, numECNTestingPackets. simpl.
      rewrite Hu, Z.add_0_r by lia. destruct (Z.leb_spec 10 (n0 + 1)); split; simpl; unfold numECNTestingPackets; try done; lia.
    + unfold sentMarked. simpl. destruct (c =? InvalidPacketNumber); split; simpl; unfold numECNTestingPackets; try done; lia.
  - unfold LostPacket. repeat case_match; try done;
      try first [apply failIfMangled_ok | apply set_state_ok; [|by left]]; destruct Hok; split; simpl; done.
  - unfold HandleNewlyAcked. destruct (bool_decide (state e = ecnStateFailed)); [done|].
    destruct ((numSentECT0 e <? ect0) || _); [apply set_state_ok; auto|].
    destruct (_ && (ecnce =? 0)); [apply set_state_ok; auto|].
    destruct (_ || (ecnce - numAckedECNCE e <? 0)); [apply set_state_ok; auto|].
    destruct (_ <? count_marked ECT0 pns e); [apply set_state_ok; auto|].
    destruct (_ <? count_marked ECT1 pns e); [apply set_state_ok; auto|].
    set (e1 := set_acked ect0 ect1 ecnce e). assert (Hok1 : ecn_ok e1) by (destruct Hok; split; simpl; done).
    set (e2 := if bool_decide (state e1 = ecnStateUnknown) then failIfMangled e1 else e1).
    assert (Hok2 : ecn_ok e2) by (unfold e2; case_match; [by apply failIfMangled_ok|done]).
    destruct (bool_decide (state e2 = ecnStateFailed)); [done|]. simpl.
    repeat case_match; try done. apply set_state_ok; auto.
Qed.

Lemma ereach_ok e : ereach e → ecn_ok e.
Proof. induction 1; [|by eapply estep_ok]. split; vm_compute; intuition discriminate. Qed.

Lemma Mode_failed e : state e = ecnStateFailed → Mode e = (ECNNon, e).
Proof. intros Hf. unfold Mode. by rewrite !Hf. Qed.

(** C33: ECN validation.  In every state reached by sending packets with the
    marking [Mode] asks for, losing packets and processing ACKs: at most ten
    packets are sent with ECN marks before the path is validated; sending never
    panics; once validation has failed no packet is marked any more and no ACK
    is taken for a congestion signal; and a congestion signal is reported only
    when the path is known to be capable and the CE count has increased. *)
Theorem ecn_validation e : ereach e →
  (∀ pn, ∃ e', SentPacket pn (Mode e).1 (Mode e).2 = Ok e') ∧
  (state e ≠ ecnStateCapable → (Mode e).1 = ECT0 → numSentECT0 e + numSentECT1 e < numECNTestingPackets ∨ state e = ecnStateInitial) ∧
  (∀ e', estep e e' → state e = ecnStateFailed → state e' = ecnStateFailed ∧ (Mode e').1 = ECNNon) ∧
  (∀ pns ect0 ect1 ecnce, (HandleNewlyAcked pns ect0 ect1 ecnce e).1 = true →
    state (HandleNewlyAcked pns ect0 ect1 ecnce e).2 = ecnStateCapable ∧ numAckedECNCE e < ecnce ∧ ect0 ≤ numSentECT0 e).
Proof.
  intros Hr. destruct (ereach_ok e Hr). split_and!.
  - intros pn. destruct (Mode e) as [m e'] eqn:Hm. unfold Mode in Hm. simpl. destruct (state e) eqn:Hst; simpl in Hm; rewrite ?Hst in Hm; injection Hm as <- <-; by eexists.
  - intros Hc Hm. unfold Mode in Hm. destruct (state e) eqn:Hst; simpl in Hm; rewrite ?Hst in Hm; simpl in Hm; try done.
    + by right.
    + left. destruct (eo_testing0 eq_refl). lia.
  - intros e' Hs Hf. destruct Hs as [pn e' Hpn Hs|pn|pns ect0 ect1 ecnce H0 H1 H2].
    + rewrite Mode_failed in Hs by done. injection Hs as <-. by rewrite Mode_failed.
    + assert (LostPacket pn e = e) as -> by (unfold LostPacket; by rewrite Hf). by rewrite Mode_failed.
    + assert (HandleNewlyAcked pns ect0 ect1 ecnce e = (false, e)) as -> by (unfold HandleNewlyAcked; by rewrite Hf).
      cbn [fst snd]. by rewrite Mode_failed.
  - intros pns ect0 ect1 ecnce. unfold HandleNewlyAcked. destruct (bool_decide (state e = ecnStateFailed)); [done|].
    destruct ((numSentECT0 e <? ect0) || _) eqn:Hsent; [done|]. destruct (_ && (ecnce =? 0)); [done|].
    destruct (_ || (ecnce - numAckedECNCE e <? 0)); [done|].
    destruct (_ <? count_marked ECT0 pns e); [done|]. destruct (_ <? count_marked ECT1 pns e); [done|].
    set (e1 := if bool_decide (state (set_acked ect0 ect1 ecnce e) = ecnStateUnknown) then _ else _).
    destruct (bool_decide (state e1 = ecnStateFailed)); [done|]. set (e2 := if _ || _ then _ else e1).
    intros [Hcap Hce]%andb_true_iff. apply bool_decide_eq_true in Hcap. apply Z.ltb_lt in Hce.
    apply orb_false_iff in Hsent as [Hs _]. apply Z.ltb_ge in Hs. split; [exact Hcap|lia].
Qed.

Lemma ecn_validation_witness :
  ereach newECNTracker ∧ ∃ e', SentPacket 7 (Mode newECNTracker).1 (Mode newECNTracker).2 = Ok e'.
Proof. split; [exact er_new|]. exact (proj1 (ecn_validation newECNTracker er_new) 7). Defined.

(** The last testing packet is sent with an ECT(0) mark but not counted when it
    is acknowledged: after ten testing packets 0 to 9 an ACK for packet 9
    without ECN counts does not fail the validation, one for packet 8 does. *)
Example last_testing_packet_not_counted :
  let send := λ r pn, e ← r; SentPacket pn (Mode e).1 (Mode e).2 in
  ∃ e, foldl send (Ok newECNTracker) [0; 1; 2; 3; 4; 5; 6; 7; 8; 9] = Ok e ∧
    numSentECT0 e = 10 ∧ isTestingPacket 9 e = true ∧ ecnMarking 9 e = ECNNon ∧
    state (HandleNewlyAcked [9] 0 0 0 e).2 = ecnStateUnknown ∧
    state (HandleNewlyAcked [8] 0 0 0 e).2 = ecnStateFailed.
Proof. eexists. split; [vm_compute; reflexivity|]. vm_compute. done. Qed.

End ecn.

(** * Round trip time statistics *)
Module rtt.
Import float64.

Definition InfDuration : Z := 2 ^ 63 - 1.
Definition Microsecond : Z := 1000.
Definition Millisecond : Z := 1000 * 1000.
Definition TimerGranularity : Z := Millisecond.
Definition defaultInitialRTT : Z := 100 * Millisecond.

(** Constants of the compiler: 1/8, 7/8, 1/4, 3/4. *)
Definition rttAlpha : t := mkF 1 (-3).
Definition oneMinusAlpha : t := mkF 7 (-3).
Definition rttBeta : t := mkF 1 (-2).
Definition oneMinusBeta : t := mkF 3 (-2).

Record RTTStats := mkRTT {
  hasMeasurement : bool;
  minRTT : Z; latestRTT : Z; smoothedRTT : Z; meanDeviation : Z;
  maxAckDelay : Z;
}.

Definition NewRTTStats : RTTStats := mkRTT false 0 0 0 0 0.

Definition PTO (includeMaxAckDelay : bool) (r : RTTStats) : Z :=
  if smoothedRTT r =? 0 then 2 * defaultInitialRTT else
  let pto := i64 (smoothedRTT r + Z.max (i64 (4 * meanDeviation r)) TimerGranularity) in
  if includeMaxAckDelay then i64 (pto + maxAckDelay r) else pto.

(** The weighted means are computed in float32, on microseconds. *)
Definition UpdateRTT (sendDelta ackDelay : Z) (r : RTTStats) : RTTStats :=
  if (sendDelta =? InfDuration) || (sendDelta <=? 0) then r else
  let min := if (minRTT r =? 0) || (sendDelta <? minRTT r) then sendDelta else minRTT r in
  let sample := if ackDelay <=? sendDelta - min then sendDelta - ackDelay else sendDelta in
  if negb (hasMeasurement r) then mkRTT true min sample sample (Z.quot sample 2) (maxAckDelay r) else
  let us (d : Z) : t := of_int32 (Z.quot d Microsecond) in
  let deviation := i64 (to_int (add32 (mul32 oneMinusBeta (us (meanDeviation r)))
                                      (mul32 rttBeta (us (Z.abs (i64 (smoothedRTT r - sample)))))) * Microsecond) in
  let smoothed := i64 (to_int (add32 (mul32 (us (smoothedRTT r)) oneMinusAlpha) (mul32 (us sample) rttAlpha)) * Microsecond) in
  mkRTT true min sample smoothed deviation (maxAckDelay r).

Definition SetMaxAckDelay (mad : Z) (r : RTTStats) : RTTStats :=
  mkRTT (hasMeasurement r) (minRTT r) (latestRTT r) (smoothedRTT r) (meanDeviation r) mad.

Definition SetInitialRTT (d : Z) (r : RTTStats) : RTTStats :=
  if hasMeasurement r then r else mkRTT (hasMeasurement r) (minRTT r) d d (meanDeviation r) (maxAckDelay r).

Definition OnConnectionMigration (r : RTTStats) : RTTStats := mkRTT (hasMeasurement r) 0 0 0 0 (maxAckDelay r).

Definition ExpireSmoothedMetrics (r : RTTStats) : RTTStats :=
  mkRTT (hasMeasurement r) (minRTT r) (latestRTT r) (Z.max (smoothedRTT r) (latestRTT r))
    (Z.max (meanDeviation r) (Z.abs (i64 (smoothedRTT r - latestRTT r)))) (maxAckDelay r).

(** A first sample of 300 ms, then one of 200 ms of which 50 ms are the peer's
    delay (not deducted, as the result would be below the minimum). *)
Example UpdateRTT_example :
  let r := UpdateRTT (300 * Millisecond) 0 NewRTTStats in
  let r := UpdateRTT (200 * Millisecond) (50 * Millisecond) r in
  r = mkRTT true (200 * Millisecond) (200 * Millisecond) (287500 * Microsecond) (137500 * Microsecond) 0.
Proof. vm_compute. reflexivity. Qed.

End rtt.
