(* ===== verification/SentHandler.v ===== *)
(** The sent packet handler (internal/ackhandler/sent_packet_handler.go): what
    happens to a packet after it was sent.  It is acknowledged, declared lost or
    probed; bytes in flight, the loss detection timer, the amplification limit
    and the probe timeouts follow. *)

From S2P Require Import Prelude.
From S2P Require Import Protocol.
From S2P Require Import Float64.
From S2P Require Import AckFrame.
From S2P Require Import SentHistory.
From S2P Require Import Ecn.

Module sentHandler.
Import protocol rtt ack sentHistory.

Section handler.
(** The frames of the packets, and the results of [Int31n]. *)
Context {F : Type} (rng : nat → Z → Z).

Abbreviation packet := (@packet F) (only parsing).
Abbreviation sentPacketHistory := (@sentPacketHistory F) (only parsing).

Inductive SendMode :=
| SendNone | SendAck | SendPTOInitial | SendPTOHandshake | SendPTOAppData | SendPacingLimited | SendAny.

(** What the handler tells others: the handlers of the frames, and the
    congestion controller.  Sums of byte counts are far below [2 ^ 63]; times
    are nanoseconds since the zero [time.Time]. *)
Inductive event :=
| OnAcked (f : F)
| OnLost (f : F)
| OnPacketSent (t inFlight pn size : Z) (retransmittable : bool)
| OnPacketAcked (pn size priorInFlight t : Z)
| OnCongestionEvent (pn lost priorInFlight : Z)
| MaybeExitSlowStart.

Inductive packetNumberGenerator :=
| Sequential (g : sequentialPacketNumberGenerator)
| Skipping (g : skippingPacketNumberGenerator).

Definition pns_Peek (g : packetNumberGenerator) : Z :=
  match g with Sequential g => sequential_Peek g | Skipping g => skipping_Peek g end.

Definition pns_Pop (g : packetNumberGenerator) : bool * Z * packetNumberGenerator :=
  match g with
  | Sequential g => let '(s, pn, g) := sequential_Pop g in (s, pn, Sequential g)
  | Skipping g => let '(s, pn, g) := skipping_Pop rng g in (s, pn, Skipping g)
  end.

Record packetNumberSpace := mkSpace {
  history : sentPacketHistory;
  pns : packetNumberGenerator;
  lossTime : Z;
  lastAckElicitingPacketTime : Z;
  largestAcked : Z;
  largestSent : Z;
}.

Definition SkipPacketInitialPeriod : Z := 256.
Definition SkipPacketMaxPeriod : Z := 128 * 1024.

Definition newPacketNumberSpace (initialPN : Z) (skipPNs : bool) : packetNumberSpace :=
  mkSpace newSentPacketHistory
    (if skipPNs then Skipping (newSkippingPacketNumberGenerator rng initialPN SkipPacketInitialPeriod SkipPacketMaxPeriod)
     else Sequential (newSequentialPacketNumberGenerator initialPN))
    0 0 InvalidPacketNumber InvalidPacketNumber.

Definition set_history (x : sentPacketHistory) (s : packetNumberSpace) : packetNumberSpace :=
  mkSpace x (pns s) (lossTime s) (lastAckElicitingPacketTime s) (largestAcked s) (largestSent s).
Definition set_pns (x : packetNumberGenerator) (s : packetNumberSpace) : packetNumberSpace :=
  mkSpace (history s) x (lossTime s) (lastAckElicitingPacketTime s) (largestAcked s) (largestSent s).
Definition set_lossTime (x : Z) (s : packetNumberSpace) : packetNumberSpace :=
  mkSpace (history s) (pns s) x (lastAckElicitingPacketTime s) (largestAcked s) (largestSent s).
Definition set_lastTime (x : Z) (s : packetNumberSpace) : packetNumberSpace :=
  mkSpace (history s) (pns s) (lossTime s) x (largestAcked s) (largestSent s).
Definition set_largestAcked (x : Z) (s : packetNumberSpace) : packetNumberSpace :=
  mkSpace (history s) (pns s) (lossTime s) (lastAckElicitingPacketTime s) x (largestSent s).
Definition set_largestSent (x : Z) (s : packetNumberSpace) : packetNumberSpace :=
  mkSpace (history s) (pns s) (lossTime s) (lastAckElicitingPacketTime s) (largestAcked s) x.

(** The packet number spaces of Initial and Handshake packets are [None] once
    dropped; [log] collects the events, the latest first. *)
Record sentPacketHandler := mkSent {
  initialPackets : option packetNumberSpace;
  handshakePackets : option packetNumberSpace;
  appDataPackets : packetNumberSpace;
  peerCompletedAddressValidation : bool;
  bytesReceived : Z;
  bytesSent : Z;
  peerAddressValidated : bool;
  handshakeConfirmed : bool;
  lowestNotConfirmedAcked : Z;
  bytesInFlight : Z;
  rttStats : RTTStats;
  ptoCount : Z;
  ptoMode : SendMode;
  numProbesToSend : Z;
  alarm : Z;
  enableECN : bool;
  ecnTracker : option ecn.ecnTracker;
  perspective : Perspective;
  log : list event;
}.

Definition set_initialPackets (x : option packetNumberSpace) (h : sentPacketHandler) : sentPacketHandler :=
  mkSent x (handshakePackets h) (appDataPackets h) (peerCompletedAddressValidation h) (bytesReceived h)
    (bytesSent h) (peerAddressValidated h) (handshakeConfirmed h) (lowestNotConfirmedAcked h) (bytesInFlight h)
    (rttStats h) (ptoCount h) (ptoMode h) (numProbesToSend h) (alarm h) (enableECN h) (ecnTracker h) (perspective h)
    (log h).
Definition set_handshakePackets (x : option packetNumberSpace) (h : sentPacketHandler) : sentPacketHandler :=
  mkSent (initialPackets h) x (appDataPackets h) (peerCompletedAddressValidation h) (bytesReceived h) (bytesSent h)
    (peerAddressValidated h) (handshakeConfirmed h) (lowestNotConfirmedAcked h) (bytesInFlight h) (rttStats h)
    (ptoCount h) (ptoMode h) (numProbesToSend h) (alarm h) (enableECN h) (ecnTracker h) (perspective h) (log h).
Definition set_appDataPackets (x : packetNumberSpace) (h : sentPacketHandler) : sentPacketHandler :=
  mkSent (initialPackets h) (handshakePackets h) x (peerCompletedAddressValidation h) (bytesReceived h)
    (bytesSent h) (peerAddressValidated h) (handshakeConfirmed h) (lowestNotConfirmedAcked h) (bytesInFlight h)
    (rttStats h) (ptoCount h) (ptoMode h) (numProbesToSend h) (alarm h) (enableECN h) (ecnTracker h) (perspective h)
    (log h).
Definition set_peerCompletedAddressValidation (x : bool) (h : sentPacketHandler) : sentPacketHandler :=
  mkSent (initialPackets h) (handshakePackets h) (appDataPackets h) x (bytesReceived h) (bytesSent h)
    (peerAddressValidated h) (handshakeConfirmed h) (lowestNotConfirmedAcked h) (bytesInFlight h) (rttStats h)
    (ptoCount h) (ptoMode h) (numProbesToSend h) (alarm h) (enableECN h) (ecnTracker h) (perspective h) (log h).
Definition set_bytesReceived (x : Z) (h : sentPacketHandler) : sentPacketHandler :=
  mkSent (initialPackets h) (handshakePackets h) (appDataPackets h) (peerCompletedAddressValidation h) x
    (bytesSent h) (peerAddressValidated h) (handshakeConfirmed h) (lowestNotConfirmedAcked h) (bytesInFlight h)
    (rttStats h) (ptoCount h) (ptoMode h) (numProbesToSend h) (alarm h) (enableECN h) (ecnTracker h) (perspective h)
    (log h).
Definition set_bytesSent (x : Z) (h : sentPacketHandler) : sentPacketHandler :=
  mkSent (initialPackets h) (handshakePackets h) (appDataPackets h) (peerCompletedAddressValidation h)
    (bytesReceived h) x (peerAddressValidated h) (handshakeConfirmed h) (lowestNotConfirmedAcked h)
    (bytesInFlight h) (rttStats h) (ptoCount h) (ptoMode h) (numProbesToSend h) (alarm h) (enableECN h)
    (ecnTracker h) (perspective h) (log h).
Definition set_peerAddressValidated (x : bool) (h : sentPacketHandler) : sentPacketHandler :=
  mkSent (initialPackets h) (handshakePackets h) (appDataPackets h) (peerCompletedAddressValidation h)
    (bytesReceived h) (bytesSent h) x (handshakeConfirmed h) (lowestNotConfirmedAcked h) (bytesInFlight h)
    (rttStats h) (ptoCount h) (ptoMode h) (numProbesToSend h) (alarm h) (enableECN h) (ecnTracker h) (perspective h)
    (log h).
Definition set_handshakeConfirmed (x : bool) (h : sentPacketHandler) : sentPacketHandler :=
  mkSent (initialPackets h) (handshakePackets h) (appDataPackets h) (peerCompletedAddressValidation h)
    (bytesReceived h) (bytesSent h) (peerAddressValidated h) x (lowestNotConfirmedAcked h) (bytesInFlight h)
    (rttStats h) (ptoCount h) (ptoMode h) (numProbesToSend h) (alarm h) (enableECN h) (ecnTracker h) (perspective h)
    (log h).
Definition set_lowestNotConfirmedAcked (x : Z) (h : sentPacketHandler) : sentPacketHandler :=
  mkSent (initialPackets h) (handshakePackets h) (appDataPackets h) (peerCompletedAddressValidation h)
    (bytesReceived h) (bytesSent h) (peerAddressValidated h) (handshakeConfirmed h) x (bytesInFlight h) (rttStats h)
    (ptoCount h) (ptoMode h) (numProbesToSend h) (alarm h) (enableECN h) (ecnTracker h) (perspective h) (log h).
Definition set_bytesInFlight (x : Z) (h : sentPacketHandler) : sentPacketHandler :=
  mkSent (initialPackets h) (handshakePackets h) (appDataPackets h) (peerCompletedAddressValidation h)
    (bytesReceived h) (bytesSent h) (peerAddressValidated h) (handshakeConfirmed h) (lowestNotConfirmedAcked h) x
    (rttStats h) (ptoCount h) (ptoMode h) (numProbesToSend h) (alarm h) (enableECN h) (ecnTracker h) (perspective h)
    (log h).
Definition set_rttStats (x : RTTStats) (h : sentPacketHandler) : sentPacketHandler :=
  mkSent (initialPackets h) (handshakePackets h) (appDataPackets h) (peerCompletedAddressValidation h)
    (bytesReceived h) (bytesSent h) (peerAddressValidated h) (handshakeConfirmed h) (lowestNotConfirmedAcked h)
    (bytesInFlight h) x (ptoCount h) (ptoMode h) (numProbesToSend h) (alarm h) (enableECN h) (ecnTracker h)
    (perspective h) (log h).
Definition set_ptoCount (x : Z) (h : sentPacketHandler) : sentPacketHandler :=
  mkSent (initialPackets h) (handshakePackets h) (appDataPackets h) (peerCompletedAddressValidation h)
    (bytesReceived h) (bytesSent h) (peerAddressValidated h) (handshakeConfirmed h) (lowestNotConfirmedAcked h)
    (bytesInFlight h) (rttStats h) x (ptoMode h) (numProbesToSend h) (alarm h) (enableECN h) (ecnTracker h)
    (perspective h) (log h).
Definition set_ptoMode (x : SendMode) (h : sentPacketHandler) : sentPacketHandler :=
  mkSent (initialPackets h) (handshakePackets h) (appDataPackets h) (peerCompletedAddressValidation h)
    (bytesReceived h) (bytesSent h) (peerAddressValidated h) (handshakeConfirmed h) (lowestNotConfirmedAcked h)
    (bytesInFlight h) (rttStats h) (ptoCount h) x (numProbesToSend h) (alarm h) (enableECN h) (ecnTracker h)
    (perspective h) (log h).
Definition set_numProbesToSend (x : Z) (h : sentPacketHandler) : sentPacketHandler :=
  mkSent (initialPackets h) (handshakePackets h) (appDataPackets h) (peerCompletedAddressValidation h)
    (bytesReceived h) (bytesSent h) (peerAddressValidated h) (handshakeConfirmed h) (lowestNotConfirmedAcked h)
    (bytesInFlight h) (rttStats h) (ptoCount h) (ptoMode h) x (alarm h) (enableECN h) (ecnTracker h) (perspective h)
    (log h).
Definition set_alarm (x : Z) (h : sentPacketHandler) : sentPacketHandler :=
  mkSent (initialPackets h) (handshakePackets h) (appDataPackets h) (peerCompletedAddressValidation h)
    (bytesReceived h) (bytesSent h) (peerAddressValidated h) (handshakeConfirmed h) (lowestNotConfirmedAcked h)
    (bytesInFlight h) (rttStats h) (ptoCount h) (ptoMode h) (numProbesToSend h) x (enableECN h) (ecnTracker h)
    (perspective h) (log h).
Definition set_ecnTracker (x : option ecn.ecnTracker) (h : sentPacketHandler) : sentPacketHandler :=
  mkSent (initialPackets h) (handshakePackets h) (appDataPackets h) (peerCompletedAddressValidation h)
    (bytesReceived h) (bytesSent h) (peerAddressValidated h) (handshakeConfirmed h) (lowestNotConfirmedAcked h)
    (bytesInFlight h) (rttStats h) (ptoCount h) (ptoMode h) (numProbesToSend h) (alarm h) (enableECN h) x
    (perspective h) (log h).
Definition set_log (x : list event) (h : sentPacketHandler) : sentPacketHandler :=
  mkSent (initialPackets h) (handshakePackets h) (appDataPackets h) (peerCompletedAddressValidation h)
    (bytesReceived h) (bytesSent h) (peerAddressValidated h) (handshakeConfirmed h) (lowestNotConfirmedAcked h)
    (bytesInFlight h) (rttStats h) (ptoCount h) (ptoMode h) (numProbesToSend h) (alarm h) (enableECN h)
    (ecnTracker h) (perspective h) x.

Definition newSentPacketHandler (initialPN : Z) (stats : RTTStats) (clientAddressValidated enableECN : bool)
    (pers : Perspective) : sentPacketHandler :=
  mkSent (Some (newPacketNumberSpace initialPN false)) (Some (newPacketNumberSpace 0 false)) (newPacketNumberSpace 0 true)
    (bool_decide (pers = PerspectiveServer)) 0 0 (bool_decide (pers = PerspectiveClient) || clientAddressValidated)
    false 0 0 stats 0 SendNone 0 0 enableECN (if enableECN then Some ecn.newECNTracker else None) pers [].

Abbreviation M := (st sentPacketHandler).

Definition emit (e : event) : M () := st_modify (λ h, set_log (e :: log h) h).

(** ** Packet number spaces *)
Definition getPacketNumberSpace (encLevel : EncryptionLevel) (h : sentPacketHandler) : option packetNumberSpace :=
  match encLevel with
  | EncryptionInitial => initialPackets h
  | EncryptionHandshake => handshakePackets h
  | Encryption0RTT | Encryption1RTT => Some (appDataPackets h)
  end.

(** The space, whose methods dereference it. *)
Definition space (encLevel : EncryptionLevel) : M packetNumberSpace := λ h,
  match getPacketNumberSpace encLevel h with Some s => (Ok s, h) | None => (nil_deref, h) end.

Definition putSpace (encLevel : EncryptionLevel) (s : packetNumberSpace) (h : sentPacketHandler) : sentPacketHandler :=
  match encLevel with
  | EncryptionInitial => set_initialPackets (Some s) h
  | EncryptionHandshake => set_handshakePackets (Some s) h
  | Encryption0RTT | Encryption1RTT => set_appDataPackets s h
  end.

Definition modify_space (encLevel : EncryptionLevel) (f : packetNumberSpace → packetNumberSpace) : M () :=
  s ← space encLevel; st_modify (putSpace encLevel (f s)).

(** A method of the history of a space. *)
Definition on_history (encLevel : EncryptionLevel) (f : sentPacketHistory → res sentPacketHistory) : M () :=
  s ← space encLevel;
  hist ← st_lift (f (history s));
  st_modify (putSpace encLevel (set_history hist s)).

(** ** The loss detection timer *)
Definition timeThreshold : float64.t := float64.mkF 9 (-3).
Definition packetThreshold : Z := 3.
Definition amplificationFactor : Z := 3.
Definition minRTTAfterRetry : Z := 5 * Millisecond.
Definition maxPTODuration : Z := 60 * 1000 * Millisecond.

Definition hasOutstanding (s : option packetNumberSpace) : bool :=
  match s with Some s => HasOutstandingPackets (history s) | None => false end.

Definition hasOutstandingCryptoPackets (h : sentPacketHandler) : bool :=
  hasOutstanding (initialPackets h) || hasOutstanding (handshakePackets h).

Definition hasOutstandingPackets (h : sentPacketHandler) : bool :=
  hasOutstanding (Some (appDataPackets h)) || hasOutstandingCryptoPackets h.

Definition isAmplificationLimited (h : sentPacketHandler) : bool :=
  if peerAddressValidated h then false else amplificationFactor * bytesReceived h <=? bytesSent h.

Definition getLossTimeAndSpace (h : sentPacketHandler) : Z * EncryptionLevel :=
  let '(t, lvl) := match initialPackets h with Some s => (lossTime s, EncryptionInitial) | None => (0, EncryptionInitial) end in
  let '(t, lvl) := match handshakePackets h with
    | Some s => if (t =? 0) || (negb (lossTime s =? 0) && (lossTime s <? t)) then (lossTime s, EncryptionHandshake) else (t, lvl)
    | None => (t, lvl)
    end in
  let a := lossTime (appDataPackets h) in
  if (t =? 0) || (negb (a =? 0) && (a <? t)) then (a, Encryption1RTT) else (t, lvl).

(** [pto << ptoCount] on an int64. *)
Definition getScaledPTO (includeMaxAckDelay : bool) (h : sentPacketHandler) : Z :=
  let pto := i64 (Z.shiftl (PTO includeMaxAckDelay (rttStats h)) (ptoCount h)) in
  if (maxPTODuration <? pto) || (pto <=? 0) then maxPTODuration else pto.

Definition getPTOTimeAndSpace (now : Z) (h : sentPacketHandler) : option (Z * EncryptionLevel) :=
  if negb (handshakeConfirmed h) && negb (hasOutstandingCryptoPackets h) then
    if peerCompletedAddressValidation h then None else
    let t := now + getScaledPTO false h in
    Some (t, match initialPackets h with Some _ => EncryptionInitial | None => EncryptionHandshake end)
  else
    let '(pto, lvl) := match initialPackets h with
      | Some s => (if lastAckElicitingPacketTime s =? 0 then 0 else lastAckElicitingPacketTime s + getScaledPTO false h, EncryptionInitial)
      | None => (0, EncryptionInitial)
      end in
    let '(pto, lvl) := match handshakePackets h with
      | Some s =>
          if lastAckElicitingPacketTime s =? 0 then (pto, lvl) else
          let t := lastAckElicitingPacketTime s + getScaledPTO false h in
          if (pto =? 0) || (negb (t =? 0) && (t <? pto)) then (t, EncryptionHandshake) else (pto, lvl)
      | None => (pto, lvl)
      end in
    let s := appDataPackets h in
    if handshakeConfirmed h && negb (lastAckElicitingPacketTime s =? 0) then
      let t := lastAckElicitingPacketTime s + getScaledPTO true h in
      if (pto =? 0) || (negb (t =? 0) && (t <? pto)) then Some (t, Encryption1RTT) else Some (pto, lvl)
    else Some (pto, lvl).

Definition setLossDetectionTimer (now : Z) (h : sentPacketHandler) : sentPacketHandler :=
  let lossTime := (getLossTimeAndSpace h).1 in
  if negb (lossTime =? 0) then set_alarm lossTime h else
  if isAmplificationLimited h then set_alarm 0 h else
  if negb (hasOutstandingPackets h) && peerCompletedAddressValidation h then set_alarm 0 h else
  match getPTOTimeAndSpace now h with
  | None => set_alarm 0 h
  | Some (t, _) => set_alarm t h
  end.

Definition timer (now : Z) : M () := st_modify (setLossDetectionTimer now).

Definition ReceivedBytes (now n : Z) (h : sentPacketHandler) : sentPacketHandler :=
  let was := isAmplificationLimited h in
  let h := set_bytesReceived (bytesReceived h + n) h in
  if was && negb (isAmplificationLimited h) then setLossDetectionTimer now h else h.

Definition ReceivedPacket (now : Z) (l : EncryptionLevel) (h : sentPacketHandler) : sentPacketHandler :=
  if bool_decide (perspective h = PerspectiveServer) && bool_decide (l = EncryptionHandshake) && negb (peerAddressValidated h)
  then setLossDetectionTimer now (set_peerAddressValidated true h) else h.

(** ** Packets leave the history *)
Definition removeFromBytesInFlight (p : packet) : M () := λ h,
  if includedInBytesInFlight p then
    if bytesInFlight h <? p_Length p then (Panic "negative bytes_in_flight", h)
    else (Ok tt, set_bytesInFlight (bytesInFlight h - p_Length p) h)
  else (Ok tt, h).

Definition notify (e : F → event) (fs : list (Frame F)) : M () :=
  st_iter (λ f, if frame_Handler f then emit (e (frame_Frame f)) else mret tt) fs.

Definition queueFramesForRetransmission (p : packet) : M () :=
  if (blen (Frames p) =? 0) && (blen (StreamFrames p) =? 0) then st_panic "no frames" else
  _ ← notify OnLost (Frames p); notify OnLost (StreamFrames p).

(** One packet of the loop of [detectLostPackets]: whether to go on. *)
Definition detectLost_step (encLevel : EncryptionLevel) (lossDelay lostSendTime priorInFlight : Z) (p : packet) : M bool :=
  s ← space encLevel;
  if largestAcked s <? PacketNumber p then mret false else
  if (SendTime p <? lostSendTime) || (PacketNumber p + packetThreshold <=? largestAcked s) then
    _ ← on_history encLevel (DeclareLost (PacketNumber p));
    if skippedPacket p then mret true else
    _ ← removeFromBytesInFlight p;
    _ ← queueFramesForRetransmission p;
    _ ← (if IsPathMTUProbePacket p then mret tt else emit (OnCongestionEvent (PacketNumber p) (p_Length p) priorInFlight));
    _ ← (if bool_decide (encLevel = Encryption1RTT)
         then st_modify (λ h, set_ecnTracker (ecn.LostPacket (PacketNumber p) <$> ecnTracker h) h) else mret tt);
    mret true
  else
    _ ← (if lossTime s =? 0 then modify_space encLevel (set_lossTime (SendTime p + lossDelay)) else mret tt);
    mret true.

Fixpoint detectLost_loop (encLevel : EncryptionLevel) (lossDelay lostSendTime priorInFlight : Z) (ps : list packet) : M () :=
  match ps with
  | [] => mret tt
  | p :: ps =>
      (detectLost_step encLevel lossDelay lostSendTime priorInFlight p) ≫= λ cont : bool,
      if cont then detectLost_loop encLevel lossDelay lostSendTime priorInFlight ps else mret tt
  end.

Definition lossDelay (r : RTTStats) : Z :=
  let maxRTT := float64.of_int (Z.max (latestRTT r) (smoothedRTT r)) in
  Z.max (float64.to_int (float64.mul timeThreshold maxRTT)) TimerGranularity.

Definition detectLostPackets (now : Z) (encLevel : EncryptionLevel) : M () :=
  _ ← modify_space encLevel (set_lossTime 0);
  s ← space encLevel;
  h ← st_get;
  let delay := lossDelay (rttStats h) in
  detectLost_loop encLevel delay (now - delay) (bytesInFlight h) (contents (packets (history s))).

(** ** Acknowledgements *)

(** [for p.PacketNumber > ackRange.Largest && ackRangeIndex < len(ack.AckRanges)-1]:
    the ranges from the lowest on. *)
Fixpoint nextRange (ranges : list AckRange) (pn : Z) : list AckRange :=
  match ranges with
  | [] => []
  | r :: rs => match rs with
               | [] => ranges
               | _ => if Largest r <? pn then nextRange rs pn else ranges
               end
  end.

(** The packets an ACK frame acknowledges: the callback of [Iterate] over the
    packets, with the ranges from [ackRangeIndex] on. *)
Fixpoint acked_loop (missing : bool) (lowest largest : Z) (ranges : list AckRange) (ps : list packet) (acc : list packet)
    : list packet * option go_error :=
  match ps with
  | [] => (acc, None)
  | p :: ps =>
      if PacketNumber p <? lowest then acked_loop missing lowest largest ranges ps acc else
      if largest <? PacketNumber p then (acc, None) else
      let ranges := if missing then nextRange ranges (PacketNumber p) else ranges in
      let r := default (mkAckRange 0 0) (head ranges) in
      if missing && (PacketNumber p <? Smallest r) then acked_loop missing lowest largest ranges ps acc else
      if missing && (Largest r <? PacketNumber p) then (acc, Some (ErrMsg "BUG: ackhandler would have acked wrong packet")) else
      if skippedPacket p
      then (acc, Some (TransportError ProtocolViolation 0 (ErrMsg "received an ACK for skipped packet number")))
      else acked_loop missing lowest largest ranges ps (acc ++ [p])
  end.

Definition removeAcked (encLevel : EncryptionLevel) (p : packet) : M () :=
  _ ← (if negb (p_LargestAcked p =? InvalidPacketNumber) && bool_decide (encLevel = Encryption1RTT)
       then st_modify (λ h, set_lowestNotConfirmedAcked (Z.max (lowestNotConfirmedAcked h) (p_LargestAcked p + 1)) h)
       else mret tt);
  _ ← notify OnAcked (Frames p);
  _ ← notify OnAcked (StreamFrames p);
  on_history encLevel (Remove (PacketNumber p)).

Definition detectAndRemoveAckedPackets (ack : AckFrame) (encLevel : EncryptionLevel) : M (list packet) :=
  s ← space encLevel;
  lowest ← st_lift (LowestAcked ack);
  largest ← st_lift (LargestAcked ack);
  let '(acked, err) := acked_loop (HasMissingRanges ack) lowest largest (rev (AckRanges ack)) (contents (packets (history s))) [] in
  _ ← st_iter (removeAcked encLevel) acked;
  match err with None => mret acked | Some e => st_fail e end.

Definition time_Sub (t u : Z) : Z := Z.max (- 2 ^ 63) (Z.min (2 ^ 63 - 1) (t - u)).

(** The acknowledged packets leave the bytes in flight. *)
Definition ackedPacket (priorInFlight rcvTime : Z) (p : packet) : M () :=
  _ ← (if includedInBytesInFlight p && negb (declaredLost p)
       then emit (OnPacketAcked (PacketNumber p) (p_Length p) priorInFlight rcvTime) else mret tt);
  removeFromBytesInFlight p.

Definition updateRTT (ack : AckFrame) (encLevel : EncryptionLevel) (rcvTime largest : Z) (p : packet) : M () :=
  if PacketNumber p =? largest then
    _ ← st_modify (λ h,
      let ackDelay := if bool_decide (encLevel = Encryption1RTT) then Z.min (DelayTime ack) (maxAckDelay (rttStats h)) else 0 in
      set_rttStats (UpdateRTT (time_Sub rcvTime (SendTime p)) ackDelay (rttStats h)) h);
    emit MaybeExitSlowStart
  else mret tt.

Definition updateECN (ack : AckFrame) (largest priorInFlight : Z) (acked : list packet) : M () :=
  h ← st_get;
  match ecnTracker h with
  | Some e =>
      let '(congested, e) := ecn.HandleNewlyAcked (map PacketNumber acked) (i64 (ECT0 ack)) (i64 (ECT1 ack)) (i64 (ECNCE ack)) e in
      _ ← st_modify (set_ecnTracker (Some e));
      if congested then emit (OnCongestionEvent largest 0 priorInFlight) else mret tt
  | None => mret tt
  end.

(** Returns whether a 1-RTT packet was acknowledged. *)
Definition ReceivedAck (now : Z) (ack : AckFrame) (encLevel : EncryptionLevel) (rcvTime : Z) : M bool :=
  s ← space encLevel;
  largest ← st_lift (LargestAcked ack);
  if largestSent s <? largest
  then st_fail (TransportError ProtocolViolation 0 (ErrMsg "received ACK for an unsent packet")) else
  h ← st_get;
  _ ← (if bool_decide (perspective h = PerspectiveClient) && negb (peerCompletedAddressValidation h) &&
          (bool_decide (encLevel = EncryptionHandshake) || bool_decide (encLevel = Encryption1RTT))
       then st_modify (λ h, setLossDetectionTimer now (set_peerCompletedAddressValidation true h)) else mret tt);
  let priorInFlight := bytesInFlight h in
  acked ← detectAndRemoveAckedPackets ack encLevel;
  match last acked with
  | None => mret false
  | Some p =>
      _ ← updateRTT ack encLevel rcvTime largest p;
      _ ← (if bool_decide (encLevel = Encryption1RTT) && (largestAcked s <? largest)
           then updateECN ack largest priorInFlight acked else mret tt);
      _ ← modify_space encLevel (λ s, set_largestAcked (Z.max (largestAcked s) largest) s);
      _ ← detectLostPackets rcvTime encLevel;
      _ ← st_iter (ackedPacket priorInFlight rcvTime) acked;
      _ ← st_modify (λ h, set_numProbesToSend 0 (if peerCompletedAddressValidation h then set_ptoCount 0 h else h));
      _ ← timer now;
      mret (existsb (λ p, bool_decide (p_EncryptionLevel p = Encryption1RTT)) acked)
  end.

Definition GetLowestPacketNotConfirmedAcked (h : sentPacketHandler) : Z := lowestNotConfirmedAcked h.

(** ** Sending *)
Definition SentPacket (now t pn largestAckedPN : Z) (streamFrames frames : list (Frame F)) (encLevel : EncryptionLevel) (ecn : ECN)
    (size : Z) (isPathMTUProbePacket : bool) : M () :=
  _ ← st_modify (λ h, set_bytesSent (bytesSent h + size) h);
  let isAckEliciting := (0 <? blen streamFrames) || (0 <? blen frames) in
  _ ← modify_space encLevel (set_largestSent pn);
  _ ← (if isAckEliciting then
         _ ← modify_space encLevel (set_lastTime t);
         st_modify (λ h,
           let h := set_bytesInFlight (bytesInFlight h + size) h in
           if 0 <? numProbesToSend h then set_numProbesToSend (numProbesToSend h - 1) h else h)
       else mret tt);
  h ← st_get;
  _ ← emit (OnPacketSent t (bytesInFlight h) pn size isAckEliciting);
  _ ← (match ecnTracker h with
       | Some e => if bool_decide (encLevel = Encryption1RTT)
                   then e ← st_lift (ecn.SentPacket pn ecn e); st_modify (set_ecnTracker (Some e)) else mret tt
       | None => mret tt
       end);
  if negb isAckEliciting then
    _ ← on_history encLevel (SentNonAckElicitingPacket pn);
    if peerCompletedAddressValidation h then mret tt else timer now
  else
    _ ← on_history encLevel (SentAckElicitingPacket
          (mkPacket t pn streamFrames frames largestAckedPN size encLevel isPathMTUProbePacket true false false));
    timer now.

Definition PeekPacketNumber (encLevel : EncryptionLevel) : M (Z * Z) :=
  s ← space encLevel;
  let pn := pns_Peek (pns s) in
  mret (pn, GetPacketNumberLengthForHeader pn (largestAcked s)).

Definition PopPacketNumber (encLevel : EncryptionLevel) : M Z :=
  s ← space encLevel;
  let '(skipped, pn, g) := pns_Pop (pns s) in
  _ ← st_modify (putSpace encLevel (set_pns g s));
  _ ← (if skipped : bool then on_history encLevel (SkippedPacket (pn - 1)) else mret tt);
  mret pn.

(** The mark of the next packet. *)
Definition ECNMode (isShortHeaderPacket : bool) : M ECN := λ h,
  if negb (enableECN h) then (Ok ECNUnsupported, h) else
  if negb isShortHeaderPacket then (Ok ECNNon, h) else
  match ecnTracker h with
  | Some e => let '(m, e) := ecn.Mode e in (Ok m, set_ecnTracker (Some e) h)
  | None => (nil_deref, h)
  end.

Definition MaxOutstandingSentPackets : Z := 2 * 10000.
Definition MaxTrackedSentPackets : Z := Z.quot (MaxOutstandingSentPackets * 5) 4.

Definition tracked (s : option packetNumberSpace) : Z :=
  match s with Some s => Len (history s) | None => 0 end.

(** What may be sent; the congestion controller's answers are arguments. *)
Definition get_SendMode (CanSend : Z → bool) (HasPacingBudget : bool) (h : sentPacketHandler) : SendMode :=
  let numTrackedPackets := tracked (Some (appDataPackets h)) + tracked (initialPackets h) + tracked (handshakePackets h) in
  if isAmplificationLimited h then SendNone else
  if MaxTrackedSentPackets <=? numTrackedPackets then SendNone else
  if 0 <? numProbesToSend h then ptoMode h else
  if negb (CanSend (bytesInFlight h)) then SendAck else
  if MaxOutstandingSentPackets <=? numTrackedPackets then SendAck else
  if negb HasPacingBudget then SendPacingLimited else SendAny.

(** ** Timeouts and probes *)
Definition QueueProbePacket (encLevel : EncryptionLevel) : M bool :=
  s ← space encLevel;
  match FirstOutstanding (history s) with
  | None => mret false
  | Some p =>
      _ ← queueFramesForRetransmission p;
      _ ← removeFromBytesInFlight p;
      _ ← on_history encLevel (DeclareLost (PacketNumber p));
      mret true
  end.

(** The body of [OnLossDetectionTimeout], before the deferred [setLossDetectionTimer]. *)
Definition lossDetectionTimeout (now : Z) : M () := λ h,
  let '(earliestLossTime, lvl) := getLossTimeAndSpace h in
  if negb (earliestLossTime =? 0) then detectLostPackets now lvl h else
  if (bytesInFlight h =? 0) && negb (peerCompletedAddressValidation h) then
    let h := set_numProbesToSend (numProbesToSend h + 1) (set_ptoCount (u32 (ptoCount h + 1)) h) in
    match initialPackets h, handshakePackets h with
    | Some _, _ => (Ok tt, set_ptoMode SendPTOInitial h)
    | None, Some _ => (Ok tt, set_ptoMode SendPTOHandshake h)
    | None, None => (Err (ErrMsg "sentPacketHandler BUG: PTO fired, but bytes_in_flight is 0 and Initial and Handshake already dropped"), h)
    end
  else
  match getPTOTimeAndSpace now h with
  | None => (Ok tt, h)
  | Some (_, lvl) =>
      (s ← space lvl;
       if negb (HasOutstandingPackets (history s)) && negb (peerCompletedAddressValidation h) then mret tt else
       _ ← st_modify (λ h, set_numProbesToSend (numProbesToSend h + 2) (set_ptoCount (u32 (ptoCount h + 1)) h));
       match lvl with
       | EncryptionInitial => st_modify (set_ptoMode SendPTOInitial)
       | EncryptionHandshake => st_modify (set_ptoMode SendPTOHandshake)
       | Encryption1RTT =>
           pn ← PopPacketNumber Encryption1RTT;
           _ ← on_history Encryption1RTT (SkippedPacket pn);
           st_modify (set_ptoMode SendPTOAppData)
       | Encryption0RTT => st_fail (ErrMsg "PTO timer in unexpected encryption level")
       end) h
  end.

Definition OnLossDetectionTimeout (now : Z) : M () := λ h,
  let '(r, h) := lossDetectionTimeout now h in (r, setLossDetectionTimer now h).

(** ** Keys are dropped, 0-RTT is rejected, a Retry is received *)
Fixpoint drop0RTT_loop (ps : list packet) : M () :=
  match ps with
  | [] => mret tt
  | p :: ps =>
      if negb (bool_decide (p_EncryptionLevel p = Encryption0RTT)) && negb (skippedPacket p) then mret tt else
      _ ← removeFromBytesInFlight p;
      _ ← on_history Encryption0RTT (λ hist, match Remove (PacketNumber p) hist with Err _ => Ok hist | r => r end);
      drop0RTT_loop ps
  end.

Definition DropPackets (now : Z) (encLevel : EncryptionLevel) : M () := λ h,
  let h := if bool_decide (perspective h = PerspectiveClient) && bool_decide (encLevel = EncryptionHandshake)
           then set_peerCompletedAddressValidation true h else h in
  let finish : M () := st_modify (λ h,
    setLossDetectionTimer now (set_ptoMode SendNone (set_numProbesToSend 0 (set_ptoCount 0 h)))) in
  match encLevel with
  | EncryptionInitial =>
      match initialPackets h with
      | None => (Ok tt, h)
      | Some s => (_ ← st_iter removeFromBytesInFlight (contents (packets (history s)));
                   _ ← st_modify (set_initialPackets None); finish) h
      end
  | EncryptionHandshake =>
      match handshakePackets h with
      | None => (Ok tt, h)
      | Some s => (_ ← st_iter removeFromBytesInFlight (contents (packets (history s)));
                   _ ← st_modify (set_handshakePackets None); finish) h
      end
  | Encryption0RTT => (_ ← drop0RTT_loop (contents (packets (history (appDataPackets h)))); finish) h
  | Encryption1RTT => (Panic "Cannot drop keys for encryption level", h)
  end.

Definition requeue (p : packet) : M () :=
  if declaredLost p || skippedPacket p then mret tt else queueFramesForRetransmission p.

Definition ResetForRetry (now : Z) : M () :=
  _ ← st_modify (set_bytesInFlight 0);
  s ← space EncryptionInitial;
  let first := default 0 (SendTime <$> find (λ p, negb (SendTime p =? 0)) (contents (packets (history s)))) in
  _ ← st_iter requeue (contents (packets (history s)));
  a ← space Encryption0RTT;
  _ ← st_iter requeue (contents (packets (history a)));
  st_modify (λ h,
    let h := if ptoCount h =? 0
             then set_rttStats (UpdateRTT (Z.max minRTTAfterRetry (time_Sub now first)) 0 (rttStats h)) h else h in
    let h := set_initialPackets (Some (newPacketNumberSpace (pns_Peek (pns s)) false)) h in
    let h := set_appDataPackets (newPacketNumberSpace (pns_Peek (pns a)) true) h in
    set_ptoCount 0 (set_alarm 0 h)).

Definition SetHandshakeConfirmed (now : Z) : M () := λ h,
  match initialPackets h, handshakePackets h with
  | Some _, _ => (Panic "didn't drop initial correctly", h)
  | None, Some _ => (Panic "didn't drop handshake correctly", h)
  | None, None => (Ok tt, setLossDetectionTimer now (set_handshakeConfirmed true h))
  end.
End handler.

End sentHandler.
