(* ===== verification/SentLedger.v ===== *)
(** The books of the sent packet handler: which packets an ACK acknowledges,
    that no frame is lost from the books or reported twice, and that the bytes
    in flight are those of the packets in the history. *)

From S2P Require Import Prelude.
From S2P Require Import Protocol.
From S2P Require Import AckFrame.
From S2P Require Import SentHistory.
From S2P Require Import Ecn.
From S2P Require Import SentHandler.

Module sentLedger.
Import protocol rtt ack sentHistory sentHandler.

Section ledger.
Context {F : Type} (rng : nat → Z → Z).

Abbreviation packet := (@packet F) (only parsing).
Abbreviation handler := (@sentPacketHandler F) (only parsing).

(** * The packets an ACK frame acknowledges *)

Fixpoint asc (rs : list AckRange) : Prop :=
  match rs with
  | [] => True
  | r :: rs => Smallest r ≤ Largest r ∧ Forall (λ r', Largest r + 1 < Smallest r') rs ∧ asc rs
  end.

Lemma asc_app rs r : asc rs → Smallest r ≤ Largest r → Forall (λ r', Largest r' + 1 < Smallest r) rs → asc (rs ++ [r]).
Proof.
  induction rs as [|x rs IH]; intros Ha Hr Hf; simpl in *; [done|].
  destruct Ha as (H1 & H2 & H3). apply Forall_cons in Hf as [Hx Hf]. split_and!; [done| |by apply IH].
  apply Forall_app. split; [done|]. by repeat constructor.
Qed.

Lemma asc_rev l : ranges_valid l → asc (rev l).
Proof.
  induction 1 as [|r l Hok Hgt Hv IH]; simpl; [done|]. apply asc_app; [done|done|].
  apply Forall_rev. eapply Forall_impl; [exact Hgt|]. done.
Qed.

Definition acks (rs : list AckRange) (pn : Z) : bool := existsb (in_range pn) rs.

Lemma acks_false rs pn : Forall (λ r, pn < Smallest r ∨ Largest r < pn) rs → acks rs pn = false.
Proof. induction 1 as [|r rs Hr Hf IH]; [done|]. unfold acks in *. simpl. rewrite IH. unfold in_range. lia. Qed.

(** Moving on to the range of a packet number. *)
Lemma nextRange_spec rs pn r rs' : asc rs → nextRange rs pn = r :: rs' →
  asc (r :: rs') ∧ (∀ q, pn ≤ q → acks rs q = acks (r :: rs') q) ∧
  (pn ≤ Largest r ∨ rs' = []) ∧ last rs = last (r :: rs').
Proof.
  revert r rs'. induction rs as [|x rs IH]; intros r rs' Ha Hn; [done|]. pose proof Ha as (H1 & H2 & H3).
  destruct rs as [|y rs]; [injection Hn as <- <-; repeat split; [done|done|by right]|]. cbn [nextRange] in Hn.
  destruct (Z.ltb_spec (Largest x) pn) as [Hlt|Hge].
  - destruct (IH r rs' H3 Hn) as (Ha' & Hq & Hor & Hl). split; [exact Ha'|]. split; [|split; [exact Hor|exact Hl]].
    intros q Hpn. rewrite <- Hq by lia. unfold acks. simpl. unfold in_range at 1.
    rewrite (proj2 (Z.leb_gt q (Largest x))) by lia. by rewrite andb_false_r.
  - injection Hn as <- <-. split; [exact Ha|]. split; [done|]. split; [left; lia|done].
Qed.

Lemma nextRange_nonempty rs pn : rs ≠ [] → ∃ r rs', nextRange rs pn = r :: rs'.
Proof.
  induction rs as [|x rs IH]; [done|]. intros _. simpl. destruct rs as [|y rs]; [by eexists _, _|].
  destruct (_ <? _); [by apply IH|by eexists _, _].
Qed.

Lemma acks_head r rs pn : asc (r :: rs) → pn ≤ Largest r → acks (r :: rs) pn = (Smallest r <=? pn).
Proof.
  intros (H1 & H2 & H3) Hpn. unfold acks. simpl. fold (acks rs pn). rewrite acks_false.
  - unfold in_range. rewrite (proj2 (Z.leb_le pn (Largest r))) by lia. by rewrite andb_true_r, orb_false_r.
  - eapply Forall_impl; [exact H2|]. simpl. lia.
Qed.

Fixpoint ascending (ps : list packet) : Prop :=
  match ps with
  | [] => True
  | p :: ps => Forall (λ q, PacketNumber p < PacketNumber q) ps ∧ ascending ps
  end.

Definition acked_by (rs : list AckRange) (ps : list packet) : list packet := filter (λ p, acks rs (PacketNumber p)) ps.

Lemma acked_by_none rs ps : Forall (λ p, acks rs (PacketNumber p) = false) ps → acked_by rs ps = [].
Proof. induction 1 as [|p ps Hp Hf IH]; [done|]. unfold acked_by in *. rewrite filter_cons, Hp. done. Qed.

(** Ranges are passed once, while the packet numbers increase. *)
Lemma acked_loop_spec missing lowest largest rs0 rs ps acc : asc rs → rs ≠ [] → ascending ps →
  (∀ p, p ∈ ps → acks rs0 (PacketNumber p) = (lowest <=? PacketNumber p) && (PacketNumber p <=? largest) && acks rs (PacketNumber p)) →
  (∀ r, last rs = Some r → Largest r = largest) → (missing = false → ∃ r, rs = [r] ∧ Smallest r = lowest ∧ Largest r = largest) →
  ∃ l err, acked_loop missing lowest largest rs ps acc = (acc ++ l, err) ∧
    l `prefix_of` acked_by rs0 ps ∧ Forall (λ p, skippedPacket p = false) l ∧
    (err = None → l = acked_by rs0 ps) ∧
    (∀ e, err = Some e → e = TransportError ProtocolViolation 0 (ErrMsg "received an ACK for skipped packet number") ∧
      ∃ p, p ∈ acked_by rs0 ps ∧ skippedPacket p = true).
Proof.
  revert rs acc. induction ps as [|p ps IH]; intros rs acc Ha Hne Hasc Hrs Hlast Hm.
  { exists [], None. rewrite app_nil_r. by split_and!; [|apply prefix_nil|constructor| |]. }
  simpl. destruct Hasc as [Hlt Hasc]. pose proof (Hrs p ltac:(set_solver)) as Hp.
  assert (Hin : ∀ q, q ∈ ps → q ∈ p :: ps) by set_solver.
  assert (Hskip : acks rs0 (PacketNumber p) = false → acked_by rs0 (p :: ps) = acked_by rs0 ps).
  { intros E. unfold acked_by. rewrite filter_cons. by rewrite E. }
  destruct (Z.ltb_spec (PacketNumber p) lowest) as [Hlow|Hlow].
  { rewrite Hskip by (rewrite Hp; lia). apply IH; try done. intros q Hq. by apply Hrs, Hin. }
  destruct (Z.ltb_spec largest (PacketNumber p)) as [Hhi|Hhi].
  { exists [], None. rewrite app_nil_r. split_and!; [done|apply prefix_nil|constructor| |done]. intros _.
    symmetry. apply acked_by_none. apply Forall_forall. intros q Hq.
    rewrite (Hrs q Hq). apply elem_of_cons in Hq as [->|Hq]; [lia|]. rewrite Forall_forall in Hlt. specialize (Hlt q Hq). lia. }
  assert (∃ rs1 r rs', (if missing then nextRange rs (PacketNumber p) else rs) = rs1 ∧ rs1 = r :: rs' ∧ asc rs1 ∧
    (∀ q, PacketNumber p ≤ q → acks rs q = acks rs1 q) ∧ PacketNumber p ≤ Largest r ∧ last rs1 = last rs ∧
    (missing = false → rs1 = rs)) as (rs1 & r & rs' & -> & Hr & Ha1 & Hq & Hle & Hl & Hmf).
  { destruct missing.
    - destruct (nextRange_nonempty rs (PacketNumber p) Hne) as (r & rs' & Hn).
      destruct (nextRange_spec _ _ _ _ Ha Hn) as (Ha' & Hq & Hor & Hl). exists (r :: rs'), r, rs'. split_and!; try done.
      destruct Hor as [?| ->]; [done|]. rewrite (Hlast r Hl). done.
    - destruct (Hm eq_refl) as (r & -> & H1 & H2). exists [r], r, []. split_and!; try done. lia. }
  subst rs1. simpl. rewrite (Hq _ (Z.le_refl _)), acks_head in Hp by done.
  rewrite (proj2 (Z.leb_le lowest _)), (proj2 (Z.leb_le _ largest)) in Hp by lia. simpl in Hp.
  assert (Hrec : ∀ acc, ∃ l err, acked_loop missing lowest largest (r :: rs') ps acc = (acc ++ l, err) ∧
    l `prefix_of` acked_by rs0 ps ∧ Forall (λ p, skippedPacket p = false) l ∧
    (err = None → l = acked_by rs0 ps) ∧
    (∀ e, err = Some e → e = TransportError ProtocolViolation 0 (ErrMsg "received an ACK for skipped packet number") ∧
      ∃ p, p ∈ acked_by rs0 ps ∧ skippedPacket p = true)).
  { intros acc'. apply IH; try done.
    - intros q Hqin. rewrite (Hrs q (Hin q Hqin)). f_equal. apply Hq. rewrite Forall_forall in Hlt. specialize (Hlt q Hqin). lia.
    - intros x Hx. apply Hlast. by rewrite <- Hl.
    - intros Hf. rewrite (Hmf Hf). by apply Hm. }
  assert (Hsm : missing = false → Smallest r ≤ PacketNumber p).
  { intros Hf. destruct (Hm Hf) as (r0 & Hr0 & Hs & _). specialize (Hmf Hf). rewrite Hr0 in Hmf. injection Hmf as -> _. lia. }
  destruct (missing && (PacketNumber p <? Smallest r)) eqn:E1.
  { rewrite Hskip by (rewrite Hp; apply andb_true_iff in E1 as [_ E1]; lia). apply Hrec. }
  rewrite (proj2 (Z.ltb_ge (Largest r) _)) by lia. rewrite andb_false_r.
  assert (Hack : acks rs0 (PacketNumber p) = true).
  { rewrite Hp. apply Z.leb_le. destruct missing; [apply andb_false_iff in E1 as [?|?]; [done|lia]|by apply Hsm]. }
  assert (Hcons : acked_by rs0 (p :: ps) = p :: acked_by rs0 ps).
  { unfold acked_by. rewrite filter_cons. by rewrite Hack. }
  rewrite Hcons. destruct (skippedPacket p) eqn:Hs.
  - exists [], (Some (TransportError ProtocolViolation 0 (ErrMsg "received an ACK for skipped packet number"))).
    rewrite app_nil_r. split_and!; [done|apply prefix_nil|constructor|done|]. intros e [= <-]. split; [done|].
    exists p. split; [set_solver|done].
  - destruct (Hrec (acc ++ [p])) as (l & err & -> & Hpre & Hf & Hn & Hs'). exists (p :: l), err. rewrite <- app_assoc.
    split_and!; [done|by apply prefix_cons|by constructor|by intros He; rewrite (Hn He)|].
    + intros e He. destruct (Hs' e He) as (? & q & Hq' & ?). split; [done|]. exists q. split; [set_solver|done].
Qed.

(** * The ledger *)

Lemma numbered_ascending first (l : list (option packet)) : numbered first l →
  ascending (contents l) ∧ Forall (λ p, first ≤ PacketNumber p) (contents l).
Proof.
  revert first. induction l as [|x l IH]; intros first Hn; simpl; [by split|].
  destruct (IH (first + 1)) as [H1 H2].
  { intros i p Hi. rewrite (Hn (S i) p Hi). lia. }
  assert (Forall (λ p, first ≤ PacketNumber p) (contents l)) by (eapply Forall_impl; [exact H2|]; simpl; lia).
  destruct x as [p|]; [|done]. pose proof (Hn 0%nat p eq_refl) as Hp. simpl. split; [split; [|done]|constructor; [lia|done]].
  eapply Forall_impl; [exact H2|]. simpl. lia.
Qed.

Lemma history_ascending h : history_ok h → ascending (contents (packets h)).
Proof.
  intros [_ [->|(p & l & _ & Hn & _)]]; [done|]. by eapply numbered_ascending.
Qed.

Lemma ascending_NoDup ps : ascending ps → NoDup ps.
Proof.
  induction ps as [|p ps IH]; [constructor|]. intros [Hf Ha]. constructor; [|by apply IH].
  intros Hin. rewrite Forall_forall in Hf. specialize (Hf p Hin). lia.
Qed.

(** Frames with a handler; the frames and the bytes of packets. *)
Definition handled (fs : list (Frame F)) : list F :=
  flat_map (λ f, if frame_Handler f then [frame_Frame f] else []) fs.
Definition frames (p : packet) : list F := handled (Frames p) ++ handled (StreamFrames p).
Definition frames_of (ps : list packet) : list F := flat_map frames ps.

Definition bytes_in_flight (p : packet) : Z := if includedInBytesInFlight p then p_Length p else 0.
Definition bytes_of (ps : list packet) : Z := foldr (λ p z, bytes_in_flight p + z) 0 ps.

Definition acked_frames (l : list event) : list F := flat_map (λ e, match e with OnAcked f => [f] | _ => [] end) l.
Definition lost_frames (l : list event) : list F := flat_map (λ e, match e with OnLost f => [f] | _ => [] end) l.

Definition packet_ok (p : packet) : Prop :=
  if skippedPacket p then frames p = [] ∧ includedInBytesInFlight p = false
  else includedInBytesInFlight p = true ∧ declaredLost p = false ∧ 0 ≤ p_Length p ∧
       (blen (Frames p) =? 0) && (blen (StreamFrames p) =? 0) = false.

Definition pns_next (g : packetNumberGenerator) : Z :=
  match g with Sequential g => seq_next g | Skipping g => next g end.

Definition pns_ok (g : packetNumberGenerator) : Prop :=
  0 ≤ pns_next g ∧ match g with Sequential _ => True | Skipping g => generator_ok g end.

Record space_ok (s : @packetNumberSpace F) : Prop := {
  so_history : history_ok (history s);
  so_packets : Forall packet_ok (contents (packets (history s)));
  so_pns : pns_ok (pns s);
  so_next : highestPacketNumber (history s) = InvalidPacketNumber ∨ pns_next (pns s) = highestPacketNumber (history s) + 1;
  so_last : Forall (λ p, skippedPacket p = false → lastAckElicitingPacketTime s ≠ 0) (contents (packets (history s)));
}.

Definition opt_ok (s : option (@packetNumberSpace F)) : Prop := match s with Some s => space_ok s | None => True end.
Definition cont (s : option (@packetNumberSpace F)) : list packet :=
  match s with Some s => contents (packets (history s)) | None => [] end.

Definition all (h : handler) : list packet :=
  cont (initialPackets h) ++ cont (handshakePackets h) ++ cont (Some (appDataPackets h)).
Definition others (lvl : EncryptionLevel) (h : handler) : list packet :=
  match lvl with
  | EncryptionInitial => cont (handshakePackets h) ++ cont (Some (appDataPackets h))
  | EncryptionHandshake => cont (initialPackets h) ++ cont (Some (appDataPackets h))
  | _ => cont (initialPackets h) ++ cont (handshakePackets h)
  end.

Definition has_tracker (h : handler) : bool := match ecnTracker h with Some _ => true | None => false end.

(** [sent]: the frames sent so far; [gone]: those of dropped packet number
    spaces; [extra]: acknowledged packets not yet subtracted. *)
Record ledger (sent gone : list F) (extra : list packet) (h : handler) : Prop := {
  l_initial : opt_ok (initialPackets h);
  l_handshake : opt_ok (handshakePackets h);
  l_app : space_ok (appDataPackets h);
  l_extra : Forall packet_ok extra;
  l_bytes : bytesInFlight h = bytes_of extra + bytes_of (all h);
  l_frames : sent ≡ₚ acked_frames (log h) ++ lost_frames (log h) ++ gone ++ frames_of (all h);
  l_validated : handshakePackets h = None ∨ perspective h = PerspectiveServer → peerCompletedAddressValidation h = true;
  l_confirmed : handshakeConfirmed h = true → initialPackets h = None ∧ handshakePackets h = None;
  l_ecn : enableECN h = has_tracker h;
}.

Lemma bytes_of_app l l' : bytes_of (l ++ l') = bytes_of l + bytes_of l'.
Proof. induction l as [|p l IH]; simpl; lia. Qed.

#[local] Instance bytes_of_proper : Proper (Permutation ==> eq) bytes_of.
Proof. induction 1; simpl; lia. Qed.

#[local] Instance frames_of_proper : Proper (Permutation ==> Permutation) frames_of.
Proof. intros l l' H. by apply Permutation_flat_map. Qed.

Lemma frames_of_app l l' : frames_of (l ++ l') = frames_of l ++ frames_of l'.
Proof. apply flat_map_app. Qed.

Lemma bytes_of_nonneg l : Forall packet_ok l → 0 ≤ bytes_of l.
Proof.
  induction 1 as [|p l Hp Hl IH]; simpl; [done|]. unfold packet_ok, bytes_in_flight in *.
  destruct (skippedPacket p); [destruct Hp as [_ ->]; lia|]. destruct Hp as (-> & _ & ? & _). lia.
Qed.

Lemma skipped_none sk : Forall packet_ok sk → Forall (λ p, skippedPacket p = true) sk → frames_of sk = [] ∧ bytes_of sk = 0.
Proof.
  induction sk as [|p sk IH]; [done|]. intros [Hp Hf]%Forall_cons [Hs Hfs]%Forall_cons. unfold packet_ok in Hp. rewrite Hs in Hp.
  destruct Hp as [Hp1 Hp2]. destruct (IH Hf Hfs) as [H1 H2]. simpl. rewrite Hp1, H1, H2. unfold bytes_in_flight. by rewrite Hp2.
Qed.

Lemma all_split lvl s h : getPacketNumberSpace lvl h = Some s → all h ≡ₚ cont (Some s) ++ others lvl h.
Proof.
  intros Hs. unfold all, others. destruct lvl; simpl in Hs; try rewrite Hs; try injection Hs as <-; simpl.
  - done.
  - by rewrite Permutation_app_swap_app.
  - by rewrite app_assoc, Permutation_app_comm.
  - by rewrite app_assoc, Permutation_app_comm.
Qed.

Lemma get_put lvl s (h : handler) : getPacketNumberSpace lvl (putSpace lvl s h) = Some s.
Proof. by destruct lvl. Qed.

Lemma others_put lvl s (h : handler) : others lvl (putSpace lvl s h) = others lvl h.
Proof. by destruct lvl. Qed.

Lemma get_ok sent gone extra lvl s h : ledger sent gone extra h → getPacketNumberSpace lvl h = Some s → space_ok s.
Proof. intros [] Hs. destruct lvl; simpl in Hs; [by rewrite Hs in *|by rewrite Hs in *|by injection Hs as <-..]. Qed.

(** Replacing a packet number space. *)
Lemma put_ledger lvl s s' sent gone sent' gone' extra extra' h : ledger sent gone extra h →
  getPacketNumberSpace lvl h = Some s → space_ok s' → Forall packet_ok extra' →
  bytes_of extra' + bytes_of (cont (Some s')) = bytes_of extra + bytes_of (cont (Some s)) →
  (∀ l, sent ≡ₚ l ++ gone ++ frames_of (cont (Some s)) ++ frames_of (others lvl h) →
        sent' ≡ₚ l ++ gone' ++ frames_of (cont (Some s')) ++ frames_of (others lvl h)) →
  ledger sent' gone' extra' (putSpace lvl s' h).
Proof.
  intros Hl Hs Hs' Hex Hb Hf. pose proof Hl as [].
  pose proof (all_split lvl s h Hs) as Hall. pose proof (all_split lvl s' (putSpace lvl s' h) (get_put _ _ _)) as Hall'.
  rewrite others_put in Hall'.
  split; try (by destruct lvl); try done.
  - replace (bytesInFlight (putSpace lvl s' h)) with (bytesInFlight h) by (by destruct lvl).
    rewrite Hall', bytes_of_app. rewrite Hall, bytes_of_app in l_bytes0. lia.
  - replace (log (putSpace lvl s' h)) with (log h) by (by destruct lvl).
    rewrite Hall', frames_of_app. rewrite Hall, frames_of_app in l_frames0.
    rewrite (app_assoc (acked_frames _)) in *. by apply Hf.
  - destruct lvl; simpl in *; naive_solver.
  - destruct lvl; simpl in *; try done; intros Hc; specialize (l_confirmed0 Hc); rewrite Hs in l_confirmed0; naive_solver.
Qed.

Lemma put_same lvl s s' sent gone extra h : ledger sent gone extra h → getPacketNumberSpace lvl h = Some s → space_ok s' →
  history s' = history s → ledger sent gone extra (putSpace lvl s' h).
Proof.
  intros Hl Hs Hs' Hh. eapply (put_ledger lvl s s'); try done; [apply Hl| |]; unfold cont; rewrite Hh; done.
Qed.

Lemma on_history_ok lvl f s hist (h : handler) : getPacketNumberSpace lvl h = Some s → f (history s) = Ok hist →
  on_history lvl f h = (Ok tt, putSpace lvl (set_history hist s) h).
Proof. intros Hs Hf. unfold on_history, space. unfold mbind, st_bind. rewrite Hs. unfold st_lift. by rewrite Hf. Qed.

Lemma modify_space_ok lvl f s (h : handler) : getPacketNumberSpace lvl h = Some s →
  modify_space lvl f h = (Ok tt, putSpace lvl (f s) h).
Proof. intros Hs. unfold modify_space, space. unfold mbind, st_bind. by rewrite Hs. Qed.

Lemma space_get lvl s (h : handler) : getPacketNumberSpace lvl h = Some s → space lvl h = (Ok s, h).
Proof. intros Hs. unfold space. by rewrite Hs. Qed.

(** Reporting frames only writes the log. *)
Lemma notify_ok (e : F → event) fs (h : handler) :
  notify e fs h = (Ok tt, set_log (rev (e <$> handled fs) ++ log h) h).
Proof.
  unfold notify. revert h. induction fs as [|f fs IH]; intros h; simpl; [by destruct h|].
  unfold handled. simpl. fold (handled fs). destruct (frame_Handler f).
  - rewrite (st_bind_ok _ _ _ tt (set_log (e (frame_Frame f) :: log h) h)) by done. rewrite IH. simpl.
    rewrite <- app_assoc. by destruct h.
  - rewrite (st_bind_ok _ _ _ tt h) by done. rewrite IH. done.
Qed.

Lemma acked_frames_rev (l : list F) lg : acked_frames (rev (OnAcked <$> l) ++ lg) ≡ₚ l ++ acked_frames lg.
Proof.
  unfold acked_frames. rewrite flat_map_app. f_equiv. rewrite <- (Permutation_rev (OnAcked <$> l)).
  induction l as [|x l IH]; simpl; [done|]. by rewrite IH.
Qed.
Lemma lost_frames_rev (l : list F) lg : lost_frames (rev (OnLost <$> l) ++ lg) ≡ₚ l ++ lost_frames lg.
Proof.
  unfold lost_frames. rewrite flat_map_app. f_equiv. rewrite <- (Permutation_rev (OnLost <$> l)).
  induction l as [|x l IH]; simpl; [done|]. by rewrite IH.
Qed.
Lemma lost_frames_acked (l : list F) lg : lost_frames (rev (OnAcked <$> l) ++ lg) = lost_frames lg.
Proof.
  unfold lost_frames. rewrite flat_map_app. replace (flat_map _ (rev (OnAcked <$> l))) with (@nil F); [done|].
  induction l as [|x l IH]; [done|]. rewrite fmap_cons. cbn [rev]. by rewrite flat_map_app, <- IH.
Qed.
Lemma acked_frames_lost (l : list F) lg : acked_frames (rev (OnLost <$> l) ++ lg) = acked_frames lg.
Proof.
  unfold acked_frames. rewrite flat_map_app. replace (flat_map _ (rev (OnLost <$> l))) with (@nil F); [done|].
  induction l as [|x l IH]; [done|]. rewrite fmap_cons. cbn [rev]. by rewrite flat_map_app, <- IH.
Qed.

Lemma perm_move {A} (l g f r o : list A) : l ++ g ++ (f ++ r) ++ o ≡ₚ f ++ l ++ g ++ r ++ o.
Proof. rewrite <- app_assoc. by rewrite (Permutation_app_swap_app g f), (Permutation_app_swap_app l f). Qed.

Lemma log_acked sent gone extra l h : ledger sent gone extra h →
  ledger (l ++ sent) gone extra (set_log (rev (OnAcked <$> l) ++ log h) h).
Proof.
  intros []. split; simpl; try done. rewrite acked_frames_rev, lost_frames_acked, <- app_assoc. by rewrite l_frames0.
Qed.

Lemma log_lost sent gone extra l h : ledger sent gone extra h →
  ledger (l ++ sent) gone extra (set_log (rev (OnLost <$> l) ++ log h) h).
Proof.
  intros []. split; simpl; try done. rewrite acked_frames_lost, lost_frames_rev, <- app_assoc.
  by rewrite (Permutation_app_swap_app _ l), <- l_frames0.
Qed.

Lemma space_ok_history s hist : space_ok s → history_ok hist → contents (packets hist) ⊆ contents (packets (history s)) →
  highestPacketNumber hist = highestPacketNumber (history s) → space_ok (set_history hist s).
Proof.
  intros [] ? Hsub He. split; simpl; try done.
  - apply Forall_forall. intros p Hp. rewrite Forall_forall in so_packets0. by apply so_packets0, Hsub.
  - by rewrite He.
  - apply Forall_forall. intros p Hp. rewrite Forall_forall in so_last0. by apply so_last0, Hsub.
Qed.

(** An acknowledged packet: its frames are reported, it leaves the history and
    waits to be subtracted. *)
Lemma removeAcked_ok lvl p s sent gone extra h : ledger sent gone extra h → getPacketNumberSpace lvl h = Some s →
  p ∈ cont (Some s) → skippedPacket p = false →
  ∃ h' s', removeAcked lvl p h = (Ok tt, h') ∧ ledger sent gone (p :: extra) h' ∧ getPacketNumberSpace lvl h' = Some s' ∧
    (∀ q, q ∈ cont (Some s) → q ≠ p → skippedPacket q = false → q ∈ cont (Some s')) ∧
    log h' = rev (OnAcked <$> frames p) ++ log h.
Proof.
  intros Hl Hs Hp Hsk. pose proof (get_ok _ _ _ _ _ _ Hl Hs) as Hsok. pose proof Hsok as [Hhist Hpk _ _ Hlast].
  destruct (Remove_spec (history s) p Hhist Hp) as (hist & sk & Hrm & Hhist' & Hhigh & Hperm & Hskf & _).
  assert (Hpk' : Forall packet_ok (p :: sk ++ contents (packets hist))) by (by rewrite <- Hperm).
  apply Forall_cons in Hpk' as [Hpok [Hskok Hcok]%Forall_app]. destruct (skipped_none sk Hskok Hskf) as [Hsf Hsb].
  set (h0 := if negb (p_LargestAcked p =? InvalidPacketNumber) && bool_decide (lvl = Encryption1RTT)
    then set_lowestNotConfirmedAcked (Z.max (lowestNotConfirmedAcked h) (p_LargestAcked p + 1)) h else h).
  assert (Hl0 : ledger sent gone extra h0 ∧ getPacketNumberSpace lvl h0 = Some s ∧ log h0 = log h).
  { unfold h0. destruct (_ && _); [|done]. destruct Hl. split; [by split|]. by destruct lvl. }
  destruct Hl0 as (Hl0 & Hs0 & Hlog0).
  set (h1 := set_log (rev (OnAcked <$> frames p) ++ log h0) h0).
  assert (Hs1 : getPacketNumberSpace lvl h1 = Some s) by (by destruct lvl).
  exists (putSpace lvl (set_history hist s) h1), (set_history hist s). split_and!.
  - unfold removeAcked. rewrite (st_bind_ok _ _ _ tt h0) by (unfold h0; by destruct (_ && _)).
    rewrite (st_bind_ok _ _ _ _ _ (notify_ok _ _ _)), (st_bind_ok _ _ _ _ _ (notify_ok _ _ _)).
    replace (set_log _ (set_log _ h0)) with h1; [by apply on_history_ok|].
    unfold h1, frames. rewrite fmap_app, rev_app_distr, <- app_assoc. done.
  - eapply (put_ledger lvl s (set_history hist s)); [by apply log_acked|done| | | |].
    + apply space_ok_history; try done. rewrite Hperm. set_solver.
    + constructor; [done|apply Hl].
    + unfold cont. simpl. rewrite Hperm. simpl. rewrite bytes_of_app, Hsb. lia.
    + intros l. unfold cont. simpl. rewrite Hperm. simpl. rewrite frames_of_app, Hsf. simpl. rewrite perm_move.
      by intros ?%Permutation_app_inv_l.
  - apply get_put.
  - intros q Hq Hne Hqs. unfold cont in *. simpl. rewrite Hperm in Hq.
    apply elem_of_cons in Hq as [?|[Hq|Hq]%elem_of_app]; [done| |done].
    rewrite Forall_forall in Hskf. specialize (Hskf q Hq). congruence.
  - replace (log (putSpace lvl (set_history hist s) h1)) with (log h1) by (by destruct lvl). simpl. by rewrite Hlog0.
Qed.

Lemma removeAcked_all lvl ps s sent gone extra h : ledger sent gone extra h → getPacketNumberSpace lvl h = Some s →
  NoDup ps → (∀ p, p ∈ ps → p ∈ cont (Some s) ∧ skippedPacket p = false) →
  ∃ h' s', st_iter (removeAcked lvl) ps h = (Ok tt, h') ∧ ledger sent gone (rev ps ++ extra) h' ∧
    getPacketNumberSpace lvl h' = Some s' ∧ log h' = rev (OnAcked <$> frames_of ps) ++ log h.
Proof.
  revert s extra h. induction ps as [|p ps IH]; intros s extra h Hl Hs Hnd Hps; [by exists h, s|].
  inversion Hnd as [|? ? Hnin Hnd']; subst. destruct (Hps p ltac:(set_solver)) as [Hp Hsk].
  destruct (removeAcked_ok lvl p s sent gone extra h Hl Hs Hp Hsk) as (h1 & s1 & He1 & Hl1 & Hs1 & Hq1 & Hlog1).
  destruct (IH s1 (p :: extra) h1 Hl1 Hs1 Hnd') as (h2 & s2 & He2 & Hl2 & Hs2 & Hlog2).
  { intros q Hq. destruct (Hps q ltac:(set_solver)). split; [|done]. apply Hq1; [done| |done]. by intros ->. }
  exists h2, s2. cbn [st_iter]. rewrite (st_bind_ok _ _ _ _ _ He1). split_and!; try done.
  - simpl. by rewrite <- app_assoc.
  - rewrite Hlog2, Hlog1. simpl. by rewrite fmap_app, rev_app_distr, <- app_assoc.
Qed.

(** What the ledger reads of the state. *)
Definition core (h : handler) :=
  (initialPackets h, handshakePackets h, appDataPackets h, bytesInFlight h, acked_frames (log h), lost_frames (log h),
   peerCompletedAddressValidation h, handshakeConfirmed h, perspective h, enableECN h, has_tracker h).

Lemma ledger_ext h h' sent gone extra : core h' = core h → ledger sent gone extra h → ledger sent gone extra h'.
Proof.
  unfold core. intros [= E1 E2 E3 E4 E5 E6 E7 E8 E9 E10 E11] []. split; rewrite ?E1, ?E2, ?E3, ?E7, ?E8, ?E9, ?E10, ?E11; try done.
  - rewrite E4. unfold all. by rewrite E1, E2, E3.
  - rewrite E5, E6. unfold all. by rewrite E1, E2, E3.
Qed.

(** Once the handshake is confirmed, a set alarm means that there is something
    to detect as lost or to probe for. *)
Definition armed (h : handler) : Prop := handshakeConfirmed h = true → alarm h ≠ 0 →
  lossTime (appDataPackets h) ≠ 0 ∨ lastAckElicitingPacketTime (appDataPackets h) ≠ 0.

Lemma timer_armed now (h : handler) : (handshakeConfirmed h = true → initialPackets h = None ∧ handshakePackets h = None) →
  armed (setLossDetectionTimer now h).
Proof.
  intros Hc. unfold armed, setLossDetectionTimer. destruct (handshakeConfirmed h) eqn:E.
  2: { repeat case_match; simpl; by rewrite E. }
  destruct (Hc eq_refl) as [H1 H2]. unfold getLossTimeAndSpace, getPTOTimeAndSpace. rewrite H1, H2, E. simpl.
  destruct (Z.eqb_spec (lossTime (appDataPackets h)) 0); simpl; [|by left].
  destruct (isAmplificationLimited h); simpl; [done|]. destruct (negb _ && _); simpl; [done|].
  destruct (Z.eqb_spec (lastAckElicitingPacketTime (appDataPackets h)) 0); simpl; [done|by right].
Qed.

Lemma timer_confirmed now (h : handler) : handshakeConfirmed (setLossDetectionTimer now h) = handshakeConfirmed h.
Proof. unfold setLossDetectionTimer. by repeat case_match. Qed.

Lemma timer_core now (h : handler) : core (setLossDetectionTimer now h) = core h.
Proof. unfold setLossDetectionTimer. by repeat case_match. Qed.

Lemma timer_ledger_armed now sent gone extra (h : handler) : ledger sent gone extra (setLossDetectionTimer now h) →
  armed (setLossDetectionTimer now h).
Proof.
  intros Hl. apply timer_armed. intros Hc. pose proof (l_confirmed _ _ _ _ Hl) as Hn. rewrite timer_confirmed in Hn.
  destruct (Hn Hc) as [H1 H2]. revert H1 H2. pose proof (timer_core now h) as [= -> -> _ _ _ _ _ _ _ _ _]. done.
Qed.

Lemma get_ext lvl (h h' : handler) : core h' = core h → getPacketNumberSpace lvl h' = getPacketNumberSpace lvl h.
Proof. unfold core. intros [= E1 E2 E3 _ _ _ _ _ _ _ _]. destruct lvl; simpl; congruence. Qed.

Lemma core_acked (h h' : handler) : core h' = core h → acked_frames (log h') = acked_frames (log h).
Proof. by intros [= _ _ _ _ -> _ _ _ _ _ _]. Qed.

Lemma all_ok sent gone extra h : ledger sent gone extra h → Forall packet_ok (all h).
Proof.
  intros []. unfold all. repeat (apply Forall_app; split).
  - destruct (initialPackets h); [apply l_initial0|constructor].
  - destruct (handshakePackets h); [apply l_handshake0|constructor].
  - apply l_app0.
Qed.

(** Packets leave the bytes in flight. *)
Lemma subtract_ok p sent gone extra h : ledger sent gone (p :: extra) h →
  ∃ h', removeFromBytesInFlight p h = (Ok tt, h') ∧ ledger sent gone extra h' ∧
    (∀ lvl, getPacketNumberSpace lvl h' = getPacketNumberSpace lvl h) ∧ log h' = log h.
Proof.
  intros Hl. pose proof (bytes_of_nonneg _ (all_ok _ _ _ _ Hl)). pose proof Hl as [].
  apply Forall_cons in l_extra0 as [Hp Hex]. pose proof (bytes_of_nonneg _ Hex). simpl in l_bytes0.
  unfold removeFromBytesInFlight, bytes_in_flight in *. destruct (includedInBytesInFlight p).
  - rewrite (proj2 (Z.ltb_ge _ _)) by lia. eexists. split; [done|]. split_and!; [|by intros []|done].
    split; simpl; try done. change (all (set_bytesInFlight (bytesInFlight h - p_Length p) h)) with (all h). lia.
  - exists h. split_and!; try done.
Qed.

Lemma subtract_all (f : packet → @st handler ()) ps sent gone extra h :
  (∀ p sent gone extra h, ledger sent gone (p :: extra) h → ∃ h', f p h = (Ok tt, h') ∧ ledger sent gone extra h' ∧
    (∀ lvl, getPacketNumberSpace lvl h' = getPacketNumberSpace lvl h) ∧ acked_frames (log h') = acked_frames (log h)) →
  ledger sent gone (ps ++ extra) h →
  ∃ h', st_iter f ps h = (Ok tt, h') ∧ ledger sent gone extra h' ∧
    (∀ lvl, getPacketNumberSpace lvl h' = getPacketNumberSpace lvl h) ∧ acked_frames (log h') = acked_frames (log h).
Proof.
  intros Hf. revert h. induction ps as [|p ps IH]; intros h Hl; [by exists h|].
  destruct (Hf p sent gone (ps ++ extra) h Hl) as (h1 & He1 & Hl1 & Hg1 & Ha1).
  destruct (IH h1 Hl1) as (h2 & He2 & Hl2 & Hg2 & Ha2). exists h2. cbn [st_iter]. rewrite (st_bind_ok _ _ _ _ _ He1).
  split_and!; try done; [intros lvl; by rewrite Hg2, Hg1|congruence].
Qed.

(** The frames of a lost packet are reported. *)
Lemma report_lost p sent gone extra h : ledger sent (frames p ++ gone) extra h →
  (blen (Frames p) =? 0) && (blen (StreamFrames p) =? 0) = false →
  ∃ h', queueFramesForRetransmission p h = (Ok tt, h') ∧ ledger sent gone extra h' ∧
    (∀ lvl, getPacketNumberSpace lvl h' = getPacketNumberSpace lvl h) ∧ acked_frames (log h') = acked_frames (log h).
Proof.
  intros Hl Hne. exists (set_log (rev (OnLost <$> frames p) ++ log h) h). split_and!; [| |by intros []|apply acked_frames_lost].
  - unfold queueFramesForRetransmission. rewrite Hne. rewrite (st_bind_ok _ _ _ _ _ (notify_ok _ _ _)), notify_ok.
    unfold frames. rewrite fmap_app, rev_app_distr, <- app_assoc. done.
  - destruct Hl. split; simpl; try done. rewrite acked_frames_lost, lost_frames_rev, l_frames0.
    by rewrite <- !app_assoc, (Permutation_app_swap_app (lost_frames (log h)) (frames p)).
Qed.

(** A packet declared lost leaves the history. *)
Lemma lose_put lvl p s sent gone extra h : ledger sent gone extra h → getPacketNumberSpace lvl h = Some s → p ∈ cont (Some s) →
  ∃ hist, DeclareLost (PacketNumber p) (history s) = Ok hist ∧
    ledger sent (frames p ++ gone) (p :: extra) (putSpace lvl (set_history hist s) h) ∧ packet_ok p ∧
    (∀ q, q ∈ cont (Some s) → q ≠ p → q ∈ contents (packets hist)).
Proof.
  intros Hl Hs Hp. pose proof (get_ok _ _ _ _ _ _ Hl Hs) as Hsok. pose proof Hsok as [Hhist Hpk _ _ Hlast].
  destruct (DeclareLost_spec (history s) p Hhist Hp) as (hist & Hd & Hhist' & Hhigh & l1 & l2 & Hc & Hc').
  assert (Hpk' : Forall packet_ok (l1 ++ p :: l2)) by (by rewrite <- Hc).
  apply Forall_app in Hpk' as [Hp1 [Hpok Hp2]%Forall_cons].
  exists hist. split_and!; [done| |done|].
  - eapply (put_ledger lvl s (set_history hist s)); [done|done| | | |].
    + apply space_ok_history; try done. rewrite Hc, Hc'. set_solver.
    + constructor; [done|apply Hl].
    + unfold cont. simpl. rewrite Hc, Hc', !bytes_of_app. simpl. lia.
    + intros l. unfold cont. simpl. rewrite Hc, Hc', !frames_of_app. simpl. intros ->.
      rewrite (Permutation_app_swap_app (frames_of l1) (frames p)), perm_move, <- (app_assoc (frames p) gone).
      by rewrite (Permutation_app_swap_app l (frames p)).
  - intros q Hq Hne. unfold cont in *. rewrite Hc in Hq. rewrite Hc'. set_solver.
Qed.

Lemma lose_ok lvl p s sent gone extra h : ledger sent gone extra h → getPacketNumberSpace lvl h = Some s → p ∈ cont (Some s) →
  ∃ h' s', on_history lvl (DeclareLost (PacketNumber p)) h = (Ok tt, h') ∧ ledger sent (frames p ++ gone) (p :: extra) h' ∧
    getPacketNumberSpace lvl h' = Some s' ∧ (∀ q, q ∈ cont (Some s) → q ≠ p → q ∈ cont (Some s')) ∧ packet_ok p ∧
    acked_frames (log h') = acked_frames (log h).
Proof.
  intros Hl Hs Hp. destruct (lose_put lvl p s sent gone extra h Hl Hs Hp) as (hist & Hd & Hl' & Hpok & Hq).
  eexists _, _. split_and!; [by apply on_history_ok|done|apply get_put|done|done|by destruct lvl].
Qed.

Lemma skipped_gone p sent gone extra h : packet_ok p → skippedPacket p = true → ledger sent (frames p ++ gone) (p :: extra) h →
  ledger sent gone extra h.
Proof.
  intros Hp Hs []. unfold packet_ok in Hp. rewrite Hs in Hp. destruct Hp as [Hf Hi]. rewrite Hf in *. simpl in *.
  apply Forall_cons in l_extra0 as [_ ?]. unfold bytes_in_flight in *. rewrite Hi in *. by split.
Qed.

Lemma detectLost_step_ok lvl delay lst prior p s sent gone extra h : ledger sent gone extra h →
  getPacketNumberSpace lvl h = Some s → p ∈ cont (Some s) →
  ∃ h' s' b, detectLost_step lvl delay lst prior p h = (Ok b, h') ∧ ledger sent gone extra h' ∧
    getPacketNumberSpace lvl h' = Some s' ∧ (∀ q, q ∈ cont (Some s) → q ≠ p → q ∈ cont (Some s')) ∧
    acked_frames (log h') = acked_frames (log h).
Proof.
  intros Hl Hs Hp. unfold detectLost_step. rewrite (st_bind_ok _ _ _ _ _ (space_get _ _ _ Hs)).
  destruct (largestAcked s <? PacketNumber p); [by exists h, s, false|].
  destruct (_ || _).
  - destruct (lose_ok lvl p s sent gone extra h Hl Hs Hp) as (h1 & s1 & He1 & Hl1 & Hs1 & Hq1 & Hpok & Ha1).
    rewrite (st_bind_ok _ _ _ _ _ He1). destruct (skippedPacket p) eqn:Hsk.
    { exists h1, s1, true. split_and!; try done. by apply (skipped_gone p). }
    destruct (subtract_ok p sent (frames p ++ gone) extra h1 Hl1) as (h2 & He2 & Hl2 & Hg2 & Ha2).
    rewrite (st_bind_ok _ _ _ _ _ He2). unfold packet_ok in Hpok. rewrite Hsk in Hpok. destruct Hpok as (_ & _ & _ & Hne).
    destruct (report_lost p sent gone extra h2 Hl2 Hne) as (h3 & He3 & Hl3 & Hg3 & Ha3). rewrite (st_bind_ok _ _ _ _ _ He3).
    set (h4 := if IsPathMTUProbePacket p then h3 else set_log (OnCongestionEvent (PacketNumber p) (p_Length p) prior :: log h3) h3).
    rewrite (st_bind_ok _ _ _ tt h4) by (unfold h4; by destruct (IsPathMTUProbePacket p)).
    assert (core h4 = core h3) as Hc4 by (unfold h4; by destruct (IsPathMTUProbePacket p)).
    set (h5 := if bool_decide (lvl = Encryption1RTT) then set_ecnTracker (ecn.LostPacket (PacketNumber p) <$> ecnTracker h4) h4 else h4).
    rewrite (st_bind_ok _ _ _ tt h5) by (unfold h5; by destruct (bool_decide _)).
    assert (core h5 = core h3) as Hc5 by (rewrite <- Hc4; unfold h5, core, has_tracker; simpl; destruct (bool_decide _); [by destruct (ecnTracker h4)|done]).
    exists h5, s1, true. split_and!; [done|by apply (ledger_ext h3)| |done|].
    + by rewrite (get_ext _ _ _ Hc5), Hg3, Hg2.
    + rewrite (core_acked _ _ Hc5). congruence.
  - destruct (lossTime s =? 0).
    + rewrite (st_bind_ok _ _ _ _ _ (modify_space_ok _ _ _ _ Hs)).
      eexists _, (set_lossTime (SendTime p + delay) s), true. split_and!; [done| |apply get_put|done|by destruct lvl].
      pose proof (get_ok _ _ _ _ _ _ Hl Hs) as []. by apply (put_same lvl s).
    + rewrite (st_bind_ok _ _ _ tt h) by done. by exists h, s, true.
Qed.

Lemma detectLost_loop_ok lvl delay lst prior ps s sent gone extra h : ledger sent gone extra h →
  getPacketNumberSpace lvl h = Some s → NoDup ps → (∀ p, p ∈ ps → p ∈ cont (Some s)) →
  ∃ h' s', detectLost_loop lvl delay lst prior ps h = (Ok tt, h') ∧ ledger sent gone extra h' ∧ getPacketNumberSpace lvl h' = Some s' ∧
    acked_frames (log h') = acked_frames (log h).
Proof.
  revert s h. induction ps as [|p ps IH]; intros s h Hl Hs Hnd Hps; [by exists h, s|].
  inversion Hnd as [|? ? Hnin Hnd']; subst.
  destruct (detectLost_step_ok lvl delay lst prior p s sent gone extra h Hl Hs (Hps p ltac:(set_solver)))
    as (h1 & s1 & b & He1 & Hl1 & Hs1 & Hq1 & Ha1).
  simpl. rewrite (st_bind_ok _ _ _ _ _ He1). destruct b; [|by exists h1, s1]. rewrite <- Ha1.
  apply (IH s1 h1 Hl1 Hs1 Hnd'). intros q Hq. apply Hq1; [apply Hps; set_solver|]. by intros ->.
Qed.

Lemma detectLostPackets_ok now lvl s sent gone extra h : ledger sent gone extra h → getPacketNumberSpace lvl h = Some s →
  ∃ h' s', detectLostPackets now lvl h = (Ok tt, h') ∧ ledger sent gone extra h' ∧ getPacketNumberSpace lvl h' = Some s' ∧
    acked_frames (log h') = acked_frames (log h).
Proof.
  intros Hl Hs. unfold detectLostPackets. rewrite (st_bind_ok _ _ _ _ _ (modify_space_ok _ _ _ _ Hs)).
  set (h1 := putSpace lvl (set_lossTime 0 s) h). pose proof (get_ok _ _ _ _ _ _ Hl Hs) as Hsok. pose proof Hsok as [].
  assert (Hl1 : ledger sent gone extra h1) by (by apply (put_same lvl s)).
  pose proof (get_put lvl (set_lossTime 0 s) h) as Hs1. fold h1 in Hs1.
  rewrite (st_bind_ok _ _ _ _ _ (space_get _ _ _ Hs1)), (st_bind_ok _ _ _ h1 h1) by done.
  replace (log h) with (log h1) by (by destruct lvl).
  apply (detectLost_loop_ok lvl _ _ _ _ (set_lossTime 0 s)); [done|done| |done].
  by apply ascending_NoDup, history_ascending.
Qed.

(** ** Receiving an ACK *)
Lemma asc_bounds rs r r' pn : asc rs → head rs = Some r → last rs = Some r' → acks rs pn = true → Smallest r ≤ pn ≤ Largest r'.
Proof.
  destruct rs as [|x rs]; [done|]. intros (H1 & H2 & H3) [= <-] Hl Ha.
  apply existsb_exists in Ha as (y & Hy & Hin). apply list_elem_of_In in Hy. unfold in_range in Hin.
  assert (Hlo : Smallest x ≤ Smallest y).
  { apply elem_of_cons in Hy as [->|Hy]; [lia|]. rewrite Forall_forall in H2. specialize (H2 y Hy). lia. }
  assert (Hhi : ∀ l z, asc l → z ∈ l → last l = Some r' → Largest z ≤ Largest r').
  { induction l as [|w l IH]; intros z Ha Hz Hla; [by apply elem_of_nil in Hz|]. destruct Ha as (A1 & A2 & A3).
    destruct l as [|w' l]; [apply list_elem_of_singleton in Hz; by simplify_eq/=|].
    apply elem_of_cons in Hz as [->|Hz]; [|by apply IH].
    assert (Largest w' ≤ Largest r') by (apply IH; [done|set_solver|done]). apply Forall_cons in A2 as [A2 _]. destruct A3. lia. }
  specialize (Hhi (x :: rs) y ltac:(by simpl) Hy Hl). lia.
Qed.

Lemma acks_rev rs pn : acks (rev rs) pn = acks rs pn.
Proof.
  unfold acks. apply Bool.eq_true_iff_eq. rewrite !existsb_exists. by setoid_rewrite <- in_rev.
Qed.

Definition errSkippedAcked : go_error :=
  TransportError ProtocolViolation 0 (ErrMsg "received an ACK for skipped packet number").

(** The packets [detectAndRemoveAckedPackets] finds. *)
Lemma acked_loop_ack ack s : validateAckRanges ack = true → space_ok s →
  ∃ lo hi l err, LowestAcked ack = Ok lo ∧ LargestAcked ack = Ok hi ∧
    acked_loop (HasMissingRanges ack) lo hi (rev (AckRanges ack)) (cont (Some s)) [] = (l, err) ∧
    l `prefix_of` acked_by (AckRanges ack) (cont (Some s)) ∧ Forall (λ p, skippedPacket p = false) l ∧
    (err = None → l = acked_by (AckRanges ack) (cont (Some s))) ∧
    (∀ e, err = Some e → e = errSkippedAcked ∧ ∃ p, p ∈ acked_by (AckRanges ack) (cont (Some s)) ∧ skippedPacket p = true).
Proof.
  intros Hv [Hh _ _ _ _]. apply validateAckRanges_spec in Hv as [Hne Hval].
  destruct (AckRanges ack) as [|r0 rs] eqn:Hrs; [done|].
  destruct (exists_last (l := r0 :: rs) ltac:(done)) as (init & rn & Hlast).
  assert (Hlow : LowestAcked ack = Ok (Smallest rn)).
  { unfold LowestAcked, range_at. rewrite Hrs, Hlast. rewrite length_app. simpl. rewrite Nat.add_sub, list_lookup_middle; done. }
  assert (Hlarge : LargestAcked ack = Ok (Largest r0)) by (unfold LargestAcked, range_at; by rewrite Hrs).
  pose proof (asc_rev _ Hval) as Hasc.
  assert (Hhd : head (rev (r0 :: rs)) = Some rn) by (by rewrite Hlast, rev_unit).
  assert (Hla : last (rev (r0 :: rs)) = Some r0) by (simpl; by rewrite last_snoc).
  destruct (acked_loop_spec (HasMissingRanges ack) (Smallest rn) (Largest r0) (r0 :: rs) (rev (r0 :: rs)) (cont (Some s)) [])
    as (l & err & He & H0 & H1 & H2 & H3); try done.
  - simpl. by destruct (rev rs).
  - by apply history_ascending.
  - intros p _. rewrite acks_rev. destruct (acks (r0 :: rs) (PacketNumber p)) eqn:Ha; [|by rewrite andb_false_r].
    rewrite <- acks_rev in Ha. pose proof (asc_bounds _ _ _ _ Hasc Hhd Hla Ha). lia.
  - intros r Hr. rewrite Hla in Hr. by injection Hr as <-.
  - unfold HasMissingRanges. rewrite Hrs. intros Hb. destruct rs as [|r1 rs].
    + exists r0. simpl. destruct init as [|? [|]]; simplify_eq/=; done.
    + rewrite !blen_cons in Hb. pose proof (blen_nonneg rs). lia.
  - exists (Smallest rn), (Largest r0), l, err. split_and!; done.
Qed.

Lemma ackedPacket_ok prior t p sent gone extra h : ledger sent gone (p :: extra) h →
  ∃ h', ackedPacket prior t p h = (Ok tt, h') ∧ ledger sent gone extra h' ∧
    (∀ lvl, getPacketNumberSpace lvl h' = getPacketNumberSpace lvl h) ∧ acked_frames (log h') = acked_frames (log h).
Proof.
  intros Hl. unfold ackedPacket.
  set (h1 := if includedInBytesInFlight p && negb (declaredLost p)
    then set_log (OnPacketAcked (PacketNumber p) (p_Length p) prior t :: log h) h else h).
  rewrite (st_bind_ok _ _ _ tt h1) by (unfold h1; by destruct (_ && _)).
  assert (Hc : core h1 = core h) by (unfold h1; by destruct (_ && _)).
  destruct (subtract_ok p sent gone extra h1) as (h2 & He & Hl2 & Hg2 & Ha2); [by apply (ledger_ext h)|].
  exists h2. split_and!; [done|done| |].
  - intros lvl. by rewrite Hg2, (get_ext _ _ _ Hc).
  - by rewrite Ha2, (core_acked _ _ Hc).
Qed.

Lemma updateRTT_core ack lvl t hi p (h : handler) : ∃ h', updateRTT ack lvl t hi p h = (Ok tt, h') ∧ core h' = core h.
Proof. unfold updateRTT. destruct (_ =? _); by eexists. Qed.

Lemma updateECN_core ack hi prior ps (h : handler) : ∃ h', updateECN ack hi prior ps h = (Ok tt, h') ∧ core h' = core h.
Proof.
  unfold updateECN. rewrite (st_bind_ok _ _ _ h h) by done. destruct (ecnTracker h) as [e|] eqn:He; [|by eexists].
  destruct (ecn.HandleNewlyAcked _ _ _ _ e) as [[] e']; eexists; (split; [done|]); unfold core, has_tracker; simpl; by rewrite He.
Qed.

Lemma perm_extra sent gone extra extra' h : extra ≡ₚ extra' → ledger sent gone extra h → ledger sent gone extra' h.
Proof. intros He []. split; try done; [by rewrite <- He|]. by rewrite <- He. Qed.

Lemma perm_gone sent gone gone' extra h : gone ≡ₚ gone' → ledger sent gone extra h → ledger sent gone' extra h.
Proof. intros He []. split; try done. by rewrite <- He. Qed.

(** All that follows once the acknowledged packets are known. *)
Lemma ReceivedAck_rest now ack lvl rcvTime (s : @packetNumberSpace F) hi prior acked p sent gone h :
  ledger sent gone (rev acked) h → is_Some (getPacketNumberSpace lvl h) →
  ∃ h' b, (_ ← updateRTT ack lvl rcvTime hi p;
      _ ← (if bool_decide (lvl = Encryption1RTT) && (largestAcked s <? hi) then updateECN ack hi prior acked else mret tt);
      _ ← modify_space lvl (λ s, set_largestAcked (Z.max (largestAcked s) hi) s);
      _ ← detectLostPackets rcvTime lvl;
      _ ← st_iter (ackedPacket prior rcvTime) acked;
      _ ← st_modify (λ h, set_numProbesToSend 0 (if peerCompletedAddressValidation h then set_ptoCount 0 h else h));
      _ ← timer now;
      mret (existsb (λ p, bool_decide (p_EncryptionLevel p = Encryption1RTT)) acked)) h = (Ok b, h') ∧
    ledger sent gone [] h' ∧ armed h' ∧ acked_frames (log h') = acked_frames (log h) ∧
    b = existsb (λ p, bool_decide (p_EncryptionLevel p = Encryption1RTT)) acked.
Proof.
  intros Hl [s0 Hs0]. destruct (updateRTT_core ack lvl rcvTime hi p h) as (h1 & He1 & Hc1).
  rewrite (st_bind_ok _ _ _ _ _ He1).
  set (ecn_step := if bool_decide (lvl = Encryption1RTT) && (largestAcked s <? hi) then updateECN ack hi prior acked else mret tt).
  assert (∃ h2, ecn_step h1 = (Ok tt, h2) ∧ core h2 = core h1) as (h2 & He2 & Hc2).
  { unfold ecn_step. destruct (_ && _); [apply updateECN_core|by eexists]. }
  rewrite (st_bind_ok _ _ _ _ _ He2).
  assert (Hc : core h2 = core h) by congruence.
  assert (Hl2 : ledger sent gone (rev acked) h2) by (by apply (ledger_ext h)).
  assert (Hs2 : getPacketNumberSpace lvl h2 = Some s0) by (by rewrite (get_ext _ _ _ Hc)).
  rewrite (st_bind_ok _ _ _ _ _ (modify_space_ok _ _ _ _ Hs2)).
  set (s3 := set_largestAcked (Z.max (largestAcked s0) hi) s0). set (h3 := putSpace lvl s3 h2).
  assert (Hl3 : ledger sent gone (rev acked) h3).
  { apply (put_same lvl s0); [done|done| |done]. destruct (get_ok _ _ _ _ _ _ Hl2 Hs2). by split. }
  destruct (detectLostPackets_ok rcvTime lvl s3 sent gone (rev acked) h3 Hl3 (get_put _ _ _)) as (h4 & s4 & He4 & Hl4 & _ & Ha4).
  rewrite (st_bind_ok _ _ _ _ _ He4).
  destruct (subtract_all (ackedPacket prior rcvTime) acked sent gone [] h4) as (h5 & He5 & Hl5 & _ & Ha5).
  { intros. by apply ackedPacket_ok. }
  { rewrite app_nil_r. eapply perm_extra; [|exact Hl4]. by rewrite <- Permutation_rev. }
  rewrite (st_bind_ok _ _ _ _ _ He5). eexists _, _. split; [reflexivity|].
  set (h6 := set_numProbesToSend 0 (if peerCompletedAddressValidation h5 then set_ptoCount 0 h5 else h5)).
  assert (Hc6 : core (setLossDetectionTimer now h6) = core h5) by (rewrite timer_core; unfold h6; by destruct (peerCompletedAddressValidation h5)).
  assert (Hl6 : ledger sent gone [] (setLossDetectionTimer now h6)) by (by apply (ledger_ext h5)).
  split_and!; [done|by eapply timer_ledger_armed| |done].
  rewrite (core_acked _ _ Hc6), Ha5, Ha4. replace (log h3) with (log h2) by (by destruct lvl).
  by rewrite (core_acked _ _ Hc).
Qed.

Definition errUnsentAcked : go_error := TransportError ProtocolViolation 0 (ErrMsg "received ACK for an unsent packet").

Lemma ReceivedAck_ok now ack lvl rcvTime s sent gone h : ledger sent gone [] h → getPacketNumberSpace lvl h = Some s →
  validateAckRanges ack = true →
  let acked := acked_by (AckRanges ack) (cont (Some s)) in
  ∃ hi, LargestAcked ack = Ok hi ∧
  if largestSent s <? hi then ReceivedAck now ack lvl rcvTime h = (Err errUnsentAcked, h)
  else if existsb skippedPacket acked then ∃ h', ReceivedAck now ack lvl rcvTime h = (Err errSkippedAcked, h')
  else ∃ h', ReceivedAck now ack lvl rcvTime h =
        (Ok (existsb (λ p, bool_decide (p_EncryptionLevel p = Encryption1RTT)) acked), h') ∧
      ledger sent gone [] h' ∧ (armed h → armed h') ∧ acked_frames (log h') ≡ₚ frames_of acked ++ acked_frames (log h).
Proof.
  intros Hl Hs Hv acked. pose proof (get_ok _ _ _ _ _ _ Hl Hs) as Hsok.
  destruct (acked_loop_ack ack s Hv Hsok) as (lo & hi & l & err & Hlo & Hhi & Hloop & Hpre & Hns & Hnone & Hsome).
  exists hi. split; [done|]. unfold ReceivedAck. rewrite (st_bind_ok _ _ _ _ _ (space_get _ _ _ Hs)).
  rewrite (st_lift_ok _ _ _ _ Hhi).
  destruct (largestSent s <? hi); [done|]. rewrite (st_bind_ok _ _ _ h h) by done.
  set (cond := bool_decide (perspective h = PerspectiveClient) && negb (peerCompletedAddressValidation h) && _).
  set (h1 := if cond then setLossDetectionTimer now (set_peerCompletedAddressValidation true h) else h).
  rewrite (st_bind_ok _ _ _ tt h1) by (unfold h1; by destruct cond).
  assert (Hl1 : ledger sent gone [] h1 ∧ (armed h → armed h1) ∧ getPacketNumberSpace lvl h1 = Some s ∧
    acked_frames (log h1) = acked_frames (log h)).
  { unfold h1. destruct cond; [|done]. set (h0 := set_peerCompletedAddressValidation true h).
    pose proof (timer_core now h0) as Hc.
    assert (Hl0 : ledger sent gone [] (setLossDetectionTimer now h0)) by (apply (ledger_ext h0); [done|]; destruct Hl; by split).
    split_and!; [done|intros _; by eapply timer_ledger_armed| |].
    - rewrite (get_ext _ _ _ Hc). by destruct lvl.
    - by rewrite (core_acked _ _ Hc). }
  destruct Hl1 as (Hl1 & Har1 & Hs1 & Ha1).
  assert (Hdet : detectAndRemoveAckedPackets ack lvl h1 =
    (_ ← st_iter (removeAcked lvl) l; match err with None => mret l | Some e => st_fail e end) h1).
  { unfold detectAndRemoveAckedPackets. rewrite (st_bind_ok _ _ _ _ _ (space_get _ _ _ Hs1)). 
    rewrite (st_lift_ok _ _ _ _ Hlo), (st_lift_ok _ _ _ _ Hhi). unfold cont in Hloop. by rewrite Hloop. }
  assert (Hnd : NoDup l ∧ ∀ p, p ∈ l → p ∈ cont (Some s) ∧ skippedPacket p = false).
  { destruct Hpre as [k Hk]. fold acked in Hk. split.
    - eapply sublist_NoDup; [by apply ascending_NoDup, history_ascending, Hsok|].
      transitivity acked; [rewrite Hk; by apply sublist_inserts_r|apply sublist_filter].
    - intros p Hp. split; [|by rewrite Forall_forall in Hns; apply Hns].
      assert (Hp' : p ∈ acked) by (rewrite Hk; set_solver). by apply list_elem_of_filter in Hp' as [_ Hp']. }
  destruct Hnd as [Hnd Hin].
  destruct (removeAcked_all lvl l s sent gone [] h1 Hl1 Hs1 Hnd Hin) as (h2 & s2 & He2 & Hl2 & Hs2 & Hlog2).
  rewrite (st_bind_ok _ _ _ _ _ He2) in Hdet. destruct err as [e|].
  - destruct (Hsome e eq_refl) as [-> (p & Hp & Hpsk)].
    assert (existsb skippedPacket acked = true) as -> by (apply existsb_exists; exists p; split; [by apply list_elem_of_In|done]).
    exists h2. unfold mbind at 1, st_bind at 1. by rewrite Hdet.
  - specialize (Hnone eq_refl) as ->. fold acked in Hdet, Hns, Hl2, Hlog2.
    assert (existsb skippedPacket acked = false) as ->.
    { apply not_true_iff_false. intros (p & Hp & Hpsk)%existsb_exists. rewrite Forall_forall in Hns.
      rewrite (Hns p) in Hpsk; [done|by apply list_elem_of_In]. }
    rewrite (st_bind_ok _ _ _ _ _ Hdet).
    assert (Hacked : acked_frames (log h2) ≡ₚ frames_of acked ++ acked_frames (log h)) by (by rewrite Hlog2, acked_frames_rev, Ha1).
    destruct (last acked) as [p|] eqn:Hlast.
    + destruct (ReceivedAck_rest now ack lvl rcvTime s hi (bytesInFlight h) acked p sent gone h2) as (h3 & b & He3 & Hl3 & Har3 & Ha3 & ->).
      { rewrite app_nil_r in Hl2. done. }
      { by eexists. }
      exists h3. split_and!; [done|done|done|by rewrite Ha3].
    + apply last_None in Hlast. rewrite Hlast in *. exists h2.
      fold acked in He2. rewrite Hlast in He2. change ((Ok tt, h1) = (Ok tt, h2)) in He2. injection He2 as <-. split_and!; done.
Qed.

(** ** Probes *)
Lemma QueueProbePacket_ok lvl s sent gone h : ledger sent gone [] h → getPacketNumberSpace lvl h = Some s →
  ∃ b h', QueueProbePacket lvl h = (Ok b, h') ∧ ledger sent gone [] h' ∧ (armed h → armed h') ∧
    (b = true ↔ ∃ p, p ∈ cont (Some s) ∧ outstanding p = true).
Proof.
  intros Hl Hs. unfold QueueProbePacket. rewrite (st_bind_ok _ _ _ _ _ (space_get _ _ _ Hs)).
  pose proof (get_ok _ _ _ _ _ _ Hl Hs) as [Hhist _ _ _ _].
  assert (Hfirst : FirstOutstanding (history s) = head (filter outstanding (cont (Some s)))).
  { unfold FirstOutstanding, HasOutstandingPackets. rewrite (h_num _ Hhist). unfold count_outstanding, cont.
    destruct (filter outstanding (contents (packets (history s)))) as [|x l]; [done|]. rewrite blen_cons. pose proof (blen_nonneg l).
    rewrite (proj2 (Z.ltb_lt _ _)) by lia. done. }
  rewrite Hfirst. destruct (filter outstanding (cont (Some s))) as [|p l] eqn:Hf; simpl.
  { exists false, h. split_and!; try done. split; [done|]. intros (p & Hp & Ho).
    assert (Hin : p ∈ filter outstanding (cont (Some s))) by (apply list_elem_of_filter; split; [by rewrite Ho|done]).
    rewrite Hf in Hin. by apply elem_of_nil in Hin. }
  assert (Hin : p ∈ filter outstanding (cont (Some s))) by (rewrite Hf; set_solver).
  apply list_elem_of_filter in Hin as [Ho Hp]. apply Is_true_true in Ho.
  destruct (lose_put lvl p s sent gone [] h Hl Hs Hp) as (hist & Hd & Hl' & Hpok & _).
  assert (Hsk : skippedPacket p = false) by (unfold outstanding in Ho; destruct (skippedPacket p); [by rewrite andb_false_r in Ho|done]).
  unfold packet_ok in Hpok. rewrite Hsk in Hpok. destruct Hpok as (Hinc & _ & _ & Hne).
  pose proof (bytes_of_nonneg _ (all_ok _ _ _ _ Hl')) as Hnn. destruct Hl' as [Ha Hb Hc _ Hbytes Hframes Hval].
  set (h1 := set_log (rev (OnLost <$> frames p) ++ log h) h).
  assert (He1 : queueFramesForRetransmission p h = (Ok tt, h1)).
  { unfold queueFramesForRetransmission. rewrite Hne. rewrite (st_bind_ok _ _ _ _ _ (notify_ok _ _ _)), notify_ok.
    unfold h1, frames. rewrite fmap_app, rev_app_distr, <- app_assoc. done. }
  rewrite (st_bind_ok _ _ _ _ _ He1). simpl in Hbytes. unfold bytes_in_flight in Hbytes. rewrite Hinc in Hbytes.
  replace (bytesInFlight (putSpace lvl (set_history hist s) h)) with (bytesInFlight h) in Hbytes by (by destruct lvl).
  set (h2 := set_bytesInFlight (bytesInFlight h1 - p_Length p) h1).
  assert (He2 : removeFromBytesInFlight p h1 = (Ok tt, h2)).
  { unfold removeFromBytesInFlight. rewrite Hinc, (proj2 (Z.ltb_ge _ _)); [done|]. simpl. lia. }
  rewrite (st_bind_ok _ _ _ _ _ He2).
  assert (Hs2 : getPacketNumberSpace lvl h2 = Some s) by (by destruct lvl).
  rewrite (st_bind_ok _ _ _ _ _ (on_history_ok _ _ _ _ _ Hs2 Hd)).
  eexists true, _. split; [done|]. split_and!; [| |by split; [exists p|]].
  2: { unfold armed. destruct lvl; simpl in *; try injection Hs as <-; done. }
  assert (Hall : all (putSpace lvl (set_history hist s) h2) = all (putSpace lvl (set_history hist s) h)) by (by destruct lvl).
  assert (Hlog : log (putSpace lvl (set_history hist s) h) = log h) by (by destruct lvl). rewrite Hlog in Hframes.
  split; rewrite ?Hall; try (by destruct lvl).
  - replace (bytesInFlight (putSpace lvl (set_history hist s) h2)) with (bytesInFlight h - p_Length p) by (by destruct lvl). simpl. lia.
  - replace (log (putSpace lvl (set_history hist s) h2)) with (rev (OnLost <$> frames p) ++ log h) by (by destruct lvl).
    rewrite acked_frames_lost, lost_frames_rev, Hframes.
    by rewrite <- !app_assoc, (Permutation_app_swap_app (lost_frames (log h)) (frames p)).
Qed.

(** ** Sending *)
Definition ack_eliciting (streamFrames frames : list (Frame F)) : bool := (0 <? blen streamFrames) || (0 <? blen frames).

Definition new_packet (t pn la : Z) (streamFrames frames : list (Frame F)) lvl size probe : packet :=
  mkPacket t pn streamFrames frames la size lvl probe true false false.

(** The history after sending. *)
Definition sent_history (p : packet) (hist : @sentPacketHistory F) : @sentPacketHistory F :=
  if ack_eliciting (StreamFrames p) (Frames p)
  then mkSentHistory (packets hist ++ [Some p]) (if outstanding p then numOutstanding hist + 1 else numOutstanding hist) (PacketNumber p)
  else mkSentHistory (if 0 <? blen (packets hist) then packets hist ++ [None] else packets hist) (numOutstanding hist) (PacketNumber p).

Lemma put_put lvl s s' (h : handler) : putSpace lvl s' (putSpace lvl s h) = putSpace lvl s' h.
Proof. by destruct lvl. Qed.

Lemma put_core lvl s s' (h h' : handler) : core h = core (putSpace lvl s h') → core (putSpace lvl s' h) = core (putSpace lvl s' h').
Proof. unfold core, has_tracker. destruct lvl; simpl; intros [= E1 E2 E3 E4 E5 E6 E7 E8 E9 E10 E11]; congruence. Qed.

Lemma SentPacket_core now t pn la sf fs lvl ecn size probe s h : getPacketNumberSpace lvl h = Some s →
  highestPacketNumber (history s) = InvalidPacketNumber ∨ pn = highestPacketNumber (history s) + 1 →
  (∀ e, ecnTracker h = Some e → ∃ e', ecn.SentPacket pn ecn e = Ok e') →
  let p := new_packet t pn la sf fs lvl size probe in
  ∃ h' s', SentPacket now t pn la sf fs lvl ecn size probe h = (Ok tt, h') ∧ pns s' = pns s ∧
    history s' = sent_history p (history s) ∧ largestSent s' = pn ∧
    lastAckElicitingPacketTime s' = (if ack_eliciting sf fs then t else lastAckElicitingPacketTime s) ∧
    ((∃ h0, h' = setLossDetectionTimer now h0) ∨
     alarm h' = alarm h ∧ lossTime s' = lossTime s ∧ lastAckElicitingPacketTime s' = lastAckElicitingPacketTime s) ∧
    core h' = core (putSpace lvl s' (set_bytesInFlight (bytesInFlight h + if ack_eliciting sf fs then size else 0) h)).
Proof.
  intros Hs Hseq Hecn p. unfold SentPacket. cbv zeta. fold (ack_eliciting sf fs).
  rewrite (st_bind_ok _ _ _ tt (set_bytesSent (bytesSent h + size) h)) by done.
  set (h1 := set_bytesSent _ h). assert (Hs1 : getPacketNumberSpace lvl h1 = Some s) by (by destruct lvl).
  rewrite (st_bind_ok _ _ _ _ _ (modify_space_ok _ _ _ _ Hs1)). set (s2 := set_largestSent pn s).
  set (ae := ack_eliciting sf fs). set (s3 := if ae then set_lastTime t s2 else s2).
  set (b := bytesInFlight h + if ae then size else 0).
  match goal with |- context [(if ae then ?a else ?b)] => set (step := if ae then a else b) end.
  assert (∃ h3, step (putSpace lvl s2 h1) = (Ok tt, h3) ∧ getPacketNumberSpace lvl h3 = Some s3 ∧
    core h3 = core (putSpace lvl s3 (set_bytesInFlight b h)) ∧ ecnTracker h3 = ecnTracker h ∧ alarm h3 = alarm h)
    as (h3 & He3 & Hs3 & Hc3 & Hec3 & Hal3).
  { unfold step, s3, b. destruct ae.
    - rewrite (st_bind_ok _ _ _ _ _ (modify_space_ok _ _ _ _ (get_put _ _ _))), put_put.
      eexists. split; [reflexivity|]. destruct (0 <? _); by destruct lvl.
    - eexists. split; [reflexivity|]. rewrite Z.add_0_r. by destruct lvl. }
  rewrite (st_bind_ok _ _ _ _ _ He3), (st_bind_ok _ _ _ h3 h3) by done.
  set (h4 := set_log (OnPacketSent t (bytesInFlight h3) pn size ae :: log h3) h3).
  rewrite (st_bind_ok _ _ _ tt h4) by done.
  match goal with |- context [match ecnTracker h3 with Some e => @?a e | None => ?b end] =>
    set (estep := match ecnTracker h3 with Some e => a e | None => b end) end.
  assert (∃ h5, estep h4 = (Ok tt, h5) ∧ core h5 = core h3 ∧ alarm h5 = alarm h3) as (h5 & He5 & Hc5 & Hal5).
  { unfold estep. rewrite Hec3. destruct (ecnTracker h) as [e|]; [|by eexists].
    destruct (bool_decide (lvl = Encryption1RTT)); [|by eexists].
    destruct (Hecn e eq_refl) as [e' He']. rewrite (st_lift_ok _ _ _ _ He').
    eexists. split_and!; [done| |done]. unfold core, has_tracker. simpl. by rewrite Hec3. }
  rewrite (st_bind_ok _ _ _ _ _ He5).
  assert (Hs5 : getPacketNumberSpace lvl h5 = Some s3) by (by rewrite (get_ext _ _ _ Hc5)).
  assert (Hh3 : history s3 = history s ∧ pns s3 = pns s ∧ largestSent s3 = pn ∧ lossTime s3 = lossTime s ∧
    lastAckElicitingPacketTime s3 = if ae then t else lastAckElicitingPacketTime s) by (unfold s3; by destruct ae).
  destruct Hh3 as (Hh3 & Hp3 & Hls3 & Hlt3 & Hla3).
  assert (Hcore : ∀ hist h6, core h6 = core (putSpace lvl (set_history hist s3) h5) →
    core h6 = core (putSpace lvl (set_history hist s3) (set_bytesInFlight b h))).
  { intros hist h6 ->. eapply put_core. by rewrite Hc5. }
  exists (if ae then setLossDetectionTimer now (putSpace lvl (set_history (sent_history p (history s)) s3) h5)
          else if peerCompletedAddressValidation h3 then putSpace lvl (set_history (sent_history p (history s)) s3) h5
          else setLossDetectionTimer now (putSpace lvl (set_history (sent_history p (history s)) s3) h5)),
    (set_history (sent_history p (history s)) s3).
  split_and!; try done.
  - assert (HA : ae = true → SentAckElicitingPacket p (history s3) = Ok (sent_history p (history s))).
    { intros Hae. unfold SentAckElicitingPacket, sent_history. rewrite Hh3. change (PacketNumber p) with pn.
      rewrite (checkSequential_ok _ _ Hseq). simpl. fold ae. by rewrite Hae. }
    assert (HN : ae = false → SentNonAckElicitingPacket pn (history s3) = Ok (sent_history p (history s))).
    { intros Hae. unfold SentNonAckElicitingPacket, sent_history. rewrite Hh3, (checkSequential_ok _ _ Hseq). simpl. fold ae. by rewrite Hae. }
    destruct ae; simpl.
    + by rewrite (st_bind_ok _ _ _ _ _ (on_history_ok _ _ _ _ _ Hs5 (HA eq_refl))).
    + rewrite (st_bind_ok _ _ _ _ _ (on_history_ok _ _ _ _ _ Hs5 (HN eq_refl))). by destruct (peerCompletedAddressValidation h3).
  - destruct ae; [left; by eexists|]. destruct (peerCompletedAddressValidation h3); [right|left; by eexists].
    replace (alarm (putSpace lvl _ h5)) with (alarm h5) by (by destruct lvl). split_and!; [congruence|done|done].
  - apply Hcore. destruct ae; [apply timer_core|]. destruct (peerCompletedAddressValidation h3); [done|apply timer_core].
Qed.

Lemma sent_history_ok p hist : history_ok hist → PacketNumber p ≠ InvalidPacketNumber →
  highestPacketNumber hist = InvalidPacketNumber ∨ PacketNumber p = highestPacketNumber hist + 1 →
  history_ok (sent_history p hist) ∧ highestPacketNumber (sent_history p hist) = PacketNumber p ∧
  contents (packets (sent_history p hist)) = contents (packets hist) ++ if ack_eliciting (StreamFrames p) (Frames p) then [p] else [].
Proof.
  intros Hh Hpn Hseq. unfold sent_history. destruct (ack_eliciting _ _); simpl.
  - split_and!; [|done|by rewrite contents_app]. apply append_ok; try done; [by intros q [= ->]|].
    rewrite contents_app, count_app, (h_num _ Hh). simpl. rewrite count_cons. change (count_outstanding []) with 0. destruct (outstanding p); lia.
  - rewrite app_nil_r. destruct (Z.ltb_spec 0 (blen (packets hist))) as [Hlt|Hge]; (split_and!; [|done|]).
    + apply append_ok; try done; [by intros E; rewrite E in Hlt|]. rewrite contents_app, count_app, (h_num _ Hh). simpl. by rewrite Z.add_0_r.
    + rewrite contents_app. simpl. by rewrite app_nil_r.
    + destruct (packets hist) as [|x l] eqn:E; [|rewrite blen_cons in Hge; pose proof (blen_nonneg l); lia].
      split; simpl; [|by left]. rewrite (h_num _ Hh), E. done.
    + done.
Qed.

Lemma skipped_history_ok pn (hist : @sentPacketHistory F) : history_ok hist → pn ≠ InvalidPacketNumber →
  highestPacketNumber hist = InvalidPacketNumber ∨ pn = highestPacketNumber hist + 1 →
  ∃ hist', SkippedPacket pn hist = Ok hist' ∧ history_ok hist' ∧ highestPacketNumber hist' = pn ∧
    contents (packets hist') = contents (packets hist) ++ [skipped_packet pn].
Proof.
  intros Hh Hpn Hseq. unfold SkippedPacket. rewrite (checkSequential_ok _ _ Hseq). eexists. split; [done|]. simpl.
  split_and!; [|done|by rewrite contents_app]. apply append_ok; try done; [by intros q [= <-]|].
  rewrite contents_app, count_app, (h_num _ Hh). simpl. rewrite count_cons. change (count_outstanding []) with 0. simpl. lia.
Qed.

Lemma skipped_packet_ok pn : packet_ok (@skipped_packet F pn).
Proof. done. Qed.

Hypothesis rng_range : ∀ n b, 0 < b → 0 ≤ rng n b < b.

Lemma pns_Pop_spec g : pns_ok g →
  let '(skipped, pn, g') := pns_Pop rng g in
  pns_ok g' ∧ pn = (if skipped then pns_next g + 1 else pns_next g) ∧ pns_next g' = pn + 1.
Proof.
  intros [Hn Hg]. destruct g as [g|g]; simpl in *.
  - unfold pns_ok. simpl. split_and!; lia || done.
  - pose proof (skipping_Pop_spec rng rng_range g Hg) as Hs. destruct (skipping_Pop rng g) as [[skipped pn] g'].
    destruct Hs as (Hg' & _ & Hpn & Hnx & _). simpl. unfold pns_ok. simpl. split_and!; [destruct skipped; lia|done|done|done].
Qed.

(** After [PopPacketNumber]: the packet number can be used, and the space is in
    order but for the packet number itself. *)
Lemma PopPacketNumber_ok lvl s sent gone extra h : ledger sent gone extra h → getPacketNumberSpace lvl h = Some s →
  ∃ pn s', PopPacketNumber rng lvl h = (Ok pn, putSpace lvl s' h) ∧ 0 ≤ pn ∧
    (highestPacketNumber (history s') = InvalidPacketNumber ∨ pn = highestPacketNumber (history s') + 1) ∧
    history_ok (history s') ∧ Forall packet_ok (contents (packets (history s'))) ∧
    pns_ok (pns s') ∧ pns_next (pns s') = pn + 1 ∧
    frames_of (cont (Some s')) = frames_of (cont (Some s)) ∧ bytes_of (cont (Some s')) = bytes_of (cont (Some s)) ∧
    lossTime s' = lossTime s ∧ lastAckElicitingPacketTime s' = lastAckElicitingPacketTime s ∧
    Forall (λ p, skippedPacket p = false → lastAckElicitingPacketTime s ≠ 0) (contents (packets (history s'))).
Proof.
  intros Hl Hs. pose proof (get_ok _ _ _ _ _ _ Hl Hs) as [Hhist Hpk Hpns Hnext Hlast].
  unfold PopPacketNumber. rewrite (st_bind_ok _ _ _ _ _ (space_get _ _ _ Hs)).
  pose proof (pns_Pop_spec (pns s) Hpns) as Hpop. destruct (pns_Pop rng (pns s)) as [[skipped pn] g].
  destruct Hpop as (Hg & Hpn & Hgn). pose proof (proj1 Hpns) as Hge.
  rewrite (st_bind_ok _ _ _ tt (putSpace lvl (set_pns g s) h)) by done. destruct skipped.
  - destruct (skipped_history_ok (pn - 1) (history s) Hhist) as (hist & Hsk & Hok & Hhi & Hc).
    { unfold InvalidPacketNumber. lia. }
    { destruct Hnext; [by left|right; lia]. }
    rewrite (st_bind_ok _ _ _ _ _ (on_history_ok _ _ _ _ _ (get_put lvl (set_pns g s) h) Hsk)), put_put.
    eexists pn, (set_history hist (set_pns g s)). split; [done|]. split_and!; try done; simpl.
    + lia.
    + right. lia.
    + rewrite Hc. apply Forall_app. split; [done|]. repeat constructor; apply skipped_packet_ok.
    + unfold cont. simpl. rewrite Hc, frames_of_app. simpl. by rewrite app_nil_r.
    + unfold cont. simpl. rewrite Hc, bytes_of_app. simpl. unfold bytes_in_flight. simpl. lia.
    + rewrite Hc. apply Forall_app. split; [done|]. by repeat constructor.
  - rewrite (st_bind_ok _ _ _ tt (putSpace lvl (set_pns g s) h)) by done.
    exists pn, (set_pns g s). split; [done|]. split_and!; try done; simpl; [lia|]. destruct Hnext; [by left|right; lia].
Qed.

(** Sending a packet with the next packet number. *)
Definition send_marked (now t la : Z) (sf fs : list (Frame F)) lvl ecn size probe : st handler Z :=
  pn ← PopPacketNumber rng lvl;
  _ ← SentPacket now t pn la sf fs lvl ecn size probe;
  mret pn.

Definition ecn_allowed (ecn : ECN) (h : handler) : Prop :=
  ∀ e pn, ecnTracker h = Some e → ∃ e', ecn.SentPacket pn ecn e = Ok e'.

Lemma send_marked_ok now t la sf fs lvl ecn size probe s sent gone h : ledger sent gone [] h → getPacketNumberSpace lvl h = Some s →
  0 ≤ size → t ≠ 0 → ecn_allowed ecn h →
  ∃ pn h', send_marked now t la sf fs lvl ecn size probe h = (Ok pn, h') ∧
    ledger ((handled fs ++ handled sf) ++ sent) gone [] h' ∧ (armed h → armed h').
Proof.
  intros Hl Hs Hsize Ht Hecn.
  destruct (PopPacketNumber_ok lvl s sent gone [] h Hl Hs) as (pn & s1 & He1 & Hpn & Hseq & Hok1 & Hpk1 & Hpns1 & Hnx1 & Hf1 & Hb1 & Hlt1 & Hla1 & Hlast1).
  unfold send_marked. rewrite (st_bind_ok _ _ _ _ _ He1).
  destruct (SentPacket_core now t pn la sf fs lvl ecn size probe s1 (putSpace lvl s1 h) (get_put _ _ _) Hseq)
    as (h2 & s2 & He2 & Hpns2 & Hh2 & _ & Hla2 & Halarm & Hc2).
  { intros e He. apply Hecn. by destruct lvl. }
  rewrite (st_bind_ok _ _ _ _ _ He2). exists pn, h2. split; [done|].
  set (p := new_packet t pn la sf fs lvl size probe) in *. set (ae := ack_eliciting sf fs) in *.
  destruct (sent_history_ok p (history s1) Hok1) as (Hok2 & Hhi2 & Hcont2); [unfold InvalidPacketNumber; simpl; lia|done|].
  change (ack_eliciting (StreamFrames p) (Frames p)) with ae in Hcont2.
  assert (Hpok : ae = true → packet_ok p).
  { intros Hae. unfold packet_ok. simpl. split_and!; try done. unfold ae, ack_eliciting in Hae.
    pose proof (blen_nonneg sf). pose proof (blen_nonneg fs). lia. }
  set (b := bytesInFlight h + if ae then size else 0) in *.
  assert (Hc2' : core h2 = core (putSpace lvl s2 (set_bytesInFlight b h))).
  { rewrite Hc2. unfold b. by destruct lvl. }
  assert (Hl2 : ledger ((handled fs ++ handled sf) ++ sent) gone [] h2).
  2: { split; [done|]. intros Har. destruct Halarm as [[h0 Heq]|(Hal & Hlt & Hla)].
    - rewrite Heq in *. by eapply timer_ledger_armed.
    - revert Har. unfold armed. injection Hc2' as _ _ -> _ _ _ _ -> _ _ _. rewrite Hal.
      destruct lvl; simpl in *; try injection Hs as <-; rewrite ?Hlt, ?Hlt1, ?Hla, ?Hla1; done. }
  apply (ledger_ext (putSpace lvl s2 (set_bytesInFlight b h))); [done|].
  assert (Hle : ledger sent gone (if ae then [p] else []) (set_bytesInFlight b h)).
  { destruct Hl. split; try done; [destruct ae; [repeat constructor; by apply Hpok|done]|]. simpl.
    change (all (set_bytesInFlight b h)) with (all h). unfold b. simpl in l_bytes0.
    destruct ae; simpl; unfold bytes_in_flight; simpl; lia. }
  eapply (put_ledger lvl s s2); [exact Hle|by destruct lvl| |constructor| |].
  - split; rewrite ?Hh2, ?Hpns2; try done.
    + rewrite Hcont2. apply Forall_app. split; [done|]. destruct ae; [repeat constructor; by apply Hpok|constructor].
    + right. rewrite Hnx1, Hhi2. done.
    + rewrite Hcont2, Hla2, Hla1. apply Forall_app. split; [|destruct ae; by repeat constructor].
      eapply Forall_impl; [exact Hlast1|]. intros q Hq Hsk. destruct ae; [done|auto].
  - unfold cont in *. rewrite Hh2, Hcont2, bytes_of_app, Hb1. simpl. destruct ae; simpl; lia.
  - intros l Hp. unfold cont in *. rewrite Hh2, Hcont2, frames_of_app, Hf1, Hp.
    assert (Hfr : handled fs ++ handled sf = frames_of (if ae then [p] else [])).
    { destruct ae eqn:Hae; simpl; [unfold frames; simpl; by rewrite app_nil_r|]. unfold ae, ack_eliciting in Hae.
      apply orb_false_iff in Hae as [H1 H2]. destruct sf; [|rewrite blen_cons in H1; pose proof (blen_nonneg sf); lia].
      destruct fs; [done|rewrite blen_cons in H2; pose proof (blen_nonneg fs); lia]. }
    rewrite Hfr, (Permutation_app_comm (frames_of (contents _)) (frames_of (if ae then [p] else []))), perm_move. done.
Qed.
(** Sending as the connection does: the mark is that of [ECNMode]. *)
Definition send (now t la : Z) (sf fs : list (Frame F)) lvl (short : bool) size probe : st handler Z :=
  ecn ← ECNMode short; send_marked now t la sf fs lvl ecn size probe.

Lemma ECNMode_ok short sent gone extra h : ledger sent gone extra h →
  ∃ ecn h', ECNMode short h = (Ok ecn, h') ∧ core h' = core h ∧ alarm h' = alarm h ∧ ecn_allowed ecn h'.
Proof.
  intros Hl. pose proof (l_ecn _ _ _ _ Hl) as He. unfold ECNMode, ecn_allowed, has_tracker in *. destruct (enableECN h) eqn:En; simpl.
  2: { exists ECNUnsupported, h. split_and!; try done. by destruct (ecnTracker h). }
  destruct short; simpl.
  - destruct (ecnTracker h) as [e|] eqn:Et; [|done].
    exists (ecn.Mode e).1, (set_ecnTracker (Some (ecn.Mode e).2) h). split_and!; [done| |done|].
    + unfold core, has_tracker. cbn [ecnTracker set_ecnTracker]. by rewrite Et.
    + intros e0 pn _. unfold ecn.Mode. destruct (ecn.state e) eqn:Ee; simpl; rewrite ?Ee; simpl; by eexists.
  - exists ECNNon, h. split_and!; try done. intros. by eexists.
Qed.

Lemma send_ok now t la sf fs lvl short size probe s sent gone h : ledger sent gone [] h → getPacketNumberSpace lvl h = Some s →
  0 ≤ size → t ≠ 0 →
  ∃ pn h', send now t la sf fs lvl short size probe h = (Ok pn, h') ∧
    ledger ((handled fs ++ handled sf) ++ sent) gone [] h' ∧ (armed h → armed h').
Proof.
  intros Hl Hs Hsize Ht. destruct (ECNMode_ok short _ _ _ _ Hl) as (ecn & h1 & He1 & Hc1 & Hal1 & Hecn).
  unfold send. rewrite (st_bind_ok _ _ _ _ _ He1).
  destruct (send_marked_ok now t la sf fs lvl ecn size probe s sent gone h1) as (pn & h2 & He2 & Hl2 & Ha2); try done.
  - by apply (ledger_ext h).
  - by rewrite (get_ext _ _ _ Hc1).
  - exists pn, h2. split_and!; try done. intros Ha. apply Ha2. revert Ha. unfold armed. rewrite Hal1.
    by injection Hc1 as _ _ -> _ _ _ _ -> _ _ _.
Qed.
End ledger.

End sentLedger.
