(* ===== verification/SentSafety.v ===== *)
(** The sent packet handler as a whole: any sequence of the calls the connection
    makes keeps the books, never panics, and fails only on ACK frames for
    packets that were not sent. *)

From S2P Require Import Prelude.
From S2P Require Import Protocol.
From S2P Require Import AckFrame.
From S2P Require Import SentHistory.
From S2P Require Import Ecn.
From S2P Require Import SentHandler.
From S2P Require Import SentLedger.

Module sentSafety.
Import protocol rtt ack sentHistory sentHandler sentLedger.

Section safety.
Context {F : Type} (rng : nat → Z → Z).
Hypothesis rng_range : ∀ n b, 0 < b → 0 ≤ rng n b < b.

Abbreviation packet := (@packet F) (only parsing).
Abbreviation handler := (@sentPacketHandler F) (only parsing).

(** * Dropping packet number spaces *)
Lemma remove_bytes ps (h : handler) : Forall packet_ok ps → bytes_of ps ≤ bytesInFlight h →
  st_iter removeFromBytesInFlight ps h = (Ok tt, set_bytesInFlight (bytesInFlight h - bytes_of ps) h).
Proof.
  revert h. induction ps as [|p ps IH]; intros h Hps Hb; simpl in *; [rewrite Z.sub_0_r; by destruct h|].
  apply Forall_cons in Hps as [Hp Hps]. pose proof (bytes_of_nonneg _ Hps). pose proof (bytes_of_nonneg [p] ltac:(by repeat constructor)) as Hp0.
  simpl in Hp0. unfold bytes_in_flight in *. destruct (includedInBytesInFlight p) eqn:Ei.
  - rewrite (st_bind_ok _ _ _ tt (set_bytesInFlight (bytesInFlight h - p_Length p) h)).
    + rewrite IH by (done || simpl; lia). simpl. by rewrite Z.sub_add_distr.
    + unfold removeFromBytesInFlight. by rewrite Ei, (proj2 (Z.ltb_ge _ _)) by lia.
  - rewrite (st_bind_ok _ _ _ tt h) by (unfold removeFromBytesInFlight; by rewrite Ei). by rewrite IH by (done || lia).
Qed.

(** The packets that leave with the keys of an encryption level. *)
Fixpoint prefix_0RTT (ps : list packet) : list packet :=
  match ps with
  | p :: ps => if bool_decide (p_EncryptionLevel p = Encryption0RTT) || skippedPacket p then p :: prefix_0RTT ps else []
  | [] => []
  end.

Definition dropped (lvl : EncryptionLevel) (h : handler) : list packet :=
  match lvl with
  | EncryptionInitial => cont (initialPackets h)
  | EncryptionHandshake => cont (handshakePackets h)
  | Encryption0RTT => prefix_0RTT (cont (Some (appDataPackets h)))
  | Encryption1RTT => []
  end.

Lemma drop0RTT_ok ps sent gone (h : handler) : ledger sent gone [] h → cont (Some (appDataPackets h)) = ps →
  ∃ h', drop0RTT_loop ps h = (Ok tt, h') ∧ ledger sent (frames_of (prefix_0RTT ps) ++ gone) [] h'.
Proof.
  revert gone h. induction ps as [|p ps IH]; intros gone h Hl Hc; simpl; [by exists h|].
  rewrite <- negb_orb. destruct (_ || _) eqn:E; simpl; [|by exists h].
  assert (Hs : getPacketNumberSpace Encryption0RTT h = Some (appDataPackets h)) by done.
  pose proof (get_ok _ _ _ _ _ _ Hl Hs) as Hsok. pose proof Hsok as [Hhist Hpk _ _ Hlast]. unfold cont in Hc.
  destruct (Remove_spec (history (appDataPackets h)) p Hhist) as (hist & sk & Hrm & Hhist' & Hhigh & Hperm & Hskf & c1 & c2 & Hord & Hord').
  { rewrite Hc. set_solver. }
  pose proof (ascending_NoDup _ (history_ascending _ Hhist)) as Hnd. rewrite Hc in *.
  assert (c1 = [] ∧ sk = [] ∧ c2 = ps) as (-> & -> & ->).
  { apply NoDup_cons in Hnd as [Hnin _]. destruct c1 as [|x c1]; simpl in Hord.
    - destruct sk as [|y sk]; simpl in Hord; [by simplify_eq|]. simplify_eq. exfalso. apply Hnin. set_solver.
    - simplify_eq. exfalso. apply Hnin. set_solver. }
  apply Forall_cons in Hpk as [Hpok Hpk]. simpl in Hord'.
  pose proof (bytes_of_nonneg _ (all_ok _ _ _ _ Hl)) as Hnn.
  set (hp := putSpace Encryption0RTT (set_history hist (appDataPackets h)) h).
  assert (Hlp : ledger sent (frames p ++ gone) [p] hp).
  { eapply (put_ledger Encryption0RTT _ (set_history hist (appDataPackets h))); [exact Hl|done| |by repeat constructor| |].
    - apply space_ok_history; try done. rewrite Hc, Hord'. set_solver.
    - unfold cont. simpl. rewrite Hc, Hord'. simpl. lia.
    - intros l. unfold cont. simpl. rewrite Hc, Hord'. simpl. intros ->. rewrite <- !app_assoc.
      by rewrite (Permutation_app_swap_app gone (frames p)). }
  destruct (subtract_ok p sent (frames p ++ gone) [] hp Hlp) as (h2 & He2 & Hl2 & Hg2 & _).
  assert (Hcomm : (_ ← removeFromBytesInFlight p;
    on_history Encryption0RTT (λ hist, match Remove (PacketNumber p) hist with Err _ => Ok hist | r => r end)) h = (Ok tt, h2)).
  { unfold removeFromBytesInFlight in *. destruct (includedInBytesInFlight p).
    - change (bytesInFlight hp) with (bytesInFlight h) in He2. destruct (bytesInFlight h <? p_Length p) eqn:Eb; [done|].
      rewrite (st_bind_ok _ _ _ tt (set_bytesInFlight (bytesInFlight h - p_Length p) h)) by (by rewrite Eb).
      injection He2 as <-. by rewrite (on_history_ok Encryption0RTT _ (appDataPackets h) hist) by (done || by rewrite Hrm).
    - rewrite (st_bind_ok _ _ _ tt h) by done. injection He2 as <-.
      by rewrite (on_history_ok Encryption0RTT _ (appDataPackets h) hist) by (done || by rewrite Hrm). }
  destruct (IH (frames p ++ gone) h2 Hl2) as (h3 & He3 & Hl3).
  { specialize (Hg2 Encryption0RTT). simpl in Hg2. injection Hg2 as ->. unfold cont. simpl. done. }
  exists h3. split.
  - by rewrite <- st_bind_assoc, (st_bind_ok _ _ _ _ _ Hcomm).
  - eapply perm_gone; [|exact Hl3]. simpl. rewrite <- !app_assoc. by rewrite Permutation_app_swap_app.
Qed.
(** The spaces of Initial and Handshake packets are dropped as a whole. *)
Lemma drop_space lvl (f : handler → handler) sent gone (h : handler) : ledger sent gone [] h →
  (∀ x, f x = set_initialPackets None x) ∧ lvl = EncryptionInitial ∨
  (∀ x, f x = set_handshakePackets None x) ∧ lvl = EncryptionHandshake ∧ peerCompletedAddressValidation h = true →
  st_iter removeFromBytesInFlight (dropped lvl h) h =
    (Ok tt, set_bytesInFlight (bytesInFlight h - bytes_of (dropped lvl h)) h) ∧
  ledger sent (frames_of (dropped lvl h) ++ gone) [] (f (set_bytesInFlight (bytesInFlight h - bytes_of (dropped lvl h)) h)).
Proof.
  intros Hl Hf. pose proof (all_ok _ _ _ _ Hl) as Hok. unfold all in Hok. apply Forall_app in Hok as [Hok1 [Hok2 Hok3]%Forall_app].
  pose proof (bytes_of_nonneg _ Hok1). pose proof (bytes_of_nonneg _ Hok2). pose proof (bytes_of_nonneg _ Hok3).
  destruct Hl as [A1 A2 A3 A4 A5 A6 A7 A8 A9]. unfold all in A5, A6. rewrite !bytes_of_app in A5. rewrite !frames_of_app in A6. change (bytes_of []) with 0 in A5.
  split.
  { destruct Hf as [[_ ->]|(_ & -> & _)]; (rewrite remove_bytes; [done|done|cbn [dropped]; lia]). }
  destruct Hf as [[Hf ->]|(Hf & -> & Hv)]; rewrite Hf; split; try done.
  - unfold all. cbn -[cont bytes_of all app]. rewrite !bytes_of_app. change (cont None) with (@nil packet). change (bytes_of []) with 0. lia.
  - rewrite A6. unfold all. simpl. rewrite frames_of_app, <- !app_assoc. by rewrite (Permutation_app_swap_app gone).
  - intros Hc. split; [done|]. by apply A8.
  - unfold all. cbn -[cont bytes_of all app]. rewrite !bytes_of_app. change (cont None) with (@nil packet). change (bytes_of []) with 0. lia.
  - rewrite A6. unfold all. simpl. rewrite frames_of_app, <- !app_assoc.
    by rewrite (Permutation_app_swap_app (frames_of (cont (initialPackets h)))), (Permutation_app_swap_app gone).
  - intros Hc. split; [by apply A8|done].
Qed.

Lemma DropPackets_ok now lvl sent gone (h : handler) : ledger sent gone [] h → lvl ≠ Encryption1RTT →
  ∃ h', DropPackets now lvl h = (Ok tt, h') ∧ ledger sent (frames_of (dropped lvl h) ++ gone) [] h' ∧ (armed h → armed h').
Proof.
  intros Hl Hlvl. unfold DropPackets.
  set (h0 := if bool_decide (perspective h = PerspectiveClient) && bool_decide (lvl = EncryptionHandshake)
             then set_peerCompletedAddressValidation true h else h).
  assert (Hl0 : ledger sent gone [] h0) by (unfold h0; destruct (_ && _); [destruct Hl; by split|done]).
  assert (Hsp : initialPackets h0 = initialPackets h ∧ handshakePackets h0 = handshakePackets h ∧
    appDataPackets h0 = appDataPackets h ∧ (armed h → armed h0)) by (unfold h0; by destruct (_ && _)).
  destruct Hsp as (Hi & Hh & Ha & Har).
  assert (Hd : dropped lvl h = dropped lvl h0) by (destruct lvl; simpl; congruence). rewrite Hd.
  set (fin := λ h : handler, setLossDetectionTimer now (set_ptoMode SendNone (set_numProbesToSend 0 (set_ptoCount 0 h)))).
  assert (Hfin : ∀ g h1, ledger sent g [] h1 → ledger sent g [] (fin h1) ∧ (armed h → armed (fin h1))).
  { intros g h1 Hl1. assert (Hlf : ledger sent g [] (fin h1)) by (apply (ledger_ext h1); [unfold fin; by rewrite timer_core|done]).
    split; [done|]. intros _. by eapply timer_ledger_armed. }
  destruct lvl; [| | |done]; cbv zeta.
  - destruct (initialPackets h0) as [s|] eqn:Es; [|exists h0; simpl; by rewrite Es].
    destruct (drop_space EncryptionInitial (set_initialPackets None) sent gone h0 Hl0) as [He Hl1]; [by left|].
    simpl in He. rewrite Es in He. rewrite (st_bind_ok _ _ _ _ _ He). eexists. split; [reflexivity|].
    apply Hfin. simpl in *. by rewrite Es in *.
  - destruct (handshakePackets h0) as [s|] eqn:Es; [|exists h0; simpl; by rewrite Es].
    destruct (drop_space EncryptionHandshake (set_handshakePackets None) sent gone h0 Hl0) as [He Hl1].
    { right. split_and!; try done. unfold h0. destruct (perspective h) eqn:Hp; [|done]. apply (l_validated _ _ _ _ Hl). by right. }
    simpl in He. rewrite Es in He. rewrite (st_bind_ok _ _ _ _ _ He). eexists. split; [reflexivity|].
    apply Hfin. simpl in *. by rewrite Es in *.
  - destruct (drop0RTT_ok _ sent gone h0 Hl0 eq_refl) as (h1 & He & Hl1).
    unfold cont in He. rewrite (st_bind_ok _ _ _ _ _ He). eexists. split; [reflexivity|]. by apply Hfin.
Qed.

(** * A Retry *)
Lemma requeue_all ps (h : handler) : Forall packet_ok ps →
  st_iter requeue ps h = (Ok tt, set_log (rev (OnLost <$> frames_of ps) ++ log h) h).
Proof.
  intros Hps. revert h. induction Hps as [|p ps Hp Hps IH]; intros h; simpl; [by destruct h|].
  rewrite (st_bind_ok _ _ _ tt (set_log (rev (OnLost <$> frames p) ++ log h) h)).
  - rewrite IH. simpl. by rewrite fmap_app, rev_app_distr, <- app_assoc.
  - unfold requeue, packet_ok in *. destruct (skippedPacket p).
    + rewrite orb_true_r. destruct Hp as [-> _]. by destruct h.
    + destruct Hp as (_ & -> & _ & Hne). simpl. unfold queueFramesForRetransmission. rewrite Hne.
      rewrite (st_bind_ok _ _ _ _ _ (notify_ok _ _ _)), notify_ok. simpl. unfold frames.
      by rewrite fmap_app, rev_app_distr, <- app_assoc.
Qed.

Lemma newPacketNumberSpace_ok pn skip : 0 ≤ pn → space_ok (@newPacketNumberSpace F rng pn skip).
Proof.
  intros Hpn. unfold newPacketNumberSpace. split; simpl; try done; [by split; [|left]| |by left].
  unfold pns_ok. destruct skip; simpl; [|done]. split; [done|]. unfold generator_ok. simpl.
  pose proof (rng_range 0 (2 * SkipPacketInitialPeriod) ltac:(done)). unfold SkipPacketInitialPeriod, SkipPacketMaxPeriod in *. lia.
Qed.

Lemma pns_Peek_nonneg g : pns_ok g → 0 ≤ pns_Peek g.
Proof.
  intros [Hn Hg]. destruct g as [g|g]; simpl in *; [done|]. unfold skipping_Peek. case_match; lia.
Qed.

Lemma ResetForRetry_ok now sent gone s (h : handler) : ledger sent gone [] h → initialPackets h = Some s →
  cont (handshakePackets h) = [] →
  ∃ h', ResetForRetry rng now h = (Ok tt, h') ∧ ledger sent gone [] h' ∧ armed h'.
Proof.
  intros Hl Hs Hh. pose proof Hl as [A1 A2 A3 A4 A5 A6 A7 A8 A9]. rewrite Hs in A1. simpl in A1.
  unfold ResetForRetry. rewrite (st_bind_ok _ _ _ tt (set_bytesInFlight 0 h)) by done.
  rewrite (st_bind_ok _ _ _ s (set_bytesInFlight 0 h)) by (apply space_get; done). cbv zeta.
  rewrite (st_bind_ok _ _ _ _ _ (requeue_all _ _ (so_packets _ A1))).
  rewrite (st_bind_ok _ _ _ (appDataPackets h) (set_log (rev (OnLost <$> frames_of (cont (Some s))) ++ log h) (set_bytesInFlight 0 h)))
    by (apply space_get; done).
  rewrite (st_bind_ok _ _ _ _ _ (requeue_all _ _ (so_packets _ A3))).
  eexists. split; [reflexivity|]. set (h1 := set_log _ (set_log _ _)).
  set (h2 := if ptoCount h1 =? 0 then _ else h1).
  assert (Hlog : log h2 = log h1 ∧ handshakePackets h2 = handshakePackets h ∧ bytesInFlight h2 = 0 ∧ perspective h2 = perspective h ∧
    peerCompletedAddressValidation h2 = peerCompletedAddressValidation h ∧ handshakeConfirmed h2 = handshakeConfirmed h ∧
    enableECN h2 = enableECN h ∧ ecnTracker h2 = ecnTracker h) by (unfold h2; by destruct (_ =? _)).
  destruct Hlog as (Hlog & B1 & B2 & B3 & B4 & B5 & B6 & B7).
  assert (Hconf : handshakeConfirmed h ≠ true) by (intros Hc; destruct (A8 Hc); congruence).
  split; [|by unfold armed; simpl; rewrite B5]. split; simpl; rewrite ?B1, ?B3, ?B4, ?B5, ?B6; try done.
  - apply newPacketNumberSpace_ok, pns_Peek_nonneg, A1.
  - apply newPacketNumberSpace_ok, pns_Peek_nonneg, A3.
  - unfold all. cbn -[cont]. rewrite B1, Hh, B2. done.
  - assert (Hlog1 : log h1 = rev (OnLost <$> frames_of (cont (Some (appDataPackets h)))) ++
      rev (OnLost <$> frames_of (cont (Some s))) ++ log h) by done.
    rewrite Hlog, Hlog1, !acked_frames_lost, !lost_frames_rev, A6. unfold all. cbn [initialPackets handshakePackets appDataPackets set_initialPackets set_appDataPackets set_alarm set_ptoCount].
    rewrite B1, Hh, Hs. change (cont (Some (newPacketNumberSpace _ _ _))) with (@nil packet). simpl. rewrite frames_of_app, app_nil_r.
    rewrite <- !app_assoc. f_equiv.
    rewrite (Permutation_app_comm (frames_of (contents (packets (history (appDataPackets h)))))), <- !app_assoc.
    by rewrite (app_assoc (lost_frames _)), (Permutation_app_swap_app (lost_frames _ ++ _)), <- !app_assoc.
  - by unfold has_tracker; simpl; rewrite B7.
Qed.
(** * Timeouts *)
Lemma loss_space t lvl (h : handler) : getLossTimeAndSpace h = (t, lvl) → t ≠ 0 → is_Some (getPacketNumberSpace lvl h).
Proof.
  unfold getLossTimeAndSpace. intros He Ht.
  destruct (initialPackets h) eqn:E1, (handshakePackets h) eqn:E2; repeat case_match; simplify_eq/=; rewrite ?E1, ?E2; eauto.
Qed.

(** A space with outstanding packets has a time of its last ack-eliciting packet. *)
Lemma outstanding_last (s : @packetNumberSpace F) : space_ok s → hasOutstanding (Some s) = true → lastAckElicitingPacketTime s ≠ 0.
Proof.
  intros [Hh _ _ _ Hl] Ho. simpl in Ho. unfold HasOutstandingPackets in Ho. rewrite (h_num _ Hh) in Ho. unfold count_outstanding in Ho.
  destruct (filter outstanding (contents (packets (history s)))) as [|p l] eqn:Hf; [done|].
  assert (Hp : p ∈ filter outstanding (contents (packets (history s)))) by (rewrite Hf; set_solver).
  apply list_elem_of_filter in Hp as [Hp Hin]. rewrite Forall_forall in Hl. apply (Hl p Hin).
  apply Is_true_true in Hp. unfold outstanding in Hp. destruct (skippedPacket p); [by rewrite andb_false_r in Hp|done].
Qed.

Lemma pto_space now t lvl sent gone extra (h : handler) : ledger sent gone extra h →
  (handshakeConfirmed h = true → lastAckElicitingPacketTime (appDataPackets h) ≠ 0) →
  getPTOTimeAndSpace now h = Some (t, lvl) → is_Some (getPacketNumberSpace lvl h) ∧ lvl ≠ Encryption0RTT.
Proof.
  intros Hl Hc He. destruct Hl as [_ A2 _ _ _ _ A7 A8 _]. unfold getPTOTimeAndSpace in He.
  destruct (negb (handshakeConfirmed h) && negb (hasOutstandingCryptoPackets h)) eqn:E.
  { destruct (peerCompletedAddressValidation h); [done|]. injection He as _ <-.
    destruct (initialPackets h) eqn:E1; simpl; [by rewrite E1|]. destruct (handshakePackets h); [done|].
    by specialize (A7 ltac:(by left)). }
  destruct (initialPackets h) eqn:E1.
  { destruct (handshakePackets h) eqn:E2; repeat case_match; simplify_eq/=; rewrite ?E1, ?E2; eauto. }
  destruct (handshakePackets h) eqn:E2.
  - assert (Hlast : lastAckElicitingPacketTime p ≠ 0).
    { apply outstanding_last; [done|]. destruct (handshakeConfirmed h); [by destruct (A8 eq_refl)|]. simpl in E.
      unfold hasOutstandingCryptoPackets in E. rewrite E1, E2 in E. simpl in *. by destruct (HasOutstandingPackets _). }
    rewrite (proj2 (Z.eqb_neq _ _) Hlast) in He. simpl in He. repeat case_match; simplify_eq/=; rewrite ?E1, ?E2; eauto.
  - destruct (handshakeConfirmed h); simpl in *.
    + rewrite (proj2 (Z.eqb_neq _ _) (Hc eq_refl)) in He. simpl in He. injection He as _ <-. simpl. eauto.
    + unfold hasOutstandingCryptoPackets in E. by rewrite E1, E2 in E.
Qed.

Lemma probe_skip_ok sent gone (h : handler) : ledger sent gone [] h →
  ∃ h', (pn ← PopPacketNumber rng Encryption1RTT; _ ← on_history Encryption1RTT (SkippedPacket pn);
         st_modify (set_ptoMode SendPTOAppData)) h = (Ok tt, h') ∧ ledger sent gone [] h'.
Proof.
  intros Hl. assert (Hs : getPacketNumberSpace Encryption1RTT h = Some (appDataPackets h)) by done.
  destruct (PopPacketNumber_ok rng rng_range _ _ _ _ _ _ Hl Hs)
    as (pn & s1 & He1 & Hpn & Hseq & Hok1 & Hpk1 & Hpns1 & Hnx1 & Hf1 & Hb1 & _ & Hla1 & Hlast1).
  rewrite (st_bind_ok _ _ _ _ _ He1).
  destruct (skipped_history_ok pn (history s1) Hok1) as (hist & Hsk & Hok & Hhi & Hc); [unfold InvalidPacketNumber; lia|done|].
  rewrite (st_bind_ok _ _ _ _ _ (on_history_ok _ _ _ _ _ (get_put Encryption1RTT s1 h) Hsk)), put_put.
  eexists. split; [reflexivity|].
  apply (ledger_ext (putSpace Encryption1RTT (set_history hist s1) h)); [done|].
  eapply (put_ledger Encryption1RTT _ (set_history hist s1)); [exact Hl|done| |constructor| |].
  - split; simpl; try done.
    + rewrite Hc. apply Forall_app. split; [done|]. by repeat constructor.
    + right. lia.
    + rewrite Hc, Hla1. apply Forall_app. split; [done|]. by repeat constructor.
  - unfold cont in *. simpl. rewrite Hc, bytes_of_app, Hb1. simpl. unfold bytes_in_flight. simpl. lia.
  - intros l. unfold cont in *. simpl. rewrite Hc, (frames_of_app (contents (packets (history s1)))), Hf1. simpl. by rewrite app_nil_r.
Qed.

Lemma lossDetectionTimeout_ok now sent gone (h : handler) : ledger sent gone [] h → armed h → alarm h ≠ 0 →
  ∃ h', lossDetectionTimeout rng now h = (Ok tt, h') ∧ ledger sent gone [] h'.
Proof.
  intros Hl Har Hal. unfold lossDetectionTimeout. destruct (getLossTimeAndSpace h) as [t lvl] eqn:Elt.
  destruct (Z.eqb_spec t 0) as [->|Ht]; simpl.
  2: { destruct (loss_space _ _ _ Elt Ht) as [s Hs]. destruct (detectLostPackets_ok now lvl s sent gone [] h Hl Hs) as (h1 & _ & He & Hl1 & _). by exists h1. }
  destruct ((bytesInFlight h =? 0) && negb (peerCompletedAddressValidation h)) eqn:Eb.
  { apply andb_true_iff in Eb as [_ Hv]. pose proof (l_validated _ _ _ _ Hl) as Hval.
    destruct (initialPackets h), (handshakePackets h); try (eexists; split; [reflexivity|]; by apply (ledger_ext h)).
    rewrite Hval in Hv by (by left). done. }
  destruct (getPTOTimeAndSpace now h) as [[pt lvl2]|] eqn:Ep; [|by exists h].
  destruct (pto_space now pt lvl2 sent gone [] h Hl) as [[s Hs] Hne]; [|done|].
  { intros Hc. destruct (Har Hc Hal) as [Hlt|]; [|done]. unfold getLossTimeAndSpace in Elt.
    destruct (l_confirmed _ _ _ _ Hl Hc) as [E1 E2]. rewrite E1, E2 in Elt. simpl in Elt. by simplify_eq. }
  rewrite (st_bind_ok _ _ _ _ _ (space_get _ _ _ Hs)).
  destruct (negb (HasOutstandingPackets (history s)) && negb (peerCompletedAddressValidation h)); [by exists h|].
  set (h1 := set_numProbesToSend (numProbesToSend h + 2) (set_ptoCount (u32 (ptoCount h + 1)) h)).
  rewrite (st_bind_ok _ _ _ tt h1) by done. assert (Hl1 : ledger sent gone [] h1) by (by apply (ledger_ext h)).
  destruct lvl2; [| |done|by apply probe_skip_ok]; eexists; (split; [reflexivity|]); by apply (ledger_ext h).
Qed.

Lemma OnLossDetectionTimeout_ok now sent gone (h : handler) : ledger sent gone [] h → armed h → alarm h ≠ 0 →
  ∃ h', OnLossDetectionTimeout rng now h = (Ok tt, h') ∧ ledger sent gone [] h' ∧ armed h'.
Proof.
  intros Hl Har Hal. destruct (lossDetectionTimeout_ok now _ _ _ Hl Har Hal) as (h1 & He & Hl1).
  unfold OnLossDetectionTimeout. rewrite He.
  assert (Hl2 : ledger sent gone [] (setLossDetectionTimer now h1)) by (apply (ledger_ext h1); [apply timer_core|done]).
  eexists. split; [reflexivity|]. split; [done|]. by eapply timer_ledger_armed.
Qed.
(** * The calls of the connection *)
Inductive op :=
| Send (now t la : Z) (sf fs : list (Frame F)) (lvl : EncryptionLevel) (short : bool) (size : Z) (probe : bool)
| Ack (now : Z) (ack : AckFrame) (lvl : EncryptionLevel) (rcvTime : Z)
| Probe (lvl : EncryptionLevel)
| Timeout (now : Z)
| Drop (now : Z) (lvl : EncryptionLevel)
| Retry (now : Z)
| Confirm (now : Z)
| GotBytes (now n : Z)
| GotPacket (now : Z) (lvl : EncryptionLevel).

Definition run_op (o : op) : st handler () :=
  match o with
  | Send now t la sf fs lvl short size probe => _ ← send rng now t la sf fs lvl short size probe; mret tt
  | Ack now ack lvl rcvTime => _ ← ReceivedAck now ack lvl rcvTime; mret tt
  | Probe lvl => _ ← QueueProbePacket lvl; mret tt
  | Timeout now => OnLossDetectionTimeout rng now
  | Drop now lvl => DropPackets now lvl
  | Retry now => ResetForRetry rng now
  | Confirm now => SetHandshakeConfirmed now
  | GotBytes now n => st_modify (ReceivedBytes now n)
  | GotPacket now lvl => st_modify (ReceivedPacket now lvl)
  end.

(** When the connection makes the call: it sends with keys it has, handles ACK
    frames that [parseAckFrame] accepted, calls [OnLossDetectionTimeout] when
    the alarm is set, drops the keys of a level but 1-RTT, accepts a Retry only
    before any Handshake packet is sent, and confirms the handshake after the
    Initial and Handshake keys are gone. *)
Definition allowed (o : op) (h : handler) : Prop :=
  match o with
  | Send _ t _ _ _ lvl _ size _ => is_Some (getPacketNumberSpace lvl h) ∧ 0 ≤ size ∧ t ≠ 0
  | Ack _ ack lvl _ => is_Some (getPacketNumberSpace lvl h) ∧ validateAckRanges ack = true
  | Probe lvl => is_Some (getPacketNumberSpace lvl h)
  | Timeout _ => alarm h ≠ 0
  | Drop _ lvl => lvl ≠ Encryption1RTT
  | Retry _ => is_Some (initialPackets h) ∧ cont (handshakePackets h) = []
  | Confirm _ => initialPackets h = None ∧ handshakePackets h = None
  | GotBytes _ _ | GotPacket _ _ => True
  end.

Definition sent_by (o : op) : list F :=
  match o with Send _ _ _ sf fs _ _ _ _ => handled fs ++ handled sf | _ => [] end.
Definition dropped_by (o : op) (h : handler) : list F :=
  match o with Drop _ lvl => frames_of (dropped lvl h) | _ => [] end.

(** The ACK frames that [ReceivedAck] rejects. *)
Definition bad_ack (o : op) (h : handler) : Prop :=
  match o with
  | Ack _ ack lvl _ => ∃ s hi, getPacketNumberSpace lvl h = Some s ∧ LargestAcked ack = Ok hi ∧
      (largestSent s < hi ∨ ∃ p, p ∈ acked_by (AckRanges ack) (cont (Some s)) ∧ skippedPacket p = true)
  | _ => False
  end.

(** [reach sent gone h]: a state after some calls, with the frames sent and
    those dropped with the keys. *)
Inductive reach : list F → list F → handler → Prop :=
| reach_new initialPN stats validated enableECN pers : 0 ≤ initialPN →
    reach [] [] (newSentPacketHandler rng initialPN stats validated enableECN pers)
| reach_call o sent gone h h' : reach sent gone h → allowed o h → run_op o h = (Ok tt, h') →
    reach (sent_by o ++ sent) (dropped_by o h ++ gone) h'.

Lemma new_ledger initialPN stats validated enableECN pers : 0 ≤ initialPN →
  ledger [] [] [] (@newSentPacketHandler F rng initialPN stats validated enableECN pers) ∧
  armed (@newSentPacketHandler F rng initialPN stats validated enableECN pers).
Proof.
  intros Hpn. split; [|done]. split; simpl; try done; try by apply newPacketNumberSpace_ok.
  - intros [|Hp]; [done|]. by apply bool_decide_eq_true.
  - unfold has_tracker. simpl. by destruct enableECN.
Qed.

(** Every call that is allowed succeeds, keeping the books, or rejects an ACK. *)
Lemma run_op_ok o sent gone (h : handler) : ledger sent gone [] h → armed h → allowed o h →
  (∃ h', run_op o h = (Ok tt, h') ∧ ledger (sent_by o ++ sent) (dropped_by o h ++ gone) [] h' ∧ armed h') ∨
  (∃ e h', run_op o h = (Err e, h') ∧ bad_ack o h).
Proof.
  intros Hl Har Ho. destruct o; simpl in Ho |- *.
  - destruct Ho as ([s Hs] & Hsz & Ht). left.
    destruct (send_ok rng rng_range now t la sf fs lvl short size probe s sent gone h Hl Hs Hsz Ht) as (pn & h' & He & Hl' & Har').
    exists h'. rewrite (st_bind_ok _ _ _ _ _ He). auto.
  - destruct Ho as ([s Hs] & Hv). destruct (ReceivedAck_ok now ack lvl rcvTime s sent gone h Hl Hs Hv) as (hi & Hhi & Hr).
    destruct (Z.ltb_spec (largestSent s) hi).
    { right. eexists _, h. split; [by unfold mbind, st_bind; rewrite Hr|]. exists s, hi. auto. }
    destruct (existsb skippedPacket _) eqn:Ex.
    { right. destruct Hr as [h' Hr]. eexists _, h'. split; [by unfold mbind, st_bind; rewrite Hr|]. exists s, hi. split_and!; [done|done|].
      right. apply existsb_exists in Ex as (p & Hp & Hsk). exists p. by rewrite list_elem_of_In. }
    left. destruct Hr as (h' & He & Hl' & Har' & _). exists h'. rewrite (st_bind_ok _ _ _ _ _ He). auto.
  - destruct Ho as [s Hs]. left. destruct (QueueProbePacket_ok lvl s sent gone h Hl Hs) as (b & h' & He & Hl' & Har' & _).
    exists h'. rewrite (st_bind_ok _ _ _ _ _ He). auto.
  - left. by apply OnLossDetectionTimeout_ok.
  - left. destruct (DropPackets_ok now lvl sent gone h Hl Ho) as (h' & He & Hl' & Har'). exists h'. auto.
  - destruct Ho as ([s Hs] & Hh). left. by apply (ResetForRetry_ok now sent gone s).
  - left. destruct Ho as [H1 H2]. unfold SetHandshakeConfirmed. rewrite H1, H2. eexists. split; [reflexivity|].
    assert (Hl' : ledger sent gone [] (setLossDetectionTimer now (set_handshakeConfirmed true h))).
    { apply (ledger_ext (set_handshakeConfirmed true h)); [apply timer_core|]. destruct Hl. by split. }
    split; [done|]. by eapply timer_ledger_armed.
  - left. eexists. split; [reflexivity|]. unfold ReceivedBytes. set (h1 := set_bytesReceived _ h).
    assert (Hl1 : ledger sent gone [] h1) by (by apply (ledger_ext h)). destruct (_ && _); [|done].
    assert (Hl' : ledger sent gone [] (setLossDetectionTimer now h1)) by (apply (ledger_ext h1); [apply timer_core|done]).
    split; [done|]. by eapply timer_ledger_armed.
  - left. eexists. split; [reflexivity|]. unfold ReceivedPacket. destruct (_ && _); [|done].
    assert (Hl' : ledger sent gone [] (setLossDetectionTimer now (set_peerAddressValidated true h)))
      by (apply (ledger_ext h); [by rewrite timer_core|done]).
    split; [done|]. by eapply timer_ledger_armed.
Qed.

Lemma reach_ledger sent gone h : reach sent gone h → ledger sent gone [] h ∧ armed h.
Proof.
  induction 1 as [|o sent gone h h' _ [Hl Har] Ho He]; [by apply new_ledger|].
  destruct (run_op_ok o sent gone h Hl Har Ho) as [(h2 & He2 & ? & ?)|(e & h2 & He2 & _)];
    rewrite He in He2; by simplify_eq.
Qed.

(** C4: the books of the sent packet handler balance.  After any sequence of
    calls, every frame that was sent with a handler has been reported acked,
    or reported lost, or was dropped with its keys, or is in a packet of a
    history, and each frame exactly once; [bytesInFlight] is the number of
    bytes of the packets in the histories.  In every such state each call the
    connection may make succeeds (no panic, no internal error), except that an
    ACK frame for a packet that was not sent is rejected. *)
Theorem sent_packets_conserved sent gone h : reach sent gone h →
  sent ≡ₚ acked_frames (log h) ++ lost_frames (log h) ++ gone ++ frames_of (all h) ∧
  bytesInFlight h = bytes_of (all h) ∧
  ∀ o, allowed o h → (∃ h', run_op o h = (Ok tt, h')) ∨ (∃ e h', run_op o h = (Err e, h') ∧ bad_ack o h).
Proof.
  intros Hr. destruct (reach_ledger _ _ _ Hr) as [Hl Har]. split_and!; [apply Hl|apply Hl|].
  intros o Ho. destruct (run_op_ok o sent gone h Hl Har Ho) as [(h' & ? & _)|?]; eauto.
Qed.

(** C17: [ReceivedAck] acknowledges exactly what the ACK frame says.  For a valid
    ACK frame, it reports the frames of the packets of the history whose
    numbers are in the ranges of the ACK, no others, and none twice, and
    returns whether one of them was a 1-RTT packet; an ACK beyond the largest
    packet number sent changes nothing and is a protocol violation, and so is
    an ACK of a skipped packet number. *)
Theorem received_ack_exact sent gone h now ack lvl rcvTime s : reach sent gone h →
  getPacketNumberSpace lvl h = Some s → validateAckRanges ack = true →
  let acked := acked_by (AckRanges ack) (cont (Some s)) in
  ∃ hi, LargestAcked ack = Ok hi ∧
  if largestSent s <? hi then ReceivedAck now ack lvl rcvTime h = (Err errUnsentAcked, h)
  else if existsb skippedPacket acked then ∃ h', ReceivedAck now ack lvl rcvTime h = (Err errSkippedAcked, h')
  else ∃ h', ReceivedAck now ack lvl rcvTime h =
        (Ok (existsb (λ p, bool_decide (p_EncryptionLevel p = Encryption1RTT)) acked), h') ∧
      reach sent gone h' ∧ acked_frames (log h') ≡ₚ frames_of acked ++ acked_frames (log h).
Proof.
  intros Hr Hs Hv acked. destruct (reach_ledger _ _ _ Hr) as [Hl Har].
  destruct (ReceivedAck_ok now ack lvl rcvTime s sent gone h Hl Hs Hv) as (hi & Hhi & Hres). exists hi. split; [done|].
  destruct (largestSent s <? hi); [done|]. fold acked in Hres. destruct (existsb skippedPacket acked); [done|].
  destruct Hres as (h' & He & _ & _ & Ha). exists h'. split_and!; [done| |done].
  apply (reach_call (Ack now ack lvl rcvTime) sent gone h h' Hr); [by split; [eexists|]|]. simpl.
  by rewrite (st_bind_ok _ _ _ _ _ He).
Qed.
End safety.

(** A server that sent two 1-RTT packets with a frame each. *)
Definition example_frame (n : nat) : Frame nat := mkFrame n true.
Definition example_server : @sentPacketHandler nat :=
  newSentPacketHandler (λ _ _, 0) 0 NewRTTStats true true PerspectiveServer.
Definition example_send (n : nat) : @op nat := Send 5 5 InvalidPacketNumber [example_frame n] [] Encryption1RTT true 1200 false.
Definition example_sent : @sentPacketHandler nat :=
  (run_op (λ _ _, 0) (example_send 2) (run_op (λ _ _, 0) (example_send 1) example_server).2).2.

Lemma example_reach : reach (λ _ _, 0) [2; 1]%nat [] example_sent.
Proof.
  assert (Ha : ∀ h, allowed (example_send 1) h ∧ allowed (example_send 2) h).
  { intros h. unfold allowed, example_send. simpl. split; (split; [by eexists|lia]). }
  refine (reach_call _ (example_send 2) [1%nat] [] (run_op (λ _ _, 0) (example_send 1) example_server).2 _ _ _ _);
    [|apply Ha|vm_compute; reflexivity].
  refine (reach_call _ (example_send 1) [] [] example_server _ _ _ _); [|apply Ha|vm_compute; reflexivity].
  apply reach_new. lia.
Qed.

Lemma sent_packets_conserved_witness : reach (λ _ _, 0) [2; 1]%nat [] example_sent ∧ bytesInFlight example_sent = 2400 ∧
  bytesInFlight example_sent = bytes_of (all example_sent).
Proof.
  split; [exact example_reach|]. split; [vm_compute; reflexivity|].
  refine (proj1 (proj2 (sent_packets_conserved (λ _ _, 0) _ [2; 1]%nat [] example_sent example_reach))). lia.
Defined.

Lemma received_ack_exact_witness : ∃ h', ReceivedAck 7 (mkAckFrame [mkAckRange 1 1] 0 0 0 0) Encryption1RTT 7 example_sent = (Ok true, h') ∧
  acked_frames (log h') ≡ₚ [2%nat].
Proof.
  destruct (received_ack_exact (λ _ _, 0) ltac:(lia) [2; 1]%nat [] example_sent 7 (mkAckFrame [mkAckRange 1 1] 0 0 0 0) Encryption1RTT 7
    (appDataPackets example_sent) example_reach eq_refl eq_refl) as (hi & Hhi & Hres). injection Hhi as <-.
  assert (E1 : (largestSent (appDataPackets example_sent) <? 1) = false) by (vm_compute; reflexivity).
  assert (E2 : existsb skippedPacket (acked_by [mkAckRange 1 1] (cont (Some (appDataPackets example_sent)))) = false) by (vm_compute; reflexivity).
  cbn [AckRanges Largest] in Hres. rewrite E1, E2 in Hres. destruct Hres as (h' & He & _ & Ha). exists h'. split.
  - rewrite He. reflexivity.
  - rewrite Ha. vm_compute. reflexivity.
Defined.

End sentSafety.
