(* ===== verification/FrameSorter.v ===== *)
(** The frame sorter (frame_sorter.go): reassembly of a byte stream from STREAM
    and CRYPTO frames that arrive in any order, overlapping and duplicated. *)

From S2P Require Import Prelude.
From S2P Require Import Protocol.

Module frameSorter.
Import protocol.

(** * Data

    The gaps are a linked list; an element of it is known by an identity, as the
    code holds pointers to elements.  A [DoneCb] is known by a number, and
    [done] lists the callbacks called so far, the last first.  All offsets are
    below 2^62, so that [int64] arithmetic is exact. *)
Record byteInterval := mkInterval { Start : Z; End : Z }.
Abbreviation element := (nat * byteInterval)%type (only parsing).

Record frameSorterEntry := mkEntry { Data : bytes; DoneCb : option nat }.

Record frameSorter := mkSorter {
  queue : gmap Z frameSorterEntry;
  readPos : Z;
  gaps : list (nat * byteInterval);
  fresh : nat;
  done_cbs : list nat;
}.

Definition set_queue (q : gmap Z frameSorterEntry) (s : frameSorter) : frameSorter :=
  mkSorter q (readPos s) (gaps s) (fresh s) (done_cbs s).
Definition set_readPos (r : Z) (s : frameSorter) : frameSorter :=
  mkSorter (queue s) r (gaps s) (fresh s) (done_cbs s).
Definition set_gaps (g : list (nat * byteInterval)) (s : frameSorter) : frameSorter :=
  mkSorter (queue s) (readPos s) g (fresh s) (done_cbs s).

Abbreviation M := (st frameSorter).

Definition call (cb : option nat) : M () := st_modify (λ s,
  match cb with Some c => mkSorter (queue s) (readPos s) (gaps s) (fresh s) (c :: done_cbs s) | None => s end).

Definition nil_deref {A} : res A := Panic "invalid memory address or nil pointer dereference".

(** ** The linked list of gaps *)
Fixpoint after (id : nat) (l : list (nat * byteInterval)) : list (nat * byteInterval) :=
  match l with
  | [] => []
  | e :: l => if Nat.eqb e.1 id then l else after id l
  end.

Definition gap_Remove (id : nat) : M () :=
  st_modify (λ s, set_gaps (filter (λ e : element, e.1 ≠ id) (gaps s)) s).

Definition gap_set (id : nat) (v : byteInterval) : M () :=
  st_modify (λ s, set_gaps (map (λ e : element, if Nat.eqb e.1 id then (id, v) else e) (gaps s)) s).

Definition gap_InsertAfter (v : byteInterval) (id : nat) : M () :=
  st_modify (λ s, mkSorter (queue s) (readPos s)
    (flat_map (λ e : element, if Nat.eqb e.1 id then [e; (fresh s, v)] else [e]) (gaps s)) (S (fresh s)) (done_cbs s)).

(** * Operations *)
Definition newFrameSorter : frameSorter := mkSorter ∅ 0 [(0%nat, mkInterval 0 MaxByteCount)] 1 [].

Definition errDuplicateStreamData : go_error := ErrMsg "duplicate stream data".

Fixpoint findStartGap (offset : Z) (l : list (nat * byteInterval)) : res ((nat * byteInterval) * bool) :=
  match l with
  | [] => Panic "no gap found"
  | g :: l =>
      if (Start g.2 <=? offset) && (offset <=? End g.2) then Ok (g, true) else
      if offset <? Start g.2 then Ok (g, false) else findStartGap offset l
  end.

(** The gaps from [startGap] on, with the one before; the result is nil where
    the first gap has no predecessor. *)
Fixpoint findEndGap (prev : option (nat * byteInterval)) (l : list (nat * byteInterval)) (offset : Z)
    : res (option (nat * byteInterval) * bool) :=
  match l with
  | [] => Panic "no gap found"
  | g :: l =>
      if (Start g.2 <=? offset) && (offset <? End g.2) then Ok (Some g, true) else
      if offset <? Start g.2 then Ok (prev, false) else findEndGap (Some g) l offset
  end.

Fixpoint before (id : nat) (prev : option (nat * byteInterval)) (l : list (nat * byteInterval)) : option (nat * byteInterval) :=
  match l with
  | [] => None
  | e :: l => if Nat.eqb e.1 id then prev else before id (Some e) l
  end.

(** Every round deletes an entry, so that the number of entries bounds the rounds. *)
Fixpoint deleteConsecutive_loop (fuel : nat) (pos : Z) : M () :=
  match fuel with
  | O => mret tt
  | S fuel =>
      s ← st_get;
      match queue s !! pos with
      | None => mret tt
      | Some oldEntry =>
          _ ← st_modify (λ s, set_queue (delete pos (queue s)) s);
          _ ← call (DoneCb oldEntry);
          deleteConsecutive_loop fuel (pos + blen (Data oldEntry))
      end
  end.

Definition deleteConsecutive (pos : Z) : M () :=
  s ← st_get; deleteConsecutive_loop (S (size (queue s))) pos.

(** [data[:n]] and [data[n:]]. *)
Definition slice_to (data : bytes) (n : Z) : res bytes :=
  if (n <? 0) || (blen data <? n) then Panic "slice bounds out of range" else Ok (take (Z.to_nat n) data).
Definition slice_from (data : bytes) (n : Z) : res bytes :=
  if (n <? 0) || (blen data <? n) then Panic "slice bounds out of range" else Ok (drop (Z.to_nat n) data).

(** The loop that replaces the entries the new frame covers from its start on:
    the new data and end, [wasCut] and [hasReplacedAtLeastOne]. *)
Fixpoint replace_loop (fuel : nat) (start : Z) (data : bytes) (end_ pos : Z) (hasReplaced : bool)
    : M (bytes * Z * bool * bool) :=
  match fuel with
  | O => mret (data, end_, false, hasReplaced)
  | S fuel =>
      s ← st_get;
      match queue s !! pos with
      | None => mret (data, end_, false, hasReplaced)
      | Some oldEntry =>
          let oldEntryLen := blen (Data oldEntry) in
          if (oldEntryLen <? end_ - pos) || (hasReplaced && (end_ - pos =? oldEntryLen)) then
            _ ← st_modify (λ s, set_queue (delete pos (queue s)) s);
            _ ← call (DoneCb oldEntry);
            replace_loop fuel start data end_ (pos + oldEntryLen) true
          else if negb hasReplaced then st_fail errDuplicateStreamData
          else data ← st_lift (slice_to data (pos - start)); mret (data, pos, true, hasReplaced)
      end
  end.

(** [for gap := startGapNext; gap.Value.End < endGapStart; gap = nextGap]: the
    gaps from [startGapNext] on. *)
Fixpoint remove_gaps (endGapStart : Z) (l : list (nat * byteInterval)) : M () :=
  match l with
  | [] => st_lift nil_deref
  | gap :: l =>
      if End gap.2 <? endGapStart then
        _ ← deleteConsecutive (End gap.2);
        _ ← gap_Remove gap.1;
        remove_gaps endGapStart l
      else mret tt
  end.

(** The end of [push]: short data that was cut is copied and its buffer released. *)
Definition push_store (wasCut : bool) (data : bytes) (start : Z) (doneCb : option nat) : M () :=
  doneCb ← (if wasCut && (blen data <? MinStreamFrameBufferSize)
            then _ ← call doneCb; mret None else mret doneCb);
  s ← st_get;
  if MaxStreamFrameSorterGaps <? blen (gaps s) then st_fail (ErrMsg "too many gaps in received data")
  else st_put (set_queue (<[start := mkEntry data doneCb]> (queue s)) s).

(** The gaps and the entries between [startGap] and [endGap] that the frame
    covers. *)
Definition push_gaps (startGap endGap : nat * byteInterval) (endsInGap : bool) (startGapNext : list (nat * byteInterval))
    (data : bytes) (start end_ : Z) (wasCut hasReplaced : bool) (doneCb : option nat) : M () :=
  let same := Nat.eqb startGap.1 endGap.1 in
  let startGapEnd := End startGap.2 in
  let endGapStart := Start endGap.2 in
  let endGapEnd := End endGap.2 in
  adjustedStartGapEnd ← (
    if start <=? Start startGap.2 then
      _ ← (if End startGap.2 <=? end_ then gap_Remove startGap.1
           else gap_set startGap.1 (mkInterval end_ (End startGap.2)));
      mret false
    else if negb hasReplaced then
      _ ← gap_set startGap.1 (mkInterval (Start startGap.2) start);
      mret true
    else mret false);
  _ ← (if negb same then
         _ ← deleteConsecutive startGapEnd;
         remove_gaps endGapStart startGapNext
       else mret tt);
  '(data, end_, wasCut) ← (
    if negb endsInGap && negb (start =? endGapEnd) && (endGapEnd <? end_)
    then data ← st_lift (slice_to data (endGapEnd - start)); mret (data, endGapEnd, true)
    else mret (data, end_, wasCut));
  _ ← (if end_ =? endGapEnd then
         if negb same then gap_Remove endGap.1 else mret tt
       else if same && adjustedStartGapEnd then gap_InsertAfter (mkInterval end_ startGapEnd) startGap.1
       else if negb same then gap_set endGap.1 (mkInterval end_ endGapEnd)
       else mret tt);
  push_store wasCut data start doneCb.

(** The part of [push] after the checks for duplicate data. *)
Definition push_new (startGap endGap : nat * byteInterval) (startsInGap endsInGap : bool) (data : bytes) (start end_ : Z)
    (doneCb : option nat) : M () :=
  s ← st_get;
  let startGapNext := after startGap.1 (gaps s) in
  '(data, end_, wasCut, hasReplaced) ← replace_loop (S (size (queue s))) start data end_ start false;
  '(data, start, wasCut) ← (
    if negb startsInGap && negb hasReplaced
    then data ← st_lift (slice_from data (Start startGap.2 - start)); mret (data, Start startGap.2, true)
    else mret (data, start, wasCut));
  push_gaps startGap endGap endsInGap startGapNext data start end_ wasCut hasReplaced doneCb.

Definition push (data : bytes) (offset : Z) (doneCb : option nat) : M () :=
  if blen data =? 0 then st_fail errDuplicateStreamData else
  s ← st_get;
  let start := offset in
  let end_ := offset + blen data in
  match gaps s with
  | [] => st_lift nil_deref
  | front :: _ =>
      if end_ <=? Start front.2 then st_fail errDuplicateStreamData else
      '(startGap, startsInGap) ← st_lift (findStartGap start (gaps s));
      '(endGap, endsInGap) ← st_lift (findEndGap (before startGap.1 None (gaps s)) (startGap :: after startGap.1 (gaps s)) end_);
      match endGap with
      | None => st_lift nil_deref
      | Some endGap =>
          let same := Nat.eqb startGap.1 endGap.1 in
          if (same && (end_ <=? Start startGap.2)) ||
             (negb same && (Start endGap.2 <=? End startGap.2) && (end_ <=? Start startGap.2))
          then st_fail errDuplicateStreamData
          else push_new startGap endGap startsInGap endsInGap data start end_ doneCb
      end
  end.

Definition Push (data : bytes) (offset : Z) (doneCb : option nat) : M () := λ s,
  let '(r, s') := push data offset doneCb s in
  if decide (r = Err errDuplicateStreamData) then call doneCb s' else (r, s').

(** The offset, the data (nil if the next byte has not arrived) and the callback. *)
Definition Pop : M (Z * option bytes * option nat) :=
  s ← st_get;
  match queue s !! readPos s with
  | None => mret (readPos s, None, None)
  | Some entry =>
      let offset := readPos s in
      let s := set_readPos (offset + blen (Data entry)) (set_queue (delete offset (queue s)) s) in
      _ ← st_put s;
      match gaps s with
      | [] => st_lift nil_deref
      | front :: _ =>
          if End front.2 <=? readPos s then st_panic "frame sorter BUG: read position higher than a gap"
          else mret (offset, Some (Data entry), DoneCb entry)
      end
  end.

Definition HasMoreData (s : frameSorter) : bool := negb (Nat.eqb (size (queue s)) 0).
End frameSorter.
