(* ===== verification/SorterCorrect.v ===== *)
(** Correctness of the frame sorter: it delivers the bytes of the stream in
    order, whatever the frames' order and overlaps, and releases every buffer
    once. *)

From S2P Require Import Prelude.
From S2P Require Import Protocol.
From S2P Require Import FrameSorter.

Module sorterCorrect.
Import protocol frameSorter.

Lemma Forall_of_sublist {A} (P : A → Prop) l k : l `sublist_of` k → Forall P k → Forall P l.
Proof. induction 1; rewrite ?Forall_cons; naive_solver. Qed.

(** * Lists of intervals *)
Definition in_gap (l : list byteInterval) (x : Z) : Prop := ∃ g, g ∈ l ∧ Start g ≤ x < End g.

Fixpoint apart (l : list byteInterval) : Prop :=
  match l with
  | [] => True
  | g :: l => Start g < End g ∧ Forall (λ g', End g < Start g') l ∧ apart l
  end.

Lemma apart_app l l' : apart (l ++ l') ↔ apart l ∧ apart l' ∧ ∀ g g', g ∈ l → g' ∈ l' → End g < Start g'.
Proof.
  induction l as [|h l IH]; simpl; [set_solver|]. rewrite IH, Forall_app, !Forall_forall. split.
  - intros (H1 & [H2 H3] & H4 & H5 & H6). split_and!; try done. intros g g' [->|Hg]%elem_of_cons; auto.
  - intros ((H1 & H2 & H3) & H4 & H5). split_and!; try done; set_solver.
Qed.

Lemma apart_in l g : apart l → g ∈ l → Start g < End g.
Proof. induction l as [|h l IH]; intros Ha Hg; [by apply elem_of_nil in Hg|]. destruct Ha as (? & _ & ?). apply elem_of_cons in Hg as [->|]; auto. Qed.

(** Replacing a middle part by intervals within it. *)
Lemma apart_replace l1 Y X r lo hi : apart (l1 ++ Y ++ r) → apart X →
  (∃ g, g ∈ Y ∧ Start g = lo) → (∃ g, g ∈ Y ∧ End g = hi) → (∀ g, g ∈ X → lo ≤ Start g ∧ End g ≤ hi) → apart (l1 ++ X ++ r).
Proof.
  rewrite !apart_app. intros (H1 & (H2 & H3 & H4) & H5) HX (gl & Hgl & Hlo) (gh & Hgh & Hhi) Hin. split_and!; try done.
  - intros g g' Hg Hg'. destruct (Hin g Hg). specialize (H4 gh g' Hgh Hg'). lia.
  - intros g g' Hg [Hg'|Hg']%elem_of_app; [|apply H5; set_solver].
    destruct (Hin g' Hg'). specialize (H5 g gl Hg ltac:(set_solver)). lia.
Qed.

Lemma in_gap_app l l' x : in_gap (l ++ l') x ↔ in_gap l x ∨ in_gap l' x.
Proof. unfold in_gap. setoid_rewrite elem_of_app. naive_solver. Qed.
Lemma in_gap_cons g l x : in_gap (g :: l) x ↔ Start g ≤ x < End g ∨ in_gap l x.
Proof. unfold in_gap. setoid_rewrite elem_of_cons. naive_solver. Qed.
Lemma in_gap_nil x : in_gap [] x ↔ False.
Proof. unfold in_gap. set_solver. Qed.

(** ** The linked list *)
Abbreviation elements := (list (nat * byteInterval)) (only parsing).

Lemma ids_mid (l1 l2 : elements) i g : NoDup (l1 ++ (i, g) :: l2).*1 → i ∉ l1.*1 ∧ i ∉ l2.*1 ∧ NoDup (l1 ++ l2).*1.
Proof.
  rewrite !fmap_app, fmap_cons. intros Hn. apply NoDup_app in Hn as (H1 & H2 & [H3 H4]%NoDup_cons). simpl in *.
  split_and!; [set_solver|done|]. apply NoDup_app. set_solver.
Qed.

(** The middle element replaced by itself, or by itself and a new one. *)
Lemma ids_replace (l1 l2 : elements) i g (X : elements) n : NoDup (l1 ++ (i, g) :: l2).*1 →
  Forall (λ j, j < n)%nat (l1 ++ (i, g) :: l2).*1 → X.*1 = [] ∨ X.*1 = [i] ∨ X.*1 = [n] ∨ X.*1 = [i; n] → NoDup (l1 ++ X ++ l2).*1.
Proof.
  intros (H1 & H2 & H3)%ids_mid Hf HX. rewrite fmap_app in *. apply Forall_app in Hf as [Hf1 [Hfi Hf2]%Forall_cons]. simpl in Hfi.
  rewrite Forall_forall in Hf1, Hf2.
  assert (Hn1 : n ∉ l1.*1) by (intros Hin; specialize (Hf1 _ Hin); lia). assert (Hn2 : n ∉ l2.*1) by (intros Hin; specialize (Hf2 _ Hin); lia).
  apply NoDup_app in H3 as (H3 & H4 & H5). rewrite fmap_app. destruct HX as [-> |[-> |[-> | ->]]]; simpl.
  - apply NoDup_app. auto.
  - apply NoDup_app. split_and!; [done| |by apply NoDup_cons]. intros x Hx. apply not_elem_of_cons. split; [by intros ->|auto].
  - apply NoDup_app. split_and!; [done| |by apply NoDup_cons]. intros x Hx. apply not_elem_of_cons. split; [by intros ->|auto].
  - apply NoDup_app. split_and!; [done| |].
    + intros x Hx. rewrite !not_elem_of_cons. split_and!; [by intros ->|by intros ->|auto].
    + rewrite !NoDup_cons, not_elem_of_cons. split_and!; try done. lia.
Qed.

Lemma ids_fresh (l1 l2 : elements) i g (X : elements) n n' : Forall (λ j, j < n)%nat (l1 ++ (i, g) :: l2).*1 →
  Forall (λ e : nat * byteInterval, e.1 = i ∧ (n ≤ n')%nat ∨ (e.1 = n ∧ n' = S n)) X ∧ (X = [] → (n ≤ n')%nat) →
  Forall (λ j, j < n')%nat (l1 ++ X ++ l2).*1.
Proof.
  rewrite !fmap_app, fmap_cons. intros [Hf1 [Hfi Hf2]%Forall_cons]%Forall_app [HX HX0]. simpl in Hfi.
  assert (Hn : (n ≤ n')%nat) by (destruct X as [|x X]; [auto|]; apply Forall_cons in HX as [? _]; lia).
  rewrite !Forall_app. split_and!; [eapply Forall_impl; [exact Hf1|]; simpl; lia| |eapply Forall_impl; [exact Hf2|]; simpl; lia].
  apply Forall_fmap. eapply Forall_impl; [exact HX|]. intros e He. simpl in *. unfold compose. lia.
Qed.

Lemma filter_ids (l : elements) i : i ∉ l.*1 → filter (λ e : nat * byteInterval, e.1 ≠ i) l = l.
Proof.
  induction l as [|e l IH]; intros Hi; [done|]. rewrite fmap_cons in Hi. apply not_elem_of_cons in Hi as [H1 H2].
  rewrite filter_cons_True by (intros E; by rewrite E in H1). by rewrite IH.
Qed.

Lemma remove_mid (l1 l2 : elements) i g : NoDup (l1 ++ (i, g) :: l2).*1 →
  filter (λ e : nat * byteInterval, e.1 ≠ i) (l1 ++ (i, g) :: l2) = l1 ++ l2.
Proof.
  intros (H1 & H2 & _)%ids_mid. rewrite filter_app, filter_cons_False by (simpl; tauto). by rewrite !filter_ids.
Qed.

Lemma map_ids (f : nat * byteInterval → nat * byteInterval) (l : elements) i :
  i ∉ l.*1 → map (λ e : nat * byteInterval, if Nat.eqb e.1 i then f e else e) l = l.
Proof.
  induction l as [|e l IH]; intros Hi; [done|]. rewrite fmap_cons in Hi. apply not_elem_of_cons in Hi as [H1 H2].
  simpl. rewrite IH by done. destruct (Nat.eqb_spec e.1 i); [by subst|done].
Qed.

Lemma set_mid (l1 l2 : elements) i g v : NoDup (l1 ++ (i, g) :: l2).*1 →
  map (λ e : nat * byteInterval, if Nat.eqb e.1 i then (i, v) else e) (l1 ++ (i, g) :: l2) = l1 ++ (i, v) :: l2.
Proof.
  intros (H1 & H2 & _)%ids_mid. rewrite map_app. simpl. rewrite Nat.eqb_refl.
  by rewrite !(map_ids (λ _, (i, v))).
Qed.

Lemma flat_map_ids (f : nat * byteInterval → elements) (l : elements) i :
  i ∉ l.*1 → flat_map (λ e : nat * byteInterval, if Nat.eqb e.1 i then f e else [e]) l = l.
Proof.
  induction l as [|e l IH]; intros Hi; [done|]. rewrite fmap_cons in Hi. apply not_elem_of_cons in Hi as [H1 H2].
  simpl. rewrite IH by done. destruct (Nat.eqb_spec e.1 i); [by subst|done].
Qed.

Lemma insert_mid (l1 l2 : elements) i g v n : NoDup (l1 ++ (i, g) :: l2).*1 →
  flat_map (λ e : nat * byteInterval, if Nat.eqb e.1 i then [e; (n, v)] else [e]) (l1 ++ (i, g) :: l2) = l1 ++ (i, g) :: (n, v) :: l2.
Proof.
  intros (H1 & H2 & _)%ids_mid. rewrite flat_map_app. simpl. rewrite Nat.eqb_refl.
  by rewrite !(flat_map_ids (λ e, [e; (n, v)])).
Qed.

Lemma after_mid (l1 l2 : elements) i g : NoDup (l1 ++ (i, g) :: l2).*1 → after i (l1 ++ (i, g) :: l2) = l2.
Proof.
  intros (H1 & _)%ids_mid. induction l1 as [|e l1 IH]; simpl; [by rewrite Nat.eqb_refl|].
  rewrite fmap_cons in H1. apply not_elem_of_cons in H1 as [H1 H2]. destruct (Nat.eqb_spec e.1 i); [by subst|auto].
Qed.

Lemma before_mid (l1 l2 : elements) i g p : NoDup (l1 ++ (i, g) :: l2).*1 →
  before i p (l1 ++ (i, g) :: l2) = match last l1 with Some e => Some e | None => p end.
Proof.
  intros (H1 & _)%ids_mid. revert p. induction l1 as [|e l1 IH]; intros p; simpl; [by rewrite Nat.eqb_refl|].
  rewrite fmap_cons in H1. apply not_elem_of_cons in H1 as [H1 H2]. destruct (Nat.eqb_spec e.1 i); [by subst|].
  rewrite IH by done. destruct l1 as [|e' l1]; [done|]. change (last (e :: e' :: l1)) with (last (e' :: l1)).
  destruct (last (e' :: l1)) eqn:E; [done|]. by apply last_None in E.
Qed.

(** ** Finding the gaps *)
Lemma findStartGap_spec start (l : elements) : apart l.*2 → (∃ g, g ∈ l.*2 ∧ start ≤ End g) →
  ∃ l1 g l2 b, l = l1 ++ g :: l2 ∧ findStartGap start l = Ok (g, b) ∧ (∀ g', g' ∈ l1.*2 → End g' < start) ∧
    (if b : bool then Start g.2 ≤ start ≤ End g.2 else start < Start g.2).
Proof.
  induction l as [|g l IH]; intros Ha (g0 & Hg0 & Hle); [by apply elem_of_nil in Hg0|]. simpl.
  destruct ((Start g.2 <=? start) && (start <=? End g.2)) eqn:E1.
  { exists [], g, l, true. split_and!; try done; [set_solver|lia|lia]. }
  destruct (Z.ltb_spec start (Start g.2)).
  { exists [], g, l, false. split_and!; try done. set_solver. }
  simpl in Ha. destruct Ha as (Hg & _ & Ha). apply elem_of_cons in Hg0 as [->|Hg0]; [lia|].
  destruct (IH Ha) as (l1 & g' & l2 & b & -> & Hf & Hl1 & Hb); [by exists g0|].
  exists (g :: l1), g', l2, b. split_and!; try done. rewrite fmap_cons. intros g'' [->|?]%elem_of_cons; [lia|auto].
Qed.

Lemma findEndGap_spec prev end_ (g : nat * byteInterval) (l : elements) : apart (g :: l).*2 →
  (∃ g', g' ∈ (g :: l).*2 ∧ end_ < End g') → Start g.2 ≤ end_ →
  ∃ m e r b, g :: l = m ++ e :: r ∧ findEndGap prev (g :: l) end_ = Ok (Some e, b) ∧ (∀ g', g' ∈ m.*2 → End g' ≤ end_) ∧
    Start e.2 ≤ end_ ∧ (if b : bool then end_ < End e.2 else End e.2 ≤ end_ ∧ ∀ g', g' ∈ r.*2 → end_ < Start g').
Proof.
  revert prev g. induction l as [|h l IH]; intros prev g Ha (g0 & Hg0 & Hlt) Hst.
  - simpl in *. exists [], g, [], true. apply list_elem_of_singleton in Hg0 as ->.
    rewrite (proj2 (Z.leb_le _ _) Hst), (proj2 (Z.ltb_lt _ _) Hlt). split_and!; try done. set_solver.
  - cbn [findEndGap]. destruct (Z.ltb_spec end_ (End g.2)) as [Hin|Hout].
    { exists [], g, (h :: l), true. rewrite (proj2 (Z.leb_le _ _) Hst). split_and!; try done. set_solver. }
    rewrite andb_false_r, (proj2 (Z.ltb_ge _ _) Hst).
    destruct Ha as (Hg & Hf & Ha). rewrite fmap_cons in Hf. apply Forall_cons in Hf as [Hgh Hf].
    destruct (Z.le_gt_cases (Start h.2) end_) as [Hs|Hs].
    + apply elem_of_cons in Hg0 as [->|Hg0]; [lia|]. destruct (IH (Some g) h Ha) as (m & e & r & b & Hl & He & Hm & Hb1 & Hb2); [by exists g0|done|].
      rewrite Hl. exists (g :: m), e, r, b. split_and!; try done. rewrite fmap_cons. intros g' [->|?]%elem_of_cons; auto.
    + exists [], g, (h :: l), false. simpl. rewrite (proj2 (Z.leb_gt _ _) Hs), (proj2 (Z.ltb_lt _ _) Hs).
      split_and!; try done; [set_solver|]. intros g' Hg'. apply elem_of_cons in Hg' as [->|Hg']; [lia|].
      simpl in Ha. destruct Ha as (? & Hfh & _). rewrite Forall_forall in Hfh. specialize (Hfh g' Hg'). lia.
Qed.
(** * The queue *)
Abbreviation entries := (gmap Z frameSorterEntry) (only parsing).

Definition contains (q : entries) (p x : Z) : Prop := ∃ e, q !! p = Some e ∧ p ≤ x < p + blen (Data e).
Definition disj (q : entries) : Prop := ∀ p e p', q !! p = Some e → is_Some (q !! p') → p < p' → p + blen (Data e) ≤ p'.
Definition nonempty (q : entries) : Prop := ∀ p e, q !! p = Some e → 0 < blen (Data e).
(** No entry straddles [x]. *)
Definition boundary (q : entries) (x : Z) : Prop := ∀ p e, q !! p = Some e → p < x → p + blen (Data e) ≤ x.

(** Consecutive entries from [a] to [b]. *)
Inductive tiles (q : entries) : Z → Z → Prop :=
| tiles_nil a : tiles q a a
| tiles_cons a b e : q !! a = Some e → tiles q (a + blen (Data e)) b → tiles q a b.

(** [q'] is [q] without the entries that start in [[a, b)]. *)
Definition cut (q : entries) (a b : Z) (q' : entries) : Prop :=
  ∀ p, q' !! p = if bool_decide (a ≤ p < b) then None else q !! p.

Definition cbs (q : entries) : list nat := omap DoneCb (map_to_list q).*2.
Definition opt_list {A} (o : option A) : list A := match o with Some x => [x] | None => [] end.

Lemma cbs_delete q p e : q !! p = Some e → cbs q ≡ₚ opt_list (DoneCb e) ++ cbs (delete p q).
Proof.
  intros He. unfold cbs. rewrite <- (map_to_list_delete q p e He). simpl. by destruct (DoneCb e).
Qed.

Lemma size_delete (q : entries) p e : q !! p = Some e → size q = S (size (delete p q)).
Proof. intros He. rewrite <- !length_map_to_list, <- (map_to_list_delete q p e He). done. Qed.

Lemma cbs_insert q p e : q !! p = None → cbs (<[p := e]> q) ≡ₚ opt_list (DoneCb e) ++ cbs q.
Proof. intros He. unfold cbs. rewrite (map_to_list_insert q p e He). simpl. by destruct (DoneCb e). Qed.

Lemma cut_refl q a : cut q a a q.
Proof. intros p. by rewrite bool_decide_eq_false_2 by lia. Qed.

Lemma cut_extend q a b c q' : cut q a b q' → b ≤ c → (∀ p, b ≤ p < c → q !! p = None) → cut q a c q'.
Proof.
  intros Hc Hbc Hn p. rewrite Hc. do 2 case_bool_decide; try done; try lia. apply Hn. lia.
Qed.

Lemma cut_empty q a q' c : cut q a a q' → cut q c c q'.
Proof. intros Hc p. rewrite Hc, !bool_decide_eq_false_2 by lia. done. Qed.

Lemma cut_trans q a b c q' q'' : a ≤ b → b ≤ c → cut q a b q' → cut q' b c q'' → cut q a c q''.
Proof. intros H1 H2 Hc Hc' p. rewrite Hc', Hc. repeat case_bool_decide; try done; lia. Qed.

Lemma cut_disj q a b q' : cut q a b q' → disj q → disj q'.
Proof.
  intros Hc Hd p e p' He [e' He'] Hlt. rewrite Hc in He, He'. repeat case_bool_decide; try done. by apply (Hd p e p').
Qed.

Lemma tiles_le q a b : nonempty q → tiles q a b → a ≤ b.
Proof. intros Hn. induction 1 as [|a b e He _ IH]; [lia|]. specialize (Hn a e He). lia. Qed.

Lemma tiles_delete q a b c : nonempty q → tiles q a b → c < a → tiles (delete c q) a b.
Proof.
  intros Hn. induction 1 as [|a b e He _ IH]; intros Hc; [constructor|].
  apply (tiles_cons _ a b e); [by rewrite lookup_delete_ne by lia|]. apply IH. specialize (Hn a e He). lia.
Qed.

Definition with_qd (q : entries) (d : list nat) (s : frameSorter) : frameSorter :=
  mkSorter q (readPos s) (gaps s) (fresh s) d.

Lemma delete_call p e (s : frameSorter) {A} (k : () → st frameSorter A) :
  (_ ← st_modify (λ s, set_queue (delete p (queue s)) s); call (DoneCb e) ≫= k) s =
  k tt (with_qd (delete p (queue s)) (opt_list (DoneCb e) ++ done_cbs s) s).
Proof. unfold mbind, st_bind, st_modify, call. by destruct (DoneCb e). Qed.

Lemma nonempty_delete q p : nonempty q → nonempty (delete p q).
Proof. intros Hn p' e He. apply lookup_delete_Some in He as [_ He]. eauto. Qed.
Lemma disj_delete q p : disj q → disj (delete p q).
Proof.
  intros Hd p1 e1 p2 H1 [e2 H2] Hlt. apply lookup_delete_Some in H1 as [_ H1], H2 as [_ H2]. by apply (Hd p1 e1 p2).
Qed.

Lemma cut_first q a e b q' : nonempty q → disj q → q !! a = Some e → a + blen (Data e) ≤ b →
  cut (delete a q) (a + blen (Data e)) b q' → cut q a b q'.
Proof.
  intros Hn Hd He Hb Hc p. rewrite Hc. specialize (Hn a e He). do 2 case_bool_decide; try done; try lia.
  - rewrite lookup_delete_None. destruct (decide (a = p)); [by left|]. right. destruct (q !! p) as [e'|] eqn:Hp; [|done].
    specialize (Hd a e p He ltac:(by eexists) ltac:(lia)). lia.
  - by rewrite lookup_delete_ne by lia.
Qed.

Lemma deleteConsecutive_loop_spec fuel a b s : nonempty (queue s) → disj (queue s) → tiles (queue s) a b → queue s !! b = None →
  (size (queue s) < fuel)%nat →
  ∃ q' d', deleteConsecutive_loop fuel a s = (Ok tt, with_qd q' d' s) ∧ cut (queue s) a b q' ∧
    cbs q' ++ d' ≡ₚ cbs (queue s) ++ done_cbs s.
Proof.
  revert a s. induction fuel as [|fuel IH]; intros a s Hn Hd Ht Hb Hf; [lia|]. cbn [deleteConsecutive_loop].
  rewrite (st_bind_ok _ _ _ s s) by done. inversion Ht as [|? ? e He Ht']; subst.
  - rewrite Hb. exists (queue s), (done_cbs s). split_and!; [by destruct s|apply cut_refl|done].
  - rewrite He, delete_call. pose proof (Hn a e He) as Hlen. pose proof (tiles_le _ _ _ Hn Ht') as Hle.
    destruct (IH (a + blen (Data e)) (with_qd (delete a (queue s)) (opt_list (DoneCb e) ++ done_cbs s) s)) as (q' & d' & Hr & Hc & Hp); simpl.
    + by apply nonempty_delete.
    + by apply disj_delete.
    + apply tiles_delete; [done|done|lia].
    + by rewrite lookup_delete_ne by lia.
    + rewrite (size_delete _ _ _ He) in Hf. lia.
    + exists q', d'. split_and!; [by rewrite Hr|by eapply cut_first|]. rewrite Hp. simpl. rewrite (cbs_delete _ _ _ He), <- app_assoc.
      by rewrite Permutation_app_swap_app.
Qed.

Lemma deleteConsecutive_spec a b s : nonempty (queue s) → disj (queue s) → tiles (queue s) a b → queue s !! b = None →
  ∃ q' d', deleteConsecutive a s = (Ok tt, with_qd q' d' s) ∧ cut (queue s) a b q' ∧ cbs q' ++ d' ≡ₚ cbs (queue s) ++ done_cbs s.
Proof.
  intros Hn Hd Ht Hb. unfold deleteConsecutive. rewrite (st_bind_ok _ _ _ s s) by done. apply deleteConsecutive_loop_spec; try done. lia.
Qed.
Lemma tiles_mono q q' a b : (∀ p e, q' !! p = Some e → q !! p = Some e) → tiles q' a b → tiles q a b.
Proof. intros Hq. induction 1 as [|a b e He _ IH]; [constructor|]. apply (tiles_cons _ a b e); auto. Qed.

(** The entries from the start of the new frame on are replaced up to [pos']:
    all up to the end [b] of the run, or the new frame is cut where an entry
    reaches its end. *)
Lemma replace_loop_spec fuel start data end_ pos rep b s : nonempty (queue s) → disj (queue s) → tiles (queue s) pos b →
  queue s !! b = None → (size (queue s) < fuel)%nat → start ≤ pos ≤ end_ → end_ = start + blen data →
  (replace_loop fuel start data end_ pos rep s = (Err errDuplicateStreamData, s) ∧ rep = false ∧
     ∃ e, queue s !! pos = Some e ∧ end_ ≤ pos + blen (Data e)) ∨
  ∃ pos' data' end' c q' d', replace_loop fuel start data end_ pos rep s = (Ok (data', end', c, rep || (pos <? pos')), with_qd q' d' s) ∧
    cut (queue s) pos pos' q' ∧ pos ≤ pos' ≤ end_ ∧ tiles (queue s) pos' b ∧ cbs q' ++ d' ≡ₚ cbs (queue s) ++ done_cbs s ∧
    (data' = data ∧ end' = end_ ∧ pos' = b ∨
     rep || (pos <? pos') = true ∧ data' = take (Z.to_nat (pos' - start)) data ∧ end' = pos' ∧
       ∃ e, queue s !! pos' = Some e ∧ end_ < pos' + blen (Data e)).
Proof.
  revert pos rep s. induction fuel as [|fuel IH]; intros pos rep s Hn Hd Ht Hb Hf Hpos Hend; [lia|]. cbn [replace_loop].
  rewrite (st_bind_ok _ _ _ s s) by done. inversion Ht as [|? ? e He Ht']; subst pos.
  - right. rewrite Hb. exists b, data, end_, false, (queue s), (done_cbs s).
    rewrite Z.ltb_irrefl, orb_false_r. split_and!; try lia; [by destruct s|apply cut_refl|constructor|done|by left].
  - subst. rewrite He. pose proof (Hn _ _ He) as Hlen.
    destruct ((blen (Data e) <? start + blen data - a) || (rep && (start + blen data - a =? blen (Data e)))) eqn:Erep.
    + right. rewrite delete_call. set (s1 := with_qd _ _ s).
      destruct (IH (a + blen (Data e)) true s1) as [(_ & Habs & _)|(pos' & data' & end' & c & q' & d' & Hr & Hc & Hp & Ht1 & Hperm & Hcase)];
        try done; simpl.
      { by apply nonempty_delete. }
      { by apply disj_delete. }
      { apply tiles_delete; [done|done|lia]. }
      { pose proof (tiles_le _ _ _ Hn Ht'). by rewrite lookup_delete_ne by lia. }
      { rewrite (size_delete _ _ _ He) in Hf. lia. }
      { lia. }
      exists pos', data', end', c, q', d'. rewrite Hr. rewrite (proj2 (Z.ltb_lt a pos')) by lia. rewrite orb_true_r.
      assert (Hmono : ∀ p e', delete a (queue s) !! p = Some e' → queue s !! p = Some e') by (intros p e' [_ ?]%lookup_delete_Some; done).
      split_and!; try lia.
      * done.
      * simpl in Hc. eapply cut_first; [done|done|done| |done]. lia.
      * by apply (tiles_mono _ (delete a (queue s))).
      * rewrite Hperm. simpl. rewrite (cbs_delete _ _ _ He), <- app_assoc. by rewrite Permutation_app_swap_app.
      * destruct Hcase as [?|(_ & H1 & H2 & e' & He' & Hle)]; [by left|]. right. split_and!; try done. exists e'. split; [by apply Hmono|done].
    + apply orb_false_iff in Erep as [E1 E2]. apply Z.ltb_ge in E1. destruct rep; simpl.
      * right. exists a, (take (Z.to_nat (a - start)) data), a, true, (queue s), (done_cbs s).
        unfold slice_to. replace ((a - start <? 0) || (blen data <? a - start)) with false by lia.
        split_and!; try lia; [by destruct s|apply cut_refl|done|done|]. right. split_and!; try done. exists e. split; [done|].
        simpl in E2. lia.
      * left. split_and!; try done. exists e. split; [done|lia].
Qed.
(** * The invariant *)
Section stream.
Context (Str : Z → Z).

Definition matches (data : bytes) (start : Z) : Prop := ∀ (i : nat) b, data !! i = Some b → b = Str (start + Z.of_nat i).

(** The gaps and the entries partition the bytes from [readPos] on, and the
    entries hold bytes of the stream. *)
Record inv (s : frameSorter) : Prop := {
  v_apart : apart (gaps s).*2;
  v_ids : NoDup (gaps s).*1;
  v_fresh : Forall (λ i, i < fresh s)%nat (gaps s).*1;
  v_last : in_gap (gaps s).*2 (MaxByteCount - 1);
  v_range : ∀ x, in_gap (gaps s).*2 x → readPos s ≤ x < MaxByteCount;
  v_read : 0 ≤ readPos s;
  v_entry : ∀ p e, queue s !! p = Some e → readPos s ≤ p ∧ 0 < blen (Data e) ∧ matches (Data e) p;
  v_gap : ∀ p x, contains (queue s) p x → ¬ in_gap (gaps s).*2 x ∧ x < MaxByteCount;
  v_disj : disj (queue s);
  v_cover : ∀ x, readPos s ≤ x < MaxByteCount → in_gap (gaps s).*2 x ∨ ∃ p, contains (queue s) p x;
}.

Lemma inv_nonempty s : inv s → nonempty (queue s).
Proof. intros Hi p e He. by apply (v_entry s Hi p e). Qed.

Lemma not_gap_none s x : inv s → in_gap (gaps s).*2 x → queue s !! x = None.
Proof.
  intros Hi Hx. destruct (queue s !! x) as [e|] eqn:He; [|done]. exfalso.
  destruct (v_entry s Hi x e He) as (_ & Hl & _). destruct (v_gap s Hi x x); [|done]. exists e. split; [done|lia].
Qed.

Lemma boundary_gap s x : inv s → in_gap (gaps s).*2 x ∨ in_gap (gaps s).*2 (x - 1) → boundary (queue s) x.
Proof.
  intros Hi Hx p e He Hlt. destruct (Z.le_gt_cases (p + blen (Data e)) x) as [|Hgt]; [done|]. exfalso.
  destruct Hx as [Hx|Hx]; (eapply (v_gap s Hi p); [|exact Hx]); exists e; (split; [done|lia]).
Qed.

Lemma boundary_key q x : disj q → is_Some (q !! x) → boundary q x.
Proof. intros Hd Hx p e He Hlt. by apply (Hd p e x). Qed.

(** Received bytes between boundaries are in consecutive entries. *)
Lemma tiles_run s a b : inv s → readPos s ≤ a → a ≤ b → b ≤ MaxByteCount → boundary (queue s) a → boundary (queue s) b →
  (∀ x, a ≤ x < b → ¬ in_gap (gaps s).*2 x) → tiles (queue s) a b.
Proof.
  intros Hi. remember (Z.to_nat (b - a)) as n eqn:Hn. revert a Hn. induction n as [n IH] using lt_wf_ind. intros a Hn Hr Hab Hmax Ha Hb Hng.
  destruct (decide (a = b)) as [->|Hne]; [constructor|].
  destruct (v_cover s Hi a) as [Hg|(p & e & He & Hpa)]; [lia|by specialize (Hng a ltac:(lia))|].
  assert (p = a) as ->. { destruct (Z.lt_total p a) as [Hlt|[?|?]]; [|done|lia]. specialize (Ha p e He Hlt). lia. }
  pose proof (inv_nonempty s Hi a e He). assert (a + blen (Data e) ≤ b) by (apply (Hb a e He); lia).
  apply (tiles_cons _ a b e He). apply (IH (Z.to_nat (b - (a + blen (Data e))))); try lia; try done.
  - intros p' e' He' Hlt. destruct (Z.lt_total p' a) as [Hl|[->|Hl]].
    + specialize (Ha p' e' He' Hl). lia.
    + by simplify_eq.
    + specialize (v_disj s Hi a e p' He ltac:(by eexists) Hl). lia.
  - intros x Hx. apply Hng. lia.
Qed.

Lemma tiles_cut q a b q' c d : nonempty q → cut q a b q' → b ≤ c → tiles q c d → tiles q' c d.
Proof.
  intros Hn Hc Hbc. induction 1 as [|c d e He _ IH]; [constructor|].
  apply (tiles_cons _ c d e); [rewrite Hc, bool_decide_eq_false_2 by lia; done|]. apply IH. specialize (Hn c e He). lia.
Qed.

Lemma cut_nonempty q a b q' : nonempty q → cut q a b q' → nonempty q'.
Proof. intros Hn Hc p e He. rewrite Hc in He. case_bool_decide; [done|]. eauto. Qed.

Lemma run_not_gap l1 g g' l2 x : apart (l1 ++ g :: g' :: l2) → End g ≤ x < Start g' → ¬ in_gap (l1 ++ g :: g' :: l2) x.
Proof.
  intros Ha Hx. rewrite in_gap_app, !in_gap_cons. apply apart_app in Ha as (_ & (H1 & H2 & H3 & H4 & H5) & H6).
  intros [(h & Hh & Hxh)|[?|[?|(h & Hh & Hxh)]]]; [|lia|lia|].
  - specialize (H6 h g Hh ltac:(set_solver)). lia.
  - rewrite Forall_forall in H4. specialize (H4 h Hh). lia.
Qed.

(** The run between two neighbouring gaps. *)
Lemma run_tiles s l1 g g' l2 : inv s → (gaps s).*2 = l1 ++ g :: g' :: l2 →
  tiles (queue s) (End g) (Start g') ∧ queue s !! Start g' = None ∧ End g < Start g' ∧ Start g < End g ∧
  (∀ p, Start g ≤ p < End g → queue s !! p = None).
Proof.
  intros Hi Hg. pose proof (v_apart s Hi) as Ha. rewrite Hg in Ha. pose proof Ha as Ha'.
  apply apart_app in Ha' as (_ & (H1 & H2 & H3 & _) & _). apply Forall_cons in H2 as [H2 _].
  assert (Hin : ∀ x, Start g ≤ x < End g → in_gap (gaps s).*2 x) by (intros x Hx; exists g; rewrite Hg; set_solver).
  assert (Hin' : in_gap (gaps s).*2 (Start g')) by (exists g'; rewrite Hg; set_solver by lia).
  split_and!; try lia.
  - apply tiles_run; try done; [| | |apply boundary_gap; [done|right; apply Hin; lia]|apply boundary_gap; auto|].
    + destruct (v_range s Hi (End g - 1)); [apply Hin|]; lia.
    + lia.
    + apply (v_range s Hi) in Hin'. lia.
    + intros x Hx. rewrite Hg. by apply run_not_gap.
  - by apply not_gap_none.
  - intros p Hp. by apply not_gap_none, Hin.
Qed.

Lemma remove_gaps_spec s0 a X L m e r s : inv s0 → (gaps s0).*2 = X ++ (m ++ e :: r).*2 → gaps s = L ++ m ++ e :: r →
  NoDup (gaps s).*1 → (∀ f, head (m ++ [e]) = Some f → a ≤ Start f.2 ∧ cut (queue s0) a (Start f.2) (queue s)) →
  ∃ q' d', remove_gaps (Start e.2) (m ++ e :: r) s = (Ok tt, mkSorter q' (readPos s) (L ++ e :: r) (fresh s) d') ∧
    cut (queue s0) a (Start e.2) q' ∧ cbs q' ++ d' ≡ₚ cbs (queue s) ++ done_cbs s.
Proof.
  intros Hi. revert X s. induction m as [|g m IH]; intros X s HX Hg Hnd Hcut.
  - destruct (Hcut e eq_refl) as [_ Hc]. exists (queue s), (done_cbs s). simpl in *.
    assert (Start e.2 < End e.2). { apply (apart_in (gaps s0).*2); [apply Hi|]. rewrite HX. set_solver. }
    rewrite (proj2 (Z.ltb_ge _ _)) by lia. split_and!; [|done|done]. rewrite <- Hg. by destruct s.
  - destruct (Hcut g eq_refl) as [Hle Hc].
    assert (∃ g' rest, m ++ e :: r = g' :: rest ∧ head (m ++ [e]) = Some g') as (g' & rest & Hrest & Hhd).
    { destruct m as [|g' m]; simpl; eauto. }
    assert (HX' : (gaps s0).*2 = X ++ g.2 :: g'.2 :: rest.*2) by (rewrite HX; simpl; by rewrite Hrest).
    destruct (run_tiles s0 X g.2 g'.2 rest.*2 Hi HX') as (Ht & Hnone & Hlt & Hgne & Hkeys).
    pose proof (inv_nonempty s0 Hi) as Hn.
    assert (Hg'e : Start g'.2 ≤ Start e.2).
    { pose proof (v_apart s0 Hi) as Ha. rewrite HX' in Ha. apply apart_app in Ha as (_ & (_ & _ & Hg1 & Hf & _) & _).
      destruct m as [|h m]; simpl in *; simplify_eq; [lia|]. rewrite Forall_forall in Hf. assert (e.2 ∈ (m ++ e :: r).*2) by (rewrite fmap_app; set_solver).
      specialize (Hf e.2 ltac:(done)). lia. }
    simpl. rewrite (proj2 (Z.ltb_lt _ _)) by lia.
    assert (HcE : cut (queue s0) a (End g.2) (queue s)) by (eapply cut_extend; [done|lia|done]).
    destruct (deleteConsecutive_spec (End g.2) (Start g'.2) s) as (q1 & d1 & He1 & Hc1 & Hp1).
    { by eapply cut_nonempty. }
    { eapply cut_disj; [done|apply Hi]. }
    { eapply tiles_cut; [done|exact HcE|lia|done]. }
    { rewrite Hc. by case_bool_decide. }
    rewrite (st_bind_ok _ _ _ _ _ He1). rewrite (st_bind_ok _ _ _ tt (mkSorter q1 (readPos s) (L ++ m ++ e :: r) (fresh s) d1)).
    2: { unfold gap_Remove, st_modify, with_qd, set_gaps. simpl. rewrite Hg. simpl. destruct g as [i g]. rewrite remove_mid; [done|]. by rewrite Hg in Hnd. }
    destruct (IH (X ++ [g.2]) (mkSorter q1 (readPos s) (L ++ m ++ e :: r) (fresh s) d1)) as (q2 & d2 & He2 & Hc2 & Hp2); simpl.
    + rewrite HX, <- app_assoc. done.
    + done.
    + rewrite Hg in Hnd. destruct g as [i g]. by apply ids_mid in Hnd as (_ & _ & ?).
    + intros f Hf. simplify_eq. split; [lia|]. eapply cut_trans; [| |exact HcE|exact Hc1]; lia.
    + exists q2, d2. split_and!; [done|done|]. by rewrite Hp2.
Qed.
(** * Pushing *)

(** Replacing everything in [[start, end_)] by one entry. *)
Lemma update_inv s start end_ data cb q1 gs fr d : inv s → start < end_ → readPos s ≤ start → end_ < MaxByteCount →
  blen data = end_ - start → matches data start → boundary (queue s) start → boundary (queue s) end_ →
  cut (queue s) start end_ q1 → apart gs.*2 → NoDup gs.*1 → Forall (λ i, i < fr)%nat gs.*1 →
  (∀ x, in_gap gs.*2 x ↔ in_gap (gaps s).*2 x ∧ ¬ start ≤ x < end_) →
  inv (mkSorter (<[start := mkEntry data cb]> q1) (readPos s) gs fr d).
Proof.
  intros Hi Hse Hrs Hmax Hlen Hm Hbs Hbe Hc Hap Hnd Hfr Hgap. pose proof Hi as [].
  assert (Hold : ∀ p e, q1 !! p = Some e → queue s !! p = Some e ∧ (p + blen (Data e) ≤ start ∨ end_ ≤ p)).
  { intros p e He. rewrite Hc in He. case_bool_decide as Hp; [done|]. split; [done|].
    destruct (Z.lt_ge_cases p start); [left; by apply (Hbs p e)|right; lia]. }
  assert (Hnew : ∀ p e, <[start := mkEntry data cb]> q1 !! p = Some e →
    p = start ∧ e = mkEntry data cb ∨ queue s !! p = Some e ∧ (p + blen (Data e) ≤ start ∨ end_ ≤ p)).
  { intros p e [[<- <-]|[_ ?]]%lookup_insert_Some; auto. }
  split; simpl; try done.
  - apply Hgap. split; [done|lia].
  - intros x [Hx _]%Hgap. auto.
  - intros p e [[-> ->]|[He _]]%Hnew; [simpl; split_and!; [done|lia|done]|]. eauto.
  - intros p x (e & [[-> ->]|[He Hor]]%Hnew & Hx); simpl in *.
    + split; [|lia]. rewrite Hgap. intros [_ Hno]. apply Hno. lia.
    + destruct (v_gap0 p x) as [Hng ?]; [by exists e|]. split; [|done]. by rewrite Hgap; intros [].
  - intros p e p' [[-> ->]|[He Hor]]%Hnew [e' [[-> ->]|[He' Hor']]%Hnew] Hlt; simpl in *; try lia.
    + pose proof (v_entry0 p' e' He'). lia.
    + by apply (v_disj0 p e p').
  - intros x Hx. destruct (decide (start ≤ x < end_)) as [Hin|Hout].
    { right. exists start, (mkEntry data cb). rewrite lookup_insert_eq. simpl. split; [done|lia]. }
    destruct (v_cover0 x Hx) as [Hg|(p & e & He & Hpx)]; [left; by apply Hgap|]. right.
    exists p, e. split; [|done].
    assert (Hp : ¬ start ≤ p < end_). { intros Hp. specialize (Hbe p e He ltac:(lia)). lia. }
    rewrite lookup_insert_ne by lia. rewrite Hc. by rewrite bool_decide_eq_false_2.
Qed.

(** What a call of [push] may do. *)
Definition tooManyGaps : go_error := ErrMsg "too many gaps in received data".

Definition push_post (s : frameSorter) (data : bytes) (start : Z) (cb : option nat) (r : res () * frameSorter) : Prop :=
  (r = (Err errDuplicateStreamData, s) ∧ ∀ x, start ≤ x < start + blen data → ¬ in_gap (gaps s).*2 x) ∨
  (∃ s', r = (Err tooManyGaps, s') ∧ MaxStreamFrameSorterGaps < blen (gaps s')) ∨
  (∃ s', r = (Ok tt, s') ∧ inv s' ∧ readPos s' = readPos s ∧ blen (gaps s') ≤ MaxStreamFrameSorterGaps ∧
     (∀ x, in_gap (gaps s').*2 x ↔ in_gap (gaps s).*2 x ∧ ¬ start ≤ x < start + blen data) ∧
     cbs (queue s') ++ done_cbs s' ≡ₚ opt_list cb ++ cbs (queue s) ++ done_cbs s).

Lemma push_store_ok s wasCut data data0 start start0 end_ cb q1 gs fr d : inv s → start < end_ → readPos s ≤ start → end_ < MaxByteCount →
  blen data = end_ - start → matches data start → boundary (queue s) start → boundary (queue s) end_ →
  cut (queue s) start end_ q1 → cbs q1 ++ d ≡ₚ cbs (queue s) ++ done_cbs s →
  apart gs.*2 → NoDup gs.*1 → Forall (λ i, i < fr)%nat gs.*1 →
  (∀ x, in_gap gs.*2 x ↔ in_gap (gaps s).*2 x ∧ ¬ start ≤ x < end_) →
  (∀ x, in_gap (gaps s).*2 x → start0 ≤ x < start0 + blen data0 ↔ start ≤ x < end_) →
  push_post s data0 start0 cb (push_store wasCut data start cb (mkSorter q1 (readPos s) gs fr d)).
Proof.
  intros Hi Hse Hrs Hmax Hlen Hm Hbs Hbe Hc Hperm Hap Hnd Hfr Hgap Hsame. unfold push_store.
  assert (Hgap0 : ∀ x, in_gap gs.*2 x ↔ in_gap (gaps s).*2 x ∧ ¬ start0 ≤ x < start0 + blen data0).
  { intros x. rewrite Hgap. specialize (Hsame x). tauto. }
  assert (Hnone : q1 !! start = None) by (rewrite Hc; by rewrite bool_decide_eq_true_2 by lia).
  set (b := wasCut && (blen data <? MinStreamFrameBufferSize)).
  set (cb' := if b then None else cb). set (d' := if b then opt_list cb ++ d else d).
  rewrite (st_bind_ok _ _ _ cb' (mkSorter q1 (readPos s) gs fr d')) by (unfold cb', d'; destruct b; [by destruct cb|done]).
  rewrite (st_bind_ok _ _ _ (mkSorter q1 (readPos s) gs fr d') (mkSorter q1 (readPos s) gs fr d')) by done. simpl.
  destruct (Z.ltb_spec MaxStreamFrameSorterGaps (blen gs)).
  { right. left. eexists. split; [reflexivity|done]. }
  right. right. eexists. split; [reflexivity|]. split_and!; simpl; try done.
  - unfold set_queue; simpl; by apply (update_inv s start end_).
  - unfold set_queue. simpl. rewrite (cbs_insert _ _ _ Hnone). simpl. rewrite <- app_assoc. unfold d', cb'. destruct b; simpl.
    + rewrite Permutation_app_swap_app, Hperm. done.
    + by rewrite Hperm.
Qed.
Lemma gap_Remove_mid (s : frameSorter) l1 i g l2 : gaps s = l1 ++ (i, g) :: l2 → NoDup (gaps s).*1 →
  gap_Remove i s = (Ok tt, set_gaps (l1 ++ l2) s).
Proof. intros Hg Hn. unfold gap_Remove, st_modify. rewrite Hg in *. by rewrite remove_mid. Qed.
Lemma gap_set_mid (s : frameSorter) l1 i g l2 v : gaps s = l1 ++ (i, g) :: l2 → NoDup (gaps s).*1 →
  gap_set i v s = (Ok tt, set_gaps (l1 ++ (i, v) :: l2) s).
Proof. intros Hg Hn. unfold gap_set, st_modify. rewrite Hg in *. by rewrite (set_mid _ _ _ g). Qed.
Lemma gap_InsertAfter_mid (s : frameSorter) l1 i g l2 v : gaps s = l1 ++ (i, g) :: l2 → NoDup (gaps s).*1 →
  gap_InsertAfter v i s = (Ok tt, mkSorter (queue s) (readPos s) (l1 ++ (i, g) :: (fresh s, v) :: l2) (S (fresh s)) (done_cbs s)).
Proof. intros Hg Hn. unfold gap_InsertAfter, st_modify. rewrite Hg in *. by rewrite insert_mid. Qed.

Lemma matches_take data start n : matches data start → matches (take n data) start.
Proof. intros Hm i b Hb. apply lookup_take_Some in Hb as [Hb _]. auto. Qed.
Lemma blen_take (data : bytes) n : 0 ≤ n ≤ blen data → blen (take (Z.to_nat n) data) = n.
Proof. unfold blen. rewrite length_take. lia. Qed.

(** Cutting the frame at the end of [endGap]. *)
Lemma cut_end (b : bool) data start end_ E wc (s : frameSorter) : (if b then end_ < E else E ≤ end_) → start < E →
  start < end_ → blen data = end_ - start → matches data start →
  ∃ data' wc', (if negb b && negb (start =? E) && (E <? end_)
      then d ← st_lift (slice_to data (E - start)); mret (d, E, true) else mret (data, end_, wc)) s =
    (Ok (data', Z.min end_ E, wc'), s) ∧ blen data' = Z.min end_ E - start ∧ matches data' start.
Proof.
  intros Hb HsE Hse Hlen Hm. destruct b; simpl; [exists data, wc; rewrite Z.min_l by lia; by split_and!|].
  rewrite (proj2 (Z.eqb_neq _ _)) by lia. simpl. destruct (Z.ltb_spec E end_).
  - unfold slice_to. replace ((E - start <? 0) || (blen data <? E - start)) with false by lia.
    eexists _, true. rewrite Z.min_r by lia. split; [done|]. rewrite blen_take by lia. split; [done|by apply matches_take].
  - exists data, wc. assert (end_ = E) by lia. rewrite Z.min_l by lia. split_and!; done.
Qed.

(** The frame that starts in or before [startGap], which it reaches. *)
Section cases.
Context (s : frameSorter) (l1 l2 : list (nat * byteInterval)) (ig : nat) (g : byteInterval) (data0 : bytes) (start0 : Z) (cb : option nat).
Context (Hi : inv s) (Hgaps : gaps s = l1 ++ (ig, g) :: l2).
Context (data : bytes) (start end_ : Z) (wc rep : bool) (q1 : gmap Z frameSorterEntry) (d1 : list nat).
Context (Hread : readPos s ≤ start) (HsE : start < End g) (Hl1 : ∀ g', g' ∈ l1.*2 → End g' < start)
  (Hrep : start ≤ Start g ∨ rep = false) (Hcut : cut (queue s) start (Z.max start (Start g)) q1)
  (Hbs : boundary (queue s) start) (Hge : Start g < end_) (Hse : start < end_) (Hmax : end_ < MaxByteCount)
  (Hlen : blen data = end_ - start) (Hm : matches data start) (Hperm : cbs q1 ++ d1 ≡ₚ cbs (queue s) ++ done_cbs s)
  (Hsame : ∀ x, in_gap (gaps s).*2 x → start0 ≤ x < start0 + blen data0 ↔ start ≤ x < end_).

Lemma g_apart : apart (l1.*2 ++ g :: l2.*2).
Proof. pose proof (v_apart s Hi) as Ha. rewrite Hgaps, fmap_app in Ha. done. Qed.

Lemma g_in x : Start g ≤ x < End g → in_gap (gaps s).*2 x.
Proof. intros Hx. exists g. rewrite Hgaps, fmap_app. set_solver. Qed.

(** Storing, when the new gaps are those outside [[start, end'')]. *)
Lemma store_same (b : bool) X fr : (if b then end_ < End g else End g ≤ end_) →
  let end' := Z.min end_ (End g) in
  (X = (if bool_decide (start ≤ Start g) then [] else [(ig, mkInterval (Start g) start)]) ++
       (if b then [(if bool_decide (start ≤ Start g) then ig else fresh s, mkInterval end_ (End g))] else [])) →
  fr = (if b && negb (bool_decide (start ≤ Start g)) then S (fresh s) else fresh s) →
  (∀ g', g' ∈ l2.*2 → end_ < Start g') → ∀ wc data', blen data' = end' - start → matches data' start →
  push_post s data0 start0 cb (push_store wc data' start cb (mkSorter q1 (readPos s) (l1 ++ X ++ l2) fr d1)).
Proof.
  intros Hb end' HX Hfr Hl2 wc' data' Hlen' Hm'. pose proof g_apart as Ha.
  assert (Hgne : Start g < End g) by (apply (apart_in (l1.*2 ++ g :: l2.*2)); [done|set_solver]).
  assert (HXv : X.*2 = (if bool_decide (start ≤ Start g) then [] else [mkInterval (Start g) start]) ++ (if b then [mkInterval end_ (End g)] else [])).
  { rewrite HX. by destruct (bool_decide _), b. }
  eapply (push_store_ok s wc' data' data0 start start0 end'); try done; try lia.
  - apply boundary_gap; [done|]. unfold end'. destruct (Z.min_spec end_ (End g)) as [[? ->]|[? ->]]; [left|right]; apply g_in; lia.
  - eapply cut_extend; [done|lia|]. intros p Hp. apply not_gap_none; [done|]. apply g_in. lia.
  - rewrite !fmap_app, HXv. eapply (apart_replace l1.*2 [g] _ l2.*2 (Start g) (End g)); [done| |by exists g; set_solver|by exists g; set_solver|].
    + case_bool_decide; destruct b; simpl; repeat split; try lia; repeat constructor; simpl; lia.
    + case_bool_decide; destruct b; simpl; intros g'; rewrite ?elem_of_cons, ?elem_of_nil; intros Hin; destruct_or?; subst; simpl; try done; lia.
  - rewrite HX. apply (ids_replace l1 l2 ig g _ (fresh s)); [by rewrite <- Hgaps; apply Hi|by rewrite <- Hgaps; apply Hi|].
    case_bool_decide; destruct b; simpl; auto.
  - rewrite HX, Hfr. apply (ids_fresh l1 l2 ig g _ (fresh s)); [by rewrite <- Hgaps; apply Hi|].
    case_bool_decide; destruct b; simpl; (split; [repeat (apply Forall_cons_2 || apply Forall_nil_2); simpl; auto|intros; lia]).
  - intros x. rewrite Hgaps, !fmap_app, fmap_cons, HXv, !in_gap_app, in_gap_cons. simpl.
    assert (Hx1 : in_gap l1.*2 x → x < start) by (intros (h & Hh & ?); specialize (Hl1 h Hh); lia).
    assert (Hx2 : in_gap l2.*2 x → end_ < x) by (intros (h & Hh & ?); specialize (Hl2 h Hh); lia).
    assert (Hg1 : in_gap (if bool_decide (start ≤ Start g) then [] else [mkInterval (Start g) start]) x ↔ Start g ≤ x < start).
    { case_bool_decide; rewrite ?in_gap_cons, in_gap_nil; simpl; lia. }
    assert (Hg2 : in_gap (if b then [mkInterval end_ (End g)] else []) x ↔ end_ ≤ x < End g).
    { destruct b; rewrite ?in_gap_cons, in_gap_nil; simpl; lia. }
    rewrite Hg1, Hg2. unfold end'. split.
    + intros [Hq|[[Hq|Hq]|Hq]]; [specialize (Hx1 Hq)| | |specialize (Hx2 Hq)]; (split; [|lia]); auto; right; left; lia.
    + intros [[Hq|[Hq|Hq]] Hn]; [by left| |by right; right]. right. left. lia.
  - intros x Hx. rewrite (Hsame x Hx). unfold end'. rewrite Hgaps, fmap_app, fmap_cons, in_gap_app, in_gap_cons in Hx. simpl in Hx.
    destruct Hx as [(h & Hh & ?)|[?|(h & Hh & ?)]]; [specialize (Hl1 h Hh)| |specialize (Hl2 h Hh)]; lia.
Qed.
(** [push_gaps] when the frame ends before the next gap. *)
Lemma push_gaps_same (b : bool) : (if b then end_ < End g else End g ≤ end_) → (∀ g', g' ∈ l2.*2 → end_ < Start g') →
  push_post s data0 start0 cb (push_gaps (ig, g) (ig, g) b l2 data start end_ wc rep cb (with_qd q1 d1 s)).
Proof.
  intros Hb Hl2. unfold push_gaps. simpl. rewrite Nat.eqb_refl.
  pose proof (v_ids s Hi) as Hnd.
  assert (Hgs : gaps (with_qd q1 d1 s) = l1 ++ (ig, g) :: l2) by done.
  set (L := if bool_decide (start ≤ Start g) then (if b then [(ig, mkInterval end_ (End g))] else [])
            else [(ig, mkInterval (Start g) start)]).
  match goal with |- context [(if start <=? Start g then ?x else ?y) ≫= _] => set (adj := if start <=? Start g then x else y) end.
  assert (Hadj : adj (with_qd q1 d1 s) = (Ok (negb (bool_decide (start ≤ Start g))), set_gaps (l1 ++ L ++ l2) (with_qd q1 d1 s))).
  { unfold adj, L. destruct (Z.leb_spec start (Start g)).
    - rewrite bool_decide_eq_true_2 by done. destruct b.
      + rewrite (proj2 (Z.leb_gt _ _) Hb). by rewrite (st_bind_ok _ _ _ _ _ (gap_set_mid _ _ _ _ _ _ Hgs Hnd)).
      + rewrite (proj2 (Z.leb_le _ _) Hb). by rewrite (st_bind_ok _ _ _ _ _ (gap_Remove_mid _ _ _ _ _ Hgs Hnd)).
    - rewrite bool_decide_eq_false_2 by lia. destruct Hrep as [?| ->]; [lia|]. simpl.
      by rewrite (st_bind_ok _ _ _ _ _ (gap_set_mid _ _ _ _ _ _ Hgs Hnd)). }
  rewrite (st_bind_ok _ _ _ _ _ Hadj). clearbody adj. simpl.
  set (s2 := set_gaps (l1 ++ L ++ l2) (with_qd q1 d1 s)). rewrite (st_bind_ok _ _ _ tt s2) by done.
  set (end' := Z.min end_ (End g)).
  destruct (cut_end b data start end_ (End g) wc s2) as (data' & wc' & Hcutd & Hlen' & Hm'); try done.
  fold end' in Hcutd, Hlen'.
  rewrite (st_bind_ok _ _ _ _ _ Hcutd).
  assert (Hfin : (if end' =? End g then mret tt
      else if negb (bool_decide (start ≤ Start g)) then gap_InsertAfter (mkInterval end' (End g)) ig else mret tt) s2 =
    (Ok tt, mkSorter q1 (readPos s) (l1 ++ ((if bool_decide (start ≤ Start g) then [] else [(ig, mkInterval (Start g) start)]) ++
       (if b then [(if bool_decide (start ≤ Start g) then ig else fresh s, mkInterval end_ (End g))] else [])) ++ l2)
      (if b && negb (bool_decide (start ≤ Start g)) then S (fresh s) else fresh s) d1)).
  { unfold end', s2, L. destruct b; simpl.
    - rewrite Z.min_l by lia. rewrite (proj2 (Z.eqb_neq _ _)) by lia. case_bool_decide; simpl; [done|].
      rewrite (gap_InsertAfter_mid _ l1 ig (mkInterval (Start g) start) l2); [done|done|]. simpl.
      rewrite Hgaps in Hnd. by rewrite !fmap_app in *.
    - rewrite Z.min_r, Z.eqb_refl by lia. case_bool_decide; done. }
  rewrite (st_bind_ok _ _ _ _ _ Hfin).
  by apply (store_same b _ _ Hb eq_refl eq_refl Hl2).
Qed.
End cases.
(** The frame that reaches beyond [startGap]: the gaps up to [endGap]. *)
Section next.
Context (s : frameSorter) (l1 m r : list (nat * byteInterval)) (ig ie : nat) (g e : byteInterval) (data0 : bytes) (start0 : Z) (cb : option nat).
Context (Hi : inv s) (Hgaps : gaps s = l1 ++ (ig, g) :: m ++ (ie, e) :: r).
Context (data : bytes) (start end_ : Z) (wc rep b : bool).
Context (Hread : readPos s ≤ start) (HsE : start ≤ End g) (Hl1 : ∀ g', g' ∈ l1.*2 → End g' < start)
  (Hbs : boundary (queue s) start) (Hee : Start e ≤ end_) (Hb : if b then end_ < End e else End e ≤ end_)
  (Hr : ∀ g', g' ∈ r.*2 → end_ < Start g') (Hmax : end_ < MaxByteCount)
  (Hlen : blen data = end_ - start) (Hm : matches data start)
  (Hsame : ∀ x, in_gap (gaps s).*2 x → start0 ≤ x < start0 + blen data0 ↔ start ≤ x < end_).

Definition left_part : list (nat * byteInterval) :=
  if bool_decide (start ≤ Start g) then [] else [(ig, mkInterval (Start g) start)].

Lemma n_apart : apart (l1.*2 ++ (g :: m.*2 ++ [e]) ++ r.*2).
Proof. pose proof (v_apart s Hi) as Ha. rewrite Hgaps, fmap_app, fmap_cons, fmap_app, fmap_cons in Ha.
  simpl. by rewrite <- app_assoc. Qed.

Lemma n_order : Start g < End g ∧ End g < Start e ∧ Start e < End e ∧ (∀ h, h ∈ m.*2 → End g < Start h ∧ Start h < End h ∧ End h < Start e).
Proof.
  pose proof n_apart as Ha. apply apart_app in Ha as (_ & Ha & _). apply apart_app in Ha as ((H1 & H2 & H3) & _ & _).
  apply Forall_app in H2 as [H2 [He _]%Forall_cons]. apply apart_app in H3 as (H3 & (H4 & _) & H5). rewrite Forall_forall in H2.
  split_and!; try done. intros h Hh. split_and!; [auto|by apply (apart_in m.*2)|]. apply H5; set_solver.
Qed.

Lemma n_in_gap x : in_gap (gaps s).*2 x ↔ in_gap l1.*2 x ∨ Start g ≤ x < End g ∨ in_gap m.*2 x ∨ Start e ≤ x < End e ∨ in_gap r.*2 x.
Proof. by rewrite Hgaps, fmap_app, fmap_cons, fmap_app, fmap_cons, in_gap_app, in_gap_cons, in_gap_app, in_gap_cons. Qed.

Lemma n_bounds x : (in_gap l1.*2 x → x < start) ∧ (in_gap m.*2 x → End g < x < Start e) ∧ (in_gap r.*2 x → end_ < x).
Proof.
  destruct n_order as (_ & _ & _ & Hm'). split_and!; intros (h & Hh & Hx).
  - specialize (Hl1 h Hh). lia.
  - specialize (Hm' h Hh). lia.
  - specialize (Hr h Hh). lia.
Qed.

Definition right_part : list (nat * byteInterval) := if b then [(ie, mkInterval end_ (End e))] else [].

Lemma n_values : (left_part ++ right_part).*2 =
  (if bool_decide (start ≤ Start g) then [] else [mkInterval (Start g) start]) ++ (if b then [mkInterval end_ (End e)] else []).
Proof. unfold left_part, right_part. by destruct (bool_decide _), b. Qed.

Lemma n_sublist X : X.*1 `sublist_of` [ie] → (l1 ++ (left_part ++ X) ++ r).*1 `sublist_of` (gaps s).*1.
Proof.
  intros HX. rewrite Hgaps, !fmap_app, !fmap_cons, !fmap_app. apply sublist_app; [done|].
  rewrite <- app_assoc. change ((ig, g).1 :: m.*1 ++ ((ie, e) :: r).*1) with ([ig] ++ m.*1 ++ [ie] ++ r.*1).
  apply sublist_app; [unfold left_part; case_bool_decide; simpl; [apply sublist_nil_l|done]|].
  apply sublist_inserts_l, sublist_app; done.
Qed.

Lemma store_next q3 d3 wc' data' : let end' := Z.min end_ (End e) in
  cut (queue s) start (Start e) q3 → cbs q3 ++ d3 ≡ₚ cbs (queue s) ++ done_cbs s → blen data' = end' - start → matches data' start →
  push_post s data0 start0 cb (push_store wc' data' start cb (mkSorter q3 (readPos s) (l1 ++ (left_part ++ right_part) ++ r) (fresh s) d3)).
Proof.
  intros end' Hc3 Hp3 Hlen' Hm'. destruct n_order as (Ho1 & Ho2 & Ho3 & Ho4).
  assert (HXs : right_part.*1 `sublist_of` [ie]) by (unfold right_part; destruct b; simpl; [done|apply sublist_nil_l]).
  assert (Hine : ∀ x, Start e ≤ x < End e → in_gap (gaps s).*2 x) by (intros x Hx; apply n_in_gap; auto).
  eapply (push_store_ok s wc' data' data0 start start0 end'); try done; try (unfold end'; lia).
  - apply boundary_gap; [done|]. unfold end'. destruct (Z.min_spec end_ (End e)) as [[? ->]|[? ->]]; [left|right]; apply Hine; lia.
  - eapply cut_extend; [exact Hc3|unfold end'; simpl; lia|]. intros p Hp'. apply not_gap_none; [done|]. apply Hine. unfold end' in Hp'. simpl in Hp'. lia.
  - rewrite !fmap_app, <- fmap_app, n_values.
    eapply (apart_replace l1.*2 (g :: m.*2 ++ [e]) _ r.*2 (Start g) (End e)); [apply n_apart| |by exists g; set_solver|by exists e; set_solver|].
    + case_bool_decide; destruct b; simpl; repeat split; try lia; repeat constructor; simpl; lia.
    + case_bool_decide; destruct b; simpl; intros g'; rewrite ?elem_of_cons, ?elem_of_nil; intros Hin; destruct_or?; subst; simpl; try done; lia.
  - eapply sublist_NoDup; [apply (v_ids s Hi)|by apply n_sublist].
  - eapply Forall_of_sublist; [by apply n_sublist|apply (v_fresh s Hi)].
  - intros x. rewrite n_in_gap, fmap_app, in_gap_app, fmap_app, in_gap_app, n_values, in_gap_app.
    destruct (n_bounds x) as (Hx1 & Hx2 & Hx3).
    assert (Hg1 : in_gap (if bool_decide (start ≤ Start g) then [] else [mkInterval (Start g) start]) x ↔ Start g ≤ x < start).
    { case_bool_decide; rewrite ?in_gap_cons, in_gap_nil; simpl; lia. }
    assert (Hg2 : in_gap (if b then [mkInterval end_ (End e)] else []) x ↔ end_ ≤ x < End e).
    { destruct b; rewrite ?in_gap_cons, in_gap_nil; simpl; lia. }
    rewrite Hg1, Hg2. unfold end'. split.
    + intros [Hq|[[Hq|Hq]|Hq]]; [specialize (Hx1 Hq)| | |specialize (Hx3 Hq)]; (split; [|lia]); auto.
      * right. left. lia.
      * do 3 right. left. lia.
    + intros [[Hq|[Hq|[Hq|[Hq|Hq]]]] Hn]; [by left| |specialize (Hx2 Hq); lia| |by right; right]; right; left; lia.
  - intros x Hx. rewrite (Hsame x Hx). apply n_in_gap in Hx. destruct (n_bounds x) as (Hx1 & Hx2 & Hx3). unfold end'.
    destruct Hx as [Hq|[Hq|[Hq|[Hq|Hq]]]]; [specialize (Hx1 Hq)| |specialize (Hx2 Hq)| |specialize (Hx3 Hq)]; lia.
Qed.

Lemma finish_next q2 d2 h : head (m ++ [(ie, e)]) = Some h → cut (queue s) start (Start h.2) q2 →
  cbs q2 ++ d2 ≡ₚ cbs (queue s) ++ done_cbs s →
  push_post s data0 start0 cb ((
    _ ← remove_gaps (Start e) (m ++ (ie, e) :: r);
    '(data, end_, wasCut) ← (
      if negb b && negb (start =? End e) && (End e <? end_)
      then data ← st_lift (slice_to data (End e - start)); mret (data, End e, true)
      else mret (data, end_, wc));
    _ ← (if end_ =? End e then gap_Remove ie else gap_set ie (mkInterval end_ (End e)));
    push_store wasCut data start cb) (mkSorter q2 (readPos s) (l1 ++ left_part ++ m ++ (ie, e) :: r) (fresh s) d2)).
Proof.
  intros Hh Hc Hp. destruct n_order as (Ho1 & Ho2 & Ho3 & Ho4).
  assert (Hnd : NoDup (l1 ++ left_part ++ m ++ (ie, e) :: r).*1).
  { eapply sublist_NoDup; [apply (v_ids s Hi)|]. rewrite Hgaps, !fmap_app, !fmap_cons. apply sublist_app; [done|].
    unfold left_part. case_bool_decide; simpl; rewrite fmap_app; [by apply sublist_cons|done]. }
  assert (Hh' : start ≤ Start h.2 ∧ Start h.2 ≤ Start e).
  { destruct m as [|h' m']; simpl in Hh; simplify_eq; simpl; [lia|]. destruct (Ho4 h.2 ltac:(simpl; set_solver)). lia. }
  destruct (remove_gaps_spec s start (l1.*2 ++ [g]) (l1 ++ left_part) m (ie, e) r
    (mkSorter q2 (readPos s) (l1 ++ left_part ++ m ++ (ie, e) :: r) (fresh s) d2) Hi) as (q3 & d3 & He3 & Hc3 & Hp3); simpl.
  { by rewrite Hgaps, fmap_app, fmap_cons, <- app_assoc. }
  { by rewrite <- app_assoc. }
  { done. }
  { intros f Hf. simplify_eq. split; [lia|done]. }
  rewrite (st_bind_ok _ _ _ _ _ He3). simpl. clear He3. rewrite Hp in Hp3.
  set (s3 := mkSorter q3 (readPos s) ((l1 ++ left_part) ++ (ie, e) :: r) (fresh s) d3).
  set (end' := Z.min end_ (End e)).
  destruct (cut_end b data start end_ (End e) wc s3) as (data' & wc' & Hcutd & Hlen' & Hm'); try done; try lia.
  fold end' in Hcutd, Hlen'.
  rewrite (st_bind_ok _ _ _ _ _ Hcutd).
  assert (Hnd3 : NoDup (gaps s3).*1).
  { simpl. rewrite <- app_assoc. change ((ie, e) :: r) with ([(ie, e)] ++ r). rewrite (app_assoc left_part).
    eapply sublist_NoDup; [apply (v_ids s Hi)|]. by apply n_sublist. }
  assert (Hfin : (if end' =? End e then gap_Remove ie else gap_set ie (mkInterval end' (End e))) s3 =
    (Ok tt, mkSorter q3 (readPos s) (l1 ++ (left_part ++ right_part) ++ r) (fresh s) d3)).
  { unfold end', right_part. destruct b; simpl.
    - rewrite Z.min_l, (proj2 (Z.eqb_neq _ _)) by lia. rewrite (gap_set_mid s3 (l1 ++ left_part) ie e r) by done.
      unfold s3, set_gaps. simpl. by rewrite <- !app_assoc.
    - rewrite Z.min_r, Z.eqb_refl by lia. rewrite (gap_Remove_mid s3 (l1 ++ left_part) ie e r) by done.
      unfold s3, set_gaps. simpl. by rewrite app_nil_r, <- !app_assoc. }
  rewrite (st_bind_ok _ _ _ _ _ Hfin).
  by apply store_next.
Qed.
Lemma n_neq : Nat.eqb ig ie = false.
Proof.
  apply Nat.eqb_neq. intros ->. pose proof (v_ids s Hi) as Hnd. rewrite Hgaps in Hnd. apply ids_mid in Hnd as (_ & Hnd & _).
  apply Hnd. rewrite fmap_app. set_solver.
Qed.

Lemma n_head : ∃ h rest, head (m ++ [(ie, e)]) = Some h ∧ m ++ (ie, e) :: r = h :: rest ∧ (gaps s).*2 = l1.*2 ++ g :: h.2 :: rest.*2.
Proof. rewrite Hgaps, fmap_app. destruct m as [|h m']; simpl; eauto. Qed.

(** [push_gaps] for a frame that starts in or before [startGap]. *)
Lemma push_gaps_next q1 d1 : start < End g → start ≤ Start g ∨ rep = false → cut (queue s) start (Z.max start (Start g)) q1 →
  cbs q1 ++ d1 ≡ₚ cbs (queue s) ++ done_cbs s →
  push_post s data0 start0 cb (push_gaps (ig, g) (ie, e) b (m ++ (ie, e) :: r) data start end_ wc rep cb (with_qd q1 d1 s)).
Proof.
  intros HsE' Hrep Hc Hp. destruct n_order as (Ho1 & Ho2 & Ho3 & Ho4). destruct n_head as (h & rest & Hh & Hrest & Hv).
  unfold push_gaps. cbn [fst snd]. rewrite n_neq. cbn [negb andb].
  pose proof (v_ids s Hi) as Hnd. assert (Hgs : gaps (with_qd q1 d1 s) = l1 ++ (ig, g) :: m ++ (ie, e) :: r) by done.
  match goal with |- context [(if start <=? Start g then ?x else ?y) ≫= _] => set (adj := if start <=? Start g then x else y) end.
  set (s2 := mkSorter q1 (readPos s) (l1 ++ left_part ++ m ++ (ie, e) :: r) (fresh s) d1).
  assert (Hadj : adj (with_qd q1 d1 s) = (Ok (negb (bool_decide (start ≤ Start g))), s2)).
  { unfold adj, s2, left_part. destruct (Z.leb_spec start (Start g)).
    - rewrite bool_decide_eq_true_2 by done. rewrite (proj2 (Z.leb_le _ _)) by lia.
      by rewrite (st_bind_ok _ _ _ _ _ (gap_Remove_mid _ _ _ _ _ Hgs Hnd)).
    - rewrite bool_decide_eq_false_2 by lia. destruct Hrep as [?| ->]; [lia|]. simpl.
      by rewrite (st_bind_ok _ _ _ _ _ (gap_set_mid _ _ _ _ _ _ Hgs Hnd)). }
  rewrite (st_bind_ok _ _ _ _ _ Hadj). clearbody adj. rewrite st_bind_assoc.
  destruct (run_tiles s l1.*2 g h.2 rest.*2 Hi Hv) as (Ht & Hnone & Hlt & _ & Hkeys).
  assert (HcE : cut (queue s) start (End g) q1) by (eapply cut_extend; [exact Hc|lia|]; intros p Hp'; apply Hkeys; lia).
  destruct (deleteConsecutive_spec (End g) (Start h.2) s2) as (q2 & d2 & He2 & Hc2 & Hp2); simpl.
  { eapply cut_nonempty; [by apply inv_nonempty|done]. }
  { eapply cut_disj; [done|apply Hi]. }
  { eapply tiles_cut; [by apply inv_nonempty|exact HcE|lia|done]. }
  { rewrite HcE, bool_decide_eq_false_2 by lia. done. }
  rewrite (st_bind_ok _ _ _ _ _ He2). apply (finish_next q2 d2 h Hh).
  - eapply cut_trans; [| |exact HcE|exact Hc2]; lia.
  - by rewrite Hp2.
Qed.

(** [push_gaps] for a frame that starts at the end of [startGap] and replaces
    the entries up to the next gap. *)
Lemma push_gaps_run q1 d1 h : start = End g → rep = true → head (m ++ [(ie, e)]) = Some h → cut (queue s) start (Start h.2) q1 →
  cbs q1 ++ d1 ≡ₚ cbs (queue s) ++ done_cbs s →
  push_post s data0 start0 cb (push_gaps (ig, g) (ie, e) b (m ++ (ie, e) :: r) data start end_ wc rep cb (with_qd q1 d1 s)).
Proof.
  intros HsE' Hrep Hh Hc Hp. destruct n_order as (Ho1 & Ho2 & Ho3 & Ho4).
  unfold push_gaps. cbn [fst snd]. rewrite n_neq, Hrep. cbn [negb andb]. rewrite (proj2 (Z.leb_gt _ _)) by lia.
  rewrite (st_bind_ok _ _ _ false (with_qd q1 d1 s)) by done. rewrite st_bind_assoc.
  destruct n_head as (h' & rest & Hh' & Hrest & Hv). assert (h' = h) as -> by congruence.
  destruct (run_tiles s l1.*2 g h.2 rest.*2 Hi Hv) as (_ & _ & Hlt & _ & _).
  assert (Hnone : q1 !! End g = None) by (rewrite Hc, bool_decide_eq_true_2 by lia; done).
  assert (He2 : deleteConsecutive (End g) (with_qd q1 d1 s) = (Ok tt, with_qd q1 d1 s)).
  { unfold deleteConsecutive. rewrite (st_bind_ok _ _ _ (with_qd q1 d1 s) (with_qd q1 d1 s)) by done. simpl. unfold mbind, st_bind. simpl. by rewrite Hnone. }
  rewrite (st_bind_ok _ _ _ _ _ He2).
  replace (with_qd q1 d1 s) with (mkSorter q1 (readPos s) (l1 ++ left_part ++ m ++ (ie, e) :: r) (fresh s) d1).
  { by apply (finish_next q1 d1 h). }
  unfold with_qd, left_part. rewrite Hgaps, bool_decide_eq_false_2, HsE' by lia. by destruct g.
Qed.
End next.

(** A frame within a run, whose start and end are those of entries. *)
Lemma push_gaps_within s l1 ig g l2 data0 start0 cb data start end_ wc q1 d1 : inv s → gaps s = l1 ++ (ig, g) :: l2 → start = End g →
  readPos s ≤ start → start < end_ → end_ < MaxByteCount → blen data = end_ - start → matches data start →
  boundary (queue s) start → boundary (queue s) end_ → cut (queue s) start end_ q1 → cbs q1 ++ d1 ≡ₚ cbs (queue s) ++ done_cbs s →
  (∀ x, start ≤ x < end_ → ¬ in_gap (gaps s).*2 x) → (∀ x, start0 ≤ x < start0 + blen data0 → ¬ in_gap (gaps s).*2 x) →
  push_post s data0 start0 cb (push_gaps (ig, g) (ig, g) false l2 data start end_ wc true cb (with_qd q1 d1 s)).
Proof.
  intros Hi Hgaps Hst Hread Hse Hmax Hlen Hm Hbs Hbe Hc Hp Hng Hng0. unfold push_gaps. cbn [fst snd]. rewrite Nat.eqb_refl. cbn [negb andb].
  assert (Start g < End g). { apply (apart_in (gaps s).*2); [apply Hi|]. rewrite Hgaps, fmap_app. set_solver. }
  rewrite (proj2 (Z.leb_gt _ _)) by lia. rewrite (st_bind_ok _ _ _ false (with_qd q1 d1 s)) by done.
  rewrite (st_bind_ok _ _ _ tt (with_qd q1 d1 s)) by done. rewrite Hst, Z.eqb_refl. cbn [negb andb].
  rewrite (st_bind_ok _ _ _ (data, end_, wc) (with_qd q1 d1 s)) by done. rewrite (proj2 (Z.eqb_neq _ _)) by lia.
  rewrite (st_bind_ok _ _ _ tt (with_qd q1 d1 s)) by done. rewrite <- Hst.
  apply (push_store_ok s wc data data0 start start0 end_); try done; try apply Hi.
  - intros x. split; [intros Hx; split; [done|]; intros Hin; by apply (Hng x)|by intros [? _]].
  - intros x Hx. split; intros Hin; exfalso; [by apply (Hng0 x)|by apply (Hng x)].
Qed.
(** The gaps around a frame, as [findStartGap] and [findEndGap] find them. *)
Section push.
Context (s : frameSorter) (l1 l2 m r : list (nat * byteInterval)) (ig : nat) (g : byteInterval) (e : nat * byteInterval).
Context (data : bytes) (start end_ : Z) (cb : option nat) (startsInGap b : bool).
Context (Hi : inv s) (Hgaps : gaps s = l1 ++ (ig, g) :: l2) (Hme : (ig, g) :: l2 = m ++ e :: r).
Context (Hend : end_ = start + blen data) (H0 : 0 ≤ start) (Hmax : end_ < MaxByteCount) (Hse : start < end_) (Hm : matches data start).
Context (Hl1 : ∀ g', g' ∈ l1.*2 → End g' < start) (Hstart : if startsInGap then Start g ≤ start ≤ End g else start < Start g).
Context (Hee : Start e.2 ≤ end_) (Hb : if b then end_ < End e.2 else End e.2 ≤ end_ ∧ ∀ g', g' ∈ r.*2 → end_ < Start g').
Context (Hge : Start g < end_).

Lemma p_split : (e = (ig, g) ∧ m = [] ∧ r = l2) ∨ ∃ m', m = (ig, g) :: m' ∧ l2 = m' ++ e :: r.
Proof. destruct m as [|x m']; simpl in Hme; simplify_eq; [by left|right; by exists m']. Qed.

Lemma p_r g' : g' ∈ r.*2 → end_ < Start g'.
Proof.
  intros Hg'. destruct b; [|by apply Hb]. pose proof (v_apart s Hi) as Ha. rewrite Hgaps, Hme, fmap_app in Ha.
  apply apart_app in Ha as (_ & Ha & _). rewrite fmap_app in Ha. apply apart_app in Ha as (_ & (_ & Hf & _) & _).
  rewrite Forall_forall in Hf. specialize (Hf g' Hg'). lia.
Qed.

Lemma p_gap x : in_gap (gaps s).*2 x → start ≤ x → Start g ≤ x.
Proof.
  intros Hx Hsx. rewrite Hgaps, fmap_app, fmap_cons, in_gap_app, in_gap_cons in Hx. simpl in Hx.
  pose proof (v_apart s Hi) as Ha. rewrite Hgaps, fmap_app in Ha. apply apart_app in Ha as (_ & (Hg & Hf & _) & _).
  destruct Hx as [(h & Hh & ?)|[?|(h & Hh & ?)]]; [specialize (Hl1 h Hh); lia|lia|].
  rewrite Forall_forall in Hf. specialize (Hf h Hh). simpl in *. lia.
Qed.

Lemma p_in x : Start g ≤ x < End g → in_gap (gaps s).*2 x.
Proof. intros Hx. exists g. rewrite Hgaps, fmap_app. set_solver. Qed.

Lemma p_after : after ig (gaps s) = l2.
Proof. rewrite Hgaps. apply (after_mid _ _ _ g). rewrite <- Hgaps. apply Hi. Qed.

(** A frame that starts in or before [startGap]. *)
Lemma push_gaps_reach data' start' wc rep q1 d1 : readPos s ≤ start' → start ≤ start' → start' < End g → start' < end_ →
  start' ≤ Start g ∨ rep = false → cut (queue s) start' (Z.max start' (Start g)) q1 → cbs q1 ++ d1 ≡ₚ cbs (queue s) ++ done_cbs s →
  boundary (queue s) start' → blen data' = end_ - start' → matches data' start' →
  (∀ x, in_gap (gaps s).*2 x → start ≤ x < end_ ↔ start' ≤ x < end_) →
  push_post s data start cb (push_gaps (ig, g) e b l2 data' start' end_ wc rep cb (with_qd q1 d1 s)).
Proof.
  intros Hr Hss HsE Hse' Hrep Hc Hp Hbs Hlen Hm' Hsame.
  assert (Hsame' : ∀ x, in_gap (gaps s).*2 x → start ≤ x < start + blen data ↔ start' ≤ x < end_) by (intros x Hx; rewrite <- Hend; auto).
  assert (Hl1' : ∀ g', g' ∈ l1.*2 → End g' < start') by (intros g' Hg'; specialize (Hl1 g' Hg'); lia).
  pose proof p_r as Hpr. pose proof p_split as Hsplit.
  assert (Hb' : if b then end_ < End e.2 else End e.2 ≤ end_) by (destruct b; [done|by destruct Hb]). clear Hb.
  destruct Hsplit as [(-> & -> & ->)|(m' & -> & ->)].
  - eapply push_gaps_same; done.
  - destruct e as [ie e']. eapply push_gaps_next; try done. lia.
Qed.

Lemma push_new_before : startsInGap = false →
  push_post s data start cb (push_new (ig, g) e startsInGap b data start end_ cb s).
Proof.
  intros Hs. pose proof Hstart as Hbef. rewrite Hs in Hbef. rewrite Hs. unfold push_new. rewrite (st_bind_ok _ _ _ s s) by done.
  cbn [fst snd]. rewrite p_after.
  assert (Hgne : Start g < End g). { apply (apart_in (gaps s).*2); [apply Hi|]. rewrite Hgaps, fmap_app. set_solver. }
  assert (Hrg : readPos s ≤ Start g) by (destruct (v_range s Hi (Start g)); [apply p_in; lia|done]).
  destruct (queue s !! start) as [e0|] eqn:Hq.
  - assert (Hr0 : readPos s ≤ start) by (by apply (v_entry s Hi start e0)).
    assert (Hbs : boundary (queue s) start) by (apply boundary_key; [apply Hi|by eexists]).
    assert (Ht : tiles (queue s) start (Start g)).
    { apply tiles_run; try done; [lia| |apply boundary_gap; [done|left; apply p_in; lia]|].
      - destruct (v_range s Hi (Start g)); [apply p_in; lia|lia].
      - intros x Hx Hin. apply p_gap in Hin; lia. }
    destruct (replace_loop_spec (S (size (queue s))) start data end_ start false (Start g) s)
      as [(_ & _ & e1 & He1 & Hle)|(pos' & data' & end' & c & q1 & d1 & Hr & Hc & Hpos & Ht' & Hp & Hcase)]; try done; try lia.
    { by apply inv_nonempty. } { apply Hi. } { apply not_gap_none; [done|apply p_in; lia]. }
    { assert (start + blen (Data e1) ≤ Start g); [|lia].
      eapply (boundary_gap s (Start g)); [done|left; apply p_in; lia|done|lia]. }
    destruct Hcase as [(-> & -> & ->)|(_ & _ & _ & e1 & He1 & Hlt)].
    2: { exfalso. pose proof (tiles_le _ _ _ (inv_nonempty s Hi) Ht') as Hle. destruct (decide (pos' = Start g)) as [->|Hne].
      - rewrite not_gap_none in He1; [done|done|apply p_in; lia].
      - assert (pos' + blen (Data e1) ≤ Start g); [|lia]. eapply (boundary_gap s (Start g)); [done|left; apply p_in; lia|done|lia]. }
    rewrite (st_bind_ok _ _ _ _ _ Hr). rewrite (proj2 (Z.ltb_lt start (Start g))) by lia. cbn [negb andb orb].
    rewrite (st_bind_ok _ _ _ (data, start, c) (with_qd q1 d1 s)) by done.
    apply push_gaps_reach; try done; try lia. by rewrite Z.max_r by lia.
  - destruct (replace_loop_spec (S (size (queue s))) start data end_ start false start s)
      as [(_ & _ & e1 & He1 & Hle)|(pos' & data' & end' & c & q1 & d1 & Hr & Hc & Hpos & Ht' & Hp & Hcase)]; try done; try lia.
    { by apply inv_nonempty. } { apply Hi. } { constructor. } { congruence. }
    destruct Hcase as [(-> & -> & ->)|(_ & _ & _ & e1 & He1 & Hlt)].
    2: { exfalso. pose proof (tiles_le _ _ _ (inv_nonempty s Hi) Ht'). assert (pos' = start) by lia. congruence. }
    rewrite (st_bind_ok _ _ _ _ _ Hr). rewrite Z.ltb_irrefl. cbn [negb andb orb]. rewrite st_bind_assoc.
    unfold slice_from. replace ((Start g - start <? 0) || (blen data <? Start g - start)) with false by lia.
    set (data' := drop (Z.to_nat (Start g - start)) data).
    rewrite (st_bind_ok _ _ _ data' (with_qd q1 d1 s)) by done. rewrite (st_bind_ok _ _ _ (data', Start g, true) (with_qd q1 d1 s)) by done.
    apply push_gaps_reach; try done; try lia.
    + rewrite Z.max_id. by eapply cut_empty.
    + apply boundary_gap; [done|left; apply p_in; lia].
    + unfold data', blen in *. rewrite length_drop. lia.
    + intros i x Hx. unfold data' in Hx. rewrite lookup_drop in Hx. apply Hm in Hx as ->. f_equal. lia.
    + intros x Hx. split; [|lia]. intros Hsx. pose proof (p_gap x Hx). lia.
Qed.

(** A frame that starts in [startGap], before its end. *)
Lemma push_new_in : startsInGap = true → start < End g →
  push_post s data start cb (push_new (ig, g) e startsInGap b data start end_ cb s).
Proof.
  intros Hs HsE. pose proof Hstart as Hbef. rewrite Hs in Hbef. rewrite Hs. unfold push_new. rewrite (st_bind_ok _ _ _ s s) by done.
  cbn [fst snd]. rewrite p_after. pose proof (not_gap_none s start Hi (p_in start ltac:(lia))) as Hq.
  destruct (replace_loop_spec (S (size (queue s))) start data end_ start false start s)
    as [(_ & _ & e1 & He1 & Hle)|(pos' & data' & end' & c & q1 & d1 & Hr & Hc & Hpos & Ht' & Hp & Hcase)]; try done; try lia.
  { by apply inv_nonempty. } { apply Hi. } { constructor. } { congruence. }
  destruct Hcase as [(-> & -> & ->)|(_ & _ & _ & e1 & He1 & Hlt)].
  2: { exfalso. pose proof (tiles_le _ _ _ (inv_nonempty s Hi) Ht'). assert (pos' = start) by lia. congruence. }
  rewrite (st_bind_ok _ _ _ _ _ Hr). rewrite Z.ltb_irrefl. cbn [negb andb orb].
  rewrite (st_bind_ok _ _ _ (data, start, c) (with_qd q1 d1 s)) by done.
  apply push_gaps_reach; try done; try lia.
  - destruct (v_range s Hi start) as [? _]; [apply p_in; lia|done].
  - rewrite Z.max_l by lia. done.
  - apply boundary_gap; [done|left; apply p_in; lia].
Qed.

Lemma p_next : start = End g → ∃ h rest, l2 = h :: rest ∧ (gaps s).*2 = l1.*2 ++ g :: h.2 :: rest.*2.
Proof.
  intros HsE. destruct l2 as [|h rest] eqn:E.
  - exfalso. pose proof (v_last s Hi) as Hl. rewrite Hgaps, fmap_app, in_gap_app in Hl. simpl in Hl.
    rewrite in_gap_cons, in_gap_nil in Hl. destruct Hl as [(h & Hh & ?)|[?|[]]]; [|lia]. specialize (Hl1 h Hh). lia.
  - exists h, rest. split; [done|]. by rewrite Hgaps, fmap_app.
Qed.

(** A frame that starts at the end of [startGap]. *)
Lemma push_new_end : startsInGap = true → start = End g →
  push_post s data start cb (push_new (ig, g) e startsInGap b data start end_ cb s).
Proof.
  intros Hs HsE. pose proof Hstart as Hbef. rewrite Hs in Hbef. rewrite Hs. unfold push_new. rewrite (st_bind_ok _ _ _ s s) by done.
  cbn [fst snd]. rewrite p_after. destruct (p_next HsE) as (h & rest & Hl2 & Hv).
  destruct (run_tiles s l1.*2 g h.2 rest.*2 Hi Hv) as (Ht & Hnone & Hlt & Hgne & Hkeys). rewrite <- HsE in Ht.
  assert (Hr0 : readPos s ≤ start) by (destruct (v_range s Hi (start - 1)); [apply p_in|]; lia).
  assert (Hbs : boundary (queue s) start) by (apply boundary_gap; [done|right; apply p_in; lia]).
  assert (Hin' : in_gap (gaps s).*2 (Start h.2)).
  { exists h.2. rewrite Hv. split; [set_solver|]. pose proof (v_apart s Hi) as Ha. rewrite Hv in Ha. apply (apart_in _ h.2) in Ha; [lia|set_solver]. }
  destruct (replace_loop_spec (S (size (queue s))) start data end_ start false (Start h.2) s)
    as [(Hr & _ & e1 & He1 & Hle)|(pos' & data' & end' & c & q1 & d1 & Hr & Hc & Hpos & Ht' & Hp & Hcase)]; try done; try lia.
  { by apply inv_nonempty. } { apply Hi. }
  { left. split; [unfold mbind, st_bind; by rewrite Hr|]. intros x Hx. eapply (v_gap s Hi start). exists e1. split; [done|lia]. }
  rewrite (st_bind_ok _ _ _ _ _ Hr). cbn [negb andb orb].
  rewrite (st_bind_ok _ _ _ (data', start, c) (with_qd q1 d1 s)) by done.
  destruct Hcase as [(-> & -> & ->)|(Hrep & Hd' & -> & e1 & He1 & Hlt1)].
  - rewrite (proj2 (Z.ltb_lt _ _)) by lia. pose proof p_r as Hpr.
    destruct p_split as [(He & _ & Hrl)|(m' & Hm' & Hl2')].
    { exfalso. rewrite He in Hb. rewrite Hrl in Hb. destruct b; [simpl in Hb; lia|]. destruct Hb as [_ Hb'].
      specialize (Hb' h.2). rewrite Hl2 in Hb'. specialize (Hb' ltac:(set_solver)). lia. }
    rewrite Hl2' in *. destruct e as [ie e'].
    eapply (push_gaps_run s l1 m' r ig ie g e'); try done; try lia.
    + destruct b; [done|by destruct Hb].
    + destruct m' as [|h' m']; simpl in *; by simplify_eq.
  - simpl in Hrep. rewrite Hrep. apply Z.ltb_lt in Hrep.
    assert (Hb1 : boundary (queue s) (Start h.2)) by (apply boundary_gap; auto).
    assert (Hpl : pos' < Start h.2).
    { pose proof (tiles_le _ _ _ (inv_nonempty s Hi) Ht'). destruct (decide (pos' = Start h.2)) as [->|]; [congruence|lia]. }
    specialize (Hb1 pos' e1 He1 Hpl).
    destruct p_split as [(He & _ & Hrl)|(m' & Hm' & Hl2')].
    2: { exfalso. assert (Start h.2 ≤ Start e.2); [|lia]. pose proof (v_apart s Hi) as Ha. rewrite Hv in Ha.
      apply apart_app in Ha as (_ & (_ & _ & Hh & Hf & _) & _). rewrite Hl2 in Hl2'. destruct m' as [|h' m']; simplify_eq/=; [lia|].
      rewrite Forall_forall in Hf. specialize (Hf e.2). rewrite fmap_app in Hf. specialize (Hf ltac:(set_solver)). lia. }
    rewrite He. replace b with false. 2: { destruct b; [|done]. rewrite He in Hb. simpl in Hb. lia. }
    eapply (push_gaps_within s l1 ig g l2); try done; try lia.
    + rewrite Hd'. rewrite blen_take by lia. lia.
    + rewrite Hd'. by apply matches_take.
    + apply boundary_key; [apply Hi|by eexists].
    + intros x Hx. rewrite Hv. apply run_not_gap; [rewrite <- Hv; apply Hi|lia].
    + intros x Hx. rewrite Hv. apply run_not_gap; [rewrite <- Hv; apply Hi|lia].
Qed.
End push.

Lemma push_ok s data start cb : inv s → 0 ≤ start → start + blen data < MaxByteCount → matches data start →
  push_post s data start cb (push data start cb s).
Proof.
  intros Hi H0 Hmax Hm. unfold push. destruct (Z.eqb_spec (blen data) 0) as [Hz|Hz].
  { left. split; [done|]. lia. }
  pose proof (blen_nonneg data). rewrite (st_bind_ok _ _ _ s s) by done. set (end_ := start + blen data) in *. cbv zeta.
  pose proof (v_last s Hi) as (gl & Hgl & Hgl'). pose proof (v_apart s Hi) as Ha. pose proof (v_ids s Hi) as Hids.
  destruct (gaps s) as [|front rest] eqn:Hfr; [by apply elem_of_nil in Hgl|]. rewrite <- Hfr in *.
  destruct (Z.leb_spec end_ (Start front.2)) as [Hle|Hgt].
  { left. split; [done|]. intros x Hx (h & Hh & Hhx). rewrite Hfr in Ha, Hh. simpl in Ha, Hh. destruct Ha as (Hf & Hall & _).
    rewrite Forall_forall in Hall. apply elem_of_cons in Hh as [->|Hh]; [lia|]. specialize (Hall h Hh). lia. }
  destruct (findStartGap_spec start (gaps s) Ha) as (l1 & [ig g] & l2 & sb & Hgaps & Hfs & Hl1 & Hsb); [exists gl; split; [done|lia]|].
  rewrite (st_lift_ok _ _ _ _ Hfs). cbn [fst snd] in *. rewrite Hgaps in Hids.
  assert (Hbef : before ig None (gaps s) = last l1) by (rewrite Hgaps, (before_mid _ _ _ g) by done; by destruct (last l1)).
  assert (Haft : after ig (gaps s) = l2) by (rewrite Hgaps; by apply (after_mid _ _ _ g)). rewrite Hbef, Haft.
  assert (Hlow : ∀ x, in_gap (gaps s).*2 x → start ≤ x → Start g ≤ x) by (intros x; by apply (p_gap s l1 l2 ig g start)).
  destruct (Z.le_gt_cases (Start g) end_) as [Hge|Hlt].
  2: { (* the frame ends before [startGap] *)
    assert (Hfe : findEndGap (last l1) ((ig, g) :: l2) end_ = Ok (last l1, false)).
    { simpl. by rewrite (proj2 (Z.leb_gt _ _) Hlt), (proj2 (Z.ltb_lt _ _) Hlt). }
    rewrite (st_lift_ok _ _ _ _ Hfe). destruct (last l1) as [p|] eqn:Hlast.
    2: { apply last_None in Hlast as ->. rewrite Hfr in Hgaps. simplify_eq/=. lia. }
    apply last_Some in Hlast as [l1' ->]. rewrite Hgaps, fmap_app in Ha. apply apart_app in Ha as (Ha1 & (Hg1 & _) & Ha2).
    specialize (Ha2 p.2 g). rewrite fmap_app in Ha2. specialize (Ha2 ltac:(set_solver) ltac:(set_solver)).
    assert (Start p.2 < End p.2) by (apply (apart_in _ p.2) in Ha1; [done|rewrite fmap_app; set_solver]).
    assert (Hneq : Nat.eqb ig p.1 = false). { apply Nat.eqb_neq. intros ->. apply ids_mid in Hids as (Hni & _). apply Hni. rewrite fmap_app. set_solver. }
    simpl in *. rewrite Hneq. simpl. replace ((Start p.2 <=? End g) && (end_ <=? Start g)) with true by lia.
    left. split; [done|]. intros x Hx Hin. specialize (Hlow x Hin). lia. }
  rewrite Hgaps, fmap_app in Ha. pose proof Ha as Ha'. apply apart_app in Ha' as (_ & Ha2 & _).
  assert (Hex : ∃ g', g' ∈ ((ig, g) :: l2).*2 ∧ end_ < End g').
  { rewrite Hgaps, fmap_app in Hgl. apply elem_of_app in Hgl as [Hgl|Hgl]; [specialize (Hl1 gl Hgl); lia|]. exists gl. split; [done|lia]. }
  destruct (findEndGap_spec (last l1) end_ (ig, g) l2 Ha2 Hex Hge) as (m & e & r & b & Hme & Hfe & Hm' & Hee & Hb).
  rewrite (st_lift_ok _ _ _ _ Hfe).
  destruct (Z.le_gt_cases end_ (Start g)) as [Hle'|Hgt'].
  { (* [end_ = Start g] *)
    destruct m as [|x m']; simpl in Hme; injection Hme as <- Hl2.
    - simpl. rewrite Nat.eqb_refl, (proj2 (Z.leb_le _ _) Hle'). simpl. left. split; [done|]. intros x Hx Hin. specialize (Hlow x Hin). lia.
    - exfalso. rewrite fmap_cons in Hm'. specialize (Hm' g ltac:(set_solver)). destruct Ha2 as (? & _). simpl in *. lia. }
  replace (end_ <=? Start g) with false by lia. rewrite !andb_false_r. cbn [orb].
  assert (Hse : start < end_) by lia.
  destruct sb; [|by apply (push_new_before s l1 l2 m r ig g e data start end_ cb false b)].
  destruct (decide (start = End g)) as [HsE|HsE].
  - by apply (push_new_end s l1 l2 m r ig g e data start end_ cb true b).
  - apply (push_new_in s l1 l2 m r ig g e data start end_ cb true b); try done. lia.
Qed.
(** * Popping *)
Lemma Pop_ok s : inv s →
  (in_gap (gaps s).*2 (readPos s) ∧ Pop s = (Ok (readPos s, None, None), s)) ∨
  (¬ in_gap (gaps s).*2 (readPos s) ∧ ∃ d cb s', Pop s = (Ok (readPos s, Some d, cb), s') ∧ inv s' ∧ 0 < blen d ∧ matches d (readPos s) ∧
     readPos s' = readPos s + blen d ∧ gaps s' = gaps s ∧ opt_list cb ++ cbs (queue s') ++ done_cbs s' ≡ₚ cbs (queue s) ++ done_cbs s).
Proof.
  intros Hi. unfold Pop. rewrite (st_bind_ok _ _ _ s s) by done. pose proof (v_range s Hi _ (v_last s Hi)) as Hrange.
  destruct (queue s !! readPos s) as [e|] eqn:He.
  2: { left. split; [|done]. destruct (v_cover s Hi (readPos s)) as [|(p & e & Hp & Hx)]; [lia|done|].
    destruct (v_entry s Hi p e Hp) as (Hr & _). assert (p = readPos s) as -> by lia. congruence. }
  destruct (v_entry s Hi _ e He) as (_ & Hlen & Hm).
  assert (Hng : ∀ x, readPos s ≤ x < readPos s + blen (Data e) → ¬ in_gap (gaps s).*2 x).
  { intros x Hx. eapply (v_gap s Hi (readPos s)). by exists e. }
  right. split; [apply Hng; lia|]. cbv zeta. set (s' := set_readPos _ _).
  rewrite (st_bind_ok _ _ _ tt s') by done. change (gaps s') with (gaps s). change (readPos s') with (readPos s + blen (Data e)).
  assert (Hf : ∀ front rest, gaps s = front :: rest → readPos s + blen (Data e) < End front.2).
  { intros front rest Hfr. pose proof (v_apart s Hi) as Ha. rewrite Hfr in Ha. simpl in Ha.
    assert (Hin : in_gap (gaps s).*2 (Start front.2)) by (exists front.2; rewrite Hfr, fmap_cons; split; [set_solver|lia]).
    pose proof (v_range s Hi _ Hin).
    destruct (Z.lt_ge_cases (Start front.2) (readPos s + blen (Data e))); [exfalso; apply (Hng (Start front.2)); [lia|done]|lia]. }
  pose proof (v_last s Hi) as Hlast. pose proof Hi as [].
  destruct (gaps s) as [|front rest] eqn:Hfr; [destruct Hlast as (? & Hx & _); by apply elem_of_nil in Hx|].
  specialize (Hf front rest eq_refl).
  rewrite (proj2 (Z.leb_gt _ _) Hf). exists (Data e), (DoneCb e), s'. split_and!; try done.
  - split; simpl; rewrite ?Hfr; try done; try lia.
    + intros x Hx. pose proof (v_range0 x Hx). destruct (Z.lt_ge_cases x (readPos s + blen (Data e))); [|lia].
      exfalso. apply (Hng x); [lia|done].
    + intros p e' [Hne Hp]%lookup_delete_Some. destruct (v_entry0 p e' Hp) as (Hr & ? & ?). split_and!; try done.
      eapply (v_disj0 (readPos s) e p); [done|by eexists|lia].
    + intros p x (e' & [Hne Hp]%lookup_delete_Some & Hx). apply (v_gap0 p). by exists e'.
    + by apply disj_delete.
    + intros x Hx. destruct (v_cover0 x) as [|(p & e' & Hp & Hpx)]; [lia|by left|]. right. exists p, e'. split; [|done].
      rewrite lookup_delete_ne; [done|]. intros <-. simplify_eq. lia.
  - simpl. by rewrite (cbs_delete _ _ _ He), app_assoc.
Qed.

Lemma Pop_size s o d cb s' : Pop s = (Ok (o, Some d, cb), s') → size (queue s) = S (size (queue s')).
Proof.
  unfold Pop. rewrite (st_bind_ok _ _ _ s s) by done. destruct (queue s !! readPos s) as [e|] eqn:He; [|done].
  cbv zeta. set (s1 := set_readPos _ _). rewrite (st_bind_ok _ _ _ tt s1) by done.
  destruct (gaps s1); [done|]. destruct (_ <=? _); [done|]. intros [= _ _ _ <-]. simpl. by apply (size_delete _ _ e).
Qed.

(** * The contract *)

(** [history s frames out handed taken]: a sorter after frames were pushed, in
    any order, and data popped: the frames, the data popped, the callbacks
    handed over with the frames and those returned by [Pop]. *)
Inductive sorted : frameSorter → list (Z * bytes) → bytes → list nat → list nat → Prop :=
| sorted_new : sorted newFrameSorter [] [] [] []
| sorted_push s frames out handed taken data offset cb s' : sorted s frames out handed taken →
    0 ≤ offset → offset + blen data < MaxByteCount → matches data offset → Push data offset cb s = (Ok tt, s') →
    sorted s' ((offset, data) :: frames) out (opt_list cb ++ handed) taken
| sorted_pop s frames out handed taken data cb s' : sorted s frames out handed taken →
    Pop s = (Ok (readPos s, Some data, cb), s') → sorted s' frames (out ++ data) handed (opt_list cb ++ taken).

Definition received (frames : list (Z * bytes)) (x : Z) : Prop := ∃ f, f ∈ frames ∧ f.1 ≤ x < f.1 + blen f.2.

Lemma Push_ok s data start cb : inv s → 0 ≤ start → start + blen data < MaxByteCount → matches data start →
  (∃ s', Push data start cb s = (Err tooManyGaps, s') ∧ MaxStreamFrameSorterGaps < blen (gaps s')) ∨
  (∃ s', Push data start cb s = (Ok tt, s') ∧ inv s' ∧ readPos s' = readPos s ∧
     (∀ x, in_gap (gaps s').*2 x ↔ in_gap (gaps s).*2 x ∧ ¬ start ≤ x < start + blen data) ∧
     cbs (queue s') ++ done_cbs s' ≡ₚ opt_list cb ++ cbs (queue s) ++ done_cbs s).
Proof.
  intros Hi H0 Hmax Hm. unfold Push. destruct (push_ok s data start cb Hi H0 Hmax Hm) as [[-> Hd]|[(s' & -> & Hg)|(s' & -> & H1 & H2 & _ & H3 & H4)]].
  - right. rewrite decide_True by done. eexists. split; [reflexivity|].
    assert (Hgap : ∀ x, in_gap (gaps s).*2 x ↔ in_gap (gaps s).*2 x ∧ ¬ start ≤ x < start + blen data).
    { intros x. split; [|by intros []]. intros Hx. split; [done|]. intros Hin. by apply (Hd x). }
    destruct cb as [c|]; split_and!; try done; [destruct Hi; by split|]. simpl. by rewrite <- Permutation_middle.
  - left. exists s'. by rewrite decide_False by (unfold tooManyGaps, errDuplicateStreamData; congruence).
  - right. exists s'. by rewrite decide_False by done.
Qed.

Lemma new_inv : inv newFrameSorter.
Proof.
  split; simpl; try done.
  - apply NoDup_cons. split; [set_solver|constructor].
  - repeat constructor.
  - exists (mkInterval 0 MaxByteCount). split; [set_solver|done].
  - intros x (g & ->%list_elem_of_singleton & Hx). simpl in Hx. lia.
  - intros p x (e & He & _). by rewrite lookup_empty in He.
  - intros x Hx. left. exists (mkInterval 0 MaxByteCount). split; [set_solver|simpl; lia].
Qed.

Lemma sorted_inv s frames out handed taken : sorted s frames out handed taken →
  inv s ∧ matches out 0 ∧ blen out = readPos s ∧
  (∀ x, 0 ≤ x < MaxByteCount → in_gap (gaps s).*2 x ↔ ¬ received frames x) ∧
  handed ≡ₚ taken ++ cbs (queue s) ++ done_cbs s.
Proof.
  induction 1 as [|s frames out handed taken data offset cb s' _ (Hi & Ho & Hl & Hg & Hc) H0 Hmax Hm He|
    s frames out handed taken data cb s' _ (Hi & Ho & Hl & Hg & Hc) He].
  - split_and!; [apply new_inv|done|done| |done]. intros x Hx. split.
    + intros _ (f & Hf & _). by apply elem_of_nil in Hf.
    + intros _. exists (mkInterval 0 MaxByteCount). split; [set_solver|done].
  - destruct (Push_ok s data offset cb Hi H0 Hmax Hm) as [(s2 & He2 & _)|(s2 & He2 & Hi' & Hr & Hgap & Hp)]; [congruence|].
    rewrite He in He2. injection He2 as <-. split_and!; try done.
    + congruence.
    + intros x Hx. rewrite Hgap, (Hg x Hx). unfold received. setoid_rewrite elem_of_cons. split.
      * intros [Hn Hx'] (f & [->|Hf] & Hfx); [done|]. apply Hn. by exists f.
      * intros Hn. split; [intros (f & Hf & Hfx); apply Hn; eauto|]. intros Hin. apply Hn. exists (offset, data). auto.
    + rewrite Hc, Hp. apply Permutation_app_swap_app.
  - destruct (Pop_ok s Hi) as [[_ He2]|(_ & d & cb2 & s2 & He2 & Hi' & Hd & Hm & Hr & Hgp & Hp)]; [congruence|].
    rewrite He in He2. injection He2 as <- <- <-. split_and!; try done.
    + intros i b Hb. apply lookup_app_Some in Hb as [Hb|[Hge Hb]]; [by apply Ho|]. apply Hm in Hb as ->. f_equal. unfold blen in Hl. lia.
    + rewrite blen_app. lia.
    + by rewrite Hgp.
    + rewrite Hc, <- Hp, Permutation_app_swap_app, <- app_assoc. done.
Qed.

(** [Pop] returns data exactly when the next byte was received. *)
Lemma sorted_Pop s frames out handed taken : sorted s frames out handed taken →
  received frames (blen out) ∧ (∃ d cb s', Pop s = (Ok (blen out, Some d, cb), s') ∧ 0 < blen d ∧
    sorted s' frames (out ++ d) handed (opt_list cb ++ taken)) ∨
  ¬ received frames (blen out) ∧ Pop s = (Ok (blen out, None, None), s).
Proof.
  intros Hs. destruct (sorted_inv _ _ _ _ _ Hs) as (Hi & Ho & Hl & Hg & Hc). pose proof (v_range s Hi _ (v_last s Hi)).
  pose proof (v_read s Hi). rewrite Hl. specialize (Hg (readPos s) ltac:(lia)).
  destruct (Pop_ok s Hi) as [[Hin He]|(Hn & d & cb & s' & He & _ & Hd & _)]; [right; split; [by apply Hg|done]|].
  left. split; [|exists d, cb, s'; split_and!; [done|done|by eapply sorted_pop]].
  destruct (decide (Exists (λ f : Z * bytes, f.1 ≤ readPos s < f.1 + blen f.2) frames)) as [Hx|Hx].
  - apply Exists_exists in Hx as (f & ? & ?). by exists f.
  - destruct Hn. apply Hg. intros (f & ? & ?). apply Hx, Exists_exists. eauto.
Qed.

Lemma sorted_Push s frames out handed taken data offset cb : sorted s frames out handed taken →
  0 ≤ offset → offset + blen data < MaxByteCount → matches data offset →
  (∃ s', Push data offset cb s = (Err tooManyGaps, s')) ∨
  (∃ s', Push data offset cb s = (Ok tt, s') ∧ sorted s' ((offset, data) :: frames) out (opt_list cb ++ handed) taken).
Proof.
  intros Hs H0 Hmax Hm. destruct (sorted_inv _ _ _ _ _ Hs) as (Hi & _).
  destruct (Push_ok s data offset cb Hi H0 Hmax Hm) as [(s' & ? & _)|(s' & He & _)]; [left; eauto|].
  right. exists s'. split; [done|]. by eapply sorted_push.
Qed.

(** C11: the frame sorter reassembles the stream.  Whatever frames of a stream
    were pushed, in any order, overlapping and repeated, between any pops: the
    bytes popped are the first [readPos] bytes of the stream; [Pop] returns
    more data exactly when the byte at [readPos] was received; [Push] does not
    panic and fails only when it leaves more than 1000 gaps; and every buffer
    handed over is released once: its callback was called, or returned by
    [Pop], or is in the queue. *)
Theorem sorter_reassembles s frames out handed taken : sorted s frames out handed taken →
  (∀ i b, out !! i = Some b → b = Str (Z.of_nat i)) ∧ blen out = readPos s ∧
  (received frames (readPos s) → ∃ d cb s', Pop s = (Ok (readPos s, Some d, cb), s') ∧ 0 < blen d) ∧
  (¬ received frames (readPos s) → Pop s = (Ok (readPos s, None, None), s)) ∧
  (∀ data offset cb, 0 ≤ offset → offset + blen data < MaxByteCount → matches data offset →
     ∃ s', Push data offset cb s = (Ok tt, s') ∨
           Push data offset cb s = (Err tooManyGaps, s') ∧ MaxStreamFrameSorterGaps < blen (gaps s')) ∧
  handed ≡ₚ taken ++ cbs (queue s) ++ done_cbs s.
Proof.
  intros Hs. destruct (sorted_inv _ _ _ _ _ Hs) as (Hi & Ho & Hl & Hg & Hc). pose proof (v_range s Hi _ (v_last s Hi)).
  pose proof (v_read s Hi). specialize (Hg (readPos s) ltac:(lia)). split_and!; try done.
  - intros Hr. destruct (Pop_ok s Hi) as [[Hin _]|(_ & d & cb & s' & He & _ & Hd & _)]; [by apply Hg in Hin|eauto].
  - intros Hr. destruct (Pop_ok s Hi) as [[_ He]|(Hn & _)]; [done|]. by destruct Hn; apply Hg.
  - intros data offset cb Hoff Hmax Hm. destruct (Push_ok s data offset cb Hi Hoff Hmax Hm) as [(s' & ? & ?)|(s' & ? & _)]; eauto.
Qed.
End stream.

(** Two overlapping frames, the later part of the stream first, of a stream
    whose byte at offset [x] is [x]. *)
Definition example_sorter : frameSorter :=
  (Push [0; 1; 2] 0 (Some 8%nat) (Push [2; 3] 2 (Some 7%nat) newFrameSorter).2).2.

Lemma example_sorted : sorted (λ x, x) example_sorter [(0, [0; 1; 2]); (2, [2; 3])] [] [8; 7]%nat [].
Proof.
  assert (Hm : ∀ n k, matches (λ x, x) (Z.of_nat <$> seq n k) (Z.of_nat n)).
  { intros n k i b Hb. apply list_lookup_fmap_Some in Hb as (j & -> & Hj). apply lookup_seq in Hj as [-> _]. lia. }
  refine (sorted_push _ (Push [2; 3] 2 (Some 7%nat) newFrameSorter).2 [(2, [2; 3])] [] [7%nat] [] [0; 1; 2] 0 (Some 8%nat) _ _ _ _ _ _);
    [|done|done|exact (Hm 0 3)%nat|vm_compute; reflexivity].
  refine (sorted_push _ newFrameSorter [] [] [] [] [2; 3] 2 (Some 7%nat) _ _ _ _ _ _); [constructor|done|done|exact (Hm 2 2)%nat|vm_compute; reflexivity].
Qed.

Lemma sorter_reassembles_witness : received [(0, [0; 1; 2]); (2, [2; 3])] (readPos example_sorter) ∧
  ∃ d cb s', Pop example_sorter = (Ok (readPos example_sorter, Some d, cb), s') ∧ 0 < blen d.
Proof.
  assert (Hr : received [(0, [0; 1; 2]); (2, [2; 3])] (readPos example_sorter)).
  { exists (0, [0; 1; 2]). split; [set_solver|vm_compute; by split]. }
  split; [exact Hr|].
  apply (sorter_reassembles (λ x, x) example_sorter [(0, [0; 1; 2]); (2, [2; 3])] [] [8; 7]%nat [] example_sorted). exact Hr.
Defined.
End sorterCorrect.
