(* ===== verification/CryptoStream.v ===== *)
(** CRYPTO streams (crypto_stream.go, crypto_stream_manager.go): the TLS
    handshake data, cut into CRYPTO frames and reassembled. *)

From S2P Require Import Prelude.
From S2P Require Import Varint.
From S2P Require Import Protocol.
From S2P Require Import Frames.
From S2P Require Import FrameSorter.
From S2P Require Import SorterCorrect.

Module cryptoStream.
Import protocol wire frameSorter sorterCorrect.

Definition MaxCryptoStreamOffset : Z := 16 * 2 ^ 10.

(** A nil [msgBuf] is an empty list. *)
Record cryptoStreamImpl := mkCrypto {
  cs_queue : frameSorter;
  msgBuf : bytes;
  highestOffset : Z;
  finished : bool;
  writeOffset : Z;
  writeBuf : bytes;
}.

Abbreviation M := (st cryptoStreamImpl).

Definition newCryptoStream : cryptoStreamImpl := mkCrypto newFrameSorter [] 0 false 0 [].

Definition set_queue (q : frameSorter) (s : cryptoStreamImpl) : cryptoStreamImpl :=
  mkCrypto q (msgBuf s) (highestOffset s) (finished s) (writeOffset s) (writeBuf s).
Definition set_msgBuf (b : bytes) (s : cryptoStreamImpl) : cryptoStreamImpl :=
  mkCrypto (cs_queue s) b (highestOffset s) (finished s) (writeOffset s) (writeBuf s).
Definition set_highest (o : Z) (s : cryptoStreamImpl) : cryptoStreamImpl :=
  mkCrypto (cs_queue s) (msgBuf s) o (finished s) (writeOffset s) (writeBuf s).
Definition set_write (o : Z) (b : bytes) (s : cryptoStreamImpl) : cryptoStreamImpl :=
  mkCrypto (cs_queue s) (msgBuf s) (highestOffset s) (finished s) o b.

(** A method of the frame sorter. *)
Definition on_queue {A} (m : st frameSorter A) : M A := λ s,
  let '(r, q) := m (cs_queue s) in (r, set_queue q s).

(** [for { ... }]: every round takes an entry from the queue. *)
Fixpoint pop_loop (fuel : nat) : M () :=
  match fuel with
  | O => mret tt
  | S fuel =>
      '(_, data, _) ← on_queue Pop;
      match data with
      | None => mret tt
      | Some d => _ ← st_modify (λ s, set_msgBuf (msgBuf s ++ d) s); pop_loop fuel
      end
  end.

Definition errCryptoBuffer : go_error := TransportError CryptoBufferExceeded 0 (ErrMsg "received invalid offset on crypto stream").
Definition errAfterFinish : go_error :=
  TransportError ProtocolViolation 0 (ErrMsg "received crypto data after change of encryption level").

Definition HandleCryptoFrame (f : CryptoFrame) : M () := λ s,
  let highest := i64 (cf_Offset f + blen (cf_Data f)) in
  if MaxCryptoStreamOffset <? highest then (Err errCryptoBuffer, s) else
  if finished s then
    (if highestOffset s <? highest then Err errAfterFinish else Ok tt, s)
  else
  (_ ← st_modify (λ s, set_highest (Z.max (highestOffset s) highest) s);
   _ ← on_queue (Push (cf_Data f) (cf_Offset f) None);
   s ← st_get;
   pop_loop (S (size (queue (cs_queue s))))) s.

Definition GetCryptoData (s : cryptoStreamImpl) : bytes * cryptoStreamImpl := (msgBuf s, set_msgBuf [] s).

Definition errMoreData : go_error :=
  TransportError ProtocolViolation 0 (ErrMsg "encryption level changed, but crypto stream has more data to read").

Definition Finish : M () := λ s,
  if HasMoreData (cs_queue s) then (Err errMoreData, s)
  else (Ok tt, mkCrypto (cs_queue s) (msgBuf s) (highestOffset s) true (writeOffset s) (writeBuf s)).

Definition Write (p : bytes) (s : cryptoStreamImpl) : Z * cryptoStreamImpl :=
  (blen p, set_write (writeOffset s) (writeBuf s ++ p) s).

Definition HasData (s : cryptoStreamImpl) : bool := 0 <? blen (writeBuf s).

Definition PopCryptoFrame (maxLen : Z) : M CryptoFrame := λ s,
  match CryptoFrame_MaxDataLen (mkCryptoFrame (writeOffset s) []) maxLen with
  | Ok m =>
      let n := Z.min m (blen (writeBuf s)) in
      if n <? 0 then (Panic "slice bounds out of range", s) else
      (Ok (mkCryptoFrame (writeOffset s) (take (Z.to_nat n) (writeBuf s))),
       set_write (i64 (writeOffset s + n)) (drop (Z.to_nat n) (writeBuf s)) s)
  | Err e => (Err e, s)
  | Panic p => (Panic p, s)
  end.

(** * The crypto stream manager

    [HandleMessage] of the TLS stack is a parameter. *)
Section manager.
Context (HandleMessage : bytes → EncryptionLevel → res ()).

Record cryptoStreamManager := mkManager {
  initialStream : cryptoStreamImpl;
  handshakeStream : cryptoStreamImpl;
  oneRTTStream : cryptoStreamImpl;
}.

Definition stream_at (l : EncryptionLevel) (m : cryptoStreamManager) : option cryptoStreamImpl :=
  match l with
  | EncryptionInitial => Some (initialStream m)
  | EncryptionHandshake => Some (handshakeStream m)
  | Encryption1RTT => Some (oneRTTStream m)
  | Encryption0RTT => None
  end.

Definition put_stream (l : EncryptionLevel) (s : cryptoStreamImpl) (m : cryptoStreamManager) : cryptoStreamManager :=
  match l with
  | EncryptionInitial => mkManager s (handshakeStream m) (oneRTTStream m)
  | EncryptionHandshake => mkManager (initialStream m) s (oneRTTStream m)
  | Encryption1RTT => mkManager (initialStream m) (handshakeStream m) s
  | Encryption0RTT => m
  end.

(** The second [GetCryptoData] of the loop returns nil. *)
Definition manager_HandleCryptoFrame (f : CryptoFrame) (l : EncryptionLevel) : st cryptoStreamManager () := λ m,
  match stream_at l m with
  | None => (Err (ErrMsg "received CRYPTO frame with unexpected encryption level"), m)
  | Some str =>
      match HandleCryptoFrame f str with
      | (Ok _, str) =>
          let '(data, str) := GetCryptoData str in
          (match data with [] => Ok tt | _ => HandleMessage data l end, put_stream l str m)
      | (Err e, str) => (Err e, put_stream l str m)
      | (Panic p, str) => (Panic p, put_stream l str m)
      end
  end.

Definition GetPostHandshakeData (maxSize : Z) : st cryptoStreamManager (option CryptoFrame) := λ m,
  if negb (HasData (oneRTTStream m)) then (Ok None, m) else
  match PopCryptoFrame maxSize (oneRTTStream m) with
  | (Ok f, str) => (Ok (Some f), put_stream Encryption1RTT str m)
  | (Err e, str) => (Err e, put_stream Encryption1RTT str m)
  | (Panic p, str) => (Panic p, put_stream Encryption1RTT str m)
  end.

Definition manager_Drop (l : EncryptionLevel) : st cryptoStreamManager () := λ m,
  match l with
  | EncryptionInitial => let '(r, s) := Finish (initialStream m) in (r, put_stream l s m)
  | EncryptionHandshake => let '(r, s) := Finish (handshakeStream m) in (r, put_stream l s m)
  | _ => (Panic "dropped unexpected encryption level", m)
  end.
End manager.

(** * Correctness *)
Section stream.
Context (Str : Z → Z).

(** The receiver: the frames handled, the data delivered, and the state. *)
Definition rcv_ok (frames : list (Z * bytes)) (out : bytes) (s : cryptoStreamImpl) : Prop :=
  ∃ handed taken, sorted Str (cs_queue s) frames (out ++ msgBuf s) handed taken ∧ ¬ received frames (readPos (cs_queue s)).

Lemma pop_loop_ok fuel frames out handed taken s : sorted Str (cs_queue s) frames (out ++ msgBuf s) handed taken →
  (size (queue (cs_queue s)) < fuel)%nat →
  ∃ s', pop_loop fuel s = (Ok tt, s') ∧ rcv_ok frames out s' ∧ highestOffset s' = highestOffset s ∧ finished s' = finished s ∧
    writeOffset s' = writeOffset s ∧ writeBuf s' = writeBuf s.
Proof.
  revert taken s. induction fuel as [|fuel IH]; intros taken s Hs Hf; [lia|]. simpl.
  destruct (sorted_inv _ _ _ _ _ _ Hs) as (Hi & _ & _ & Hg & _). pose proof (v_range _ _ Hi _ (v_last _ _ Hi)). pose proof (v_read _ _ Hi).
  specialize (Hg (readPos (cs_queue s)) ltac:(lia)).
  destruct (Pop_ok Str _ Hi) as [[Hin He]|(Hn & d & cb & q & He & _)].
  - rewrite (st_bind_ok _ _ _ (readPos (cs_queue s), None, None) s) by (unfold on_queue; rewrite He; by destruct s).
    exists s. split_and!; try done. exists handed, taken. split; [done|]. by apply Hg.
  - rewrite (st_bind_ok _ _ _ (readPos (cs_queue s), Some d, cb) (set_queue q s)) by (unfold on_queue; by rewrite He).
    rewrite (st_bind_ok _ _ _ tt (set_msgBuf (msgBuf s ++ d) (set_queue q s))) by done.
    pose proof (sorted_pop _ _ _ _ _ _ _ _ _ Hs He) as Hs'. rewrite <- app_assoc in Hs'.
    destruct (IH (opt_list cb ++ taken) (set_msgBuf (msgBuf s ++ d) (set_queue q s))) as (s' & He' & Hr & H1 & H2 & H3 & H4).
    + exact Hs'.
    + simpl. rewrite (Pop_size _ _ _ _ _ He) in Hf. lia.
    + exists s'. by split_and!.
Qed.

Lemma HandleCryptoFrame_ok f frames out s : rcv_ok frames out s → finished s = false → 0 ≤ cf_Offset f →
  cf_Offset f + blen (cf_Data f) < MaxByteCount → matches Str (cf_Data f) (cf_Offset f) →
  (HandleCryptoFrame f s = (Err errCryptoBuffer, s) ∧ MaxCryptoStreamOffset < cf_Offset f + blen (cf_Data f)) ∨
  (∃ s', HandleCryptoFrame f s = (Err tooManyGaps, s')) ∨
  (∃ s', HandleCryptoFrame f s = (Ok tt, s') ∧ rcv_ok ((cf_Offset f, cf_Data f) :: frames) out s' ∧ finished s' = false ∧
     highestOffset s' = Z.max (highestOffset s) (cf_Offset f + blen (cf_Data f))).
Proof.
  intros (handed & taken & Hs & _) Hfin Ho Hmax Hm. unfold HandleCryptoFrame. pose proof (blen_nonneg (cf_Data f)).
  rewrite i64_small by (unfold MaxByteCount in Hmax; lia).
  destruct (Z.ltb_spec MaxCryptoStreamOffset (cf_Offset f + blen (cf_Data f))); [by left|]. right. rewrite Hfin.
  set (s1 := set_highest (Z.max (highestOffset s) (cf_Offset f + blen (cf_Data f))) s). rewrite (st_bind_ok _ _ _ tt s1) by done.
  destruct (sorted_inv _ _ _ _ _ _ Hs) as (Hi & _).
  destruct (Push_ok Str _ (cf_Data f) (cf_Offset f) None Hi Ho Hmax Hm) as [(q & He & _)|(q & He & _)].
  - left. exists (set_queue q s1). unfold mbind, st_bind, on_queue. change (cs_queue s1) with (cs_queue s). by rewrite He.
  - right. rewrite (st_bind_ok _ _ _ tt (set_queue q s1)) by (unfold on_queue; change (cs_queue s1) with (cs_queue s); by rewrite He).
    rewrite (st_bind_ok _ _ _ (set_queue q s1) (set_queue q s1)) by done.
    pose proof (sorted_push _ _ _ _ _ _ _ _ _ _ Hs Ho Hmax Hm He) as Hs'.
    destruct (pop_loop_ok (S (size (queue q))) _ out _ taken (set_queue q s1) Hs' ltac:(simpl; lia)) as (s' & He' & Hr & H1 & H2 & _).
    exists s'. split_and!; try done; by rewrite ?H1, ?H2.
Qed.

(** The sender's and the receiver's end, the frames sent and those handled,
    and the data delivered; the network loses, delays, duplicates and reorders
    frames.  The bytes written are those of [Str]. *)
Inductive transfer : cryptoStreamImpl → cryptoStreamImpl → list CryptoFrame → list (Z * bytes) → bytes → Prop :=
| transfer_new : transfer newCryptoStream newCryptoStream [] [] []
| transfer_write snd rcv net handled out p : transfer snd rcv net handled out →
    writeOffset snd + blen (writeBuf snd) + blen p < MaxByteCount → matches Str p (writeOffset snd + blen (writeBuf snd)) →
    transfer (Write p snd).2 rcv net handled out
| transfer_pop snd rcv net handled out maxLen f snd' : transfer snd rcv net handled out → maxLen ≤ 16383 →
    PopCryptoFrame maxLen snd = (Ok f, snd') → transfer snd' rcv (f :: net) handled out
| transfer_deliver snd rcv net handled out f rcv' : transfer snd rcv net handled out → f ∈ net →
    HandleCryptoFrame f rcv = (Ok tt, rcv') → transfer snd rcv' net ((cf_Offset f, cf_Data f) :: handled) out
| transfer_get snd rcv net handled out : transfer snd rcv net handled out →
    transfer snd (GetCryptoData rcv).2 net handled (out ++ (GetCryptoData rcv).1).

Record snd_ok (snd : cryptoStreamImpl) (net : list CryptoFrame) : Prop := {
  so_offset : 0 ≤ writeOffset snd;
  so_total : writeOffset snd + blen (writeBuf snd) < MaxByteCount;
  so_buf : matches Str (writeBuf snd) (writeOffset snd);
  so_net : Forall (λ f, 0 ≤ cf_Offset f ∧ cf_Offset f + blen (cf_Data f) ≤ writeOffset snd ∧ matches Str (cf_Data f) (cf_Offset f)) net;
  so_cover : ∀ x, 0 ≤ x < writeOffset snd → ∃ f, f ∈ net ∧ cf_Offset f ≤ x < cf_Offset f + blen (cf_Data f);
}.

Lemma matches_drop data start n : matches Str data start → 0 ≤ n ≤ blen data → matches Str (drop (Z.to_nat n) data) (start + n).
Proof. intros Hm Hn i b Hb. rewrite lookup_drop in Hb. apply Hm in Hb as ->. f_equal. lia. Qed.

Lemma MaxDataLen_nonneg o maxLen : 0 ≤ o < MaxByteCount → maxLen ≤ 16383 →
  ∃ m, CryptoFrame_MaxDataLen (mkCryptoFrame o []) maxLen = Ok m ∧ 0 ≤ m.
Proof.
  intros Ho Hm. assert (Hs : CryptoFrame_sendable (mkCryptoFrame o [])).
  { unfold CryptoFrame_sendable. simpl. unfold blen. simpl. lia. }
  rewrite (CryptoFrame_MaxDataLen_eq _ _ Hs Hm). eexists. split; [reflexivity|]. cbv zeta.
  destruct (Z.ltb_spec (maxLen - (CryptoFrame_hdr (mkCryptoFrame o []) + 1)) 0); [done|].
  destruct (Z.eqb_spec (quicvarint.size (maxLen - (CryptoFrame_hdr (mkCryptoFrame o []) + 1))) 1) as [|Hne]; simpl; [done|].
  assert (maxLen - (CryptoFrame_hdr (mkCryptoFrame o []) + 1) ≠ 0); [|lia]. intros E. by rewrite E in Hne.
Qed.
Lemma transfer_ok snd rcv net handled out : transfer snd rcv net handled out →
  snd_ok snd net ∧ rcv_ok handled out rcv ∧ finished rcv = false ∧
  (∀ o d, (o, d) ∈ handled → ∃ f, f ∈ net ∧ o = cf_Offset f ∧ d = cf_Data f).
Proof.
  induction 1 as [|snd rcv net handled out p _ (Hs & Hr & Hf & Hh) Ht Hm|snd rcv net handled out maxLen f snd' _ (Hs & Hr & Hf & Hh) Hml He|
    snd rcv net handled out f rcv' _ (Hs & Hr & Hf & Hh) Hin He|snd rcv net handled out _ (Hs & Hr & Hf & Hh)].
  - split_and!; try done; [|exists [], []; split; [constructor|intros (f & Hf & _); by apply elem_of_nil in Hf]|by intros o d ?%elem_of_nil].
    split; simpl; try done; lia.
  - split_and!; try done. destruct Hs. split; simpl; try done.
    + rewrite blen_app. lia.
    + intros i b Hb. apply lookup_app_Some in Hb as [Hb|[Hge Hb]]; [auto|]. apply Hm in Hb as ->. f_equal. unfold blen. lia.
  - pose proof Hs as []. pose proof (blen_nonneg (writeBuf snd)).
    destruct (MaxDataLen_nonneg (writeOffset snd) maxLen) as (m & Hm & Hm0); [lia|done|].
    unfold PopCryptoFrame in He. rewrite Hm in He. set (n := Z.min m (blen (writeBuf snd))) in *.
    rewrite (proj2 (Z.ltb_ge n 0)) in He by lia. injection He as <- <-.
    rewrite i64_small by (unfold MaxByteCount in *; lia).
    assert (Hlen : blen (take (Z.to_nat n) (writeBuf snd)) = n) by (apply blen_take; lia).
    split_and!; try done; [|set_solver]. split; simpl; try lia.
    + rewrite <- (take_drop (Z.to_nat n) (writeBuf snd)), blen_app, Hlen in so_total0. lia.
    + apply matches_drop; [done|lia].
    + constructor; simpl; [split_and!; [done|lia|by apply matches_take]|]. eapply Forall_impl; [exact so_net0|]. simpl. intros g (? & ? & ?). split_and!; try done; lia.
    + intros x Hx. destruct (Z.lt_ge_cases x (writeOffset snd)).
      * destruct (so_cover0 x) as (g & Hg & ?); [lia|]. exists g. set_solver.
      * exists (mkCryptoFrame (writeOffset snd) (take (Z.to_nat n) (writeBuf snd))). simpl. split; [set_solver|lia].
  - pose proof Hs as []. rewrite Forall_forall in so_net0. destruct (so_net0 f Hin) as (H1 & H2 & H3). pose proof (blen_nonneg (writeBuf snd)).
    destruct (HandleCryptoFrame_ok f handled out rcv Hr Hf H1) as [[? _]|[(s' & ?)|(s' & He' & Hr' & Hf' & _)]]; try congruence; [lia|done|].
    rewrite He in He'. injection He' as <-. split_and!; try done.
    intros o d [[= -> ->]|?]%elem_of_cons; [by exists f|auto].
  - split_and!; try done. destruct Hr as (handed & taken & Hr & Hn). exists handed, taken. simpl. by rewrite app_nil_r.
Qed.

(** C30: CRYPTO data arrives in order.  Whatever is written to a crypto stream
    and however it is cut into frames, and whichever of them arrive, in any
    order and number: the data handed to TLS and the data ready for it are the
    first bytes that were written, up to the first byte that did not arrive,
    and all that was sent once all frames arrived.  Handling a frame does not
    panic: it succeeds unless the frame reaches beyond 16 KiB or leaves too
    many gaps.  [Finish] succeeds exactly if no byte beyond the delivered data
    arrived. *)
Theorem crypto_data_in_order snd rcv net handled out : transfer snd rcv net handled out →
  let data := out ++ msgBuf rcv in
  (∀ i b, data !! i = Some b → b = Str (Z.of_nat i)) ∧
  (∀ x, 0 ≤ x < blen data → received handled x) ∧ ¬ received handled (blen data) ∧
  ((∀ f, f ∈ net → (cf_Offset f, cf_Data f) ∈ handled) → blen data = writeOffset snd) ∧
  (∀ f, f ∈ net → ∃ r rcv', HandleCryptoFrame f rcv = (r, rcv') ∧
     (r = Ok tt ∨ r = Err errCryptoBuffer ∧ MaxCryptoStreamOffset < cf_Offset f + blen (cf_Data f) ∨ r = Err tooManyGaps)) ∧
  ((Finish rcv).1 = Ok tt ↔ ∀ x, 0 ≤ x < MaxByteCount → received handled x → x < blen data).
Proof.
  intros Ht data. destruct (transfer_ok _ _ _ _ _ Ht) as (Hs & Hr & Hf & Hh). pose proof Hr as (handed & taken & Hsort & Hn).
  destruct (sorted_inv _ _ _ _ _ _ Hsort) as (Hi & Hm & Hl & Hg & _). fold data in Hm, Hl. rewrite <- Hl in Hn.
  pose proof (v_range _ _ Hi _ (v_last _ _ Hi)) as Hrange. pose proof (blen_nonneg data) as Hd0.
  assert (Hrec : ∀ x, 0 ≤ x < blen data → received handled x).
  { intros x Hx. destruct (decide (Exists (λ f : Z * bytes, f.1 ≤ x < f.1 + blen f.2) handled)) as [He|He].
    - apply Exists_exists in He as (f & Hf' & ?). by exists f.
    - exfalso. assert (Hin : in_gap (gaps (cs_queue rcv)).*2 x).
      { apply Hg; [lia|]. intros (f & Hf' & Hx'). apply He, Exists_exists. by exists f. }
      apply (v_range _ _ Hi) in Hin. lia. }
  split_and!; try done.
  - intros Hall. destruct Hs. destruct (Z.lt_total (blen data) (writeOffset snd)) as [Hlt|[?|Hgt]]; [|done|]; exfalso.
    + destruct (so_cover0 (blen data)) as (f & Hf' & Hx); [lia|]. apply Hn. exists (cf_Offset f, cf_Data f). split; [auto|done].
    + destruct (Hrec (writeOffset snd)) as ([o d] & Hod & Hx); [lia|]. destruct (Hh o d Hod) as (f & Hf' & -> & ->).
      rewrite Forall_forall in so_net0. specialize (so_net0 f Hf'). simpl in Hx. lia.
  - intros f Hf'. destruct Hs. rewrite Forall_forall in so_net0. destruct (so_net0 f Hf') as (H1 & H2 & H3). pose proof (blen_nonneg (writeBuf snd)).
    destruct (HandleCryptoFrame_ok f handled out rcv Hr Hf H1) as [[? ?]|[(s' & ?)|(s' & ? & _)]]; try done; [lia|eauto 10..].
  - unfold Finish, HasMoreData. destruct (Nat.eqb_spec (size (queue (cs_queue rcv))) 0) as [Hz|Hz]; simpl; (split; [|done || intros Hall]).
    + intros _ x Hx Hrx. destruct (Z.lt_ge_cases x (blen data)) as [|Hge]; [done|]. exfalso.
      apply map_size_empty_inv in Hz. destruct (v_cover _ _ Hi x) as [Hin|(p & e & He & _)]; [lia| |].
      * by apply Hg in Hin.
      * by rewrite Hz, lookup_empty in He.
    + done.
    + exfalso. apply Hz. apply map_size_empty_iff, map_empty. intros p. destruct (queue (cs_queue rcv) !! p) as [e|] eqn:He; [|done]. exfalso.
      destruct (v_entry _ _ Hi p e He) as (Hp & Hlen & _). destruct (v_gap _ _ Hi p p) as [Hng Hpm]; [by exists e; split; [|lia]|].
      destruct (decide (Exists (λ f : Z * bytes, f.1 ≤ p < f.1 + blen f.2) handled)) as [Hex|Hex].
      * apply Exists_exists in Hex as (f & Hf' & ?). specialize (Hall p ltac:(lia)). assert (p < blen data) by (apply Hall; by exists f). lia.
      * apply Hng, Hg; [lia|]. intros (f & Hf' & Hx'). apply Hex, Exists_exists. by exists f.
Qed.
End stream.

(** Four bytes in two frames that arrive in reverse order. *)
Definition example_snd : cryptoStreamImpl := (PopCryptoFrame 5 (PopCryptoFrame 5 (Write [0; 1; 2; 3] newCryptoStream).2).2).2.
Definition frame_at (o : Z) : CryptoFrame := mkCryptoFrame o [o; o + 1].
Definition example_rcv : cryptoStreamImpl := (HandleCryptoFrame (frame_at 0) (HandleCryptoFrame (frame_at 2) newCryptoStream).2).2.

Lemma example_transfer : transfer (λ x, x) example_snd example_rcv [frame_at 2; frame_at 0] [(0, [0; 1]); (2, [2; 3])] [].
Proof.
  refine (transfer_deliver _ _ (HandleCryptoFrame (frame_at 2) newCryptoStream).2 _ [(2, [2; 3])] _ (frame_at 0) _ _ _ _); [|set_solver|vm_compute; reflexivity].
  refine (transfer_deliver _ _ newCryptoStream _ [] _ (frame_at 2) _ _ _ _); [|set_solver|vm_compute; reflexivity].
  refine (transfer_pop _ (PopCryptoFrame 5 (Write [0; 1; 2; 3] newCryptoStream).2).2 _ _ _ _ 5 (frame_at 2) _ _ _ _); [|lia|vm_compute; reflexivity].
  refine (transfer_pop _ (Write [0; 1; 2; 3] newCryptoStream).2 _ _ _ _ 5 (frame_at 0) _ _ _ _); [|lia|vm_compute; reflexivity].
  refine (transfer_write _ newCryptoStream _ _ _ _ _ _ _ _); [constructor|done|].
  intros [|[|[|[|i]]]] b Hb; simplify_eq/=; done.
Qed.

Lemma crypto_data_in_order_witness : msgBuf example_rcv = [0; 1; 2; 3] ∧ blen (msgBuf example_rcv) = writeOffset example_snd.
Proof.
  split; [vm_compute; reflexivity|].
  pose proof (crypto_data_in_order (λ x, x) _ _ _ _ _ example_transfer) as (_ & _ & _ & Hall & _). apply Hall.
  intros f [->|[->|[]%elem_of_nil]%elem_of_cons]%elem_of_cons; [right; left|left].
Defined.
End cryptoStream.
