(* ===== verification/ReceiveStream.v ===== *)
(** The receive side of a stream (receive_stream.go), on top of the frame sorter
    and of the stream and connection flow controllers. *)

From S2P Require Import Prelude.
From S2P Require Import Varint.
From S2P Require Import Protocol.
From S2P Require Import Frames.
From S2P Require Import FlowControl.
From S2P Require Import FrameSorter.
From S2P Require Import SorterCorrect.

Module receiveStream.
Import protocol wire flowcontrol frameSorter sorterCorrect.
#[local] Arguments addBytesRead : simpl never.

(** * Data *)

(** The errors [Read] returns: [io.EOF], a [StreamError], [errDeadline], the
    error given to [closeForShutdown], or one of the "BUG" errors. *)
Inductive read_error :=
| ReadEOF
| StreamError (streamID code : Z) (remote : bool)
| errDeadline
| Shutdown (e : go_error)
| Bug (msg : string).

(** [readChan] is a channel of capacity one: it holds a token or not.  A
    deadline of zero is no deadline.  [released] lists the callbacks
    [currentFrameDone] called so far, the last first. *)
Record receiveStream := mkReceive {
  streamID : Z;
  frameQueue : frameSorter;
  finalOffset : Z;
  currentFrame : option bytes;
  currentFrameDone : option nat;
  readPosInFrame : Z;
  currentFrameIsLast : bool;
  finRead : bool;
  closeForShutdownErr : option read_error;
  cancelReadErr : option read_error;
  resetRemotelyErr : option read_error;
  readChan : bool;
  deadline : Z;
  flowController : streamFlowController;
  released : list nat;
}.

(** What the stream shares with the connection: the connection's flow
    controller, the control frames queued and the calls of
    [onStreamCompleted] (the last first). *)
Record world := mkWorld {
  w_conn : connectionFlowController;
  w_control : list StopSendingFrame;
  w_completed : list Z;
}.

Definition newReceiveStream (id : Z) (fc : streamFlowController) : receiveStream :=
  mkReceive id newFrameSorter MaxByteCount None None 0 false false None None None false 0 fc [].

Definition set_rs_queue (q : frameSorter) (s : receiveStream) : receiveStream :=
  mkReceive (streamID s) q (finalOffset s) (currentFrame s) (currentFrameDone s) (readPosInFrame s) (currentFrameIsLast s)
    (finRead s) (closeForShutdownErr s) (cancelReadErr s) (resetRemotelyErr s) (readChan s) (deadline s) (flowController s) (released s).
Definition set_final (o : Z) (s : receiveStream) : receiveStream :=
  mkReceive (streamID s) (frameQueue s) o (currentFrame s) (currentFrameDone s) (readPosInFrame s) (currentFrameIsLast s)
    (finRead s) (closeForShutdownErr s) (cancelReadErr s) (resetRemotelyErr s) (readChan s) (deadline s) (flowController s) (released s).
Definition set_frame (d : option bytes) (cb : option nat) (pos : Z) (last : bool) (s : receiveStream) : receiveStream :=
  mkReceive (streamID s) (frameQueue s) (finalOffset s) d cb pos last
    (finRead s) (closeForShutdownErr s) (cancelReadErr s) (resetRemotelyErr s) (readChan s) (deadline s) (flowController s) (released s).
Definition set_finRead (s : receiveStream) : receiveStream :=
  mkReceive (streamID s) (frameQueue s) (finalOffset s) None (currentFrameDone s) (readPosInFrame s) (currentFrameIsLast s)
    true (closeForShutdownErr s) (cancelReadErr s) (resetRemotelyErr s) (readChan s) (deadline s) (flowController s) (released s).
Definition set_errs (shutdown cancel reset : option read_error) (s : receiveStream) : receiveStream :=
  mkReceive (streamID s) (frameQueue s) (finalOffset s) (currentFrame s) (currentFrameDone s) (readPosInFrame s) (currentFrameIsLast s)
    (finRead s) shutdown cancel reset (readChan s) (deadline s) (flowController s) (released s).
Definition set_readChan (b : bool) (s : receiveStream) : receiveStream :=
  mkReceive (streamID s) (frameQueue s) (finalOffset s) (currentFrame s) (currentFrameDone s) (readPosInFrame s) (currentFrameIsLast s)
    (finRead s) (closeForShutdownErr s) (cancelReadErr s) (resetRemotelyErr s) b (deadline s) (flowController s) (released s).
Definition set_deadline (t : Z) (s : receiveStream) : receiveStream :=
  mkReceive (streamID s) (frameQueue s) (finalOffset s) (currentFrame s) (currentFrameDone s) (readPosInFrame s) (currentFrameIsLast s)
    (finRead s) (closeForShutdownErr s) (cancelReadErr s) (resetRemotelyErr s) (readChan s) t (flowController s) (released s).
Definition set_fc (c : streamFlowController) (s : receiveStream) : receiveStream :=
  mkReceive (streamID s) (frameQueue s) (finalOffset s) (currentFrame s) (currentFrameDone s) (readPosInFrame s) (currentFrameIsLast s)
    (finRead s) (closeForShutdownErr s) (cancelReadErr s) (resetRemotelyErr s) (readChan s) (deadline s) c (released s).
Definition release (cb : option nat) (s : receiveStream) : receiveStream :=
  mkReceive (streamID s) (frameQueue s) (finalOffset s) (currentFrame s) (currentFrameDone s) (readPosInFrame s) (currentFrameIsLast s)
    (finRead s) (closeForShutdownErr s) (cancelReadErr s) (resetRemotelyErr s) (readChan s) (deadline s) (flowController s)
    (option_list cb ++ released s).

Definition set_conn (c : connectionFlowController) (w : world) : world := mkWorld c (w_control w) (w_completed w).

Abbreviation M := (st (receiveStream * world)).

Definition modify (f : receiveStream → receiveStream) : M () := λ '(s, w), (Ok tt, (f s, w)).
Definition get : M receiveStream := λ '(s, w), (Ok s, (s, w)).

(** A method of the frame sorter, and one of the flow controllers. *)
Definition on_queue {A} (m : st frameSorter A) : M A := λ '(s, w),
  let '(r, q) := m (frameQueue s) in (r, (set_rs_queue q s, w)).
Definition on_fc {A} (m : st (streamFlowController * connectionFlowController) A) : M A := λ '(s, w),
  let '(r, (c, conn)) := m (flowController s, w_conn w) in (r, (set_fc c s, set_conn conn w)).

Definition signalRead : M () := modify (set_readChan true).

Definition queueControlFrame (f : StopSendingFrame) : M () := λ '(s, w),
  (Ok tt, (s, mkWorld (w_conn w) (w_control w ++ [f]) (w_completed w))).

Definition onStreamCompleted : M () := λ '(s, w),
  (Ok tt, (s, mkWorld (w_conn w) (w_control w) (streamID s :: w_completed w))).

(** [flowController.Abandon] followed by [onStreamCompleted]. *)
Definition abandon (now : Z) : M () := λ '(s, w),
  onStreamCompleted (s, set_conn (Abandon now (flowController s) (w_conn w)).2 w).

(** * Reading

    [Read] gives up the mutex only to wait for [readChan] or for the deadline:
    [Blocked] is a [Read] that waits, and [Read_resume] what it does once it
    holds the mutex again.  The buffer is its length; the bytes written to it are
    in the outcome.  [clock] gives the time in every round of the loop. *)
Inductive outcome :=
| Done (completed : bool) (data : bytes) (err : option read_error)
| Blocked.

Definition frame_bytes (d : option bytes) : bytes := default [] d.

Definition dequeueNextFrame : M () :=
  s ← get;
  _ ← modify (release (currentFrameDone s));
  '(offset, data, cb) ← on_queue Pop;
  modify (λ s, set_frame data cb 0 (finalOffset s <=? i64 (offset + blen (frame_bytes data))) s).

(** The inner loop up to the point where it leaves the loop ([None]), returns or
    waits. *)
Definition wait (now : Z) (acc : bytes) (s : receiveStream) : option outcome :=
  match closeForShutdownErr s, cancelReadErr s, resetRemotelyErr s with
  | Some e, _, _ => Some (Done false acc (Some e))
  | None, Some e, _ => Some (Done false acc (Some e))
  | None, None, Some e => Some (Done false acc (Some e))
  | None, None, None =>
      if negb (deadline s =? 0) && negb (now <? deadline s) then Some (Done false acc (Some errDeadline)) else
      match currentFrame s with
      | Some _ => None
      | None => if currentFrameIsLast s then None else Some Blocked
      end
  end.

(** The outer loop after the inner one: copies, and returns at the end of the
    stream. *)
Definition copy_frame (now : Z) (n : Z) (acc : bytes) : M (outcome + bytes) :=
  s ← get;
  let cur := frame_bytes (currentFrame s) in
  if n <? blen acc then mret (inl (Done false acc (Some (Bug "bytesRead > len(p)")))) else
  if blen cur <? readPosInFrame s then mret (inl (Done false acc (Some (Bug "readPosInFrame > frame.DataLen")))) else
  let new := take (Z.to_nat (n - blen acc)) (drop (Z.to_nat (readPosInFrame s)) cur) in
  _ ← modify (λ s, set_frame (currentFrame s) (currentFrameDone s) (readPosInFrame s + blen new) (currentFrameIsLast s) s);
  _ ← match resetRemotelyErr s with
      | None => on_fc (λ '(c, conn), let '(_, _, c, conn) := AddBytesRead now now (blen new) c conn in (Ok tt, (c, conn)))
      | Some _ => mret tt
      end;
  s ← get;
  if (blen cur <=? readPosInFrame s) && currentFrameIsLast s then
    _ ← modify (λ s, release (currentFrameDone s) (set_finRead s));
    mret (inl (Done true (acc ++ new) (Some ReadEOF)))
  else mret (inr (acc ++ new)).

(** The inner loop and the rest of the round, followed by [k]. *)
Definition read_round (now n : Z) (acc : bytes) (k : bytes → M outcome) : M outcome :=
  s ← get;
  match wait now acc s with
  | Some o => mret o
  | None =>
      r ← copy_frame now n acc;
      match r with inl o => mret o | inr acc => k acc end
  end.

Definition frame_used (s : receiveStream) : bool :=
  match currentFrame s with None => true | Some d => blen d <=? readPosInFrame s end.

(** Every round that does not return copies at least one byte, so that [n + 1]
    rounds are enough. *)
Fixpoint read_loop (fuel : nat) (clock : nat → Z) (n : Z) (acc : bytes) : M outcome :=
  match fuel with
  | O => st_panic "read_loop"
  | S fuel =>
      if n <=? blen acc then mret (Done false acc None) else
      s ← get;
      _ ← (if frame_used s then dequeueNextFrame else mret tt);
      s ← get;
      if bool_decide (currentFrame s = None) && (0 <? blen acc) then mret (Done false acc (closeForShutdownErr s)) else
      read_round (clock fuel) n acc (read_loop fuel clock n)
  end.

Definition readImpl (clock : nat → Z) (n : Z) : M outcome :=
  s ← get;
  if finRead s then mret (Done false [] (Some ReadEOF)) else
  match cancelReadErr s, resetRemotelyErr s, closeForShutdownErr s with
  | Some e, _, _ => mret (Done false [] (Some e))
  | None, Some e, _ => mret (Done false [] (Some e))
  | None, None, Some e => mret (Done false [] (Some e))
  | None, None, None => read_loop (S (Z.to_nat n)) clock n []
  end.

Definition resumeImpl (clock : nat → Z) (n : Z) : M outcome :=
  s ← get;
  _ ← (if bool_decide (currentFrame s = None) then dequeueNextFrame else mret tt);
  read_round (clock (S (Z.to_nat n))) n [] (read_loop (S (Z.to_nat n)) clock n).

(** What [Read] does after [readImpl]. *)
Definition complete (o : outcome) : M outcome :=
  match o with
  | Done true _ _ => _ ← onStreamCompleted; mret o
  | _ => mret o
  end.

Definition Read (clock : nat → Z) (n : Z) : M outcome := o ← readImpl clock n; complete o.

(** [Read] after it took a token from [readChan] or its timer fired. *)
Definition Read_resume (token : bool) (clock : nat → Z) (n : Z) : M outcome :=
  _ ← modify (λ s, set_readChan (readChan s && negb token) s);
  o ← resumeImpl clock n; complete o.

(** * The other operations *)

Definition cancelReadImpl (errorCode : Z) : M bool :=
  s ← get;
  if finRead s || bool_decide (is_Some (cancelReadErr s)) || bool_decide (is_Some (resetRemotelyErr s)) then mret false else
  _ ← modify (λ s, set_errs (closeForShutdownErr s) (Some (StreamError (streamID s) errorCode false)) (resetRemotelyErr s) s);
  _ ← signalRead;
  _ ← queueControlFrame (mkStopSendingFrame (streamID s) errorCode);
  mret (negb (finalOffset s =? MaxByteCount)).

(** [if completed { Abandon; onStreamCompleted }] *)
Definition when_completed (now : Z) (completed : bool) : M () := if completed then abandon now else mret tt.

Definition CancelRead (now errorCode : Z) : M () :=
  completed ← cancelReadImpl errorCode; when_completed now completed.

(** [PutBack] of the frame is its callback. *)
Definition handleStreamFrameImpl (f : StreamFrame) (putBack : option nat) : M bool :=
  let maxOffset := i64 (sf_Offset f + StreamFrame_DataLen f) in
  _ ← on_fc (UpdateHighestReceived maxOffset (sf_Fin f));
  s ← get;
  let newly := sf_Fin f && (finalOffset s =? MaxByteCount) in
  _ ← (if sf_Fin f then modify (set_final maxOffset) else mret tt);
  match cancelReadErr s with
  | Some _ => mret newly
  | None =>
      _ ← on_queue (Push (sf_Data f) (sf_Offset f) putBack);
      _ ← signalRead;
      mret false
  end.

Definition handleStreamFrame (now : Z) (f : StreamFrame) (putBack : option nat) : M () :=
  completed ← handleStreamFrameImpl f putBack; when_completed now completed.

Definition handleResetStreamFrameImpl (f : ResetStreamFrame) : M bool :=
  s ← get;
  if bool_decide (is_Some (closeForShutdownErr s)) then mret false else
  _ ← on_fc (UpdateHighestReceived (rst_FinalSize f) true);
  s ← get;
  let newly := finalOffset s =? MaxByteCount in
  _ ← modify (set_final (rst_FinalSize f));
  if bool_decide (is_Some (resetRemotelyErr s)) then mret false else
  _ ← modify (λ s, set_errs (closeForShutdownErr s) (cancelReadErr s) (Some (StreamError (streamID s) (rst_ErrorCode f) true)) s);
  _ ← signalRead;
  mret newly.

Definition handleResetStreamFrame (now : Z) (f : ResetStreamFrame) : M () :=
  completed ← handleResetStreamFrameImpl f; when_completed now completed.

Definition SetReadDeadline (t : Z) : M () := _ ← modify (set_deadline t); signalRead.

Definition closeForShutdown (e : go_error) : M () :=
  _ ← modify (λ s, set_errs (Some (Shutdown e)) (cancelReadErr s) (resetRemotelyErr s) s); signalRead.

Definition rs_getWindowUpdate (now now' rtt : Z) : M Z := on_fc (GetWindowUpdate now now' rtt).

(** * The invariant of the reading side *)

Section stream.
Context (Str : Z → byte).

(** The data taken from the queue and not read yet. *)
Definition rest (s : receiveStream) : bytes := drop (Z.to_nat (readPosInFrame s)) (frame_bytes (currentFrame s)).

Abbreviation base s := (fc_base (flowController s)).

(** [core frames out s]: the frames of the stream [Str] accepted so far, and the
    bytes returned by [Read]. *)
Record core (frames : list (Z * bytes)) (out : bytes) (s : receiveStream) : Prop := {
  c_sorted : ∃ handed taken, sorted Str (frameQueue s) frames (out ++ rest s) handed taken;
  c_pos : 0 ≤ readPosInFrame s ∧ (finRead s = false → readPosInFrame s ≤ blen (frame_bytes (currentFrame s)));
  c_read : bytesRead (base s) = blen out;
  c_fc : rcv_ok (base s);
  c_high : receiveWindow (base s) < MaxByteCount;
  c_frames : ∀ f, f ∈ frames → f.1 + blen f.2 ≤ highestReceived (base s);
  c_final : finalOffset s = if receivedFinalOffset (flowController s) then highestReceived (base s) else MaxByteCount;
  c_last : currentFrameIsLast s = true → finalOffset s = blen (out ++ rest s);
}.

(** What reading leaves alone. *)
Record keeps (s s' : receiveStream) : Prop := {
  k_id : streamID s' = streamID s;
  k_final : finalOffset s' = finalOffset s;
  k_shutdown : closeForShutdownErr s' = closeForShutdownErr s;
  k_cancel : cancelReadErr s' = cancelReadErr s;
  k_reset : resetRemotelyErr s' = resetRemotelyErr s;
  k_chan : readChan s' = readChan s;
  k_deadline : deadline s' = deadline s;
  k_high : highestReceived (base s') = highestReceived (base s);
}.

Lemma keeps_refl s : keeps s s.
Proof. by split. Qed.
Lemma keeps_trans s1 s2 s3 : keeps s1 s2 → keeps s2 s3 → keeps s1 s3.
Proof. intros [] []. split; congruence. Qed.

Definition no_errs (s : receiveStream) : Prop :=
  closeForShutdownErr s = None ∧ cancelReadErr s = None ∧ resetRemotelyErr s = None.

Lemma keeps_no_errs s s' : keeps s s' → no_errs s → no_errs s'.
Proof. intros [] (? & ? & ?). split_and!; congruence. Qed.

(** The next byte of the stream is not there, and the stream does not end here. *)
Definition starved (frames : list (Z * bytes)) (out : bytes) (s : receiveStream) : Prop :=
  ¬ received frames (blen out) ∧ blen out < finalOffset s.

(** All bytes taken from the queue were received. *)
Lemma taken_received frames out s x : core frames out s → 0 ≤ x < blen (out ++ rest s) → received frames x.
Proof.
  intros [(h & t & Hs) _ _ _ _ _ _ _] Hx. destruct (sorted_inv _ _ _ _ _ _ Hs) as (Hi & _ & Hl & Hg & _).
  rewrite Hl in Hx. pose proof (v_range _ _ Hi _ (v_last _ _ Hi)) as Hr. specialize (Hg x ltac:(lia)).
  destruct (decide (Exists (λ f : Z * bytes, f.1 ≤ x < f.1 + blen f.2) frames)) as [He|He].
  - apply Exists_exists in He as (f & Hin & Hfx). by exists f.
  - exfalso. assert (Hn : ¬ received frames x) by (intros (f & Hin & Hfx); apply He, Exists_exists; eauto).
    apply Hg in Hn. pose proof (v_range _ _ Hi _ Hn). lia.
Qed.

Lemma taken_high frames out s : core frames out s → blen (out ++ rest s) ≤ highestReceived (base s).
Proof.
  intros Hc. destruct (Z.lt_ge_cases 0 (blen (out ++ rest s))) as [Hp|]; [|destruct (c_fc _ _ _ Hc); lia].
  destruct (taken_received _ _ _ (blen (out ++ rest s) - 1) Hc ltac:(lia)) as (f & Hin & Hf).
  pose proof (c_frames _ _ _ Hc f Hin). lia.
Qed.

Lemma dequeue_ok frames out s w : core frames out s → frame_used s = true → finRead s = false →
  ∃ s', dequeueNextFrame (s, w) = (Ok tt, (s', w)) ∧ core frames out s' ∧ keeps s s' ∧ finRead s' = finRead s ∧ readPosInFrame s' = 0 ∧
    ((∃ d, currentFrame s' = Some d ∧ 0 < blen d) ∨
     (currentFrame s' = None ∧ ¬ received frames (blen out) ∧
      (currentFrameIsLast s' = true ∨ currentFrameIsLast s' = false ∧ blen out < finalOffset s))).
Proof.
  intros Hc Hu Hnf. pose proof (taken_high _ _ _ Hc) as Hth. pose proof Hc as [(h & t & Hs) Hp Hr Hfc Hh Hf Hfin Hl]. pose proof Hfc as [].
  assert (Hrest : rest s = []).
  { unfold rest, frame_used in *. destruct (currentFrame s) as [d|]; [|by destruct (Z.to_nat _)]. apply Z.leb_le in Hu.
    apply drop_ge. simpl. destruct Hp as [? Hp]. specialize (Hp Hnf). unfold blen in *. simpl in Hp. lia. }
  rewrite Hrest, app_nil_r in *.
  unfold dequeueNextFrame. rewrite (st_bind_ok _ _ _ s (s, w)) by done.
  set (s1 := release (currentFrameDone s) s). rewrite (st_bind_ok _ _ _ tt (s1, w)) by done.
  destruct (sorted_Pop _ _ _ _ _ _ Hs) as [(_ & d & cb & q & He & Hd & Hs')|(Hn & He)].
  - set (s2 := set_rs_queue q s1). assert (Hq : on_queue Pop (s1, w) = (Ok (blen out, Some d, cb), (s2, w))).
    { unfold on_queue. change (frameQueue s1) with (frameQueue s). by rewrite He. }
    rewrite (st_bind_ok _ _ _ _ _ Hq). eexists. split; [reflexivity|]. split_and!; try done; [|left; by exists d].
    assert (Hc' : core frames out (set_frame (Some d) cb 0 false s2)) by (split; try done; simpl; [by exists h, (opt_list cb ++ t)|split; [lia|intros; lia]]).
    pose proof (taken_high _ _ _ Hc') as Hth'. destruct Hc'. split; try done. simpl. intros Hle%Z.leb_le.
    unfold rest in *. simpl in *. rewrite drop_0 in *. rewrite blen_app in *. unfold MaxByteCount in *. pose proof (blen_nonneg out).
    rewrite i64_small in Hle by lia. destruct (receivedFinalOffset _); lia.
  - set (s2 := set_rs_queue (frameQueue s) s1). assert (Hq : on_queue Pop (s1, w) = (Ok (blen out, None, None), (s2, w))).
    { unfold on_queue. change (frameQueue s1) with (frameQueue s). by rewrite He. }
    rewrite (st_bind_ok _ _ _ _ _ Hq). eexists. split; [reflexivity|]. unfold MaxByteCount in *. pose proof (blen_nonneg out).
    split_and!; try done.
    + split; try done; simpl; [exists h, t; by rewrite app_nil_r|]. rewrite app_nil_r. intros Hle%Z.leb_le.
      rewrite blen_nil, Z.add_0_r, i64_small in Hle by lia. destruct (receivedFinalOffset _); lia.
    + right. split_and!; try done. simpl. rewrite blen_nil, Z.add_0_r, i64_small by lia. zcase; [by left|by right].
Qed.

Lemma addBytesRead_eq now n c : bytesRead (addBytesRead now n c) = i64 (bytesRead c + n) ∧
  highestReceived (addBytesRead now n c) = highestReceived c ∧ receiveWindow (addBytesRead now n c) = receiveWindow c.
Proof. unfold addBytesRead. by destruct (_ =? _). Qed.

(** Moving [new] from the data taken to the data read. *)
Lemma core_copy frames out s k now : core frames out s → finRead s = false → 
  let new := take k (rest s) in
  core frames (out ++ new)
    (set_fc (set_base (addBytesRead now (blen new) (base s)) (flowController s))
      (set_frame (currentFrame s) (currentFrameDone s) (readPosInFrame s + blen new) (currentFrameIsLast s) s)).
Proof.
  intros Hc Hnf new. pose proof (taken_high _ _ _ Hc) as Hth. destruct Hc as [(h & t & Hs) [Hp Hp'] Hr Hfc Hh Hf Hfin Hl].
  destruct (addBytesRead_eq now (blen new) (base s)) as (E1 & E2 & E3). specialize (Hp' Hnf).
  assert (Hsplit : out ++ rest s = (out ++ new) ++ drop (Z.to_nat (readPosInFrame s + blen new)) (frame_bytes (currentFrame s))).
  { rewrite <- app_assoc. f_equal. rewrite <- (take_drop k (rest s)) at 1. fold new. f_equal. unfold rest in *.
    unfold new in *. rewrite !drop_drop. unfold blen. rewrite length_take, length_drop. 
    destruct (Nat.le_gt_cases k (length (frame_bytes (currentFrame s)) - Z.to_nat (readPosInFrame s))).
    - f_equal. lia.
    - rewrite !drop_ge; [done|lia|lia]. }
  assert (Hn : blen new ≤ blen (frame_bytes (currentFrame s)) - readPosInFrame s).
  { unfold new, rest, blen in *. rewrite length_take, length_drop. lia. }
  pose proof (blen_nonneg new). pose proof (blen_nonneg out). unfold MaxByteCount in *.
  assert (Hle : blen out + blen new ≤ blen (out ++ rest s)).
  { rewrite Hsplit, !blen_app. pose proof (blen_nonneg (drop (Z.to_nat (readPosInFrame s + blen new)) (frame_bytes (currentFrame s)))). lia. }
  pose proof (addBytesRead_ok now (blen new) (base s) Hfc ltac:(lia)) as (Hfc' & _). pose proof Hfc as [].
  set (b := addBytesRead now (blen new) (base s)) in *. clearbody b.
  split; simpl; rewrite ?E1, ?E2, ?E3; unfold rest; simpl; rewrite <- ?Hsplit; try done.
  - by exists h, t.
  - split; [lia|intros; lia].
  - rewrite Hr, blen_app. apply i64_small. lia.
Qed.

Lemma i64_mod a b : i64 a = i64 b ↔ a mod 2 ^ 64 = b mod 2 ^ 64.
Proof.
  unfold i64. split; intros H.
  - replace a with (a + 2 ^ 63 - 2 ^ 63) by lia. replace b with (b + 2 ^ 63 - 2 ^ 63) by lia.
    rewrite (Zminus_mod (a + 2 ^ 63)), (Zminus_mod (b + 2 ^ 63)). do 2 f_equal. lia.
  - f_equal. by rewrite (Zplus_mod a), (Zplus_mod b), H.
Qed.

(** [n] bytes were given back to the connection's flow controller (which counts
    them in an [int64]). *)
Definition credited (c c' : connectionFlowController) (n : Z) : Prop := i64 (bytesRead c') = i64 (bytesRead c + n).

Lemma credited_trans c1 c2 c3 n m : credited c1 c2 n → credited c2 c3 m → credited c1 c3 (n + m).
Proof.
  unfold credited. rewrite !i64_mod. intros H1 H2. by rewrite H2, Z.add_assoc, (Zplus_mod (bytesRead c2)), H1, <- Zplus_mod.
Qed.

Lemma credited_refl c : credited c c 0.
Proof. unfold credited. by rewrite Z.add_0_r. Qed.

Lemma credited_add now n c : credited c (addBytesRead now n c) n.
Proof. unfold credited. rewrite (proj1 (addBytesRead_eq now n c)). apply i64_small, i64_range. Qed.

Lemma copy_ok now n acc frames out s w : core frames out s → no_errs s → finRead s = false → blen acc < n →
  0 < blen (rest s) ∨ currentFrameIsLast s = true →
  ∃ d s' conn, credited (w_conn w) conn (blen d) ∧ core frames (out ++ d) s' ∧ keeps s s' ∧
   (copy_frame now n acc (s, w) = (Ok (inl (Done true (acc ++ d) (Some ReadEOF))), (s', set_conn conn w)) ∧
      finRead s' = true ∧ blen (out ++ d) = finalOffset s ∧ blen acc + blen d ≤ n ∨
    copy_frame now n acc (s, w) = (Ok (inr (acc ++ d)), (s', set_conn conn w)) ∧
      finRead s' = false ∧ 0 < blen d ∧ blen acc + blen d ≤ n).
Proof.
  intros Hc (Hs0 & Hc0 & Hr0) Hnf Hn Hdata. pose proof (core_copy frames out s (Z.to_nat (n - blen acc)) now Hc Hnf) as Hc'.
  cbv zeta in Hc'. set (d := take (Z.to_nat (n - blen acc)) (rest s)) in *.
  unfold copy_frame. rewrite (st_bind_ok _ _ _ s (s, w)) by done. cbv zeta.
  pose proof (c_pos _ _ _ Hc) as [Hp0 Hp]. specialize (Hp Hnf). rewrite (proj2 (Z.ltb_ge _ _)), (proj2 (Z.ltb_ge _ _)) by lia.
  fold (rest s). fold d. rewrite Hr0.
  pose proof (credited_add now (blen d) (w_conn w)) as E1.
  assert (E2 : highestReceived (addBytesRead now (blen d) (base s)) = highestReceived (base s)) by apply addBytesRead_eq.
  set (s0 := set_frame _ _ _ _ s) in Hc'. set (b := addBytesRead now (blen d) (base s)) in *.
  set (conn := addBytesRead now (blen d) (w_conn w)) in *.
  rewrite (st_bind_ok _ _ _ tt (s0, w)) by done.
  set (s1 := set_fc _ _) in Hc'. rewrite (st_bind_ok _ _ _ tt (s1, set_conn conn w)) by done.
  rewrite (st_bind_ok _ _ _ s1 (s1, set_conn conn w)) by done.
  assert (Hk : keeps s s1) by done.
  change (readPosInFrame s1) with (readPosInFrame s + blen d). change (currentFrameIsLast s1) with (currentFrameIsLast s).
  assert (Hlr : blen (rest s) = blen (frame_bytes (currentFrame s)) - readPosInFrame s).
  { unfold rest, blen in *. rewrite length_drop. lia. }
  assert (Hld : blen d = Z.min (n - blen acc) (blen (rest s))).
  { unfold d, blen in *. rewrite length_take. lia. }
  exists d. destruct (Z.leb_spec (blen (frame_bytes (currentFrame s))) (readPosInFrame s + blen d)) as [Hall|Hmore].
  2: { exists s1, conn. split_and!; try done. right. simpl. split_and!; [done|done|lia|lia]. }
  destruct (currentFrameIsLast s) eqn:Hlast; simpl.
  2: { exists s1, conn. split_and!; try done. right. destruct Hdata; [|done]. split_and!; [done|done|lia|lia]. }
  exists (release (currentFrameDone s1) (set_finRead s1)), conn. split; [done|]. rewrite (st_bind_ok _ _ _ tt (release (currentFrameDone s1) (set_finRead s1), set_conn conn w)) by done.
  split_and!; [|by split|left; split_and!; [done|done| |lia]].
  - destruct Hc' as [(h & t & Hs) Hp1 Hr Hfc Hh Hf Hfin Hl]. assert (Hr1 : rest s1 = []).
    { unfold rest. simpl. apply drop_ge. unfold blen in *. lia. }
    rewrite Hr1, app_nil_r in *.
    split; unfold rest; simpl; rewrite ?drop_nil, ?app_nil_r; try done; [by exists h, t|lia].
  - rewrite (c_last _ _ _ Hc Hlast), !blen_app. unfold blen in *. lia.
Qed.

(** * The read loop *)

(** What a call that starts with [acc] in the buffer, after [out] was read, may
    end with. *)
Definition read_post (frames : list (Z * bytes)) (out acc : bytes) (n : Z) (s : receiveStream) (w : world)
    (r : res outcome * (receiveStream * world)) : Prop :=
  ∃ o d s' conn, r = (Ok o, (s', set_conn conn w)) ∧ credited (w_conn w) conn (blen d) ∧
    core frames (out ++ d) s' ∧ keeps s s' ∧
    match o with
    | Done true a e => a = acc ++ d ∧ blen a ≤ n ∧ e = Some ReadEOF ∧ finRead s' = true ∧ blen (out ++ d) = finalOffset s ∧ finalOffset s < MaxByteCount
    | Done false a e => a = acc ++ d ∧ finRead s' = false ∧ blen a ≤ n ∧
        (e = None ∧ (0 < n → 0 < blen a) ∨ e = Some errDeadline ∧ deadline s ≠ 0)
    | Blocked => 0 < n ∧ d = [] ∧ acc = [] ∧ finRead s' = false ∧ no_errs s ∧ currentFrame s' = None ∧ starved frames out s'
    end.

(** The state in front of the inner loop. *)
Definition ready (frames : list (Z * bytes)) (out acc : bytes) (s : receiveStream) : Prop :=
  0 < blen (rest s) ∨ currentFrame s = None ∧ acc = [] ∧
    (currentFrameIsLast s = true ∨ currentFrameIsLast s = false ∧ starved frames out s).

Lemma set_conn_set_conn c1 c2 w : set_conn c2 (set_conn c1 w) = set_conn c2 w.
Proof. done. Qed.
Lemma set_conn_id w : set_conn (w_conn w) w = w.
Proof. by destruct w. Qed.

(** Reading [d], and then what [r] says. *)
Lemma read_post_app frames out acc d n s s' conn w r : core frames (out ++ d) s' → keeps s s' →
  credited (w_conn w) conn (blen d) → d ≠ [] →
  read_post frames (out ++ d) (acc ++ d) n s' (set_conn conn w) r → read_post frames out acc n s w r.
Proof.
  intros Hc Hk Hconn Hd (o & d' & s2 & conn' & -> & Hr & Hc' & Hk' & Ho).
  assert (Hk2 := keeps_trans _ _ _ Hk Hk'). exists o, (d ++ d'), s2, conn'. rewrite set_conn_set_conn, app_assoc. split_and!; try done.
  - rewrite blen_app. by eapply credited_trans.
  - destruct Hk. destruct o as [[] a e|]; rewrite ?k_final0, ?k_deadline0 in *; rewrite ?app_assoc; try done.
    destruct Ho as (_ & _ & Ha & _). by destruct acc, d.
Qed.

Lemma keeps_rest frames out s : core frames out s → 0 < blen (rest s) → is_Some (currentFrame s).
Proof. intros _ H. unfold rest in H. destruct (currentFrame s); [eauto|].
  change (frame_bytes None) with (@nil Z) in H. rewrite drop_nil in H. done. Qed.

Lemma core_final frames out s : core frames out s → finalOffset s ≤ MaxByteCount.
Proof. intros [_ _ _ [] Hh _ Hf _]. rewrite Hf. destruct (receivedFinalOffset _); lia. Qed.

Lemma round_ok frames out acc n now k s w : core frames out s → no_errs s → finRead s = false → blen acc < n →
  ready frames out acc s →
  (∀ d s' w', core frames (out ++ d) s' → keeps s s' → finRead s' = false → 0 < blen d → blen acc + blen d ≤ n →
     read_post frames (out ++ d) (acc ++ d) n s' w' (k (acc ++ d) (s', w'))) →
  read_post frames out acc n s w (read_round now n acc k (s, w)).
Proof.
  intros Hc Hne Hnf Hn Hready Hk. unfold read_round. rewrite (st_bind_ok _ _ _ s (s, w)) by done.
  pose proof Hne as (Hs0 & Hc0 & Hr0). unfold wait. rewrite Hs0, Hc0, Hr0.
  destruct (negb (deadline s =? 0) && negb (now <? deadline s)) eqn:Hdl.
  { exists (Done false acc (Some errDeadline)), [], s, (w_conn w). rewrite set_conn_id, !app_nil_r.
    apply andb_true_iff in Hdl as [Hdl%negb_true_iff%Z.eqb_neq _].
    split_and!; try done; [apply credited_refl|lia|by right]. }
  assert (Hcase : (match currentFrame s with Some _ => None | None => if currentFrameIsLast s then None else Some Blocked end) = None ∧
    (0 < blen (rest s) ∨ currentFrameIsLast s = true) ∨
    (match currentFrame s with Some _ => None | None => if currentFrameIsLast s then None else Some Blocked end) = Some Blocked ∧
      currentFrame s = None ∧ acc = [] ∧ starved frames out s).
  { destruct Hready as [Hr|(-> & -> & [Hl|[Hl Hst]])]; [left|left|right]; rewrite ?Hl; [|by auto..].
    destruct (keeps_rest _ _ _ Hc Hr) as [d ->]. auto. }
  destruct Hcase as [[-> Hdata]|(-> & Hcur & Hacc & Hst)].
  2: { exists Blocked, [], s, (w_conn w). rewrite set_conn_id, app_nil_r. subst acc.
    split_and!; try done; apply credited_refl. }
  destruct (copy_ok now n acc frames out s w Hc Hne Hnf Hn Hdata)
    as (d & s' & conn & Hcr & Hc' & Hkeep & [(He & Hf & Hlen & Hle)|(He & Hf & Hd & Hle)]); rewrite (st_bind_ok _ _ _ _ _ He).
  - exists (Done true (acc ++ d) (Some ReadEOF)), d, s', conn. split_and!; try done; [by rewrite blen_app|].
    pose proof (taken_high _ _ _ Hc') as Ht. pose proof (c_high _ _ _ Hc'). destruct (c_fc _ _ _ Hc'). rewrite blen_app in Ht.
    pose proof (blen_nonneg (rest s')). lia.
  - eapply read_post_app; [done..| |by apply Hk]. intros ->. done.
Qed.

Lemma read_loop_ok fuel clock frames n acc out s w : core frames out s → no_errs s → finRead s = false → blen acc ≤ n →
  n - blen acc < Z.of_nat fuel → read_post frames out acc n s w (read_loop fuel clock n acc (s, w)).
Proof.
  revert acc out s w. induction fuel as [|fuel IH]; intros acc out s w Hc Hne Hnf Hn Hfuel; [lia|].
  cbn [read_loop]. destruct (Z.leb_spec n (blen acc)) as [Hle|Hlt].
  { exists (Done false acc None), [], s, (w_conn w). rewrite set_conn_id, !app_nil_r.
    split_and!; try done; [apply credited_refl|left; split; [done|lia]]. }
  rewrite (st_bind_ok _ _ _ s (s, w)) by done.
  assert (Hdeq : ∃ s', (if frame_used s then dequeueNextFrame else mret tt) (s, w) = (Ok tt, (s', w)) ∧ core frames out s' ∧
    keeps s s' ∧ finRead s' = false ∧ (currentFrame s' = None ∨ ready frames out acc s') ∧ (acc = [] → ready frames out acc s')).
  { destruct (frame_used s) eqn:Hu.
    - destruct (dequeue_ok frames out s w Hc Hu Hnf) as (s' & He & Hc' & Hk & Hf' & Hp & Hd). exists s'. split_and!; try done; [congruence| |].
      + destruct Hd as [(d & Hd & Hl)|(? & _)]; [|by left]. right. left. unfold rest. by rewrite Hd, Hp, drop_0.
      + intros ->. destruct Hd as [(d & Hd & Hl)|(Hcur & Hnr & Hl)]; [left; unfold rest; by rewrite Hd, Hp, drop_0|].
        right. split_and!; try done. destruct Hl as [|[? ?]]; [by left|right]. split; [done|]. split; [done|]. by rewrite (k_final _ _ Hk).
    - exists s. assert (Hr : ready frames out acc s); [|split_and!; try done; by right].
      left. unfold frame_used, rest in *. destruct (currentFrame s); [|done]. apply Z.leb_gt in Hu. unfold blen in *.
      pose proof (c_pos _ _ _ Hc). simpl. rewrite length_drop. lia. }
  destruct Hdeq as (s' & He & Hc' & Hk & Hnf' & Hready & Hready'). rewrite (st_bind_ok _ _ _ _ _ He).
  rewrite (st_bind_ok _ _ _ s' (s', w)) by done. pose proof (keeps_no_errs _ _ Hk Hne) as Hne'.
  destruct (bool_decide (currentFrame s' = None) && (0 <? blen acc)) eqn:Hret.
  - apply andb_true_iff in Hret as [_ Hpos%Z.ltb_lt]. rewrite (proj1 Hne').
    exists (Done false acc None), [], s', (w_conn w). rewrite set_conn_id, !app_nil_r.
    split_and!; try done; [apply credited_refl|by left].
  - assert (Hr : ready frames out acc s').
    { destruct acc as [|x acc]; [by apply Hready'|]. apply andb_false_iff in Hret as [Hret|Hret].
      - apply bool_decide_eq_false in Hret. by destruct Hready.
      - rewrite blen_cons in Hret. apply Z.ltb_ge in Hret. pose proof (blen_nonneg acc). lia. }
    assert (Hp : read_post frames out acc n s' w (read_round (clock fuel) n acc (read_loop fuel clock n) (s', w))).
    { apply round_ok; try done. intros d s2 w2 Hc2 Hk2 Hnf2 Hd Hle. apply IH; try done; rewrite ?blen_app; try lia.
      by apply (keeps_no_errs s'). }
    destruct Hp as (o & d & s2 & conn & -> & Hcr & Hc2 & Hk2 & Ho). exists o, d, s2, conn.
    split_and!; try done; [by eapply keeps_trans|]. destruct Hk. destruct o as [[] a e|]; rewrite ?k_final0, ?k_deadline0 in *; try done.
    destruct Ho as (? & ? & ? & ? & _ & ?). by repeat (split; [done|]).
Qed.

(** * The invariant of the stream *)

(** An error other than [io.EOF] and the "BUG" errors. *)
Definition plain (e : read_error) : Prop := match e with ReadEOF | Bug _ => False | _ => True end.

Record good (frames : list (Z * bytes)) (out : bytes) (others : Z) (s : receiveStream) (w : world) : Prop := {
  g_core : core frames out s;
  g_done : w_completed w = [] ∨ w_completed w = [streamID s] ∧ finalOffset s ≠ MaxByteCount ∧
    (finRead s = true ∨ is_Some (cancelReadErr s) ∨ is_Some (resetRemotelyErr s));
  g_cancel : is_Some (cancelReadErr s) → finalOffset s ≠ MaxByteCount → w_completed w ≠ [];
  g_reset : is_Some (resetRemotelyErr s) → finalOffset s ≠ MaxByteCount;
  g_eof : finRead s = true → w_completed w ≠ [] ∧ blen out = finalOffset s;
  g_credit : i64 (bytesRead (w_conn w)) =
    i64 (others + match w_completed w with [] => bytesRead (base s) | _ => highestReceived (base s) end);
  g_plain : ∀ e, closeForShutdownErr s = Some e ∨ cancelReadErr s = Some e ∨ resetRemotelyErr s = Some e → plain e;
}.

(** A waiting [Read]. *)
Definition waiting (frames : list (Z * bytes)) (out : bytes) (blocked : option Z) (s : receiveStream) : Prop :=
  ∀ n, blocked = Some n → 0 < n ∧ finRead s = false ∧ currentFrame s = None ∧
    (readChan s = true ∨ no_errs s ∧ starved frames out s).

Lemma final_known frames out s : core frames out s → finalOffset s ≠ MaxByteCount ↔ receivedFinalOffset (flowController s) = true.
Proof.
  intros [_ _ _ [] Hh _ Hf _]. rewrite Hf. destruct (receivedFinalOffset _); split; try done. intros _. unfold MaxByteCount in *. lia.
Qed.

Lemma good_keeps frames out others s s' w : good frames out others s w → core frames out s' → keeps s s' → finRead s' = finRead s →
  good frames out others s' w.
Proof.
  intros [Hc Hd Hca Hrs He Hcr Hp] Hc' [] Hf. split; try done; rewrite ?k_id0, ?k_final0, ?k_shutdown0, ?k_cancel0, ?k_reset0, ?k_high0, ?Hf; try done.
  by rewrite (c_read _ _ _ Hc'), <- (c_read _ _ _ Hc).
Qed.

(** What [Read] may return. *)
Definition outcome_ok (frames : list (Z * bytes)) (out : bytes) (n : Z) (s : receiveStream) (o : outcome) : Prop :=
  match o with
  | Done c d e => blen d ≤ n ∧ (e = None → 0 < blen d) ∧ (∀ m, e ≠ Some (Bug m)) ∧
      (e = Some ReadEOF → blen (out ++ d) = finalOffset s ∧ finalOffset s < MaxByteCount)
  | Blocked => no_errs s ∧ starved frames out s
  end.

Definition out_of (o : outcome) : bytes := match o with Done _ d _ => d | Blocked => [] end.
Definition blocked_of (n : Z) (o : outcome) : option Z := match o with Done _ _ _ => None | Blocked => Some n end.

Lemma good_errs frames out others s w e n : good frames out others s w → 0 < n →
  closeForShutdownErr s = Some e ∨ cancelReadErr s = Some e ∨ resetRemotelyErr s = Some e →
  outcome_ok frames out n s (Done false [] (Some e)).
Proof.
  intros Hg Hn He. apply (g_plain _ _ _ _ _ Hg) in He. simpl. rewrite blen_nil. split_and!; [lia|done| |]; by destruct e.
Qed.

(** The end of a [Read] that reached the loop. *)
Lemma read_post_good frames out others n s w m : good frames out others s w → no_errs s → finRead s = false → 0 < n →
  read_post frames out [] n s w (m (s, w)) →
  ∃ o s' w', (m ≫= complete) (s, w) = (Ok o, (s', w')) ∧ good frames (out ++ out_of o) others s' w' ∧
    outcome_ok frames out n s o ∧ waiting frames (out ++ out_of o) (blocked_of n o) s' ∧ finalOffset s' = finalOffset s.
Proof.
  intros Hg Hne Hnf Hn (o & d & s' & conn & Hm & Hcr & Hc & Hk & Ho). rewrite (st_bind_ok _ _ _ _ _ Hm).
  destruct Hg as [Hc0 Hd Hca Hrs He Hcr0 Hp]. destruct Hne as (E1 & E2 & E3).
  assert (Hdone : w_completed w = []).
  { destruct Hd as [|(_ & _ & [?|[[? ?]|[? ?]]])]; [done|congruence..]. }
  assert (Hcred : i64 (bytesRead conn) = i64 (others + bytesRead (base s'))).
  { rewrite Hdone in Hcr0. unfold credited in Hcr. rewrite i64_mod in *. rewrite Hcr, (c_read _ _ _ Hc), blen_app, Z.add_assoc.
    rewrite (Zplus_mod (bytesRead (w_conn w))), Hcr0, (c_read _ _ _ Hc0), <- Zplus_mod. done. }
  destruct Hk. destruct o as [[] a e|].
  - destruct Ho as (-> & Hle & -> & Hf & Hl & Hmax). eexists _, s', _. split; [reflexivity|]. cbn [out_of app].
    split; [|split; [|done]].
    + split; simpl; rewrite ?k_id0, ?k_final0, ?k_shutdown0, ?k_cancel0, ?k_reset0; try done.
      * right. rewrite Hdone. split_and!; [done|lia|by left].
      * rewrite Hcred. rewrite (c_read _ _ _ Hc). f_equal. f_equal. rewrite Hl. rewrite (c_final _ _ _ Hc0) in *. rewrite k_high0.
        destruct (receivedFinalOffset _); [done|lia].
    + by split_and!.
  - destruct Ho as (-> & Hf & Hle & He').
    exists (Done false d e), s', (set_conn conn w). split; [done|]. cbn [out_of]. split; [|split; [|done]].
    + split; simpl; rewrite ?Hdone, ?k_id0, ?k_final0, ?k_shutdown0, ?k_cancel0, ?k_reset0; first [done|by left|intros; naive_solver].
    + simpl in *. split_and!; [done|..]; destruct He' as [[-> ?]|[-> ?]]; try done. intros _. auto.
  - destruct Ho as (_ & -> & _ & Hf & _ & Hcur & Hst). exists Blocked, s', (set_conn conn w). split; [done|].
    cbn [out_of]. rewrite app_nil_r in *. split; [|split; [|split; [|done]]].
    + split; simpl; rewrite ?Hdone, ?k_id0, ?k_final0, ?k_shutdown0, ?k_cancel0, ?k_reset0; first [done|by left|intros; naive_solver].
    + split; [done|]. destruct Hst. split; [done|congruence].
    + intros k [= <-]. split_and!; try done. right. split; [|done]. split_and!; congruence.
Qed.

(** A [Read] that returns without reaching the loop. *)
Lemma Read_ok frames out others clock n s w : good frames out others s w → 0 < n →
  ∃ o s' w', Read clock n (s, w) = (Ok o, (s', w')) ∧ good frames (out ++ out_of o) others s' w' ∧
    outcome_ok frames out n s o ∧ waiting frames (out ++ out_of o) (blocked_of n o) s' ∧ finalOffset s' = finalOffset s.
Proof.
  intros Hg Hn. assert (Hret : ∀ e, outcome_ok frames out n s (Done false [] (Some e)) →
    (∃ o s' w', (mret (Done false [] (Some e)) ≫= complete) (s, w) = (Ok o, (s', w')) ∧ good frames (out ++ out_of o) others s' w' ∧
      outcome_ok frames out n s o ∧ waiting frames (out ++ out_of o) (blocked_of n o) s' ∧ finalOffset s' = finalOffset s)).
  { intros e He. eexists _, s, w. split; [reflexivity|]. cbn [out_of]. by rewrite app_nil_r. }
  unfold Read, readImpl. rewrite st_bind_assoc, (st_bind_ok _ _ _ s (s, w)) by done.
  destruct (finRead s) eqn:Hf.
  { apply Hret. simpl. rewrite blen_nil, app_nil_r. destruct (g_eof _ _ _ _ _ Hg Hf) as [Hne Hl].
    destruct (g_done _ _ _ _ _ Hg) as [|(_ & Hfin & _)]; [done|]. pose proof (core_final _ _ _ (g_core _ _ _ _ _ Hg)).
    split_and!; try done; lia. }
  destruct (cancelReadErr s) eqn:E2; [apply Hret, (good_errs _ _ others _ w); auto|].
  destruct (resetRemotelyErr s) eqn:E3; [apply Hret, (good_errs _ _ others _ w); auto|].
  destruct (closeForShutdownErr s) eqn:E1; [apply Hret, (good_errs _ _ others _ w); auto|].
  apply (read_post_good frames out others n s w); try done. apply read_loop_ok; try done; [apply Hg|rewrite blen_nil; lia..].
Qed.

Lemma Read_resume_ok frames out others clock n token s w : good frames out others s w → waiting frames out (Some n) s →
  ∃ o s' w', Read_resume token clock n (s, w) = (Ok o, (s', w')) ∧ good frames (out ++ out_of o) others s' w' ∧
    outcome_ok frames out n s o ∧ waiting frames (out ++ out_of o) (blocked_of n o) s' ∧ finalOffset s' = finalOffset s.
Proof.
  intros Hg Hw. destruct (Hw n eq_refl) as (Hn & Hnf & Hcur & _). unfold Read_resume.
  set (s0 := set_readChan (readChan s && negb token) s). rewrite (st_bind_ok _ _ _ tt (s0, w)) by done.
  assert (Hc0 : core frames out s0) by (destruct Hg as [[]]; by split).
  unfold resumeImpl. rewrite st_bind_assoc, (st_bind_ok _ _ _ s0 (s0, w)) by done.
  change (currentFrame s0) with (currentFrame s). rewrite Hcur, bool_decide_eq_true_2 by done.
  destruct (dequeue_ok frames out s0 w Hc0) as (s1 & He & Hc1 & Hk1 & Hf1 & Hp1 & Hd); [unfold frame_used; simpl; by rewrite Hcur|done|].
  rewrite st_bind_assoc, (st_bind_ok _ _ _ _ _ He).
  assert (Hg1 : good frames out others s1 w).
  { destruct Hk1. eapply (good_keeps _ _ _ s0); try done. destruct Hg. by split. }
  assert (Hok : ∀ o, outcome_ok frames out n s1 o → outcome_ok frames out n s o).
  { intros o. destruct Hk1. unfold outcome_ok, no_errs, starved. by rewrite k_final0, k_shutdown0, k_cancel0, k_reset0. }
  assert (Hret : ∀ e, closeForShutdownErr s1 = Some e ∨ cancelReadErr s1 = Some e ∨ resetRemotelyErr s1 = Some e →
    wait (clock (S (Z.to_nat n))) [] s1 = Some (Done false [] (Some e)) →
    (∃ o s' w', (read_round (clock (S (Z.to_nat n))) n [] (read_loop (S (Z.to_nat n)) clock n) ≫= complete) (s1, w) = (Ok o, (s', w')) ∧
      good frames (out ++ out_of o) others s' w' ∧
      outcome_ok frames out n s o ∧ waiting frames (out ++ out_of o) (blocked_of n o) s' ∧ finalOffset s' = finalOffset s)).
  { intros e Hin Hwait. unfold read_round. rewrite st_bind_assoc, (st_bind_ok _ _ _ s1 (s1, w)) by done. rewrite Hwait.
    eexists _, s1, w. split; [reflexivity|]. cbn [out_of]. rewrite app_nil_r. split_and!; [done| |done|by rewrite (k_final _ _ Hk1)].
    by apply Hok, (good_errs _ _ others _ w). }
  unfold wait in Hret. destruct (closeForShutdownErr s1) eqn:E1; [by eauto|].
  destruct (cancelReadErr s1) eqn:E2; [by eauto|]. destruct (resetRemotelyErr s1) eqn:E3; [by eauto|].
  destruct (read_post_good frames out others n s1 w (read_round (clock (S (Z.to_nat n))) n [] (read_loop (S (Z.to_nat n)) clock n)))
    as (o & s' & w' & Ho & Hg' & Hok' & Hw' & Hf'); [done|done|by rewrite Hf1|done| |].
  - apply round_ok; try done; [by rewrite Hf1| |].
    + destruct Hd as [(d & Hd & Hl)|(Hcur' & Hnr & Hl)]; [left; unfold rest; by rewrite Hd, Hp1, drop_0|].
      right. split_and!; try done. destruct Hl as [|[? ?]]; [by left|right]. split; [done|]. split; [done|]. by rewrite (k_final _ _ Hk1).
    + intros d s' w' Hc' Hk' Hf' Hd' Hle. apply read_loop_ok; try done; [by apply (keeps_no_errs s1)|rewrite blen_nil in Hle; simpl; lia..].
  - exists o, s', w'. split_and!; try done; [by apply Hok|]. by rewrite Hf', (k_final _ _ Hk1).
Qed.

(** * The other operations keep it *)

Lemma UpdateHighestReceived_inv off fin c conn c' conn' : UpdateHighestReceived off fin (c, conn) = (Ok tt, (c', conn')) →
  rcv_ok (fc_base c) → 0 ≤ off < limit →
  rcv_ok (fc_base c') ∧ highestReceived (fc_base c') = Z.max off (highestReceived (fc_base c)) ∧
  receiveWindow (fc_base c') = receiveWindow (fc_base c) ∧ bytesRead (fc_base c') = bytesRead (fc_base c) ∧
  receivedFinalOffset c' = receivedFinalOffset c || fin ∧ bytesRead conn' = bytesRead conn ∧
  (receivedFinalOffset c = true → off ≤ highestReceived (fc_base c)) ∧ (fin = true → highestReceived (fc_base c) ≤ off).
Proof.
  intros He Hok Hoff. destruct c as [b id final]. unfold UpdateHighestReceived in He. simpl in *.
  destruct (final && fin && negb (off =? highestReceived b)) eqn:E1; [done|].
  destruct (final && (highestReceived b <? off)) eqn:E2; [done|].
  assert (Hfin : final = true → off ≤ highestReceived b) by (intros ->; simpl in E2; lia).
  destruct (Z.eqb_spec off (highestReceived b)) as [->|Hne].
  { rewrite Z.max_id. injection He as <- <-. destruct fin; simpl; rewrite ?orb_true_r, ?orb_false_r; by split_and!. }
  destruct (Z.leb_spec off (highestReceived b)).
  { destruct fin; [done|]. injection He as <- <-. simpl. rewrite orb_false_r, Z.max_r by lia. by split_and!. }
  rewrite Z.max_l by lia. destruct (checkFlowControlViolation _) eqn:E3; [done|].
  assert (Hw : off ≤ receiveWindow b) by (destruct fin; simpl in E3; unfold checkFlowControlViolation in E3; simpl in E3; lia).
  unfold IncrementHighestReceived in He. destruct (checkFlowControlViolation _) in He; [done|]. injection He as <- <-.
  pose proof (set_highestReceived_ok off b Hok ltac:(lia) ltac:(lia)).
  destruct fin; simpl; rewrite ?orb_true_r, ?orb_false_r; split_and!; try done; lia.
Qed.

(** The stream is done: [Abandon] gives back what was not read. *)
Lemma abandon_good frames out others now s w : good frames out others s w ∨
    core frames out s ∧ finRead s = false ∧ i64 (bytesRead (w_conn w)) = i64 (others + bytesRead (base s)) ∧
    (∀ e, closeForShutdownErr s = Some e ∨ cancelReadErr s = Some e ∨ resetRemotelyErr s = Some e → plain e) →
  w_completed w = [] → finalOffset s ≠ MaxByteCount → is_Some (cancelReadErr s) ∨ is_Some (resetRemotelyErr s) → 
  ∃ w', abandon now (s, w) = (Ok tt, (s, w')) ∧ good frames out others s w'.
Proof.
  intros Hg Hdone Hfin Herr. eexists. split; [reflexivity|].
  assert (Hg' : core frames out s ∧ finRead s = false ∧ i64 (bytesRead (w_conn w)) = i64 (others + bytesRead (base s)) ∧
    (∀ e, closeForShutdownErr s = Some e ∨ cancelReadErr s = Some e ∨ resetRemotelyErr s = Some e → plain e)).
  { destruct Hg as [[Hc _ _ _ He Hcr Hp]|]; [|done]. rewrite Hdone in *. split_and!; try done. destruct (finRead s); [by destruct He|done]. }
  clear Hg. destruct Hg' as (Hc & Hnf & Hcr & Hp). pose proof (c_fc _ _ _ Hc) as [].
  assert (Hcred : credited (w_conn w) (Abandon now (flowController s) (w_conn w)).2 (highestReceived (base s) - bytesRead (base s))).
  { unfold Abandon. unfold limit in *. rewrite i64_small by lia. zcase; [apply credited_add|].
    replace (_ - _) with 0 by lia. apply credited_refl. }
  split; simpl; rewrite ?Hdone; try done; [right; split_and!; auto|by rewrite Hnf|].
  unfold credited in Hcred. rewrite i64_mod in *. rewrite Hcred, (Zplus_mod (bytesRead (w_conn w))), Hcr, <- Zplus_mod. f_equal. lia.
Qed.

(** A change of [readChan], the deadline or the errors. *)
Lemma good_signal frames out others s w : good frames out others s w → good frames out others (set_readChan true s) w.
Proof. intros [[] Hd Hca Hrs He Hcr Hp]. by split. Qed.

(** The flow controller and the final offset after new data was announced. *)
Lemma core_update frames out s c conn off fin c' conn' : core frames out s → c = flowController s →
  UpdateHighestReceived off fin (c, conn) = (Ok tt, (c', conn')) → 0 ≤ off < limit →
  core frames out (set_final (if fin then off else finalOffset s) (set_fc c' s)) ∧
  off ≤ highestReceived (fc_base c') ∧ bytesRead (fc_base c') = bytesRead (base s) ∧ i64 (bytesRead conn') = i64 (bytesRead conn) ∧
  (finalOffset s ≠ MaxByteCount → (if fin then off else finalOffset s) = finalOffset s ∧ highestReceived (fc_base c') = highestReceived (base s)).
Proof.
  intros Hc -> He Hoff. pose proof (final_known _ _ _ Hc) as Hfk. pose proof Hc as [Hs Hp Hr Hfc Hh Hf Hfin Hl].
  destruct (UpdateHighestReceived_inv _ _ _ _ _ _ He Hfc Hoff) as (H1 & H2 & H3 & H4 & H5 & H6 & H7 & H8).
  assert (Hsame : finalOffset s ≠ MaxByteCount → (if fin then off else finalOffset s) = finalOffset s ∧
    highestReceived (fc_base c') = highestReceived (base s)).
  { intros Hk%Hfk. rewrite Hk in Hfin. specialize (H7 Hk). destruct fin; [specialize (H8 eq_refl)|]; lia. }
  split_and!; [|lia|done|by rewrite H6|done].
  split; simpl; rewrite ?H4, ?H3; try done.
  - intros f Hin. specialize (Hf f Hin). lia.
  - rewrite H5. destruct (receivedFinalOffset (flowController s)) eqn:Hrf.
    + simpl. destruct (Hsame (proj2 Hfk eq_refl)) as [-> ->]. done.
    + simpl. destruct fin; [|done]. specialize (H8 eq_refl). lia.
  - intros Hlast. specialize (Hl Hlast). unfold rest in *. simpl. rewrite <- Hl. apply Hsame.
    pose proof (taken_high _ _ _ Hc). rewrite Hl. unfold rest in *. destruct Hfc. lia.
Qed.

Lemma set_final_id c s : set_final (finalOffset s) (set_fc c s) = set_fc c s.
Proof. by destruct s. Qed.

Lemma good_update frames out others s w off fin c' conn' : good frames out others s w →
  UpdateHighestReceived off fin (flowController s, w_conn w) = (Ok tt, (c', conn')) → 0 ≤ off < limit →
  cancelReadErr s = None ∨ fin && (finalOffset s =? MaxByteCount) = false →
  good frames out others (set_final (if fin then off else finalOffset s) (set_fc c' s)) (set_conn conn' w) ∧
  off ≤ highestReceived (fc_base c').
Proof.
  intros Hg He Hoff Hnew. destruct (core_update _ _ _ _ _ _ _ _ _ (g_core _ _ _ _ _ Hg) eq_refl He Hoff) as (Hc & Hhi & Hrd & Hcn & Hsame).
  split; [|done]. destruct Hg as [Hc0 Hd Hca Hrs Heof Hcr Hp].
  assert (Hdone : w_completed w ≠ [] → finalOffset s ≠ MaxByteCount) by (destruct Hd as [|(? & ? & ?)]; done).
  split; simpl; try done.
  - destruct Hd as [|(Hw & Hf & Hx)]; [by left|right]. destruct (Hsame Hf) as [-> _]. done.
  - intros Hsome Hf. destruct Hnew as [Hnew|Hnew]; [rewrite Hnew in Hsome; by destruct Hsome|].
    apply Hca; [done|]. intros E. rewrite E, Z.eqb_refl, andb_true_r in Hnew. by rewrite Hnew in Hf.
  - intros Hr. by destruct (Hsame (Hrs Hr)) as [-> _]; apply Hrs.
  - intros Hfr. destruct (Heof Hfr) as [Hw Hl]. split; [done|]. by destruct (Hsame (Hdone Hw)) as [-> _].
  - rewrite Hcn, Hcr. destruct (w_completed w) as [|x l] eqn:E; [by rewrite Hrd|]. by destruct (Hsame (Hdone ltac:(done))) as [_ ->].
Qed.

(** [finalOffset] becomes known. *)
Lemma update_new frames out others s w off c' conn' : good frames out others s w →
  UpdateHighestReceived off true (flowController s, w_conn w) = (Ok tt, (c', conn')) → 0 ≤ off < limit → finalOffset s = MaxByteCount →
  core frames out (set_final off (set_fc c' s)) ∧ finRead s = false ∧ w_completed w = [] ∧ off ≠ MaxByteCount ∧
  i64 (bytesRead conn') = i64 (others + bytesRead (fc_base c')).
Proof.
  intros Hg He Hoff Hmax. destruct (core_update _ _ _ _ _ _ _ _ _ (g_core _ _ _ _ _ Hg) eq_refl He Hoff) as (Hc & Hhi & Hrd & Hcn & _).
  destruct Hg as [Hc0 Hd Hca Hrs Heof Hcr Hp]. assert (Hdone : w_completed w = []) by (by destruct Hd as [|(_ & ? & _)]).
  rewrite Hdone in *. split_and!; try done.
  - destruct (finRead s); [by destruct Heof|done].
  - pose proof (c_fc _ _ _ Hc) as []. pose proof (c_high _ _ _ Hc). simpl in *. lia.
  - by rewrite Hrd, Hcn.
Qed.

Lemma frame_ok frames out others blocked now f cb s w sw : good frames out others s w → waiting frames out blocked s →
  0 ≤ sf_Offset f → sf_Offset f + blen (sf_Data f) ≤ MaxByteCount → matches Str (sf_Data f) (sf_Offset f) →
  handleStreamFrame now f cb (s, w) = (Ok tt, sw) →
  let frames' := if bool_decide (is_Some (cancelReadErr s)) then frames else (sf_Offset f, sf_Data f) :: frames in
  good frames' out others sw.1 sw.2 ∧ waiting frames' out blocked sw.1 ∧
  finalOffset sw.1 = if sf_Fin f then sf_Offset f + blen (sf_Data f) else finalOffset s.
Proof.
  intros Hg Hw H0 Hmax Hm He. unfold handleStreamFrame, handleStreamFrameImpl, StreamFrame_DataLen in He.
  pose proof (blen_nonneg (sf_Data f)). unfold MaxByteCount in Hmax.
  rewrite i64_small in He by lia. set (off := sf_Offset f + blen (sf_Data f)) in *. rewrite st_bind_assoc in He.
  unfold on_fc at 1 in He. unfold mbind at 1, st_bind at 1 in He.
  destruct (UpdateHighestReceived off (sf_Fin f) (flowController s, w_conn w)) as [[[]| |] [c' conn']] eqn:HU; try done.
  rewrite st_bind_assoc in He. set (s1 := set_fc c' s) in He. set (w1 := set_conn conn' w) in He.
  rewrite (st_bind_ok _ _ _ s1 (s1, w1)) in He by done. change (finalOffset s1) with (finalOffset s) in He.
  change (cancelReadErr s1) with (cancelReadErr s) in He. rewrite st_bind_assoc in He.
  set (s2 := set_final (if sf_Fin f then off else finalOffset s) (set_fc c' s)).
  rewrite (st_bind_ok _ _ _ tt (s2, w1)) in He by (unfold s2, s1; destruct (sf_Fin f); [done|by rewrite set_final_id]).
  assert (Hoff : 0 ≤ off < limit) by (unfold limit; lia).
  destruct (cancelReadErr s) as [e|] eqn:Ec.
  - rewrite bool_decide_eq_true_2 by done. cbv zeta. rewrite (st_bind_ok _ _ _ (sf_Fin f && (finalOffset s =? MaxByteCount)) (s2, w1)) in He by done.
    assert (Hw2 : waiting frames out blocked s2).
    { intros n Hn. destruct (Hw n Hn) as (? & ? & ? & [?|[(_ & ? & _) _]]); [|congruence]. split_and!; try done. by left. }
    unfold when_completed in He. destruct (sf_Fin f && (finalOffset s =? MaxByteCount)) eqn:Hnew.
    + apply andb_true_iff in Hnew as [Hfin Hmx%Z.eqb_eq].
      assert (Es : s2 = set_final off (set_fc c' s)) by (unfold s2; by rewrite Hfin). rewrite Hfin in HU.
      destruct (update_new frames out others s w off c' conn' Hg HU Hoff Hmx) as (Hc2 & Hf2 & Hd2 & Hm2 & Hcr2).
      rewrite Hfin. rewrite Es in *. destruct (abandon_good frames out others now (set_final off (set_fc c' s)) w1) as (w' & Ha & Hg'); try done.
      { right. split_and!; try done. apply Hg. }
      { left. simpl. by rewrite Ec. }
      rewrite Ha in He. injection He as <-. done.
    + injection He as <-. split; [|by destruct (sf_Fin f)]. by apply (good_update frames out others s w off (sf_Fin f)); auto.
  - rewrite bool_decide_eq_false_2 by (by intros []). cbv zeta.
    destruct (good_update frames out others s w off (sf_Fin f) c' conn' Hg HU Hoff (or_introl Ec)) as [Hg2 Hhi]. fold s2 w1 in Hg2.
    destruct (c_sorted _ _ _ (g_core _ _ _ _ _ Hg2)) as (h & t & Hs).
    pose proof (c_fc _ _ _ (g_core _ _ _ _ _ Hg2)) as []. pose proof (c_high _ _ _ (g_core _ _ _ _ _ Hg2)). simpl in *.
    rewrite st_bind_assoc in He. unfold on_queue at 1 in He. unfold mbind at 1, st_bind at 1 in He.
    destruct (sorted_Push _ _ _ _ _ _ (sf_Data f) (sf_Offset f) cb Hs) as [(q & Hq)|(q & Hq & Hs')]; [done|lia|done|..];
      change (frameQueue s2) with (frameQueue s) in Hq; simpl in Hq; simpl in He; rewrite Hq in He; [done|].
    injection He as <-. simpl. split; [|split; [|done]].
    + destruct Hg2 as [[] ? ? ? ? ? ?]. split; try done. split; try done.
      * by exists (opt_list cb ++ h), t.
      * intros x [->|Hx]%elem_of_cons; [done|]. by apply c_frames0.
    + intros n Hn. destruct (Hw n Hn) as (? & ? & ? & _). split_and!; try done. by left.
Qed.

(** Setting an error and signalling a waiting [Read]. *)
Lemma good_errs_set frames out others s w e1 e2 e3 : good frames out others s w →
  (∀ e, e1 = Some e ∨ e2 = Some e ∨ e3 = Some e → plain e) →
  (is_Some (cancelReadErr s) → is_Some e2) → (is_Some (resetRemotelyErr s) → is_Some e3) →
  (is_Some e2 → is_Some (cancelReadErr s) ∨ finalOffset s = MaxByteCount) →
  (is_Some e3 → is_Some (resetRemotelyErr s) ∨ finalOffset s ≠ MaxByteCount) →
  good frames out others (set_readChan true (set_errs e1 e2 e3 s)) w.
Proof.
  intros [[] Hd Hca Hrs He Hcr Hp] Hp' H2 H3 H2' H3'. split; simpl; try done.
  - destruct Hd as [|(? & ? & Hx)]; [by left|right]. split_and!; try done. naive_solver.
  - intros Hs Hf. apply Hca; [|done]. by destruct (H2' Hs).
  - intros Hr. destruct (H3' Hr) as [|]; [by apply Hrs|done].
Qed.

Lemma waiting_signal frames frames' out blocked e1 e2 e3 s : waiting frames out blocked s →
  waiting frames' out blocked (set_readChan true (set_errs e1 e2 e3 s)).
Proof. intros Hw n Hn. destruct (Hw n Hn) as (? & ? & ? & _). split_and!; try done. by left. Qed.

Lemma reset_ok frames out others blocked now f s w sw : good frames out others s w → waiting frames out blocked s →
  0 ≤ rst_FinalSize f ≤ MaxByteCount → handleResetStreamFrame now f (s, w) = (Ok tt, sw) →
  good frames out others sw.1 sw.2 ∧ waiting frames out blocked sw.1.
Proof.
  intros Hg Hw Hsz He. unfold handleResetStreamFrame, handleResetStreamFrameImpl in He.
  rewrite st_bind_assoc, (st_bind_ok _ _ _ s (s, w)) in He by done.
  destruct (bool_decide (is_Some (closeForShutdownErr s))); [by injection He as <-|]. rewrite st_bind_assoc in He.
  unfold on_fc at 1 in He. unfold mbind at 1, st_bind at 1 in He.
  destruct (UpdateHighestReceived _ true (flowController s, w_conn w)) as [[[]| |] [c' conn']] eqn:HU; try done.
  assert (Hoff : 0 ≤ rst_FinalSize f < limit) by (unfold limit; unfold MaxByteCount in Hsz; lia).
  set (off := rst_FinalSize f) in *. set (s1 := set_fc c' s) in He. set (w1 := set_conn conn' w) in He.
  rewrite st_bind_assoc, (st_bind_ok _ _ _ s1 (s1, w1)) in He by done. cbv zeta in He. change (finalOffset s1) with (finalOffset s) in He.
  set (s2 := set_final off s1) in He. rewrite st_bind_assoc, (st_bind_ok _ _ _ tt (s2, w1)) in He by done.
  change (resetRemotelyErr s1) with (resetRemotelyErr s) in He.
  assert (Hw2 : waiting frames out blocked s2 ∨ finalOffset s = MaxByteCount).
  { destruct (decide (finalOffset s = MaxByteCount)) as [|Hne]; [by right|left].
    destruct (core_update _ _ _ _ _ _ _ _ _ (g_core _ _ _ _ _ Hg) eq_refl HU Hoff) as (_ & _ & _ & _ & Hsame).
    destruct (Hsame Hne) as [E _]. intros n Hn. destruct (Hw n Hn) as (? & ? & ? & Hx). split_and!; try done.
    unfold no_errs, starved in *. simpl. by rewrite E. }
  case_bool_decide as Hr.
  - injection He as <-. simpl. pose proof (g_reset _ _ _ _ _ Hg Hr) as Hne. destruct Hw2 as [|]; [|done]. split; [|done].
    apply (good_update frames out others s w off true c' conn' Hg HU Hoff). right. simpl. by apply Z.eqb_neq.
  - rewrite st_bind_assoc in He. set (e := StreamError (streamID s) (rst_ErrorCode f) true).
    set (s3 := set_readChan true (set_errs (closeForShutdownErr s2) (cancelReadErr s2) (Some e) s2)).
    rewrite (st_bind_ok _ _ _ tt (set_errs (closeForShutdownErr s2) (cancelReadErr s2) (Some e) s2, w1)) in He by done.
    rewrite st_bind_assoc, (st_bind_ok _ _ _ tt (s3, w1)) in He by done.
    rewrite (st_bind_ok _ _ _ (finalOffset s =? MaxByteCount) (s3, w1)) in He by done. unfold when_completed in He.
    assert (Hp : ∀ e', closeForShutdownErr s = Some e' ∨ cancelReadErr s = Some e' ∨ Some e = Some e' → plain e').
    { intros e' [?|[?|[= <-]]]; [apply (g_plain _ _ _ _ _ Hg); auto..|done]. }
    assert (Hw3 : waiting frames out blocked s3).
    { intros n Hn. destruct (Hw n Hn) as (? & ? & ? & _). split_and!; try done. by left. }
    destruct (Z.eqb_spec (finalOffset s) MaxByteCount) as [Hmx|Hne].
    + destruct (update_new frames out others s w off c' conn' Hg HU Hoff Hmx) as (Hc2 & Hf2 & Hd2 & Hm2 & Hcr2).
      destruct (abandon_good frames out others now s3 w1) as (w' & Ha & Hg'); try done; [|by right|].
      { right. split_and!; try done. destruct Hc2; by split. }
      rewrite Ha in He. by injection He as <-.
    + injection He as <-. simpl. split; [|done]. apply good_errs_set; try done; [|by left|right].
      * apply (good_update frames out others s w off true c' conn' Hg HU Hoff). right. simpl. by apply Z.eqb_neq.
      * simpl. destruct (core_update _ _ _ _ _ _ _ _ _ (g_core _ _ _ _ _ Hg) eq_refl HU Hoff) as (_ & _ & _ & _ & Hsame).
        destruct (Hsame Hne). congruence.
Qed.

Lemma rs_cancel_ok frames out others blocked now code s w : good frames out others s w → waiting frames out blocked s →
  ∃ s' w', CancelRead now code (s, w) = (Ok tt, (s', w')) ∧ good frames out others s' w' ∧ waiting frames out blocked s' ∧
    finalOffset s' = finalOffset s.
Proof.
  intros Hg Hw. unfold CancelRead, cancelReadImpl. rewrite st_bind_assoc, (st_bind_ok _ _ _ s (s, w)) by done.
  destruct (finRead s || bool_decide (is_Some (cancelReadErr s)) || bool_decide (is_Some (resetRemotelyErr s))) eqn:Hno.
  { by exists s, w. }
  apply orb_false_iff in Hno as [[Hnf Hc%bool_decide_eq_false]%orb_false_iff Hr%bool_decide_eq_false].
  set (e := StreamError (streamID s) code false). set (s1 := set_readChan true (set_errs (closeForShutdownErr s) (Some e) (resetRemotelyErr s) s)).
  rewrite st_bind_assoc, (st_bind_ok _ _ _ tt (set_errs (closeForShutdownErr s) (Some e) (resetRemotelyErr s) s, w)) by done.
  rewrite st_bind_assoc, (st_bind_ok _ _ _ tt (s1, w)) by done. set (w1 := mkWorld (w_conn w) (w_control w ++ [mkStopSendingFrame (streamID s) code]) (w_completed w)).
  rewrite st_bind_assoc, (st_bind_ok _ _ _ tt (s1, w1)) by done.
  rewrite (st_bind_ok _ _ _ (negb (finalOffset s =? MaxByteCount)) (s1, w1)) by done. unfold when_completed.
  assert (Hp : ∀ e', closeForShutdownErr s = Some e' ∨ Some e = Some e' ∨ resetRemotelyErr s = Some e' → plain e').
  { intros e' [?|[[= <-]|?]]; [|done|]; apply (g_plain _ _ _ _ _ Hg); auto. }
  assert (Hw1 : waiting frames out blocked s1) by (by apply (waiting_signal frames)).
  destruct (Z.eqb_spec (finalOffset s) MaxByteCount) as [Hmx|Hne]; simpl.
  - exists s1, w1. split_and!; try done. assert (good frames out others s1 w) as []; [|by split].
    apply good_errs_set; try done. by right.
  - assert (Hdone : w_completed w = []).
    { destruct (g_done _ _ _ _ _ Hg) as [|(_ & _ & [?|[?|?]])]; [done|congruence|done..]. }
    destruct (abandon_good frames out others now s1 w1) as (w' & Ha & Hg'); try done; [|by left|].
    { right. destruct Hg as [[] Hd Hca Hrs He Hcr _]. rewrite Hdone in *. by split_and!. }
    by exists s1, w'.
Qed.

Lemma rs_window_ok frames out others blocked now now' rtt off s w sw : good frames out others s w → waiting frames out blocked s →
  rs_getWindowUpdate now now' rtt (s, w) = (Ok off, sw) → receiveWindow (base sw.1) < MaxByteCount →
  good frames out others sw.1 sw.2 ∧ waiting frames out blocked sw.1 ∧ finalOffset sw.1 = finalOffset s.
Proof.
  intros Hg Hw He Hmax. unfold rs_getWindowUpdate, on_fc in He.
  destruct (GetWindowUpdate now now' rtt (flowController s, w_conn w)) as [r [c' conn']] eqn:HG. injection He as -> <-. simpl in *.
  assert (H : rcv_ok (fc_base c') ∧ bytesRead (fc_base c') = bytesRead (base s) ∧ highestReceived (fc_base c') = highestReceived (base s) ∧
    receivedFinalOffset c' = receivedFinalOffset (flowController s) ∧ bytesRead conn' = bytesRead (w_conn w)).
  { unfold GetWindowUpdate in HG. pose proof (c_fc _ _ _ (g_core _ _ _ _ _ Hg)) as Hfc.
    destruct (receivedFinalOffset (flowController s)) eqn:Hf; [injection HG as _ <- <-; by rewrite Hf|].
    destruct (getWindowUpdate now rtt (base s)) as [o b] eqn:Hgw. destruct (getWindowUpdate_ok _ _ _ _ _ Hfc Hgw) as (H1 & [] & H2 & _).
    destruct (_ <? _); [|injection HG as _ <- <-; by rewrite <- Hf].
    destruct (EnsureMinimumWindowSize _ _ _) as [[]] eqn:HE; [|done..]. injection HG as _ <- <-. split_and!; try done.
    unfold EnsureMinimumWindowSize in HE. repeat case_match; by simplify_eq. }
  destruct H as (H1 & H2 & H3 & H4 & H5). split; [|split; [|done]].
  - destruct Hg as [[] ? ? ? ? ? ?]. split; try done; [split|]; simpl; rewrite ?H2, ?H3, ?H4, ?H5; done.
  - intros n Hn. apply (Hw n Hn).
Qed.

(** * Runs *)

(** The frames accepted, the bytes returned by [Read], the length of the buffer
    of a [Read] that waits, and the bytes the rest of the connection gave
    back to the connection's flow controller. *)
Record hist := mkHist { h_frames : list (Z * bytes); h_out : bytes; h_blocked : option Z; h_others : Z }.

(** All interleavings of the operations of one stream.  A STREAM frame carries
    bytes of [Str]; the parser bounds offsets by [MaxByteCount].  A run ends
    when an operation returns an error, which closes the connection. *)
Abbreviation state := (receiveStream * world * hist)%type.

Inductive local_step : state → state → Prop :=
| step_other s w h conn n : credited (w_conn w) conn n →
    local_step (s, w, h) (s, set_conn conn w, mkHist (h_frames h) (h_out h) (h_blocked h) (h_others h + n))
| step_cancel s w h now code s' w' : CancelRead now code (s, w) = (Ok tt, (s', w')) → local_step (s, w, h) (s', w', h)
| step_deadline s w h t s' w' : SetReadDeadline t (s, w) = (Ok tt, (s', w')) → local_step (s, w, h) (s', w', h)
| step_shutdown s w h e s' w' : closeForShutdown e (s, w) = (Ok tt, (s', w')) → local_step (s, w, h) (s', w', h)
| step_window s w h now now' rtt off s' w' : rs_getWindowUpdate now now' rtt (s, w) = (Ok off, (s', w')) →
    receiveWindow (base s') < MaxByteCount → local_step (s, w, h) (s', w', h)
| step_read s w h clock n o s' w' : h_blocked h = None → 0 < n → Read clock n (s, w) = (Ok o, (s', w')) →
    local_step (s, w, h) (s', w', mkHist (h_frames h) (h_out h ++ out_of o) (blocked_of n o) (h_others h))
| step_wake s w h (token : bool) clock n o s' w' : h_blocked h = Some n →
    (if token then readChan s = true else deadline s ≠ 0) → Read_resume token clock n (s, w) = (Ok o, (s', w')) →
    local_step (s, w, h) (s', w', mkHist (h_frames h) (h_out h ++ out_of o) (blocked_of n o) (h_others h)).

Definition frame_hist (s : receiveStream) (f : StreamFrame) (h : hist) : hist :=
  mkHist (if bool_decide (is_Some (cancelReadErr s)) then h_frames h else (sf_Offset f, sf_Data f) :: h_frames h)
    (h_out h) (h_blocked h) (h_others h).

Inductive step : state → state → Prop :=
| step_local x y : local_step x y → step x y
| step_frame s w h now f putBack s' w' : 0 ≤ sf_Offset f → sf_Offset f + blen (sf_Data f) ≤ MaxByteCount →
    matches Str (sf_Data f) (sf_Offset f) → handleStreamFrame now f putBack (s, w) = (Ok tt, (s', w')) →
    step (s, w, h) (s', w', frame_hist s f h)
| step_reset s w h now f s' w' : 0 ≤ rst_FinalSize f ≤ MaxByteCount →
    handleResetStreamFrame now f (s, w) = (Ok tt, (s', w')) → step (s, w, h) (s', w', h).

(** A new stream, with a fresh flow controller. *)
Inductive start : state → Prop :=
| start_new id fc w : rcv_ok (fc_base fc) → highestReceived (fc_base fc) = 0 → receiveWindow (fc_base fc) < MaxByteCount →
    receivedFinalOffset fc = false → w_completed w = [] →
    start (newReceiveStream id fc, w, mkHist [] [] None (bytesRead (w_conn w))).

Definition run (x : state) : Prop := ∃ x0, start x0 ∧ rtc step x0 x.

Definition good_state (x : state) : Prop :=
  let '(s, w, h) := x in
  good (h_frames h) (h_out h) (h_others h) s w ∧ waiting (h_frames h) (h_out h) (h_blocked h) s.

Lemma rs_start_good x : start x → good_state x.
Proof.
  intros [id fc w Hok Hh Hw Hf Hd]. split; [|done]. pose proof Hok as []. assert (bytesRead (fc_base fc) = 0) by lia.
  split; simpl; rewrite ?Hd; try done; [|by left|f_equal; lia|naive_solver].
  split; simpl; rewrite ?Hf; try done; [|by intros f ?%elem_of_nil].
  exists [], []. constructor.
Qed.

Lemma local_step_good x y : good_state x → local_step x y →
  good_state y ∧ finalOffset y.1.1 = finalOffset x.1.1 ∧ h_frames y.2 = h_frames x.2.
Proof.
  intros Hx Hxy. destruct Hxy as [s w h conn n Hcr|s w h now code s' w' He|
    s w h t s' w' He|s w h e s' w' He|s w h now now' rtt off s' w' He Hmax|s w h clock n o s' w' Hb Hn He|
    s w h token clock n o s' w' Hb _ He]; destruct Hx as [Hg Hw].
  - split; [|done]. split; [|done]. destruct Hg as [? ? ? ? ? Hc ?]. split; simpl; try done.
    unfold credited in Hcr. rewrite i64_mod in *. rewrite Hcr, Zplus_mod, Hc, <- Zplus_mod. f_equal. lia.
  - destruct (rs_cancel_ok _ _ _ _ now code _ _ Hg Hw) as (? & ? & He' & ? & ? & ?). rewrite He in He'. by injection He' as <- <-.
  - injection He as <- <-. split; [|done]. split; [destruct Hg as [[] ? ? ? ? ? ?]; by split|].
    intros n Hn. destruct (Hw n Hn) as (? & ? & ? & _). split_and!; try done. by left.
  - injection He as <- <-. split; [|done]. split; [|by eapply waiting_signal].
    apply good_errs_set; try done; [|by left|by left]. intros e' [[= <-]|?]; [done|]. by apply (g_plain _ _ _ _ _ Hg); right.
  - by destruct (rs_window_ok _ _ _ _ _ _ _ _ _ _ _ Hg Hw He Hmax) as (? & ? & ?).
  - destruct (Read_ok _ _ _ clock n _ _ Hg Hn) as (o2 & s2 & w2 & He' & ? & _ & ? & ?). rewrite He in He'. by injection He' as <- <- <-.
  - rewrite Hb in Hw. destruct (Read_resume_ok _ _ _ clock n token _ _ Hg Hw) as (o2 & s2 & w2 & He' & ? & _ & ? & ?).
    rewrite He in He'. by injection He' as <- <- <-.
Qed.

Lemma rs_step_good x y : good_state x → step x y → good_state y.
Proof.
  intros Hx Hxy. destruct Hxy as [x y Hxy|s w h now f cb s' w' H0 Hm Hs He|s w h now f s' w' Hsz He]; [by eapply local_step_good|..];
    destruct Hx as [Hg Hw].
  - by destruct (frame_ok _ _ _ _ _ _ _ _ _ _ Hg Hw H0 Hm Hs He) as (? & ? & _).
  - exact (reset_ok _ _ _ _ _ _ _ _ _ Hg Hw Hsz He).
Qed.

Lemma rs_run_good x : run x → good_state x.
Proof.
  intros (x0 & H0 & Hs). revert x Hs. apply rtc_ind_r; [by apply rs_start_good|]. intros y z _ Hyz Hy. by eapply rs_step_good.
Qed.

(** C15: a stream is read in order, without gaps.  Whatever the interleaving of
    STREAM and RESET_STREAM frames, of [Read], [CancelRead] and the other calls: the bytes returned so far are the
    first bytes of the stream; [Read] into a non-empty buffer never panics nor
    returns a "BUG" error; it returns without an error only with data, never more than fits; it returns
    [io.EOF] only at the final offset; and it waits only if there is no error to return and the next byte
    was neither received nor beyond the end of the stream.  The same holds for a [Read] that waited. *)
Theorem stream_read_in_order s w h : run (s, w, h) →
  (∀ i b, h_out h !! i = Some b → b = Str (Z.of_nat i)) ∧
  (∀ clock n, 0 < n → ∃ o sw, Read clock n (s, w) = (Ok o, sw) ∧ outcome_ok (h_frames h) (h_out h) n s o) ∧
  (∀ token clock n, h_blocked h = Some n →
     ∃ o sw, Read_resume token clock n (s, w) = (Ok o, sw) ∧ outcome_ok (h_frames h) (h_out h) n s o).
Proof.
  intros [Hg Hw]%rs_run_good. split_and!.
  - destruct (c_sorted _ _ _ (g_core _ _ _ _ _ Hg)) as (? & ? & Hs). destruct (sorted_inv _ _ _ _ _ _ Hs) as (_ & Ho & _).
    intros i b Hb. apply Ho. by apply lookup_app_l_Some.
  - intros clock n Hn. destruct (Read_ok _ _ _ clock n _ _ Hg Hn) as (o & s' & w' & ? & _ & ? & _ & _). eauto.
  - intros token clock n Hb. rewrite Hb in Hw. destruct (Read_resume_ok _ _ _ clock n token _ _ Hg Hw) as (o & s' & w' & ? & _ & ? & _ & _). eauto.
Qed.

(** C36: a stream completes at most once, and once it has completed its flow
    control credit was returned exactly once.  [onStreamCompleted] is called at
    most once, and then the final size is known; it was called if [Read] returned
    [io.EOF], and if reading was cancelled and the final size is known.  Until then
    the connection's flow controller was given back what was read, and once the
    stream is completed its whole final size.  A stream need not complete:
    [reset_after_fin]. *)
Theorem stream_completes_once s w h : run (s, w, h) →
  (w_completed w = [] ∨ w_completed w = [streamID s] ∧ finalOffset s = highestReceived (base s) ∧ finalOffset s < MaxByteCount) ∧
  (finRead s = true → w_completed w = [streamID s] ∧ blen (h_out h) = finalOffset s) ∧
  (is_Some (cancelReadErr s) → finalOffset s ≠ MaxByteCount → w_completed w = [streamID s]) ∧
  i64 (bytesRead (w_conn w)) = i64 (h_others h + if decide (w_completed w = []) then blen (h_out h) else finalOffset s).
Proof.
  intros [Hg _]%rs_run_good. destruct Hg as [Hc Hd Hca Hrs He Hcr _].
  assert (Hfin : finalOffset s ≠ MaxByteCount → finalOffset s = highestReceived (base s) ∧ finalOffset s < MaxByteCount).
  { intros Hne. rewrite (c_final _ _ _ Hc) in *. pose proof (c_fc _ _ _ Hc) as []. pose proof (c_high _ _ _ Hc).
    destruct (receivedFinalOffset _); [|done]. lia. }
  rewrite <- (c_read _ _ _ Hc) in *. split_and!.
  - destruct Hd as [|(? & ? & _)]; [by left|right]. split_and!; try done; by apply Hfin.
  - intros Hf. destruct (He Hf). by destruct Hd as [|(? & _)].
  - intros Hx Hne. specialize (Hca Hx Hne). by destruct Hd as [|(? & _)].
  - rewrite Hcr. destruct Hd as [->|(-> & Hne & _)]; [done|]. rewrite decide_False by done. by destruct (Hfin Hne) as [-> _].
Qed.

(** C16: no lost wake-up.  A [Read] that waits has a token in [readChan], or there is nothing it
    could return: no error is set, the next byte of the
    stream was not received, and the stream does not end here. *)
Theorem waiting_read_is_woken s w h n : run (s, w, h) → h_blocked h = Some n →
  readChan s = true ∨ no_errs s ∧ ¬ received (h_frames h) (blen (h_out h)) ∧ blen (h_out h) < finalOffset s.
Proof. intros [_ Hw]%rs_run_good Hb. by destruct (Hw n Hb) as (_ & _ & _ & ?). Qed.

(** * A reset stream that is not completed *)

#[local] Arguments UpdateHighestReceived : simpl never.
#[local] Arguments Push : simpl never.
#[local] Arguments GetWindowUpdate : simpl never.

Lemma frame_completed now f cb s w s' w' : finalOffset s ≠ MaxByteCount → handleStreamFrame now f cb (s, w) = (Ok tt, (s', w')) →
  resetRemotelyErr s' = resetRemotelyErr s ∧ w_completed w' = w_completed w.
Proof.
  intros Hne%Z.eqb_neq He. unfold handleStreamFrame, handleStreamFrameImpl, on_fc, on_queue, when_completed, mbind, st_bind, mret, st_ret in He. simpl in He.
  destruct (UpdateHighestReceived _ _ _) as [[] [c' conn']]; [|done..]. simpl in He. rewrite Hne, andb_false_r in He.
  destruct (sf_Fin f), (cancelReadErr s); simpl in He; try (destruct (Push _ _ _ _) as [[] q]); simpl in He; by simplify_eq/=.
Qed.

Lemma reset_again now f s w s' w' : is_Some (resetRemotelyErr s) → handleResetStreamFrame now f (s, w) = (Ok tt, (s', w')) →
  resetRemotelyErr s' = resetRemotelyErr s ∧ w_completed w' = w_completed w.
Proof.
  intros Hr He. unfold handleResetStreamFrame, handleResetStreamFrameImpl, on_fc, when_completed, mbind, st_bind, mret, st_ret in He. simpl in He.
  case_bool_decide; simpl in He; [by simplify_eq|].
  destruct (UpdateHighestReceived _ _ _) as [[] [c' conn']]; [|done..]. simpl in He. rewrite bool_decide_eq_true_2 in He by done.
  simpl in He. by simplify_eq/=.
Qed.

Lemma window_completed now now' rtt off s w s' w' : rs_getWindowUpdate now now' rtt (s, w) = (Ok off, (s', w')) →
  resetRemotelyErr s' = resetRemotelyErr s ∧ w_completed w' = w_completed w.
Proof. unfold rs_getWindowUpdate, on_fc. destruct (GetWindowUpdate _ _ _ _) as [r [c' conn']]. intros. by simplify_eq/=. Qed.

(** [Read] returns the error. *)
Lemma reset_read frames out others clock n s w o s' w' : good frames out others s w → is_Some (resetRemotelyErr s) → w_completed w = [] →
  Read clock n (s, w) = (Ok o, (s', w')) → s' = s ∧ w' = w.
Proof.
  intros Hg [e Hr] Hd He. assert (Hnf : finRead s = false).
  { destruct (finRead s) eqn:Hf; [|done]. by destruct (g_eof _ _ _ _ _ Hg Hf). }
  unfold Read, readImpl, complete, mbind, st_bind, mret, st_ret in He. simpl in He. rewrite Hnf, Hr in He. destruct (cancelReadErr s); by simplify_eq/=.
Qed.

Lemma reset_resume frames out others token clock n s w o s' w' : good frames out others s w → waiting frames out (Some n) s →
  is_Some (resetRemotelyErr s) → Read_resume token clock n (s, w) = (Ok o, (s', w')) →
  resetRemotelyErr s' = resetRemotelyErr s ∧ w' = w.
Proof.
  intros Hg Hw [e Hr] He. destruct (Hw n eq_refl) as (Hn & Hnf & Hcur & _). unfold Read_resume, resumeImpl in He.
  set (s0 := set_readChan (readChan s && negb token) s) in He. rewrite (st_bind_ok _ _ _ tt (s0, w)) in He by done.
  rewrite st_bind_assoc, (st_bind_ok _ _ _ s0 (s0, w)) in He by done.
  change (currentFrame s0) with (currentFrame s) in He. rewrite Hcur, bool_decide_eq_true_2 in He by done.
  assert (Hc0 : core frames out s0) by (destruct Hg as [[]]; by split).
  destruct (dequeue_ok frames out s0 w Hc0) as (s1 & Hdq & _ & Hk & _); [unfold frame_used; simpl; by rewrite Hcur|done|].
  rewrite st_bind_assoc, (st_bind_ok _ _ _ _ _ Hdq) in He. unfold read_round in He.
  rewrite st_bind_assoc, (st_bind_ok _ _ _ s1 (s1, w)) in He by done.
  assert (Hr1 : resetRemotelyErr s1 = Some e) by (rewrite (k_reset _ _ Hk); exact Hr).
  assert (∃ e', wait (clock (S (Z.to_nat n))) [] s1 = Some (Done false [] (Some e'))) as [e' Hwait].
  { unfold wait. rewrite Hr1. destruct (closeForShutdownErr s1), (cancelReadErr s1); eauto. }
  rewrite Hwait in He. unfold complete, mbind, st_bind, mret, st_ret in He. simplify_eq/=. by rewrite Hr1.
Qed.

Lemma leak_step s w h s' w' h' : good_state (s, w, h) → is_Some (resetRemotelyErr s) → w_completed w = [] →
  step (s, w, h) (s', w', h') → is_Some (resetRemotelyErr s') ∧ w_completed w' = [].
Proof.
  intros [Hg Hw] Hr Hd Hxy. pose proof (g_reset _ _ _ _ _ Hg Hr) as Hne.
  inversion Hxy as [? ? Hlocal|? ? ? now f cb ? ? H0 Hm Hs He|? ? ? now f ? ? Hsz He]; simplify_eq.
  2: { by destruct (frame_completed _ _ _ _ _ _ _ Hne He) as [-> ->]. }
  2: { by destruct (reset_again _ _ _ _ _ _ Hr He) as [-> ->]. }
  inversion Hlocal as [? ? ? conn n Hcr|? ? ? now code ? ? He|? ? ? t ? ? He|? ? ? e ? ? He|? ? ? now now' rtt off ? ? He Hmax|
    ? ? ? clock n o ? ? Hb Hn He|? ? ? token clock n o ? ? Hb _ He]; simplify_eq; try done.
  - unfold CancelRead, cancelReadImpl, when_completed, mbind, st_bind, mret, st_ret in He. simpl in He.
    rewrite (bool_decide_eq_true_2 (is_Some (resetRemotelyErr s))), orb_true_r in He by done. by simplify_eq/=.
  - by injection He as <- <-.
  - by injection He as <- <-.
  - by destruct (window_completed _ _ _ _ _ _ _ _ He) as [-> ->].
  - by destruct (reset_read _ _ _ _ _ _ _ _ _ _ Hg Hr Hd He) as [-> ->].
  - rewrite Hb in Hw. by destruct (reset_resume _ _ _ _ _ _ _ _ _ _ _ Hg Hw Hr He) as [-> ->].
Qed.

(** A stream that was reset and is not completed is never completed, and the
    connection's flow controller never gets back the bytes not read. *)
Theorem reset_stream_leaks s w h s' w' h' : run (s, w, h) → is_Some (resetRemotelyErr s) → w_completed w = [] →
  rtc step (s, w, h) (s', w', h') → w_completed w' = [].
Proof.
  intros Hrun Hr Hd Hs. apply rs_run_good in Hrun.
  assert (H : ∀ x, rtc step (s, w, h) x → good_state x ∧ is_Some (resetRemotelyErr x.1.1) ∧ w_completed x.1.2 = []).
  { apply rtc_ind_r; [done|]. intros y z _ Hyz (Hgy & Hry & Hdy).
    destruct y as [[sy wy] hy], z as [[sz wz] hz]. split; [by eapply rs_step_good|by eapply leak_step]. }
  by destruct (H _ Hs) as (_ & _ & ?).
Qed.

End stream.

(** * An example

    The second half of the stream 0, 1, 2, 3, ... and its end arrive first; a [Read]
    waits and is woken by the first half. *)
Definition ex_fc : streamFlowController := NewStreamFlowController 4 100 100 0.
Definition ex_new : receiveStream * world :=
  (newReceiveStream 4 ex_fc, mkWorld (NewConnectionFlowController 100 100 (Some (λ _, true))) [] []).
Definition ex_fin : receiveStream * world := (handleStreamFrame 0 (mkStreamFrame 4 2 [2; 3] true false false false) None ex_new).2.
Definition ex_blocked : receiveStream * world := (Read (λ _, 0) 10 ex_fin).2.
Definition ex_signalled : receiveStream * world := (handleStreamFrame 0 (mkStreamFrame 4 0 [0; 1] false false false false) None ex_blocked).2.
Definition ex_read : receiveStream * world := (Read_resume true (λ _, 0) 10 ex_signalled).2.
Definition ex_reset : receiveStream * world := (handleResetStreamFrame 0 (mkResetStreamFrame 4 7 4) ex_fin).2.

Abbreviation id_stream := (λ x : Z, x) (only parsing).

Lemma id_matches n k : matches id_stream (Z.of_nat <$> seq n k) (Z.of_nat n).
Proof. intros i b Hb. apply list_lookup_fmap_Some in Hb as (j & -> & Hj). apply lookup_seq in Hj as [-> _]. lia. Qed.

Lemma ex_run_fin : run id_stream (ex_fin.1, ex_fin.2, mkHist [(2, [2; 3])] [] None 0).
Proof.
  exists (ex_new.1, ex_new.2, mkHist [] [] None 0). split.
  - apply (start_new 4 ex_fc (mkWorld (NewConnectionFlowController 100 100 (Some (λ _, true))) [] [])); done.
  - apply rtc_once.
    refine (step_frame _ ex_new.1 ex_new.2 (mkHist [] [] None 0) 0 (mkStreamFrame 4 2 [2; 3] true false false false) None _ _ _ _ _ _);
      [done|done|exact (id_matches 2 2)|vm_compute; reflexivity].
Qed.

Lemma rs_run_step Str x y : run Str x → step Str x y → run Str y.
Proof. intros (x0 & ? & Hs) Hxy. exists x0. split; [done|]. by eapply rtc_r. Qed.

Lemma ex_run_signalled : run id_stream (ex_signalled.1, ex_signalled.2, mkHist [(0, [0; 1]); (2, [2; 3])] [] (Some 10) 0).
Proof.
  eapply rs_run_step; [eapply rs_run_step; [apply ex_run_fin|]|].
  - apply step_local. refine (step_read ex_fin.1 ex_fin.2 _ (λ _, 0) 10 Blocked ex_blocked.1 ex_blocked.2 _ _ _); [done|done|vm_compute; reflexivity].
  - refine (step_frame _ ex_blocked.1 ex_blocked.2 (mkHist [(2, [2; 3])] [] (Some 10) 0) 0
      (mkStreamFrame 4 0 [0; 1] false false false false) None _ _ _ _ _ _); [done|done|exact (id_matches 0 2)|vm_compute; reflexivity].
Qed.

Lemma ex_run_read : run id_stream (ex_read.1, ex_read.2, mkHist [(0, [0; 1]); (2, [2; 3])] [0; 1; 2; 3] None 0).
Proof.
  eapply rs_run_step; [apply ex_run_signalled|].
  apply step_local. refine (step_wake ex_signalled.1 ex_signalled.2 (mkHist [(0, [0; 1]); (2, [2; 3])] [] (Some 10) 0) true (λ _, 0) 10
    (Done true [0; 1; 2; 3] (Some ReadEOF)) _ _ _ _ _); [done|vm_compute; reflexivity..].
Qed.

(** The final size is known, two bytes are not read, the stream is reset: it
    is not completed (and by [reset_stream_leaks] never will be). *)
Lemma reset_after_fin : run id_stream (ex_reset.1, ex_reset.2, mkHist [(2, [2; 3])] [] None 0) ∧
  is_Some (resetRemotelyErr ex_reset.1) ∧ w_completed ex_reset.2 = [] ∧ finalOffset ex_reset.1 = 4 ∧ bytesRead (w_conn ex_reset.2) = 0.
Proof.
  split; [|vm_compute; eauto]. eapply rs_run_step; [apply ex_run_fin|].
  refine (step_reset _ ex_fin.1 ex_fin.2 _ 0 (mkResetStreamFrame 4 7 4) _ _ _ _); [done|vm_compute; reflexivity].
Qed.

Lemma stream_read_in_order_witness : run id_stream (ex_signalled.1, ex_signalled.2, mkHist [(0, [0; 1]); (2, [2; 3])] [] (Some 10) 0) ∧
  ∃ o sw, Read_resume true (λ _, 0) 10 (ex_signalled.1, ex_signalled.2) = (Ok o, sw) ∧
    outcome_ok [(0, [0; 1]); (2, [2; 3])] [] 10 ex_signalled.1 o.
Proof.
  split; [apply ex_run_signalled|].
  apply (stream_read_in_order id_stream ex_signalled.1 ex_signalled.2 (mkHist [(0, [0; 1]); (2, [2; 3])] [] (Some 10) 0) ex_run_signalled).
  reflexivity.
Defined.

Lemma stream_completes_once_witness : run id_stream (ex_read.1, ex_read.2, mkHist [(0, [0; 1]); (2, [2; 3])] [0; 1; 2; 3] None 0) ∧
  w_completed ex_read.2 = [streamID ex_read.1].
Proof.
  split; [apply ex_run_read|].
  destruct (stream_completes_once id_stream ex_read.1 ex_read.2 (mkHist [(0, [0; 1]); (2, [2; 3])] [0; 1; 2; 3] None 0) ex_run_read)
    as (_ & H & _).
  apply H. vm_compute. reflexivity.
Defined.

Lemma waiting_read_is_woken_witness : run id_stream (ex_signalled.1, ex_signalled.2, mkHist [(0, [0; 1]); (2, [2; 3])] [] (Some 10) 0) ∧
  (readChan ex_signalled.1 = true ∨ no_errs ex_signalled.1 ∧
     ¬ received [(0, [0; 1]); (2, [2; 3])] 0 ∧ 0 < finalOffset ex_signalled.1).
Proof.
  split; [apply ex_run_signalled|].
  apply (waiting_read_is_woken id_stream ex_signalled.1 ex_signalled.2 (mkHist [(0, [0; 1]); (2, [2; 3])] [] (Some 10) 0) 10 ex_run_signalled).
  reflexivity.
Defined.
End receiveStream.
