(* ===== verification/SendStream.v ===== *)
(** The send side of a stream (send_stream.go): [Write], the STREAM frames cut
    from the data, retransmissions, and the completion of the stream. *)

From S2P Require Import Prelude.
From S2P Require Import Varint.
From S2P Require Import Protocol.
From S2P Require Import Frames.
From S2P Require Import FlowControl.

Module sendStream.
Import protocol wire flowcontrol.

(** * Data *)

Inductive write_error :=
| ErrClosed
| StreamError (streamID code : Z) (remote : bool)
| errDeadline
| Shutdown (e : go_error).

(** A nil [dataForWriting] is [None].  [writeChan] is a channel of capacity one.  A
    deadline of zero is no deadline.  [ctx] is the cause the stream's context was
    cancelled with, [Some None] for [nil]. *)
Record sendStream := mkSend {
  numOutstandingFrames : Z;
  retransmissionQueue : list StreamFrame;
  ctx : option (option write_error);
  streamID : Z;
  writeOffset : Z;
  cancelWriteErr : option write_error;
  closeForShutdownErr : option write_error;
  finishedWriting : bool;
  finSent : bool;
  completed : bool;
  dataForWriting : option bytes;
  nextFrame : option StreamFrame;
  writeChan : bool;
  deadline : Z;
  flowController : streamFlowController;
  fecProtected : bool;
}.

Inductive control_frame :=
| StreamDataBlocked (f : StreamDataBlockedFrame)
| ResetStream (f : ResetStreamFrame).

(** What the stream shares with the connection: the connection's flow
    controller, the control frames queued, the calls of [onStreamCompleted], and
    the number of calls of [onHasStreamData]. *)
Record world := mkWorld {
  w_conn : connectionFlowController;
  w_control : list control_frame;
  w_completed : list Z;
  w_hasData : nat;
}.

Definition newSendStreamWithFEC (id : Z) (fc : streamFlowController) (fec : bool) : sendStream :=
  mkSend 0 [] None id 0 None None false false false None None false 0 fc fec.

Definition newSendStream (id : Z) (fc : streamFlowController) : sendStream := newSendStreamWithFEC id fc false.

Definition set_retx (n : Z) (q : list StreamFrame) (s : sendStream) : sendStream :=
  mkSend n q (ctx s) (streamID s) (writeOffset s) (cancelWriteErr s) (closeForShutdownErr s) (finishedWriting s)
    (finSent s) (completed s) (dataForWriting s) (nextFrame s) (writeChan s) (deadline s) (flowController s) (fecProtected s).
Definition set_data (d : option bytes) (f : option StreamFrame) (s : sendStream) : sendStream :=
  mkSend (numOutstandingFrames s) (retransmissionQueue s) (ctx s) (streamID s) (writeOffset s) (cancelWriteErr s) (closeForShutdownErr s)
    (finishedWriting s) (finSent s) (completed s) d f (writeChan s) (deadline s) (flowController s) (fecProtected s).
Definition set_chan (b : bool) (s : sendStream) : sendStream :=
  mkSend (numOutstandingFrames s) (retransmissionQueue s) (ctx s) (streamID s) (writeOffset s) (cancelWriteErr s) (closeForShutdownErr s)
    (finishedWriting s) (finSent s) (completed s) (dataForWriting s) (nextFrame s) b (deadline s) (flowController s) (fecProtected s).
Definition set_deadline (t : Z) (s : sendStream) : sendStream :=
  mkSend (numOutstandingFrames s) (retransmissionQueue s) (ctx s) (streamID s) (writeOffset s) (cancelWriteErr s) (closeForShutdownErr s)
    (finishedWriting s) (finSent s) (completed s) (dataForWriting s) (nextFrame s) (writeChan s) t (flowController s) (fecProtected s).
Definition set_sent (o : Z) (c : streamFlowController) (s : sendStream) : sendStream :=
  mkSend (numOutstandingFrames s) (retransmissionQueue s) (ctx s) (streamID s) o (cancelWriteErr s) (closeForShutdownErr s)
    (finishedWriting s) (finSent s) (completed s) (dataForWriting s) (nextFrame s) (writeChan s) (deadline s) c (fecProtected s).
Definition set_fin (finished sent compl : bool) (s : sendStream) : sendStream :=
  mkSend (numOutstandingFrames s) (retransmissionQueue s) (ctx s) (streamID s) (writeOffset s) (cancelWriteErr s) (closeForShutdownErr s)
    finished sent compl (dataForWriting s) (nextFrame s) (writeChan s) (deadline s) (flowController s) (fecProtected s).
Definition set_errs (cancel shutdown : option write_error) (s : sendStream) : sendStream :=
  mkSend (numOutstandingFrames s) (retransmissionQueue s) (ctx s) (streamID s) (writeOffset s) cancel shutdown
    (finishedWriting s) (finSent s) (completed s) (dataForWriting s) (nextFrame s) (writeChan s) (deadline s) (flowController s) (fecProtected s).

(** Only the first call of [ctxCancel] has an effect. *)
Definition ctxCancel (e : option write_error) (s : sendStream) : sendStream :=
  mkSend (numOutstandingFrames s) (retransmissionQueue s) (match ctx s with None => Some e | c => c end) (streamID s) (writeOffset s)
    (cancelWriteErr s) (closeForShutdownErr s) (finishedWriting s) (finSent s) (completed s) (dataForWriting s) (nextFrame s)
    (writeChan s) (deadline s) (flowController s) (fecProtected s).

Definition set_conn (c : connectionFlowController) (w : world) : world := mkWorld c (w_control w) (w_completed w) (w_hasData w).

Abbreviation M := (st (sendStream * world)).

Definition get : M sendStream := λ '(s, w), (Ok s, (s, w)).
Definition modify (f : sendStream → sendStream) : M () := λ '(s, w), (Ok tt, (f s, w)).
Definition signalWrite : M () := modify (set_chan true).
Definition onHasStreamData : M () := λ '(s, w), (Ok tt, (s, mkWorld (w_conn w) (w_control w) (w_completed w) (S (w_hasData w)))).
Definition queueControlFrame (f : control_frame) : M () := λ '(s, w),
  (Ok tt, (s, mkWorld (w_conn w) (w_control w ++ [f]) (w_completed w) (w_hasData w))).
Definition onStreamCompleted : M () := λ '(s, w),
  (Ok tt, (s, mkWorld (w_conn w) (w_control w) (streamID s :: w_completed w) (w_hasData w))).

(** * Write

    [Write] gives up the mutex to wait for [writeChan]: [WBlocked] is a [Write] that
    waits, and [Write_resume] what it does once it holds the mutex again. *)
Inductive write_outcome :=
| WDone (n : Z) (err : option write_error)
| WBlocked.

Definition data_len (s : sendStream) : Z := blen (default [] (dataForWriting s)).

Definition canBufferStreamFrame (s : sendStream) : bool :=
  let l := match nextFrame s with Some f => StreamFrame_DataLen f | None => 0 end in
  l + data_len s <=? MaxPacketBufferSize.

Definition is_set {A} (x : option A) : bool := match x with Some _ => true | None => false end.

(** A frame of the pool; its [Fin] is left over from its last use, and set
    before the frame is returned by [popStreamFrame]. *)
Definition pool_frame (id offset : Z) (data : bytes) : StreamFrame := mkStreamFrame id offset data false true true false.

Definition with_data (d : bytes) (f : StreamFrame) : StreamFrame :=
  mkStreamFrame (sf_StreamID f) (sf_Offset f) d (sf_Fin f) (sf_DataLenPresent f) (sf_fromPool f) (sf_FECProtected f).
Definition with_fin (b : bool) (f : StreamFrame) : StreamFrame :=
  mkStreamFrame (sf_StreamID f) (sf_Offset f) (sf_Data f) b (sf_DataLenPresent f) (sf_fromPool f) (sf_FECProtected f).
Definition with_len (b : bool) (f : StreamFrame) : StreamFrame :=
  mkStreamFrame (sf_StreamID f) (sf_Offset f) (sf_Data f) (sf_Fin f) b (sf_fromPool f) (sf_FECProtected f).
Definition with_fec (b : bool) (f : StreamFrame) : StreamFrame :=
  mkStreamFrame (sf_StreamID f) (sf_Offset f) (sf_Data f) (sf_Fin f) (sf_DataLenPresent f) (sf_fromPool f) b.

(** The code after the loop. *)
Definition write_result (n bytesWritten : Z) (s : sendStream) : write_outcome :=
  if bytesWritten =? n then WDone bytesWritten None else
  match closeForShutdownErr s, cancelWriteErr s with
  | Some e, _ => WDone bytesWritten (Some e)
  | None, Some e => WDone bytesWritten (Some e)
  | None, None => WDone bytesWritten None
  end.

(** One round of the loop of [Write], for a buffer of [n] bytes. *)
Definition write_round (now n : Z) (notifiedSender : bool) : M write_outcome :=
  s ← get;
  let d := default [] (dataForWriting s) in
  if canBufferStreamFrame s && (0 <? blen d) then
    let f := match nextFrame s with
             | None => pool_frame (streamID s) (writeOffset s) d
             | Some f => with_data (sf_Data f ++ d) f
             end in
    _ ← modify (set_data None (Some f));
    _ ← (if notifiedSender then mret tt else onHasStreamData);
    s ← get;
    mret (write_result n n s)
  else
    let bytesWritten := n - blen d in
    if negb (deadline s =? 0) && negb (now <? deadline s) then
      _ ← modify (set_data None (nextFrame s));
      mret (WDone bytesWritten (Some errDeadline))
    else if negb (is_set (dataForWriting s)) || is_set (cancelWriteErr s) || is_set (closeForShutdownErr s)
    then mret (write_result n bytesWritten s)
    else
      _ ← (if notifiedSender then mret tt else onHasStreamData);
      mret WBlocked.

Definition Write (now : Z) (p : bytes) : M write_outcome :=
  s ← get;
  if finishedWriting s then mret (WDone 0 (Some ErrClosed)) else
  match cancelWriteErr s, closeForShutdownErr s with
  | Some e, _ => mret (WDone 0 (Some e))
  | None, Some e => mret (WDone 0 (Some e))
  | None, None =>
      if negb (deadline s =? 0) && negb (now <? deadline s) then mret (WDone 0 (Some errDeadline)) else
      if blen p =? 0 then mret (WDone 0 None) else
      _ ← modify (set_data (Some p) (nextFrame s));
      write_round now (blen p) false
  end.

Definition Write_resume (token : bool) (now : Z) (p : bytes) : M write_outcome :=
  _ ← modify (λ s, set_chan (writeChan s && negb token) s);
  write_round now (blen p) true.

(** * Popping frames *)

(** [f.Data[:n]] on a frame of the pool, whose buffer has capacity
    [MaxPacketBufferSize]. *)
Definition pool_slice (n : Z) : M () :=
  if (n <? 0) || (MaxPacketBufferSize <? n) then st_panic "slice bounds out of range" else mret tt.

Definition getDataForWriting (maxBytes : Z) : M bytes :=
  s ← get;
  let d := default [] (dataForWriting s) in
  if blen d <=? maxBytes then
    _ ← pool_slice (blen d);
    _ ← modify (set_data None (nextFrame s));
    _ ← signalWrite;
    mret d
  else
    _ ← pool_slice maxBytes;
    _ ← modify (set_data (Some (drop (Z.to_nat maxBytes) d)) (nextFrame s));
    s ← get;
    _ ← (if canBufferStreamFrame s then signalWrite else mret tt);
    mret (take (Z.to_nat maxBytes) d).

Definition popNewStreamFrameWithoutBuffer (f : StreamFrame) (maxBytes sendWindow : Z) : M (StreamFrame * bool) :=
  maxDataLen ← st_lift (StreamFrame_MaxDataLen f maxBytes);
  f ← (if maxDataLen =? 0 then mret f else
       d ← getDataForWriting (Z.min maxDataLen sendWindow);
       mret (with_data d f));
  s ← get;
  mret (f, is_set (dataForWriting s) || is_set (nextFrame s) || finishedWriting s).

Definition popNewStreamFrame (maxBytes sendWindow : Z) : M (option StreamFrame * bool) :=
  s ← get;
  match nextFrame s with
  | Some nextF =>
      maxDataLen ← st_lift (StreamFrame_MaxDataLen nextF maxBytes);
      let maxDataLen := Z.min sendWindow maxDataLen in
      if maxDataLen <? StreamFrame_DataLen nextF then
        _ ← pool_slice (StreamFrame_DataLen nextF - maxDataLen);
        let rest := pool_frame (streamID s) (i64 (writeOffset s + maxDataLen)) (drop (Z.to_nat maxDataLen) (sf_Data nextF)) in
        _ ← modify (set_data (dataForWriting s) (Some rest));
        mret (Some (with_data (take (Z.to_nat maxDataLen) (sf_Data nextF)) nextF), true)
      else
        _ ← modify (set_data (dataForWriting s) None);
        _ ← signalWrite;
        mret (Some nextF, is_set (dataForWriting s))
  | None =>
      '(f, hasMoreData) ← popNewStreamFrameWithoutBuffer (pool_frame (streamID s) (writeOffset s) []) maxBytes sendWindow;
      if (blen (sf_Data f) =? 0) && negb (sf_Fin f) then mret (None, hasMoreData)
      else mret (Some f, hasMoreData)
  end.

Definition maybeGetRetransmission (f : StreamFrame) (q : list StreamFrame) (maxBytes : Z) : M (option StreamFrame * bool) :=
  '(newFrame, needsSplit, f) ← st_lift (StreamFrame_MaybeSplitOffFrame f maxBytes);
  if (needsSplit : bool) then
    _ ← modify (λ s, set_retx (numOutstandingFrames s) (f :: q) s);
    mret (newFrame, true)
  else
    _ ← modify (λ s, set_retx (numOutstandingFrames s) q s);
    mret (Some f, negb (Nat.eqb (length q) 0)).

(** The send window is empty. *)
Definition popBlocked : M (option StreamFrame * bool) := λ '(s, w),
  let '(isBlocked, offset, b) := IsNewlyBlocked (fc_base (flowController s)) in
  let s := set_sent (writeOffset s) (set_base b (flowController s)) s in
  if (isBlocked : bool) then
    let '(r, sw) := queueControlFrame (StreamDataBlocked (mkStreamDataBlockedFrame (streamID s) offset)) (s, w) in
    (Ok (None, false), sw)
  else (Ok (None, true), (s, w)).

(** What is done with a frame cut from the data. *)
Definition popSent (f : StreamFrame) (hasMoreData : bool) : M (option StreamFrame * bool) := λ '(s, w),
  let dataLen := StreamFrame_DataLen f in
  let '(s, w) := if 0 <? dataLen then
      let '(c, conn) := AddBytesSent dataLen (flowController s) (w_conn w) in
      (set_sent (i64 (writeOffset s + dataLen)) c s, set_conn conn w)
    else (s, w) in
  let fin := finishedWriting s && negb (is_set (dataForWriting s)) && negb (is_set (nextFrame s)) && negb (finSent s) in
  (Ok (Some (with_fin fin f), hasMoreData), (if fin then set_fin (finishedWriting s) true (completed s) s else s, w)).

(** A frame that is not a retransmission.  [f.DataLen()] on a nil frame panics. *)
Definition popNew (maxBytes : Z) : M (option StreamFrame * bool) :=
  s ← get;
  if (data_len s =? 0) && negb (is_set (nextFrame s)) then
    if finishedWriting s && negb (finSent s) then
      _ ← modify (λ s, set_fin (finishedWriting s) true (completed s) s);
      mret (Some (mkStreamFrame (streamID s) (writeOffset s) [] true true false false), false)
    else mret (None, false)
  else
    sendWindow ← (λ '(s, w), (Ok (SendWindowSize (flowController s) (w_conn w)), (s, w)));
    if sendWindow =? 0 then popBlocked else
    '(f, hasMoreData) ← popNewStreamFrame maxBytes sendWindow;
    match f with
    | None => st_panic "invalid memory address or nil pointer dereference"
    | Some f => popSent f hasMoreData
    end.

Definition popNewOrRetransmittedStreamFrame (maxBytes : Z) : M (option StreamFrame * bool) :=
  s ← get;
  if is_set (cancelWriteErr s) || is_set (closeForShutdownErr s) then mret (None, false) else
  match retransmissionQueue s with
  | [] => popNew maxBytes
  | f :: q =>
      '(f, hasMoreRetransmissions) ← maybeGetRetransmission f q maxBytes;
      match f with
      | Some f => mret (Some f, true)
      | None => if (hasMoreRetransmissions : bool) then mret (None, true) else popNew maxBytes
      end
  end.

Definition popStreamFrame (maxBytes : Z) : M (option StreamFrame * bool) :=
  '(f, hasMoreData) ← popNewOrRetransmittedStreamFrame maxBytes;
  match f with
  | None => mret (None, hasMoreData)
  | Some f =>
      _ ← modify (λ s, set_retx (i64 (numOutstandingFrames s + 1)) (retransmissionQueue s) s);
      s ← get;
      mret (Some (with_fec (fecProtected s) f), hasMoreData)
  end.

Definition hasData (s : sendStream) : bool := 0 <? data_len s.

(** * Completion, cancellation and acknowledgements *)

Definition isNewlyCompleted : M bool :=
  s ← get;
  let c := (finSent s || is_set (cancelWriteErr s)) && (numOutstandingFrames s =? 0) && Nat.eqb (length (retransmissionQueue s)) 0 in
  if c && negb (completed s) then
    _ ← modify (λ s, set_fin (finishedWriting s) (finSent s) true s); mret true
  else mret false.

Definition Close : M (option go_error) :=
  s ← get;
  if is_set (closeForShutdownErr s) then mret None else
  if is_set (cancelWriteErr s) then mret (Some (ErrMsg "close called for canceled stream")) else
  _ ← modify (λ s, set_fin true (finSent s) (completed s) (ctxCancel None s));
  _ ← onHasStreamData;
  mret None.

Definition cancelWriteImpl (errorCode : Z) (remote : bool) : M () :=
  s ← get;
  if is_set (cancelWriteErr s) then mret tt else
  let e := StreamError (streamID s) errorCode remote in
  _ ← modify (λ s, set_retx 0 [] (ctxCancel (Some e) (set_errs (Some e) (closeForShutdownErr s) s)));
  newlyCompleted ← isNewlyCompleted;
  _ ← signalWrite;
  s ← get;
  _ ← queueControlFrame (ResetStream (mkResetStreamFrame (streamID s) errorCode (writeOffset s)));
  if (newlyCompleted : bool) then onStreamCompleted else mret tt.

Definition CancelWrite (errorCode : Z) : M () := cancelWriteImpl errorCode false.

Definition handleStopSendingFrame (f : StopSendingFrame) : M () := cancelWriteImpl (ss_ErrorCode f) true.

Definition updateSendWindow (limit : Z) : M () := λ '(s, w),
  let '(updated, b) := UpdateSendWindow limit (fc_base (flowController s)) in
  let s := set_sent (writeOffset s) (set_base b (flowController s)) s in
  if (updated : bool) && (is_set (dataForWriting s) || is_set (nextFrame s)) then onHasStreamData (s, w) else (Ok tt, (s, w)).

Definition SetWriteDeadline (t : Z) : M () := _ ← modify (set_deadline t); signalWrite.

Definition closeForShutdown (e : go_error) : M () :=
  _ ← modify (λ s, set_errs (cancelWriteErr s) (Some (Shutdown e)) (ctxCancel (Some (Shutdown e)) s)); signalWrite.

Definition OnAcked (f : StreamFrame) : M () :=
  s ← get;
  if is_set (cancelWriteErr s) then mret tt else
  let n := i64 (numOutstandingFrames s - 1) in
  _ ← modify (set_retx n (retransmissionQueue s));
  if n <? 0 then st_panic "numOutStandingFrames negative" else
  newlyCompleted ← isNewlyCompleted;
  if (newlyCompleted : bool) then onStreamCompleted else mret tt.

Definition OnLost (f : StreamFrame) : M () :=
  s ← get;
  if is_set (cancelWriteErr s) then mret tt else
  let n := i64 (numOutstandingFrames s - 1) in
  _ ← modify (set_retx n (retransmissionQueue s ++ [with_len true f]));
  if n <? 0 then st_panic "numOutStandingFrames negative" else
  onHasStreamData.

End sendStream.
