(* ===== verification/SendCorrect.v ===== *)
(** Correctness of the send side of a stream: what its frames carry, when it is
    complete, and what [Write] promises. *)

From S2P Require Import Prelude.
From S2P Require Import Varint.
From S2P Require Import Protocol.
From S2P Require Import Frames.
From S2P Require Import FlowControl.
From S2P Require Import SendStream.

Module sendCorrect.
Import protocol wire flowcontrol sendStream.

(** * Frames of a stream *)

#[global] Instance StreamFrame_eq_dec : EqDecision StreamFrame.
Proof. solve_decision. Defined.

(** The data of the frame is the part of the bytes sent at its offset. *)
Definition carries (sent : bytes) (f : StreamFrame) : Prop :=
  ∃ l1 l2, sent = l1 ++ sf_Data f ++ l2 ∧ blen l1 = sf_Offset f.

Definition covers (x : Z) (f : StreamFrame) : Prop := sf_Offset f ≤ x < sf_Offset f + blen (sf_Data f).

(** A frame of the stream [id] after [sent] was sent; [fin] if the end of the
    stream was sent. *)
Record frame_ok (id : Z) (sent : bytes) (fin : bool) (f : StreamFrame) : Prop := {
  f_id : sf_StreamID f = id;
  f_carries : carries sent f;
  f_len : blen (sf_Data f) ≤ MaxPacketBufferSize;
  f_nonempty : 0 < blen (sf_Data f) ∨ sf_Fin f = true;
  f_fin : sf_Fin f = true → fin = true ∧ sf_Offset f + blen (sf_Data f) = blen sent;
}.

Lemma carries_bounds sent f : carries sent f → 0 ≤ sf_Offset f ∧ sf_Offset f + blen (sf_Data f) ≤ blen sent.
Proof.
  intros (l1 & l2 & -> & <-). rewrite !blen_app. pose proof (blen_nonneg l1). pose proof (blen_nonneg l2). lia.
Qed.

Lemma carries_app sent d f : carries sent f → carries (sent ++ d) f.
Proof. intros (l1 & l2 & -> & ?). exists l1, (l2 ++ d). by rewrite <- !app_assoc. Qed.

Lemma frame_ok_app id sent d f : frame_ok id sent false f → frame_ok id (sent ++ d) false f.
Proof. intros [? ? ? ? Hf]. split; try done; [by apply carries_app|]. intros H%Hf. naive_solver. Qed.

Lemma frame_ok_fin id sent fin f : frame_ok id sent false f → frame_ok id sent fin f.
Proof. intros [? ? ? ? Hf]. split; try done. intros H%Hf. naive_solver. Qed.

(** Only offset, data and [Fin] matter. *)
Definition same_frame (f g : StreamFrame) : Prop :=
  sf_StreamID g = sf_StreamID f ∧ sf_Offset g = sf_Offset f ∧ sf_Data g = sf_Data f ∧ sf_Fin g = sf_Fin f.

Lemma frame_ok_same id sent fin f g : same_frame f g → frame_ok id sent fin f → frame_ok id sent fin g.
Proof. intros (E1 & E2 & E3 & E4) [? Hc ? ? ?]. split; rewrite ?E1, ?E2, ?E3, ?E4; try done. unfold carries. by rewrite E2, E3. Qed.

Lemma covers_same x f g : same_frame f g → covers x f → covers x g.
Proof. intros (E1 & E2 & E3 & E4). unfold covers. by rewrite E2, E3. Qed.

Lemma frame_ok_sendable id sent fin f : quicvarint.encodable id → blen sent ≤ MaxByteCount → frame_ok id sent fin f → StreamFrame_sendable f.
Proof.
  intros Hid Hmax [? Hc ? _ _]. destruct (carries_bounds _ _ Hc). unfold StreamFrame_sendable, StreamFrame_DataLen.
  split_and!; [congruence|done|lia|done].
Qed.

(** The two parts of a frame that was split. *)
Lemma frame_ok_split id sent fin f new f' : frame_ok id sent fin f → sf_Data f = sf_Data new ++ sf_Data f' →
  sf_Data new ≠ [] → sf_Data f' ≠ [] → sf_StreamID new = sf_StreamID f → sf_StreamID f' = sf_StreamID f →
  sf_Offset new = sf_Offset f → sf_Offset f' = sf_Offset f + blen (sf_Data new) → sf_Fin new = false → sf_Fin f' = sf_Fin f →
  frame_ok id sent fin new ∧ frame_ok id sent fin f' ∧ ∀ x, covers x f ↔ covers x new ∨ covers x f'.
Proof.
  intros [Hid (l1 & l2 & Hs & Hl) Hlen Hne Hfin] Hd Hn1 Hn2 E1 E2 E3 E4 E5 E6.
  assert (H1 : 0 < blen (sf_Data new)) by (destruct (sf_Data new); [done|rewrite blen_cons; pose proof (blen_nonneg l); lia]).
  assert (H2 : 0 < blen (sf_Data f')) by (destruct (sf_Data f'); [done|rewrite blen_cons; pose proof (blen_nonneg l); lia]).
  rewrite Hd in *. rewrite blen_app in *. split_and!.
  - split; try congruence; [|lia|by left]. exists l1, (sf_Data f' ++ l2). rewrite <- app_assoc in Hs. by rewrite E3.
  - split; try congruence; [|lia|by left|].
    + exists (l1 ++ sf_Data new), l2. rewrite <- !app_assoc in *. rewrite blen_app. split; [done|lia].
    + rewrite E6. intros H%Hfin. split; [apply H|lia].
  - intros x. unfold covers. rewrite Hd, blen_app. lia.
Qed.

(** * The invariant *)

(** The frames in flight (popped, and neither acknowledged nor lost), those
    acknowledged, all frames popped, the bytes sent, the bytes accepted by
    [Write], and the buffer of a [Write] that waits. *)
Record hist := mkHist {
  h_flight : list StreamFrame;
  h_acked : list StreamFrame;
  h_popped : list StreamFrame;
  h_sent : bytes;
  h_accepted : bytes;
  h_blocked : option bytes;
}.

Definition next_bytes (s : sendStream) : bytes := match nextFrame s with Some f => sf_Data f | None => [] end.
Definition data_bytes (s : sendStream) : bytes := default [] (dataForWriting s).
Definition no_errs (s : sendStream) : Prop := cancelWriteErr s = None ∧ closeForShutdownErr s = None.

Record conn_ok (c : connectionFlowController) : Prop := {
  n_sent : 0 ≤ bytesSent c ≤ MaxByteCount;
  n_window : sendWindow c ≤ MaxByteCount;
}.

(** Frames in flight or queued for retransmission or acknowledged. *)
Definition known (s : sendStream) (h : hist) (f : StreamFrame) : Prop :=
  f ∈ h_flight h ∨ f ∈ retransmissionQueue s ∨ f ∈ h_acked h.

Record good (s : sendStream) (w : world) (h : hist) : Prop := {
  g_id : quicvarint.encodable (streamID s);
  g_off : writeOffset s = blen (h_sent h);
  g_fc : bytesSent (fc_base (flowController s)) = writeOffset s ∧ writeOffset s ≤ sendWindow (fc_base (flowController s)) ≤ MaxByteCount;
  g_conn : conn_ok (w_conn w);
  g_next : ∀ f, nextFrame s = Some f → sf_StreamID f = streamID s ∧ sf_Offset f = writeOffset s ∧ sf_DataLenPresent f = true ∧
    0 < blen (sf_Data f) ≤ MaxPacketBufferSize;
  g_data : ∀ d, dataForWriting s = Some d → 0 < blen d;
  g_frames : ∀ f, known s h f ∨ f ∈ h_popped h → frame_ok (streamID s) (h_sent h) (finSent s) f;
  g_cover : cancelWriteErr s = None → ∀ x, 0 ≤ x < writeOffset s → ∃ f, known s h f ∧ covers x f;
  g_cover_fin : cancelWriteErr s = None → finSent s = true → ∃ f, known s h f ∧ sf_Fin f = true;
  g_num : cancelWriteErr s = None → numOutstandingFrames s = blen (h_flight h);
  g_fin : finSent s = true → finishedWriting s = true ∧ nextFrame s = None ∧ dataForWriting s = None;
  g_compl : w_completed w = if completed s then [streamID s] else [];
  g_done : completed s = true → is_Some (cancelWriteErr s) ∨ finSent s = true ∧ h_flight h = [] ∧ retransmissionQueue s = [];
  g_acc : match h_blocked h with
    | None => h_sent h ++ next_bytes s = h_accepted h ∧ (no_errs s → dataForWriting s = None)
    | Some p => 0 < blen p ∧ ∃ k, (k ≤ length p)%nat ∧ data_bytes s = drop k p ∧ h_sent h ++ next_bytes s = h_accepted h ++ take k p
    end;
  g_wake : is_Some (h_blocked h) → dataForWriting s = None ∨ ¬ no_errs s → writeChan s = true;
}.

(** * Cutting a frame from the data *)

Lemma window_bounds s w h : good s w h →
  0 ≤ SendWindowSize (flowController s) (w_conn w) ∧
  writeOffset s + SendWindowSize (flowController s) (w_conn w) ≤ sendWindow (fc_base (flowController s)) ∧
  (0 < SendWindowSize (flowController s) (w_conn w) → bytesSent (w_conn w) + SendWindowSize (flowController s) (w_conn w) ≤ sendWindow (w_conn w)).
Proof.
  intros Hg. destruct (g_fc _ _ _ Hg) as [E Hw]. destruct (g_conn _ _ _ Hg). unfold MaxByteCount in *.
  pose proof (g_off _ _ _ Hg). pose proof (blen_nonneg (h_sent h)).
  unfold SendWindowSize, connection_SendWindowSize, sendWindowSize.
  destruct (Z.ltb_spec (sendWindow (fc_base (flowController s))) (bytesSent (fc_base (flowController s)))); [lia|].
  rewrite (i64_small (sendWindow (fc_base (flowController s)) - _)) by lia.
  destruct (Z.ltb_spec (sendWindow (w_conn w)) (bytesSent (w_conn w))); [split_and!; lia|].
  rewrite i64_small by lia. split_and!; lia.
Qed.

(** The length of a frame whose data has at most the length [MaxDataLen] allows. *)
Lemma MaxDataLen_fits f m : StreamFrame_sendable f → sf_DataLenPresent f = true → 128 ≤ m ≤ MaxPacketBufferSize + 2 →
  ∃ n, StreamFrame_MaxDataLen f m = Ok n ∧ 0 < n < MaxPacketBufferSize ∧
    ∀ d, blen d ≤ n → ∀ fin b fec, sf_Offset f + blen d ≤ MaxByteCount → ∃ l,
      StreamFrame_Length (mkStreamFrame (sf_StreamID f) (sf_Offset f) d fin true b fec) = Ok l ∧ l ≤ m.
Proof.
  intros Hs Hp Hm. unfold MaxPacketBufferSize in *. destruct (StreamFrame_MaxDataLen_spec f m Hs ltac:(lia)) as (n & Hn & H0 & Hfit & _ & Hz).
  rewrite Hp in *. destruct (sendable_encodable f Hs) as (H1 & H2 & _ & H4).
  assert (Hpos : 0 < n) by (destruct (Z.eq_dec n 0) as [E|]; [specialize (Hz E); lia|lia]). specialize (Hfit Hpos).
  pose proof (quicvarint.size_nonneg n).
  assert (1 ≤ quicvarint.size n) by (apply quicvarint.size_range; unfold quicvarint.encodable, quicvarint.Max, quicvarint.maxVarInt8; lia).
  exists n. split_and!; [done|lia|lia|]. intros d Hd fin b fec Hmax. eexists. split.
  - apply StreamFrame_Length_eq. destruct Hs as (? & ? & _ & _). unfold StreamFrame_sendable, StreamFrame_DataLen, MaxPacketBufferSize.
    simpl. split_and!; [done|done|done|lia].
  - simpl. unfold StreamFrame_hdr, StreamFrame_DataLen in *. simpl. pose proof (blen_nonneg d).
    pose proof (quicvarint.size_mono (blen d) n ltac:(lia)). unfold quicvarint.Max, quicvarint.maxVarInt8 in *. lia.
Qed.

(** A frame [f] cut from the buffered data: [j] bytes left [dataForWriting]. *)
Record cut (m window : Z) (s s' : sendStream) (f : StreamFrame) (j : nat) : Prop := {
  t_same : ∃ d n c, s' = set_chan c (set_data d n s);
  t_frame : sf_StreamID f = streamID s ∧ sf_Offset f = writeOffset s ∧ sf_DataLenPresent f = true;
  t_len : 0 < blen (sf_Data f) ≤ window ∧ blen (sf_Data f) ≤ MaxPacketBufferSize;
  t_fits : ∀ fin fec, ∃ l, StreamFrame_Length (with_fec fec (with_fin fin f)) = Ok l ∧ l ≤ m;
  t_next : ∀ g, nextFrame s' = Some g → sf_StreamID g = streamID s ∧ sf_Offset g = writeOffset s + blen (sf_Data f) ∧
    sf_DataLenPresent g = true ∧ 0 < blen (sf_Data g) ≤ MaxPacketBufferSize;
  t_data : ∀ d, dataForWriting s' = Some d → 0 < blen d;
  t_bytes : sf_Data f ++ next_bytes s' = next_bytes s ++ take j (data_bytes s) ∧ data_bytes s' = drop j (data_bytes s);
  t_chan : (dataForWriting s' = None → writeChan s' = true ∨ dataForWriting s = None) ∧ (writeChan s = true → writeChan s' = true);
  t_none : dataForWriting s = None → dataForWriting s' = None;
}.

Lemma take_len {A} (l : list A) n : 0 ≤ n ≤ blen l → blen (take (Z.to_nat n) l) = n.
Proof. unfold blen. rewrite length_take. lia. Qed.
Lemma drop_len {A} (l : list A) n : 0 ≤ n ≤ blen l → blen (drop (Z.to_nat n) l) = blen l - n.
Proof. unfold blen. rewrite length_drop. lia. Qed.

Lemma cut_next s w h m f : good s w h → nextFrame s = Some f → 128 ≤ m ≤ MaxPacketBufferSize + 2 →
  let window := SendWindowSize (flowController s) (w_conn w) in
  0 < window → ∃ g more s', popNewStreamFrame m window (s, w) = (Ok (Some g, more), (s', w)) ∧ cut m window s s' g 0.
Proof.
  intros Hg Hf Hm window Hw. destruct (g_next _ _ _ Hg f Hf) as (Hid & Hoff & Hdl & Hlen).
  destruct (window_bounds _ _ _ Hg) as (_ & Hb & _). fold window in Hb. destruct (g_fc _ _ _ Hg) as [_ Hfc].
  pose proof (g_off _ _ _ Hg). pose proof (blen_nonneg (h_sent h)).
  destruct (MaxDataLen_fits (with_data [] f) m) as (n & Hn & Hpos & Hfits); [|done|done|].
  { unfold StreamFrame_sendable, StreamFrame_DataLen, MaxPacketBufferSize in *. change (blen (sf_Data (with_data [] f))) with 0.
    change (sf_Offset (with_data [] f)) with (sf_Offset f). change (sf_StreamID (with_data [] f)) with (sf_StreamID f). rewrite Hid.
    split_and!; [apply Hg|lia|lia|lia]. }
  assert (Hn' : StreamFrame_MaxDataLen f m = Ok n) by exact Hn.
  unfold popNewStreamFrame. rewrite (st_bind_ok _ _ _ s (s, w)) by done. rewrite Hf.
  rewrite (st_bind_ok _ _ _ n (s, w)) by (unfold st_lift; by rewrite Hn').
  cbv zeta. unfold StreamFrame_DataLen. set (k := Z.min window n).
  destruct (Z.ltb_spec k (blen (sf_Data f))) as [Hlt|Hge].
  - rewrite (st_bind_ok _ _ _ tt (s, w)).
    2: { unfold pool_slice. rewrite (proj2 (Z.ltb_ge _ _)), (proj2 (Z.ltb_ge _ _)) by (unfold k; lia). done. }
    set (rest := pool_frame _ _ _). eexists _, true, (set_data (dataForWriting s) (Some rest) s). split; [reflexivity|].
    assert (Hk : blen (take (Z.to_nat k) (sf_Data f)) = k) by (apply take_len; unfold k; lia).
    split; simpl; rewrite ?Hk; try done.
    + exists (dataForWriting s), (Some rest), (writeChan s). by destruct s.
    + unfold k. lia.
    + intros fin fec. destruct f as [? ? ? ? [] ? ?]; [|done]. simpl in *. apply Hfits; simpl; rewrite ?Hk; unfold k in *; lia.
    + intros g [= <-]. simpl. unfold MaxByteCount in *. rewrite i64_small by (unfold k; lia). rewrite drop_len by (unfold k; lia). split_and!; try done; unfold k; lia.
    + intros d Hd. by apply (g_data _ _ _ Hg).
    + unfold next_bytes. rewrite Hf. simpl. by rewrite take_drop, app_nil_r.
    + split; [by auto|done].
  - eexists f, _, (set_chan true (set_data (dataForWriting s) None s)). split; [reflexivity|].
    split; simpl; try done.
    + by eexists _, _, _.
    + unfold k in Hge. lia.
    + intros fin fec. destruct f as [? ? ? ? [] ? ?]; [|done]. simpl in *. apply Hfits; simpl; unfold k in *; lia.
    + intros d Hd. by apply (g_data _ _ _ Hg).
    + unfold next_bytes. rewrite Hf. simpl. done.
    + split; [by auto|done].
Qed.

Lemma cut_data s w h m d : good s w h → nextFrame s = None → dataForWriting s = Some d → 128 ≤ m ≤ MaxPacketBufferSize + 2 →
  let window := SendWindowSize (flowController s) (w_conn w) in
  0 < window → ∃ g more s' j, popNewStreamFrame m window (s, w) = (Ok (Some g, more), (s', w)) ∧ cut m window s s' g j.
Proof.
  intros Hg Hf Hd Hm window Hw. pose proof (g_data _ _ _ Hg d Hd) as Hdpos.
  destruct (window_bounds _ _ _ Hg) as (_ & Hb & _). fold window in Hb. destruct (g_fc _ _ _ Hg) as [_ Hfc].
  pose proof (g_off _ _ _ Hg). pose proof (blen_nonneg (h_sent h)). set (f := pool_frame (streamID s) (writeOffset s) []).
  destruct (MaxDataLen_fits f m) as (n & Hn & Hpos & Hfits); [|done|done|].
  { unfold StreamFrame_sendable, StreamFrame_DataLen, MaxPacketBufferSize in *. change (blen (sf_Data f)) with 0.
    change (sf_Offset f) with (writeOffset s). split_and!; [apply Hg|lia|lia|lia]. }
  unfold popNewStreamFrame. rewrite (st_bind_ok _ _ _ s (s, w)) by done. rewrite Hf. fold f.
  unfold popNewStreamFrameWithoutBuffer. rewrite st_bind_assoc, (st_bind_ok _ _ _ n (s, w)) by (unfold st_lift; by rewrite Hn).
  rewrite (proj2 (Z.eqb_neq n 0)) by lia. rewrite !st_bind_assoc. set (k := Z.min n window).
  assert (Hget : ∃ d' c, getDataForWriting k (s, w) = (Ok (take (Z.to_nat k) d), (set_chan c (set_data d' None s), w)) ∧
    default [] d' = drop (Z.to_nat k) d ∧ (∀ x, d' = Some x → 0 < blen x) ∧ (d' = None → c = true) ∧ (writeChan s = true → c = true)).
  { unfold getDataForWriting. rewrite (st_bind_ok _ _ _ s (s, w)) by done. rewrite Hd, Hf. change (default [] (Some d)) with d. unfold pool_slice.
    destruct (Z.leb_spec (blen d) k).
    - rewrite (proj2 (Z.ltb_ge (blen d) _)), (proj2 (Z.ltb_ge MaxPacketBufferSize _)) by (unfold k in *; lia).
      exists None, true. rewrite take_ge, drop_ge by (unfold blen in *; lia). by split_and!.
    - rewrite (proj2 (Z.ltb_ge k _)), (proj2 (Z.ltb_ge MaxPacketBufferSize _)) by (unfold k in *; lia).
      set (d2 := drop (Z.to_nat k) d). exists (Some d2), (canBufferStreamFrame (set_data (Some d2) None s) || writeChan s).
      split_and!; try done.
      + unfold mbind, st_bind, get, modify, mret, st_ret. simpl. by destruct (canBufferStreamFrame _); destruct s.
      + intros x [= <-]. unfold d2. rewrite drop_len by (unfold k in *; lia). lia.
      + intros ->. apply orb_true_r. }
  destruct Hget as (d' & c & Hget & Hdrop & Hd' & Hc1 & Hc2). rewrite (st_bind_ok _ _ _ _ _ Hget).
  assert (Hk : blen (take (Z.to_nat k) d) = Z.min k (blen d)) by (unfold blen; rewrite length_take; unfold k; lia).
  eexists (with_data (take (Z.to_nat k) d) f), _, (set_chan c (set_data d' None s)), (Z.to_nat k). split.
  { unfold mbind, st_bind, mret, st_ret. simpl. rewrite (proj2 (Z.eqb_neq _ 0)) by (rewrite Hk; unfold k; lia). simpl. reflexivity. }
  split; simpl; try done.
  - by eexists _, _, _.
  - rewrite Hk. unfold k. lia.
  - intros fin fec. apply Hfits; simpl; rewrite Hk; unfold k; lia.
  - unfold next_bytes, data_bytes. rewrite Hf, Hd. simpl. by rewrite app_nil_r.
  - split; [|done]. intros E. left. auto.
  - by rewrite Hd.
Qed.

(** * Popping a frame *)

Lemma same_fec b f : same_frame f (with_fec b f).
Proof. done. Qed.

Definition pop_hist (f : StreamFrame) (d : bytes) (h : hist) : hist :=
  mkHist (f :: h_flight h) (h_acked h) (f :: h_popped h) (h_sent h ++ d) (h_accepted h) (h_blocked h).

Definition count (s : sendStream) : sendStream := set_retx (i64 (numOutstandingFrames s + 1)) (retransmissionQueue s) s.

(** What happens to the queue and to the frames when a frame is popped. *)
Lemma count_ok s h f : cancelWriteErr s = None → numOutstandingFrames s = blen (h_flight h) → blen (h_flight h) < MaxByteCount →
  numOutstandingFrames (count s) = blen (f :: h_flight h).
Proof.
  intros _ Hn Hb. unfold MaxByteCount in *. pose proof (blen_nonneg (h_flight h)). simpl. rewrite blen_cons, i64_small; lia.
Qed.

(** The head of the retransmission queue was popped, or the first part of it. *)
Lemma good_retx s w h f q f' rest : good s w h → no_errs s → retransmissionQueue s = f :: q →
  blen (h_flight h) < MaxByteCount → frame_ok (streamID s) (h_sent h) (finSent s) f' →
  (∀ g, g ∈ rest → g ∈ q ∨ frame_ok (streamID s) (h_sent h) (finSent s) g) → (∀ g, g ∈ q → g ∈ rest) →
  (∀ x, covers x f → covers x f' ∨ ∃ g, g ∈ rest ∧ covers x g) →
  (sf_Fin f = true → sf_Fin f' = true ∨ ∃ g, g ∈ rest ∧ sf_Fin g = true) →
  good (count (set_retx (numOutstandingFrames s) rest s)) w (pop_hist f' [] h).
Proof.
  intros Hg [Hc Hs] Hq Hb Hf' Hr1 Hr2 Hcov Hfin. destruct Hg. 
  assert (Hnd : completed s = false).
  { destruct (completed s) eqn:E; [|done]. destruct (g_done0 eq_refl) as [[? ?]|(_ & _ & ?)]; congruence. }
  split; simpl; rewrite ?app_nil_r; try done.
  - intros g Hk. unfold known in *. simpl in *. rewrite Hq in *. setoid_rewrite elem_of_cons in Hk. setoid_rewrite elem_of_cons in g_frames0.
    destruct Hk as [[[->|?]|[Hin|?]]|[->|?]]; try done; [auto 10| |auto 10|auto 10]. destruct (Hr1 g Hin); auto 10.
  - intros _ x Hx. destruct (g_cover0 Hc x Hx) as (g & Hk & Hx'). unfold known in *. simpl. rewrite Hq in *.
    destruct Hk as [?|[[->|?]%elem_of_cons|?]].
    + exists g. rewrite elem_of_cons. auto.
    + destruct (Hcov x Hx') as [?|(g' & ? & ?)]; [exists f'|exists g']; rewrite elem_of_cons; auto.
    + exists g. rewrite elem_of_cons. auto.
    + exists g. rewrite elem_of_cons. auto.
  - intros _ Hx. destruct (g_cover_fin0 Hc Hx) as (g & Hk & Hx'). unfold known in *. simpl. rewrite Hq in *.
    destruct Hk as [?|[[->|?]%elem_of_cons|?]].
    + exists g. rewrite elem_of_cons. auto.
    + destruct (Hfin Hx') as [?|(g' & ? & ?)]; [exists f'|exists g']; rewrite elem_of_cons; auto.
    + exists g. rewrite elem_of_cons. auto.
    + exists g. rewrite elem_of_cons. auto.
  - intros _. exact (count_ok s h f' Hc (g_num0 Hc) Hb).
  - congruence.
Qed.

(** The end of the stream was sent in a frame of its own. *)
Lemma good_pop_fin s w h f : good s w h → no_errs s → retransmissionQueue s = [] → blen (h_flight h) < MaxByteCount →
  finishedWriting s = true → finSent s = false → nextFrame s = None → dataForWriting s = None →
  sf_StreamID f = streamID s → sf_Offset f = writeOffset s → sf_Data f = [] → sf_Fin f = true →
  good (count (set_fin (finishedWriting s) true (completed s) s)) w (pop_hist f [] h).
Proof.
  intros Hg [Hc Hs] Hq Hb Hw Hns Hn Hd E1 E2 E3 E4. destruct Hg.
  assert (Hnd : completed s = false).
  { destruct (completed s) eqn:E; [|done]. destruct (g_done0 eq_refl) as [[? ?]|(? & _ & ?)]; congruence. }
  assert (Hf : frame_ok (streamID s) (h_sent h) true f).
  { split; rewrite ?E3; try done; [|by right|].
    - exists (h_sent h), []. rewrite E3, app_nil_r. split; [done|congruence].
    - intros _. rewrite E2, blen_nil. split; [done|lia]. }
  split; simpl; rewrite ?app_nil_r; try done.
  - intros g Hk. unfold known in *. simpl in *. rewrite Hq, Hns in *. setoid_rewrite elem_of_cons in Hk.
    destruct Hk as [[[->|?]|[?|?]]|[->|?]]; try done; apply frame_ok_fin; auto.
  - intros _ x Hx. destruct (g_cover0 Hc x Hx) as (g & Hk & Hx'). exists g. unfold known in *. simpl. rewrite elem_of_cons. intuition.
  - intros _ _. exists f. unfold known. simpl. rewrite elem_of_cons. auto.
  - intros _. exact (count_ok s h f Hc (g_num0 Hc) Hb).
  - congruence.
Qed.

Lemma cut_not_fin m window s s1 w h f j : good s w h → cut m window s s1 f j → finSent s = false.
Proof.
  intros Hg Ht. destruct (finSent s) eqn:E; [|done]. destruct (g_fin _ _ _ Hg E) as (_ & Hn & Hd).
  destruct (t_bytes _ _ _ _ _ _ Ht) as [Hb _]. destruct (t_len _ _ _ _ _ _ Ht) as [[Hl _] _].
  assert (next_bytes s = []) as E1 by (unfold next_bytes; by rewrite Hn). assert (data_bytes s = []) as E2 by (unfold data_bytes; by rewrite Hd).
  rewrite E1, E2, take_nil in Hb. apply app_eq_nil in Hb as [Hb _]. rewrite Hb in Hl. done.
Qed.

(** The bytes accepted by [Write], after a frame was cut. *)
Lemma cut_acc m window s s1 w h f j : good s w h → no_errs s → cut m window s s1 f j →
  match h_blocked h with
  | None => (h_sent h ++ sf_Data f) ++ next_bytes s1 = h_accepted h ∧ (no_errs s1 → dataForWriting s1 = None)
  | Some p => 0 < blen p ∧ ∃ k, (k ≤ length p)%nat ∧ data_bytes s1 = drop k p ∧
      (h_sent h ++ sf_Data f) ++ next_bytes s1 = h_accepted h ++ take k p
  end.
Proof.
  intros Hg Hne Ht. destruct (t_bytes _ _ _ _ _ _ Ht) as [Hb Hd]. pose proof (g_acc _ _ _ Hg) as Ha. rewrite <- app_assoc, Hb.
  destruct (h_blocked h) as [p|].
  - destruct Ha as [Hp (k & Hk & Hdk & Hs)]. split; [done|]. exists (min (k + j) (length p))%nat. rewrite Hd, Hdk, drop_drop.
    split; [lia|]. split.
    + destruct (Nat.le_gt_cases (k + j) (length p)); [f_equal; lia|]. rewrite !drop_ge; [done|lia|lia].
    + rewrite app_assoc, Hs, <- app_assoc, take_take_drop. f_equal.
      destruct (Nat.le_gt_cases (k + j) (length p)); [f_equal; lia|]. rewrite !take_ge; [done|lia|lia].
  - destruct Ha as [Ha Hn]. specialize (Hn Hne). assert (data_bytes s = []) as E by (unfold data_bytes; by rewrite Hn).
    rewrite E, take_nil, app_nil_r. split; [done|]. intros _. by apply (t_none _ _ _ _ _ _ Ht).
Qed.

Lemma good_pop_cut m s w h s1 f j more fec : good s w h → no_errs s → retransmissionQueue s = [] → blen (h_flight h) < MaxByteCount →
  0 < SendWindowSize (flowController s) (w_conn w) → cut m (SendWindowSize (flowController s) (w_conn w)) s s1 f j →
  ∃ fin s2 w2, popSent f more (s1, w) = (Ok (Some (with_fin fin f), more), (s2, w2)) ∧ fecProtected s2 = fecProtected s ∧
    writeOffset s2 = writeOffset s + blen (sf_Data f) ∧
    good (count s2) w2 (pop_hist (with_fec fec (with_fin fin f)) (sf_Data f) h).
Proof.
  intros Hg Hne Hq Hb Hw Ht. pose proof (cut_not_fin _ _ _ _ _ _ _ _ Hg Ht) as Hns. pose proof (cut_acc _ _ _ _ _ _ _ _ Hg Hne Ht) as Hacc.
  destruct (window_bounds _ _ _ Hg) as (_ & Hwb & Hcb). specialize (Hcb Hw). destruct Ht as [(d & n & c & ->) (E1 & E2 & E3) [[Hl1 Hl2] Hl3] _ Hnext Hdata _ Hchan _].
  destruct Hne as [Hc Hs]. destruct Hg. destruct g_fc0 as [Hfc1 Hfc2]. destruct g_conn0 as [Hn1 Hn2]. unfold MaxByteCount in *.
  assert (Hnd : completed s = false).
  { destruct (completed s) eqn:E; [|done]. destruct (g_done0 eq_refl) as [[? ?]|(? & _ & ?)]; congruence. }
  pose proof (blen_nonneg (h_sent h)). simpl in Hnext, Hdata, Hchan.
  unfold popSent, StreamFrame_DataLen. rewrite (proj2 (Z.ltb_lt _ _)) by lia. unfold AddBytesSent.
  rewrite i64_small by (simpl; lia). simpl. rewrite Hns, andb_true_r.
  set (fin := finishedWriting s && negb (is_set d) && negb (is_set n)).
  set (s2 := set_sent (writeOffset s + blen (sf_Data f)) _ _).
  assert (Es : (if fin then set_fin (finishedWriting s) true (completed s) s2 else s2) = set_fin (finishedWriting s) fin (completed s) s2).
  { destruct fin; [done|]. unfold s2. destruct s. simpl in *. by rewrite Hns. }
  exists fin. eexists _, _. split; [reflexivity|]. rewrite Es. split_and!; [done|done|].
  set (f' := with_fec fec (with_fin fin f)).
  assert (Hf' : frame_ok (streamID s) (h_sent h ++ sf_Data f) fin f').
  { split; simpl; try done; [|by left|].
    - exists (h_sent h), []. rewrite app_nil_r. split; [done|]. simpl. congruence.
    - intros ->. rewrite blen_app. split; [done|]. rewrite E2. lia. }
  split; simpl; try done.
  - rewrite blen_app. lia.
  - rewrite Hfc1. unfold MaxByteCount. rewrite i64_small by lia. lia.
  - split; simpl; [|done]. unfold MaxByteCount. rewrite i64_small by lia. lia.
  - intros g Hk. unfold known in *. simpl in *. rewrite Hq, Hns in *. setoid_rewrite elem_of_cons in Hk.
    destruct Hk as [[[->|?]|[?|?]]|[->|?]]; try done; apply frame_ok_fin, frame_ok_app; auto.
  - intros _ x Hx. unfold known in *. simpl. destruct (Z.lt_ge_cases x (writeOffset s)).
    + destruct (g_cover0 Hc x ltac:(lia)) as (g & Hk & Hx'). exists g. rewrite elem_of_cons. intuition.
    + exists f'. rewrite elem_of_cons. split; [by auto|]. unfold covers. simpl. lia.
  - intros _ ->. exists f'. unfold known. simpl. rewrite elem_of_cons. auto.
  - intros _. exact (count_ok s h f' Hc (g_num0 Hc) Hb).
  - intros [[? ?]%andb_true_iff ?]%andb_true_iff. by destruct d, n.
  - congruence.
  - intros Hbl Hor. destruct Hchan as [Hch1 Hch2]. destruct Hor as [Hor|[]]; [|done].
    destruct (Hch1 Hor) as [|Hd0]; [done|]. apply Hch2, g_wake0; auto.
Qed.

(** * The whole operation *)

(** [popStreamFrame] after the frame was chosen. *)
Definition popped (r : option StreamFrame * bool) : M (option StreamFrame * bool) :=
  let '(f, hasMoreData) := r in
  match f with
  | None => mret (None, hasMoreData)
  | Some f =>
      _ ← modify (λ s, set_retx (i64 (numOutstandingFrames s + 1)) (retransmissionQueue s) s);
      s ← get;
      mret (Some (with_fec (fecProtected s) f), hasMoreData)
  end.

Definition pop_post (m : Z) (s : sendStream) (h : hist) (r : res (option StreamFrame * bool) * (sendStream * world)) : Prop :=
  ∃ f more s' w', r = (Ok (f, more), (s', w')) ∧
    match f with
    | None => good s' w' h
    | Some f => (∃ l, StreamFrame_Length f = Ok l ∧ l ≤ m) ∧
        good s' w' (pop_hist f (if writeOffset s' =? writeOffset s then [] else sf_Data f) h)
    end.

Lemma pop_post_some m s h f more s2 w2 : (∀ fec, ∃ l, StreamFrame_Length (with_fec fec f) = Ok l ∧ l ≤ m) →
  good (count s2) w2 (pop_hist (with_fec (fecProtected s2) f) (if writeOffset s2 =? writeOffset s then [] else sf_Data f) h) →
  pop_post m s h (popped (Some f, more) (s2, w2)).
Proof. intros Hl Hg. exists (Some (with_fec (fecProtected s2) f)), more, (count s2), w2. done. Qed.

Lemma popBlocked_ok m s w h : good s w h → pop_post m s h ((popBlocked ≫= popped) (s, w)).
Proof.
  intros Hg. assert (Hb : ∀ b w' r, bytesSent b = bytesSent (fc_base (flowController s)) → sendWindow b = sendWindow (fc_base (flowController s)) →
      w_conn w' = w_conn w → w_completed w' = w_completed w →
      pop_post m s h (popped (None, r) (set_sent (writeOffset s) (set_base b (flowController s)) s, w'))).
  { intros b w' r E1 E2 E3 E4. eexists None, r, _, w'. split; [reflexivity|]. destruct Hg. split; simpl; rewrite ?E1, ?E2, ?E3, ?E4; done. }
  unfold popBlocked, mbind, st_bind, IsNewlyBlocked. destruct (_ || _); simpl; by apply Hb.
Qed.

Lemma popNew_ok m s w h : good s w h → no_errs s → retransmissionQueue s = [] → blen (h_flight h) < MaxByteCount →
  128 ≤ m ≤ MaxPacketBufferSize + 2 → pop_post m s h ((popNew m ≫= popped) (s, w)).
Proof.
  intros Hg Hne Hq Hb Hm. unfold popNew. rewrite st_bind_assoc, (st_bind_ok _ _ _ s (s, w)) by done.
  pose proof (g_off _ _ _ Hg). pose proof (blen_nonneg (h_sent h)). destruct (g_fc _ _ _ Hg) as [_ Hfc]. unfold MaxByteCount in *.
  destruct ((data_len s =? 0) && negb (is_set (nextFrame s))) eqn:He.
  - apply andb_true_iff in He as [Hd%Z.eqb_eq Hn]. assert (nextFrame s = None) as Hn' by (by destruct (nextFrame s)).
    assert (Hd' : dataForWriting s = None).
    { destruct (dataForWriting s) as [d|] eqn:E; [|done]. pose proof (g_data _ _ _ Hg d E). unfold data_len in Hd. rewrite E in Hd. simpl in Hd. unfold id in Hd. lia. }
    destruct (finishedWriting s && negb (finSent s)) eqn:Hf; [|by exists None, false, s, w].
    apply andb_true_iff in Hf as [Hf1 Hf2%negb_true_iff].
    set (f := mkStreamFrame (streamID s) (writeOffset s) [] true true false false).
    set (s2 := set_fin (finishedWriting s) true (completed s) s). change (pop_post m s h (popped (Some f, false) (s2, w))).
    apply pop_post_some.
    + intros fec. eexists. split.
      * apply StreamFrame_Length_eq. unfold StreamFrame_sendable, StreamFrame_DataLen, MaxPacketBufferSize, MaxByteCount.
        change (blen (sf_Data (with_fec fec f))) with 0. simpl. split_and!; [apply Hg|lia|lia|lia].
      * assert (Hs : StreamFrame_sendable (with_fec fec f)).
        { unfold StreamFrame_sendable, StreamFrame_DataLen, MaxPacketBufferSize, MaxByteCount.
          change (blen (sf_Data (with_fec fec f))) with 0. simpl. split_and!; [apply Hg|lia|lia|lia]. }
        destruct (sendable_encodable _ Hs) as (_ & _ & _ & ?). change (sf_DataLenPresent (with_fec fec f)) with true.
        change (StreamFrame_DataLen (with_fec fec f)) with 0. change (quicvarint.size 0) with 1. cbv iota. lia.
    + change (writeOffset s2) with (writeOffset s). rewrite Z.eqb_refl. by apply good_pop_fin.
  - rewrite st_bind_assoc. set (window := SendWindowSize (flowController s) (w_conn w)).
    rewrite (st_bind_ok _ _ _ window (s, w)) by done. destruct (window_bounds _ _ _ Hg) as (Hw0 & _). fold window in Hw0.
    destruct (Z.eqb_spec window 0) as [|Hw]; [by apply popBlocked_ok|].
    assert (Hcut : ∃ g more s1 j, popNewStreamFrame m window (s, w) = (Ok (Some g, more), (s1, w)) ∧ cut m window s s1 g j).
    { destruct (nextFrame s) as [f|] eqn:Hn.
      - destruct (cut_next s w h m f Hg Hn Hm ltac:(lia)) as (g & more & s1 & ? & ?). eauto 10.
      - rewrite andb_true_r in He. apply Z.eqb_neq in He. destruct (dataForWriting s) as [d|] eqn:Hd; [|unfold data_len in He; by rewrite Hd in He].
        apply (cut_data s w h m d Hg Hn Hd Hm ltac:(lia)). }
    destruct Hcut as (g & more & s1 & j & Hp & Ht). rewrite st_bind_assoc, (st_bind_ok _ _ _ _ _ Hp).
    destruct (good_pop_cut m s w h s1 g j more (fecProtected s) Hg Hne Hq Hb ltac:(lia) Ht) as (fin & s2 & w2 & Hps & Hfec & Hoff & Hg2).
    rewrite (st_bind_ok _ _ _ _ _ Hps). apply pop_post_some.
    + intros fec. apply (t_fits _ _ _ _ _ _ Ht).
    + destruct (t_len _ _ _ _ _ _ Ht) as [[? _] _]. rewrite Hoff.
      rewrite (proj2 (Z.eqb_neq (writeOffset s + blen (sf_Data g)) (writeOffset s))) by lia. by rewrite Hfec.
Qed.

Lemma popStreamFrame_ok m s w h : good s w h → 128 ≤ m ≤ MaxPacketBufferSize + 2 → blen (h_flight h) < MaxByteCount →
  pop_post m s h (popStreamFrame m (s, w)).
Proof.
  intros Hg Hm Hb. change (popStreamFrame m) with (popNewOrRetransmittedStreamFrame m ≫= popped).
  unfold popNewOrRetransmittedStreamFrame. rewrite st_bind_assoc, (st_bind_ok _ _ _ s (s, w)) by done.
  destruct (cancelWriteErr s) eqn:Hc; cbn [is_set orb]; [by exists None, false, s, w|].
  destruct (closeForShutdownErr s) eqn:Hs; [by exists None, false, s, w|]. assert (Hne : no_errs s) by done.
  destruct (retransmissionQueue s) as [|f q] eqn:Hq; [by apply popNew_ok|].
  assert (Hf : frame_ok (streamID s) (h_sent h) (finSent s) f).
  { apply (g_frames _ _ _ Hg). left. unfold known. rewrite Hq, elem_of_cons. auto. }
  destruct (g_fc _ _ _ Hg) as [_ Hfc]. assert (Hsend : StreamFrame_sendable f).
  { apply (frame_ok_sendable _ _ _ _ (g_id _ _ _ Hg)) in Hf; [done|]. rewrite <- (g_off _ _ _ Hg). lia. }
  pose proof (StreamFrame_split_spec f m Hsend) as Hsp. unfold maybeGetRetransmission. cbn [is_set]. rewrite !st_bind_assoc.
  destruct (StreamFrame_MaybeSplitOffFrame f m) as [[[[new|] []] f']| |] eqn:Hsplit; try done;
    rewrite (st_bind_ok _ _ _ _ (s, w)) by (unfold st_lift; reflexivity).
  - destruct Hsp as (H1 & H2 & H3 & H4 & H5 & H6 & H7 & H8 & H9 & l & Hl & Hlm).
    destruct (frame_ok_split _ _ _ _ _ _ Hf H1 H2 H3 H4 H5 H6 H7 H8 H9) as (Hok1 & Hok2 & Hcov).
    change (pop_post m s h (popped (Some new, true) (set_retx (numOutstandingFrames s) (f' :: q) s, w))). apply pop_post_some; [by exists l|].
    simpl. rewrite Z.eqb_refl. apply (good_retx s w h f q); try done; try setoid_rewrite elem_of_cons.
    + by apply (frame_ok_same _ _ _ new).
    + intros g [->|?]; auto.
    + auto.
    + intros x [?|?]%Hcov; eauto.
    + rewrite <- H9. eauto.
  - destruct Hsp as [-> Hlt]. destruct (sendable_encodable _ Hsend) as (_ & _ & _ & ?). destruct (sf_DataLenPresent f); lia.
  - destruct Hsp as [-> (l & Hl & Hlm)].
    change (pop_post m s h (popped (Some f, true) (set_retx (numOutstandingFrames s) q s, w))). apply pop_post_some; [by exists l|].
    simpl. rewrite Z.eqb_refl. apply (good_retx s w h f q); try done; auto.
    by apply (frame_ok_same _ _ _ f).
Qed.

(** * Write *)

Definition write_hist (p : bytes) (o : write_outcome) (h : hist) : hist :=
  match o with
  | WDone n _ => mkHist (h_flight h) (h_acked h) (h_popped h) (h_sent h) (h_accepted h ++ take (Z.to_nat n) p) None
  | WBlocked => mkHist (h_flight h) (h_acked h) (h_popped h) (h_sent h) (h_accepted h) (Some p)
  end.

Definition write_ok (p : bytes) (s' : sendStream) (o : write_outcome) : Prop :=
  match o with
  | WDone n e => 0 ≤ n ≤ blen p ∧ (e = None → n = blen p)
  | WBlocked => no_errs s' ∧ is_Some (dataForWriting s')
  end.

(** Everything but [g_wake] is kept when data moves into the buffered frame or
    is dropped. *)
Lemma good_move s w h d n : good (set_chan true s) w h → (finSent s = true → d = None ∧ n = None) →
  (∀ f, n = Some f → sf_StreamID f = streamID s ∧ sf_Offset f = writeOffset s ∧ sf_DataLenPresent f = true ∧
    0 < blen (sf_Data f) ≤ MaxPacketBufferSize) → (∀ x, d = Some x → 0 < blen x) → ∀ acc b w',
  w_conn w' = w_conn w → w_completed w' = w_completed w →
  match b with
    | None => h_sent h ++ next_bytes (set_data d n s) = acc ∧ (no_errs s → d = None)
    | Some p => 0 < blen p ∧ ∃ k, (k ≤ length p)%nat ∧ data_bytes (set_data d n s) = drop k p ∧
        h_sent h ++ next_bytes (set_data d n s) = acc ++ take k p
  end → (is_Some b → d = None ∨ ¬ no_errs s → writeChan s = true) →
  good (set_data d n s) w' (mkHist (h_flight h) (h_acked h) (h_popped h) (h_sent h) acc b).
Proof.
  intros Hg Hfin Hn Hd acc b w' E1 E2 Hacc Hwake. destruct Hg. split; simpl in *; rewrite ?E1, ?E2; try done.
  intros H. destruct (Hfin H) as [-> ->]. by destruct (g_fin0 H).
Qed.

Lemma set_data_id s : set_data (dataForWriting s) (nextFrame s) s = s.
Proof. by destruct s. Qed.

Lemma write_round_ok now p notified s w h : h_blocked h = Some p → good (set_chan true s) w h →
  ∃ o s' w', write_round now (blen p) notified (s, w) = (Ok o, (s', w')) ∧ good s' w' (write_hist p o h) ∧ write_ok p s' o.
Proof.
  intros Hb Hg. pose proof (g_acc _ _ _ Hg) as Ha. rewrite Hb in Ha. destruct Ha as [Hp (k & Hk & Hdk & Hsk)].
  change (data_bytes (set_chan true s)) with (data_bytes s) in Hdk. change (next_bytes (set_chan true s)) with (next_bytes s) in Hsk.
  assert (Hld : blen p - blen (data_bytes s) = Z.of_nat k) by (rewrite Hdk; unfold blen; rewrite length_drop; lia).
  assert (Hnext : ∀ f, nextFrame s = Some f → sf_StreamID f = streamID s ∧ sf_Offset f = writeOffset s ∧ sf_DataLenPresent f = true ∧
    0 < blen (sf_Data f) ≤ MaxPacketBufferSize) by (apply (g_next _ _ _ Hg)).
  assert (Hdat : ∀ x, dataForWriting s = Some x → 0 < blen x) by (apply (g_data _ _ _ Hg)).
  unfold write_round. rewrite (st_bind_ok _ _ _ s (s, w)) by done. fold (data_bytes s). cbv zeta.
  destruct (canBufferStreamFrame s && (0 <? blen (data_bytes s))) eqn:Hcan.
  - apply andb_true_iff in Hcan as [Hcan Hpos%Z.ltb_lt]. unfold canBufferStreamFrame, data_len in Hcan. fold (data_bytes s) in Hcan.
    set (f := match nextFrame s with Some _ => _ | None => _ end).
    assert (Hf : sf_StreamID f = streamID s ∧ sf_Offset f = writeOffset s ∧ sf_DataLenPresent f = true ∧ sf_Data f = next_bytes s ++ data_bytes s).
    { unfold f, next_bytes. destruct (nextFrame s) as [g|] eqn:E; [destruct (Hnext g eq_refl) as (? & ? & ? & _); by split_and!|done]. }
    destruct Hf as (F1 & F2 & F3 & F4). exists (WDone (blen p) None).
    assert (Hg' : ∀ w', w_conn w' = w_conn w → w_completed w' = w_completed w → good (set_data None (Some f) s) w' (write_hist p (WDone (blen p) None) h)).
    { intros w' E1 E2. apply (good_move s w h); try done.
      - intros E. destruct (g_fin _ _ _ Hg E) as (_ & _ & E'). simpl in E'. unfold data_bytes in Hpos. by rewrite E' in Hpos.
      - intros g [= <-]. split_and!; try done; rewrite F4, blen_app; [pose proof (blen_nonneg (next_bytes s)); lia|].
        apply Z.leb_le in Hcan. unfold next_bytes. destruct (nextFrame s); exact Hcan.
      - split; [|done]. unfold next_bytes at 1. simpl. rewrite F4, app_assoc, Hsk, <- app_assoc. f_equal.
        rewrite Hdk, take_drop. rewrite take_ge; [done|]. unfold blen. lia. }
    unfold mbind, st_bind. destruct notified; simpl; eexists _, _; (split; [unfold write_result; rewrite Z.eqb_refl; reflexivity|]);
      (split; [by apply Hg'|split; [lia|done]]).
  - rewrite Hld. destruct (negb (deadline s =? 0) && negb (now <? deadline s)).
    { eexists _, (set_data None (nextFrame s) s), w. split; [reflexivity|]. split; [|split; [unfold blen; lia|done]].
      apply (good_move s w h); try done; [intros E; by destruct (g_fin _ _ _ Hg E) as (_ & ? & _)|]. unfold next_bytes in *. simpl. by rewrite Nat2Z.id. }
    destruct (negb (is_set (dataForWriting s)) || is_set (cancelWriteErr s) || is_set (closeForShutdownErr s)) eqn:Hex.
    + exists (write_result (blen p) (Z.of_nat k) s), s, w. split; [done|].
      assert (Hn : ∃ e, write_result (blen p) (Z.of_nat k) s = WDone (Z.of_nat k) e ∧ (e = None → Z.of_nat k = blen p)).
      { unfold write_result. destruct (Z.eqb_spec (Z.of_nat k) (blen p)); [eauto|].
        destruct (closeForShutdownErr s); [eexists; split; [done|done]|]. destruct (cancelWriteErr s); [eexists; split; [done|done]|].
        destruct (dataForWriting s) eqn:E; [done|]. unfold data_bytes in Hld. rewrite E in Hld. change (blen (default [] None)) with 0 in Hld. lia. }
      destruct Hn as (e & -> & He). split; [|split; [unfold blen; lia|done]].
      rewrite <- (set_data_id s) at 1. apply (good_move s w h); try done; [intros E; by destruct (g_fin _ _ _ Hg E) as (_ & ? & ?)|].
      split; [by rewrite Nat2Z.id|].
      intros [E1 E2]. rewrite E1, E2 in Hex. by destruct (dataForWriting s).
    + apply orb_false_iff in Hex as [[Hx1%negb_false_iff Hx2]%orb_false_iff Hx3].
      assert (Hne : no_errs s) by (split; [by destruct (cancelWriteErr s)|by destruct (closeForShutdownErr s)]).
      assert (Hd : is_Some (dataForWriting s)) by (destruct (dataForWriting s); [eauto|done]).
      assert (Hg' : ∀ w', w_conn w' = w_conn w → w_completed w' = w_completed w → good s w' (write_hist p WBlocked h)).
      { intros w' E1 E2. rewrite <- (set_data_id s) at 1. apply (good_move s w h); try done; [intros E; by destruct (g_fin _ _ _ Hg E) as (_ & ? & ?)|split; eauto|].
        intros _ [E|[]]; [|done]. rewrite E in Hd. by destruct Hd. }
      exists WBlocked. unfold mbind, st_bind. destruct notified; simpl; eexists _, _; (split; [reflexivity|]); (split; [by apply Hg'|done]).
Qed.

Lemma Write_ok now p s w h : good s w h → h_blocked h = None →
  ∃ o s' w', Write now p (s, w) = (Ok o, (s', w')) ∧ good s' w' (write_hist p o h) ∧ write_ok p s' o.
Proof.
  intros Hg Hb. pose proof (g_acc _ _ _ Hg) as Ha. rewrite Hb in Ha. destruct Ha as [Ha Hd].
  assert (Hret : ∀ e, (e = None → blen p = 0) → ∃ o s' w', (mret (WDone 0 e) : M write_outcome) (s, w) = (Ok o, (s', w')) ∧
    good s' w' (write_hist p o h) ∧ write_ok p s' o).
  { intros e He. exists (WDone 0 e), s, w. split; [done|]. split; [|split; [pose proof (blen_nonneg p); lia|intros ?%He; lia]].
    simpl. rewrite app_nil_r. destruct h. simpl in Hb. by rewrite Hb in Hg. }
  unfold Write. rewrite (st_bind_ok _ _ _ s (s, w)) by done.
  destruct (finishedWriting s) eqn:Hf; [by apply Hret|].
  destruct (cancelWriteErr s) eqn:Hc; [by apply Hret|]. destruct (closeForShutdownErr s) eqn:Hs; [by apply Hret|].
  destruct (negb (deadline s =? 0) && negb (now <? deadline s)); [by apply Hret|].
  destruct (Z.eqb_spec (blen p) 0); [by apply Hret|]. pose proof (blen_nonneg p).
  set (s1 := set_data (Some p) (nextFrame s) s). rewrite (st_bind_ok _ _ _ tt (s1, w)) by done.
  set (h1 := mkHist (h_flight h) (h_acked h) (h_popped h) (h_sent h) (h_accepted h) (Some p)).
  assert (Hns : finSent s = false).
  { destruct (finSent s) eqn:E; [|done]. destruct (g_fin _ _ _ Hg E). congruence. }
  destruct (write_round_ok now p false s1 w h1) as (o & s' & w' & He & Hg' & Ho); [done| |].
  - assert (good (set_chan true s) w h) as Hg1 by (destruct Hg; by split).
    change (set_chan true s1) with (set_data (Some p) (nextFrame s) (set_chan true s)). apply (good_move (set_chan true s) w h); try done.
    + simpl. congruence.
    + apply (g_next _ _ _ Hg).
    + intros x [= <-]. lia.
    + split; [lia|]. exists 0%nat. rewrite drop_0, app_nil_r. repeat split; try done; lia.
  - exists o, s', w'. by split_and!.
Qed.

Lemma Write_resume_ok token now p s w h : good s w h → h_blocked h = Some p →
  ∃ o s' w', Write_resume token now p (s, w) = (Ok o, (s', w')) ∧ good s' w' (write_hist p o h) ∧ write_ok p s' o.
Proof.
  intros Hg Hb. unfold Write_resume. rewrite (st_bind_ok _ _ _ tt (set_chan (writeChan s && negb token) s, w)) by done.
  apply write_round_ok; [done|]. destruct Hg. by split.
Qed.

(** * Acknowledgements, losses, cancellation *)

Lemma isNewlyCompleted_eq s w : ∃ b, isNewlyCompleted (s, w) = (Ok b, (set_fin (finishedWriting s) (finSent s) (completed s || b) s, w)) ∧
  (b = true → completed s = false) ∧
  (completed s || b = true → completed s = true ∨
     (finSent s = true ∨ is_Some (cancelWriteErr s)) ∧ numOutstandingFrames s = 0 ∧ retransmissionQueue s = []).
Proof.
  unfold isNewlyCompleted. rewrite (st_bind_ok _ _ _ s (s, w)) by done. cbv zeta.
  destruct ((finSent s || is_set (cancelWriteErr s)) && (numOutstandingFrames s =? 0) && Nat.eqb (length (retransmissionQueue s)) 0) eqn:E;
    destruct (completed s) eqn:Ec; simpl.
  - exists false. split_and!; auto. unfold mret, st_ret. rewrite <- Ec. by destruct s.
  - exists true. split_and!; auto. intros _. right. apply andb_true_iff in E as [[E1 E2%Z.eqb_eq]%andb_true_iff E3%Nat.eqb_eq].
    apply nil_length_inv in E3. split_and!; try done. apply orb_true_iff in E1 as [|]; [by left|right]. by destruct (cancelWriteErr s).
  - exists false. split_and!; auto. unfold mret, st_ret. rewrite <- Ec. by destruct s.
  - exists false. split_and!; auto. unfold mret, st_ret. rewrite <- Ec. by destruct s.
Qed.

(** The end of an operation that may complete the stream. *)
Lemma good_complete s w h : good s w h →
  ∃ s' w', (newlyCompleted ← isNewlyCompleted; if (newlyCompleted : bool) then onStreamCompleted else mret tt) (s, w) = (Ok tt, (s', w')) ∧
    good s' w' h ∧ streamID s' = streamID s ∧ writeOffset s' = writeOffset s.
Proof.
  intros Hg. destruct (isNewlyCompleted_eq s w) as (b & He & Hb & Hd). rewrite (st_bind_ok _ _ _ _ _ He).
  assert (Hdone : completed s || b = true → is_Some (cancelWriteErr s) ∨ finSent s = true ∧ h_flight h = [] ∧ retransmissionQueue s = []).
  { intros [Hc|[Hf [Hn Hq]]]%Hd; [by apply (g_done _ _ _ Hg)|]. destruct (cancelWriteErr s) eqn:Ec; [by left; eauto|right].
    rewrite (g_num _ _ _ Hg Ec) in Hn. destruct Hf as [|[]]; [|done]. split_and!; try done.
    destruct (h_flight h); [done|]. rewrite blen_cons in Hn. pose proof (blen_nonneg l). lia. }
  destruct b; eexists _, _; (split; [reflexivity|]); (split; [|done]); destruct Hg; split; simpl; try done.
  - rewrite orb_true_r, g_compl0. by rewrite (Hb eq_refl).
  - by rewrite orb_false_r.
Qed.

Lemma flight_num s w h l1 f l2 : good s w h → h_flight h = l1 ++ f :: l2 → blen (h_flight h) < MaxByteCount → cancelWriteErr s = None →
  i64 (numOutstandingFrames s - 1) = blen (l1 ++ l2) ∧ (i64 (numOutstandingFrames s - 1) <? 0) = false.
Proof.
  intros Hg Hf Hb Hc. rewrite (g_num _ _ _ Hg Hc), Hf in *. rewrite !blen_app, blen_cons in *. unfold MaxByteCount in *.
  pose proof (blen_nonneg l1). pose proof (blen_nonneg l2). rewrite i64_small by lia. split; [lia|]. apply Z.ltb_ge. lia.
Qed.

Lemma not_completed s w h l1 f l2 : good s w h → h_flight h = l1 ++ f :: l2 → cancelWriteErr s = None → completed s = false.
Proof.
  intros Hg Hf Hc. destruct (completed s) eqn:E; [|done]. destruct (g_done _ _ _ Hg E) as [[? ?]|(_ & Hfl & _)]; [congruence|].
  rewrite Hf in Hfl. by destruct l1.
Qed.

(** [f] leaves the frames in flight; [b] is the [DataLenPresent] the framer gave it. *)
Lemma OnAcked_ok s w h l1 f l2 b : good s w h → h_flight h = l1 ++ f :: l2 → blen (h_flight h) < MaxByteCount →
  ∃ s' w', OnAcked (with_len b f) (s, w) = (Ok tt, (s', w')) ∧
    good s' w' (mkHist (l1 ++ l2) (f :: h_acked h) (h_popped h) (h_sent h) (h_accepted h) (h_blocked h)).
Proof.
  intros Hg Hf Hb. unfold OnAcked. rewrite (st_bind_ok _ _ _ s (s, w)) by done.
  destruct (cancelWriteErr s) as [e|] eqn:Hc; cbn [is_set].
  { exists s, w. split; [done|]. destruct Hg. split; simpl; rewrite ?Hc; try done.
    - intros g Hk. apply g_frames0. unfold known in *. simpl in *. rewrite Hf. set_solver.
    - intros H. left. done. }
  destruct (flight_num s w h l1 f l2 Hg Hf Hb Hc) as [Hn Hnn]. cbv zeta.
  rewrite (st_bind_ok _ _ _ tt (set_retx (i64 (numOutstandingFrames s - 1)) (retransmissionQueue s) s, w)) by done. rewrite Hnn.
  edestruct good_complete as (s' & w' & He & Hg' & _); [|exists s', w'; split; [exact He|exact Hg']].
  pose proof (not_completed s w h l1 f l2 Hg Hf Hc). destruct Hg. split; simpl; rewrite ?Hc; try done.
  - intros g Hk. apply g_frames0. unfold known in *. simpl in *. rewrite Hf. set_solver.
  - intros _ x Hx. destruct (g_cover0 Hc x Hx) as (g & Hk & ?). exists g. split; [|done]. unfold known in *. simpl. rewrite Hf in Hk. set_solver.
  - intros _ Hx. destruct (g_cover_fin0 Hc Hx) as (g & Hk & ?). exists g. split; [|done]. unfold known in *. simpl. rewrite Hf in Hk. set_solver.
  - congruence.
Qed.

Lemma OnLost_ok s w h l1 f l2 b : good s w h → h_flight h = l1 ++ f :: l2 → blen (h_flight h) < MaxByteCount →
  ∃ s' w', OnLost (with_len b f) (s, w) = (Ok tt, (s', w')) ∧
    good s' w' (mkHist (l1 ++ l2) (h_acked h) (h_popped h) (h_sent h) (h_accepted h) (h_blocked h)).
Proof.
  intros Hg Hf Hb. unfold OnLost. rewrite (st_bind_ok _ _ _ s (s, w)) by done.
  destruct (cancelWriteErr s) as [e|] eqn:Hc; cbn [is_set].
  { exists s, w. split; [done|]. destruct Hg. split; simpl; rewrite ?Hc; try done.
    - intros g Hk. apply g_frames0. unfold known in *. simpl in *. rewrite Hf. set_solver.
    - intros H. left. done. }
  destruct (flight_num s w h l1 f l2 Hg Hf Hb Hc) as [Hn Hnn]. cbv zeta.
  set (f' := with_len true (with_len b f)). assert (Hsame : same_frame f f') by done.
  rewrite (st_bind_ok _ _ _ tt (set_retx (i64 (numOutstandingFrames s - 1)) (retransmissionQueue s ++ [f']) s, w)) by done. rewrite Hnn.
  eexists _, _. split; [reflexivity|]. pose proof (not_completed s w h l1 f l2 Hg Hf Hc). destruct Hg.
  assert (Hin : ∀ g, known s h g → ∃ g', same_frame g g' ∧ (g' ∈ l1 ++ l2 ∨ g' ∈ retransmissionQueue s ++ [f'] ∨ g' ∈ h_acked h)).
  { intros g Hk. unfold known in Hk. rewrite Hf in Hk. destruct (decide (g = f)) as [->|]; [exists f'|exists g]; (split; [done|]); set_solver. }
  split; simpl; rewrite ?Hc; try done.
  - intros g Hk. unfold known in *. simpl in *. destruct (decide (g = f')) as [->|].
    + apply (frame_ok_same _ _ _ f); [done|]. apply g_frames0. rewrite Hf. set_solver.
    + apply g_frames0. rewrite Hf. set_solver.
  - intros _ x Hx. destruct (g_cover0 Hc x Hx) as (g & Hk & ?). destruct (Hin g Hk) as (g' & ? & ?). exists g'. split; [done|].
    by eapply covers_same.
  - intros _ Hx. destruct (g_cover_fin0 Hc Hx) as (g & Hk & ?). destruct (Hin g Hk) as (g' & (_ & _ & _ & E) & ?). exists g'. by rewrite E.
  - congruence.
Qed.

Lemma cancel_ok code remote s w h : good s w h →
  ∃ s' w', cancelWriteImpl code remote (s, w) = (Ok tt, (s', w')) ∧ good s' w' h.
Proof.
  intros Hg. unfold cancelWriteImpl. rewrite (st_bind_ok _ _ _ s (s, w)) by done.
  destruct (cancelWriteErr s) as [e|] eqn:Hc; cbn [is_set]; [by exists s, w|]. cbv zeta.
  set (e := StreamError (streamID s) code remote).
  set (s1 := set_retx 0 [] (ctxCancel (Some e) (set_errs (Some e) (closeForShutdownErr s) s))).
  rewrite (st_bind_ok _ _ _ tt (s1, w)) by done.
  destruct (isNewlyCompleted_eq s1 w) as (b & He & Hb & _). rewrite (st_bind_ok _ _ _ _ _ He).
  assert (Hg' : ∀ w', w_conn w' = w_conn w → w_completed w' = (if completed s || b then [streamID s] else []) →
    good (set_chan true (set_fin (finishedWriting s) (finSent s) (completed s || b) s1)) w' h).
  { intros w' E1 E2. destruct Hg. split; simpl; rewrite ?E1, ?E2; try done.
    - intros f Hk. apply g_frames0. unfold known in *. simpl in *. set_solver.
    - intros _. left. eauto.
    - destruct (h_blocked h); [done|]. split; [apply g_acc0|]. by intros []. }
  destruct b; eexists _, _; (split; [reflexivity|]); apply Hg'; simpl; try done; rewrite (g_compl _ _ _ Hg).
  - rewrite orb_true_r. simpl in Hb. by rewrite Hb.
  - by rewrite orb_false_r.
Qed.

Lemma shutdown_ok e s w h : good s w h → ∃ s', closeForShutdown e (s, w) = (Ok tt, (s', w)) ∧ good s' w h.
Proof.
  intros Hg. eexists. split; [reflexivity|]. destruct Hg. split; simpl; try done.
  destruct (h_blocked h); [done|]. split; [apply g_acc0|]. by intros [].
Qed.

Lemma window_ok limit s w h : good s w h → limit ≤ MaxByteCount →
  ∃ s' w', updateSendWindow limit (s, w) = (Ok tt, (s', w')) ∧ good s' w' h.
Proof.
  intros Hg Hl. unfold updateSendWindow, UpdateSendWindow.
  assert (Hg' : ∀ b w', bytesSent b = bytesSent (fc_base (flowController s)) → sendWindow (fc_base (flowController s)) ≤ sendWindow b ≤ MaxByteCount →
    w_conn w' = w_conn w → w_completed w' = w_completed w → good (set_sent (writeOffset s) (set_base b (flowController s)) s) w' h).
  { intros b w' E1 E2 E3 E4. destruct Hg. split; simpl; rewrite ?E1, ?E3, ?E4; try done. lia. }
  destruct (g_fc _ _ _ Hg) as [_ Hfc]. destruct (Z.ltb_spec (sendWindow (fc_base (flowController s))) limit).
  - cbv zeta. destruct (_ && _); eexists _, _; (split; [reflexivity|]); apply Hg'; simpl; try done; lia.
  - eexists _, _. split; [reflexivity|]. apply Hg'; try done. lia.
Qed.

(** * Runs *)

Abbreviation state := (sendStream * world * hist)%type.

(** All interleavings of the operations of one stream.  The framer pops frames of
    at least [MinStreamFrameSize] bytes that fit a packet; a frame in flight
    is acknowledged or lost once; other streams use the connection's flow
    controller; MAX_STREAM_DATA carries a varint. *)
Inductive step : state → state → Prop :=
| step_other s w h conn : conn_ok conn → step (s, w, h) (s, set_conn conn w, h)
| step_pop s w h m f more s' w' : 128 ≤ m ≤ MaxPacketBufferSize + 2 → blen (h_flight h) < MaxByteCount →
    popStreamFrame m (s, w) = (Ok (Some f, more), (s', w')) →
    step (s, w, h) (s', w', pop_hist f (if writeOffset s' =? writeOffset s then [] else sf_Data f) h)
| step_pop_none s w h m more s' w' : 128 ≤ m ≤ MaxPacketBufferSize + 2 → blen (h_flight h) < MaxByteCount →
    popStreamFrame m (s, w) = (Ok (None, more), (s', w')) → step (s, w, h) (s', w', h)
| step_write s w h now p o s' w' : h_blocked h = None → Write now p (s, w) = (Ok o, (s', w')) →
    step (s, w, h) (s', w', write_hist p o h)
| step_wake s w h (token : bool) now p o s' w' : h_blocked h = Some p → (if token then writeChan s = true else deadline s ≠ 0) →
    Write_resume token now p (s, w) = (Ok o, (s', w')) → step (s, w, h) (s', w', write_hist p o h)
| step_acked s w h l1 f l2 b s' w' : h_flight h = l1 ++ f :: l2 → blen (h_flight h) < MaxByteCount →
    OnAcked (with_len b f) (s, w) = (Ok tt, (s', w')) →
    step (s, w, h) (s', w', mkHist (l1 ++ l2) (f :: h_acked h) (h_popped h) (h_sent h) (h_accepted h) (h_blocked h))
| step_lost s w h l1 f l2 b s' w' : h_flight h = l1 ++ f :: l2 → blen (h_flight h) < MaxByteCount →
    OnLost (with_len b f) (s, w) = (Ok tt, (s', w')) →
    step (s, w, h) (s', w', mkHist (l1 ++ l2) (h_acked h) (h_popped h) (h_sent h) (h_accepted h) (h_blocked h))
| step_cancel s w h code s' w' : CancelWrite code (s, w) = (Ok tt, (s', w')) → step (s, w, h) (s', w', h)
| step_stop s w h f s' w' : handleStopSendingFrame f (s, w) = (Ok tt, (s', w')) → step (s, w, h) (s', w', h)
| step_close s w h e s' w' : Close (s, w) = (Ok e, (s', w')) → step (s, w, h) (s', w', h)
| step_shutdown s w h e s' w' : closeForShutdown e (s, w) = (Ok tt, (s', w')) → step (s, w, h) (s', w', h)
| step_deadline s w h t s' w' : SetWriteDeadline t (s, w) = (Ok tt, (s', w')) → step (s, w, h) (s', w', h)
| step_window s w h off s' w' : off ≤ MaxByteCount → updateSendWindow off (s, w) = (Ok tt, (s', w')) → step (s, w, h) (s', w', h).

Inductive start : state → Prop :=
| start_new id fc fec w : quicvarint.encodable id → bytesSent (fc_base fc) = 0 → 0 ≤ sendWindow (fc_base fc) ≤ MaxByteCount →
    conn_ok (w_conn w) → w_completed w = [] →
    start (newSendStreamWithFEC id fc fec, w, mkHist [] [] [] [] [] None).

Definition run (x : state) : Prop := ∃ x0, start x0 ∧ rtc step x0 x.

Definition good_state (x : state) : Prop := good x.1.1 x.1.2 x.2.

Lemma start_good x : start x → good_state x.
Proof.
  intros [id fc fec w Hid Hb Hw Hc Hd]. split; simpl; try done.
  - intros f Hk. unfold known in Hk. simpl in Hk. set_solver.
  - intros _ y Hy. lia.
Qed.

(** Two results of the same call. *)
Ltac join :=
  match goal with H : ?x = (Ok _, _), H' : ?x = (Ok _, _) |- _ => rewrite H in H'; simplify_eq end.

Lemma step_good x y : good_state x → step x y → good_state y.
Proof.
  intros Hg Hxy. unfold good_state in *. destruct Hxy; cbn [fst snd] in *.
  - destruct Hg. by split.
  - destruct (popStreamFrame_ok m s w h Hg) as (f2 & more2 & s2 & w2 & He & Hp); [done|done|]. join. apply Hp.
  - destruct (popStreamFrame_ok m s w h Hg) as (f2 & more2 & s2 & w2 & He & Hp); [done|done|]. by join.
  - destruct (Write_ok now p s w h Hg) as (o2 & s2 & w2 & He & ? & _); [done|]. by join.
  - destruct (Write_resume_ok token now p s w h Hg) as (o2 & s2 & w2 & He & ? & _); [done|]. by join.
  - destruct (OnAcked_ok s w h l1 f l2 b Hg) as (s2 & w2 & He & ?); [done|done|]. by join.
  - destruct (OnLost_ok s w h l1 f l2 b Hg) as (s2 & w2 & He & ?); [done|done|]. by join.
  - destruct (cancel_ok code false s w h Hg) as (s2 & w2 & He & ?). unfold CancelWrite in *. by join.
  - destruct (cancel_ok (ss_ErrorCode f) true s w h Hg) as (s2 & w2 & He & ?). unfold handleStopSendingFrame in *. by join.
  - unfold Close, mbind, st_bind, mret, st_ret in H. simpl in H. destruct (is_set _); [by simplify_eq/=|]. destruct (is_set _); [by simplify_eq/=|].
    simplify_eq/=. destruct Hg. split; try done. intros Hf. by destruct (g_fin0 Hf).
  - destruct (shutdown_ok e s w h Hg) as (s2 & He & ?). by join.
  - injection H as <- <-. destruct Hg. by split.
  - destruct (window_ok off s w h Hg) as (s2 & w2 & He & ?); [done|]. by join.
Qed.

Lemma run_good x : run x → good_state x.
Proof.
  intros (x0 & H0 & Hs). revert x Hs. apply rtc_ind_r; [by apply start_good|]. intros y z _ Hyz Hy. by eapply step_good.
Qed.

(** * Correctness *)

Lemma sent_accepted s w h : good s w h →
  ∃ rest, h_accepted h ++ default [] (h_blocked h) = h_sent h ++ rest ∧ (nextFrame s = None → dataForWriting s = None → rest = []).
Proof.
  intros Hg. pose proof (g_acc _ _ _ Hg) as Ha. destruct (h_blocked h) as [p|]; simpl.
  - destruct Ha as [_ (k & Hk & Hd & Hs)]. exists (next_bytes s ++ data_bytes s). split.
    + unfold id. rewrite app_assoc, Hs, <- app_assoc, Hd, take_drop. done.
    + unfold next_bytes, data_bytes. by intros -> ->.
  - destruct Ha as [Hs _]. exists (next_bytes s). rewrite app_nil_r. split; [done|]. unfold next_bytes. by intros -> _.
Qed.

(** C13: STREAM frames carry what was written.  Whatever the interleaving of [Write], [Close],
    cancellations, of the framer popping frames of any size, of
    acknowledgements and losses: every frame ever popped, retransmissions included, has bytes accepted by
    [Write] at their offset, is not empty unless it has FIN, and
    has FIN only if it ends where the data ends after [Close]; the frames popped for the first time carry the
    data in order; popping a frame never panics, and
    the frame fits the space; and no more was sent than the peer's limit allows. *)
Theorem stream_frames_carry_data s w h : run (s, w, h) →
  (∃ rest, h_accepted h ++ default [] (h_blocked h) = h_sent h ++ rest) ∧
  (∀ f, f ∈ h_popped h → sf_StreamID f = streamID s ∧ (sf_Data f ≠ [] ∨ sf_Fin f = true) ∧
     (∃ l1 l2, h_sent h = l1 ++ sf_Data f ++ l2 ∧ blen l1 = sf_Offset f) ∧
     (sf_Fin f = true → finishedWriting s = true ∧ h_accepted h ++ default [] (h_blocked h) = h_sent h ∧
        sf_Offset f + blen (sf_Data f) = blen (h_sent h))) ∧
  (∀ m, 128 ≤ m ≤ MaxPacketBufferSize + 2 → blen (h_flight h) < MaxByteCount →
     ∃ f more sw, popStreamFrame m (s, w) = (Ok (f, more), sw) ∧ ∀ g, f = Some g → ∃ l, StreamFrame_Length g = Ok l ∧ l ≤ m) ∧
  blen (h_sent h) ≤ sendWindow (fc_base (flowController s)).
Proof.
  intros Hg%run_good. change (good s w h) in Hg. split_and!.
  - destruct (sent_accepted _ _ _ Hg) as (rest & ? & _). eauto.
  - intros f Hf. destruct (g_frames _ _ _ Hg f (or_intror Hf)) as [Hid Hc Hl Hne Hfin]. split_and!; try done.
    + destruct Hne as [Hne|]; [left|by right]. intros E. by rewrite E in Hne.
    + intros HF. destruct (Hfin HF) as [Hfs He]. destruct (g_fin _ _ _ Hg Hfs) as (? & Hn & Hd). split_and!; try done.
      destruct (sent_accepted _ _ _ Hg) as (rest & -> & Hr). by rewrite (Hr Hn Hd), app_nil_r.
  - intros m Hm Hb. destruct (popStreamFrame_ok m s w h Hg Hm Hb) as (f & more & s' & w' & He & Hp). exists f, more, (s', w'). split; [done|].
    intros g ->. apply Hp.
  - rewrite <- (g_off _ _ _ Hg). apply (g_fc _ _ _ Hg).
Qed.

(** C14: a stream is complete only when everything arrived.  [onStreamCompleted] is
    called at most once; unless writing was cancelled, every
    byte accepted by [Write] and the end of the stream were acknowledged then. *)
Theorem send_stream_complete s w h : run (s, w, h) →
  (w_completed w = [] ∨ w_completed w = [streamID s]) ∧
  (w_completed w ≠ [] → cancelWriteErr s = None →
     h_accepted h ++ default [] (h_blocked h) = h_sent h ∧
     (∀ x, 0 ≤ x < blen (h_sent h) → ∃ f, f ∈ h_acked h ∧ sf_Offset f ≤ x < sf_Offset f + blen (sf_Data f)) ∧
     ∃ f, f ∈ h_acked h ∧ sf_Fin f = true ∧ sf_Offset f + blen (sf_Data f) = blen (h_sent h)).
Proof.
  intros Hg%run_good. change (good s w h) in Hg. pose proof (g_compl _ _ _ Hg) as Hcompl. split.
  { rewrite Hcompl. destruct (completed s); auto. }
  intros Hne Hc. destruct (completed s) eqn:E; [|done]. destruct (g_done _ _ _ Hg E) as [[? ?]|(Hf & Hfl & Hq)]; [congruence|].
  assert (Hk : ∀ f, known s h f → f ∈ h_acked h) by (intros f; unfold known; rewrite Hfl, Hq; set_solver).
  destruct (g_fin _ _ _ Hg Hf) as (_ & Hn & Hd). split_and!.
  - destruct (sent_accepted _ _ _ Hg) as (rest & -> & Hr). by rewrite (Hr Hn Hd), app_nil_r.
  - intros x Hx. rewrite <- (g_off _ _ _ Hg) in Hx. destruct (g_cover _ _ _ Hg Hc x Hx) as (f & Hkf & ?). exists f. split; [by apply Hk|done].
  - destruct (g_cover_fin _ _ _ Hg Hc Hf) as (f & Hkf & HF). exists f. split_and!; [by apply Hk|done|].
    by apply (f_fin _ _ _ _ (g_frames _ _ _ Hg f (or_introl Hkf))).
Qed.

(** C35: [Write] accepts a prefix of its buffer, all of it if it returns no error; it
    never panics; it waits only if there is data left and no error to return; and a [Write] that waits is woken once all its
    data was taken, or the stream was cancelled or closed. *)
Theorem write_correct s w h : run (s, w, h) →
  (∀ now p, h_blocked h = None → ∃ o s' w', Write now p (s, w) = (Ok o, (s', w')) ∧ write_ok p s' o) ∧
  (∀ token now p, h_blocked h = Some p → ∃ o s' w', Write_resume token now p (s, w) = (Ok o, (s', w')) ∧ write_ok p s' o) ∧
  (is_Some (h_blocked h) → dataForWriting s = None ∨ ¬ no_errs s → writeChan s = true).
Proof.
  intros Hg%run_good. change (good s w h) in Hg. split_and!.
  - intros now p Hb. destruct (Write_ok now p s w h Hg Hb) as (o & s' & w' & ? & _ & ?). eauto 6.
  - intros token now p Hb. destruct (Write_resume_ok token now p s w h Hg Hb) as (o & s' & w' & ? & _ & ?). eauto 6.
  - apply (g_wake _ _ _ Hg).
Qed.

(** * An example

    Three bytes are written, the stream is closed, a frame is popped, lost, sent
    again and acknowledged. *)
Definition ex_new : sendStream * world :=
  (newSendStream 4 (NewStreamFlowController 4 100 100 100),
   mkWorld (set_sender 0 100 0 (NewConnectionFlowController 100 100 (Some (λ _, true)))) [] [] 0).
Definition ex_written : sendStream * world := (Write 0 [1; 2; 3] ex_new).2.
Definition ex_closed : sendStream * world := (Close ex_written).2.
Definition ex_frame : StreamFrame := mkStreamFrame 4 0 [1; 2; 3] true true true false.
Definition ex_popped : sendStream * world := (popStreamFrame 128 ex_closed).2.
Definition ex_lost : sendStream * world := (OnLost (with_len false ex_frame) ex_popped).2.
Definition ex_again : sendStream * world := (popStreamFrame 128 ex_lost).2.
Definition ex_acked : sendStream * world := (OnAcked (with_len false ex_frame) ex_again).2.

Lemma run_step x y : run x → step x y → run y.
Proof. intros (x0 & ? & Hs) Hxy. exists x0. split; [done|]. by eapply rtc_r. Qed.

Lemma ex_run_popped : run (ex_popped.1, ex_popped.2, mkHist [ex_frame] [] [ex_frame] [1; 2; 3] [1; 2; 3] None).
Proof.
  eapply run_step; [eapply run_step; [eapply run_step; [exists (ex_new, mkHist [] [] [] [] [] None); split; [|reflexivity]|]|]|].
  - by apply start_new.
  - refine (step_write ex_new.1 ex_new.2 _ 0 [1; 2; 3] (WDone 3 None) ex_written.1 ex_written.2 _ _); [done|vm_compute; reflexivity].
  - refine (step_close ex_written.1 ex_written.2 _ None ex_closed.1 ex_closed.2 _). vm_compute; reflexivity.
  - refine (step_pop ex_closed.1 ex_closed.2 (mkHist [] [] [] [] [1; 2; 3] None) 128 ex_frame false ex_popped.1 ex_popped.2 _ _ _);
      [done|done|vm_compute; reflexivity].
Qed.

Lemma ex_run_acked : run (ex_acked.1, ex_acked.2, mkHist [] [ex_frame] [ex_frame; ex_frame] [1; 2; 3] [1; 2; 3] None).
Proof.
  eapply run_step; [eapply run_step; [eapply run_step; [apply ex_run_popped|]|]|].
  - refine (step_lost ex_popped.1 ex_popped.2 (mkHist [ex_frame] [] [ex_frame] [1; 2; 3] [1; 2; 3] None) [] ex_frame [] false ex_lost.1 ex_lost.2 _ _ _);
      [done|done|vm_compute; reflexivity].
  - refine (step_pop ex_lost.1 ex_lost.2 (mkHist [] [] [ex_frame] [1; 2; 3] [1; 2; 3] None) 128 ex_frame true ex_again.1 ex_again.2 _ _ _);
      [done|done|vm_compute; reflexivity].
  - refine (step_acked ex_again.1 ex_again.2 (mkHist [ex_frame] [] [ex_frame; ex_frame] [1; 2; 3] [1; 2; 3] None) [] ex_frame [] false
      ex_acked.1 ex_acked.2 _ _ _); [done|done|vm_compute; reflexivity].
Qed.

Lemma stream_frames_carry_data_witness :
  run (ex_popped.1, ex_popped.2, mkHist [ex_frame] [] [ex_frame] [1; 2; 3] [1; 2; 3] None) ∧
  sf_Offset ex_frame + blen (sf_Data ex_frame) = blen [1; 2; 3].
Proof.
  split; [apply ex_run_popped|].
  destruct (stream_frames_carry_data ex_popped.1 ex_popped.2 (mkHist [ex_frame] [] [ex_frame] [1; 2; 3] [1; 2; 3] None) ex_run_popped) as (_ & H & _).
  apply (H ex_frame); [|reflexivity]. apply elem_of_cons. left. reflexivity.
Defined.

Lemma send_stream_complete_witness :
  run (ex_acked.1, ex_acked.2, mkHist [] [ex_frame] [ex_frame; ex_frame] [1; 2; 3] [1; 2; 3] None) ∧
  ∃ f, f ∈ [ex_frame] ∧ sf_Fin f = true ∧ sf_Offset f + blen (sf_Data f) = blen [1; 2; 3].
Proof.
  split; [apply ex_run_acked|].
  destruct (send_stream_complete ex_acked.1 ex_acked.2 (mkHist [] [ex_frame] [ex_frame; ex_frame] [1; 2; 3] [1; 2; 3] None) ex_run_acked) as [_ H].
  apply H; [vm_compute; discriminate|vm_compute; reflexivity].
Defined.

Lemma write_correct_witness :
  run (ex_popped.1, ex_popped.2, mkHist [ex_frame] [] [ex_frame] [1; 2; 3] [1; 2; 3] None) ∧
  ∃ o s' w', Write 0 [4] (ex_popped.1, ex_popped.2) = (Ok o, (s', w')) ∧ write_ok [4] s' o.
Proof.
  split; [apply ex_run_popped|].
  destruct (write_correct ex_popped.1 ex_popped.2 (mkHist [ex_frame] [] [ex_frame] [1; 2; 3] [1; 2; 3] None) ex_run_popped) as (H & _).
  apply H. reflexivity.
Defined.

(** Without the framer's minimum size, popping a frame from data that is not
    buffered panics: the frame is nil. *)
Lemma pop_small_panics : ∃ sw, popStreamFrame 3 (Write 0 (zeros 1500) ex_new).2 = (Panic "invalid memory address or nil pointer dereference", sw).
Proof. eexists. vm_compute. reflexivity. Qed.

End sendCorrect.
