(* ===== verification/StreamTransfer.v ===== *)
(** A stream from end to end: the send side of one endpoint, a network that
    loses, duplicates and reorders frames, and the receive side of the other. *)

From S2P Require Import Prelude.
From S2P Require Import Varint.
From S2P Require Import Protocol.
From S2P Require Import Frames.
From S2P Require Import FlowControl.
From S2P Require Import FrameSorter.
From S2P Require Import SorterCorrect.
From S2P Require Import SendStream.
From S2P Require Import SendCorrect.
From S2P Require Import ReceiveStream.

Module transfer.
Import protocol wire.

Abbreviation snd_state := (sendStream.sendStream * sendStream.world * sendCorrect.hist)%type.
Abbreviation rcv_state := (receiveStream.receiveStream * receiveStream.world * receiveStream.hist)%type.

(** The bytes sent, as the function the receive side is stated with. *)
Definition content (sent : bytes) (x : Z) : byte := nth (Z.to_nat x) sent 0.

(** A frame the peer parsed from a packet is a frame that was popped: a packet
    carries offset, data and FIN (see [packet_payload_roundtrip]). *)
Inductive transfer : snd_state → rcv_state → Prop :=
| transfer_start x y : sendCorrect.start x → receiveStream.start y → transfer x y
| transfer_send x x' y : transfer x y → sendCorrect.step x x' → transfer x' y
| transfer_local x y y' : transfer x y → receiveStream.local_step y y' → transfer x y'
| transfer_deliver x s w h f g now putBack s' w' : transfer x (s, w, h) → f ∈ sendCorrect.h_popped x.2 → sendCorrect.same_frame f g →
    receiveStream.handleStreamFrame now g putBack (s, w) = (Ok tt, (s', w')) → transfer x (s', w', receiveStream.frame_hist s g h).

Lemma carries_matches sent f : sendCorrect.carries sent f → sorterCorrect.matches (content sent) (sf_Data f) (sf_Offset f).
Proof.
  intros (l1 & l2 & -> & Hl) i b Hb. unfold content. rewrite <- Hl. replace (Z.to_nat (blen l1 + Z.of_nat i)) with (length l1 + i)%nat by (unfold blen; lia).
  rewrite app_nth2_plus, app_nth1 by (by eapply lookup_lt_Some). symmetry. by apply nth_lookup_Some.
Qed.

(** The receive side does not depend on bytes that did not arrive. *)
Lemma sorted_ext Str Str' q frames out handed taken : sorterCorrect.sorted Str q frames out handed taken →
  (∀ f, f ∈ frames → sorterCorrect.matches Str' f.2 f.1) → sorterCorrect.sorted Str' q frames out handed taken.
Proof.
  induction 1 as [|q frames out handed taken data offset cb q' _ IH H0 Hmax Hm He|q frames out handed taken data cb q' _ IH He]; intros Hf.
  - constructor.
  - eapply sorterCorrect.sorted_push; try done; [apply IH; intros f Hin; apply Hf; by right|]. apply (Hf (offset, data)). by left.
  - eapply sorterCorrect.sorted_pop; [by apply IH|done].
Qed.

Lemma good_ext Str Str' y : receiveStream.good_state Str y → (∀ f, f ∈ receiveStream.h_frames y.2 → sorterCorrect.matches Str' f.2 f.1) → receiveStream.good_state Str' y.
Proof.
  destruct y as [[s w] h]. intros [Hg Hw] Hf. split; [|done]. destruct Hg as [[(hd & tk & Hs) ? ? ? ? ? ? ?] ? ? ? ? ? ?].
  split; try done. split; try done. exists hd, tk. by eapply sorted_ext.
Qed.

(** What the receive side knows comes from the send side. *)
Record linked (x : snd_state) (y : rcv_state) : Prop := {
  k_send : sendCorrect.good_state x;
  k_recv : receiveStream.good_state (content (sendCorrect.h_sent x.2)) y;
  k_frames : ∀ f, f ∈ receiveStream.h_frames y.2 → ∃ g, g ∈ sendCorrect.h_popped x.2 ∧ sf_Offset g = f.1 ∧ sf_Data g = f.2;
  k_final : receiveStream.finalOffset y.1.1 ≠ MaxByteCount → ∃ g, g ∈ sendCorrect.h_popped x.2 ∧ sf_Fin g = true ∧
    sf_Offset g + blen (sf_Data g) = receiveStream.finalOffset y.1.1;
}.

Lemma popped_mono x x' f : sendCorrect.step x x' → f ∈ sendCorrect.h_popped x.2 → f ∈ sendCorrect.h_popped x'.2.
Proof. intros Hs Hf. destruct Hs; try done; try (by right); simpl in *; by destruct o. Qed.

Lemma linked_matches x y : linked x y → ∀ f, f ∈ receiveStream.h_frames y.2 → sorterCorrect.matches (content (sendCorrect.h_sent x.2)) f.2 f.1.
Proof.
  intros [Hs _ Hf _] f Hin. destruct (Hf f Hin) as (g & Hg & <- & <-). apply carries_matches.
  apply (sendCorrect.f_carries _ _ _ _ (sendCorrect.g_frames _ _ _ Hs g (or_intror Hg))).
Qed.

Lemma transfer_linked x y : transfer x y → linked x y.
Proof.
  induction 1 as [x y Hx Hy|x x' y _ IH Hs|x y y' _ IH Hs|x s w h f g now cb s' w' _ IH Hf Hsame He].
  - split; [by apply sendCorrect.start_good|by apply receiveStream.rs_start_good|..]; destruct Hy; simpl; [by intros f ?%elem_of_nil|done].
  - assert (Hs' : sendCorrect.good_state x') by (eapply sendCorrect.step_good; [apply IH|done]).
    assert (Hfr : ∀ f, f ∈ receiveStream.h_frames y.2 → ∃ g, g ∈ sendCorrect.h_popped x'.2 ∧ sf_Offset g = f.1 ∧ sf_Data g = f.2).
    { intros f Hin. destruct (k_frames _ _ IH f Hin) as (g & ? & ?). exists g. split; [by eapply popped_mono|done]. }
    split; [done| |done|].
    + eapply good_ext; [apply IH|]. intros f Hin. destruct (Hfr f Hin) as (g & Hg & <- & <-). apply carries_matches.
      apply (sendCorrect.f_carries _ _ _ _ (sendCorrect.g_frames _ _ _ Hs' g (or_intror Hg))).
    + intros Hne. destruct (k_final _ _ IH Hne) as (g & ? & ?). exists g. split; [by eapply popped_mono|done].
  - destruct IH as [H1 H2 H3 H4]. destruct (receiveStream.local_step_good _ _ _ H2 Hs) as (Hg & E1 & E2). split; [done|done|by rewrite E2|by rewrite E1].
  - destruct IH as [H1 [Hg Hw] H3 H4]. simpl in *. destruct Hsame as (E1 & E2 & E3 & E4).
    pose proof (sendCorrect.g_frames _ _ _ H1 f (or_intror Hf)) as Hok. destruct (sendCorrect.carries_bounds _ _ (sendCorrect.f_carries _ _ _ _ Hok)) as [Hb1 Hb2].
    destruct (sendCorrect.g_fc _ _ _ H1) as [_ Hfc]. rewrite (sendCorrect.g_off _ _ _ H1) in Hfc.
    destruct (receiveStream.frame_ok (content (sendCorrect.h_sent x.2)) _ _ _ _ _ _ _ _ _ _ Hg Hw ltac:(rewrite E2; lia) ltac:(rewrite E2, E3; lia)
      ltac:(rewrite E2, E3; apply carries_matches, Hok) He) as (Hg' & Hw' & Hfin). simpl in *. split; simpl; try done.
    + intros f0 Hin. unfold receiveStream.frame_hist in Hin. simpl in Hin. destruct (bool_decide _); [by apply H3|].
      apply elem_of_cons in Hin as [->|Hin]; [|by apply H3]. exists f. by rewrite E2, E3.
    + rewrite Hfin. destruct (sf_Fin g) eqn:EF; [|done]. intros _. exists f. rewrite E2, E3. by split_and!.
Qed.

(** The bytes read are the first bytes sent. *)
Lemma out_prefix x s w h : linked x (s, w, h) → ∃ rest, sendCorrect.h_sent x.2 = receiveStream.h_out h ++ rest.
Proof.
  intros Hl. pose proof Hl as [Hs [Hg _] Hfr _]. simpl in *. pose proof (receiveStream.g_core _ _ _ _ _ _ Hg) as Hc.
  set (out := receiveStream.h_out h) in *. set (sent := sendCorrect.h_sent x.2) in *.
  assert (Hlen : blen out ≤ blen sent).
  { destruct (Z.lt_ge_cases 0 (blen out)) as [Hp|]; [|pose proof (blen_nonneg sent); lia].
    destruct (receiveStream.taken_received _ _ _ _ (blen out - 1) Hc) as (f & Hin & Hf).
    { rewrite blen_app. pose proof (blen_nonneg (receiveStream.rest s)). lia. }
    destruct (Hfr f Hin) as (g & Hpop & E1 & E2). rewrite <- E1, <- E2 in Hf.
    pose proof (sendCorrect.g_frames _ _ _ Hs g (or_intror Hpop)) as Hok. destruct (sendCorrect.carries_bounds _ _ (sendCorrect.f_carries _ _ _ _ Hok)).
    unfold sent. lia. }
  exists (drop (length out) sent). rewrite <- (take_drop (length out) sent) at 1. f_equal.
  destruct (receiveStream.c_sorted _ _ _ _ Hc) as (? & ? & Hso). destruct (sorterCorrect.sorted_inv _ _ _ _ _ _ Hso) as (_ & Hm & _).
  apply list_eq. intros i. destruct (out !! i) as [b|] eqn:Hb.
  - pose proof (lookup_lt_Some _ _ _ Hb). rewrite lookup_take_lt by lia.
    assert (b = content sent (Z.of_nat i)) as -> by (apply (Hm i); by apply lookup_app_l_Some). unfold content. rewrite Nat2Z.id.
    destruct (lookup_lt_is_Some_2 sent i) as [c Hcc]; [unfold blen in Hlen; lia|]. rewrite Hcc. f_equal. symmetry. by apply nth_lookup_Some.
  - apply lookup_ge_None in Hb. rewrite lookup_take_ge by lia. done.
Qed.

(** C3: a stream arrives as it was written.  Whatever the network does to the packets and however reads and
    writes interleave, the bytes returned by [Read] are the first bytes of those
    accepted by [Write], and [Read] reports the end of the
    stream only after [Close], when all of them were returned. *)
Theorem stream_transferred x s w h : transfer x (s, w, h) →
  (∃ rest, sendCorrect.h_accepted x.2 ++ default [] (sendCorrect.h_blocked x.2) = receiveStream.h_out h ++ rest) ∧
  (receiveStream.finRead s = true →
     receiveStream.h_out h = sendCorrect.h_accepted x.2 ++ default [] (sendCorrect.h_blocked x.2) ∧ sendStream.finishedWriting x.1.1 = true).
Proof.
  intros Hl%transfer_linked. pose proof Hl as [Hs [Hg _] Hfr Hfin]. simpl in *.
  destruct (sendCorrect.sent_accepted _ _ _ Hs) as (more & Hacc & Hmore).
  destruct (out_prefix _ _ _ _ Hl) as (rest & Hrest). split.
  { exists (rest ++ more). by rewrite Hacc, Hrest, app_assoc. }
  intros HF. destruct (receiveStream.g_eof _ _ _ _ _ _ Hg HF) as [Hne Hlen].
  destruct (receiveStream.g_done _ _ _ _ _ _ Hg) as [|(_ & Hknown & _)]; [done|].
  destruct (Hfin Hknown) as (f & Hf & Hff & Hfl). destruct (sendCorrect.f_fin _ _ _ _ (sendCorrect.g_frames _ _ _ Hs f (or_intror Hf)) Hff) as [Hsent Hend].
  destruct (sendCorrect.g_fin _ _ _ Hs Hsent) as (Hw & Hn & Hd). split; [|done]. rewrite Hacc, (Hmore Hn Hd), app_nil_r, Hrest.
  assert (Hr : blen rest = 0) by (rewrite Hrest, blen_app in Hend; lia). destruct rest; [by rewrite app_nil_r|]. rewrite blen_cons in Hr.
  pose proof (blen_nonneg rest). lia.
Qed.

(** The frame of the example of the send side, delivered twice, is read. *)
Definition ex_got : receiveStream.receiveStream * receiveStream.world :=
  (receiveStream.handleStreamFrame 0 sendCorrect.ex_frame None
    (receiveStream.handleStreamFrame 0 sendCorrect.ex_frame None receiveStream.ex_new).2).2.
Definition ex_read : receiveStream.receiveStream * receiveStream.world := (receiveStream.Read (λ _, 0) 10 ex_got).2.

Lemma transfer_send_rtc x x' y : transfer x y → rtc sendCorrect.step x x' → transfer x' y.
Proof. intros H Hs. induction Hs; [done|]. apply IHHs. by eapply transfer_send. Qed.

Lemma ex_transfer : transfer (sendCorrect.ex_popped.1, sendCorrect.ex_popped.2,
    sendCorrect.mkHist [sendCorrect.ex_frame] [] [sendCorrect.ex_frame] [1; 2; 3] [1; 2; 3] None)
  (ex_read.1, ex_read.2, receiveStream.mkHist [(0, [1; 2; 3]); (0, [1; 2; 3])] [1; 2; 3] None 0).
Proof.
  destruct sendCorrect.ex_run_popped as (x0 & Hx0 & Hsteps). set (x := (_, _, sendCorrect.mkHist _ _ _ _ _ _)) in *.
  set (y0 := (receiveStream.ex_new.1, receiveStream.ex_new.2, receiveStream.mkHist [] [] None 0)).
  assert (H0 : transfer x y0).
  { eapply transfer_send_rtc; [|done]. apply transfer_start; [done|].
    by apply (receiveStream.start_new 4 receiveStream.ex_fc (receiveStream.mkWorld (flowcontrol.NewConnectionFlowController 100 100 (Some (λ _, true))) [] [])). }
  set (s1 := (receiveStream.handleStreamFrame 0 sendCorrect.ex_frame None receiveStream.ex_new).2).
  assert (H1 : transfer x (s1.1, s1.2, receiveStream.mkHist [(0, [1; 2; 3])] [] None 0)).
  { refine (transfer_deliver x _ _ _ sendCorrect.ex_frame sendCorrect.ex_frame 0 None s1.1 s1.2 H0 _ _ _);
      [apply elem_of_cons; by left|done|vm_compute; reflexivity]. }
  assert (H2 : transfer x (ex_got.1, ex_got.2, receiveStream.mkHist [(0, [1; 2; 3]); (0, [1; 2; 3])] [] None 0)).
  { refine (transfer_deliver x _ _ _ sendCorrect.ex_frame sendCorrect.ex_frame 0 None ex_got.1 ex_got.2 H1 _ _ _);
      [apply elem_of_cons; by left|done|vm_compute; reflexivity]. }
  eapply transfer_local; [exact H2|].
  refine (receiveStream.step_read ex_got.1 ex_got.2 _ (λ _, 0) 10 (receiveStream.Done true [1; 2; 3] (Some receiveStream.ReadEOF)) ex_read.1 ex_read.2 _ _ _);
    [done|done|vm_compute; reflexivity].
Qed.

Lemma stream_transferred_witness : receiveStream.finRead ex_read.1 = true ∧ [1; 2; 3] = [1; 2; 3] ++ default [] None.
Proof.
  assert (HF : receiveStream.finRead ex_read.1 = true) by (vm_compute; reflexivity). split; [exact HF|].
  apply (stream_transferred _ _ _ _ ex_transfer). exact HF.
Defined.
End transfer.
