(* ===== verification/Headers.v ===== *)
(** Packet headers (internal/wire/header.go, extended_header.go,
    short_header.go, version_negotiation.go) and versions
    (internal/protocol/version.go, internal/utils/byteorder_big_endian.go). *)

From S2P Require Import Prelude.
From S2P Require Import Varint.
From S2P Require Import Protocol.

Module headers.
Import protocol.

(** * Big-endian numbers *)

Definition PutUint16 (v : Z) : bytes := [u8 (Z.shiftr v 8); u8 v].
Definition PutUint32 (v : Z) : bytes := [u8 (Z.shiftr v 24); u8 (Z.shiftr v 16); u8 (Z.shiftr v 8); u8 v].

Definition Uint16 (b2 b1 : Z) : Z := u16 (b1 + u16 (Z.shiftl b2 8)).
Definition Uint24 (b3 b2 b1 : Z) : Z := Z.lor (Z.lor b1 (u32 (Z.shiftl b2 8))) (u32 (Z.shiftl b3 16)).
Definition Uint32 (b4 b3 b2 b1 : Z) : Z := u32 (b1 + u32 (Z.shiftl b2 8) + u32 (Z.shiftl b3 16) + u32 (Z.shiftl b4 24)).

Definition ReadUint16 : rd Z := b2 ← ReadByte; b1 ← ReadByte; mret (Uint16 b2 b1).
Definition ReadUint24 : rd Z := b3 ← ReadByte; b2 ← ReadByte; b1 ← ReadByte;
  mret (u32 (b1 + u32 (Z.shiftl b2 8) + u32 (Z.shiftl b3 16))).
Definition ReadUint32 : rd Z := b4 ← ReadByte; b3 ← ReadByte; b2 ← ReadByte; b1 ← ReadByte; mret (Uint32 b4 b3 b2 b1).

(** * Versions *)

Definition Version1 : Z := 0x1.
Definition Version2 : Z := 0x6b3343cf.
Definition SupportedVersions : list Z := [Version1; Version2].
Definition IsSupportedVersion (supported : list Z) (v : Z) : bool := existsb (λ t, t =? v) supported.

(** The two loops: the first of our versions that is one of theirs. *)
Fixpoint ChooseSupportedVersion (ours theirs : list Z) : option Z :=
  match ours with
  | [] => None
  | v :: ours => if existsb (λ t, v =? t) theirs then Some v else ChooseSupportedVersion ours theirs
  end.

(** The random bytes and the random position are arguments. *)
Definition generateReservedVersion (r3 r2 r1 r0 : Z) : Z := Z.land (Z.lor (Uint32 r3 r2 r1 r0) 0x0a0a0a0a) 0xfafafafa.

Definition GetGreasedVersions (reserved : Z) (randPos : nat) (supported : list Z) : list Z :=
  take randPos supported ++ reserved :: drop randPos supported.

(** * The version-independent part *)

Definition IsPotentialQUICPacket (firstByte : Z) : bool := 0 <? Z.land firstByte 0x40.
Definition IsLongHeaderPacket (firstByte : Z) : bool := 0 <? Z.land firstByte 0x80.

Definition wire_ParseConnectionID (data : bytes) (shortHeaderConnIDLen : Z) : res ConnectionID :=
  match data with
  | [] => Err EOF
  | first :: _ =>
      if negb (IsLongHeaderPacket first) then
        if blen data <? shortHeaderConnIDLen + 1 then Err EOF
        else ParseConnectionID (take (Z.to_nat shortHeaderConnIDLen) (drop 1 data))
      else if blen data <? 6 then Err EOF
      else
        destConnIDLen ← get_at data 5;
        if MaxConnIDLen <? destConnIDLen then Err ErrInvalidConnectionIDLen
        else if blen data <? 6 + destConnIDLen then Err EOF
        else ParseConnectionID (take (Z.to_nat destConnIDLen) (drop 6 data))
  end.

(** [io.ReadFull] with [io.ErrUnexpectedEOF] turned into [io.EOF]. *)
Definition ReadFull_EOF (n : Z) : rd bytes := λ s,
  match ReadFull n s with
  | (Err ErrUnexpectedEOF, s') => (Err EOF, s')
  | r => r
  end.

(** [r.Seek(5, io.SeekStart)], which may go beyond the end. *)
Definition parseArbitraryLenConnectionIDs (data : bytes) : res (bytes * bytes) * bytes :=
  (destConnIDLen ← ReadByte;
   destConnID ← ReadFull_EOF destConnIDLen;
   srcConnIDLen ← ReadByte;
   srcConnID ← ReadFull_EOF srcConnIDLen;
   mret (destConnID, srcConnID)) (drop 5 data).

Definition ParseArbitraryLenConnectionIDs (data : bytes) : res (Z * bytes * bytes) :=
  match parseArbitraryLenConnectionIDs data with
  | (Ok (dest, src), rest) => Ok (blen data - blen rest, dest, src)
  | (Err e, _) => Err e
  | (Panic p, _) => Panic p
  end.

Definition ParseVersion (data : bytes) : res Z :=
  match data with
  | _ :: a :: b :: c :: d :: _ => Ok (Uint32 a b c d)
  | _ => Err EOF
  end.

Definition IsVersionNegotiationPacket (b : bytes) : bool :=
  match b with
  | t :: b1 :: b2 :: b3 :: b4 :: _ => IsLongHeaderPacket t && (b1 =? 0) && (b2 =? 0) && (b3 =? 0) && (b4 =? 0)
  | _ => false
  end.

Definition Is0RTTPacket (b : bytes) : bool :=
  match b with
  | t :: b1 :: b2 :: b3 :: b4 :: _ =>
      if negb (IsLongHeaderPacket t) then false else
      let version := Uint32 b1 b2 b3 b4 in
      if version =? Version1 then Z.land (Z.shiftr t 4) 3 =? 1
      else if version =? Version2 then Z.land (Z.shiftr t 4) 3 =? 2
      else false
  | _ => false
  end.

(** * Long headers *)

Inductive PacketType := PacketTypeInitial | PacketTypeRetry | PacketTypeHandshake | PacketType0RTT.

#[global] Instance PacketType_eq_dec : EqDecision PacketType.
Proof. solve_decision. Defined.

(** The type is not set for version negotiation packets and unknown versions. *)
Record Header := mkHeader {
  typeByte : Z;
  h_Type : option PacketType;
  h_Version : Z;
  SrcConnectionID : ConnectionID;
  DestConnectionID : ConnectionID;
  h_Length : Z;
  h_Token : bytes;
  parsedLen : Z;
}.

Definition long_type (version t : Z) : PacketType :=
  let bits := Z.land (Z.shiftr t 4) 3 in
  if version =? Version2 then
    if bits =? 0 then PacketTypeRetry else if bits =? 1 then PacketTypeInitial
    else if bits =? 2 then PacketType0RTT else PacketTypeHandshake
  else
    if bits =? 0 then PacketTypeInitial else if bits =? 1 then PacketType0RTT
    else if bits =? 2 then PacketTypeHandshake else PacketTypeRetry.

(** The header parsed, and whether its version is not supported.  [seek n] is
    [b.Seek(n, io.SeekCurrent)]. *)
Definition seek (n : Z) : rd () := λ s, (Ok tt, drop (Z.to_nat n) s).

Definition header_parseLongHeader (t : Z) : rd (Header * bool) :=
  v ← ReadUint32;
  if negb (v =? 0) && (Z.land t 0x40 =? 0) then rd_fail (ErrMsg "not a QUIC packet") else
  destConnIDLen ← ReadByte;
  dest ← ReadConnectionID destConnIDLen;
  srcConnIDLen ← ReadByte;
  src ← ReadConnectionID srcConnIDLen;
  if v =? 0 then mret (mkHeader t None v src dest 0 [] 0, false) else
  if negb (IsSupportedVersion SupportedVersions v) then mret (mkHeader t None v src dest 0 [] 0, true) else
  let typ := long_type v t in
  match typ with
  | PacketTypeRetry =>
      l ← rd_len;
      let tokenLen := l - 16 in
      if tokenLen <=? 0 then rd_fail EOF else
      token ← ReadFull tokenLen;
      _ ← seek 16;
      mret (mkHeader t (Some typ) v src dest 0 token 0, false)
  | _ =>
      token ← (match typ with
               | PacketTypeInitial =>
                   tokenLen ← quicvarint.Read;
                   l ← rd_len;
                   if l <? tokenLen then rd_fail EOF else ReadFull tokenLen
               | _ => mret []
               end);
      pl ← quicvarint.Read;
      mret (mkHeader t (Some typ) v src dest (i64 pl) token 0, false)
  end.

Definition set_parsedLen (n : Z) (h : Header) : Header :=
  mkHeader (typeByte h) (h_Type h) (h_Version h) (SrcConnectionID h) (DestConnectionID h) (h_Length h) (h_Token h) n.

Definition parseHeader : rd (Header * bool) :=
  startLen ← rd_len;
  t ← ReadByte;
  '(h, unsupported) ← header_parseLongHeader t;
  l ← rd_len;
  mret (set_parsedLen (startLen - l) h, unsupported).

Inductive parsed :=
| Parsed (hdr : Header) (packet rest : bytes)
| Unsupported (hdr : Header).

Definition errNotLong : go_error := ErrMsg "not a long header packet".
Definition errPacketLength : go_error := ErrMsg "packet length is smaller than the expected length".

Definition ParsePacket (data : bytes) : res parsed :=
  match data with
  | [] => Err errNotLong
  | first :: _ =>
      if negb (IsLongHeaderPacket first) then Err errNotLong else
      match parseHeader data with
      | (Err e, _) => Err e
      | (Panic p, _) => Panic p
      | (Ok (hdr, true), _) => Ok (Unsupported hdr)
      | (Ok (hdr, false), _) =>
          let packetLen := i64 (parsedLen hdr + h_Length hdr) in
          if blen data <? packetLen then Err errPacketLength else
          if packetLen <? 0 then Panic "slice bounds out of range" else
          Ok (Parsed hdr (take (Z.to_nat packetLen) data) (drop (Z.to_nat packetLen) data))
      end
  end.

(** * Extended headers

    [KeyPhase] is only used with short headers. *)
Record ExtendedHeader := mkExtendedHeader {
  eh_Header : Header;
  eh_typeByte : Z;
  PacketNumberLen : Z;
  PacketNumber : Z;
  eh_parsedLen : Z;
}.

Definition ErrInvalidReservedBits : go_error := ErrMsg "invalid reserved bits".

Definition readPacketNumber (pnLen : Z) : rd Z :=
  if pnLen =? 1 then ReadByte else
  if pnLen =? 2 then ReadUint16 else
  if pnLen =? 3 then ReadUint24 else
  if pnLen =? 4 then ReadUint32 else
  rd_fail (ErrMsg "invalid packet number length").

(** The header and whether the reserved bits are valid; [h] was parsed, so its
    [ParsedLen] is positive. *)
Definition ParseExtended (h : Header) : rd (ExtendedHeader * bool) :=
  startLen ← rd_len;
  t ← ReadByte;
  _ ← seek (parsedLen h - 1);
  let pnLen := u8 (Z.land t 3 + 1) in
  pn ← readPacketNumber pnLen;
  l ← rd_len;
  mret (mkExtendedHeader h t pnLen pn (startLen - l), Z.land t 0xc =? 0).

Definition appendPacketNumber (b : bytes) (pn pnLen : Z) : res bytes :=
  if pnLen =? 1 then Ok (b ++ [u8 pn]) else
  if pnLen =? 2 then Ok (b ++ PutUint16 (u16 pn)) else
  if pnLen =? 3 then Ok (b ++ drop 1 (PutUint32 (u32 pn))) else
  if pnLen =? 4 then Ok (b ++ PutUint32 (u32 pn)) else
  Err (ErrMsg "invalid packet number length").

(** A type that is not set (0) is written like the value 0. *)
Definition type_bits (version : Z) (t : option PacketType) : Z :=
  if version =? Version2 then
    match t with
    | Some PacketTypeInitial => 1 | Some PacketType0RTT => 2 | Some PacketTypeHandshake => 3 | Some PacketTypeRetry => 0
    | None => 0
    end
  else
    match t with
    | Some PacketTypeInitial => 0 | Some PacketType0RTT => 1 | Some PacketTypeHandshake => 2 | Some PacketTypeRetry => 3
    | None => 0
    end.

(** [v] is the version of the connection. *)
Definition ExtendedHeader_Append (b : bytes) (v : Z) (h : ExtendedHeader) : res bytes :=
  let hdr := eh_Header h in
  if MaxConnIDLen <? ConnectionID_Len (DestConnectionID hdr) then Err (ErrMsg "invalid connection ID length") else
  if MaxConnIDLen <? ConnectionID_Len (SrcConnectionID hdr) then Err (ErrMsg "invalid connection ID length") else
  let firstByte := Z.lor 0xc0 (u8 (Z.shiftl (type_bits v (h_Type hdr)) 4)) in
  let firstByte := match h_Type hdr with
                   | Some PacketTypeRetry => firstByte
                   | _ => Z.lor firstByte (u8 (PacketNumberLen h - 1))
                   end in
  let b := b ++ [firstByte] ++ PutUint32 (u32 (h_Version hdr)) ++
    [u8 (ConnectionID_Len (DestConnectionID hdr))] ++ ConnectionID_Bytes (DestConnectionID hdr) ++
    [u8 (ConnectionID_Len (SrcConnectionID hdr))] ++ ConnectionID_Bytes (SrcConnectionID hdr) in
  match h_Type hdr with
  | Some PacketTypeRetry => Ok (b ++ h_Token hdr)
  | t =>
      b ← (match t with
           | Some PacketTypeInitial => b ← quicvarint.Append b (u64 (blen (h_Token hdr))); Ok (b ++ h_Token hdr)
           | _ => Ok b
           end);
      b ← quicvarint.AppendWithLen b (u64 (h_Length hdr)) 2;
      appendPacketNumber b (PacketNumber h) (PacketNumberLen h)
  end.

Definition GetLength (h : ExtendedHeader) : res Z :=
  let hdr := eh_Header h in
  let length := 1 + 4 + 1 + ConnectionID_Len (DestConnectionID hdr) + 1 + ConnectionID_Len (SrcConnectionID hdr) + PacketNumberLen h + 2 in
  match h_Type hdr with
  | Some PacketTypeInitial => l ← quicvarint.Len (u64 (blen (h_Token hdr))); Ok (length + (l + blen (h_Token hdr)))
  | _ => Ok length
  end.

(** * Short headers *)

(** The packet number at the start of [b]. *)
Definition getPacketNumber (pnLen : Z) (b : bytes) : res Z :=
  if pnLen =? 1 then match b with b1 :: _ => Ok b1 | _ => Panic "index out of range" end else
  if pnLen =? 2 then match b with b2 :: b1 :: _ => Ok (Uint16 b2 b1) | _ => Panic "slice bounds out of range" end else
  if pnLen =? 3 then match b with b3 :: b2 :: b1 :: _ => Ok (Uint24 b3 b2 b1) | _ => Panic "slice bounds out of range" end else
  if pnLen =? 4 then match b with b4 :: b3 :: b2 :: b1 :: _ => Ok (Uint32 b4 b3 b2 b1) | _ => Panic "slice bounds out of range" end else
  Err (ErrMsg "invalid packet number length").

(** The length, the packet number and its length, the key phase, and whether
    the reserved bits are valid. *)
Definition ParseShortHeader (data : bytes) (connIDLen : Z) : res (Z * Z * Z * KeyPhaseBit * bool) :=
  match data with
  | [] => Err EOF
  | first :: _ =>
      if 0 <? Z.land first 0x80 then Err (ErrMsg "not a short header packet") else
      if Z.land first 0x40 =? 0 then Err (ErrMsg "not a QUIC packet") else
      let pnLen := u8 (Z.land first 3 + 1) in
      if blen data <? 1 + pnLen + connIDLen then Err EOF else
      let pos := 1 + connIDLen in
      pn ← getPacketNumber pnLen (drop (Z.to_nat pos) data);
      let kp := if 0 <? Z.land first 4 then KeyPhaseOne else KeyPhaseZero in
      Ok (1 + connIDLen + pnLen, pn, pnLen, kp, Z.land first 0x18 =? 0)
  end.

Definition AppendShortHeader (b : bytes) (connID : ConnectionID) (pn pnLen : Z) (kp : KeyPhaseBit) : res bytes :=
  let t := Z.lor 0x40 (u8 (pnLen - 1)) in
  let t := match kp with KeyPhaseOne => Z.lor t 4 | _ => t end in
  appendPacketNumber (b ++ [t] ++ ConnectionID_Bytes connID) pn pnLen.

Definition ShortHeaderLen (dest : ConnectionID) (pnLen : Z) : Z := 1 + ConnectionID_Len dest + pnLen.

(** * Version negotiation *)

Fixpoint read_versions (b : bytes) : list Z :=
  match b with
  | b3 :: b2 :: b1 :: b0 :: b => Uint32 b3 b2 b1 b0 :: read_versions b
  | _ => []
  end.

Definition ParseVersionNegotiationPacket (b : bytes) : res (bytes * bytes * list Z) :=
  '(n, dest, src) ← ParseArbitraryLenConnectionIDs b;
  let b := drop (Z.to_nat n) b in
  if blen b =? 0 then Err (ErrMsg "Version Negotiation packet has empty version list") else
  if negb (blen b mod 4 =? 0) then Err (ErrMsg "Version Negotiation packet has a version list with an invalid length") else
  Ok (dest, src, read_versions b).

(** The random first byte is an argument. *)
Definition ComposeVersionNegotiation (random : Z) (destConnID srcConnID : bytes) (greasedVersions : list Z) : bytes :=
  [Z.lor random 0xc0; 0; 0; 0; 0] ++ [u8 (blen destConnID)] ++ destConnID ++ [u8 (blen srcConnID)] ++ srcConnID ++
  flat_map (λ v, PutUint32 (u32 v)) greasedVersions.

(** * Lemmas *)

Lemma Uint32_bytes v : 0 ≤ v < 2 ^ 32 → Uint32 (u8 (Z.shiftr v 24)) (u8 (Z.shiftr v 16)) (u8 (Z.shiftr v 8)) (u8 v) = v.
Proof.
  intros Hv. unfold Uint32, u32, u8. rewrite !Z.shiftl_mul_pow2, !Z.shiftr_div_pow2 by lia. Z.div_mod_to_equations. lia.
Qed.

Lemma ReadUint24_bytes v : u32 (u8 v + u32 (Z.shiftl (u8 (Z.shiftr v 8)) 8) + u32 (Z.shiftl (u8 (Z.shiftr v 16)) 16)) = v mod 2 ^ 24.
Proof. unfold u32, u8. rewrite !Z.shiftl_mul_pow2, !Z.shiftr_div_pow2 by lia. Z.div_mod_to_equations. lia. Qed.

Lemma lor_shiftl a b k : 0 ≤ k → 0 ≤ a < 2 ^ k → Z.lor a (Z.shiftl b k) = a + b * 2 ^ k.
Proof.
  intros Hk Ha. rewrite <- Z.shiftl_mul_pow2 by done.
  rewrite <- Z.add_lor_land. enough (Z.land a (Z.shiftl b k) = 0) by lia. apply Z.bits_inj'. intros i Hi.
  rewrite Z.land_spec, Z.bits_0. destruct (Z.lt_ge_cases i k).
  - by rewrite Z.shiftl_spec_low, andb_false_r by lia.
  - destruct (Z.eq_dec a 0) as [->|]; [by rewrite Z.bits_0|]. rewrite (Z.bits_above_log2 a i); [done|lia|].
    apply Z.log2_lt_pow2; [lia|]. apply Z.lt_le_trans with (2 ^ k); [lia|]. by apply Z.pow_le_mono_r.
Qed.

Lemma Uint24_sum b3 b2 b1 : is_byte b3 → is_byte b2 → is_byte b1 → Uint24 b3 b2 b1 = u32 (b1 + u32 (Z.shiftl b2 8) + u32 (Z.shiftl b3 16)).
Proof.
  unfold is_byte. intros H3 H2 H1. unfold Uint24. rewrite !(u32_small (Z.shiftl _ _)) by (rewrite Z.shiftl_mul_pow2; lia).
  rewrite (lor_shiftl b1 b2 8), (lor_shiftl _ b3 16) by lia. rewrite !Z.shiftl_mul_pow2 by lia. rewrite u32_small; lia.
Qed.

Lemma Uint16_bytes v : Uint16 (u8 (Z.shiftr v 8)) (u8 v) = v mod 2 ^ 16.
Proof. unfold Uint16, u16, u8. rewrite !Z.shiftl_mul_pow2, !Z.shiftr_div_pow2 by lia. Z.div_mod_to_equations. lia. Qed.

Lemma ReadUint32_Put v s : 0 ≤ v < 2 ^ 32 → ReadUint32 (PutUint32 v ++ s) = (Ok v, s).
Proof. intros Hv. unfold ReadUint32, PutUint32, mbind, rd_bind. simpl. by rewrite Uint32_bytes. Qed.

(** A packet number is read back truncated. *)
Lemma packet_number_roundtrip b pn l : 1 ≤ l ≤ 4 → ∃ w, appendPacketNumber b pn l = Ok (b ++ w) ∧ blen w = l ∧
  ∀ s, readPacketNumber l (w ++ s) = (Ok (pn mod 2 ^ (8 * l)), s) ∧ getPacketNumber l (w ++ s) = Ok (pn mod 2 ^ (8 * l)).
Proof.
  intros Hl. assert (l = 1 ∨ l = 2 ∨ l = 3 ∨ l = 4) as [->|[->|[->| ->]]] by lia;
    (eexists; split; [reflexivity|]; split; [reflexivity|]); intros s; unfold readPacketNumber, getPacketNumber; simpl.
  - done.
  - unfold ReadUint16, mbind, rd_bind. simpl. rewrite Uint16_bytes.
    assert (u16 pn mod 2 ^ 16 = pn mod 2 ^ (8 * 2)) as -> by (unfold u16; Z.div_mod_to_equations; lia). done.
  - unfold ReadUint24, mbind, rd_bind. simpl. rewrite Uint24_sum by apply u8_range. rewrite ReadUint24_bytes.
    assert (u32 pn mod 2 ^ 24 = pn mod 2 ^ (8 * 3)) as -> by (unfold u32; Z.div_mod_to_equations; lia). done.
  - unfold ReadUint32, mbind, rd_bind. simpl. by rewrite Uint32_bytes by (unfold u32; apply Z.mod_pos_bound; lia).
Qed.

(** The first byte of a long header, whatever header protection did to its four
    lower bits. *)
Lemma long_first_byte t bits : 0 ≤ t < 256 → Z.shiftr t 4 = 12 + bits → 0 ≤ bits < 4 →
  IsLongHeaderPacket t = true ∧ (Z.land t 0x40 =? 0) = false ∧ Z.land (Z.shiftr t 4) 3 = bits.
Proof.
  intros Ht Hs Hb. rewrite Hs.
  pose proof (forall_below 256 (λ t, forallb (λ bits, implb (Z.shiftr t 4 =? 12 + bits)
    (IsLongHeaderPacket t && negb (Z.land t 0x40 =? 0) && (Z.land (12 + bits) 3 =? bits))) (seqZ 0 4)) ltac:(by vm_compute) t Ht) as H.
  pose proof (forall_below 4 _ H bits Hb) as H'. simpl in H'. rewrite Hs, Z.eqb_refl in H'. simpl in H'.
  apply andb_true_iff in H' as [[H1 H2%negb_true_iff]%andb_true_iff H3%Z.eqb_eq]. done.
Qed.

Lemma long_type_bits v typ t : Z.land (Z.shiftr t 4) 3 = type_bits v (Some typ) → long_type v t = typ.
Proof. intros H. unfold long_type. rewrite H. unfold type_bits. destruct (v =? Version2); by destruct typ. Qed.

Lemma type_bits_range v typ : 0 ≤ type_bits v typ < 4.
Proof. unfold type_bits. destruct (v =? Version2), typ as [[]|]; lia. Qed.

Definition supported (v : Z) : Prop := v = Version1 ∨ v = Version2.

Lemma supported_eq v : supported v → IsSupportedVersion SupportedVersions v = true ∧ (v =? 0) = false ∧ 0 ≤ v < 2 ^ 32.
Proof. by intros [-> | ->]. Qed.

(** The fields of the header between the first byte and the length. *)
Definition middle (v : Z) (dest src : ConnectionID) (token : bytes) (typ : PacketType) : bytes :=
  PutUint32 v ++ [ConnectionID_Len dest] ++ ConnectionID_Bytes dest ++ [ConnectionID_Len src] ++ ConnectionID_Bytes src ++
  match typ with PacketTypeInitial => quicvarint.enc (blen token) ++ token | _ => [] end.

Definition token_ok (typ : PacketType) (token : bytes) : Prop :=
  match typ with PacketTypeInitial => quicvarint.encodable (blen token) | _ => token = [] end.

Lemma parseLongHeader_ok t v dest src token typ w len s : 0 ≤ t < 256 → Z.shiftr t 4 = 12 + type_bits v (Some typ) → supported v →
  ConnectionID_wf dest → ConnectionID_wf src → token_ok typ token → typ ≠ PacketTypeRetry → quicvarint.encodable len →
  (∀ s, quicvarint.Read (w ++ s) = (Ok len, s)) →
  header_parseLongHeader t (middle v dest src token typ ++ w ++ s) = (Ok (mkHeader t (Some typ) v src dest len token 0, false), s).
Proof.
  intros Ht Hbits Hv Hd Hs Htok Hretry Hlen Hw. destruct (long_first_byte t _ Ht Hbits (type_bits_range v (Some typ))) as (_ & H40 & Hb).
  destruct (supported_eq v Hv) as (Hsup & Hv0 & Hvr). unfold header_parseLongHeader, middle. rewrite <- !app_assoc.
  rewrite (rd_bind_ok _ _ _ _ _ (ReadUint32_Put v _ Hvr)). rewrite Hv0, H40. cbn [negb andb app].
  rewrite (rd_bind_ok _ _ _ _ _ (ReadByte_cons _ _)). rewrite (rd_bind_ok _ _ _ _ _ (ReadConnectionID_app dest _ Hd)).
  rewrite (rd_bind_ok _ _ _ _ _ (ReadByte_cons _ _)). rewrite (rd_bind_ok _ _ _ _ _ (ReadConnectionID_app src _ Hs)).
  rewrite Hsup. cbn [negb]. rewrite (long_type_bits v typ t Hb).
  assert (Hrest : ∀ token s, (pl ← quicvarint.Read; mret (mkHeader t (Some typ) v src dest (i64 pl) token 0, false)) (w ++ s) =
    (Ok (mkHeader t (Some typ) v src dest len token 0, false), s)).
  { intros tok s'. rewrite (rd_bind_ok _ _ _ _ _ (Hw s')). by rewrite (quicvarint.encodable_i64 _ Hlen). }
  destruct typ; [|done| |]; cbn [token_ok] in Htok; try (subst token; apply Hrest).
  rewrite <- app_assoc. erewrite rd_bind_ok; [apply Hrest|]. erewrite rd_bind_ok; [|by apply quicvarint.Read_enc].
  rewrite rd_len_bind. rewrite (proj2 (Z.ltb_ge _ _)) by (rewrite blen_app; pose proof (blen_nonneg (w ++ s)); lia). apply ReadFull_app.
Qed.

(** The first byte written for a long header. *)
Definition first_byte (v : Z) (typ : PacketType) (l : Z) : Z := Z.lor (Z.lor 0xc0 (u8 (Z.shiftl (type_bits v (Some typ)) 4))) (u8 (l - 1)).

Lemma first_byte_eq v typ l : 1 ≤ l ≤ 4 →
  0 ≤ first_byte v typ l < 256 ∧ Z.shiftr (first_byte v typ l) 4 = 12 + type_bits v (Some typ) ∧
  u8 (Z.land (first_byte v typ l) 3 + 1) = l ∧ (Z.land (first_byte v typ l) 0xc =? 0) = true.
Proof.
  intros Hl. unfold first_byte. pose proof (type_bits_range v (Some typ)) as Hb. set (t := type_bits v (Some typ)) in *. clearbody t.
  assert (l = 1 ∨ l = 2 ∨ l = 3 ∨ l = 4) as [->|[->|[->| ->]]] by lia;
    assert (t = 0 ∨ t = 1 ∨ t = 2 ∨ t = 3) as [->|[->|[->| ->]]] by lia; vm_compute; intuition discriminate.
Qed.

(** The fields of a header that is written with a packet number. *)
Definition writable (v : Z) (typ : PacketType) (h : ExtendedHeader) : Prop :=
  let hdr := eh_Header h in
  supported v ∧ typ ≠ PacketTypeRetry ∧ h_Type hdr = Some typ ∧ h_Version hdr = v ∧
  ConnectionID_wf (DestConnectionID hdr) ∧ ConnectionID_wf (SrcConnectionID hdr) ∧ token_ok typ (h_Token hdr) ∧
  0 ≤ h_Length hdr < 2 ^ 14 ∧ 1 ≤ PacketNumberLen h ≤ 4.

Lemma length_field b n : 0 ≤ n < 2 ^ 14 → ∃ w, quicvarint.AppendWithLen b (u64 n) 2 = Ok (b ++ w) ∧ blen w = 2 ∧
  ∀ s, quicvarint.Read (w ++ s) = (Ok n, s).
Proof.
  intros Hn. assert (quicvarint.encodable n) by (unfold quicvarint.encodable, quicvarint.Max, quicvarint.maxVarInt8; lia).
  rewrite quicvarint.encodable_u64 by done. apply quicvarint.AppendWithLen_enc; [done|set_solver|].
  unfold quicvarint.size, quicvarint.Len, quicvarint.maxVarInt1, quicvarint.maxVarInt2. repeat zcase; lia.
Qed.

Lemma Append_middle b v typ h : writable v typ h → let hdr := eh_Header h in ∃ w pnb,
  ExtendedHeader_Append b v h = Ok (b ++ first_byte v typ (PacketNumberLen h) ::
    middle v (DestConnectionID hdr) (SrcConnectionID hdr) (h_Token hdr) typ ++ w ++ pnb) ∧
  blen w = 2 ∧ (∀ s, quicvarint.Read (w ++ s) = (Ok (h_Length hdr), s)) ∧
  blen pnb = PacketNumberLen h ∧
  (∀ s, readPacketNumber (PacketNumberLen h) (pnb ++ s) = (Ok (PacketNumber h mod 2 ^ (8 * PacketNumberLen h)), s)).
Proof.
  intros (Hv & Hr & Ht & HV & Hd & Hs & Htok & Hlen & Hl) hdr. subst hdr. set (hdr := eh_Header h) in *.
  destruct (supported_eq v Hv) as (_ & _ & Hvr). destruct (ConnectionID_Len_Bytes _ Hd) as [_ Hdl].
  destruct (ConnectionID_Len_Bytes _ Hs) as [_ Hsl]. unfold ExtendedHeader_Append. fold hdr.
  rewrite (proj2 (Z.ltb_ge _ _)) by (unfold MaxConnIDLen; lia). rewrite (proj2 (Z.ltb_ge _ _)) by (unfold MaxConnIDLen; lia).
  rewrite Ht, HV, (u32_small v), (u8_small (ConnectionID_Len (DestConnectionID hdr))), (u8_small (ConnectionID_Len (SrcConnectionID hdr))) by lia.
  set (hd := b ++ _). assert (Htl : typ = PacketTypeInitial → u64 (blen (h_Token hdr)) = blen (h_Token hdr)).
  { intros ->. by apply quicvarint.encodable_u64. }
  set (tk := match typ with PacketTypeInitial => quicvarint.enc (blen (h_Token hdr)) ++ h_Token hdr | _ => [] end).
  destruct (length_field (hd ++ tk) (h_Length hdr) Hlen) as (w & Hw & Hw2 & Hwr).
  destruct (packet_number_roundtrip ((hd ++ tk) ++ w) (PacketNumber h) _ Hl) as (pnb & Hp & Hpl & Hpr).
  exists w, pnb. split; [|split_and!; [done..|intros; apply Hpr]].
  assert (Hall : (hd ++ tk) ++ w ++ pnb = b ++ first_byte v typ (PacketNumberLen h) ::
    middle v (DestConnectionID hdr) (SrcConnectionID hdr) (h_Token hdr) typ ++ w ++ pnb).
  { unfold hd, middle, first_byte, tk. destruct typ; [|done| |]; rewrite <- !app_assoc; reflexivity. }
  rewrite <- Hall. destruct typ; [|done| |]; unfold tk in *; rewrite ?app_nil_r in *.
  2, 3: by rewrite res_bind_ok, Hw, res_bind_ok, Hp, <- app_assoc.
  rewrite Htl, quicvarint.Append_enc, !res_bind_ok, <- app_assoc, Hw, res_bind_ok, Hp by done. by rewrite <- !app_assoc.
Qed.

Definition token_len (typ : PacketType) (token : bytes) : Z :=
  match typ with PacketTypeInitial => quicvarint.size (blen token) + blen token | _ => 0 end.

Lemma middle_length v dest src token typ : ConnectionID_wf dest → ConnectionID_wf src → token_ok typ token →
  blen (middle v dest src token typ) = 6 + ConnectionID_Len dest + ConnectionID_Len src + token_len typ token ∧
  0 ≤ token_len typ token < 2 ^ 62 + 8.
Proof.
  intros Hd Hs Ht. destruct (ConnectionID_Len_Bytes _ Hd) as [Hdl _], (ConnectionID_Len_Bytes _ Hs) as [Hsl _].
  unfold middle, token_len, token_ok in *. rewrite !blen_app, Hdl, Hsl. change (blen (PutUint32 v)) with 4. rewrite !blen_one.
  destruct typ; rewrite ?blen_nil; [|split; lia..]. rewrite blen_app, quicvarint.blen_enc by done.
  pose proof (quicvarint.size_range _ Ht). unfold quicvarint.encodable, quicvarint.Max, quicvarint.maxVarInt8 in Ht. split; lia.
Qed.

Lemma GetLength_eq v typ h : writable v typ h →
  let hdr := eh_Header h in
  GetLength h = Ok (9 + ConnectionID_Len (DestConnectionID hdr) + ConnectionID_Len (SrcConnectionID hdr) +
    PacketNumberLen h + token_len typ (h_Token hdr)).
Proof.
  intros (_ & Hr & Ht & _ & _ & _ & Htok & _ & _) hdr. subst hdr. unfold GetLength. rewrite Ht.
  destruct typ; [|done|..]; unfold token_len; [|f_equal; lia..]. unfold token_ok in Htok.
  rewrite (quicvarint.encodable_u64 _ Htok), (quicvarint.Len_size _ Htok), res_bind_ok. f_equal. lia.
Qed.

Lemma wire_ParseConnectionID_long t v dest src token typ s n : IsLongHeaderPacket t = true → ConnectionID_wf dest →
  wire_ParseConnectionID (t :: middle v dest src token typ ++ s) n = Ok dest.
Proof.
  intros Ht Hd. destruct (ConnectionID_Len_Bytes _ Hd) as [Hl Hr]. unfold wire_ParseConnectionID, middle.
  rewrite Ht. cbn [negb]. rewrite <- !app_assoc. set (s' := _ ++ _ ++ _ ++ s). cbn [PutUint32 app].
  rewrite (proj2 (Z.ltb_ge _ _)) by (autorewrite with blen; pose proof (blen_nonneg s'); lia).
  change 5 with (Z.of_nat 5). erewrite get_at_lookup by reflexivity. rewrite res_bind_ok.
  rewrite (proj2 (Z.ltb_ge _ _)) by (unfold MaxConnIDLen; lia).
  rewrite (proj2 (Z.ltb_ge _ _)) by (autorewrite with blen; pose proof (blen_nonneg s'); lia).
  cbn [skipn]. rewrite drop_0, <- Hl, to_nat_blen, take_app_length. by apply ParseConnectionID_Bytes.
Qed.

(** The header and the packet found in a datagram: the bytes [pnb] of the
    packet number and the payload are not looked at. *)
Lemma ParsePacket_ok t v dest src token typ w len body next : 0 ≤ t < 256 → Z.shiftr t 4 = 12 + type_bits v (Some typ) → supported v →
  ConnectionID_wf dest → ConnectionID_wf src → token_ok typ token → typ ≠ PacketTypeRetry → 0 ≤ len < 2 ^ 14 →
  (∀ s, quicvarint.Read (w ++ s) = (Ok len, s)) → blen w = 2 → blen body = len →
  let mid := middle v dest src token typ ++ w in
  ParsePacket ((t :: mid ++ body) ++ next) =
    Ok (Parsed (mkHeader t (Some typ) v src dest len token (1 + blen mid)) (t :: mid ++ body) next).
Proof.
  intros Ht Hbits Hv Hd Hs Htok Hretry Hlen Hw Hw2 Hbody mid.
  destruct (long_first_byte t _ Ht Hbits (type_bits_range v (Some typ))) as (Hlong & _ & _).
  destruct (middle_length v dest src token typ Hd Hs Htok) as [Hml Htl].
  destruct (ConnectionID_Len_Bytes _ Hd) as [_ Hdl], (ConnectionID_Len_Bytes _ Hs) as [_ Hsl].
  assert (Hmid : blen mid = 8 + ConnectionID_Len dest + ConnectionID_Len src + token_len typ token).
  { unfold mid. rewrite blen_app, Hml, Hw2. lia. }
  assert (He : quicvarint.encodable len) by (unfold quicvarint.encodable, quicvarint.Max, quicvarint.maxVarInt8; lia).
  assert (Hp : parseHeader ((t :: mid ++ body) ++ next) =
    (Ok (mkHeader t (Some typ) v src dest len token (1 + blen mid), false), body ++ next)).
  { unfold parseHeader. rewrite rd_len_bind. cbn [app]. rewrite (rd_bind_ok _ _ _ _ _ (ReadByte_cons _ _)).
    unfold mid at 2. rewrite <- !app_assoc.
    rewrite (rd_bind_ok _ _ _ _ _ (parseLongHeader_ok t v dest src token typ w len _ Ht Hbits Hv Hd Hs Htok Hretry He Hw)).
    rewrite rd_len_bind. unfold set_parsedLen, mret, rd_ret. cbn [typeByte h_Type h_Version SrcConnectionID DestConnectionID h_Length h_Token].
    do 4 f_equal. unfold mid. autorewrite with blen. lia. }
  unfold ParsePacket. rewrite Hp. cbn [app]. rewrite Hlong. cbn [negb parsedLen h_Length].
  rewrite i64_small by lia. replace (1 + blen mid + len) with (blen (t :: mid ++ body)) by (autorewrite with blen; lia).
  rewrite (proj2 (Z.ltb_ge _ _)) by (change (t :: (mid ++ body) ++ next) with ((t :: mid ++ body) ++ next); rewrite blen_app; pose proof (blen_nonneg next); lia).
  rewrite (proj2 (Z.ltb_ge _ _)) by apply blen_nonneg.
  change (t :: (mid ++ body) ++ next) with ((t :: mid ++ body) ++ next). rewrite to_nat_blen, take_app_length, drop_app_length. done.
Qed.

(** Every long header that carries a packet number survives the wire.
    [Append] writes [GetLength] bytes that end in the packet number; once header
    protection has changed the lower four bits of the first byte and the packet
    number, and with any payload and any coalesced packets behind it,
    [ParseConnectionID] finds the destination connection ID, [ParsePacket] cuts
    the datagram exactly behind the payload and recovers every field, and, once
    the protection is removed, [ParseExtended] recovers the truncated packet
    number and stops at the payload. *)
Lemma long_header_roundtrip (b : bytes) (v : Z) (typ : PacketType) (h : ExtendedHeader) : writable v typ h →
  let hdr := eh_Header h in
  ∃ first mid pnb, ExtendedHeader_Append b v h = Ok (b ++ first :: mid ++ pnb) ∧
    GetLength h = Ok (blen (first :: mid ++ pnb)) ∧ blen pnb = PacketNumberLen h ∧ 0 ≤ first < 256 ∧
    ∀ first' pnb' payload next, 0 ≤ first' < 256 → Z.shiftr first' 4 = Z.shiftr first 4 → blen pnb' = blen pnb →
      blen (pnb' ++ payload) = h_Length hdr →
      let packet := first' :: mid ++ pnb' ++ payload in
      let hdr' := mkHeader first' (Some typ) v (SrcConnectionID hdr) (DestConnectionID hdr) (h_Length hdr) (h_Token hdr) (1 + blen mid) in
      (∀ n, wire_ParseConnectionID (packet ++ next) n = Ok (DestConnectionID hdr)) ∧
      ParsePacket (packet ++ next) = Ok (Parsed hdr' packet next) ∧
      ParseExtended hdr' (first :: mid ++ pnb ++ payload) =
        (Ok (mkExtendedHeader hdr' first (PacketNumberLen h) (PacketNumber h mod 2 ^ (8 * PacketNumberLen h)) (blen (first :: mid ++ pnb)), true), payload).
Proof.
  intros Hw hdr. destruct (Append_middle b v typ h Hw) as (w & pnb & Ha & Hw2 & Hwr & Hpl & Hpr). fold hdr in Ha, Hwr.
  pose proof (GetLength_eq v typ h Hw) as Hgl. fold hdr in Hgl.
  destruct Hw as (Hv & Hr & Ht & HV & Hd & Hs & Htok & Hlen & Hl). fold hdr in Ht, HV, Hd, Hs, Htok, Hlen.
  destruct (first_byte_eq v typ _ Hl) as (Hf & Hf4 & Hfl & Hfr). destruct (middle_length v _ _ _ _ Hd Hs Htok) as [Hml _].
  set (first := first_byte v typ (PacketNumberLen h)) in *. clearbody first.
  set (mid := middle v _ _ _ typ) in *. exists first, (mid ++ w), pnb.
  split; [by rewrite Ha, <- app_assoc|]. split; [rewrite Hgl; f_equal; autorewrite with blen; lia|]. split; [done|]. split; [done|].
  intros first' pnb' payload next Hf' H4 _ Hbody packet hdr'. rewrite Hf4 in H4.
  split_and!.
  - intros n. unfold packet. cbn [app]. rewrite <- !app_assoc. apply wire_ParseConnectionID_long; [|done].
    by apply (long_first_byte first' (type_bits v (Some typ))); [..|apply type_bits_range].
  - by apply ParsePacket_ok.
  - unfold ParseExtended. rewrite rd_len_bind, (rd_bind_ok _ _ _ _ _ (ReadByte_cons _ _)).
    erewrite rd_bind_ok; [|unfold seek; reflexivity]. cbn [parsedLen hdr'].
    replace (Z.to_nat (1 + blen (mid ++ w) - 1)) with (length (mid ++ w)) by (unfold blen; lia).
    rewrite drop_app_length, Hfl, (rd_bind_ok _ _ _ _ _ (Hpr payload)), rd_len_bind, Hfr. unfold mret, rd_ret.
    do 4 f_equal. autorewrite with blen. lia.
Qed.

Definition example_cid (d : bytes) : ConnectionID := mkConnectionID (cid_array d) (blen d).

(** ** Short headers *)

Definition short_first (pnLen : Z) (kp : KeyPhaseBit) : Z :=
  let t := Z.lor 0x40 (u8 (pnLen - 1)) in match kp with KeyPhaseOne => Z.lor t 4 | _ => t end.

Lemma short_first_eq l kp : 1 ≤ l ≤ 4 → kp ≠ KeyPhaseUndefined → let t := short_first l kp in
  Z.land t 0x80 = 0 ∧ (Z.land t 0x40 =? 0) = false ∧ u8 (Z.land t 3 + 1) = l ∧
  (if 0 <? Z.land t 4 then KeyPhaseOne else KeyPhaseZero) = kp ∧ (Z.land t 0x18 =? 0) = true.
Proof.
  intros Hl Hk. assert (l = 1 ∨ l = 2 ∨ l = 3 ∨ l = 4) as [->|[->|[->| ->]]] by lia; by destruct kp.
Qed.

(** A short header survives the wire: [AppendShortHeader] writes
    [ShortHeaderLen] bytes, from which [ParseConnectionID] and
    [ParseShortHeader], given the length of the connection ID, recover the
    connection ID, the truncated packet number, its length and the key phase,
    with valid reserved bits, whatever payload follows. *)
Lemma short_header_roundtrip (b : bytes) (cid : ConnectionID) (pn pnLen : Z) (kp : KeyPhaseBit) :
  ConnectionID_wf cid → 1 ≤ pnLen ≤ 4 → kp ≠ KeyPhaseUndefined →
  ∃ w, AppendShortHeader b cid pn pnLen kp = Ok (b ++ w) ∧ blen w = ShortHeaderLen cid pnLen ∧ ∀ payload,
    wire_ParseConnectionID (w ++ payload) (ConnectionID_Len cid) = Ok cid ∧
    ParseShortHeader (w ++ payload) (ConnectionID_Len cid) = Ok (blen w, pn mod 2 ^ (8 * pnLen), pnLen, kp, true).
Proof.
  intros Hc Hl Hk. destruct (short_first_eq pnLen kp Hl Hk) as (H80 & H40 & H3 & H4 & H18). unfold AppendShortHeader.
  fold (short_first pnLen kp). set (t := short_first pnLen kp) in *. clearbody t.
  destruct (packet_number_roundtrip (b ++ [t] ++ ConnectionID_Bytes cid) pn _ Hl) as (pnb & Hp & Hpl & Hpr).
  destruct (ConnectionID_Len_Bytes _ Hc) as [Hcl Hcr]. exists (t :: ConnectionID_Bytes cid ++ pnb).
  split; [by rewrite Hp, <- app_assoc|]. assert (Hlen : blen (t :: ConnectionID_Bytes cid ++ pnb) = 1 + ConnectionID_Len cid + pnLen).
  { autorewrite with blen. lia. }
  rewrite Hlen. split; [done|]. intros payload. cbn [app]. rewrite <- app_assoc. split.
  - unfold wire_ParseConnectionID, IsLongHeaderPacket. rewrite H80. cbn [Z.ltb Z.compare negb].
    rewrite (proj2 (Z.ltb_ge _ _)) by (autorewrite with blen; pose proof (blen_nonneg payload); lia).
    cbn [skipn]. rewrite drop_0, <- Hcl, to_nat_blen, take_app_length. by apply ParseConnectionID_Bytes.
  - unfold ParseShortHeader. rewrite H80, H40, H3, H4, H18. cbn [Z.ltb Z.compare].
    rewrite (proj2 (Z.ltb_ge _ _)) by (autorewrite with blen; pose proof (blen_nonneg payload); lia).
    replace (Z.to_nat (1 + ConnectionID_Len cid)) with (S (length (ConnectionID_Bytes cid))) by (unfold blen in Hcl; lia).
    cbn [skipn]. by rewrite drop_app_length, (proj2 (Hpr payload)).
Qed.

(** ** Arbitrary input *)

Definition header_wf (h : Header) : Prop :=
  ConnectionID_wf (SrcConnectionID h) ∧ ConnectionID_wf (DestConnectionID h) ∧ 0 ≤ h_Length h < 2 ^ 62.

Lemma ReadUint32_safe N : rd_safe N (λ v, 0 ≤ v < 2 ^ 32) ReadUint32.
Proof.
  unfold ReadUint32. do 4 (eapply rd_safe_bind; [apply ReadByte_safe|intros ? _]).
  apply rd_safe_ret. unfold Uint32, u32. by apply Z.mod_pos_bound.
Qed.

Lemma seek_safe N n : rd_safe N (λ _, True) (seek n).
Proof. intros s _. split; [done|]. apply suffix_drop. Qed.

Lemma parseLongHeader_safe N t : rd_safe N (λ '(h, _), header_wf h) (header_parseLongHeader t).
Proof.
  unfold header_parseLongHeader. eapply rd_safe_bind; [apply ReadUint32_safe|intros v _].
  destruct (_ && _); [apply rd_safe_fail|]. eapply rd_safe_bind; [apply ReadByte_safe|intros dl [Hdl _]].
  eapply rd_safe_bind; [by apply ReadConnectionID_safe|intros dest [Hd _]].
  eapply rd_safe_bind; [apply ReadByte_safe|intros sl [Hsl _]]. eapply rd_safe_bind; [by apply ReadConnectionID_safe|intros src [Hs _]].
  destruct (v =? 0); [by apply rd_safe_ret|]. destruct (negb _); [by apply rd_safe_ret|].
  assert (Hrest : ∀ typ token, rd_safe N (λ '(h, _), header_wf h)
    (pl ← quicvarint.Read; mret (mkHeader t (Some typ) v src dest (i64 pl) token 0, false))).
  { intros typ token. eapply rd_safe_bind; [apply quicvarint.Read_safe|intros pl Hpl]. apply rd_safe_ret.
    split_and!; [done|done|..]; simpl; rewrite quicvarint.encodable_i64 by done;
      unfold quicvarint.encodable, quicvarint.Max, quicvarint.maxVarInt8 in Hpl; lia. }
  destruct (long_type v t).
  - eapply (rd_safe_bind _ (λ _, True)); [|intros; apply Hrest]. eapply rd_safe_bind; [apply quicvarint.Read_safe|intros tl [Htl _]].
    eapply rd_safe_bind; [apply rd_len_safe|intros l _]. destruct (l <? tl); [apply rd_safe_fail|].
    eapply rd_safe_weaken; [|by apply ReadFull_safe]. done.
  - eapply rd_safe_bind; [apply rd_len_safe|intros l _]. cbn zeta. destruct (Z.leb_spec (l - 16) 0); [apply rd_safe_fail|].
    eapply rd_safe_bind; [apply ReadFull_safe; lia|intros token _]. eapply rd_safe_bind; [apply seek_safe|intros _ _].
    by apply rd_safe_ret.
  - apply (Hrest PacketTypeHandshake []).
  - apply (Hrest PacketType0RTT []).
Qed.

Lemma parseHeader_spec data : bytes_ok data → match parseHeader data with
  | (Ok (h, _), s) => header_wf h ∧ 1 ≤ parsedLen h ≤ blen data
  | (Err _, _) => True
  | (Panic _, _) => False
  end.
Proof.
  intros Hb. unfold parseHeader. rewrite rd_len_bind. destruct data as [|t data]; [done|].
  rewrite (rd_bind_ok _ _ _ _ _ (ReadByte_cons _ _)). apply Forall_cons in Hb as [_ Hb].
  pose proof (parseLongHeader_safe (blen data) t data (conj Hb (Z.le_refl _))) as H. unfold mbind at 1, rd_bind at 1.
  destruct (header_parseLongHeader t data) as [[[h u]|e|p] s]; [|done|done]. destruct H as [Hh [w ->]].
  rewrite rd_len_bind. simpl. split; [done|]. autorewrite with blen. pose proof (blen_nonneg w). pose proof (blen_nonneg s). lia.
Qed.

(** C27: [ParsePacket] is safe on every datagram: it never panics, whatever the
    bytes and the length the header claims, and when it finds a packet it
    returns a non-empty prefix of the datagram that starts with the whole
    header, and exactly the bytes behind it, so taking the coalesced packets of
    a datagram one by one ends; connection IDs it returns are valid. *)
Theorem ParsePacket_safe (data : bytes) : bytes_ok data → blen data < 2 ^ 62 →
  match ParsePacket data with
  | Ok (Parsed hdr packet rest) =>
      data = packet ++ rest ∧ blen packet = parsedLen hdr + h_Length hdr ∧ 1 ≤ parsedLen hdr ≤ blen packet ∧ blen rest < blen data ∧
      header_wf hdr
  | Ok (Unsupported hdr) => header_wf hdr
  | Err _ => True
  | Panic _ => False
  end.
Proof.
  intros Hb Hl. unfold ParsePacket. destruct data as [|t data'] eqn:Hdata; [done|]. rewrite <- Hdata in *.
  destruct (negb _); [done|]. pose proof (parseHeader_spec data Hb) as H.
  destruct (parseHeader data) as [[[h []]|e|p] s]; [apply H| |done|done]. destruct H as [Hh Hpl].
  assert (0 ≤ h_Length h < 2 ^ 62) by apply Hh. rewrite i64_small by lia.
  destruct (Z.ltb_spec (blen data) (parsedLen h + h_Length h)) as [|Hle]; [done|]. rewrite (proj2 (Z.ltb_ge _ _)) by lia.
  assert (Hlen : blen (take (Z.to_nat (parsedLen h + h_Length h)) data) = parsedLen h + h_Length h).
  { unfold blen in *. rewrite length_take. lia. }
  pose proof (take_drop (Z.to_nat (parsedLen h + h_Length h)) data) as Htd.
  pose proof (f_equal blen Htd) as Hbl. rewrite blen_app in Hbl. split_and!; [done|done|lia|lia|lia|done].
Qed.

Lemma ParsePacket_safe_witness :
  let data := [0xe0; 0; 0; 0; 1; 0; 0; 2; 5; 6; 7; 8] in
  match ParsePacket data with
  | Ok (Parsed hdr packet rest) => data = packet ++ rest ∧ rest = [7; 8] ∧ header_wf hdr
  | _ => False
  end.
Proof.
  intros data. pose proof (ParsePacket_safe data) as H. specialize (H ltac:(unfold data; repeat constructor; lia) ltac:(done)).
  destruct (ParsePacket data) as [[hdr packet rest|]| |] eqn:E; [|vm_compute in E; discriminate..].
  destruct H as (Hd & _ & _ & _ & Hwf). split_and!; [done| |done]. vm_compute in E. by injection E as _ _ <-.
Defined.

(** ** Version negotiation *)

Lemma read_versions_app vs : Forall (λ v, 0 ≤ v < 2 ^ 32) vs → read_versions (flat_map (λ v, PutUint32 (u32 v)) vs) = vs.
Proof.
  induction 1 as [|v vs Hv _ IH]; [done|]. cbn [flat_map]. rewrite u32_small by done. revert IH. generalize (flat_map (λ v, PutUint32 (u32 v)) vs).
  intros r IH. unfold PutUint32. cbn [app read_versions]. by rewrite Uint32_bytes, IH.
Qed.

Lemma versions_length vs : blen (flat_map (λ v, PutUint32 (u32 v)) vs) = 4 * blen vs.
Proof. induction vs as [|v vs IH]; [done|]. cbn [flat_map]. rewrite blen_app, IH, blen_cons. change (blen (PutUint32 _)) with 4. lia. Qed.

Lemma ReadFull_EOF_app d s : ReadFull_EOF (blen d) (d ++ s) = (Ok d, s).
Proof. unfold ReadFull_EOF. by rewrite ReadFull_app. Qed.

Lemma ParseVersionNegotiation_Compose random dest src vs : blen dest < 256 → blen src < 256 → vs ≠ [] → Forall (λ v, 0 ≤ v < 2 ^ 32) vs →
  ParseVersionNegotiationPacket (ComposeVersionNegotiation random dest src vs) = Ok (dest, src, vs).
Proof.
  intros Hd Hs Hne Hvs. pose proof (blen_nonneg dest). pose proof (blen_nonneg src).
  unfold ParseVersionNegotiationPacket, ComposeVersionNegotiation. rewrite !u8_small by lia.
  set (vb := flat_map _ vs). set (pk := _ ++ _).
  assert (Hp : parseArbitraryLenConnectionIDs pk = (Ok (dest, src), vb)).
  { unfold parseArbitraryLenConnectionIDs, pk. cbn [app skipn]. rewrite ?drop_0, (rd_bind_ok _ _ _ _ _ (ReadByte_cons _ _)).
    rewrite (rd_bind_ok _ _ _ _ _ (ReadFull_EOF_app _ _)), (rd_bind_ok _ _ _ _ _ (ReadByte_cons _ _)).
    by rewrite (rd_bind_ok _ _ _ _ _ (ReadFull_EOF_app _ _)). }
  unfold ParseArbitraryLenConnectionIDs. rewrite Hp, res_bind_ok. cbn beta iota zeta.
  assert (Hpre : ∃ pre, pk = pre ++ vb) by (exists ([Z.lor random 0xc0; 0; 0; 0; 0] ++ [blen dest] ++ dest ++ [blen src] ++ src); unfold pk; by rewrite <- !app_assoc).
  destruct Hpre as [pre ->]. rewrite blen_app. replace (blen pre + blen vb - blen vb) with (blen pre) by lia.
  rewrite to_nat_blen, drop_app_length. unfold vb at 1 2. rewrite versions_length.
  assert (0 < blen vs) by (destruct vs; [done|rewrite blen_cons; pose proof (blen_nonneg vs); lia]).
  rewrite (proj2 (Z.eqb_neq (4 * blen vs) 0)) by lia. rewrite Z.mul_comm, Z.mod_mul by lia. simpl. unfold vb. by rewrite read_versions_app.
Qed.

Lemma reserved_version r3 r2 r1 r0 : Z.land (generateReservedVersion r3 r2 r1 r0) 0x0f0f0f0f = 0x0a0a0a0a ∧
  0 ≤ generateReservedVersion r3 r2 r1 r0 < 2 ^ 32.
Proof.
  unfold generateReservedVersion. set (x := Uint32 _ _ _ _). split.
  - rewrite <- Z.land_assoc. change (Z.land 0xfafafafa 0x0f0f0f0f) with 0x0a0a0a0a.
    apply Z.bits_inj'. intros i Hi. rewrite Z.land_spec, Z.lor_spec. by destruct (Z.testbit x i), (Z.testbit 0x0a0a0a0a i).
  - assert (Hx : 0 ≤ x) by (unfold x, Uint32, u32; apply Z.mod_pos_bound; lia). split.
    + apply Z.land_nonneg. by right.
    + assert (H : Z.land (Z.lor x 0x0a0a0a0a) 0xfafafafa = Z.land (Z.lor x 0x0a0a0a0a) 0xfafafafa mod 2 ^ 32).
      { rewrite <- Z.land_ones by lia. by rewrite <- Z.land_assoc. }
      rewrite H. by apply Z.mod_pos_bound.
Qed.

Lemma ChooseSupportedVersion_spec ours theirs : match ChooseSupportedVersion ours theirs with
  | Some v => ∃ l1 l2, ours = l1 ++ v :: l2 ∧ v ∈ theirs ∧ ∀ u, u ∈ l1 → u ∉ theirs
  | None => ∀ u, u ∈ ours → u ∉ theirs
  end.
Proof.
  induction ours as [|v ours IH]; cbn [ChooseSupportedVersion]; [set_solver|]. destruct (existsb _ theirs) eqn:E.
  - apply existsb_exists in E as (u & Hu%list_elem_of_In & ->%Z.eqb_eq). exists [], ours. set_solver.
  - assert (Hv : v ∉ theirs).
    { intros Hin%list_elem_of_In. enough (existsb (λ t, v =? t) theirs = true) by congruence.
      apply existsb_exists. exists v. by rewrite Z.eqb_refl. }
    destruct (ChooseSupportedVersion ours theirs); [|set_solver]. destruct IH as (l1 & l2 & -> & Ht & Hl).
    exists (v :: l1), l2. set_solver.
Qed.

(** C39: version negotiation picks the right version: from the packet a server
    composes, whatever random first byte, reserved version and position it
    picks, the client recovers both connection IDs and a list of versions from
    which [ChooseSupportedVersion] takes the first of the client's versions
    that the server supports, and none if there is no common one (the client's
    own versions are not of the reserved form). *)
Theorem version_negotiation (random r3 r2 r1 r0 : Z) (randPos : nat) (dest src : bytes) (server client : list Z) :
  blen dest < 256 → blen src < 256 → (randPos ≤ length server)%nat → Forall (λ v, 0 ≤ v < 2 ^ 32) server →
  Forall (λ v, Z.land v 0x0f0f0f0f ≠ 0x0a0a0a0a) client →
  let packet := ComposeVersionNegotiation random dest src (GetGreasedVersions (generateReservedVersion r3 r2 r1 r0) randPos server) in
  ∃ versions, ParseVersionNegotiationPacket packet = Ok (dest, src, versions) ∧
    match ChooseSupportedVersion client versions with
    | Some v => ∃ l1 l2, client = l1 ++ v :: l2 ∧ v ∈ server ∧ ∀ u, u ∈ l1 → u ∉ server
    | None => ∀ u, u ∈ client → u ∉ server
    end.
Proof.
  intros Hd Hs _ Hserver Hclient packet. destruct (reserved_version r3 r2 r1 r0) as [Hres Hrange].
  set (r := generateReservedVersion r3 r2 r1 r0) in *. clearbody r.
  assert (Hin : ∀ u, u ∈ client → u ∈ GetGreasedVersions r randPos server ↔ u ∈ server).
  { intros u Hu. unfold GetGreasedVersions. rewrite elem_of_app, elem_of_cons. rewrite <- (take_drop randPos server) at 3.
    rewrite elem_of_app. assert (u ≠ r) by (intros ->; by apply (proj1 (Forall_forall _ _) Hclient r Hu)). tauto. }
  exists (GetGreasedVersions r randPos server). split.
  - apply ParseVersionNegotiation_Compose; [done|done| |].
    + unfold GetGreasedVersions. by destruct (take randPos server).
    + unfold GetGreasedVersions. rewrite Forall_app, Forall_cons. split_and!; [by apply Forall_take|lia|lia|by apply Forall_drop].
  - pose proof (ChooseSupportedVersion_spec client (GetGreasedVersions r randPos server)) as H.
    destruct (ChooseSupportedVersion _ _) as [v|].
    + destruct H as (l1 & l2 & Hc & Hv & Hl). exists l1, l2. split; [done|]. rewrite Hin in Hv by (rewrite Hc; set_solver). split; [done|].
      intros u Hu. rewrite <- (Hin u) by (rewrite Hc; set_solver). by apply Hl.
    + intros u Hu. rewrite <- (Hin u Hu). by apply H.
Qed.

Lemma version_negotiation_witness :
  ∃ versions, ParseVersionNegotiationPacket (ComposeVersionNegotiation 0x12 [1; 2] [3]
      (GetGreasedVersions (generateReservedVersion 1 2 3 4) 1 SupportedVersions)) = Ok ([1; 2], [3], versions) ∧
    ChooseSupportedVersion [0x709; Version2; Version1] versions = Some Version2.
Proof.
  destruct (version_negotiation 0x12 1 2 3 4 1 [1; 2] [3] SupportedVersions [0x709; Version2; Version1]) as (vs & Hp & _);
    [done|done|simpl; lia|by repeat (constructor; [done|])|by repeat (constructor; [done|])|].
  exists vs. split; [done|]. vm_compute in Hp. injection Hp as <-. by vm_compute.
Defined.

End headers.
