(* ===== verification/RetransmissionQueue.v ===== *)
(** The queue of lost control and CRYPTO frames (retransmission_queue.go): what
    is lost is sent again, and only that. *)

From S2P Require Import Prelude.
From S2P Require Import Varint.
From S2P Require Import Protocol.
From S2P Require Import Frames.
From S2P Require Import AckFrame.
From S2P Require Import FrameParser.

Module retransmissionQueue.
Import protocol wire ack parser.

Record retransmissionQueue := mkQueue {
  initial : list frame;
  initialCryptoData : list CryptoFrame;
  handshake : list frame;
  handshakeCryptoData : list CryptoFrame;
  appData : list frame;
}.

Definition newRetransmissionQueue : retransmissionQueue := mkQueue [] [] [] [] [].

Definition set_initial (l : list frame) (c : list CryptoFrame) (q : retransmissionQueue) : retransmissionQueue :=
  mkQueue l c (handshake q) (handshakeCryptoData q) (appData q).
Definition set_handshake (l : list frame) (c : list CryptoFrame) (q : retransmissionQueue) : retransmissionQueue :=
  mkQueue (initial q) (initialCryptoData q) l c (appData q).
Definition set_appData (l : list frame) (q : retransmissionQueue) : retransmissionQueue :=
  mkQueue (initial q) (initialCryptoData q) (handshake q) (handshakeCryptoData q) l.

Definition addInitial (f : frame) (q : retransmissionQueue) : retransmissionQueue :=
  match f with
  | FCrypto cf => set_initial (initial q) (initialCryptoData q ++ [cf]) q
  | f => set_initial (initial q ++ [f]) (initialCryptoData q) q
  end.

Definition addHandshake (f : frame) (q : retransmissionQueue) : retransmissionQueue :=
  match f with
  | FCrypto cf => set_handshake (handshake q) (handshakeCryptoData q ++ [cf]) q
  | f => set_handshake (handshake q ++ [f]) (handshakeCryptoData q) q
  end.

Definition addAppData (f : frame) (q : retransmissionQueue) : res retransmissionQueue :=
  match f with
  | FStream _ => Panic "STREAM frames are handled with their respective streams."
  | f => Ok (set_appData (appData q ++ [f]) q)
  end.

Definition AddPing (encLevel : EncryptionLevel) (q : retransmissionQueue) : res retransmissionQueue :=
  match encLevel with
  | EncryptionInitial => Ok (addInitial (FPing mkPingFrame) q)
  | EncryptionHandshake => Ok (addHandshake (FPing mkPingFrame) q)
  | Encryption1RTT => addAppData (FPing mkPingFrame) q
  | Encryption0RTT => Panic "unexpected encryption level"
  end.

Definition HasInitialData (q : retransmissionQueue) : bool := (0 <? blen (initialCryptoData q)) || (0 <? blen (initial q)).
Definition HasHandshakeData (q : retransmissionQueue) : bool := (0 <? blen (handshakeCryptoData q)) || (0 <? blen (handshake q)).
Definition HasAppData (q : retransmissionQueue) : bool := 0 <? blen (appData q).

(** [GetInitialFrame] and [GetHandshakeFrame] are the same code on their lists:
    the frame returned, and the lists left. *)
Definition getControlFrame (l : list frame) (maxLen : Z) : res (option frame * list frame) :=
  match l with
  | [] => Ok (None, l)
  | f :: l' => n ← Length f; if maxLen <? n then Ok (None, l) else Ok (Some f, l')
  end.

Definition getFrame (l : list frame) (crypto : list CryptoFrame) (maxLen : Z) : res (option frame * list frame * list CryptoFrame) :=
  match crypto with
  | [] => '(f, l) ← getControlFrame l maxLen; Ok (f, l, crypto)
  | f :: crypto' =>
      '(newFrame, needsSplit, f') ← CryptoFrame_MaybeSplitOffFrame f maxLen;
      match newFrame, needsSplit with
      | None, false => Ok (Some (FCrypto f'), l, crypto')
      | Some newFrame, _ => Ok (Some (FCrypto newFrame), l, f' :: crypto')
      | None, true => '(g, l) ← getControlFrame l maxLen; Ok (g, l, f' :: crypto')
      end
  end.

Definition GetInitialFrame (maxLen : Z) (q : retransmissionQueue) : res (option frame * retransmissionQueue) :=
  '(f, l, c) ← getFrame (initial q) (initialCryptoData q) maxLen; Ok (f, set_initial l c q).

Definition GetHandshakeFrame (maxLen : Z) (q : retransmissionQueue) : res (option frame * retransmissionQueue) :=
  '(f, l, c) ← getFrame (handshake q) (handshakeCryptoData q) maxLen; Ok (f, set_handshake l c q).

Definition GetAppDataFrame (maxLen : Z) (q : retransmissionQueue) : res (option frame * retransmissionQueue) :=
  '(f, l) ← getControlFrame (appData q) maxLen; Ok (f, set_appData l q).

Definition DropPackets (encLevel : EncryptionLevel) (q : retransmissionQueue) : res retransmissionQueue :=
  match encLevel with
  | EncryptionInitial => Ok (set_initial [] [] q)
  | EncryptionHandshake => Ok (set_handshake [] [] q)
  | _ => Panic "unexpected encryption level"
  end.

(** The ack handlers: [OnAcked] does nothing, [OnLost] queues the frame. *)
Definition OnLost (encLevel : EncryptionLevel) (f : frame) (q : retransmissionQueue) : res retransmissionQueue :=
  match encLevel with
  | EncryptionInitial => Ok (addInitial f q)
  | EncryptionHandshake => Ok (addHandshake f q)
  | _ => addAppData f q
  end.

(** * What is queued *)

(** CRYPTO frames may be cut anew, so their bytes are counted one by one. *)
Inductive piece := PByte (offset : Z) (b : byte) | PFrame (f : frame).

Fixpoint crypto_pieces (offset : Z) (d : bytes) : list piece :=
  match d with [] => [] | b :: d => PByte offset b :: crypto_pieces (offset + 1) d end.

Definition pieces (f : frame) : list piece :=
  match f with FCrypto cf => crypto_pieces (cf_Offset cf) (cf_Data cf) | f => [PFrame f] end.

Definition all_pieces (l : list frame) (crypto : list CryptoFrame) : list piece :=
  concat (pieces <$> l) ++ concat (pieces ∘ FCrypto <$> crypto).

Lemma crypto_pieces_app o d1 d2 : crypto_pieces o (d1 ++ d2) = crypto_pieces o d1 ++ crypto_pieces (o + blen d1) d2.
Proof.
  revert o. induction d1 as [|b d1 IH]; intros o; simpl.
  - change (blen []) with 0. by rewrite Z.add_0_r.
  - rewrite IH, blen_cons. do 3 f_equal. lia.
Qed.

(** What the lists may hold. *)
Definition queued_ok (l : list frame) (crypto : list CryptoFrame) : Prop :=
  Forall (λ f, ∃ n, Length f = Ok n) l ∧ Forall CryptoFrame_sendable crypto.

(** How much is queued: every frame taken makes it smaller. *)
Definition weight (l : list frame) (crypto : list CryptoFrame) : nat :=
  (length l + foldr (λ f n, S (length (cf_Data f)) + n) 0 crypto)%nat.

Lemma getControlFrame_ok l maxLen : Forall (λ f, ∃ n, Length f = Ok n) l →
  (∃ f l' n, getControlFrame l maxLen = Ok (Some f, l') ∧ l = f :: l' ∧ Length f = Ok n ∧ n ≤ maxLen) ∨
  (getControlFrame l maxLen = Ok (None, l) ∧ ∀ f n, head l = Some f → Length f = Ok n → maxLen < n).
Proof.
  destruct l as [|f l]; intros Hl; cbn [getControlFrame]; [right; done|]. apply Forall_cons in Hl as [[n Hn] _]. rewrite Hn, res_bind_ok.
  destruct (Z.ltb_spec maxLen n); [right|left; by exists f, l, n]. split; [done|]. intros g m [= <-] Hm. congruence.
Qed.

Definition got (l : list frame) (crypto : list CryptoFrame) (maxLen : Z) (f : frame) (l' : list frame) (crypto' : list CryptoFrame) : Prop :=
  (∃ n, Length f = Ok n ∧ n ≤ maxLen) ∧ all_pieces l crypto ≡ₚ pieces f ++ all_pieces l' crypto' ∧
  queued_ok l' crypto' ∧ (weight l' crypto' < weight l crypto)%nat ∧
  (f ∈ l ∨ ∃ cf, f = FCrypto cf ∧ CryptoFrame_sendable cf).

Lemma got_control f l crypto maxLen n : queued_ok (f :: l) crypto → Length f = Ok n → n ≤ maxLen →
  got (f :: l) crypto maxLen f l crypto.
Proof.
  intros [Hl Hc] Hn Hle. apply Forall_cons in Hl as [_ Hl]. split; [by exists n|].
  split; [unfold all_pieces; simpl; by rewrite app_assoc|]. split; [done|]. split; [unfold weight; simpl; lia|]. left. left.
Qed.

Lemma getFrame_ok l crypto maxLen : queued_ok l crypto → maxLen ≤ 16383 →
  (∃ f l' crypto', getFrame l crypto maxLen = Ok (Some f, l', crypto') ∧ got l crypto maxLen f l' crypto') ∨
  (getFrame l crypto maxLen = Ok (None, l, crypto) ∧ (∀ f n, head l = Some f → Length f = Ok n → maxLen < n) ∧
   ∀ f, head crypto = Some f → maxLen < CryptoFrame_hdr f + 2).
Proof.
  intros Hq Hm. pose proof Hq as [Hl Hc]. destruct crypto as [|f crypto]; cbn [getFrame].
  { destruct (getControlFrame_ok l maxLen Hl) as [(f & l' & n & -> & -> & Hn & Hle)|[-> Hn]]; rewrite res_bind_ok;
      [left|by right]. exists f, l', []. split; [done|]. by eapply got_control. }
  apply Forall_cons in Hc as [Hf Hc]. pose proof (CryptoFrame_split_spec f maxLen Hf Hm) as Hs.
  destruct (CryptoFrame_MaybeSplitOffFrame f maxLen) as [[[[new|] split] f']|e|p]; [| |done|done]; rewrite res_bind_ok; cbn beta iota.
  - destruct split; [|done]. destruct Hs as (Hd & Hn1 & Hn2 & Ho & Ho' & n & Hn & Hle). left. eexists _, l, (f' :: crypto). split; [done|].
    destruct Hf as [Hf0 Hfm]. assert (Hlen : blen (cf_Data f) = blen (cf_Data new) + blen (cf_Data f')) by (rewrite Hd; apply blen_app).
    pose proof (blen_nonneg (cf_Data new)). pose proof (blen_nonneg (cf_Data f')).
    split_and!; [by exists n| |split; [done|]| |right; exists new; split; [done|]].
    + unfold all_pieces, pieces. simpl. rewrite Hd, crypto_pieces_app, Ho', Ho. rewrite <- !app_assoc. solve_Permutation.
    + constructor; [|done]. split; lia.
    + unfold weight. simpl. assert (length (cf_Data new) ≠ 0)%nat by (by destruct (cf_Data new)). unfold blen in Hlen. lia.
    + split; lia.
  - destruct split.
    + destruct Hs as [-> Hlt]. destruct (getControlFrame_ok l maxLen Hl) as [(g & l' & n & -> & -> & Hn & Hle)|[-> Hn]]; rewrite res_bind_ok; [left|right].
      * exists g, l', (f :: crypto). split; [done|]. by eapply got_control.
      * split_and!; [done|done|]. intros g [= <-]. lia.
    + destruct Hs as [-> (n & Hn & Hle)]. left. eexists _, l, crypto. split; [done|].
      split_and!; [by exists n| |done|unfold weight; simpl; lia|right; by exists f].
      unfold all_pieces. simpl. solve_Permutation.
Qed.

(** * Runs *)

(** The packet number spaces; 0-RTT and 1-RTT packets share the last one. *)
Inductive space := Initial | Handshake | AppData.

#[global] Instance space_eq_dec : EqDecision space.
Proof. solve_decision. Defined.

Definition level (sp : space) : EncryptionLevel :=
  match sp with Initial => EncryptionInitial | Handshake => EncryptionHandshake | AppData => Encryption1RTT end.

Definition lists (sp : space) (q : retransmissionQueue) : list frame * list CryptoFrame :=
  match sp with
  | Initial => (initial q, initialCryptoData q)
  | Handshake => (handshake q, handshakeCryptoData q)
  | AppData => (appData q, [])
  end.

Definition GetFrame (sp : space) (maxLen : Z) (q : retransmissionQueue) : res (option frame * retransmissionQueue) :=
  match sp with
  | Initial => GetInitialFrame maxLen q
  | Handshake => GetHandshakeFrame maxLen q
  | AppData => GetAppDataFrame maxLen q
  end.

Definition HasData (sp : space) (q : retransmissionQueue) : bool :=
  match sp with Initial => HasInitialData q | Handshake => HasHandshakeData q | AppData => HasAppData q end.

Definition queued (sp : space) (q : retransmissionQueue) : list piece := all_pieces (lists sp q).1 (lists sp q).2.
Definition space_ok (sp : space) (q : retransmissionQueue) : Prop := queued_ok (lists sp q).1 (lists sp q).2.

(** Frames that were sent in packets of the space and may be lost. *)
Definition lost_ok (sp : space) (f : frame) : Prop :=
  (∃ n, Length f = Ok n) ∧
  match f with FCrypto cf => CryptoFrame_sendable cf | FStream _ => sp ≠ AppData | _ => True end.

(** What was declared lost (or queued as a probe), sent again, and dropped. *)
Record ledger := mkLedger { l_lost : list piece; l_sent : list piece; l_dropped : list piece }.

Definition put (sp : space) (l : ledger) (m : space → ledger) : space → ledger := λ sp',
  match sp, sp' with
  | Initial, Initial | Handshake, Handshake | AppData, AppData => l
  | _, _ => m sp'
  end.

Inductive step : retransmissionQueue * (space → ledger) → retransmissionQueue * (space → ledger) → Prop :=
| step_lost sp f q q' m : lost_ok sp f → OnLost (level sp) f q = Ok q' →
    step (q, m) (q', put sp (mkLedger (pieces f ++ l_lost (m sp)) (l_sent (m sp)) (l_dropped (m sp))) m)
| step_ping sp q q' m : AddPing (level sp) q = Ok q' →
    step (q, m) (q', put sp (mkLedger (PFrame (FPing mkPingFrame) :: l_lost (m sp)) (l_sent (m sp)) (l_dropped (m sp))) m)
| step_get sp maxLen f q q' m : maxLen ≤ 16383 → GetFrame sp maxLen q = Ok (f, q') →
    step (q, m) (q', put sp (mkLedger (l_lost (m sp)) (match f with Some f => pieces f | None => [] end ++ l_sent (m sp)) (l_dropped (m sp))) m)
| step_drop sp q q' m : DropPackets (level sp) q = Ok q' →
    step (q, m) (q', put sp (mkLedger (l_lost (m sp)) (l_sent (m sp)) (queued sp q ++ l_dropped (m sp))) m).

Definition start : retransmissionQueue * (space → ledger) := (newRetransmissionQueue, λ _, mkLedger [] [] []).

Definition balanced (x : retransmissionQueue * (space → ledger)) : Prop := ∀ sp,
  space_ok sp x.1 ∧ l_lost (x.2 sp) ≡ₚ l_sent (x.2 sp) ++ l_dropped (x.2 sp) ++ queued sp x.1.

Lemma all_pieces_add l c f : all_pieces (l ++ [f]) c ≡ₚ pieces f ++ all_pieces l c.
Proof. unfold all_pieces. rewrite fmap_app, concat_app. simpl. rewrite app_nil_r. solve_Permutation. Qed.

Lemma all_pieces_add_crypto l c f : all_pieces l (c ++ [f]) ≡ₚ pieces (FCrypto f) ++ all_pieces l c.
Proof. unfold all_pieces. rewrite fmap_app, concat_app. simpl. rewrite app_nil_r. solve_Permutation. Qed.

(** Only the lists of one space change. *)
Definition only (sp : space) (q q' : retransmissionQueue) : Prop := ∀ sp', sp' ≠ sp → lists sp' q' = lists sp' q.

Lemma only_ok sp q q' : (∀ sp, space_ok sp q) → space_ok sp q' → only sp q q' → ∀ sp, space_ok sp q'.
Proof. intros Hq Hs Ho sp'. destruct (decide (sp' = sp)) as [->|Hn]; [done|]. unfold space_ok. rewrite Ho by done. apply Hq. Qed.

Lemma retx_OnLost_ok sp f q : lost_ok sp f → space_ok sp q →
  ∃ q', OnLost (level sp) f q = Ok q' ∧ space_ok sp q' ∧ only sp q q' ∧ queued sp q' ≡ₚ pieces f ++ queued sp q.
Proof.
  intros [Hl Hf] [H1 H2].
  assert (Hadd : ∀ q', lists sp q' = ((lists sp q).1 ++ [f], (lists sp q).2) → space_ok sp q' ∧ queued sp q' ≡ₚ pieces f ++ queued sp q).
  { intros q' E. unfold space_ok, queued. rewrite E. split; [|apply all_pieces_add]. split; [|done].
    apply Forall_app. split; [done|]. by constructor. }
  assert (Hcr : ∀ q' cf, f = FCrypto cf → lists sp q' = ((lists sp q).1, (lists sp q).2 ++ [cf]) →
    space_ok sp q' ∧ queued sp q' ≡ₚ pieces f ++ queued sp q).
  { intros q' cf -> E. unfold space_ok, queued. rewrite E. split; [|apply all_pieces_add_crypto]. split; [done|].
    apply Forall_app. split; [done|]. by constructor. }
  assert (∃ q', OnLost (level sp) f q = Ok q' ∧ only sp q q' ∧ (lists sp q' = ((lists sp q).1 ++ [f], (lists sp q).2) ∨
    ∃ cf, f = FCrypto cf ∧ lists sp q' = ((lists sp q).1, (lists sp q).2 ++ [cf]))) as (q' & E & Ho & Hc).
  { destruct sp, f; try done; (eexists; split; [reflexivity|]; split; [by intros []|]); by eauto. }
  exists q'. split; [done|]. destruct Hc as [Hc|(cf & Hcf & Hc)]; [destruct (Hadd q' Hc)|destruct (Hcr q' cf Hcf Hc)]; done.
Qed.

Lemma ping_lost sp : lost_ok sp (FPing mkPingFrame).
Proof. split; [by eexists|done]. Qed.

(** [q'] is what [f] leaves of [q]. *)
Definition taken (sp : space) (maxLen : Z) (q : retransmissionQueue) (f : frame) (q' : retransmissionQueue) : Prop :=
  got (lists sp q).1 (lists sp q).2 maxLen f (lists sp q').1 (lists sp q').2.

(** Nothing that is queued fits. *)
Definition nothing_fits (sp : space) (maxLen : Z) (q : retransmissionQueue) : Prop :=
  (∀ f n, head (lists sp q).1 = Some f → Length f = Ok n → maxLen < n) ∧
  ∀ f, head (lists sp q).2 = Some f → maxLen < CryptoFrame_hdr f + 2.

Lemma GetFrame_ok sp maxLen q : space_ok sp q → maxLen ≤ 16383 →
  (∃ f q', GetFrame sp maxLen q = Ok (Some f, q') ∧ taken sp maxLen q f q' ∧ only sp q q') ∨
  (GetFrame sp maxLen q = Ok (None, q) ∧ nothing_fits sp maxLen q).
Proof.
  intros Hq Hm. unfold space_ok in Hq. destruct sp; simpl in Hq.
  - destruct (getFrame_ok _ _ _ Hq Hm) as [(f & l & c & E & Hg)|[E Hn]]; [left|right]; simpl; unfold GetInitialFrame; rewrite E, res_bind_ok.
    + exists f, (set_initial l c q). split_and!; [done|done|by intros []].
    + by destruct q.
  - destruct (getFrame_ok _ _ _ Hq Hm) as [(f & l & c & E & Hg)|[E Hn]]; [left|right]; simpl; unfold GetHandshakeFrame; rewrite E, res_bind_ok.
    + exists f, (set_handshake l c q). split_and!; [done|done|by intros []].
    + by destruct q.
  - destruct (getControlFrame_ok (appData q) maxLen (proj1 Hq)) as [(f & l & n & E & Hl & Hn & Hle)|[E Hn]]; [left|right]; simpl;
      unfold GetAppDataFrame; rewrite E, res_bind_ok.
    + exists f, (set_appData l q). split; [done|]. split; [|by intros []]. unfold taken. simpl. rewrite Hl in *. by eapply got_control.
    + split; [by destruct q|]. split; [done|]. done.
Qed.

Lemma retx_put_same sp l m : put sp l m sp = l.
Proof. by destruct sp. Qed.

Lemma retx_put_other sp sp' l m : sp' ≠ sp → put sp l m sp' = m sp'.
Proof. by destruct sp, sp'. Qed.

Lemma balanced_put q q' m sp l : balanced (q, m) → only sp q q' → space_ok sp q' →
  l_lost l ≡ₚ l_sent l ++ l_dropped l ++ queued sp q' → balanced (q', put sp l m).
Proof.
  intros Hb Ho Hq Hl sp'. simpl. destruct (decide (sp' = sp)) as [->|Hn]; [by rewrite retx_put_same|].
  rewrite retx_put_other by done. destruct (Hb sp') as [H1 H2]. unfold space_ok, queued in *. simpl in *. by rewrite Ho by done.
Qed.

Lemma step_balanced x y : balanced x → step x y → balanced y.
Proof.
  intros Hb Hxy. destruct Hxy as [sp f q q' m Hf E|sp q q' m E|sp maxLen f q q' m Hm E|sp q q' m E]; destruct (Hb sp) as [Hq Hl]; simpl in Hq, Hl.
  - destruct (retx_OnLost_ok sp f q Hf Hq) as (q2 & E2 & Hq2 & Ho & Hp). rewrite E in E2. injection E2 as <-.
    apply (balanced_put q); [done..|]. simpl. rewrite Hl, Hp. solve_Permutation.
  - assert (Hping : AddPing (level sp) q = OnLost (level sp) (FPing mkPingFrame) q) by (by destruct sp). rewrite Hping in E.
    destruct (retx_OnLost_ok sp _ q (ping_lost sp) Hq) as (q2 & E2 & Hq2 & Ho & Hp). rewrite E in E2. injection E2 as <-.
    apply (balanced_put q); [done..|]. simpl. rewrite Hl, Hp. solve_Permutation.
  - destruct (GetFrame_ok sp maxLen q Hq Hm) as [(f2 & q2 & E2 & (_ & Hp & Hq2 & _) & Ho)|[E2 _]]; rewrite E in E2; simplify_eq.
    + apply (balanced_put q); [done..|]. simpl. rewrite Hl. unfold queued. rewrite Hp. solve_Permutation.
    + apply (balanced_put q); [done|done|done|]. done.
  - assert (only sp q q' ∧ queued sp q' = [] ∧ space_ok sp q') as (Ho & Hz & Hq').
    { destruct sp; simpl in E; simplify_eq; (split; [by intros []|]; split; [done|]; split; done). }
    apply (balanced_put q); [done..|]. simpl. rewrite Hl, Hz. solve_Permutation.
Qed.

Lemma run_balanced x : rtc step start x → balanced x.
Proof.
  revert x. apply rtc_ind_r.
  - intros []; (split; [by split|done]).
  - intros y z _ Hyz Hy. by eapply step_balanced.
Qed.

(** C21: what is lost is sent again, exactly once.  Whatever frames are declared
    lost, whatever probes are queued and however large the packets are: for each
    packet number space, the bytes of CRYPTO data and the other frames that
    were lost are those handed out again, those dropped with the keys and those
    still queued.  Asking for a frame never panics; the frame fits the space;
    every frame taken makes the queue smaller, so filling a packet ends; and
    nothing is returned only if nothing fits. *)
Theorem retransmissions_conserved (q : retransmissionQueue) (m : space → ledger) (sp : space) (maxLen : Z) :
  rtc step start (q, m) → maxLen ≤ 16383 →
  l_lost (m sp) ≡ₚ l_sent (m sp) ++ l_dropped (m sp) ++ queued sp q ∧
  match GetFrame sp maxLen q with
  | Ok (Some f, q') =>
      (∃ n, Length f = Ok n ∧ n ≤ maxLen) ∧ queued sp q ≡ₚ pieces f ++ queued sp q' ∧
      (weight (lists sp q').1 (lists sp q').2 < weight (lists sp q).1 (lists sp q).2)%nat
  | Ok (None, q') => q' = q ∧ nothing_fits sp maxLen q
  | _ => False
  end.
Proof.
  intros Hr Hm. destruct (run_balanced _ Hr sp) as [Hq Hl]. split; [done|].
  destruct (GetFrame_ok sp maxLen q Hq Hm) as [(f & q' & -> & (Hn & Hp & _ & Hw & _) & _)|[-> Hn]]; done.
Qed.

Lemma retransmissions_conserved_witness :
  ∃ q m, rtc step start (q, m) ∧ l_lost (m Initial) ≡ₚ l_sent (m Initial) ++ l_dropped (m Initial) ++ queued Initial q ∧
    match GetFrame Initial 100 q with Ok (Some f, _) => ∃ n, Length f = Ok n ∧ n ≤ 100 | _ => False end.
Proof.
  set (f := FCrypto (mkCryptoFrame 3 (replicate 200 7))).
  assert (Hrun : ∃ q m, rtc step start (q, m) ∧ q = addInitial f newRetransmissionQueue).
  { eexists _, _. split; [|done]. apply rtc_once. apply (step_lost Initial f); [|done]. split; [by eexists|]. split; vm_compute; discriminate. }
  destruct Hrun as (q & m & Hr & Hq). exists q, m. split; [done|].
  destruct (retransmissions_conserved q m Initial 100 Hr ltac:(lia)) as [Hl Hg]. split; [done|]. subst q.
  destruct (GetFrame Initial 100 _) as [[[g|] q']|e|p] eqn:E; [apply Hg| |done|done]. vm_compute in E. discriminate.
Defined.

End retransmissionQueue.
