(* ===== verification/Framer.v ===== *)
(** The framer (framer.go): control frames and STREAM frames for the next
    packet.  The streams are behind the interface [StreamGetter], which stands
    for the streams map and the send streams; the theorems are proved against
    its laws. *)

From S2P Require Import Prelude.
From S2P Require Import Varint.
From S2P Require Import Protocol.
From S2P Require Import Frames.
From S2P Require Import AckFrame.
From S2P Require Import FrameParser.
From S2P Require Import RingBuffer.
From S2P Require Import SendStream.

Module framer.
Import protocol wire ack parser ringbuffer.

Definition maxPathResponses : Z := 256.
Definition maxControlFrames : Z := Z.shiftl 16 10.
Definition MinStreamFrameSize : Z := 128.

Record framerI := mkFramer {
  activeStreams : gset Z;
  streamQueue : RingBuffer (T := Z);
  controlFrames : list frame;
  pathResponses : list PathResponseFrame;
  queuedTooManyControlFrames : bool;
}.

Definition newFramer : framerI := mkFramer ∅ empty_ring [] [] false.

Definition set_streams (a : gset Z) (q : RingBuffer (T := Z)) (f : framerI) : framerI :=
  mkFramer a q (controlFrames f) (pathResponses f) (queuedTooManyControlFrames f).
Definition set_control (c : list frame) (p : list PathResponseFrame) (f : framerI) : framerI :=
  mkFramer (activeStreams f) (streamQueue f) c p (queuedTooManyControlFrames f).

Definition HasData (f : framerI) : bool :=
  if negb (Empty (streamQueue f)) then true
  else (0 <? blen (controlFrames f)) || (0 <? blen (pathResponses f)).

Definition QueueControlFrame (x : frame) (f : framerI) : framerI :=
  match x with
  | FPathResponse pr =>
      if maxPathResponses <=? blen (pathResponses f) then f
      else set_control (controlFrames f) (pathResponses f ++ [pr]) f
  | x =>
      if maxControlFrames <=? blen (controlFrames f)
      then mkFramer (activeStreams f) (streamQueue f) (controlFrames f) (pathResponses f) true
      else set_control (controlFrames f ++ [x]) (pathResponses f) f
  end.

Definition QueuedTooManyControlFrames (f : framerI) : bool := queuedTooManyControlFrames f.

(** The loop over the control frames, from the end of the slice: [rev] is the
    slice backwards. *)
Fixpoint control_loop (maxLen : Z) (rev : list frame) (frames : list frame) (length : Z) : res (list frame * Z * list frame) :=
  match rev with
  | [] => Ok (frames, length, rev)
  | x :: rev' =>
      frameLen ← Length x;
      if maxLen <? length + frameLen then Ok (frames, length, rev)
      else control_loop maxLen rev' (frames ++ [x]) (length + frameLen)
  end.

Definition AppendControlFrames (frames : list frame) (maxLen : Z) (f : framerI) : res (list frame * Z * framerI) :=
  '(frames, length, pathResponses) ←
    match pathResponses f with
    | [] => Ok (frames, 0, [])
    | x :: rest =>
        frameLen ← Length (FPathResponse x);
        if frameLen <=? maxLen then Ok (frames ++ [FPathResponse x], frameLen, rest)
        else Ok (frames, 0, pathResponses f)
    end;
  '(frames, length, unsent) ← control_loop maxLen (reverse (controlFrames f)) frames length;
  Ok (frames, length, set_control (reverse unsent) pathResponses f).

(** * STREAM frames *)

(** What the framer calls: [GetOrOpenSendStream], with [false] for a nil stream
    or an error, and [popStreamFrame] of the stream. *)
Class StreamGetter (T : Type) := {
  GetOrOpenSendStream : Z → T → bool * T;
  popStreamFrameOf : Z → Z → st T (option StreamFrame * bool);
}.

Section streams.
Context `{StreamGetter T}.
Abbreviation M := (st (framerI * T)).

Definition AddActiveStream (id : Z) (f : framerI) : res framerI :=
  if bool_decide (id ∈ activeStreams f) then Ok f
  else q ← PushBack 0 id (streamQueue f); Ok (set_streams (activeStreams f ∪ {[ id ]}) q f).

Definition delete_active (id : Z) : M () := λ '(f, t), (Ok tt, (set_streams (activeStreams f ∖ {[ id ]}) (streamQueue f) f, t)).
Definition pop_queue : M Z := λ '(f, t),
  match PopFront 0 (streamQueue f) with
  | Ok (id, q) => (Ok id, (set_streams (activeStreams f) q f, t))
  | Err e => (Err e, (f, t))
  | Panic m => (Panic m, (f, t))
  end.
Definition push_queue (id : Z) : M () := λ '(f, t),
  match PushBack 0 id (streamQueue f) with
  | Ok q => (Ok tt, (set_streams (activeStreams f) q f, t))
  | Err e => (Err e, (f, t))
  | Panic m => (Panic m, (f, t))
  end.
Definition on_streams {A} (m : st T A) : M A := λ '(f, t), let '(r, t) := m t in (r, (f, t)).

(** One stream is asked for a frame. *)
Definition append_one (maxLen : Z) (frames : list StreamFrame) (length : Z) : M (list StreamFrame * Z) :=
  id ← pop_queue;
  found ← on_streams (λ t, let '(b, t) := GetOrOpenSendStream id t in (Ok b, t));
  if negb found then _ ← delete_active id; mret (frames, length) else
  let remainingLen := maxLen - length in
  vl ← st_lift (quicvarint.Len (u64 remainingLen));
  '(frame, hasMoreData) ← on_streams (popStreamFrameOf id (remainingLen + vl));
  _ ← (if (hasMoreData : bool) then push_queue id else delete_active id);
  match frame with
  | None => mret (frames, length)
  | Some x => l ← st_lift (Length x); mret (frames ++ [x], length + l)
  end.

Fixpoint stream_loop (n : nat) (maxLen : Z) (frames : list StreamFrame) (length : Z) : M (list StreamFrame * Z) :=
  match n with
  | O => mret (frames, length)
  | S n =>
      if maxLen <? MinStreamFrameSize + length then mret (frames, length) else
      '(frames, length) ← append_one maxLen frames length;
      stream_loop n maxLen frames length
  end.

(** The last frame of the packet does not need its length. *)
Definition strip_last (startLen : Z) (frames : list StreamFrame) (length : Z) : res (list StreamFrame * Z) :=
  match last frames with
  | Some x =>
      if startLen <? blen frames then
        l ← Length x;
        let x := sendStream.with_len false x in
        l' ← Length x;
        Ok (removelast frames ++ [x], length + (l' - l))
      else Ok (frames, length)
  | None => Ok (frames, length)
  end.

Definition AppendStreamFrames (frames : list StreamFrame) (maxLen : Z) : M (list StreamFrame * Z) := λ '(f, t),
  (let startLen := blen frames in
   let numActiveStreams := Len (streamQueue f) in
   '(frames, length) ← stream_loop (Z.to_nat numActiveStreams) maxLen frames 0;
   st_lift (strip_last startLen frames length)) (f, t).

End streams.

(** * Rejected 0-RTT *)

Definition errUnexpected0RTT : go_error := ErrMsg "didn't expect MAX_DATA / MAX_STREAM_DATA / MAX_STREAMS frame to be sent in 0-RTT".

(** The loop that moves the frames to keep to the front of the slice [a]; it
    stops at a frame that cannot have been sent in 0-RTT. *)
Fixpoint reject_loop (n i j : nat) (a : list frame) : bool * nat * list frame :=
  match n with
  | O => (true, j, a)
  | S n =>
      match a !! i with
      | None => (true, j, a)
      | Some x =>
          match x with
          | FMaxData _ | FMaxStreamData _ | FMaxStreams _ => (false, j, a)
          | FDataBlocked _ | FStreamDataBlocked _ | FStreamsBlocked _ => reject_loop n (S i) j a
          | x => reject_loop n (S i) (S j) (<[ j := x ]> a)
          end
      end
  end.

(** The error, the framer, and whether [controlFrameMutex] is left locked: the
    error return does not unlock it. *)
Definition Handle0RTTRejection (f : framerI) : option go_error * framerI * bool :=
  let f := set_streams ∅ (Clear 0 (streamQueue f)) f in
  match reject_loop (length (controlFrames f)) 0 0 (controlFrames f) with
  | (true, j, a) => (None, set_control (take j a) (pathResponses f) f, false)
  | (false, _, a) => (Some errUnexpected0RTT, set_control a (pathResponses f) f, true)
  end.

(** * The queue of streams *)

(** The streams in the queue are the active ones, each once. *)
Record wf (f : framerI) (q : list Z) : Prop := {
  wf_queue : represents (streamQueue f) q;
  wf_nodup : NoDup q;
  wf_active : activeStreams f = list_to_set q;
}.

Lemma newFramer_wf : wf newFramer [].
Proof. split; [apply rep_nil|constructor|done]. Qed.

Lemma AddActiveStream_ok id f q : wf f q →
  ∃ f', AddActiveStream id f = Ok f' ∧ wf f' (if decide (id ∈ q) then q else q ++ [id]) ∧
    controlFrames f' = controlFrames f ∧ pathResponses f' = pathResponses f.
Proof.
  intros [Hq Hn Ha]. unfold AddActiveStream. destruct (decide (id ∈ q)) as [Hin|Hin].
  - rewrite bool_decide_eq_true_2 by (rewrite Ha; by apply elem_of_list_to_set). by exists f.
  - rewrite bool_decide_eq_false_2 by (rewrite Ha; by rewrite elem_of_list_to_set).
    destruct (PushBack_represents 0 id _ _ Hq) as (r & -> & Hr). rewrite res_bind_ok. eexists. split; [done|]. split; [|done].
    split; [done| |].
    + apply NoDup_app. split_and!; [done|set_solver|apply NoDup_singleton].
    + simpl. rewrite Ha, list_to_set_app_L. set_solver.
Qed.

(** * The laws of the streams *)

(** A frame popped with [m] bytes of space. *)
Definition poppable (id m : Z) (x : StreamFrame) : Prop :=
  well_formed (FStream x) ∧ sf_DataLenPresent x = true ∧ sf_StreamID x = id ∧ ∃ l, Length x = Ok l ∧ l ≤ m.

(** [getter_inv n]: the streams are consistent and [n] more frames may be
    popped; [getter_idle id]: the stream [id] has nothing to send. *)
Class StreamGetterLaws (T : Type) `{StreamGetter T} := {
  getter_inv : nat → T → Prop;
  getter_has : Z → T → Prop;
  getter_idle : Z → T → Prop;
  getter_get n id t : getter_inv n t → let '(found, t') := GetOrOpenSendStream id t in
    getter_inv n t' ∧ (if found then getter_has id t' else getter_idle id t') ∧ ∀ i, getter_idle i t → getter_idle i t';
  getter_pop n id m t : getter_inv (S n) t → getter_has id t → MinStreamFrameSize ≤ m ≤ MaxPacketBufferSize + 2 →
    ∃ f more t', popStreamFrameOf id m t = (Ok (f, more), t') ∧ getter_inv n t' ∧ (∀ x, f = Some x → poppable id m x) ∧
      (more = false → getter_idle id t') ∧ ∀ i, i ≠ id → getter_idle i t → getter_idle i t';
  getter_weaken n t : getter_inv (S n) t → getter_inv n t;
}.

Definition slen (x : StreamFrame) : Z := match Length x with Ok l => l | _ => 0 end.
Definition lens (l : list StreamFrame) : Z := foldr (λ x n, slen x + n) 0 l.

Lemma lens_app l1 l2 : lens (l1 ++ l2) = lens l1 + lens l2.
Proof. induction l1 as [|x l IH]; simpl; [done|]. unfold lens in *. simpl. lia. Qed.

Lemma stream_length x : well_formed (FStream x) →
  Length x = Ok (slen x) ∧ slen x = StreamFrame_hdr x + (if sf_DataLenPresent x then quicvarint.size (StreamFrame_DataLen x) else 0) + StreamFrame_DataLen x ∧
  StreamFrame_sendable x.
Proof.
  intros (H1 & H2 & H3 & H4 & _). assert (Hs : StreamFrame_sendable x) by done. unfold slen. simpl Length.
  by rewrite (StreamFrame_Length_eq x Hs).
Qed.

Lemma lens_nonneg l : Forall (λ x, well_formed (FStream x) ∧ sf_DataLenPresent x = true) l → 0 ≤ lens l.
Proof.
  induction 1 as [|x l [Hx _] _ IH]; [done|]. unfold lens in *. simpl. destruct (stream_length x Hx) as (_ & E & Hs).
  destruct (sendable_encodable x Hs) as (_ & _ & H3 & H4). pose proof (quicvarint.size_range _ H3).
  assert (0 ≤ StreamFrame_DataLen x) by apply blen_nonneg. destruct (sf_DataLenPresent x); lia.
Qed.

Lemma totalLength_streams l : Forall (λ x, well_formed (FStream x)) l → totalLength (FStream <$> l) = Ok (lens l).
Proof.
  induction 1 as [|x l Hx _ IH]; [done|]. rewrite fmap_cons. cbn [totalLength]. change (Length (FStream x)) with (Length x).
  rewrite (proj1 (stream_length x Hx)), res_bind_ok, IH. done.
Qed.

(** Without its length, the last frame fits, although it was popped with the
    space of a length field in addition. *)
Lemma strip_fits x R : well_formed (FStream x) → sf_DataLenPresent x = true → MinStreamFrameSize ≤ R ≤ MaxPacketBufferSize →
  slen x ≤ R + quicvarint.size R → 0 ≤ slen (sendStream.with_len false x) ≤ R ∧ slen (sendStream.with_len false x) ≤ slen x.
Proof.
  intros Hw Hd HR Hl. destruct (stream_length x Hw) as (_ & E & Hs). destruct (stream_length (sendStream.with_len false x) Hw) as (_ & E' & _).
  rewrite E in Hl |- *. rewrite E', Hd in *. cbn [sendStream.with_len sf_DataLenPresent].
  change (StreamFrame_hdr (sendStream.with_len false x)) with (StreamFrame_hdr x).
  change (StreamFrame_DataLen (sendStream.with_len false x)) with (StreamFrame_DataLen x).
  destruct (sendable_encodable x Hs) as (_ & _ & H3 & H4). pose proof (quicvarint.size_range _ H3).
  assert (0 ≤ StreamFrame_DataLen x) by apply blen_nonneg. unfold MinStreamFrameSize, MaxPacketBufferSize in *.
  assert (quicvarint.size R = 2) as Hsz.
  { unfold quicvarint.size, quicvarint.Len, quicvarint.maxVarInt1, quicvarint.maxVarInt2. repeat zcase; lia. }
  assert (StreamFrame_DataLen x ≤ 63 ∨ quicvarint.size (StreamFrame_DataLen x) = 2 ∨ 2 ≤ quicvarint.size (StreamFrame_DataLen x)) as [|[|]].
  { unfold quicvarint.size, quicvarint.Len, quicvarint.maxVarInt1, quicvarint.maxVarInt2 in *. repeat zcase; lia. }
  all: lia.
Qed.

Lemma strip_none frames : strip_last (blen frames) frames 0 = Ok (frames, 0).
Proof. unfold strip_last. destruct (last frames); [by rewrite Z.ltb_irrefl|done]. Qed.

Lemma strip_some frames l x n : well_formed (FStream x) →
  strip_last (blen frames) (frames ++ l ++ [x]) n =
    Ok (frames ++ l ++ [sendStream.with_len false x], n + (slen (sendStream.with_len false x) - slen x)).
Proof.
  intros Hx. unfold strip_last. rewrite app_assoc, last_snoc.
  rewrite (proj2 (Z.ltb_lt _ _)) by (rewrite !blen_app, blen_one; pose proof (blen_nonneg l); lia).
  rewrite (proj1 (stream_length x Hx)), res_bind_ok. cbv zeta.
  rewrite (proj1 (stream_length (sendStream.with_len false x) Hx)), res_bind_ok, removelast_last, <- app_assoc. done.
Qed.

Section append.
Context `{StreamGetterLaws T}.

(** The streams that are not in the queue have nothing to send. *)
Definition idle_outside (q : list Z) (t : T) : Prop := ∀ i, i ∉ q → getter_idle i t.

Lemma append_one_ok maxLen frames length f t id q n : wf f (id :: q) → getter_inv (S n) t →
  MinStreamFrameSize ≤ maxLen - length ≤ MaxPacketBufferSize →
  ∃ fo (more : bool) f' t', append_one maxLen frames length (f, t) =
      (Ok (frames ++ option_list fo, length + lens (option_list fo)), (f', t')) ∧
    wf f' (q ++ if more then [id] else []) ∧ getter_inv n t' ∧ controlFrames f' = controlFrames f ∧ pathResponses f' = pathResponses f ∧
    (∀ x, fo = Some x → poppable id (maxLen - length + quicvarint.size (maxLen - length)) x) ∧
    (idle_outside (id :: q) t → idle_outside (q ++ if more then [id] else []) t').
Proof.
  intros [Hq Hn Ha] Ht HR. unfold append_one. destruct (PopFront_represents 0 _ _ _ Hq) as (r & Hpop & Hr & _).
  rewrite (st_bind_ok _ _ _ id (set_streams (activeStreams f) r f, t)) by (unfold pop_queue; by rewrite Hpop).
  apply NoDup_cons in Hn as [Hid Hn].
  assert (Hdel : wf (set_streams (activeStreams f ∖ {[id]}) r f) (q ++ [])).
  { rewrite app_nil_r. split; [done|done|]. simpl. rewrite Ha. simpl. set_solver. }
  pose proof (getter_get (S n) id t Ht) as Hget. destruct (GetOrOpenSendStream id t) as [b t1] eqn:Hg. destruct Hget as (Hi & Hh & Hio).
  rewrite (st_bind_ok _ _ _ b (set_streams (activeStreams f) r f, t1)) by (unfold on_streams; by rewrite Hg).
  destruct b; cbn [negb].
  2:{ exists None, false, (set_streams (activeStreams f ∖ {[id]}) r f), t1. change (lens (option_list None)) with 0.
      change (option_list None) with (@nil StreamFrame). rewrite app_nil_r, Z.add_0_r.
      split_and!; [done|by rewrite app_nil_r in *|by apply getter_weaken|done|done|done|].
      intros Ho i Hni. destruct (decide (i = id)) as [->|]; [done|]. apply Hio, Ho. rewrite app_nil_r in Hni. set_solver. }
  cbv zeta. set (R := maxLen - length) in *. unfold MinStreamFrameSize, MaxPacketBufferSize in HR.
  assert (Henc : quicvarint.encodable R) by (unfold quicvarint.encodable, quicvarint.Max, quicvarint.maxVarInt8; lia).
  rewrite (st_bind_ok _ _ _ (quicvarint.size R) (set_streams (activeStreams f) r f, t1))
    by (unfold st_lift; by rewrite quicvarint.encodable_u64, quicvarint.Len_size).
  assert (1 ≤ quicvarint.size R ≤ 2).
  { unfold quicvarint.size, quicvarint.Len, quicvarint.maxVarInt1, quicvarint.maxVarInt2. repeat zcase; lia. }
  destruct (getter_pop n id (R + quicvarint.size R) t1 Hi Hh) as (fo & more & t2 & Hp & Hi2 & Hx & Hidle & Hother).
  { unfold MinStreamFrameSize, MaxPacketBufferSize. lia. }
  rewrite (st_bind_ok _ _ _ (fo, more) (set_streams (activeStreams f) r f, t2)) by (unfold on_streams; by rewrite Hp).
  assert (∃ f', (if (more : bool) then push_queue id else delete_active id) (set_streams (activeStreams f) r f, t2) = (Ok tt, (f', t2)) ∧
    wf f' (q ++ if more then [id] else []) ∧ controlFrames f' = controlFrames f ∧ pathResponses f' = pathResponses f) as (f' & E & Hw & Hc1 & Hc2).
  { destruct more.
    - destruct (PushBack_represents 0 id _ _ Hr) as (r' & Hpush & Hr'). unfold push_queue. simpl. rewrite Hpush. eexists. split; [done|].
      split; [|done]. split; [done| |].
      + apply NoDup_app. split_and!; [done|set_solver|apply NoDup_singleton].
      + simpl. rewrite Ha, list_to_set_app_L. set_solver.
    - eexists. split; [reflexivity|]. done. }
  assert (Hout : idle_outside (id :: q) t → idle_outside (q ++ if more then [id] else []) t2).
  { intros Ho i Hni. destruct (decide (i = id)) as [->|Hne]; [apply Hidle; destruct more; set_solver|].
    apply Hother, Hio, Ho; [done|]. set_solver. }
  rewrite (st_bind_ok _ _ _ _ _ E). exists fo, more, f', t2. destruct fo as [x|].
  - destruct (Hx x eq_refl) as (Hwf & _). rewrite (st_bind_ok _ _ _ (slen x) (f', t2)) by (unfold st_lift; by rewrite (proj1 (stream_length x Hwf))).
    change (lens (option_list (Some x))) with (slen x + 0). change (option_list (Some x)) with [x]. rewrite Z.add_0_r. split_and!; done.
  - change (lens (option_list None)) with 0. change (option_list None) with (@nil StreamFrame). rewrite app_nil_r, Z.add_0_r. split_and!; done.
Qed.

(** The frames appended so far: all but the last one leave at least
    [MinStreamFrameSize] bytes, and the last one was popped with the space left. *)
Definition appended (maxLen : Z) (new : list StreamFrame) : Prop :=
  Forall (λ x, well_formed (FStream x) ∧ sf_DataLenPresent x = true) new ∧
  ∀ init x, new = init ++ [x] → let R := maxLen - lens init in MinStreamFrameSize ≤ R ≤ MaxPacketBufferSize ∧ slen x ≤ R + quicvarint.size R.

Lemma getter_zero n t : getter_inv n t → getter_inv 0 t.
Proof. induction n as [|n IH]; [done|]. intros Ht%getter_weaken. auto. Qed.

Lemma stream_loop_ok n maxLen frames (Q : list Z) new f t q done : wf f (q ++ done) → (n ≤ length q)%nat → getter_inv n t → maxLen ≤ MaxPacketBufferSize →
  appended maxLen new → (∀ i, i ∈ q → i ∈ Q) → Forall (λ x, sf_StreamID x ∈ Q) new →
  ∃ k new' more f' t', stream_loop n maxLen (frames ++ new) (lens new) (f, t) = (Ok (frames ++ new', lens new'), (f', t')) ∧
    wf f' (drop k q ++ done ++ more) ∧ getter_inv 0 t' ∧ appended maxLen new' ∧ Forall (λ x, sf_StreamID x ∈ Q) new' ∧
    controlFrames f' = controlFrames f ∧ pathResponses f' = pathResponses f ∧ more `sublist_of` take k q ∧
    ((0 < n)%nat → MinStreamFrameSize + lens new ≤ maxLen → (0 < k)%nat) ∧
    (idle_outside (q ++ done) t → idle_outside (drop k q ++ done ++ more) t').
Proof.
  revert new f t q done. induction n as [|n IH]; intros new f t q done Hf Hn Ht Hmax Hnew HQ Hids; cbn [stream_loop].
  { exists 0%nat, new, [], f, t. rewrite app_nil_r. split_and!; try done; lia. }
  destruct (Z.ltb_spec maxLen (MinStreamFrameSize + lens new)) as [Hlt|Hge].
  { exists 0%nat, new, [], f, t. rewrite app_nil_r. split_and!; try done; [by eapply getter_zero|lia]. }
  destruct q as [|id q]; [simpl in Hn; lia|]. pose proof (lens_nonneg _ (proj1 Hnew)) as Hl0. simpl in Hn.
  destruct (append_one_ok maxLen (frames ++ new) (lens new) f t id (q ++ done) n) as (fo & more & f1 & t1 & E & Hf1 & Ht1 & Hc1 & Hp1 & Hx & Ho1);
    [done|done|unfold MinStreamFrameSize in *; lia|].
  rewrite (st_bind_ok _ _ _ _ _ E). rewrite <- app_assoc, <- lens_app.
  assert (Hnew1 : appended maxLen (new ++ option_list fo) ∧ Forall (λ x, sf_StreamID x ∈ Q) (new ++ option_list fo)).
  { destruct fo as [x|]; [|change (option_list None) with (@nil StreamFrame); by rewrite app_nil_r].
    change (option_list (Some x)) with [x]. destruct (Hx x eq_refl) as (Hwf & Hdl & Hid & l & Hl & Hle). split; [split|].
    - apply Forall_app. split; [apply Hnew|]. constructor; [split; assumption|constructor].
    - intros init y Hy. apply app_inj_tail in Hy as [<- <-]. cbv zeta. split; [unfold MinStreamFrameSize in *; lia|].
      rewrite (proj1 (stream_length x Hwf)) in Hl. injection Hl as ->. done.
    - apply Forall_app. split; [done|]. constructor; [|done]. rewrite Hid. apply HQ. left. }
  destruct (IH (new ++ option_list fo) f1 t1 q (done ++ if more then [id] else [])) as (k & new' & m & f' & t' & E' & Hf' & Ht' & Hn' & Hi' & Hc & Hp & Hm & _ & Ho');
    [by rewrite app_assoc|lia|done|done|apply Hnew1|intros i Hi; apply HQ; by right|apply Hnew1|].
  exists (S k), new', ((if more then [id] else []) ++ m), f', t'. rewrite !app_assoc in *.
  split_and!; try done; [congruence|congruence| |lia|auto]. cbn [firstn]. destruct more; simpl; [by apply sublist_skip|by apply sublist_cons].
Qed.

(** The framer fills the space it is given.  For streams that meet their
    contract, [AppendStreamFrames] never fails; the STREAM frames it appends come
    from active streams, all but the last one carry their length, the length
    reported is the sum of their lengths on the wire, and they fit, although the
    last one was popped with the space of its length field in addition.  The
    streams are asked in order: with enough space at least the first one is
    asked; those that were asked and have more data go to the end of the queue,
    the others leave it, and each active stream is in the queue once.  No stream
    is forgotten: if the streams outside the queue had nothing to send, this is
    still so. *)
Lemma AppendStreamFrames_ok (frames : list StreamFrame) (maxLen : Z) (f : framerI) (t : T) (q : list Z) :
  wf f q → getter_inv (length q) t → maxLen ≤ MaxPacketBufferSize →
  ∃ new len k more f' t', AppendStreamFrames frames maxLen (f, t) = (Ok (frames ++ new, len), (f', t')) ∧
    totalLength (FStream <$> new) = Ok len ∧ 0 ≤ len ≤ Z.max 0 maxLen ∧
    Forall (λ x, well_formed (FStream x) ∧ sf_StreamID x ∈ q) new ∧
    (∀ init x, new = init ++ [x] → Forall (λ y, sf_DataLenPresent y = true) init ∧ sf_DataLenPresent x = false) ∧
    wf f' (drop k q ++ more) ∧ more `sublist_of` take k q ∧ (q ≠ [] → MinStreamFrameSize ≤ maxLen → (0 < k)%nat) ∧
    (idle_outside q t → idle_outside (drop k q ++ more) t') ∧ getter_inv 0 t' ∧
    controlFrames f' = controlFrames f ∧ pathResponses f' = pathResponses f.
Proof.
  intros Hf Ht Hmax. unfold AppendStreamFrames. cbv zeta. rewrite (Len_represents _ _ (wf_queue _ _ Hf)), to_nat_blen.
  assert (Hnil : appended maxLen []). { split; [done|]. intros [|? ?] x Hx; discriminate Hx. }
  destruct (stream_loop_ok (length q) maxLen frames q [] f t q []) as (k & new & more & f' & t' & E & Hf' & Ht' & Hnew & Hids & Hc & Hp & Hm & Hk & Ho);
    try done; [by rewrite app_nil_r|]. rewrite app_nil_r in Ho.
  rewrite app_nil_r in E. change (lens []) with 0 in E. rewrite (st_bind_ok _ _ _ _ _ E). unfold st_lift.
  assert (Hk' : q ≠ [] → MinStreamFrameSize ≤ maxLen → (0 < k)%nat).
  { intros Hq Hl. apply Hk; [|change (lens []) with 0; lia]. destruct q; [done|simpl; lia]. }
  destruct new as [|y0 l0 _] using rev_ind.
  { rewrite app_nil_r. exists [], 0, k, more, f', t'. change (lens []) with 0. rewrite strip_none, app_nil_r.
    split_and!; try done; [lia|]. intros [|? ?] x Hx; discriminate Hx. }
  destruct Hnew as [Hall Hlast]. destruct (Hlast l0 y0 eq_refl) as [HR Hle]. apply Forall_app in Hall as [Hall Hy].
  apply Forall_cons in Hy as [[Hy Hd] _]. destruct (strip_fits y0 _ Hy Hd HR Hle) as [Hs _]. rewrite strip_some by done.
  pose proof (lens_nonneg _ Hall) as Hl0. set (y1 := sendStream.with_len false y0) in *. assert (Hy1 : well_formed (FStream y1)) by exact Hy.
  exists (l0 ++ [y1]), (lens l0 + slen y1), k, more, f', t'. apply Forall_app in Hids as [Hids Hid]. apply Forall_cons in Hid as [Hid _].
  assert (Hone : ∀ y, lens [y] = slen y) by (intros y; unfold lens; simpl; lia).
  assert (HA : Forall (λ x, well_formed (FStream x)) (l0 ++ [y1])).
  { apply Forall_app. split; [eapply Forall_impl; [exact Hall|by intros x []]|by constructor]. }
  split_and!; try done; [|by rewrite totalLength_streams, lens_app, Hone|lia|lia| |].
  - rewrite lens_app, Hone. do 3 f_equal. lia.
  - apply Forall_and. split; [done|]. apply Forall_app. split; [done|]. by constructor.
  - intros init x Hx. apply app_inj_tail in Hx as [<- <-]. split; [|done]. eapply Forall_impl; [exact Hall|by intros x []].
Qed.

End append.

(** * Control frames *)

Definition sized (x : frame) : Prop := ∃ n, Length x = Ok n ∧ 0 ≤ n.

Definition flen (x : frame) : Z := match Length x with Ok l => l | _ => 0 end.
Definition flens (l : list frame) : Z := foldr (λ x n, flen x + n) 0 l.

Lemma sized_length x : sized x → Length x = Ok (flen x) ∧ 0 ≤ flen x.
Proof. intros (n & Hn & H0). unfold flen. by rewrite Hn. Qed.

Lemma flens_app l1 l2 : flens (l1 ++ l2) = flens l1 + flens l2.
Proof. induction l1 as [|x l IH]; simpl; [done|]. unfold flens in *. simpl. lia. Qed.

Lemma totalLength_sized l : Forall sized l → totalLength l = Ok (flens l) ∧ 0 ≤ flens l.
Proof.
  induction 1 as [|x l Hx _ [IH H0]]; [done|]. destruct (sized_length x Hx) as [E H]. cbn [totalLength].
  rewrite E, res_bind_ok, IH. split; [done|]. unfold flens in *. simpl. lia.
Qed.

Lemma control_loop_ok maxLen rev frames new : Forall sized rev → (new ≠ [] → flens new ≤ maxLen) →
  ∃ added rev', control_loop maxLen rev (frames ++ new) (flens new) = Ok (frames ++ new ++ added, flens (new ++ added), rev') ∧
    rev = added ++ rev' ∧ (new ++ added ≠ [] → flens (new ++ added) ≤ maxLen).
Proof.
  intros Hrev. revert new. induction Hrev as [|x rev Hx _ IH]; intros new Hn; cbn [control_loop].
  { exists [], []. by rewrite !app_nil_r. }
  destruct (sized_length x Hx) as [-> H0]. rewrite res_bind_ok. destruct (Z.ltb_spec maxLen (flens new + flen x)).
  { exists [], (x :: rev). by rewrite !app_nil_r. }
  assert (flens (new ++ [x]) = flens new + flen x) as E by (rewrite flens_app; unfold flens; simpl; lia). rewrite <- E, <- app_assoc.
  destruct (IH (new ++ [x])) as (added & rev' & E' & -> & Hle); [lia|].
  exists (x :: added), rev'. rewrite <- !app_assoc in *. done.
Qed.

(** All control frames that are queued. *)
Definition control (f : framerI) : list frame := controlFrames f ++ (FPathResponse <$> pathResponses f).

(** Control frames are appended while they fit, and none is lost. *)
Lemma AppendControlFrames_ok frames maxLen f : Forall sized (control f) →
  ∃ new len f', AppendControlFrames frames maxLen f = Ok (frames ++ new, len, f') ∧
    totalLength new = Ok len ∧ 0 ≤ len ≤ Z.max 0 maxLen ∧ control f ≡ₚ new ++ control f' ∧
    activeStreams f' = activeStreams f ∧ streamQueue f' = streamQueue f.
Proof.
  intros Hs. apply Forall_app in Hs as [Hc Hp]. unfold AppendControlFrames.
  assert (∃ new prs, match pathResponses f with
    | [] => Ok (frames, 0, [])
    | x :: rest =>
        frameLen ← Length (FPathResponse x);
        if frameLen <=? maxLen then Ok (frames ++ [FPathResponse x], frameLen, rest) else Ok (frames, 0, pathResponses f)
    end = Ok (frames ++ new, flens new, prs) ∧ FPathResponse <$> pathResponses f = new ++ (FPathResponse <$> prs) ∧ (new ≠ [] → flens new ≤ maxLen))
    as (new & prs & -> & Hprs & Hn).
  { destruct (pathResponses f) as [|x rest]; [exists [], []; by rewrite app_nil_r|]. apply Forall_cons in Hp as [Hx _].
    destruct (sized_length _ Hx) as [-> H0]. rewrite res_bind_ok. destruct (Z.leb_spec (flen (FPathResponse x)) maxLen).
    - exists [FPathResponse x], rest. unfold flens. cbn [foldr]. rewrite Z.add_0_r. split_and!; [done|done|lia].
    - exists [], (x :: rest). by rewrite app_nil_r. }
  rewrite res_bind_ok. destruct (control_loop_ok maxLen (reverse (controlFrames f)) frames new) as (added & rev' & -> & Hrev & Hle);
    [by apply Forall_reverse|done|]. rewrite res_bind_ok.
  assert (Hcf : controlFrames f = reverse rev' ++ reverse added) by (rewrite <- (reverse_involutive (controlFrames f)), Hrev; apply reverse_app).
  assert (Hall : Forall sized (new ++ added)).
  { apply Forall_app. split; [rewrite Hprs in Hp; by apply Forall_app in Hp as [? _]|].
    rewrite Hcf in Hc. apply Forall_app in Hc as [_ Hc]. by apply Forall_reverse in Hc; rewrite reverse_involutive in Hc. }
  destruct (totalLength_sized _ Hall) as [Ht H0].
  eexists (new ++ added), _, _. split; [done|]. split; [done|]. split; [|split; [|done]].
  - split; [done|]. destruct (new ++ added) as [|y l] eqn:E; [unfold flens; simpl; lia|]. specialize (Hle ltac:(done)). lia.
  - unfold control. simpl. rewrite Hcf, Hprs, (reverse_Permutation added). solve_Permutation.
Qed.

(** Queueing a control frame never drops another one. *)
Lemma QueueControlFrame_ok x f : ∃ kept, control (QueueControlFrame x f) ≡ₚ kept ++ control f ∧
  (kept = [x] ∨ kept = [] ∧ (maxPathResponses ≤ blen (pathResponses f) ∨ queuedTooManyControlFrames (QueueControlFrame x f) = true)).
Proof.
  assert (Hgen : ∃ kept, control (if maxControlFrames <=? blen (controlFrames f)
      then mkFramer (activeStreams f) (streamQueue f) (controlFrames f) (pathResponses f) true
      else set_control (controlFrames f ++ [x]) (pathResponses f) f) ≡ₚ kept ++ control f ∧
    (kept = [x] ∨ kept = [] ∧ (maxPathResponses ≤ blen (pathResponses f) ∨ queuedTooManyControlFrames (if maxControlFrames <=? blen (controlFrames f)
      then mkFramer (activeStreams f) (streamQueue f) (controlFrames f) (pathResponses f) true
      else set_control (controlFrames f ++ [x]) (pathResponses f) f) = true))).
  { destruct (_ <=? _); [exists []; split; [done|]; right; by auto|]. exists [x]. split; [|by left]. unfold control. simpl. solve_Permutation. }
  destruct x as [| | | | | | | | | | | | | | | |pr| | | | | |]; try exact Hgen.
  unfold QueueControlFrame. destruct (Z.leb_spec maxPathResponses (blen (pathResponses f))); [exists []; split; [done|]; right; by auto|].
  exists [FPathResponse pr]. split; [|by left]. unfold control. simpl. rewrite fmap_app. solve_Permutation.
Qed.

(** * Rejected 0-RTT *)

Definition blocked_frame (x : frame) : bool :=
  match x with FDataBlocked _ | FStreamDataBlocked _ | FStreamsBlocked _ => true | _ => false end.
Definition max_frame (x : frame) : bool :=
  match x with FMaxData _ | FMaxStreamData _ | FMaxStreams _ => true | _ => false end.

Lemma reject_loop_ok rest i j a : drop i a = rest → (j ≤ i)%nat → Forall (λ x, max_frame x = false) rest →
  ∃ a', reject_loop (length rest) i j a = (true, (j + length (List.filter (negb ∘ blocked_frame) rest))%nat, a') ∧
    take (j + length (List.filter (negb ∘ blocked_frame) rest)) a' = take j a ++ List.filter (negb ∘ blocked_frame) rest.
Proof.
  revert i j a. induction rest as [|x rest IH]; intros i j a Hd Hj Hm; cbn [reject_loop length List.filter].
  { exists a. by rewrite app_nil_r, Nat.add_0_r. }
  apply Forall_cons in Hm as [Hx Hm]. assert (Hi : a !! i = Some x).
  { rewrite <- (Nat.add_0_r i), <- lookup_drop, Hd. done. }
  rewrite Hi. assert (Hd' : drop (S i) a = rest) by (rewrite <- Nat.add_1_r, <- drop_drop, Hd; done).
  assert (Hkeep : ∃ a', reject_loop (length rest) (S i) (S j) (<[j:=x]> a) = (true, (S j + length (List.filter (negb ∘ blocked_frame) rest))%nat, a') ∧
    take (S j + length (List.filter (negb ∘ blocked_frame) rest)) a' = take j a ++ x :: List.filter (negb ∘ blocked_frame) rest).
  { destruct (IH (S i) (S j) (<[j:=x]> a)) as (a' & E & Ht); [|lia|done|].
    - rewrite drop_insert_lt by lia. done.
    - exists a'. split; [done|]. rewrite Ht. assert (j < length a)%nat by (apply lookup_lt_Some in Hi; lia).
      rewrite (take_S_r _ _ x) by (apply list_lookup_insert_eq; lia). rewrite take_insert_ge by lia. by rewrite <- app_assoc. }
  assert (Hskip : ∃ a', reject_loop (length rest) (S i) j a = (true, (j + length (List.filter (negb ∘ blocked_frame) rest))%nat, a') ∧
    take (j + length (List.filter (negb ∘ blocked_frame) rest)) a' = take j a ++ List.filter (negb ∘ blocked_frame) rest) by (apply IH; [done|lia|done]).
  destruct x; simpl in Hx |- *; try discriminate; try exact Hskip; rewrite Nat.add_succ_r; exact Hkeep.
Qed.

(** After 0-RTT was rejected, no stream is active and the control frames that
    are still valid are kept. *)
Lemma Handle0RTTRejection_ok f : Forall (λ x, max_frame x = false) (controlFrames f) →
  ∃ f', Handle0RTTRejection f = (None, f', false) ∧ wf f' [] ∧
    controlFrames f' = List.filter (negb ∘ blocked_frame) (controlFrames f) ∧ pathResponses f' = pathResponses f.
Proof.
  intros Hm. unfold Handle0RTTRejection. cbn [set_streams controlFrames].
  destruct (reject_loop_ok (controlFrames f) 0 0 (controlFrames f) eq_refl (le_n _) Hm) as (a' & -> & Ht). eexists. split; [done|].
  split; [|split; [|done]].
  - split; simpl; [apply Clear_represents|constructor|done].
  - exact Ht.
Qed.

(** A MAX_DATA frame makes [Handle0RTTRejection] return with
    [controlFrameMutex] locked: the next call of the framer that takes it blocks
    forever. *)
Lemma rejection_keeps_lock : ∃ f', Handle0RTTRejection (QueueControlFrame (FMaxData (mkMaxDataFrame 1000)) newFramer) = (Some errUnexpected0RTT, f', true).
Proof. by eexists. Qed.

End framer.
