(* ===== verification/StreamsMap.v ===== *)
(** The streams of a connection (streams_map.go, streams_map_outgoing.go,
    streams_map_incoming.go): opening streams within the peer's limit, with
    callers that wait for it, accepting the peer's streams within the own
    limit, and the map of all four kinds of streams. *)

From S2P Require Import Prelude.
From S2P Require Import Protocol.
From S2P Require Import Frames.

Module streamsMap.
Import protocol wire.

(** * Errors, channels and streams *)

Inductive stream_err :=
| streamError (message : string) (nums : list Z)
| streamOpenErr
| Err0RTTRejected
| goErr (e : go_error)
| fmtErr (message : string) (ids : list Z).

(** [fmt.Errorf] with the stream IDs. *)
Definition convertStreamError (stype : StreamType) (pers : Perspective) (e : stream_err) : stream_err :=
  match e with
  | streamError message nums => fmtErr message ((λ num, StreamNum_StreamID num stype pers) <$> nums)
  | e => e
  end.

(** A channel of capacity one, used for wake-ups. *)
Inductive chan := ch_empty | ch_token | ch_closed.

#[global] Instance chan_eq_dec : EqDecision chan.
Proof. solve_decision. Defined.

(** [select { case c <- struct{}{}: default: }] *)
Definition ch_send (c : chan) : res chan :=
  match c with ch_closed => Panic "send on closed channel" | _ => Ok ch_token end.

(** [<-c], if it does not block. *)
Definition ch_recv (c : chan) : option chan :=
  match c with ch_empty => None | ch_token => Some ch_empty | ch_closed => Some ch_closed end.

Definition InvalidStreamNum : Z := -1.

(** What the maps call on a stream. *)
Class stream_ops (T : Type) := {
  updateSendWindowOf : Z → T → T;
  closeForShutdownOf : stream_err → T → T;
}.

(** * Outgoing streams *)

Section outgoing.
Context `{stream_ops T} (newStream : Z → bool → T).

Record outgoingStreamsMap := mkOut {
  o_streamType : StreamType;
  o_streams : gmap Z T;
  openQueue : gmap Z chan;
  lowestInQueue : Z;
  highestInQueue : Z;
  nextStream : Z;
  maxStream : Z;
  blockedSent : bool;
  o_closeErr : option stream_err;
}.

Definition newOutgoingStreamsMap (t : StreamType) : outgoingStreamsMap := mkOut t ∅ ∅ 0 0 1 InvalidStreamNum false None.

Definition set_queue (q : gmap Z chan) (lo hi : Z) (m : outgoingStreamsMap) : outgoingStreamsMap :=
  mkOut (o_streamType m) (o_streams m) q lo hi (nextStream m) (maxStream m) (blockedSent m) (o_closeErr m).
Definition set_open (s : gmap Z T) (next : Z) (m : outgoingStreamsMap) : outgoingStreamsMap :=
  mkOut (o_streamType m) s (openQueue m) (lowestInQueue m) (highestInQueue m) next (maxStream m) (blockedSent m) (o_closeErr m).
Definition set_limit (l : Z) (b : bool) (m : outgoingStreamsMap) : outgoingStreamsMap :=
  mkOut (o_streamType m) (o_streams m) (openQueue m) (lowestInQueue m) (highestInQueue m) (nextStream m) l b (o_closeErr m).

Definition openStream (fecProtected : bool) (m : outgoingStreamsMap) : T * outgoingStreamsMap :=
  let s := newStream (nextStream m) fecProtected in
  (s, set_open (<[nextStream m := s]> (o_streams m)) (i64 (nextStream m + 1)) m).

Definition maybeSendBlockedFrame (m : outgoingStreamsMap) : outgoingStreamsMap * list StreamsBlockedFrame :=
  if blockedSent m then (m, []) else
  let streamNum := if maxStream m =? InvalidStreamNum then 0 else maxStream m in
  (set_limit (maxStream m) true m, [mkStreamsBlockedFrame (o_streamType m) streamNum]).

(** The loop over the queue positions; [n] counts those left. *)
Fixpoint unblock_loop (n : nat) (qp : Z) (m : outgoingStreamsMap) : res outgoingStreamsMap :=
  match n with
  | O => Ok m
  | S n =>
      match openQueue m !! qp with
      | None => unblock_loop n (qp + 1) m
      | Some c => c ← ch_send c; Ok (set_queue (<[qp := c]> (openQueue m)) (lowestInQueue m) (highestInQueue m) m)
      end
  end.

Definition unblockOpenSync (m : outgoingStreamsMap) : res outgoingStreamsMap :=
  if (size (openQueue m) =? 0)%nat then Ok m
  else unblock_loop (Z.to_nat (highestInQueue m - lowestInQueue m + 1)) (lowestInQueue m) m.

Definition openStreamInternal (fecProtected : bool) (m : outgoingStreamsMap) : (T + stream_err) * outgoingStreamsMap * list StreamsBlockedFrame :=
  match o_closeErr m with
  | Some e => (inr e, m, [])
  | None =>
      if (0 <? size (openQueue m))%nat || (maxStream m <? nextStream m) then
        let '(m, fs) := maybeSendBlockedFrame m in (inr streamOpenErr, m, fs)
      else let '(s, m) := openStream fecProtected m in (inl s, m, [])
  end.

Definition OpenStream := openStreamInternal false.
Definition OpenStreamWithFEC := openStreamInternal true.

(** [openStreamSyncInternal] gives up the mutex to wait: [OWait] is a call that
    waits at a position of the queue, [OpenSync_resume] what it does once its
    channel was readable, [OpenSync_cancel] once its context is done. *)
Inductive open_outcome := ODone (r : T + stream_err) | OWait (queuePos : Z).

Definition openStreamSyncInternal (ctxErr : option go_error) (fecProtected : bool) (m : outgoingStreamsMap)
    : open_outcome * outgoingStreamsMap * list StreamsBlockedFrame :=
  match o_closeErr m, ctxErr with
  | Some e, _ => (ODone (inr e), m, [])
  | None, Some e => (ODone (inr (goErr e)), m, [])
  | None, None =>
      if (size (openQueue m) =? 0)%nat && (nextStream m <=? maxStream m) then
        let '(s, m) := openStream fecProtected m in (ODone (inl s), m, [])
      else
        let queuePos := highestInQueue m in
        let lo := if (size (openQueue m) =? 0)%nat then queuePos else lowestInQueue m in
        let m := set_queue (<[queuePos := ch_empty]> (openQueue m)) lo (u64 (queuePos + 1)) m in
        let '(m, fs) := maybeSendBlockedFrame m in
        (OWait queuePos, m, fs)
  end.

Definition OpenSync_cancel (queuePos : Z) (ctxErr : go_error) (m : outgoingStreamsMap) : stream_err * outgoingStreamsMap :=
  (goErr ctxErr, set_queue (delete queuePos (openQueue m)) (lowestInQueue m) (highestInQueue m) m).

(** The channel is read before the mutex is taken. *)
Definition OpenSync_resume (queuePos : Z) (fecProtected : bool) (c : chan) (m : outgoingStreamsMap) : res (open_outcome * outgoingStreamsMap) :=
  let m := set_queue (<[queuePos := c]> (openQueue m)) (lowestInQueue m) (highestInQueue m) m in
  match o_closeErr m with
  | Some e => Ok (ODone (inr e), m)
  | None =>
      if maxStream m <? nextStream m then Ok (OWait queuePos, m) else
      let '(s, m) := openStream fecProtected m in
      let m := set_queue (delete queuePos (openQueue m)) (u64 (queuePos + 1)) (highestInQueue m) m in
      m ← unblockOpenSync m;
      Ok (ODone (inl s), m)
  end.

Definition OpenStreamSync ctxErr := openStreamSyncInternal ctxErr false.
Definition OpenStreamSyncWithFEC ctxErr := openStreamSyncInternal ctxErr true.

(** [None] is a nil stream. *)
Definition GetStream (num : Z) (m : outgoingStreamsMap) : option T + stream_err :=
  if nextStream m <=? num then inr (streamError "peer attempted to open stream %d" [num])
  else inl (o_streams m !! num).

Definition out_DeleteStream (num : Z) (m : outgoingStreamsMap) : option stream_err * outgoingStreamsMap :=
  match o_streams m !! num with
  | None => (Some (streamError "tried to delete unknown outgoing stream %d" [num]), m)
  | Some _ => (None, set_open (delete num (o_streams m)) (nextStream m) m)
  end.

Definition SetMaxStream (num : Z) (m : outgoingStreamsMap) : res (outgoingStreamsMap * list StreamsBlockedFrame) :=
  if num <=? maxStream m then Ok (m, []) else
  let m := set_limit num false m in
  let '(m, fs) := if maxStream m <? nextStream m - 1 + Z.of_nat (size (openQueue m)) then maybeSendBlockedFrame m else (m, []) in
  m ← unblockOpenSync m;
  Ok (m, fs).

Definition UpdateSendWindow (limit : Z) (m : outgoingStreamsMap) : outgoingStreamsMap :=
  set_open (updateSendWindowOf limit <$> o_streams m) (nextStream m) m.

(** [close(c)] panics for a channel that is closed. *)
Definition out_CloseWithError (err : stream_err) (m : outgoingStreamsMap) : res outgoingStreamsMap :=
  let m' := mkOut (o_streamType m) (closeForShutdownOf err <$> o_streams m) ((λ _, ch_closed) <$> openQueue m) (lowestInQueue m)
    (highestInQueue m) (nextStream m) (maxStream m) (blockedSent m) (Some err) in
  if bool_decide (map_Forall (λ _ c, c ≠ ch_closed) (openQueue m)) then Ok m' else Panic "close of closed channel".

End outgoing.
#[global] Arguments outgoingStreamsMap : clear implicits.
#[global] Arguments open_outcome : clear implicits.

(** * Incoming streams *)

Section incoming.
Context `{stream_ops T} (newStream : Z → T).

Record incomingStreamEntry := mkEntry { e_stream : T; shouldDelete : bool }.

Record incomingStreamsMap := mkIn {
  newStreamChan : chan;
  i_streamType : StreamType;
  i_streams : gmap Z incomingStreamEntry;
  nextStreamToAccept : Z;
  nextStreamToOpen : Z;
  i_maxStream : Z;
  maxNumStreams : Z;
  i_closeErr : option stream_err;
}.

Definition newIncomingStreamsMap (t : StreamType) (maxStreams : Z) : incomingStreamsMap :=
  mkIn ch_empty t ∅ 1 1 (i64 maxStreams) maxStreams None.

Definition set_chan (c : chan) (m : incomingStreamsMap) : incomingStreamsMap :=
  mkIn c (i_streamType m) (i_streams m) (nextStreamToAccept m) (nextStreamToOpen m) (i_maxStream m) (maxNumStreams m) (i_closeErr m).
Definition set_entries (s : gmap Z incomingStreamEntry) (m : incomingStreamsMap) : incomingStreamsMap :=
  mkIn (newStreamChan m) (i_streamType m) s (nextStreamToAccept m) (nextStreamToOpen m) (i_maxStream m) (maxNumStreams m) (i_closeErr m).
Definition set_next (accept open : Z) (m : incomingStreamsMap) : incomingStreamsMap :=
  mkIn (newStreamChan m) (i_streamType m) (i_streams m) accept open (i_maxStream m) (maxNumStreams m) (i_closeErr m).
Definition set_max (l : Z) (m : incomingStreamsMap) : incomingStreamsMap :=
  mkIn (newStreamChan m) (i_streamType m) (i_streams m) (nextStreamToAccept m) (nextStreamToOpen m) l (maxNumStreams m) (i_closeErr m).

Definition deleteStream (num : Z) (m : incomingStreamsMap) : option stream_err * incomingStreamsMap * list MaxStreamsFrame :=
  match i_streams m !! num with
  | None => (Some (streamError "tried to delete unknown incoming stream %d" [num]), m, [])
  | Some entry =>
      if nextStreamToAccept m <=? num then
        if shouldDelete entry then (Some (streamError "tried to delete incoming stream %d multiple times" [num]), m, [])
        else (None, set_entries (<[num := mkEntry (e_stream entry) true]> (i_streams m)) m, [])
      else
        let m := set_entries (delete num (i_streams m)) m in
        let n := Z.of_nat (size (i_streams m)) in
        if n <? maxNumStreams m then
          let l := i64 (nextStreamToOpen m + i64 (maxNumStreams m - n) - 1) in
          if l <=? MaxStreamCount then (None, set_max l m, [mkMaxStreamsFrame (i_streamType m) l]) else (None, m, [])
        else (None, m, [])
  end.

Definition in_DeleteStream := deleteStream.

(** [AcceptStream] gives up the mutex to wait for a new stream: [AWait] is a
    call that waits. *)
Inductive accept_outcome := ADone (r : T + stream_err) | AWait.

(** One round of the loop, and what follows it. *)
Definition accept_round (m : incomingStreamsMap) : accept_outcome * incomingStreamsMap * list MaxStreamsFrame :=
  let num := nextStreamToAccept m in
  match i_closeErr m with
  | Some e => (ADone (inr e), m, [])
  | None =>
      match i_streams m !! num with
      | None => (AWait, m, [])
      | Some entry =>
          let m := set_next (i64 (num + 1)) (nextStreamToOpen m) m in
          if shouldDelete entry then
            let '(err, m, fs) := deleteStream num m in
            match err with
            | Some e => (ADone (inr e), m, fs)
            | None => (ADone (inl (e_stream entry)), m, fs)
            end
          else (ADone (inl (e_stream entry)), m, [])
      end
  end.

(** A token in the channel is dropped first. *)
Definition AcceptStream (m : incomingStreamsMap) : accept_outcome * incomingStreamsMap * list MaxStreamsFrame :=
  accept_round (set_chan (default (newStreamChan m) (ch_recv (newStreamChan m))) m).

Definition Accept_resume (c : chan) (m : incomingStreamsMap) : accept_outcome * incomingStreamsMap * list MaxStreamsFrame :=
  accept_round (set_chan c m).

(** The loop that opens [n] streams from [newNum] on. *)
Fixpoint open_loop (n : nat) (newNum : Z) (m : incomingStreamsMap) : res incomingStreamsMap :=
  match n with
  | O => Ok m
  | S n =>
      let m := set_entries (<[newNum := mkEntry (newStream newNum) false]> (i_streams m)) m in
      c ← ch_send (newStreamChan m);
      open_loop n (newNum + 1) (set_chan c m)
  end.

Definition GetOrOpenStream (num : Z) (m : incomingStreamsMap) : res ((option T + stream_err) * incomingStreamsMap) :=
  if i_maxStream m <? num then
    Ok (inr (streamError "peer tried to open stream %d (current limit: %d)" [num; i_maxStream m]), m)
  else if num <? nextStreamToOpen m then
    Ok (inl match i_streams m !! num with
            | Some entry => if shouldDelete entry then None else Some (e_stream entry)
            | None => None
            end, m)
  else
    m ← open_loop (Z.to_nat (num - nextStreamToOpen m + 1)) (nextStreamToOpen m) m;
    let m := set_next (nextStreamToAccept m) (i64 (num + 1)) m in
    Ok (inl (e_stream <$> i_streams m !! num), m).

Definition in_CloseWithError (err : stream_err) (m : incomingStreamsMap) : res incomingStreamsMap :=
  match newStreamChan m with
  | ch_closed => Panic "close of closed channel"
  | _ =>
      Ok (mkIn ch_closed (i_streamType m) ((λ e, mkEntry (closeForShutdownOf err (e_stream e)) (shouldDelete e)) <$> i_streams m)
        (nextStreamToAccept m) (nextStreamToOpen m) (i_maxStream m) (maxNumStreams m) (Some err))
  end.

End incoming.
#[global] Arguments incomingStreamEntry : clear implicits.
#[global] Arguments incomingStreamsMap : clear implicits.
#[global] Arguments accept_outcome : clear implicits.

(** * All streams of a connection *)

Section all.
Context {stream sendStream receiveStream : Type}.
Context `{stream_ops stream, stream_ops sendStream, stream_ops receiveStream}.

(** The constructors of the streams, with their flow controllers. *)
Context (newStreamWithFEC : Z → bool → stream) (newSendStreamWithFEC : Z → bool → sendStream) (newReceiveStream : Z → receiveStream).

Record streamsMap := mkMap {
  perspective : Perspective;
  maxIncomingBidiStreams : Z;
  maxIncomingUniStreams : Z;
  outgoingBidiStreams : outgoingStreamsMap stream;
  outgoingUniStreams : outgoingStreamsMap sendStream;
  incomingBidiStreams : incomingStreamsMap stream;
  incomingUniStreams : incomingStreamsMap receiveStream;
  reset : bool;
}.

(** The functions [initMaps] gives to the maps; [newStream] is
    [newStreamWithFEC] without FEC. *)
Definition new_out_bidi (p : Perspective) (num : Z) (fec : bool) : stream := newStreamWithFEC (StreamNum_StreamID num StreamTypeBidi p) fec.
Definition new_in_bidi (p : Perspective) (num : Z) : stream := newStreamWithFEC (StreamNum_StreamID num StreamTypeBidi (Opposite p)) false.
Definition new_out_uni (p : Perspective) (num : Z) (fec : bool) : sendStream := newSendStreamWithFEC (StreamNum_StreamID num StreamTypeUni p) fec.
Definition new_in_uni (p : Perspective) (num : Z) : receiveStream := newReceiveStream (StreamNum_StreamID num StreamTypeUni (Opposite p)).

Definition initMaps (p : Perspective) (maxBidi maxUni : Z) (reset : bool) : streamsMap :=
  mkMap p maxBidi maxUni (newOutgoingStreamsMap StreamTypeBidi) (newOutgoingStreamsMap StreamTypeUni)
    (newIncomingStreamsMap StreamTypeBidi maxBidi) (newIncomingStreamsMap StreamTypeUni maxUni) reset.

Definition newStreamsMap (maxBidi maxUni : Z) (p : Perspective) : streamsMap := initMaps p maxBidi maxUni false.

Definition set_out_bidi (x : outgoingStreamsMap stream) (m : streamsMap) : streamsMap :=
  mkMap (perspective m) (maxIncomingBidiStreams m) (maxIncomingUniStreams m) x (outgoingUniStreams m) (incomingBidiStreams m) (incomingUniStreams m) (reset m).
Definition set_out_uni (x : outgoingStreamsMap sendStream) (m : streamsMap) : streamsMap :=
  mkMap (perspective m) (maxIncomingBidiStreams m) (maxIncomingUniStreams m) (outgoingBidiStreams m) x (incomingBidiStreams m) (incomingUniStreams m) (reset m).
Definition set_in_bidi (x : incomingStreamsMap stream) (m : streamsMap) : streamsMap :=
  mkMap (perspective m) (maxIncomingBidiStreams m) (maxIncomingUniStreams m) (outgoingBidiStreams m) (outgoingUniStreams m) x (incomingUniStreams m) (reset m).
Definition set_in_uni (x : incomingStreamsMap receiveStream) (m : streamsMap) : streamsMap :=
  mkMap (perspective m) (maxIncomingBidiStreams m) (maxIncomingUniStreams m) (outgoingBidiStreams m) (outgoingUniStreams m) (incomingBidiStreams m) x (reset m).

Definition conv {A} (t : StreamType) (p : Perspective) (r : A + stream_err) : A + stream_err :=
  match r with inl x => inl x | inr e => inr (convertStreamError t p e) end.
(** A stream that may be nil, as one of the two kinds. *)
Definition conv_as {A B} (f : A → B) (t : StreamType) (p : Perspective) (r : option A + stream_err) : option B + stream_err :=
  match conv t p r with inl x => inl (f <$> x) | inr e => inr e end.
Definition conv_open {A} (t : StreamType) (p : Perspective) (r : open_outcome A) : open_outcome A :=
  match r with ODone r => ODone (conv t p r) | OWait n => OWait n end.
Definition conv_accept {A} (t : StreamType) (p : Perspective) (r : accept_outcome A) : accept_outcome A :=
  match r with ADone r => ADone (conv t p r) | AWait => AWait end.

Definition map_OpenStream (m : streamsMap) : (stream + stream_err) * streamsMap * list StreamsBlockedFrame :=
  if reset m then (inr Err0RTTRejected, m, []) else
  let '(r, mm, fs) := OpenStream (new_out_bidi (perspective m)) (outgoingBidiStreams m) in
  (conv StreamTypeBidi (perspective m) r, set_out_bidi mm m, fs).

Definition map_OpenUniStream (m : streamsMap) : (sendStream + stream_err) * streamsMap * list StreamsBlockedFrame :=
  if reset m then (inr Err0RTTRejected, m, []) else
  let '(r, mm, fs) := OpenStream (new_out_uni (perspective m)) (outgoingUniStreams m) in
  (conv StreamTypeBidi (perspective m) r, set_out_uni mm m, fs).

(** [OpenStreamSync] and [OpenStreamSyncWithFEC], up to the point where they wait. *)
Definition map_OpenStreamSync (fec : bool) (ctxErr : option go_error) (m : streamsMap) : open_outcome stream * streamsMap * list StreamsBlockedFrame :=
  if reset m then (ODone (inr Err0RTTRejected), m, []) else
  let '(r, mm, fs) := openStreamSyncInternal (new_out_bidi (perspective m)) ctxErr fec (outgoingBidiStreams m) in
  (conv_open StreamTypeBidi (perspective m) r, set_out_bidi mm m, fs).

Definition map_OpenUniStreamSync (fec : bool) (ctxErr : option go_error) (m : streamsMap) : open_outcome sendStream * streamsMap * list StreamsBlockedFrame :=
  if reset m then (ODone (inr Err0RTTRejected), m, []) else
  let '(r, mm, fs) := openStreamSyncInternal (new_out_uni (perspective m)) ctxErr fec (outgoingUniStreams m) in
  (conv_open StreamTypeUni (perspective m) r, set_out_uni mm m, fs).

Definition map_AcceptStream (m : streamsMap) : accept_outcome stream * streamsMap * list MaxStreamsFrame :=
  if reset m then (ADone (inr Err0RTTRejected), m, []) else
  let '(r, mm, fs) := AcceptStream (incomingBidiStreams m) in
  (conv_accept StreamTypeBidi (Opposite (perspective m)) r, set_in_bidi mm m, fs).

Definition map_AcceptUniStream (m : streamsMap) : accept_outcome receiveStream * streamsMap * list MaxStreamsFrame :=
  if reset m then (ADone (inr Err0RTTRejected), m, []) else
  let '(r, mm, fs) := AcceptStream (incomingUniStreams m) in
  (conv_accept StreamTypeUni (Opposite (perspective m)) r, set_in_uni mm m, fs).

Definition map_DeleteStream (id : Z) (m : streamsMap) : option stream_err * streamsMap * list MaxStreamsFrame :=
  let num := StreamID_StreamNum id in
  let own := bool_decide (StreamID_InitiatedBy id = perspective m) in
  match StreamID_Type id, own with
  | StreamTypeUni, true =>
      let '(e, mm) := out_DeleteStream num (outgoingUniStreams m) in (convertStreamError StreamTypeUni (perspective m) <$> e, set_out_uni mm m, [])
  | StreamTypeUni, false =>
      let '(e, mm, fs) := in_DeleteStream num (incomingUniStreams m) in
      (convertStreamError StreamTypeUni (Opposite (perspective m)) <$> e, set_in_uni mm m, fs)
  | StreamTypeBidi, true =>
      let '(e, mm) := out_DeleteStream num (outgoingBidiStreams m) in (convertStreamError StreamTypeBidi (perspective m) <$> e, set_out_bidi mm m, [])
  | StreamTypeBidi, false =>
      let '(e, mm, fs) := in_DeleteStream num (incomingBidiStreams m) in
      (convertStreamError StreamTypeBidi (Opposite (perspective m)) <$> e, set_in_bidi mm m, fs)
  end.

(** The stream a frame of the peer is for; [None] is a nil stream.  A
    bidirectional stream serves as both kinds. *)
Definition getOrOpenReceiveStream (id : Z) (m : streamsMap) : res ((option (stream + receiveStream) + stream_err) * streamsMap) :=
  let num := StreamID_StreamNum id in
  let own := bool_decide (StreamID_InitiatedBy id = perspective m) in
  match StreamID_Type id, own with
  | StreamTypeUni, true => Ok (inr (fmtErr "peer attempted to open receive stream %d" [id]), m)
  | StreamTypeUni, false =>
      '(r, mm) ← GetOrOpenStream (new_in_uni (perspective m)) num (incomingUniStreams m);
      Ok (conv_as inr StreamTypeUni (perspective m) r, set_in_uni mm m)
  | StreamTypeBidi, true =>
      Ok (conv_as inl StreamTypeBidi (StreamID_InitiatedBy id) (GetStream num (outgoingBidiStreams m)), m)
  | StreamTypeBidi, false =>
      '(r, mm) ← GetOrOpenStream (new_in_bidi (perspective m)) num (incomingBidiStreams m);
      Ok (conv_as inl StreamTypeBidi (StreamID_InitiatedBy id) r, set_in_bidi mm m)
  end.

Definition getOrOpenSendStream (id : Z) (m : streamsMap) : res ((option (stream + sendStream) + stream_err) * streamsMap) :=
  let num := StreamID_StreamNum id in
  let own := bool_decide (StreamID_InitiatedBy id = perspective m) in
  match StreamID_Type id, own with
  | StreamTypeUni, true =>
      Ok (conv_as inr StreamTypeUni (perspective m) (GetStream num (outgoingUniStreams m)), m)
  | StreamTypeUni, false => Ok (inr (fmtErr "peer attempted to open send stream %d" [id]), m)
  | StreamTypeBidi, true =>
      Ok (conv_as inl StreamTypeBidi (StreamID_InitiatedBy id) (GetStream num (outgoingBidiStreams m)), m)
  | StreamTypeBidi, false =>
      '(r, mm) ← GetOrOpenStream (new_in_bidi (perspective m)) num (incomingBidiStreams m);
      Ok (conv_as inl StreamTypeBidi (StreamID_InitiatedBy id) r, set_in_bidi mm m)
  end.

(** An error becomes a [qerr.TransportError] with the code [StreamStateError]. *)
Definition state_error {A} (r : res ((A + stream_err) * streamsMap)) : res ((A + (Z * stream_err)) * streamsMap) :=
  '(x, m) ← r; Ok (match x with inl x => inl x | inr e => inr (StreamStateError, e) end, m).

Definition GetOrOpenReceiveStream (id : Z) (m : streamsMap) := state_error (getOrOpenReceiveStream id m).
Definition GetOrOpenSendStream (id : Z) (m : streamsMap) := state_error (getOrOpenSendStream id m).

Definition HandleMaxStreamsFrame (f : MaxStreamsFrame) (m : streamsMap) : res (streamsMap * list StreamsBlockedFrame) :=
  match ms_Type f with
  | StreamTypeUni => '(mm, fs) ← SetMaxStream (ms_MaxStreamNum f) (outgoingUniStreams m); Ok (set_out_uni mm m, fs)
  | StreamTypeBidi => '(mm, fs) ← SetMaxStream (ms_MaxStreamNum f) (outgoingBidiStreams m); Ok (set_out_bidi mm m, fs)
  end.

(** The four transport parameters [UpdateLimits] uses. *)
Definition UpdateLimits (initialMaxStreamDataBidiRemote initialMaxStreamDataUni maxBidiStreamNum maxUniStreamNum : Z) (m : streamsMap)
    : res (streamsMap * list StreamsBlockedFrame) :=
  let bidi := UpdateSendWindow initialMaxStreamDataBidiRemote (outgoingBidiStreams m) in
  '(bidi, fs1) ← SetMaxStream maxBidiStreamNum bidi;
  let uni := UpdateSendWindow initialMaxStreamDataUni (outgoingUniStreams m) in
  '(uni, fs2) ← SetMaxStream maxUniStreamNum uni;
  Ok (set_out_uni uni (set_out_bidi bidi m), fs1 ++ fs2).

Definition map_CloseWithError (err : stream_err) (m : streamsMap) : res streamsMap :=
  ob ← out_CloseWithError err (outgoingBidiStreams m);
  ou ← out_CloseWithError err (outgoingUniStreams m);
  ib ← in_CloseWithError err (incomingBidiStreams m);
  iu ← in_CloseWithError err (incomingUniStreams m);
  Ok (mkMap (perspective m) (maxIncomingBidiStreams m) (maxIncomingUniStreams m) ob ou ib iu (reset m)).

(** The closed maps, which the waiting calls still refer to, and the new ones. *)
Definition ResetFor0RTT (m : streamsMap) : res (streamsMap * streamsMap) :=
  old ← map_CloseWithError Err0RTTRejected m;
  Ok (old, initMaps (perspective m) (maxIncomingBidiStreams m) (maxIncomingUniStreams m) true).

Definition UseResetMaps (m : streamsMap) : streamsMap :=
  mkMap (perspective m) (maxIncomingBidiStreams m) (maxIncomingUniStreams m) (outgoingBidiStreams m) (outgoingUniStreams m)
    (incomingBidiStreams m) (incomingUniStreams m) false.

End all.
#[global] Arguments streamsMap : clear implicits.

End streamsMap.
