(* ===== verification/StreamLimits.v ===== *)
(** Correctness of the streams maps: stream numbers are used in order and within
    the limits of both sides, callers that wait are woken, and no stream of the
    peer is lost. *)

From Stdlib Require Import Sorted.
From S2P Require Import Prelude.
From S2P Require Import Protocol.
From S2P Require Import Frames.
From S2P Require Import StreamsMap.

Module streamLimits.
Import protocol wire streamsMap.

(** * Outgoing streams *)

Section outgoing.
Context `{stream_ops T} (newStream : Z → bool → T).
Abbreviation omap := (outgoingStreamsMap T).

(** The map, the streams opened so far, and the limits reported in
    STREAMS_BLOCKED frames. *)
Abbreviation out_state := (omap * list T * list Z)%type.

Definition got (r : T + stream_err) : list T := match r with inl s => [s] | inr _ => [] end.
Definition got_open (o : open_outcome T) : list T := match o with ODone r => got r | OWait _ => [] end.

(** All interleavings of the calls of any number of goroutines.  A waiting call
    continues when its channel is readable, or when its context is done; unless
    [lossy], the latter only happens to calls that were not woken.  After the
    map was closed no MAX_STREAMS frame is handled. *)
Inductive out_step (lossy : bool) : out_state → out_state → Prop :=
| out_open m o b fec r m' fs : openStreamInternal newStream fec m = (r, m', fs) →
    out_step lossy (m, o, b) (m', o ++ got r, b ++ (sb_StreamLimit <$> fs))
| out_sync m o b ctxErr fec r m' fs : highestInQueue m < 2 ^ 64 - 1 → openStreamSyncInternal newStream ctxErr fec m = (r, m', fs) →
    out_step lossy (m, o, b) (m', o ++ got_open r, b ++ (sb_StreamLimit <$> fs))
| out_resume m o b qp fec c c' r m' : openQueue m !! qp = Some c → ch_recv c = Some c' →
    OpenSync_resume newStream qp fec c' m = Ok (r, m') → out_step lossy (m, o, b) (m', o ++ got_open r, b)
| out_cancel m o b qp c ctxErr e m' : openQueue m !! qp = Some c → lossy = true ∨ c ≠ ch_token →
    OpenSync_cancel qp ctxErr m = (e, m') → out_step lossy (m, o, b) (m', o, b)
| out_max m o b num m' fs : o_closeErr m = None → num ≤ MaxStreamCount → SetMaxStream num m = Ok (m', fs) →
    out_step lossy (m, o, b) (m', o, b ++ (sb_StreamLimit <$> fs))
| out_delete m o b num e m' : out_DeleteStream num m = (e, m') → out_step lossy (m, o, b) (m', o, b)
| out_window m o b limit : out_step lossy (m, o, b) (UpdateSendWindow limit m, o, b)
| out_close m o b err m' : o_closeErr m = None → out_CloseWithError err m = Ok m' → out_step lossy (m, o, b) (m', o, b).

Definition out_run (lossy : bool) (t : StreamType) (x : out_state) : Prop := rtc (out_step lossy) (newOutgoingStreamsMap t, [], []) x.

(** The limit as it is reported: 0 also stands for an unknown limit. *)
Definition limit (m : omap) : Z := Z.max 0 (maxStream m).
Definition later (x y : Z) : Prop := x < y ∨ x = 0 ∧ y = 0.

Record out_ok (lossy : bool) (m : omap) (o : list T) (b : list Z) : Prop := {
  k_next : 1 ≤ nextStream m ≤ limit m + 1;
  k_max : -1 ≤ maxStream m ≤ MaxStreamCount;
  k_opened : ∃ fecs, blen fecs = nextStream m - 1 ∧ o = zip_with newStream (seqZ 1 (nextStream m - 1)) fecs;
  k_streams : ∀ n, is_Some (o_streams m !! n) → 1 ≤ n < nextStream m;
  k_pos : 0 ≤ lowestInQueue m ∧ 0 ≤ highestInQueue m < 2 ^ 64;
  k_queue : ∀ qp c, openQueue m !! qp = Some c → lowestInQueue m ≤ qp < highestInQueue m;
  k_open : o_closeErr m = None → ∀ qp, openQueue m !! qp ≠ Some ch_closed;
  k_first : ∀ qp, openQueue m !! qp = Some ch_token → ∀ qp', is_Some (openQueue m !! qp') → qp ≤ qp';
  k_wake : lossy = false → o_closeErr m = None → openQueue m ≠ ∅ → nextStream m ≤ maxStream m → ∃ qp, openQueue m !! qp = Some ch_token;
  k_blocked : StronglySorted later b ∧ ∀ x, x ∈ b → 0 ≤ x ≤ limit m ∧ (blockedSent m = false → later x (limit m));
}.

(** ** Waking the first waiting call *)

Lemma unblock_loop_spec n qp0 (m : omap) : (∀ qp, is_Some (openQueue m !! qp) → qp0 ≤ qp) → (∀ qp, openQueue m !! qp ≠ Some ch_closed) →
  (∃ qp, is_Some (openQueue m !! qp) ∧ qp < qp0 + Z.of_nat n) →
  ∃ qp, is_Some (openQueue m !! qp) ∧ (∀ qp', is_Some (openQueue m !! qp') → qp ≤ qp') ∧
    unblock_loop n qp0 m = Ok (set_queue (<[qp := ch_token]> (openQueue m)) (lowestInQueue m) (highestInQueue m) m).
Proof.
  revert qp0. induction n as [|n IH]; intros qp0 Hlo Hcl (q & Hq & Hlt).
  { specialize (Hlo q Hq). lia. }
  cbn [unblock_loop]. destruct (openQueue m !! qp0) as [c|] eqn:E.
  - exists qp0. split_and!; [done|done|]. destruct c; [done|done|]. by destruct (Hcl qp0).
  - apply IH; [|done|exists q; split; [done|lia]]. intros qp Hqp. specialize (Hlo qp Hqp).
    destruct (decide (qp = qp0)) as [->|]; [rewrite E in Hqp; by destruct Hqp|lia].
Qed.

Lemma size_zero_iff {A} (q : gmap Z A) : (size q =? 0)%nat = bool_decide (q = ∅).
Proof.
  destruct (Nat.eqb_spec (size q) 0) as [E|E]; rewrite map_size_empty_iff in E; [by rewrite bool_decide_eq_true_2|by rewrite bool_decide_eq_false_2].
Qed.

Lemma unblock_spec (m : omap) : (∀ qp c, openQueue m !! qp = Some c → lowestInQueue m ≤ qp < highestInQueue m) →
  (∀ qp, openQueue m !! qp ≠ Some ch_closed) →
  ∃ q, unblockOpenSync m = Ok (set_queue q (lowestInQueue m) (highestInQueue m) m) ∧
    (openQueue m = ∅ ∧ q = ∅ ∨ ∃ qp, is_Some (openQueue m !! qp) ∧ (∀ qp', is_Some (openQueue m !! qp') → qp ≤ qp') ∧
      q = <[qp := ch_token]> (openQueue m)).
Proof.
  intros Hq Hcl. unfold unblockOpenSync. rewrite size_zero_iff. case_bool_decide as E.
  - exists ∅. split; [|by left]. destruct m. simpl in *. by rewrite E.
  - destruct (map_choose _ E) as (q & c & Hqc). pose proof (Hq _ _ Hqc).
    destruct (unblock_loop_spec (Z.to_nat (highestInQueue m - lowestInQueue m + 1)) (lowestInQueue m) m) as (qp & Hs & Hmin & ->).
    + intros qp [c' Hc']. by destruct (Hq _ _ Hc').
    + done.
    + exists q. split; [by eexists|lia].
    + eexists. split; [done|]. right. exists qp. done.
Qed.

(** ** The invariant holds *)

Lemma out_start lossy t : out_ok lossy (newOutgoingStreamsMap t) [] [].
Proof.
  split; simpl; try done; try (intros; by simplify_map_eq).
  - by exists [].
  - split; [constructor|]. intros x Hx. by apply elem_of_nil in Hx.
Qed.

(** Opening a stream within the limit, with the queue as it is. *)
Lemma open_ok lossy m o b fec : out_ok lossy m o b → nextStream m ≤ maxStream m →
  let '(s, m') := openStream newStream fec m in
  s = newStream (nextStream m) fec ∧ openQueue m' = openQueue m ∧ o_closeErr m' = o_closeErr m ∧ lowestInQueue m' = lowestInQueue m ∧
  highestInQueue m' = highestInQueue m ∧ out_ok lossy m' (o ++ [s]) b.
Proof.
  intros Hk Hle. destruct Hk. unfold openStream. split_and!; try done. unfold limit, MaxStreamCount in *.
  assert (i64 (nextStream m + 1) = nextStream m + 1) as Hi by (apply i64_small; lia).
  split; simpl; unfold limit; simpl; rewrite ?Hi; try done; try lia.
  - destruct k_opened0 as (fecs & Hl & ->). exists (fecs ++ [fec]). rewrite blen_app, blen_one. split; [lia|].
    replace (nextStream m + 1 - 1) with (nextStream m - 1 + 1) by lia. rewrite seqZ_app by lia.
    rewrite zip_with_app by (rewrite length_seqZ; unfold blen in Hl; lia). do 2 f_equal.
    replace (1 + (nextStream m - 1)) with (nextStream m) by lia. done.
  - intros n Hn. destruct (decide (n = nextStream m)) as [->|]; [lia|]. rewrite lookup_insert_ne in Hn by done. specialize (k_streams0 n Hn). lia.
  - intros ? ? ? ?. apply k_wake0; done || lia.
Qed.

Lemma blocked_ok lossy m o b : out_ok lossy m o b →
  let '(m', fs) := maybeSendBlockedFrame m in out_ok lossy m' o (b ++ (sb_StreamLimit <$> fs)) ∧ o_closeErr m' = o_closeErr m.
Proof.
  intros Hk. unfold maybeSendBlockedFrame. destruct (blockedSent m) eqn:E; [by rewrite app_nil_r|]. split; [|done]. destruct Hk.
  split; simpl; try done. destruct k_blocked0 as [Hs Hb].
  assert ((if maxStream m =? InvalidStreamNum then 0 else maxStream m) = limit m) as ->.
  { unfold limit, InvalidStreamNum. destruct (Z.eqb_spec (maxStream m) (-1)); lia. }
  split.
  - clear -Hs Hb E. induction b as [|x b IH]; [repeat constructor|]. inversion Hs; subst. simpl. constructor.
    + apply IH; [done|]. intros y Hy. apply Hb. by right.
    + apply Forall_app. split; [done|]. constructor; [|done]. apply Hb; [left|done].
  - intros x [Hx|Hx%list_elem_of_singleton]%elem_of_app; [by split; [apply Hb|]|]. subst x. unfold limit in *. simpl. split; [lia|done].
Qed.

(** The queue changed, the rest of the map did not. *)
Lemma queue_ok lossy m o b q lo hi : out_ok lossy m o b → 0 ≤ lo → 0 ≤ hi < 2 ^ 64 → (∀ qp c, q !! qp = Some c → lo ≤ qp < hi) →
  (o_closeErr m = None → ∀ qp, q !! qp ≠ Some ch_closed) →
  (∀ qp, q !! qp = Some ch_token → ∀ qp', is_Some (q !! qp') → qp ≤ qp') →
  (lossy = false → o_closeErr m = None → q ≠ ∅ → nextStream m ≤ maxStream m → ∃ qp, q !! qp = Some ch_token) →
  out_ok lossy (set_queue q lo hi m) o b.
Proof. intros [] ? ? ? ? ? ?. by split. Qed.

(** The same, when a call is woken. *)
Lemma unblock_ok lossy m o b : out_ok lossy m o b → o_closeErr m = None →
  ∃ m', unblockOpenSync m = Ok m' ∧ out_ok lossy m' o b ∧ (openQueue m' ≠ ∅ → ∃ qp, openQueue m' !! qp = Some ch_token).
Proof.
  intros Hk Hc. destruct (unblock_spec m (k_queue _ _ _ _ Hk) (k_open _ _ _ _ Hk Hc)) as (q & -> & Hq). eexists. split; [done|].
  destruct Hq as [[E ->]|(qp & [c Hqp] & Hmin & ->)].
  - split; [|done]. pose proof Hk as []. apply queue_ok; try done; try lia; intros; by simplify_map_eq.
  - split; [|intros _; exists qp; apply lookup_insert_eq]. pose proof Hk as []. apply queue_ok; try done; try lia.
    + intros qp' c' [[<- <-]|[? ?]]%lookup_insert_Some; eauto.
    + intros _ qp' [[<- ?]|[? ?]]%lookup_insert_Some; [done|]. by apply (k_open0 Hc qp').
    + intros qp' [[<- _]|[Hne Ht]]%lookup_insert_Some qp'' Hs; apply lookup_insert_is_Some' in Hs as [<-|Hs]; eauto; try lia.
    + intros _ _ _ _. exists qp. apply lookup_insert_eq.
Qed.

Lemma out_weaken lossy m o b : out_ok lossy m o b → out_ok true m o b.
Proof. intros []. by split. Qed.

Lemma out_strengthen lossy m o b : out_ok true m o b → (openQueue m ≠ ∅ → ∃ qp, openQueue m !! qp = Some ch_token) → out_ok lossy m o b.
Proof. intros [] ?. by split; auto. Qed.

Lemma resume_ok lossy m o b qp fec c c' : out_ok lossy m o b → openQueue m !! qp = Some c → ch_recv c = Some c' →
  ∃ r m', OpenSync_resume newStream qp fec c' m = Ok (r, m') ∧ out_ok lossy m' (o ++ got_open r) b.
Proof.
  intros Hk Hqp Hc. unfold OpenSync_resume. pose proof Hk as []. destruct (o_closeErr m) as [e|] eqn:Hcl; simpl; rewrite Hcl.
  { eexists _, _. split; [done|]. rewrite app_nil_r. apply queue_ok; try done; try lia; try (rewrite Hcl; done).
    - intros qp' c2 [[<- _]|[_ ?]]%lookup_insert_Some; eauto.
    - intros qp' [[<- ->]|[_ Ht]]%lookup_insert_Some qp'' Hs; [by destruct c|]. apply lookup_insert_is_Some' in Hs as [<-|?]; eauto. }
  assert (c = ch_token) as -> by (destruct c; [done|done|by destruct (k_open0 eq_refl qp)]). injection Hc as <-.
  set (m1 := set_queue (<[qp:=ch_empty]> (openQueue m)) (lowestInQueue m) (highestInQueue m) m).
  assert (Hm1 : out_ok true m1 o b).
  { apply queue_ok; try done; try lia; [by apply (out_weaken lossy)| | |].
    - intros qp' c2 [[<- _]|[_ ?]]%lookup_insert_Some; eauto.
    - intros _ qp' [[_ ?]|[_ ?]]%lookup_insert_Some; [done|]. by apply (k_open0 eq_refl qp').
    - intros qp' [[_ ?]|[_ Ht]]%lookup_insert_Some qp'' Hs; [done|]. apply lookup_insert_is_Some' in Hs as [<-|?]; eauto. }
  change (maxStream m) with (maxStream m1). change (nextStream m) with (nextStream m1).
  destruct (Z.ltb_spec (maxStream m1) (nextStream m1)) as [Hlt|Hle].
  { eexists _, _. split; [done|]. rewrite app_nil_r. destruct Hm1. split; try done. intros _ _ _ ?. lia. }
  pose proof (open_ok true m1 o b fec Hm1 Hle) as Ho. unfold openStream in Ho |- *. cbv beta iota zeta in Ho |- *.
  destruct Ho as (_ & Hq2 & Hcl2 & Hlo2 & Hhi2 & Hm2). set (m2 := set_open _ _ _) in *. pose proof (k_queue0 _ _ Hqp) as Hqb.
  assert (Hu : u64 (qp + 1) = qp + 1) by (apply u64_small; lia).
  set (m3 := set_queue (delete qp (openQueue m2)) (u64 (qp + 1)) (highestInQueue m2) m2).
  assert (Hm3 : out_ok true m3 (o ++ [newStream (nextStream m1) fec]) b).
  { assert (Hold : ∀ q' c2, delete qp (openQueue m2) !! q' = Some c2 → q' ≠ qp ∧ openQueue m !! q' = Some c2).
    { intros q' c2 [Hne Hl]%lookup_delete_Some. rewrite Hq2 in Hl. simpl in Hl. by rewrite lookup_insert_ne in Hl. }
    apply queue_ok; try done; try lia; [rewrite Hhi2; simpl; lia| | |].
    - intros q' c2 [Hne Hl]%Hold. rewrite Hu. pose proof (k_first0 _ Hqp q' (mk_is_Some _ _ Hl)). pose proof (k_queue0 _ _ Hl).
      simpl. split; lia.
    - intros _ q' [_ Hl]%Hold. by apply (k_open0 eq_refl q').
    - intros q' [Hne Hl]%Hold. pose proof (k_first0 _ Hl qp (mk_is_Some _ _ Hqp)). pose proof (k_first0 _ Hqp q' (mk_is_Some _ _ Hl)). lia. }
  destruct (unblock_ok true m3 _ b Hm3) as (m4 & E4 & Hm4 & Hw4); [done|]. change (set_queue (delete qp (<[qp:=ch_empty]> (openQueue m))) (u64 (qp + 1)) (highestInQueue m) m2) with m3. rewrite E4, res_bind_ok.
  eexists _, _. split; [done|]. by apply out_strengthen.
Qed.

Lemma sync_ok lossy m o b ctxErr fec : out_ok lossy m o b → highestInQueue m < 2 ^ 64 - 1 →
  let '(r, m', fs) := openStreamSyncInternal newStream ctxErr fec m in out_ok lossy m' (o ++ got_open r) (b ++ (sb_StreamLimit <$> fs)).
Proof.
  intros Hk Hh. unfold openStreamSyncInternal. destruct (o_closeErr m) eqn:Hcl; [by rewrite !app_nil_r|].
  destruct ctxErr; [by rewrite !app_nil_r|]. rewrite size_zero_iff. case_bool_decide as He; cbn [andb].
  - destruct (Z.leb_spec (nextStream m) (maxStream m)) as [Hle|Hgt].
    { pose proof (open_ok lossy m o b fec Hk Hle) as Ho. destruct (openStream newStream fec m) as [s m'].
      rewrite app_nil_r. simpl. by destruct Ho as (_ & _ & _ & _ & _ & ?). }
    pose proof Hk as []. rewrite He. set (m1 := set_queue _ _ _ _).
    assert (Hm1 : out_ok lossy m1 o b).
    { unfold m1. rewrite u64_small by lia. apply queue_ok; try done; try lia.
      - intros qp c [<- <-]%lookup_singleton_Some. lia.
      - intros _ qp Hq. by apply lookup_singleton_Some in Hq as [_ ?].
      - intros qp Hq. by apply lookup_singleton_Some in Hq as [_ ?]. }
    pose proof (blocked_ok lossy m1 o b Hm1) as Hb. destruct (maybeSendBlockedFrame m1) as [m' fs]. rewrite app_nil_r. apply Hb.
  - pose proof Hk as []. set (m1 := set_queue _ _ _ _).
    assert (Hm1 : out_ok lossy m1 o b).
    { unfold m1. rewrite u64_small by lia. apply queue_ok; try done; try lia.
      - intros qp c [[<- <-]|[_ Hq]]%lookup_insert_Some; [|specialize (k_queue0 _ _ Hq); lia].
        destruct (map_choose _ He) as (q & c & Hq). specialize (k_queue0 _ _ Hq). lia.
      - intros _ qp [[_ ?]|[_ Hq]]%lookup_insert_Some; [done|]. by apply (k_open0 Hcl qp).
      - intros qp [[_ ?]|[_ Hq]]%lookup_insert_Some qp' Hs; [done|]. apply lookup_insert_is_Some' in Hs as [<-|?]; [|eauto].
        specialize (k_queue0 _ _ Hq). lia.
      - intros Hl _ _ Hle. destruct (k_wake0 Hl Hcl He Hle) as [qp Hqp]. exists qp. rewrite lookup_insert_ne; [done|].
        specialize (k_queue0 _ _ Hqp). lia. }
    pose proof (blocked_ok lossy m1 o b Hm1) as Hb. destruct (maybeSendBlockedFrame m1) as [m' fs]. rewrite app_nil_r. apply Hb.
Qed.

Lemma max_ok lossy m o b num : out_ok lossy m o b → o_closeErr m = None → num ≤ MaxStreamCount →
  ∃ m' fs, SetMaxStream num m = Ok (m', fs) ∧ out_ok lossy m' o (b ++ (sb_StreamLimit <$> fs)).
Proof.
  intros Hk Hcl Hn. unfold SetMaxStream. destruct (Z.leb_spec num (maxStream m)) as [|Hgt].
  { eexists _, _. split; [done|]. by rewrite app_nil_r. }
  set (m1 := set_limit num false m). cbv zeta.
  assert (Hm1 : out_ok true m1 o b).
  { destruct Hk. unfold limit in *. split; try done; unfold limit; simpl; try lia. destruct k_blocked0 as [? Hb]. split; [done|].
    intros x Hx. destruct (Hb x Hx) as [? _]. split; [lia|]. intros _. unfold later. lia. }
  assert (Hb : ∃ m2 fs, (if maxStream m1 <? nextStream m1 - 1 + Z.of_nat (size (openQueue m1)) then maybeSendBlockedFrame m1 else (m1, [])) = (m2, fs) ∧
    out_ok true m2 o (b ++ (sb_StreamLimit <$> fs)) ∧ o_closeErr m2 = None).
  { destruct (_ <? _); [|eexists _, _; split; [done|]; by rewrite app_nil_r].
    pose proof (blocked_ok true m1 o b Hm1) as Hb. destruct (maybeSendBlockedFrame m1) as [m2 fs]. eexists _, _. split; [done|].
    destruct Hb as [? ->]. done. }
  destruct Hb as (m2 & fs & -> & Hm2 & Hc2). destruct (unblock_ok true m2 _ _ Hm2 Hc2) as (m3 & -> & Hm3 & Hw).
  rewrite res_bind_ok. eexists _, _. split; [done|]. by apply out_strengthen.
Qed.

Lemma cancel_waiter_ok lossy m o b qp c ctxErr : out_ok lossy m o b → openQueue m !! qp = Some c → lossy = true ∨ c ≠ ch_token →
  out_ok lossy (OpenSync_cancel qp ctxErr m).2 o b.
Proof.
  intros Hk Hqp Hl. pose proof Hk as []. simpl. apply queue_ok; try done; try lia.
  - intros q c' [_ ?]%lookup_delete_Some. eauto.
  - intros Hc q [_ ?]%lookup_delete_Some. by apply (k_open0 Hc q).
  - intros q [_ Hq]%lookup_delete_Some q' [c' [_ Hq']%lookup_delete_Some]. eauto.
  - intros -> Hc Hne Hle. destruct k_wake0 as [q Hq]; try done; [intros E; rewrite E in Hqp; by rewrite lookup_empty in Hqp|].
    exists q. rewrite lookup_delete_ne; [done|]. intros ->. destruct Hl; [done|]. congruence.
Qed.

Lemma out_close_ok lossy m o b err : out_ok lossy m o b → o_closeErr m = None →
  ∃ m', out_CloseWithError err m = Ok m' ∧ out_ok lossy m' o b.
Proof.
  intros Hk Hc. unfold out_CloseWithError. pose proof Hk as [].
  rewrite bool_decide_eq_true_2 by (intros qp c Hq ->; by apply (k_open0 Hc qp)). eexists. split; [done|].
  split; simpl; try done.
  - intros n Hn. apply k_streams0. by rewrite lookup_fmap, fmap_is_Some in Hn.
  - intros qp c Hq. rewrite lookup_fmap, fmap_Some in Hq. destruct Hq as (c' & Hq & _). eauto.
  - intros qp Hq. rewrite lookup_fmap, fmap_Some in Hq. by destruct Hq as (? & _ & ?).
Qed.

Definition out_good (lossy : bool) (x : out_state) : Prop := out_ok lossy x.1.1 x.1.2 x.2.

Lemma out_step_good lossy x y : out_good lossy x → out_step lossy x y → out_good lossy y.
Proof.
  unfold out_good. intros Hk Hxy. destruct Hxy as
    [m o b fec r m' fs He|m o b ctxErr fec r m' fs Hh He|m o b qp fec c c' r m' Hq Hc He|m o b qp c ctxErr e m' Hq Hl He|m o b num m' fs Hc Hn He
    |m o b num e m' He|m o b limit|m o b err m' Hc He]; cbn [fst snd] in *.
  - unfold openStreamInternal in He. destruct (o_closeErr m); [simplify_eq/=; by rewrite !app_nil_r|]. destruct (_ || _) eqn:E.
    + pose proof (blocked_ok lossy m o b Hk) as Hb. destruct (maybeSendBlockedFrame m) as [m1 fs1]. simplify_eq/=. rewrite app_nil_r. apply Hb.
    + apply orb_false_iff in E as [_ E%Z.ltb_ge]. pose proof (open_ok lossy m o b fec Hk E) as Ho.
      destruct (openStream newStream fec m) as [s m1]. simplify_eq/=. rewrite app_nil_r. by destruct Ho as (_ & _ & _ & _ & _ & ?).
  - pose proof (sync_ok lossy m o b ctxErr fec Hk Hh) as Hs. by rewrite He in Hs.
  - destruct (resume_ok lossy m o b qp fec c c' Hk Hq Hc) as (r2 & m2 & He2 & ?). rewrite He in He2. by simplify_eq.
  - pose proof (cancel_waiter_ok lossy m o b qp c ctxErr Hk Hq Hl) as Hx. by rewrite He in Hx.
  - destruct (max_ok lossy m o b num Hk Hc Hn) as (m2 & fs2 & He2 & ?). rewrite He in He2. by simplify_eq.
  - unfold out_DeleteStream in He. destruct (o_streams m !! num); simplify_eq; [|done]. destruct Hk. split; try done.
    simpl. intros n [s [_ Hn]%lookup_delete_Some]. eauto.
  - destruct Hk. split; try done. simpl. intros n Hn. apply k_streams0. by rewrite lookup_fmap, fmap_is_Some in Hn.
  - destruct (out_close_ok lossy m o b err Hk Hc) as (m2 & He2 & ?). rewrite He in He2. by simplify_eq.
Qed.

Lemma out_run_good lossy t x : out_run lossy t x → out_good lossy x.
Proof. revert x. apply rtc_ind_r; [apply out_start|]. intros y z _ Hyz Hy. by eapply out_step_good. Qed.

(** C23: streams are opened within the peer's limit, in order, and no caller is
    forgotten.  For all interleavings of calls that open streams, wait, are
    cancelled, and of limits announced by the peer: the streams handed out so
    far are the streams number 1, 2, 3, ..., each once, and none lies above the
    limit; open streams were handed out; no limit other than 0 is reported twice
    in STREAMS_BLOCKED frames (0 may be reported repeatedly).  While the map is not closed no operation
    panics, only the call that has waited longest is ever woken, and it has
    been woken if a stream can be opened, unless a call was cancelled after it
    was woken. *)
Theorem streams_opened_in_order (lossy : bool) (t : StreamType) (m : outgoingStreamsMap T) (o : list T) (b : list Z) :
  out_run lossy t (m, o, b) →
  (∃ fecs, blen fecs = nextStream m - 1 ∧ o = zip_with newStream (seqZ 1 (nextStream m - 1)) fecs) ∧
  nextStream m - 1 ≤ Z.max 0 (maxStream m) ∧
  (∀ n, is_Some (o_streams m !! n) → 1 ≤ n < nextStream m) ∧
  StronglySorted (λ x y, x < y ∨ x = 0 ∧ y = 0) b ∧
  (o_closeErr m = None →
    (∀ num, num ≤ MaxStreamCount → is_ok (SetMaxStream num m) = true) ∧
    (∀ qp, openQueue m !! qp = Some ch_token →
      (∀ qp', is_Some (openQueue m !! qp') → qp ≤ qp') ∧ ∀ fec, is_ok (OpenSync_resume newStream qp fec ch_empty m) = true) ∧
    (lossy = false → openQueue m ≠ ∅ → nextStream m ≤ maxStream m → ∃ qp, openQueue m !! qp = Some ch_token)).
Proof.
  intros Hr%out_run_good. unfold out_good in Hr. simpl in Hr. pose proof Hr as []. unfold limit in k_next0. split_and!; try done; [lia|apply k_blocked0|].
  intros Hc. split_and!.
  - intros num Hn. by destruct (max_ok lossy m o b num Hr Hc Hn) as (m' & fs & -> & _).
  - intros qp Hq. split; [by apply k_first0|]. intros fec.
    by destruct (resume_ok lossy m o b qp fec _ _ Hr Hq eq_refl) as (r & m' & -> & _).
  - auto.
Qed.

End outgoing.

(** * Incoming streams *)

Section incoming.
Context `{stream_ops T} (newStream : Z → T).
Abbreviation imap := (incomingStreamsMap T).

(** The map, the streams accepted, the limits announced in MAX_STREAMS frames,
    and whether a call of [AcceptStream] waits. *)
Abbreviation in_state := (imap * list T * list Z * bool)%type.

Definition taken (r : accept_outcome T) : list T := match r with ADone (inl s) => [s] | _ => [] end.
Definition waits (r : accept_outcome T) : bool := match r with AWait => true | _ => false end.

(** All interleavings of the peer's streams being opened and completed with one
    goroutine that accepts streams. *)
Inductive in_step : in_state → in_state → Prop :=
| in_get m o b w num r m' : 1 ≤ num → i_closeErr m = None → GetOrOpenStream newStream num m = Ok (r, m') → in_step (m, o, b, w) (m', o, b, w)
| in_delete m o b w num e m' fs : in_DeleteStream num m = (e, m', fs) → in_step (m, o, b, w) (m', o, b ++ (ms_MaxStreamNum <$> fs), w)
| in_accept m o b r m' fs : AcceptStream m = (r, m', fs) →
    in_step (m, o, b, false) (m', o ++ taken r, b ++ (ms_MaxStreamNum <$> fs), waits r)
| in_resume m o b c r m' fs : ch_recv (newStreamChan m) = Some c → Accept_resume c m = (r, m', fs) →
    in_step (m, o, b, true) (m', o ++ taken r, b ++ (ms_MaxStreamNum <$> fs), waits r)
| in_cancel m o b : in_step (m, o, b, true) (m, o, b, false)
| in_close m o b w err m' : i_closeErr m = None → in_CloseWithError err m = Ok m' → in_step (m, o, b, w) (m', o, b, w).

Definition in_run (t : StreamType) (n : Z) (x : in_state) : Prop := rtc in_step (newIncomingStreamsMap t n, [], [], false) x.

Record in_ok (n : Z) (m : imap) (o : list T) (b : list Z) (w : bool) : Prop := {
  j_num : maxNumStreams m = n;
  j_next : 1 ≤ nextStreamToAccept m ≤ nextStreamToOpen m ∧ nextStreamToOpen m ≤ i_maxStream m + 1 ∧ i_maxStream m ≤ MaxStreamCount;
  j_dom : ∀ k, is_Some (i_streams m !! k) → 1 ≤ k < nextStreamToOpen m;
  j_all : ∀ k, nextStreamToAccept m ≤ k < nextStreamToOpen m → is_Some (i_streams m !! k);
  j_del : ∀ k e, i_streams m !! k = Some e → shouldDelete e = true → nextStreamToAccept m ≤ k;
  j_size : i_maxStream m + Z.of_nat (size (i_streams m)) ≤ nextStreamToOpen m - 1 + n;
  j_new : i_closeErr m = None → ∀ k e, i_streams m !! k = Some e → e_stream e = newStream k;
  j_taken : o = newStream <$> seqZ 1 (nextStreamToAccept m - 1);
  j_chan : newStreamChan m = ch_closed ↔ i_closeErr m ≠ None;
  j_wait : w = true → newStreamChan m = ch_empty → i_streams m !! nextStreamToAccept m = None;
  j_limits : StronglySorted Z.lt b ∧ (∀ x, x ∈ b → x ≤ i_maxStream m) ∧ n ≤ i_maxStream m;
}.

Lemma in_start t n : 0 ≤ n ≤ MaxStreamCount → in_ok n (newIncomingStreamsMap t n) [] [] false.
Proof.
  intros Hn. unfold MaxStreamCount in *. assert (i64 n = n) as Hi by (apply i64_small; lia).
  split; simpl; unfold MaxStreamCount; rewrite ?Hi; try done; try lia.
  - intros k. rewrite lookup_empty. by intros [].
  - rewrite map_size_empty. lia.
  - split_and!; [constructor| |lia]. intros x Hx. by apply elem_of_nil in Hx.
Qed.

(** The map after [k] streams from [num] on were opened. *)
Lemma open_loop_ok k num (m : imap) : newStreamChan m ≠ ch_closed → (∀ i, num ≤ i → i_streams m !! i = None) →
  ∃ s c, open_loop newStream k num m = Ok (set_chan c (set_entries s m)) ∧ (c = ch_token ∨ k = 0%nat ∧ c = newStreamChan m) ∧
    size s = (size (i_streams m) + k)%nat ∧
    (∀ i, s !! i = if decide (num ≤ i < num + Z.of_nat k) then Some (mkEntry (newStream i) false) else i_streams m !! i).
Proof.
  revert num m. induction k as [|k IH]; intros num m Hc Hf.
  - exists (i_streams m), (newStreamChan m). split_and!; [by destruct m|by right|lia|]. intros i. rewrite decide_False by lia. done.
  - cbn [open_loop]. assert (ch_send (newStreamChan m) = Ok ch_token) as E by (by destruct (newStreamChan m)).
    cbn [newStreamChan set_entries]. rewrite E, res_bind_ok. set (m1 := set_chan _ _).
    destruct (IH (num + 1) m1) as (s & c & -> & Hc' & Hs & Hl); [done| |].
    { intros i Hi. simpl. rewrite lookup_insert_ne by lia. apply Hf. lia. }
    exists s, c. split_and!; [done| | |].
    + left. destruct Hc' as [->|[_ ->]]; done.
    + rewrite Hs. simpl. rewrite map_size_insert_None by (apply Hf; lia). lia.
    + intros i. rewrite Hl. simpl. destruct (decide (i = num)) as [->|].
      * rewrite decide_False, lookup_insert_eq, decide_True by lia. done.
      * rewrite lookup_insert_ne by done. by do 2 case_decide; try lia.
Qed.

Lemma GetOrOpen_ok n m o b w num : in_ok n m o b w → 1 ≤ num → i_closeErr m = None →
  ∃ r m', GetOrOpenStream newStream num m = Ok (r, m') ∧ in_ok n m' o b w ∧
    (i_maxStream m < num → m' = m ∧ ∃ e, r = inr e) ∧ (num ≤ i_maxStream m → num < nextStreamToOpen m' ∧ ∃ s, r = inl s ∧
      (nextStreamToOpen m ≤ num → s = Some (newStream num)) ∧ ∀ x, s = Some x → x = newStream num).
Proof.
  intros Hj Hnum Hcl. pose proof Hj as []. unfold GetOrOpenStream. destruct (Z.ltb_spec (i_maxStream m) num) as [Hgt|Hle].
  { eexists _, _. split_and!; [done|done| |lia]. intros _. split; [done|]. by eexists. }
  destruct (Z.ltb_spec num (nextStreamToOpen m)) as [Hlt|Hge].
  { eexists _, _. split_and!; [done|done|lia|]. intros _. split; [done|]. eexists. split_and!; [done|lia|].
    intros x Hx. destruct (i_streams m !! num) as [e|] eqn:E; [|done]. destruct (shouldDelete e); [done|]. injection Hx as <-. eauto. }
  destruct (open_loop_ok (Z.to_nat (num - nextStreamToOpen m + 1)) (nextStreamToOpen m) m) as (s & c & -> & Hc & Hs & Hl).
  { intros E. by apply j_chan0 in E. }
  { intros i Hi. destruct (i_streams m !! i) eqn:E; [|done]. pose proof (j_dom0 i (mk_is_Some _ _ E)). lia. }
  rewrite res_bind_ok. unfold MaxStreamCount in *. rewrite Z2Nat.id in Hl by lia. rewrite i64_small by lia.
  destruct Hc as [->|[? _]]; [|lia].
  eexists _, _. split_and!; [done| |lia|].
  - split; simpl; unfold MaxStreamCount; try done; try lia.
    + intros k. rewrite Hl. case_decide; [lia|]. intros Hk. specialize (j_dom0 k Hk). lia.
    + intros k Hk. rewrite Hl. case_decide; [done|]. apply j_all0. lia.
    + intros k e. rewrite Hl. case_decide; [by intros [= <-]|]. eauto.
    + intros _ k e. rewrite Hl. case_decide; [by intros [= <-]|]. eauto.
  - intros _. simpl. split; [lia|]. eexists. split; [done|]. rewrite Hl, decide_True by lia. split; [done|]. by intros x [= <-].
Qed.

Lemma delete_ok n m o b w num : 0 ≤ n ≤ MaxStreamCount → in_ok n m o b w →
  let '(e, m', fs) := deleteStream num m in in_ok n m' o (b ++ (ms_MaxStreamNum <$> fs)) w ∧
    (e = None ↔ ∃ x, i_streams m !! num = Some x ∧ shouldDelete x = false) ∧ newStreamChan m' = newStreamChan m ∧
    nextStreamToAccept m' = nextStreamToAccept m.
Proof.
  intros Hn Hj. pose proof Hj as []. unfold deleteStream. destruct (i_streams m !! num) as [x|] eqn:E.
  2:{ rewrite app_nil_r. split_and!; try done. split; [done|]. by intros (? & ? & _). }
  destruct (Z.leb_spec (nextStreamToAccept m) num) as [Hge|Hlt].
  - destruct (shouldDelete x) eqn:Ex; rewrite app_nil_r.
    { split_and!; try done. split; [done|]. intros (? & [= <-] & ?). congruence. }
    split_and!; try done; [|split; [by eexists|done]]. split; simpl; try done.
    + intros k Hk. apply lookup_insert_is_Some' in Hk as [<-|]; [apply j_dom0; by eexists|auto].
    + intros k Hk. apply lookup_insert_is_Some'. auto.
    + intros k e [[<- <-]|[_ ?]]%lookup_insert_Some; [done|eauto].
    + rewrite map_size_insert_Some; [done|by eexists].
    + intros Hc k e [[<- <-]|[_ ?]]%lookup_insert_Some; [exact (j_new0 Hc _ _ E)|eauto].
    + intros Hw Hc. specialize (j_wait0 Hw Hc). rewrite lookup_insert_None. split; [done|]. intros ->. congruence.
  - assert (shouldDelete x = false) as Ex by (destruct (shouldDelete x) eqn:Ed; [specialize (j_del0 _ _ E Ed); lia|done]).
    set (m1 := set_entries (delete num (i_streams m)) m). assert (size (delete num (i_streams m)) = Nat.pred (size (i_streams m))) as Hsz by (apply map_size_delete_Some; by eexists).
    assert (0 < size (i_streams m))%nat.
    { destruct (size (i_streams m)) eqn:Es; [|lia]. apply map_size_empty_iff in Es. rewrite Es, lookup_empty in E. done. }
    assert (Hm1 : ∀ l fs, i_maxStream m ≤ l → l ≤ MaxStreamCount → l + Z.of_nat (size (i_streams m1)) ≤ nextStreamToOpen m - 1 + n →
        (fs = [] ∨ fs = [mkMaxStreamsFrame (i_streamType m) l] ∧ i_maxStream m < l) →
        in_ok n (set_max l m1) o (b ++ (ms_MaxStreamNum <$> fs)) w).
    { intros l fs Hl1 Hl2 Hl3 Hfs. split; simpl; try done; try lia.
      - intros k [e [_ Hk]%lookup_delete_Some]. eauto.
      - intros k Hk. rewrite lookup_delete_ne by lia. auto.
      - intros k e [_ Hk]%lookup_delete_Some. eauto.
      - intros Hc k e [_ Hk]%lookup_delete_Some. eauto.
      - intros Hw Hc. rewrite lookup_delete_ne by lia. auto.
      - destruct j_limits0 as (Hs & Hb & Hi). destruct Hfs as [->|[-> Hlt2]]; simpl; rewrite ?app_nil_r.
        { split_and!; [done| |lia]. intros y Hy. specialize (Hb y Hy). lia. }
        split_and!; [| |lia].
        + clear -Hs Hb Hlt2. induction Hs as [|y b Hs IH Hy]; [repeat constructor|]. simpl. constructor.
          * apply IH. intros z Hz. apply Hb. by right.
          * apply Forall_app. split; [done|]. constructor; [|done]. specialize (Hb y (list_elem_of_here _ _)). lia.
        + intros y [Hy|Hy%list_elem_of_singleton]%elem_of_app; [specialize (Hb y Hy)|]; lia. }
    cbv zeta. fold m1. unfold MaxStreamCount in *. change (maxNumStreams m1) with (maxNumStreams m). rewrite j_num0.
    assert (Hs1 : size (i_streams m1) = Nat.pred (size (i_streams m))) by exact Hsz.
    assert (He : (None : option stream_err) = None ↔ ∃ x0, Some x = Some x0 ∧ shouldDelete x0 = false) by (split; [by eexists|done]).
    assert (Hsame : in_ok n m1 o (b ++ (ms_MaxStreamNum <$> [])) w).
    { specialize (Hm1 (i_maxStream m) []). destruct m. apply Hm1; [done|apply j_next0|simpl in *; lia|by left]. }
    destruct (Z.ltb_spec (Z.of_nat (size (i_streams m1))) n) as [Hroom|Hroom]; [|by split_and!].
    rewrite (i64_small (n - _)) by lia. change (nextStreamToOpen m1) with (nextStreamToOpen m).
    rewrite i64_small by lia. destruct (Z.leb_spec (nextStreamToOpen m + (n - Z.of_nat (size (i_streams m1))) - 1) (2 ^ 60)) as [Hcap|Hcap]; [|by split_and!].
    split_and!; try done. apply Hm1; try lia. right. split; [done|lia].
Qed.

(** The next stream is taken: its entry no longer waits to be accepted. *)
Lemma take_ok n m o b w e : in_ok n m o b w → i_closeErr m = None → i_streams m !! nextStreamToAccept m = Some e →
  let num := nextStreamToAccept m in
  in_ok n (set_entries (<[num := mkEntry (e_stream e) false]> (i_streams m)) (set_next (i64 (num + 1)) (nextStreamToOpen m) m))
    (o ++ [e_stream e]) b false.
Proof.
  intros [] Hcl He. cbv zeta. set (num := nextStreamToAccept m) in *. pose proof (j_dom0 num (mk_is_Some _ _ He)) as Hd.
  unfold MaxStreamCount in *. rewrite i64_small by lia. split; simpl; try done; try lia.
  - unfold MaxStreamCount. lia.
  - intros k Hk. apply lookup_insert_is_Some' in Hk as [<-|]; auto.
  - intros k Hk. apply lookup_insert_is_Some'. right. apply j_all0. fold num. lia.
  - intros k x [[<- <-]|[Hne Hk]]%lookup_insert_Some Hx; [done|]. specialize (j_del0 _ _ Hk Hx). fold num in j_del0. lia.
  - rewrite map_size_insert_Some; [done|by eexists].
  - intros _ k x [[<- <-]|[_ Hk]]%lookup_insert_Some; [exact (j_new0 Hcl _ _ He)|eauto].
  - rewrite j_taken0. fold num. replace (num + 1 - 1) with (num - 1 + 1) by lia. rewrite seqZ_app by lia. rewrite fmap_app.
    rewrite (j_new0 Hcl _ _ He). do 2 f_equal. by replace (1 + (num - 1)) with num by lia.
Qed.

(** A stream that was completed before it was accepted is deleted now. *)
Lemma delete_taken num e b' (m : imap) : i_streams m !! num = Some e → num < nextStreamToAccept m →
  deleteStream num m = deleteStream num (set_entries (<[num := mkEntry (e_stream e) b']> (i_streams m)) m).
Proof.
  intros He Hlt. unfold deleteStream. simpl. rewrite He, lookup_insert_eq. destruct (Z.leb_spec (nextStreamToAccept m) num); [lia|].
  by rewrite delete_insert_eq.
Qed.

Lemma accept_round_ok n m o b w c : 0 ≤ n ≤ MaxStreamCount → in_ok n m o b w → default (newStreamChan m) (ch_recv (newStreamChan m)) = c →
  let '(r, m', fs) := accept_round (set_chan c m) in in_ok n m' (o ++ taken r) (b ++ (ms_MaxStreamNum <$> fs)) (waits r) ∧
  match i_closeErr m with
  | Some e => r = ADone (inr e)
  | None => r = if bool_decide (nextStreamToAccept m < nextStreamToOpen m) then ADone (inl (newStream (nextStreamToAccept m))) else AWait
  end.
Proof.
  intros Hn Hj Hc. assert (Hcc : c = ch_closed ↔ newStreamChan m = ch_closed) by (rewrite <- Hc; by destruct (newStreamChan m)).
  assert (Hm1 : in_ok n (set_chan c m) o b false) by (destruct Hj; split; try done; simpl; by rewrite Hcc).
  clear Hcc. set (m1 := set_chan c m) in *. change (i_closeErr m) with (i_closeErr m1). change (nextStreamToAccept m) with (nextStreamToAccept m1).
  change (nextStreamToOpen m) with (nextStreamToOpen m1). unfold accept_round. destruct (i_closeErr m1) as [e|] eqn:Hcl; [by rewrite !app_nil_r|].
  pose proof Hm1 as []. destruct (i_streams m1 !! nextStreamToAccept m1) as [e|] eqn:He.
  - pose proof (take_ok n m1 o b false e Hm1 Hcl He) as Ht. cbv zeta in Ht |- *. set (num := nextStreamToAccept m1) in *.
    pose proof (j_dom0 num (mk_is_Some _ _ He)) as Hd. rewrite bool_decide_eq_true_2 by lia. pose proof (j_new0 Hcl _ _ He) as Hnew.
    set (m2 := set_next (i64 (num + 1)) (nextStreamToOpen m1) m1) in *. destruct (shouldDelete e) eqn:Hdel.
    + assert (Hlt : num < nextStreamToAccept m2) by (simpl; unfold MaxStreamCount in *; rewrite i64_small; lia).
      rewrite (delete_taken num e false m2 He Hlt). change (i_streams m2) with (i_streams m1). pose proof (delete_ok n _ _ _ _ num Hn Ht) as Hdk.
      destruct (deleteStream num _) as [[err m'] fs]. destruct Hdk as (Hok & [_ ->] & _).
      * simpl. by rewrite Hnew in *.
      * exists (mkEntry (e_stream e) false). simpl. by rewrite lookup_insert_eq.
    + rewrite insert_id in Ht by (destruct e; simpl in *; by subst). rewrite app_nil_r. simpl. rewrite Hnew in *. split; [|done].
      by destruct m1.
  - rewrite !app_nil_r. rewrite bool_decide_eq_false_2.
    + split; [|done]. by split.
    + intros Hlt. destruct (j_all0 (nextStreamToAccept m1)) as [? E]; [lia|]. congruence.
Qed.

Definition in_good (n : Z) (x : in_state) : Prop := in_ok n x.1.1.1 x.1.1.2 x.1.2 x.2.

Lemma in_step_good n x y : 0 ≤ n ≤ MaxStreamCount → in_good n x → in_step x y → in_good n y.
Proof.
  unfold in_good. intros Hn Hj Hxy. destruct Hxy as
    [m o b w num r m' Hnum Hc He|m o b w num e m' fs He|m o b r m' fs He|m o b c r m' fs Hc He|m o b|m o b w err m' Hc He]; cbn [fst snd] in *.
  - destruct (GetOrOpen_ok n m o b w num Hj Hnum Hc) as (r2 & m2 & He2 & ? & _). rewrite He in He2. by simplify_eq.
  - pose proof (delete_ok n m o b w num Hn Hj) as Hd. unfold in_DeleteStream in He. rewrite He in Hd. apply Hd.
  - pose proof (accept_round_ok n m o b false _ Hn Hj eq_refl) as Hr. unfold AcceptStream in He. rewrite He in Hr. apply Hr.
  - pose proof (accept_round_ok n m o b true c Hn Hj) as Hr. unfold Accept_resume in He. rewrite He, Hc in Hr. by apply Hr.
  - destruct Hj. by split.
  - unfold in_CloseWithError in He. destruct Hj. destruct (newStreamChan m) eqn:E; [| |done]; simplify_eq/=; split; simpl; try done; try (by rewrite map_size_fmap);
      try (intros k; rewrite lookup_fmap, fmap_is_Some; auto; fail).
    all: intros k e; rewrite lookup_fmap, fmap_Some; intros (x & Hx & ->); simpl; eauto.
Qed.

Lemma in_run_good t n x : 0 ≤ n ≤ MaxStreamCount → in_run t n x → in_good n x.
Proof. intros Hn. revert x. apply rtc_ind_r; [by apply in_start|]. intros y z _ Hyz Hy. by eapply in_step_good. Qed.

(** C24: the peer opens at most as many streams as it is allowed, and each of them
    is accepted once, in order.  However the peer's streams are opened and
    completed: never more than [n] streams are open at the same time; the limits
    announced in MAX_STREAMS frames increase; a stream above the limit is refused
    with an error that changes nothing, any other stream number is known
    afterwards; the streams accepted so far are the streams 1, 2, 3, ..., in this
    order; a call of [AcceptStream] returns the next stream if the peer opened
    it, and otherwise waits; and a call that waits has been woken once there is
    a stream for it or the map is closed.  One goroutine accepts streams at a time
    (see [two_acceptors_lose_wakeup]). *)
Theorem peer_streams_accepted (t : StreamType) (n : Z) (m : incomingStreamsMap T) (o : list T) (b : list Z) (w : bool) :
  0 ≤ n ≤ MaxStreamCount → in_run t n (m, o, b, w) →
  Z.of_nat (size (i_streams m)) ≤ n ∧
  (StronglySorted Z.lt b ∧ ∀ x, x ∈ b → x ≤ i_maxStream m) ∧
  (∀ num, 1 ≤ num → i_closeErr m = None → ∃ r m', GetOrOpenStream newStream num m = Ok (r, m') ∧
    (i_maxStream m < num → m' = m ∧ ∃ e, r = inr e) ∧
    (num ≤ i_maxStream m → num < nextStreamToOpen m' ∧ ∃ s, r = inl s ∧
      (nextStreamToOpen m ≤ num → s = Some (newStream num)) ∧ ∀ x, s = Some x → x = newStream num)) ∧
  o = newStream <$> seqZ 1 (nextStreamToAccept m - 1) ∧
  (AcceptStream m).1.1 = match i_closeErr m with
    | Some e => ADone (inr e)
    | None => if bool_decide (nextStreamToAccept m < nextStreamToOpen m) then ADone (inl (newStream (nextStreamToAccept m))) else AWait
    end ∧
  (w = true → nextStreamToAccept m < nextStreamToOpen m ∨ i_closeErr m ≠ None → newStreamChan m ≠ ch_empty).
Proof.
  intros Hn Hr%in_run_good; [|done]. unfold in_good in Hr. simpl in Hr. pose proof Hr as []. split_and!; [lia|apply j_limits0|apply j_limits0| |done| |].
  - intros num Hnum Hc. destruct (GetOrOpen_ok n m o b w num Hr Hnum Hc) as (r & m' & ? & _ & ? & ?). eauto 10.
  - pose proof (accept_round_ok n m o b w _ Hn Hr eq_refl) as Hx. unfold AcceptStream. destruct (accept_round _) as [[r m'] fs].
    destruct Hx as [_ Hx]. simpl. by destruct (i_closeErr m).
  - intros Hw Hor Hc. destruct Hor as [Hlt|Hcl]; [|apply j_chan0 in Hcl; congruence].
    specialize (j_wait0 Hw Hc). destruct (j_all0 (nextStreamToAccept m)) as [? E]; [lia|]. congruence.
Qed.

End incoming.

(** * Examples

    Streams that are their own numbers. *)
#[local] Instance number_stream : stream_ops Z := {| updateSendWindowOf _ s := s; closeForShutdownOf _ s := s |}.
Definition by_number (num : Z) (fec : bool) : Z := num.

Definition ex_wait : outgoingStreamsMap Z := (OpenStreamSync by_number None (newOutgoingStreamsMap StreamTypeUni)).1.2.
Definition ex_wait2 : outgoingStreamsMap Z := (OpenStreamSync by_number None ex_wait).1.2.
Definition ok_or {A} (d : A) (r : res A) : A := match r with Ok x => x | _ => d end.
Definition ex_limit (m : outgoingStreamsMap Z) : outgoingStreamsMap Z := (ok_or (m, []) (SetMaxStream 1 m)).1.
Definition ex_opened : outgoingStreamsMap Z := (ok_or (OWait 0, ex_wait) (OpenSync_resume by_number 0 false ch_empty (ex_limit ex_wait))).2.

Lemma streams_opened_in_order_witness : nextStream ex_opened = 2 ∧ maxStream ex_opened = 1 ∧ [1] = zip_with by_number (seqZ 1 1) [false].
Proof.
  assert (Hr : out_run by_number false StreamTypeUni (ex_opened, [1], [0])).
  { eapply rtc_l; [eapply (out_sync _ _ _ [] [] None false (OWait 0) ex_wait); [done|vm_compute; reflexivity]|].
    eapply rtc_l; [eapply (out_max _ _ _ _ _ 1 (ex_limit ex_wait)); [done|done|vm_compute; reflexivity]|].
    eapply rtc_l; [eapply (out_resume _ _ _ _ _ 0 false ch_token ch_empty (ODone (inl 1)) ex_opened); vm_compute; reflexivity|].
    apply rtc_refl. }
  destruct (streams_opened_in_order by_number false StreamTypeUni ex_opened [1] [0] Hr) as [(fecs & Hl & Ho) _].
  split_and!; [vm_compute; reflexivity..|]. change (nextStream ex_opened) with 2 in *.
  destruct fecs as [|f [|? ?]]; [discriminate Hl| |unfold blen in Hl; simpl in Hl; lia]. exact Ho.
Defined.

(** A call that is cancelled after it was woken does not pass its wake-up on: the
    next call keeps waiting although a stream can be opened. *)
Lemma cancelled_waiter_loses_wakeup : let m := (OpenSync_cancel 0 EOF (ex_limit ex_wait2)).2 in
  out_run by_number true StreamTypeUni (m, [], [0; 1]) ∧ o_closeErr m = None ∧ openQueue m = {[ 1 := ch_empty ]} ∧ nextStream m ≤ maxStream m.
Proof.
  split; [|by vm_compute].
  eapply rtc_l; [eapply (out_sync _ _ _ [] [] None false (OWait 0) ex_wait); [done|vm_compute; reflexivity]|].
  eapply rtc_l; [eapply (out_sync _ _ _ _ _ None false (OWait 1) ex_wait2); [done|vm_compute; reflexivity]|].
  eapply rtc_l; [eapply (out_max _ _ _ _ _ 1 (ex_limit ex_wait2)); [done|done|vm_compute; reflexivity]|].
  eapply rtc_l; [eapply (out_cancel _ _ _ _ _ 0 ch_token EOF); [vm_compute; reflexivity|by left|vm_compute; reflexivity]|].
  vm_compute. apply rtc_refl.
Qed.

Definition ex_in : incomingStreamsMap Z := newIncomingStreamsMap StreamTypeBidi 2.
Definition ex_in_open : incomingStreamsMap Z := (ok_or (inl None, ex_in) (GetOrOpenStream id 2 ex_in)).2.
Definition ex_in_taken : incomingStreamsMap Z := (AcceptStream ex_in_open).1.2.
Definition ex_in_deleted : incomingStreamsMap Z := (in_DeleteStream 1 ex_in_taken).1.2.

(** Streams 1 and 2 are opened, 1 is accepted and completed, the limit is 3. *)
Lemma peer_streams_accepted_witness : (AcceptStream ex_in_deleted).1.1 = ADone (inl 2) ∧ i_maxStream ex_in_deleted = 3.
Proof.
  assert (Hr : in_run id StreamTypeBidi 2 (ex_in_deleted, [1], [3], false)).
  { eapply rtc_l; [eapply (in_get _ _ [] [] false 2 (inl (Some 2)) ex_in_open); [done|done|vm_compute; reflexivity]|].
    eapply rtc_l; [eapply (in_accept _ _ [] [] (ADone (inl 1)) ex_in_taken []); vm_compute; reflexivity|].
    eapply rtc_l; [eapply (in_delete _ _ [1] [] false 1 None ex_in_deleted [mkMaxStreamsFrame StreamTypeBidi 3]); vm_compute; reflexivity|].
    apply rtc_refl. }
  destruct (peer_streams_accepted id StreamTypeBidi 2 ex_in_deleted [1] [3] false ltac:(done) Hr) as (_ & _ & _ & _ & Ha & _).
  split; [exact Ha|vm_compute; reflexivity].
Defined.

(** With two goroutines in [AcceptStream] a wake-up can be lost: both wait, the
    peer opens two streams, the channel holds one token; the goroutine that
    takes it accepts stream 1, and the other one keeps waiting although stream 2
    can be accepted. *)
Lemma two_acceptors_lose_wakeup : (AcceptStream ex_in).1.1 = AWait ∧ newStreamChan ex_in_open = ch_token ∧
  let '(r, m, _) := Accept_resume ch_empty ex_in_open in
  r = ADone (inl 1) ∧ newStreamChan m = ch_empty ∧ is_Some (i_streams m !! nextStreamToAccept m).
Proof. vm_compute. split_and!; try done. by eexists. Qed.

End streamLimits.
