(* ===== verification/FramerStreams.v ===== *)
(** The framer with the send streams of a connection behind it: the streams meet
    the contract of the framer, and no stream that has something to send is
    forgotten. *)

From S2P Require Import Prelude.
From S2P Require Import Varint.
From S2P Require Import Protocol.
From S2P Require Import Frames.
From S2P Require Import AckFrame.
From S2P Require Import FrameParser.
From S2P Require Import RingBuffer.
From S2P Require Import FlowControl.
From S2P Require Import SendStream.
From S2P Require Import SendCorrect.
From S2P Require Import Framer.

Module framerStreams.
Import protocol wire ack parser flowcontrol sendStream sendCorrect framer.

(** * Streams with something to send *)

(** Retransmissions; or data and a stream-level send window; or a FIN. *)
Definition pending (s : sendStream) : Prop :=
  no_errs s ∧
  (retransmissionQueue s ≠ [] ∨
   (is_Some (dataForWriting s) ∨ is_Some (nextFrame s)) ∧ 0 < sendWindowSize (fc_base (flowController s)) ∨
   (finishedWriting s = true ∧ finSent s = false) ∧ dataForWriting s = None ∧ nextFrame s = None).

Definition delim (s : sendStream) : Prop := Forall (λ f, sf_DataLenPresent f = true) (retransmissionQueue s).

(** What the framer relies on when a frame was popped. *)
Definition pop_quiet (s : sendStream) (r : res (option StreamFrame * bool) * (sendStream * world)) : Prop :=
  ∀ fo more s' w', r = (Ok (fo, more), (s', w')) →
    (∀ x, fo = Some x → sf_DataLenPresent x = true) ∧ delim s' ∧ streamID s' = streamID s ∧ finishedWriting s' = finishedWriting s ∧
    (more = false → ¬ pending s').

Lemma popBlocked_quiet s w : delim s → is_Some (dataForWriting s) ∨ is_Some (nextFrame s) → retransmissionQueue s = [] →
  pop_quiet s (popBlocked (s, w)).
Proof.
  intros Hd Hs Hq fo more s' w' E. unfold popBlocked, IsNewlyBlocked in E. destruct (_ || _) eqn:Hb; simplify_eq/=.
  { done. }
  apply orb_false_iff in Hb as [Hb%negb_false_iff%Z.eqb_eq _]. split_and!; try done. intros _ (_ & [H|[[_ H]|(_ & H1 & H2)]]); simpl in *.
  - done.
  - unfold sendWindowSize in *. simpl in *. lia.
  - destruct Hs as [[? ?]|[? ?]]; congruence.
Qed.

Lemma popSent_quiet s s1 w1 f more : delim s → streamID s1 = streamID s → finishedWriting s1 = finishedWriting s → retransmissionQueue s1 = [] →
  sf_DataLenPresent f = true → (more = false → dataForWriting s1 = None ∧ nextFrame s1 = None) → pop_quiet s (popSent f more (s1, w1)).
Proof.
  intros Hd Hid Hf Hq Hl Hm fo more' s' w' E. unfold popSent in E. destruct (if 0 <? StreamFrame_DataLen f then _ else _) as [s2 w2] eqn:E2.
  assert (Hs2 : streamID s2 = streamID s ∧ finishedWriting s2 = finishedWriting s ∧ retransmissionQueue s2 = [] ∧
    dataForWriting s2 = dataForWriting s1 ∧ nextFrame s2 = nextFrame s1).
  { destruct (0 <? StreamFrame_DataLen f); [destruct (AddBytesSent _ _ _)|]; by simplify_eq/=. }
  destruct Hs2 as (H1 & H2 & H3 & H4 & H5). rewrite H4, H5 in E.
  assert (Hdl : ∀ x : StreamFrame, delim (if finishedWriting s2 && negb (is_set (dataForWriting s1)) && negb (is_set (nextFrame s1)) && negb (finSent s2)
      then set_fin (finishedWriting s2) true (completed s2) s2 else s2)).
  { intros _. unfold delim. destruct (_ && _); simpl; by rewrite H3. }
  simplify_eq. split_and!; [by intros x [= <-]|by apply Hdl|by destruct (_ && _)|by destruct (_ && _)|].
  intros Hm2. destruct (Hm Hm2) as [E1 E3]. rewrite E1, E3. cbn [is_set negb]. rewrite !andb_true_r.
  intros (_ & [H|[[[H|H] _]|([H H'] & _)]]); destruct (finishedWriting s2) eqn:Ef, (finSent s2) eqn:Es; simpl in *;
    rewrite ?H3, ?H4, ?H5, ?E1, ?E3, ?Ef, ?Es in *; try done; try (by destruct H).
Qed.

(** Popping from [nextFrame] or [dataForWriting]. *)
Lemma popNewStreamFrame_quiet m win s w g more s1 w1 : (∀ f, nextFrame s = Some f → sf_DataLenPresent f = true) →
  popNewStreamFrame m win (s, w) = (Ok (Some g, more), (s1, w1)) →
  streamID s1 = streamID s ∧ finishedWriting s1 = finishedWriting s ∧ retransmissionQueue s1 = retransmissionQueue s ∧ sf_DataLenPresent g = true ∧
  (more = false → dataForWriting s1 = None ∧ nextFrame s1 = None).
Proof.
  intros Hnx. unfold popNewStreamFrame, mbind, st_bind, get. destruct (nextFrame s) as [f|] eqn:Hn.
  - unfold st_lift, modify, pool_slice, st_panic, signalWrite, mret, st_ret. destruct (StreamFrame_MaxDataLen f m); [|done..].
    destruct (_ <? _); [destruct (_ || _); [done|]|]; intros E; simplify_eq/=; split_and!; eauto; try done.
    intros E. destruct (dataForWriting s); [done|]. done.
  - unfold popNewStreamFrameWithoutBuffer, mbind, st_bind, st_lift, mret, st_ret. destruct (StreamFrame_MaxDataLen _ m) as [n| |]; [|done..].
    destruct (n =? 0).
    + unfold get. destruct (_ && _); intros E; simplify_eq/=; split_and!; try done. intros E.
      apply orb_false_iff in E as [[E1 E2]%orb_false_iff _]. by destruct (dataForWriting s1), (nextFrame s1).
    + unfold getDataForWriting, mbind, st_bind, get, pool_slice, modify, signalWrite, st_panic, mret, st_ret.
      destruct (_ <=? _).
      all: destruct (_ || _); [done|]; unfold modify; intros E; repeat case_match; simplify_eq/=; split_and!; done.
Qed.

Lemma popNew_quiet m s w h : good s w h → delim s → retransmissionQueue s = [] → pop_quiet s (popNew m (s, w)).
Proof.
  intros Hg Hd Hq fo more s' w'. unfold popNew, mbind, st_bind, get. destruct ((data_len s =? 0) && negb (is_set (nextFrame s))) eqn:He.
  - apply andb_true_iff in He as [Hl%Z.eqb_eq Hn]. assert (nextFrame s = None) as Hn' by (by destruct (nextFrame s)).
    assert (Hd' : dataForWriting s = None).
    { destruct (dataForWriting s) as [d|] eqn:E; [|done]. pose proof (g_data _ _ _ Hg d E). unfold data_len in Hl. rewrite E in Hl. simpl in Hl. unfold id in Hl. lia. }
    destruct (finishedWriting s && negb (finSent s)) eqn:Hf; unfold modify, mret, st_ret; intros E; simplify_eq/=.
    + split_and!; [by intros x [= <-]|done..|]. intros _ (_ & [H|[[[[? H]|[? H]] _]|([_ H] & _)]]); simpl in *; congruence.
    + split_and!; try done. intros _ (_ & [H|[[[[? H]|[? H]] _]|([H1 H2] & _)]]); try congruence. rewrite H1, H2 in Hf. done.
  - destruct (SendWindowSize (flowController s) (w_conn w) =? 0).
    { intros E. refine (popBlocked_quiet s w Hd _ Hq _ _ _ _ E). destruct (nextFrame s); [right; by eexists|left].
      destruct (dataForWriting s) eqn:Ed; [by eexists|]. unfold data_len in He. by rewrite Ed in He. }
    destruct (popNewStreamFrame _ _ _) as [[[[g|] more1]| |] [s1 w1]] eqn:Hp; [|unfold st_panic; done..].
    apply popNewStreamFrame_quiet in Hp as (H1 & H2 & H3 & H4 & H5).
    + rewrite Hq in H3. by apply popSent_quiet.
    + intros f Hf. by apply (g_next _ _ _ Hg f).
Qed.

Lemma split_delim f m new b f' : sf_DataLenPresent f = true → StreamFrame_MaybeSplitOffFrame f m = Ok (new, b, f') →
  sf_DataLenPresent f' = true ∧ ∀ x, new = Some x → sf_DataLenPresent x = true.
Proof.
  intros Hf. unfold StreamFrame_MaybeSplitOffFrame. destruct (StreamFrame_Length f); [|done..]. rewrite res_bind_ok.
  destruct (_ <=? _); [by intros [= <- _ <-]|]. destruct (StreamFrame_MaxDataLen f m); [|done..]. rewrite res_bind_ok.
  destruct (_ =? 0); [by intros [= <- _ <-]|]. destruct (_ || _); [done|]. intros [= <- _ <-]. split; [done|]. by intros x [= <-].
Qed.

Lemma chosen_quiet m s w h : good s w h → delim s → pop_quiet s (popNewOrRetransmittedStreamFrame m (s, w)).
Proof.
  intros Hg Hd fo more s' w'. unfold popNewOrRetransmittedStreamFrame. rewrite (st_bind_ok _ _ _ s (s, w)) by done.
  destruct (is_set (cancelWriteErr s)) eqn:Hc; cbn [orb].
  { unfold mret, st_ret. intros E. simplify_eq/=. split_and!; try done. intros _ [[H _] _]. by rewrite H in Hc. }
  destruct (is_set (closeForShutdownErr s)) eqn:Hs.
  { unfold mret, st_ret. intros E. simplify_eq/=. split_and!; try done. intros _ [[_ H] _]. by rewrite H in Hs. }
  destruct (retransmissionQueue s) as [|f q] eqn:Hq; [by apply (popNew_quiet m s w h)|].
  assert (Hdq : sf_DataLenPresent f = true ∧ Forall (λ f, sf_DataLenPresent f = true) q) by (unfold delim in Hd; rewrite Hq in Hd; by apply Forall_cons in Hd).
  unfold maybeGetRetransmission, mbind, st_bind, st_lift, modify, mret, st_ret.
  destruct (StreamFrame_MaybeSplitOffFrame f m) as [[[new b] f']| |] eqn:Hsp; [|done..].
  destruct (split_delim _ _ _ _ _ (proj1 Hdq) Hsp) as [Hf' Hnew]. destruct b.
  - destruct new as [x|]; intros E; simplify_eq/=; (split_and!; [naive_solver|constructor; [done|apply Hdq]|done..]).
  - intros E. simplify_eq/=. split_and!; [by intros x [= <-]|apply Hdq|done..].
Qed.

Lemma pop_quiet_ok m s w h : good s w h → delim s → pop_quiet s (popStreamFrame m (s, w)).
Proof.
  intros Hg Hd fo more s' w'. unfold popStreamFrame, mbind, st_bind.
  destruct (popNewOrRetransmittedStreamFrame m (s, w)) as [[[f1 more1]| |] [s1 w1]] eqn:E1; [|done..].
  destruct (chosen_quiet m s w h Hg Hd _ _ _ _ E1) as (H1 & H2 & H3 & H4 & H5).
  destruct f1 as [f1|]; unfold mret, st_ret; intros E; simplify_eq/=; [|done].
  split_and!; [intros x [= <-]; exact (H1 _ eq_refl)|done..].
Qed.

(** * The streams of a connection *)

(** The open streams with their histories, and the flow controller they share.
    A stream that was completed is no longer there. *)
Record streams := mkStreams {
  t_streams : gmap Z (sendStream * world * hist);
  t_conn : connectionFlowController;
}.

Definition pop_of (id m : Z) (t : streams) : res (option StreamFrame * bool) * streams :=
  match t_streams t !! id with
  | None => (Panic "invalid memory address or nil pointer dereference", t)
  | Some (s, w, h) =>
      let '(r, (s', w')) := popStreamFrame m (s, set_conn (t_conn t) w) in
      let h' := match r with Ok (Some f, _) => pop_hist f (if writeOffset s' =? writeOffset s then [] else sf_Data f) h | _ => h end in
      (r, mkStreams (<[id := (s', w', h')]> (t_streams t)) (w_conn w'))
  end.

#[export] Instance streams_getter : StreamGetter streams := {
  GetOrOpenSendStream id t := (bool_decide (is_Some (t_streams t !! id)), t);
  popStreamFrameOf := pop_of;
}.

(** One stream, as long as [n] frames may still be popped. *)
Record stream_ok (n : nat) (conn : connectionFlowController) (id : Z) (x : sendStream * world * hist) : Prop := {
  y_id : streamID x.1.1 = id;
  y_good : good x.1.1 (set_conn conn x.1.2) x.2;
  y_delim : delim x.1.1;
  y_room : blen (h_flight x.2) + Z.of_nat n ≤ MaxByteCount;
  y_close : finishedWriting x.1.1 = true → h_blocked x.2 = None;
}.

Definition all_ok (n : nat) (t : streams) : Prop := conn_ok (t_conn t) ∧ map_Forall (stream_ok n (t_conn t)) (t_streams t).

Definition idle (id : Z) (t : streams) : Prop := ∀ s w h, t_streams t !! id = Some (s, w, h) → ¬ pending s.

(** Another flow controller of the connection that is consistent. *)
Lemma stream_ok_conn n k conn conn' id x : stream_ok n conn id x → conn_ok conn' → (k ≤ n)%nat → stream_ok k conn' id x.
Proof. intros [] Hc Hk. split; try done; [|lia]. destruct y_good0. by split. Qed.

Lemma pop_well_formed m s w h x : good s w h → x ∈ h_popped h → (∃ l, StreamFrame_Length x = Ok l ∧ l ≤ m) → sf_DataLenPresent x = true →
  poppable (streamID s) m x.
Proof.
  intros Hg Hx Hl Hd. assert (Hok : frame_ok (streamID s) (h_sent h) (finSent s) x) by (apply (g_frames _ _ _ Hg); by right).
  pose proof (g_off _ _ _ Hg) as Ho. destruct (g_fc _ _ _ Hg) as [_ Hfc]. assert (blen (h_sent h) ≤ MaxByteCount) as Hmax by lia.
  destruct (frame_ok_sendable _ _ _ x (g_id _ _ _ Hg) Hmax Hok) as (H1 & H2 & H3 & H4). destruct Hok. unfold poppable. split_and!; try done.
  split_and!; try done. destruct f_nonempty0 as [Hne|]; [|by right]. left. intros E. rewrite E in Hne. done.
Qed.

Lemma pop_conn m s w h fo more s' w' : popStreamFrame m (s, w) = (Ok (fo, more), (s', w')) → pop_post m s h (Ok (fo, more), (s', w')) → conn_ok (w_conn w').
Proof. intros _ (f2 & more2 & s2 & w2 & E & Hp). simplify_eq. destruct f2; [destruct Hp as [_ Hp]|]; apply (g_conn _ _ _ Hp). Qed.

Lemma streams_pop n id m t : all_ok (S n) t → is_Some (t_streams t !! id) → MinStreamFrameSize ≤ m ≤ MaxPacketBufferSize + 2 →
  ∃ f more t', pop_of id m t = (Ok (f, more), t') ∧ all_ok n t' ∧ (∀ x, f = Some x → poppable id m x) ∧
    (more = false → idle id t') ∧ ∀ i, i ≠ id → idle i t → idle i t'.
Proof.
  intros [Hc Hall] [[[s w] h] Hid] Hm. pose proof (Hall id _ Hid) as Hs. pose proof Hs as []. simpl in *. unfold pop_of. rewrite Hid.
  set (w0 := set_conn (t_conn t) w) in *.
  assert (Hpost : pop_post m s h (popStreamFrame m (s, w0))) by (apply popStreamFrame_ok; [done|done|lia]).
  pose proof (pop_quiet_ok m s w0 h y_good0 y_delim0) as Hquiet. pose proof Hpost as (fo & more & s' & w' & E & Hp).
  rewrite E in Hpost, Hquiet |- *. pose proof (pop_conn _ _ _ _ _ _ _ _ E Hpost) as Hc'.
  destruct (Hquiet _ _ _ _ eq_refl) as (Hdl & Hd' & Hid' & Hfw & Hidle). cbv zeta.
  exists fo, more. eexists. split; [done|]. set (h' := match fo with Some f => _ | None => h end).
  assert (Hh' : good s' w' h' ∧ blen (h_flight h') ≤ blen (h_flight h) + 1 ∧ h_blocked h' = h_blocked h ∧ ∀ x, fo = Some x → x ∈ h_popped h').
  { unfold h'. destruct fo as [f|]; [|split_and!; [done|lia|done|done]]. split_and!; [by destruct Hp|simpl; rewrite blen_cons; lia|done|].
    intros x [= <-]. left. }
  destruct Hh' as (Hg' & Hfl & Hbl & Hpop). split; [|split; [|split]].
  - split; [done|]. simpl. apply map_Forall_insert_2.
    + split; simpl; try done; [congruence| |lia|].
      * destruct Hg'. by split.
      * rewrite Hfw, Hbl. done.
    + intros i x Hx. eapply stream_ok_conn; [by apply Hall|done|lia].
  - intros x Hx. rewrite <- y_id0, <- Hid'. apply (pop_well_formed m s' w' h'); auto. subst fo. apply Hp.
  - intros Hmf s2 w2 h2. simpl. rewrite lookup_insert_eq. intros [= <- <- <-]. auto.
  - intros i Hne Hi s2 w2 h2. simpl. rewrite lookup_insert_ne by done. apply Hi.
Qed.

#[export] Program Instance streams_laws : StreamGetterLaws streams := {
  getter_inv := all_ok;
  getter_has id t := is_Some (t_streams t !! id);
  getter_idle := idle;
}.
Next Obligation.
  intros n id t Ht. simpl. split_and!; [done| |done]. case_bool_decide as Hid; [done|]. intros s w h E. destruct Hid. by eexists.
Qed.
Next Obligation. intros n id m t Ht Hid Hm. by apply streams_pop. Qed.
Next Obligation.
  intros n t [Hc Hall]. split; [done|]. intros i x Hx. eapply stream_ok_conn; [by apply Hall|done|lia].
Qed.

(** * All calls of a stream's methods but [popStreamFrame] *)

(** As in [sendCorrect.step]; [Close] is not called while a [Write] waits. *)
Inductive calls : sendStream * world * hist → sendStream * world * hist → Prop :=
| call_write s w h now p o s' w' : h_blocked h = None → Write now p (s, w) = (Ok o, (s', w')) → calls (s, w, h) (s', w', write_hist p o h)
| call_wake s w h (token : bool) now p o s' w' : h_blocked h = Some p → (if token then writeChan s = true else deadline s ≠ 0) →
    Write_resume token now p (s, w) = (Ok o, (s', w')) → calls (s, w, h) (s', w', write_hist p o h)
| call_acked s w h l1 f l2 b s' w' : h_flight h = l1 ++ f :: l2 → OnAcked (with_len b f) (s, w) = (Ok tt, (s', w')) →
    calls (s, w, h) (s', w', mkHist (l1 ++ l2) (f :: h_acked h) (h_popped h) (h_sent h) (h_accepted h) (h_blocked h))
| call_lost s w h l1 f l2 b s' w' : h_flight h = l1 ++ f :: l2 → OnLost (with_len b f) (s, w) = (Ok tt, (s', w')) →
    calls (s, w, h) (s', w', mkHist (l1 ++ l2) (h_acked h) (h_popped h) (h_sent h) (h_accepted h) (h_blocked h))
| call_cancel s w h code s' w' : CancelWrite code (s, w) = (Ok tt, (s', w')) → calls (s, w, h) (s', w', h)
| call_stop s w h f s' w' : handleStopSendingFrame f (s, w) = (Ok tt, (s', w')) → calls (s, w, h) (s', w', h)
| call_close s w h e s' w' : h_blocked h = None → Close (s, w) = (Ok e, (s', w')) → calls (s, w, h) (s', w', h)
| call_shutdown s w h e s' w' : closeForShutdown e (s, w) = (Ok tt, (s', w')) → calls (s, w, h) (s', w', h)
| call_deadline s w h t s' w' : SetWriteDeadline t (s, w) = (Ok tt, (s', w')) → calls (s, w, h) (s', w', h)
| call_window s w h off s' w' : off ≤ MaxByteCount → updateSendWindow off (s, w) = (Ok tt, (s', w')) → calls (s, w, h) (s', w', h).

Lemma calls_step x y : blen (h_flight x.2) < MaxByteCount → calls x y → sendCorrect.step x y.
Proof. intros Hr Hc. destruct Hc; simpl in Hr;
    [eapply step_write|eapply step_wake|eapply step_acked|eapply step_lost|eapply step_cancel|eapply step_stop|eapply step_close
    |eapply step_shutdown|eapply step_deadline|eapply step_window]; eauto.
Qed.

(** A call keeps the stream's number and the flow controller of the connection,
    and announces data: if there is something to send afterwards but was not
    before, [onHasStreamData] was called. *)
Definition announced (x y : sendStream * world * hist) : Prop :=
  streamID y.1.1 = streamID x.1.1 ∧ w_conn y.1.2 = w_conn x.1.2 ∧ delim y.1.1 ∧
  (finishedWriting y.1.1 = true → h_blocked y.2 = None) ∧ blen (h_flight y.2) ≤ blen (h_flight x.2) ∧
  (w_hasData x.1.2 < w_hasData y.1.2 ∨ w_hasData y.1.2 = w_hasData x.1.2 ∧ (pending y.1.1 → pending x.1.1))%nat.

Lemma write_hist_flight p o h : h_flight (write_hist p o h) = h_flight h.
Proof. by destruct o. Qed.

Lemma write_announced s w h now p o s' w' : good s w h → delim s → (finishedWriting s = true → h_blocked h = None) → h_blocked h = None →
  Write now p (s, w) = (Ok o, (s', w')) → announced (s, w, h) (s', w', write_hist p o h).
Proof.
  intros Hg Hd Hf Hb E. unfold announced. cbn [fst snd]. rewrite write_hist_flight. unfold Write, mbind, st_bind, get in E.
  destruct (finishedWriting s) eqn:Hfw. { unfold mret, st_ret in E. simplify_eq/=. split_and!; try done; auto. }
  destruct (cancelWriteErr s) eqn:Hc. { unfold mret, st_ret in E. simplify_eq/=. rewrite Hfw. split_and!; try done. auto. }
  destruct (closeForShutdownErr s) eqn:Hs. { unfold mret, st_ret in E. simplify_eq/=. rewrite Hfw. split_and!; try done. auto. }
  destruct (_ && _) eqn:Hdl. { unfold mret, st_ret in E. simplify_eq/=. rewrite Hfw. split_and!; try done. auto. }
  destruct (Z.eqb_spec (blen p) 0) as [Hp|Hp]. { unfold mret, st_ret in E. simplify_eq/=. rewrite Hfw. split_and!; try done. auto. }
  unfold modify, write_round, mbind, st_bind, get in E. cbn [dataForWriting set_data default deadline cancelWriteErr closeForShutdownErr nextFrame] in E.
  rewrite Hdl, Hc, Hs in E. clear Hdl. cbn [is_set negb orb] in E. unfold onHasStreamData, modify, mret, st_ret in E.
  destruct (_ && _); simplify_eq/=; rewrite Hfw; split_and!; try done; try (left; lia).
Qed.

Lemma wake_announced s w h token now p o s' w' : good s w h → delim s → (finishedWriting s = true → h_blocked h = None) → h_blocked h = Some p →
  Write_resume token now p (s, w) = (Ok o, (s', w')) → announced (s, w, h) (s', w', write_hist p o h).
Proof.
  intros Hg Hd Hf Hb E. unfold announced. cbn [fst snd]. rewrite write_hist_flight.
  assert (Hfw : finishedWriting s = false) by (destruct (finishedWriting s); [by specialize (Hf eq_refl); congruence|done]).
  unfold Write_resume, write_round, mbind, st_bind, get, modify, mret, st_ret in E. cbv beta iota zeta in E.
  set (s1 := set_chan (writeChan s && negb token) s) in *.
  assert (Hs1 : ∀ d n, (is_Some d ∨ is_Some n → is_Some (dataForWriting s) ∨ is_Some (nextFrame s)) → pending (set_data d n s1) → pending s).
  { intros d n Hdn (He & [Hq|[[Hx Hw]|([Hx _] & _)]]); simpl in *; [split; [done|by left]|split; [done|right; left; auto]|congruence]. }
  assert (Hsame : pending s1 → pending s) by (intros Hp; exact Hp). destruct (canBufferStreamFrame s1 && _) eqn:Hcan.
  - simplify_eq/=. rewrite Hfw. split_and!; try done. right. split; [done|]. apply Hs1. intros _. left.
    apply andb_true_iff in Hcan as [_ Hl%Z.ltb_lt]. simpl in Hl. destruct (dataForWriting s); [by eexists|done].
  - clear Hcan. destruct (negb (deadline s1 =? 0) && _); simplify_eq/=.
    { rewrite Hfw. split_and!; try done. right. split; [done|]. apply Hs1. intros [[? ?]|?]; [done|by right]. }
    destruct (negb (is_set (dataForWriting s)) || _ || _); simplify_eq/=; rewrite Hfw; (split_and!; try done); right; auto.
Qed.

Lemma modify_bind {A} g (k : () → M A) s w : (modify g ≫= k) (s, w) = k tt (g s, w).
Proof. done. Qed.

Lemma cancel_announced code remote s w h s' w' : good s w h → delim s → (finishedWriting s = true → h_blocked h = None) →
  cancelWriteImpl code remote (s, w) = (Ok tt, (s', w')) → announced (s, w, h) (s', w', h).
Proof.
  intros Hg Hd Hf E. unfold announced. cbn [fst snd]. unfold cancelWriteImpl in E. rewrite (st_bind_ok _ _ _ s (s, w)) in E by done.
  destruct (is_set (cancelWriteErr s)) eqn:Hc. { unfold mret, st_ret in E. simplify_eq/=. split_and!; try done. auto. }
  cbv zeta in E. rewrite modify_bind in E.
  destruct (isNewlyCompleted_eq (set_retx 0 [] (ctxCancel (Some (StreamError (streamID s) code remote)) (set_errs (Some (StreamError (streamID s) code remote)) (closeForShutdownErr s) s))) w) as (b & Hb & _).
  rewrite (st_bind_ok _ _ _ _ _ Hb) in E. unfold signalWrite, queueControlFrame, onStreamCompleted, modify, get, mbind, st_bind, mret, st_ret in E.
  destruct b; simplify_eq/=; (split_and!; try done; [by constructor|]); right; (split; [done|]); by intros [[? _] _].
Qed.

Lemma calls_announced x y : good x.1.1 x.1.2 x.2 → delim x.1.1 → (finishedWriting x.1.1 = true → h_blocked x.2 = None) →
  calls x y → announced x y.
Proof.
  intros Hg Hd Hf Hc. destruct Hc as [s w h now p o s' w' Hb E|s w h token now p o s' w' Hb _ E|s w h l1 f l2 b s' w' Hl E|s w h l1 f l2 b s' w' Hl E
    |s w h code s' w' E|s w h f s' w' E|s w h e s' w' Hb E|s w h e s' w' E|s w h t s' w' E|s w h off s' w' Ho E]; cbn [fst snd] in *.
  - by eapply write_announced.
  - by eapply wake_announced.
  - unfold announced. cbn [fst snd h_flight h_blocked]. rewrite Hl. assert (blen (l1 ++ l2) ≤ blen (l1 ++ f :: l2)) by (rewrite !blen_app, blen_cons; lia).
    unfold OnAcked in E. rewrite (st_bind_ok _ _ _ s (s, w)) in E by done.
    destruct (is_set (cancelWriteErr s)). { unfold mret, st_ret in E. simplify_eq/=. split_and!; try done. auto. }
    cbv zeta in E. rewrite modify_bind in E. destruct (_ <? 0); [done|].
    destruct (isNewlyCompleted_eq (set_retx (i64 (numOutstandingFrames s - 1)) (retransmissionQueue s) s) w) as (b' & Hb & _).
    rewrite (st_bind_ok _ _ _ _ _ Hb) in E. unfold onStreamCompleted, mret, st_ret in E.
    destruct b'; simplify_eq/=; (split_and!; try done); right; (split; [done|]); intros Hp; exact Hp.
  - unfold announced. cbn [fst snd h_flight h_blocked]. rewrite Hl. assert (blen (l1 ++ l2) ≤ blen (l1 ++ f :: l2)) by (rewrite !blen_app, blen_cons; lia).
    unfold OnLost in E. rewrite (st_bind_ok _ _ _ s (s, w)) in E by done.
    destruct (is_set (cancelWriteErr s)). { unfold mret, st_ret in E. simplify_eq/=. split_and!; try done. auto. }
    cbv zeta in E. rewrite modify_bind in E. destruct (_ <? 0); [done|].
    unfold onHasStreamData in E. simplify_eq/=. split_and!; try done; [|left; lia]. apply Forall_app. split; [done|]. by constructor.
  - by eapply cancel_announced.
  - by eapply cancel_announced.
  - unfold announced. cbn [fst snd]. unfold Close, mbind, st_bind, get, modify, onHasStreamData, mret, st_ret in E.
    destruct (is_set (closeForShutdownErr s)); [simplify_eq/=; split_and!; try done; auto|].
    destruct (is_set (cancelWriteErr s)); simplify_eq/=; split_and!; try done; auto.
  - unfold announced. cbn [fst snd]. unfold closeForShutdown, signalWrite, mbind, st_bind, modify in E. simplify_eq/=. split_and!; try done.
    right. split; [done|]. by intros [[_ ?] _].
  - unfold announced. cbn [fst snd]. unfold SetWriteDeadline, signalWrite, mbind, st_bind, modify in E. simplify_eq/=. split_and!; try done.
    right. split; [done|]. intros Hp. exact Hp.
  - unfold announced. cbn [fst snd]. unfold updateSendWindow, UpdateSendWindow, onHasStreamData in E.
    destruct (_ <? off); simplify_eq/=.
    2:{ split_and!; try done. right. split; [done|]. intros Hp. exact Hp. }
    destruct (is_set (dataForWriting s) || is_set (nextFrame s)) eqn:Hs; simplify_eq/=; split_and!; try done; [left; lia|].
    right. split; [done|]. apply orb_false_iff in Hs as [Hs1 Hs2].
    intros (He & [Hq|[[[[? Hx]|[? Hx]] _]|Hx]]); simpl in *; [split; [done|by left]|by rewrite Hx in Hs1|by rewrite Hx in Hs2|split; [done|by right; right]].
Qed.

(** * The framer and its streams *)

(** Each stream may have [n] more frames in flight. *)
Definition room (n : nat) (t : streams) : Prop := map_Forall (λ _ x, blen (h_flight x.2) + Z.of_nat n ≤ MaxByteCount) (t_streams t).

(** All interleavings: calls of the streams' methods, whose [onHasStreamData]
    adds the stream to the active ones; other users of the connection's flow
    controller; streams that are opened, and removed once completed; and packets
    filled with STREAM frames. *)
Inductive sys_step : framerI * streams → framerI * streams → Prop :=
| sys_call f t id s w h s' w' h' f' : t_streams t !! id = Some (s, w, h) → room 1 t → calls (s, set_conn (t_conn t) w, h) (s', w', h') →
    (if (w_hasData w <? w_hasData w')%nat then AddActiveStream id f else Ok f) = Ok f' →
    sys_step (f, t) (f', mkStreams (<[id := (s', w', h')]> (t_streams t)) (w_conn w'))
| sys_conn f t conn : conn_ok conn → sys_step (f, t) (f, mkStreams (t_streams t) conn)
| sys_open f t id x : t_streams t !! id = None → start x → streamID x.1.1 = id → w_conn x.1.2 = t_conn t →
    sys_step (f, t) (f, mkStreams (<[id := x]> (t_streams t)) (t_conn t))
| sys_done f t id s w h : t_streams t !! id = Some (s, w, h) → completed s = true → sys_step (f, t) (f, mkStreams (delete id (t_streams t)) (t_conn t))
| sys_send f t frames maxLen r f' t' : maxLen ≤ MaxPacketBufferSize → room (size (activeStreams f)) t →
    AppendStreamFrames frames maxLen (f, t) = (Ok r, (f', t')) → sys_step (f, t) (f', t').

Definition sys_run (x : framerI * streams) : Prop := ∃ conn, conn_ok conn ∧ rtc sys_step (newFramer, mkStreams ∅ conn) x.

Definition sys_ok (x : framerI * streams) : Prop := ∃ q, wf x.1 q ∧ all_ok 0 x.2 ∧ idle_outside q x.2.

Lemma room_ok n t : all_ok 0 t → room n t → all_ok n t.
Proof.
  intros [Hc Hall] Hr. split; [done|]. intros i x Hx. pose proof (Hall i x Hx) as []. split; try done. apply (Hr i x Hx).
Qed.

Lemma wf_size f q : wf f q → size (activeStreams f) = length q.
Proof. intros [_ Hn ->]. rewrite size_list_to_set by done. done. Qed.

Lemma sys_call_ok f t id s w h s' w' h' f' : sys_ok (f, t) → t_streams t !! id = Some (s, w, h) → room 1 t →
  calls (s, set_conn (t_conn t) w, h) (s', w', h') → (if (w_hasData w <? w_hasData w')%nat then AddActiveStream id f else Ok f) = Ok f' →
  sys_ok (f', mkStreams (<[id := (s', w', h')]> (t_streams t)) (w_conn w')).
Proof.
  intros (q & Hq & [Hc Hall] & Hi) Hid Hr Hcall Hf. simpl in *. pose proof (Hall id _ Hid) as []. pose proof (Hr id _ Hid) as Hroom. simpl in *.
  pose proof (calls_announced (s, set_conn (t_conn t) w, h) (s', w', h') y_good0 y_delim0 y_close0 Hcall) as (H1 & H2 & H3 & H4 & H5 & H6). cbn [fst snd] in *.
  assert (Hg' : good s' w' h').
  { apply calls_step in Hcall; [|simpl; lia]. exact (step_good (s, set_conn (t_conn t) w, h) _ y_good0 Hcall). }
  assert (Hok : all_ok 0 (mkStreams (<[id:=(s', w', h')]> (t_streams t)) (w_conn w'))).
  { simpl in H2. split; simpl; rewrite H2; [done|]. apply map_Forall_insert_2; [|done]. split; simpl; try done; [congruence| |lia].
    destruct Hg'. split; try done. }
  assert (Hout : ∀ q', (∀ i, i ∈ q → i ∈ q') → (id ∈ q' ∨ (pending s' → pending s)) →
    idle_outside q' (mkStreams (<[id:=(s', w', h')]> (t_streams t)) (w_conn w'))).
  { intros q' Hsub Hor i Hni s2 w2 h2 Hl. cbn [t_streams] in Hl. apply lookup_insert_Some in Hl as [[<- [= <- <- <-]]|[_ Hl]].
    - destruct Hor as [|Hor]; [done|]. intros Hp%Hor. apply (Hi id) in Hid; [done|]. auto.
    - apply (Hi i) in Hl; [done|]. auto. }
  destruct (Nat.ltb_spec (w_hasData w) (w_hasData w')) as [Hlt|Hge].
  - destruct (AddActiveStream_ok id f q Hq) as (f2 & E & Hw & _). rewrite E in Hf. injection Hf as <-. eexists. split; [done|]. split; [done|].
    apply Hout; [|left]; case_decide; set_solver.
  - injection Hf as <-. exists q. split; [done|]. split; [done|]. apply Hout; [done|]. right. destruct H6 as [?|[_ ?]]; [simpl in *; lia|done].
Qed.

Lemma sys_step_ok x y : sys_ok x → sys_step x y → sys_ok y.
Proof.
  intros Hx Hxy. destruct Hxy as [f t id s w h s' w' h' f' Hid Hr Hcall Hf|f t conn Hc|f t id x Hid Hs He Hw|f t id s w h Hid Hcomp|f t frames maxLen r f' t' Hm Hr E].
  - by eapply sys_call_ok.
  - destruct Hx as (q & Hq & [_ Hall] & Hi). exists q. split; [done|]. split; [|exact Hi]. split; [done|]. intros i y Hy.
    eapply stream_ok_conn; [by apply Hall|done|done].
  - destruct Hx as (q & Hq & [Hc Hall] & Hi). exists q. split; [done|]. pose proof (start_good _ Hs) as Hg. split.
    + split; [done|]. apply map_Forall_insert_2; [|done]. split; try done.
      * unfold good_state in Hg. rewrite <- Hw. destruct Hg. by split.
      * inversion Hs; subst. constructor.
      * inversion Hs; subst. done.
      * inversion Hs; subst. done.
    + intros i Hni s w h Hl. cbn [snd t_streams] in Hl. apply lookup_insert_Some in Hl as [[<- ->]|[_ Hl]]; [|by eapply (Hi i)].
      inversion Hs; subst. intros (_ & [H|[[[[? H]|[? H]] _]|[[H _] _]]]); done.
  - destruct Hx as (q & Hq & [Hc Hall] & Hi). exists q. split; [done|]. split; [split; [done|]|].
    + cbn [snd t_streams]. intros i y [_ Hy]%lookup_delete_Some. by apply Hall.
    + intros i Hni s2 w2 h2 Hl. cbn [snd t_streams] in Hl. apply lookup_delete_Some in Hl as [_ Hl]. by eapply (Hi i).
  - destruct Hx as (q & Hq & Hok & Hi). cbn [fst snd] in *. rewrite (wf_size f q Hq) in Hr. assert (Hinv : getter_inv (length q) t) by exact (room_ok _ _ Hok Hr).
    destruct (AppendStreamFrames_ok frames maxLen f t q Hq Hinv Hm) as (new & len & k & more & f2 & t2 & E2 & _ & _ & _ & _ & Hw & _ & _ & Ho & Hg & _).
    rewrite E in E2. simplify_eq. exists (drop k q ++ more). split; [done|]. split; [done|]. by apply Ho.
Qed.

Lemma sys_run_ok x : sys_run x → sys_ok x.
Proof.
  intros (conn & Hc & Hr). revert x Hr. apply rtc_ind_r.
  - exists []. split; [apply newFramer_wf|]. split; [split; [done|apply map_Forall_empty]|]. intros i _ s w h H. simpl in H. by rewrite lookup_empty in H.
  - intros y z _ Hyz Hy. by eapply sys_step_ok.
Qed.

(** C22: streams with something to send are served.  For all interleavings of
    writes, acknowledgements, losses, resets, window updates and packets: every
    stream that has retransmissions, data the peer's stream window allows, or an
    unsent FIN, is in the framer's queue, which holds each active stream once.
    Filling a packet never fails; the STREAM frames appended come from active
    streams, all but the last one carry their length, the length reported is
    their length on the wire, and they fit, although the last one was popped with
    the space of its length field in addition.  The streams are asked in the
    order of the queue: with enough space at least the first one is asked, and
    those that have more data go to the end. *)
Theorem streams_served (f : framerI) (t : streams) : sys_run (f, t) →
  ∃ q, wf f q ∧ (∀ id s w h, t_streams t !! id = Some (s, w, h) → pending s → id ∈ q) ∧
    ∀ frames maxLen, maxLen ≤ MaxPacketBufferSize → room (length q) t →
      ∃ new len k more f' t', AppendStreamFrames frames maxLen (f, t) = (Ok (frames ++ new, len), (f', t')) ∧
        totalLength (FStream <$> new) = Ok len ∧ 0 ≤ len ≤ Z.max 0 maxLen ∧
        Forall (λ x, well_formed (FStream x) ∧ sf_StreamID x ∈ q) new ∧
        (∀ init x, new = init ++ [x] → Forall (λ y, sf_DataLenPresent y = true) init ∧ sf_DataLenPresent x = false) ∧
        wf f' (drop k q ++ more) ∧ more `sublist_of` take k q ∧ (q ≠ [] → MinStreamFrameSize ≤ maxLen → (0 < k)%nat).
Proof.
  intros (q & Hq & Hok & Hi)%sys_run_ok. exists q. split; [done|]. split.
  - intros id s w h Hid Hp. destruct (decide (id ∈ q)) as [|Hni]; [done|]. by destruct (Hi id Hni s w h Hid).
  - intros frames maxLen Hm Hr. assert (Hinv : getter_inv (length q) t) by exact (room_ok _ _ Hok Hr).
    destruct (AppendStreamFrames_ok frames maxLen f t q Hq Hinv Hm) as (new & len & k & more & f2 & t2 & E & H1 & H2 & H3 & H4 & H5 & H6 & H7 & _).
    exists new, len, k, more, f2, t2. done.
Qed.

(** * An example

    The example of [SendCorrect]: three bytes are written to stream 4. *)
Definition ex_streams (sw : sendStream * world) (h : hist) : streams := mkStreams {[ 4 := (sw.1, sw.2, h) ]} (w_conn ex_new.2).
Definition ex_active : framerI := match AddActiveStream 4 newFramer with Ok f => f | _ => newFramer end.

Lemma ex_written_run : sys_run (ex_active, ex_streams ex_written (mkHist [] [] [] [] [1; 2; 3] None)).
Proof.
  exists (w_conn ex_new.2). split; [done|].
  eapply rtc_l; [apply (sys_open _ _ 4 (ex_new, mkHist [] [] [] [] [] None)); [done|by apply start_new|done|done]|].
  apply rtc_once. set (t := mkStreams (<[4 := (ex_new, mkHist [] [] [] [] [] None)]> ∅) (w_conn ex_new.2)).
  replace (ex_streams ex_written (mkHist [] [] [] [] [1; 2; 3] None))
    with (mkStreams (<[4 := (ex_written.1, ex_written.2, mkHist [] [] [] [] [1; 2; 3] None)]> (t_streams t)) (w_conn ex_written.2)) by (vm_compute; reflexivity).
  eapply (sys_call _ _ 4 ex_new.1 ex_new.2 (mkHist [] [] [] [] [] None) ex_written.1 ex_written.2 (mkHist [] [] [] [] [1; 2; 3] None)).
  - done.
  - apply map_Forall_insert_2; [by vm_compute|apply map_Forall_empty].
  - refine (call_write ex_new.1 ex_new.2 _ 0 [1; 2; 3] (WDone 3 None) ex_written.1 ex_written.2 _ _); [done|vm_compute; reflexivity].
  - vm_compute. reflexivity.
Qed.

Lemma streams_served_witness : pending ex_written.1 ∧
  ∃ new len sw, AppendStreamFrames [] 1000 (ex_active, ex_streams ex_written (mkHist [] [] [] [] [1; 2; 3] None)) = (Ok (new, len), sw) ∧ len ≤ 1000.
Proof.
  split; [split; [done|]; right; left; split; [right; by eexists|vm_compute; reflexivity]|].
  destruct (streams_served _ _ ex_written_run) as (q & Hq & _ & Hs). destruct (Hs [] 1000) as (new & len & k & more & f' & t' & E & _ & Hl & _).
  - by vm_compute.
  - apply map_Forall_singleton. rewrite <- (wf_size _ _ Hq). by vm_compute.
  - exists new, len, (f', t'). split; [exact E|lia].
Defined.
End framerStreams.
