(* ===== verification/PacketPacker.v ===== *)
(** The packet packer (packet_packer.go): the payload of the next packet, composed
    from acknowledgements, retransmissions, control frames, datagrams, STREAM
    frames and FEC symbols, its serialization, and coalesced packets.  The
    interfaces of the packer are type classes over a state that stands for the
    objects behind them; the queues and the FEC sender are those of their own
    files. *)

From S2P Require Import Prelude.
From S2P Require Import Varint.
From S2P Require Import Protocol.
From S2P Require Import Frames.
From S2P Require Import AckFrame.
From S2P Require Import FrameParser.
From S2P Require Import Fec.
From S2P Require Import FecCodes.
From S2P Require Import FecManager.
From S2P Require Import HandleFrames.
From S2P Require Import Queues.
From S2P Require Import Headers.
From S2P Require Import RetransmissionQueue.
From S2P Require Import Framer.

Module packer.
Import protocol wire ack parser fec fecManager connection queues headers retransmissionQueue.

Definition MaxNonAckElicitingAcks : Z := 19.
Definition MinCoalescedPacketSize : Z := 128.
Definition ApplicationErrorErrorCode : Z := 0xc.
Definition IsCryptoError (code : Z) : bool := (0x100 <=? code) && (code <? 0x200).

Definition errNothingToPack : go_error := ErrMsg "nothing to pack".
Definition ErrKeysNotYetAvailable : go_error := ErrMsg "CryptoSetup: keys at this encryption level not yet available".
Definition ErrKeysDropped : go_error := ErrMsg "CryptoSetup: keys were already dropped".

(** * Interfaces *)

(** A frame with its handler, one of the three handlers of the retransmission
    queue or none.  STREAM frames are handled by their streams. *)
Inductive handler := InitialAckHandler | HandshakeAckHandler | AppDataAckHandler.
Record Frame := mkFrame { fr_Frame : frame; fr_Handler : option handler }.

Class frameSource (E : Type) := {
  fs_HasData : E → bool;
  fs_AppendStreamFrames : list StreamFrame → Z → st E (list StreamFrame * Z);
  fs_AppendControlFrames : list Frame → Z → st E (list Frame * Z);
}.

Class ackFrameSource (E : Type) := {
  GetAckFrame : EncryptionLevel → bool → st E (option AckFrame);
}.

Class packetNumberManager (E : Type) := {
  PeekPacketNumber : EncryptionLevel → st E (Z * Z);
  PopPacketNumber : EncryptionLevel → st E Z;
}.

(** The sealer of an encryption level is an object behind the state: [GetSealer]
    returns an error or nil; [Seal] returns the ciphertext with its tag,
    [EncryptHeader] the first byte and the packet number after header protection
    with the sample. *)
Class sealingManager (E : Type) := {
  GetSealer : EncryptionLevel → E → option go_error * E;
  Overhead : EncryptionLevel → E → Z;
  KeyPhase : st E KeyPhaseBit;
  Seal : EncryptionLevel → bytes → Z → bytes → st E bytes;
  EncryptHeader : EncryptionLevel → bytes → Z → bytes → E → Z * bytes;
}.

(** The Initial and the Handshake stream. *)
Class cryptoStreams (E : Type) := {
  crypto_HasData : EncryptionLevel → E → bool;
  crypto_PopCryptoFrame : EncryptionLevel → Z → st E CryptoFrame;
}.

(** [getDestConnID] of the connection ID manager, and [Shuffle] of the random
    number generator, which reorders the frames of a packet. *)
Class packerEnv (E : Type) := {
  getDestConnID : st E ConnectionID;
  Shuffle : list Frame → st E (list Frame);
}.

(** * Data *)

Record payload := mkPayload {
  pl_streamFrames : list StreamFrame;
  pl_frames : list Frame;
  pl_ack : option AckFrame;
  pl_length : Z;
  pl_fecFrames : list Frame;
  pl_fecStreamFrames : list StreamFrame;
}.

Definition no_payload : payload := mkPayload [] [] None 0 [] [].

Definition with_ack (a : AckFrame) (n : Z) (pl : payload) : payload :=
  mkPayload (pl_streamFrames pl) (pl_frames pl) (Some a) (pl_length pl + n) (pl_fecFrames pl) (pl_fecStreamFrames pl).
Definition add_frame (f : Frame) (n : Z) (pl : payload) : payload :=
  mkPayload (pl_streamFrames pl) (pl_frames pl ++ [f]) (pl_ack pl) (pl_length pl + n) (pl_fecFrames pl) (pl_fecStreamFrames pl).
Definition add_fecFrame (f : Frame) (n : Z) (pl : payload) : payload :=
  mkPayload (pl_streamFrames pl) (pl_frames pl) (pl_ack pl) (pl_length pl + n) (pl_fecFrames pl ++ [f]) (pl_fecStreamFrames pl).
Definition set_frames (fs : list Frame) (n : Z) (pl : payload) : payload :=
  mkPayload (pl_streamFrames pl) fs (pl_ack pl) (pl_length pl + n) (pl_fecFrames pl) (pl_fecStreamFrames pl).
Definition add_streams (s fec : list StreamFrame) (n : Z) (pl : payload) : payload :=
  mkPayload (pl_streamFrames pl ++ s) (pl_frames pl) (pl_ack pl) (pl_length pl + n) (pl_fecFrames pl) (pl_fecStreamFrames pl ++ fec).

Record longHeaderPacket := mkLong {
  lhp_header : ExtendedHeader;
  lhp_ack : option AckFrame;
  lhp_frames : list Frame;
  lhp_streamFrames : list StreamFrame;
  lhp_length : Z;
}.

Record shortHeaderPacket := mkShort {
  shp_PacketNumber : Z;
  shp_Frames : list Frame;
  shp_StreamFrames : list StreamFrame;
  shp_Ack : option AckFrame;
  shp_Length : Z;
  shp_IsPathMTUProbePacket : bool;
  shp_DestConnID : ConnectionID;
  shp_PacketNumberLen : Z;
  shp_KeyPhase : KeyPhaseBit;
}.

(** A buffer of the pool, with its capacity. *)
Record packetBuffer := mkBuffer { Data : bytes; Cap : Z }.
Definition getPacketBuffer : packetBuffer := mkBuffer [] MaxPacketBufferSize.

Record coalescedPacket := mkCoalesced {
  buffer : packetBuffer;
  longHdrPackets : list longHeaderPacket;
  shortHdrPacket : option shortHeaderPacket;
}.

Definition HasAckElicitingFrames (fs : list Frame) : bool := existsb (λ f, IsFrameAckEliciting (fr_Frame f)) fs.
Definition short_IsAckEliciting (p : shortHeaderPacket) : bool := HasAckElicitingFrames (shp_Frames p).
Definition long_IsAckEliciting (p : longHeaderPacket) : bool := HasAckElicitingFrames (lhp_frames p).
Definition IsOnlyShortHeaderPacket (p : coalescedPacket) : bool :=
  (blen (longHdrPackets p) =? 0) && match shortHdrPacket p with Some _ => true | None => false end.

Definition long_EncryptionLevel (p : longHeaderPacket) : res EncryptionLevel :=
  match h_Type (eh_Header (lhp_header p)) with
  | Some PacketTypeInitial => Ok EncryptionInitial
  | Some PacketTypeHandshake => Ok EncryptionHandshake
  | Some PacketType0RTT => Ok Encryption0RTT
  | _ => Panic "can't determine encryption level"
  end.

Record packetPacker := mkPacker {
  srcConnID : ConnectionID;
  perspective : Perspective;
  token : bytes;
  datagramQ : option datagramQueue;
  retransmissions : retransmissionQueue;
  numNonAckElicitingAcks : Z;
  fecSender : option manager;
  repairQ : option repairQueue;
}.

Definition newPacketPackerWithFEC (src : ConnectionID) (q : retransmissionQueue) (d : option datagramQueue) (p : Perspective)
    (r : option repairQueue) : packetPacker := mkPacker src p [] d q 0 None r.
Definition newPacketPacker src q d p : packetPacker := newPacketPackerWithFEC src q d p None.

Definition set_datagrams (d : option datagramQueue) (p : packetPacker) : packetPacker :=
  mkPacker (srcConnID p) (perspective p) (token p) d (retransmissions p) (numNonAckElicitingAcks p) (fecSender p) (repairQ p).
Definition set_retransmissions (q : retransmissionQueue) (p : packetPacker) : packetPacker :=
  mkPacker (srcConnID p) (perspective p) (token p) (datagramQ p) q (numNonAckElicitingAcks p) (fecSender p) (repairQ p).
Definition set_acks (n : Z) (p : packetPacker) : packetPacker :=
  mkPacker (srcConnID p) (perspective p) (token p) (datagramQ p) (retransmissions p) n (fecSender p) (repairQ p).
Definition set_fec (s : option manager) (r : option repairQueue) (p : packetPacker) : packetPacker :=
  mkPacker (srcConnID p) (perspective p) (token p) (datagramQ p) (retransmissions p) (numNonAckElicitingAcks p) s r.

Definition SetToken (t : bytes) (p : packetPacker) : packetPacker :=
  mkPacker (srcConnID p) (perspective p) t (datagramQ p) (retransmissions p) (numNonAckElicitingAcks p) (fecSender p) (repairQ p).
Definition SetFECSender (s : manager) (p : packetPacker) : packetPacker := set_fec (Some s) (repairQ p) p.

Section packer.
Context `{frameSource E, ackFrameSource E, packetNumberManager E, sealingManager E, cryptoStreams E, packerEnv E}.
Abbreviation M := (st (packetPacker * E)).

Definition getP : M packetPacker := λ '(p, e), (Ok p, (p, e)).
Definition getE : M E := λ '(p, e), (Ok e, (p, e)).
Definition modifyP (f : packetPacker → packetPacker) : M () := λ '(p, e), (Ok tt, (f p, e)).
Definition onE {A} (m : st E A) : M A := λ '(p, e), let '(r, e) := m e in (r, (p, e)).
Definition nil_deref {A} : M A := st_panic "invalid memory address or nil pointer dereference".

(** [None] for a nil error. *)
Definition getSealer (l : EncryptionLevel) : M (option go_error) := λ '(p, e), let '(r, e) := GetSealer l e in (Ok r, (p, e)).

(** * Lengths and headers *)

(** The padding of a packet with a tiny payload. *)
Definition min_padding (pnLen length : Z) : Z := if length <? 4 - pnLen then 4 - pnLen - length else 0.

Definition longHeaderPacketLength (hdr : ExtendedHeader) (pl : payload) : res Z :=
  l ← GetLength hdr; Ok (l + pl_length pl + min_padding (PacketNumberLen hdr) (pl_length pl)).

Definition shortHeaderPacketLength (connID : ConnectionID) (pnLen : Z) (pl : payload) : Z :=
  ShortHeaderLen connID pnLen + pl_length pl + min_padding pnLen (pl_length pl).

Definition initialPaddingLen (pers : Perspective) (frames : list Frame) (currentSize maxPacketSize : Z) : Z :=
  if bool_decide (pers = PerspectiveServer) && negb (HasAckElicitingFrames frames) then 0 else
  if maxPacketSize <=? currentSize then 0 else maxPacketSize - currentSize.

Definition getLongHeader (l : EncryptionLevel) (v : Z) : M ExtendedHeader :=
  '(pn, pnLen) ← onE (PeekPacketNumber l);
  p ← getP;
  dest ← onE getDestConnID;
  let hdr t tok := mkExtendedHeader (mkHeader 0 t v (srcConnID p) dest 0 tok 0) 0 pnLen pn 0 in
  mret match l with
       | EncryptionInitial => hdr (Some PacketTypeInitial) (token p)
       | EncryptionHandshake => hdr (Some PacketTypeHandshake) []
       | Encryption0RTT => hdr (Some PacketType0RTT) []
       | _ => hdr None []
       end.

Definition set_length (n : Z) (h : ExtendedHeader) : ExtendedHeader :=
  let hdr := eh_Header h in
  mkExtendedHeader (mkHeader (typeByte hdr) (h_Type hdr) (h_Version hdr) (SrcConnectionID hdr) (DestConnectionID hdr) n (h_Token hdr) (parsedLen hdr))
    (eh_typeByte h) (PacketNumberLen h) (PacketNumber h) (eh_parsedLen h).

(** * Composing the payload *)

(** A REPAIR frame, if there is one: the payload, and whether one was added. *)
Definition addRepairFrame (maxFrameSize : Z) (hasAck : bool) (pl : payload) : M (payload * bool) :=
  p ← getP;
  match repairQ p with
  | None => mret (pl, false)
  | Some q =>
      f ← st_lift (repair_Peek q);
      match f with
      | None => mret (pl, false)
      | Some f =>
          size ← st_lift (Length (FRepair f));
          if size <=? maxFrameSize - pl_length pl then
            match repair_Pop q with
            | (Ok _, q') => _ ← modifyP (set_fec (fecSender p) (Some q')); mret (add_frame (mkFrame (FRepair f) None) size pl, true)
            | (Err e, _) => st_fail e
            | (Panic m, _) => st_panic m
            end
          else if negb hasAck then st_panic "no space for repair frame"
          else mret (pl, false)
      end
  end.

(** A DATAGRAM frame, if there is one that fits. *)
Definition addDatagram (maxFrameSize : Z) (hasAck addedRepairFrame : bool) (pl : payload) : M payload :=
  p ← getP;
  match datagramQ p with
  | None => mret pl
  | Some q =>
      f ← st_lift (datagram_Peek q);
      match f with
      | None => mret pl
      | Some f =>
          size ← st_lift (Length (FDatagram f));
          if size <=? maxFrameSize - pl_length pl then
            let pl := if df_FECProtected f then add_fecFrame (mkFrame (FDatagram f) None) size pl
                      else add_frame (mkFrame (FDatagram f) None) size pl in
            q' ← st_lift (datagram_Pop q); _ ← modifyP (set_datagrams (Some q')); mret pl
          else if negb hasAck && negb addedRepairFrame then
            q' ← st_lift (datagram_Pop q); _ ← modifyP (set_datagrams (Some q')); mret pl
          else mret pl
      end
  end.

(** The loop over the retransmissions; a frame is taken out each time. *)
Fixpoint retransmit (fuel : nat) (maxFrameSize : Z) (pl : payload) : M payload :=
  match fuel with
  | O => st_panic "out of fuel"
  | S fuel =>
      let remainingLen := maxFrameSize - pl_length pl in
      if remainingLen <? framer.MinStreamFrameSize then mret pl else
      p ← getP;
      '(f, q) ← st_lift (GetAppDataFrame remainingLen (retransmissions p));
      _ ← modifyP (set_retransmissions q);
      match f with
      | None => mret pl
      | Some f => n ← st_lift (Length f); retransmit fuel maxFrameSize (add_frame (mkFrame f (Some AppDataAckHandler)) n pl)
      end
  end.

(** The handler of a control frame. *)
Definition control_handler (f : Frame) : Frame :=
  match fr_Frame f with
  | FPathChallenge _ | FPathResponse _ => f
  | x => mkFrame x (Some AppDataAckHandler)
  end.

(** Control frames and STREAM frames of the framer. *)
Definition addData (maxFrameSize : Z) (pl : payload) : M payload :=
  let startLen := length (pl_frames pl) in
  '(frames, lengthAdded) ← onE (fs_AppendControlFrames (pl_frames pl) (maxFrameSize - pl_length pl));
  let pl := set_frames (take startLen frames ++ (control_handler <$> drop startLen frames)) lengthAdded pl in
  p ← getP;
  let fecEnabled := match fecSender p with Some _ => true | None => false end in
  let overhead := if fecEnabled then MaxFECHeaderOverhead else 0 in
  '(streamFrames, lengthAdded) ← onE (fs_AppendStreamFrames (pl_streamFrames pl) (maxFrameSize - pl_length pl - overhead));
  if negb fecEnabled && existsb sf_FECProtected streamFrames then st_panic "fec.Sender doesn't exist but there is a FEC protected stream frame"
  else mret (add_streams (filter (λ f, sf_FECProtected f = false) streamFrames) (filter (λ f, sf_FECProtected f = true) streamFrames) lengthAdded pl).

Definition composeNextPacket (maxFrameSize : Z) (onlyAck ackAllowed : bool) : M payload :=
  if onlyAck then
    ack ← onE (GetAckFrame Encryption1RTT true);
    match ack with
    | Some a => n ← st_lift (Length (FAck a)); mret (with_ack a n no_payload)
    | None => mret no_payload
    end
  else
    p ← getP;
    e ← getE;
    let hasData := fs_HasData e in
    let hasRetransmission := HasAppData (retransmissions p) in
    ack ← (if ackAllowed then onE (GetAckFrame Encryption1RTT (negb hasRetransmission && negb hasData)) else mret None);
    pl ← (match ack with Some a => n ← st_lift (Length (FAck a)); mret (with_ack a n no_payload) | None => mret no_payload end);
    let hasAck := match ack with Some _ => true | None => false end in
    '(pl, addedRepairFrame) ← addRepairFrame maxFrameSize hasAck pl;
    pl ← addDatagram maxFrameSize hasAck addedRepairFrame pl;
    if hasAck && negb hasData && negb hasRetransmission then mret pl else
    pl ← (if hasRetransmission then retransmit (S (length (appData (retransmissions p)))) maxFrameSize pl else mret pl);
    if hasData then addData maxFrameSize pl else mret pl.

Definition maybeGetAppDataPacket (maxPayloadSize : Z) (onlyAck ackAllowed : bool) : M payload :=
  pl ← composeNextPacket maxPayloadSize onlyAck ackAllowed;
  if (blen (pl_frames pl) =? 0) && (blen (pl_streamFrames pl) =? 0) && (blen (pl_fecFrames pl) =? 0) && (blen (pl_fecStreamFrames pl) =? 0) then
    match pl_ack pl with
    | None => mret no_payload
    | Some _ =>
        p ← getP;
        if MaxNonAckElicitingAcks <=? numNonAckElicitingAcks p then
          n ← st_lift (Length (FPing mkPingFrame));
          _ ← modifyP (set_acks 0);
          mret (add_frame (mkFrame (FPing mkPingFrame) None) n pl)
        else _ ← modifyP (λ p, set_acks (numNonAckElicitingAcks p + 1) p); mret pl
    end
  else _ ← modifyP (set_acks 0); mret pl.

Definition maybeGetShortHeaderPacket (hdrLen maxPacketSize : Z) (onlyAck ackAllowed : bool) : M payload :=
  e ← getE; maybeGetAppDataPacket (maxPacketSize - hdrLen - Overhead Encryption1RTT e) onlyAck ackAllowed.

Definition maybeGetAppDataPacketFor0RTT (maxPacketSize v : Z) : M (option ExtendedHeader * payload) :=
  p ← getP;
  if negb (bool_decide (perspective p = PerspectiveClient)) then mret (None, no_payload) else
  hdr ← getLongHeader Encryption0RTT v;
  n ← st_lift (GetLength hdr);
  e ← getE;
  pl ← maybeGetAppDataPacket (maxPacketSize - n - Overhead Encryption0RTT e) false false;
  mret (Some hdr, pl).

(** Initial and Handshake packets: their retransmissions ... *)
Definition crypto_level (l : EncryptionLevel) : bool := match l with EncryptionInitial | EncryptionHandshake => true | _ => false end.
Definition crypto_handler (l : EncryptionLevel) : option handler :=
  match l with EncryptionInitial => Some InitialAckHandler | EncryptionHandshake => Some HandshakeAckHandler | _ => None end.
Definition crypto_retransmission (l : EncryptionLevel) (maxLen : Z) (q : retransmissionQueue) : res (option frame * retransmissionQueue) :=
  match l with
  | EncryptionInitial => GetInitialFrame maxLen q
  | EncryptionHandshake => GetHandshakeFrame maxLen q
  | _ => Ok (None, q)
  end.
Definition crypto_hasRetransmission (l : EncryptionLevel) (q : retransmissionQueue) : bool :=
  match l with EncryptionInitial => HasInitialData q | EncryptionHandshake => HasHandshakeData q | _ => false end.

Fixpoint retransmit_crypto (fuel : nat) (l : EncryptionLevel) (maxPacketSize : Z) (pl : payload) : M payload :=
  match fuel with
  | O => st_panic "out of fuel"
  | S fuel =>
      p ← getP;
      '(f, q) ← st_lift (crypto_retransmission l maxPacketSize (retransmissions p));
      _ ← modifyP (set_retransmissions q);
      match f with
      | None => mret pl
      | Some f => n ← st_lift (Length f); retransmit_crypto fuel l (maxPacketSize - n) (add_frame (mkFrame f (crypto_handler l)) n pl)
      end
  end.

(** How many frames can be taken out of the queue. *)
Definition crypto_fuel (l : EncryptionLevel) (q : retransmissionQueue) : nat :=
  S (match l with
     | EncryptionInitial => weight (initial q) (initialCryptoData q)
     | EncryptionHandshake => weight (handshake q) (handshakeCryptoData q)
     | _ => 0
     end).

(** ... and their crypto data.  At other levels the stream is nil. *)
Definition maybeGetCryptoPacket (maxPacketSize : Z) (l : EncryptionLevel) (onlyAck ackAllowed : bool) (v : Z) : M (option ExtendedHeader * payload) :=
  if onlyAck then
    ack ← onE (GetAckFrame l true);
    match ack with
    | Some a => hdr ← getLongHeader l v; n ← st_lift (Length (FAck a)); mret (Some hdr, with_ack a n no_payload)
    | None => mret (None, no_payload)
    end
  else if negb (crypto_level l) then nil_deref else
    p ← getP;
    e ← getE;
    let hasRetransmission := crypto_hasRetransmission l (retransmissions p) in
    let hasData := crypto_HasData l e in
    ack ← (if ackAllowed then onE (GetAckFrame l (negb hasRetransmission && negb hasData)) else mret None);
    if negb hasData && negb hasRetransmission && match ack with None => true | Some _ => false end then mret (None, no_payload) else
    pl ← (match ack with Some a => n ← st_lift (Length (FAck a)); mret (with_ack a n no_payload) | None => mret no_payload end);
    hdr ← getLongHeader l v;
    n ← st_lift (GetLength hdr);
    let maxPacketSize := maxPacketSize - pl_length pl - n in
    if hasRetransmission then
      pl ← retransmit_crypto (crypto_fuel l (retransmissions p)) l maxPacketSize pl;
      mret (Some hdr, pl)
    else
      e ← getE;
      if crypto_HasData l e then
        cf ← onE (crypto_PopCryptoFrame l maxPacketSize);
        n ← st_lift (Length (FCrypto cf));
        mret (Some hdr, set_frames [mkFrame (FCrypto cf) (crypto_handler l)] n pl)
      else mret (Some hdr, pl).

(** * Serialization *)

Definition append_all (fs : list frame) (raw : bytes) : res bytes := appendFrames raw fs.

(** A REPAIR frame is queued for a later packet. *)
Definition addRepair (f : RepairFrame) : M () :=
  p ← getP;
  match repairQ p with
  | None => nil_deref
  | Some q => let '(r, q) := repair_Add f q in _ ← modifyP (set_fec (fecSender p) (Some q)); st_lift r
  end.

(** The SOURCE_SYMBOL frame around the protected frames: the bytes, and the
    length of its header. *)
Definition appendSourceSymbol (raw : bytes) (pl : payload) : M (bytes * Z) :=
  protected ← st_lift (append_all (fr_Frame <$> pl_fecFrames pl) []);
  protected ← st_lift (append_all (FStream <$> pl_fecStreamFrames pl) protected);
  p ← getP;
  match fecSender p with
  | None => nil_deref
  | Some s =>
      let '(r, s) := sendSourceSymbol protected s in
      _ ← modifyP (λ p, set_fec (Some s) (repairQ p) p);
      '(ssf, repairFrames) ← st_lift r;
      hdrLen ← st_lift (SourceSymbolFrame_HeaderLen ssf);
      _ ← st_iter addRepair repairFrames;
      raw ← st_lift (Append raw (FSourceSymbol ssf));
      mret (raw, hdrLen)
  end.

(** The bytes, and the frames in the order they were written. *)
Definition appendPacketPayload (raw : bytes) (pl : payload) (paddingLen : Z) : M (bytes * list Frame) :=
  let payloadOffset := blen raw in
  raw ← st_lift (match pl_ack pl with Some a => Append raw (FAck a) | None => Ok raw end);
  let raw := if 0 <? paddingLen then raw ++ zeros paddingLen else raw in
  frames ← (if 1 <? blen (pl_frames pl) then onE (Shuffle (pl_frames pl)) else mret (pl_frames pl));
  raw ← st_lift (append_all (fr_Frame <$> frames) raw);
  raw ← st_lift (append_all (FStream <$> pl_streamFrames pl) raw);
  '(raw, hdrLen) ← (if (0 <? blen (pl_fecStreamFrames pl)) || (0 <? blen (pl_fecFrames pl)) then appendSourceSymbol raw pl else mret (raw, 0));
  if blen raw - payloadOffset - paddingLen - hdrLen =? pl_length pl then mret (raw, frames)
  else st_fail (ErrMsg "PacketPacker BUG: payload size inconsistent").

(** [room] bytes are left in the buffer behind the packet. *)
Definition encryptPacket (raw : bytes) (l : EncryptionLevel) (pn payloadOffset pnLen room : Z) : M bytes :=
  let ad := take (Z.to_nat payloadOffset) raw in
  e ← getE;
  if room <? Overhead l e then st_panic "slice bounds out of range" else
  sealed ← onE (Seal l (drop (Z.to_nat payloadOffset) raw) pn ad);
  let raw := ad ++ sealed in
  let pnOffset := payloadOffset - pnLen in
  if blen raw <? pnOffset + 4 + 16 then st_panic "slice bounds out of range" else
  e ← getE;
  let '(first, pnBytes) := EncryptHeader l (take 16 (drop (Z.to_nat (pnOffset + 4)) raw)) (default 0 (head raw))
    (take (Z.to_nat pnLen) (drop (Z.to_nat pnOffset) raw)) e in
  mret (first :: take (Z.to_nat (pnOffset - 1)) (tail raw) ++ pnBytes ++ drop (Z.to_nat payloadOffset) raw).

(** [buffer.Data = buffer.Data[:len(buffer.Data)+len(raw)]] *)
Definition commit (b : packetBuffer) (raw : bytes) : M packetBuffer :=
  if Cap b <? blen (Data b) + blen raw then st_panic "slice bounds out of range" else mret (mkBuffer (Data b ++ raw) (Cap b)).

Definition errPacketNumbers : go_error := ErrMsg "packetPacker BUG: Peeked and Popped packet numbers do not match".
Definition errTooLarge : go_error := ErrMsg "PacketPacker BUG: packet too large".

Definition appendLongHeaderPacket (b : packetBuffer) (header : ExtendedHeader) (pl : payload) (padding : Z) (l : EncryptionLevel) (v : Z)
    : M (longHeaderPacket * packetBuffer) :=
  let pnLen := PacketNumberLen header in
  let paddingLen := min_padding pnLen (pl_length pl) + padding in
  e ← getE;
  let header := set_length (pnLen + Overhead l e + pl_length pl + paddingLen) header in
  raw ← st_lift (ExtendedHeader_Append [] v header);
  let payloadOffset := blen raw in
  '(raw, frames) ← appendPacketPayload raw pl paddingLen;
  raw ← encryptPacket raw l (PacketNumber header) payloadOffset pnLen (Cap b - blen (Data b) - blen raw);
  b ← commit b raw;
  pn ← onE (PopPacketNumber l);
  if negb (pn =? PacketNumber header) then st_fail errPacketNumbers else
  mret (mkLong header (pl_ack pl) frames (pl_streamFrames pl) (blen raw), b).

Definition appendShortHeaderPacket (b : packetBuffer) (connID : ConnectionID) (pn pnLen : Z) (kp : KeyPhaseBit) (pl : payload)
    (padding maxPacketSize : Z) (isMTUProbePacket : bool) : M (shortHeaderPacket * packetBuffer) :=
  let paddingLen := min_padding pnLen (pl_length pl) + padding in
  raw ← st_lift (AppendShortHeader [] connID pn pnLen kp);
  let payloadOffset := blen raw in
  '(raw, frames) ← appendPacketPayload raw pl paddingLen;
  e ← getE;
  if negb isMTUProbePacket && (maxPacketSize <? blen raw + Overhead Encryption1RTT e) then st_fail errTooLarge else
  raw ← encryptPacket raw Encryption1RTT pn payloadOffset pnLen (Cap b - blen (Data b) - blen raw);
  b ← commit b raw;
  newPN ← onE (PopPacketNumber Encryption1RTT);
  if negb (newPN =? pn) then st_fail errPacketNumbers else
  mret (mkShort pn frames (pl_streamFrames pl) (pl_ack pl) (blen raw) isMTUProbePacket connID pnLen kp, b).

(** * Packets *)

Definition appendPacket (b : packetBuffer) (onlyAck : bool) (maxPacketSize : Z) : M (shortHeaderPacket * packetBuffer) :=
  err ← getSealer Encryption1RTT;
  match err with
  | Some e => st_fail e
  | None =>
      '(pn, pnLen) ← onE (PeekPacketNumber Encryption1RTT);
      connID ← onE getDestConnID;
      pl ← maybeGetShortHeaderPacket (ShortHeaderLen connID pnLen) maxPacketSize onlyAck true;
      if pl_length pl =? 0 then st_fail errNothingToPack else
      kp ← onE KeyPhase;
      appendShortHeaderPacket b connID pn pnLen kp pl 0 maxPacketSize false
  end.

Definition PackAckOnlyPacket (maxPacketSize : Z) : M (shortHeaderPacket * packetBuffer) := appendPacket getPacketBuffer true maxPacketSize.
Definition AppendPacket (b : packetBuffer) (maxPacketSize : Z) : M (shortHeaderPacket * packetBuffer) := appendPacket b false maxPacketSize.

Definition PackMTUProbePacket (ping : Frame) (size : Z) : M (shortHeaderPacket * packetBuffer) :=
  n ← st_lift (Length (fr_Frame ping));
  let pl := set_frames [ping] n no_payload in
  err ← getSealer Encryption1RTT;
  match err with
  | Some e => st_fail e
  | None =>
      connID ← onE getDestConnID;
      '(pn, pnLen) ← onE (PeekPacketNumber Encryption1RTT);
      e ← getE;
      let padding := size - shortHeaderPacketLength connID pnLen pl - Overhead Encryption1RTT e in
      kp ← onE KeyPhase;
      appendShortHeaderPacket getPacketBuffer connID pn pnLen kp pl padding size true
  end.

(** [None] is a nil packet. *)
Definition MaybePackProbePacket (l : EncryptionLevel) (maxPacketSize v : Z) : M (option coalescedPacket) :=
  match l with
  | Encryption1RTT =>
      err ← getSealer Encryption1RTT;
      match err with
      | Some e => st_fail e
      | None =>
          kp ← onE KeyPhase;
          connID ← onE getDestConnID;
          '(pn, pnLen) ← onE (PeekPacketNumber Encryption1RTT);
          e ← getE;
          pl ← maybeGetAppDataPacket (maxPacketSize - Overhead Encryption1RTT e - ShortHeaderLen connID pnLen) false true;
          if pl_length pl =? 0 then mret None else
          '(shp, b) ← appendShortHeaderPacket getPacketBuffer connID pn pnLen kp pl 0 maxPacketSize false;
          mret (Some (mkCoalesced b [] (Some shp)))
      end
  | EncryptionInitial | EncryptionHandshake =>
      err ← getSealer l;
      match err with
      | Some e => st_fail e
      | None =>
          e ← getE;
          '(hdr, pl) ← maybeGetCryptoPacket (maxPacketSize - Overhead l e) l false true v;
          if pl_length pl =? 0 then mret None else
          match hdr with
          | None => nil_deref
          | Some hdr =>
              n ← st_lift (longHeaderPacketLength hdr pl);
              p ← getP; e ← getE;
              let padding := match l with
                             | EncryptionInitial => initialPaddingLen (perspective p) (pl_frames pl) (n + Overhead l e) maxPacketSize
                             | _ => 0
                             end in
              '(lhp, b) ← appendLongHeaderPacket getPacketBuffer hdr pl padding l v;
              mret (Some (mkCoalesced b [lhp] None))
          end
      end
  | _ => st_panic "unknown encryption level"
  end.
(** ** Coalesced packets *)

(** Whether keys are available; the errors [allowed] say that they are not. *)
Definition has_sealer (l : EncryptionLevel) (allowed : list go_error) : M bool :=
  err ← getSealer l;
  match err with
  | None => mret true
  | Some e => if bool_decide (e ∈ allowed) then mret false else st_fail e
  end.

(** An Initial or Handshake packet behind packets of [size] bytes: its header and
    payload, and the size with it. *)
Definition crypto_part (l : EncryptionLevel) (size maxPacketSize : Z) (onlyAck ackAllowed : bool) (v : Z) : M (option ExtendedHeader * payload * Z) :=
  e ← getE;
  '(hdr, pl) ← maybeGetCryptoPacket (maxPacketSize - size - Overhead l e) l onlyAck ackAllowed v;
  match hdr with
  | Some h => if 0 <? pl_length pl then n ← st_lift (longHeaderPacketLength h pl); e ← getE; mret (hdr, pl, size + (n + Overhead l e))
              else mret (hdr, pl, size)
  | None => mret (hdr, pl, size)
  end.

(** The packet with application data, if any. *)
Inductive app_part :=
| NoApp
| App1RTT (connID : ConnectionID) (pn pnLen : Z) (kp : KeyPhaseBit) (pl : payload)
| App0RTT (hdr : ExtendedHeader) (pl : payload).

Definition getAppPart (size maxPacketSize : Z) (onlyAck : bool) (v : Z) : M (app_part * Z) :=
  oneRTT ← has_sealer Encryption1RTT [ErrKeysDropped; ErrKeysNotYetAvailable];
  p ← getP;
  if (oneRTT : bool) then
    kp ← onE KeyPhase;
    connID ← onE getDestConnID;
    '(pn, pnLen) ← onE (PeekPacketNumber Encryption1RTT);
    pl ← maybeGetShortHeaderPacket (ShortHeaderLen connID pnLen) (maxPacketSize - size) onlyAck (size =? 0);
    e ← getE;
    if 0 <? pl_length pl then mret (App1RTT connID pn pnLen kp pl, size + (shortHeaderPacketLength connID pnLen pl + Overhead Encryption1RTT e))
    else mret (NoApp, size)
  else if bool_decide (perspective p = PerspectiveClient) && negb onlyAck then
    zeroRTT ← has_sealer Encryption0RTT [ErrKeysDropped; ErrKeysNotYetAvailable];
    if (zeroRTT : bool) then
      '(hdr, pl) ← maybeGetAppDataPacketFor0RTT (maxPacketSize - size) v;
      match hdr with
      | Some h => if 0 <? pl_length pl then n ← st_lift (longHeaderPacketLength h pl); e ← getE; mret (App0RTT h pl, size + (n + Overhead Encryption0RTT e))
                  else mret (NoApp, size)
      | None => mret (NoApp, size)
      end
    else mret (NoApp, size)
  else mret (NoApp, size).

(** A long header packet with a payload is appended. *)
Definition append_long (hdr : option ExtendedHeader) (pl : payload) (padding : Z) (l : EncryptionLevel) (v : Z) (packet : coalescedPacket) : M coalescedPacket :=
  if pl_length pl <=? 0 then mret packet else
  match hdr with
  | None => nil_deref
  | Some h => '(lhp, b) ← appendLongHeaderPacket (buffer packet) h pl padding l v;
              mret (mkCoalesced b (longHdrPackets packet ++ [lhp]) (shortHdrPacket packet))
  end.

Definition PackCoalescedPacket (onlyAck : bool) (maxPacketSize v : Z) : M (option coalescedPacket) :=
  let more size := onlyAck && (size =? 0) || negb onlyAck && (size <? maxPacketSize - MinCoalescedPacketSize) in
  hasInitial ← has_sealer EncryptionInitial [ErrKeysDropped];
  '(initialHdr, initialPayload, size) ← (if (hasInitial : bool) then crypto_part EncryptionInitial 0 maxPacketSize onlyAck true v
                                         else mret (None, no_payload, 0));
  '(handshakeHdr, handshakePayload, size) ←
    (if more size then
       hasHandshake ← has_sealer EncryptionHandshake [ErrKeysDropped; ErrKeysNotYetAvailable];
       if (hasHandshake : bool) then crypto_part EncryptionHandshake size maxPacketSize onlyAck (size =? 0) v else mret (None, no_payload, size)
     else mret (None, no_payload, size));
  '(app, size) ← (if more size then getAppPart size maxPacketSize onlyAck v else mret (NoApp, size));
  if (pl_length initialPayload =? 0) && (pl_length handshakePayload =? 0) && match app with NoApp => true | _ => false end then mret None else
  p ← getP;
  let padding := initialPaddingLen (perspective p) (pl_frames initialPayload) size maxPacketSize in
  packet ← append_long initialHdr initialPayload padding EncryptionInitial v (mkCoalesced getPacketBuffer [] None);
  packet ← append_long handshakeHdr handshakePayload 0 EncryptionHandshake v packet;
  match app with
  | NoApp => mret (Some packet)
  | App0RTT h pl => packet ← append_long (Some h) pl 0 Encryption0RTT v packet; mret (Some packet)
  | App1RTT connID pn pnLen kp pl =>
      '(shp, b) ← appendShortHeaderPacket (buffer packet) connID pn pnLen kp pl 0 maxPacketSize false;
      mret (Some (mkCoalesced b (longHdrPackets packet) (Some shp)))
  end.

(** ** Closing the connection *)

(** The CONNECTION_CLOSE frame for a level: application errors are not sent in
    Initial and Handshake packets. *)
Definition close_frame (isApplicationError : bool) (errorCode frameType : Z) (reason : bytes) (l : EncryptionLevel) : ConnectionCloseFrame :=
  if isApplicationError && crypto_level l then mkConnectionCloseFrame false ApplicationErrorErrorCode frameType []
  else mkConnectionCloseFrame isApplicationError errorCode frameType reason.

(** What is sent at a level: a long or a short header packet. *)
Inductive close_part :=
| CloseLong (l : EncryptionLevel) (hdr : ExtendedHeader) (pl : payload)
| CloseShort (connID : ConnectionID) (pn pnLen : Z) (kp : KeyPhaseBit) (pl : payload).

(** The first loop: the parts, and their size. *)
Fixpoint close_parts (isApplicationError : bool) (errorCode frameType : Z) (reason : bytes) (v : Z) (ls : list EncryptionLevel) : M (list close_part * Z) :=
  match ls with
  | [] => mret ([], 0)
  | l :: ls =>
      p ← getP;
      part ← (if bool_decide (perspective p = PerspectiveServer) && match l with Encryption0RTT => true | _ => false end then mret None else
        let ccf := FConnectionClose (close_frame isApplicationError errorCode frameType reason l) in
        n ← st_lift (Length ccf);
        let pl := set_frames [mkFrame ccf None] n no_payload in
        err ← getSealer l;
        match err with
        | Some e => if bool_decide (e = ErrKeysNotYetAvailable ∨ e = ErrKeysDropped) then mret None else st_fail e
        | None =>
            match l with
            | Encryption1RTT =>
                kp ← onE KeyPhase;
                connID ← onE getDestConnID;
                '(pn, pnLen) ← onE (PeekPacketNumber Encryption1RTT);
                mret (Some (CloseShort connID pn pnLen kp pl, shortHeaderPacketLength connID pnLen pl))
            | _ =>
                hdr ← getLongHeader l v;
                n ← st_lift (longHeaderPacketLength hdr pl);
                e ← getE;
                mret (Some (CloseLong l hdr pl, n + Overhead l e))
            end
        end);
      '(parts, size) ← close_parts isApplicationError errorCode frameType reason v ls;
      mret (match part with Some (x, n) => (x :: parts, n + size) | None => (parts, size) end)
  end.

(** The second loop. *)
Fixpoint append_close (size maxPacketSize v : Z) (parts : list close_part) (packet : coalescedPacket) : M coalescedPacket :=
  match parts with
  | [] => mret packet
  | CloseShort connID pn pnLen kp pl :: parts =>
      '(shp, b) ← appendShortHeaderPacket (buffer packet) connID pn pnLen kp pl 0 maxPacketSize false;
      append_close size maxPacketSize v parts (mkCoalesced b (longHdrPackets packet) (Some shp))
  | CloseLong l hdr pl :: parts =>
      p ← getP;
      let padding := match l with
                     | EncryptionInitial => initialPaddingLen (perspective p) (pl_frames pl) size maxPacketSize
                     | _ => 0
                     end in
      '(lhp, b) ← appendLongHeaderPacket (buffer packet) hdr pl padding l v;
      append_close size maxPacketSize v parts (mkCoalesced b (longHdrPackets packet ++ [lhp]) (shortHdrPacket packet))
  end.

Definition packConnectionClose (isApplicationError : bool) (errorCode frameType : Z) (reason : bytes) (maxPacketSize v : Z) : M coalescedPacket :=
  '(parts, size) ← close_parts isApplicationError errorCode frameType reason v [EncryptionInitial; EncryptionHandshake; Encryption0RTT; Encryption1RTT];
  append_close size maxPacketSize v parts (mkCoalesced getPacketBuffer [] None).

(** Details of crypto errors are not sent. *)
Definition PackConnectionClose (errorCode frameType : Z) (message : bytes) (maxPacketSize v : Z) : M coalescedPacket :=
  packConnectionClose false errorCode frameType (if IsCryptoError errorCode then [] else message) maxPacketSize v.

Definition PackApplicationClose (errorCode : Z) (message : bytes) (maxPacketSize v : Z) : M coalescedPacket :=
  packConnectionClose true errorCode 0 message maxPacketSize v.

End packer.
End packer.
