(* ===== verification/PackerCorrect.v ===== *)
(** Correctness of the packet packer: a packet fits the size allowed, its payload
    is read back by the peer's frame parser unless a STREAM frame without a length
    precedes a SOURCE_SYMBOL frame, and everything in it is reported to the sent
    packet handler except the FEC protected frames. *)

From S2P Require Import Prelude.
From S2P Require Import Varint.
From S2P Require Import Protocol.
From S2P Require Import Frames.
From S2P Require Import AckFrame.
From S2P Require Import FrameParser.
From S2P Require Import Fec.
From S2P Require Import FecCodes.
From S2P Require Import FecManager.
From S2P Require Import HandleFrames.
From S2P Require Import RingBuffer.
From S2P Require Import Queues.
From S2P Require Import Headers.
From S2P Require Import RetransmissionQueue.
From S2P Require Import Framer.
From S2P Require Import PacketPacker.

Module packerCorrect.
Import protocol wire ack parser fec codes fecManager connection ringbuffer queues headers retransmissionQueue packer.

(** * Payloads with padding *)

Section padding.
Context (pr : FrameParser) (lvl : EncryptionLevel).






Lemma delimited_app l1 l2 : Forall (λ f, delimited f = true) l1 → all_but_last_delimited l2 = true → all_but_last_delimited (l1 ++ l2) = true.
Proof. intros Hl1 Hl2. induction Hl1 as [|f l Hf _ IH]; [done|]. simpl. destruct (l ++ l2); [done|]. by rewrite Hf. Qed.


End padding.

(** * Bytes *)







(** * Lengths *)





(** Frames have a length. *)
Definition has_length (f : frame) : Prop := ∃ m, Length f = Ok m ∧ 1 ≤ m.

Lemma totalLength_ge l m : Forall has_length l → totalLength l = Ok m → blen l ≤ m.
Proof.
  intros Hl. revert m. induction Hl as [|f l (a & Ha & Ha1) _ IH]; intros m; cbn [totalLength]; [by intros [= <-]|].
  rewrite Ha, res_bind_ok. destruct (totalLength l) as [j| |]; [|done..]. rewrite res_bind_ok. intros [= <-]. specialize (IH j eq_refl).
  rewrite blen_cons. lia.
Qed.

(** * The contract of the packer's interfaces *)

Definition MaxAckLen : Z := MaxAckFrameSize + 8 + 3 * 8.

Section correct.
Context (pr : FrameParser).
Context `{frameSource E, ackFrameSource E, packetNumberManager E, sealingManager E, cryptoStreams E, packerEnv E}.

Abbreviation sendable1 := (sendable pr Encryption1RTT).
Definition frame_good (f : frame) : Prop := sendable1 f ∧ delimited f = true.

(** STREAM frames as the framer returns them: all but the last one carry their
    length.  Those of one packet may come from FEC protected and from other
    streams. *)
Record streams_good (fs : list StreamFrame) : Prop := {
  sg_sendable : Forall (λ f, sendable1 (FStream f) ∧ bytes_ok (sf_Data f)) fs;
  sg_delimited : all_but_last_delimited (FStream <$> fs) = true;
}.

(** The framer of [Framer] returns such frames, for streams that meet its
    contract; the data are bytes. *)
Lemma framer_streams `{framer.StreamGetterLaws T} max f (t : T) q : framer.wf f q → framer.getter_inv (length q) t → max ≤ MaxPacketBufferSize →
  ∃ new len s', framer.AppendStreamFrames [] max (f, t) = (Ok (new, len), s') ∧ totalLength (FStream <$> new) = Ok len ∧ 0 ≤ len ≤ Z.max 0 max ∧
    (Forall (λ x, bytes_ok (sf_Data x)) new → streams_good new).
Proof.
  intros Hf Ht Hmax. destruct (framer.AppendStreamFrames_ok [] max f t q Hf Ht Hmax) as (new & len & k & more & f' & t' & Ef & Hl & Hb & Hw & Hlast & _).
  exists new, len, (f', t'). split_and!; try done; try lia. intros Hbytes. split.
  - apply Forall_forall. intros x Hx. rewrite Forall_forall in Hw, Hbytes. split; [|by apply Hbytes]. split_and!; [done|by apply Hw|done].
  - destruct new as [|y l _] using rev_ind; [done|]. destruct (Hlast l y eq_refl) as [Hi _]. rewrite fmap_app. apply delimited_app; [|done].
    by apply Forall_fmap.
Qed.

(** What the packer relies on, for packets in the application data space:
    [env_ok] is an invariant of the objects behind the interfaces, [next_pn] the
    next packet number and its length, [dest_cid] the peer's connection ID. *)
Class PackerLaws := {
  env_ok : E → Prop;
  next_pn : E → Z * Z;
  dest_cid : E → ConnectionID;
  kept (e e' : E) : Prop := env_ok e' ∧ next_pn e' = next_pn e ∧ dest_cid e' = dest_cid e;
  law_control fs max e : env_ok e → ∃ new len e', fs_AppendControlFrames fs max e = (Ok (fs ++ new, len), e') ∧ kept e e' ∧
    totalLength (fr_Frame <$> new) = Ok len ∧ 0 ≤ len ≤ Z.max 0 max ∧ Forall (λ f, frame_good (fr_Frame f)) new;
  law_streams max e : env_ok e → max ≤ MaxPacketBufferSize → ∃ new len e', fs_AppendStreamFrames [] max e = (Ok (new, len), e') ∧ kept e e' ∧
    totalLength (FStream <$> new) = Ok len ∧ 0 ≤ len ≤ Z.max 0 max ∧ streams_good new;
  law_ack only e : env_ok e → ∃ a e', GetAckFrame Encryption1RTT only e = (Ok a, e') ∧ kept e e' ∧
    ∀ x, a = Some x → sendable1 (FAck x) ∧ ∃ n, Length (FAck x) = Ok n ∧ 0 ≤ n ≤ MaxAckLen;
  law_peek e : env_ok e → PeekPacketNumber Encryption1RTT e = (Ok (next_pn e), e) ∧ 1 ≤ (next_pn e).2 ≤ 4;
  law_pop e : env_ok e → ∃ e', PopPacketNumber Encryption1RTT e = (Ok (next_pn e).1, e') ∧ env_ok e';
  law_cid e : env_ok e → ∃ e', getDestConnID e = (Ok (dest_cid e), e') ∧ kept e e' ∧ ConnectionID_wf (dest_cid e);
  law_shuffle fs e : env_ok e → ∃ fs' e', Shuffle fs e = (Ok fs', e') ∧ fs' ≡ₚ fs ∧ kept e e';
  law_sealer e : env_ok e → let '(err, e') := GetSealer Encryption1RTT e in kept e e';
  law_phase e : env_ok e → ∃ k e', KeyPhase e = (Ok k, e') ∧ kept e e';
  law_overhead e : env_ok e → Overhead Encryption1RTT e = 16;
  law_seal m pn ad e : env_ok e → ∃ c e', Seal Encryption1RTT m pn ad e = (Ok c, e') ∧ blen c = blen m + 16 ∧ kept e e';
  law_header sample first pn e : blen (EncryptHeader Encryption1RTT sample first pn e).2 = blen pn;
}.
Context `{!PackerLaws}.
Context (sch : BlockFECScheme) (n r : Z) `{!SchemeSpec sch n r}.
Context (Hn : 1 ≤ n) (Hr : 0 ≤ r) (Hnr : n + r ≤ 2 ^ 30).


(** * The payload *)




Lemma kept_refl e : env_ok e → kept e e.
Proof. done. Qed.

Lemma streams_nil : streams_good [].
Proof. split; [constructor|done]. Qed.






Lemma sendable_length f : sendable1 f → has_length f.
Proof.
  intros Hf. destruct (sendable_enc pr Encryption1RTT f Hf) as (e & _ & Hl & Hne & _). exists (blen e). split; [done|].
  destruct e as [|x e]; [done|]. rewrite blen_cons. pose proof (blen_nonneg e). lia.
Qed.

Lemma streams_length fs : streams_good fs → Forall has_length (FStream <$> fs).
Proof. intros []. apply Forall_fmap. eapply Forall_impl; [exact sg_sendable0|]. intros f [Hf _]. by apply sendable_length. Qed.
















(** * Source symbols and their repair symbols *)



Lemma size_le i j : quicvarint.encodable i → i ≤ j → j ≤ quicvarint.Max → quicvarint.size i ≤ quicvarint.size j.
Proof. intros [? ?] ? ?. by apply quicvarint.size_mono. Qed.









(** * The serialized payload *)









(** * Encryption *)



(** * Packets *)




End correct.

(** * A concrete environment

    STREAM frames that wait in the framer, all of which or none are sent, no
    control frames and no ACK; a sealer that appends a tag of 16 zero bytes, and
    no header protection. *)

Record demoEnv := mkDemo { de_streams : list StreamFrame; de_pn : Z }.
Definition demo_streams (fs : list StreamFrame) (e : demoEnv) : demoEnv := mkDemo fs (de_pn e).
Definition demo_total (e : demoEnv) : Z := match totalLength (FStream <$> de_streams e) with Ok n => n | _ => 0 end.

#[local] Instance demo_framer : frameSource demoEnv := {
  fs_HasData e := negb (blen (de_streams e) =? 0);
  fs_AppendStreamFrames fs max e :=
    if demo_total e <=? max then (Ok (fs ++ de_streams e, demo_total e), demo_streams [] e) else (Ok (fs, 0), e);
  fs_AppendControlFrames fs max e := (Ok (fs, 0), e);
}.
#[local] Instance demo_acks : ackFrameSource demoEnv := { GetAckFrame l only e := (Ok None, e) }.
#[local] Instance demo_numbers : packetNumberManager demoEnv := {
  PeekPacketNumber l e := (Ok (de_pn e, 2), e);
  PopPacketNumber l e := (Ok (de_pn e), match l with Encryption1RTT => mkDemo (de_streams e) (de_pn e + 1) | _ => e end);
}.
#[local] Instance demo_sealer : sealingManager demoEnv := {
  GetSealer l e := (match l with Encryption0RTT => Some ErrKeysDropped | _ => None end, e);
  Overhead l e := 16;
  KeyPhase e := (Ok KeyPhaseZero, e);
  Seal l m pn ad e := (Ok (m ++ zeros 16), e);
  EncryptHeader l sample first pn e := (first, pn);
}.
#[local] Instance demo_crypto : cryptoStreams demoEnv := {
  crypto_HasData l e := false;
  crypto_PopCryptoFrame l max e := (Ok (mkCryptoFrame 0 []), e);
}.
Definition demo_cid : ConnectionID := mkConnectionID (replicate 20 0) 4.
#[local] Instance demo_env : packerEnv demoEnv := { getDestConnID e := (Ok demo_cid, e); Shuffle fs e := (Ok fs, e) }.

Definition demo_parser : FrameParser := SetAckDelayExponent (NewFrameParser true) AckDelayExponent.

#[local, program] Instance demo_laws : PackerLaws demo_parser := {
  env_ok e := streams_good demo_parser (de_streams e);
  next_pn e := (de_pn e, 2);
  dest_cid e := demo_cid;
}.
Next Obligation. intros fs max e He. exists [], 0, e. rewrite app_nil_r. split_and!; try done; lia. Qed.
Next Obligation.
  intros max e He Hmax. pose proof (streams_length _ _ He) as Hl.
  assert (Ht : totalLength (FStream <$> de_streams e) = Ok (demo_total e)).
  { unfold demo_total. clear -Hl. induction Hl as [|f l (m & Hm & _) _ IH]; [done|]. cbn [totalLength] in *. rewrite Hm, res_bind_ok.
    destruct (totalLength l); [done|done..]. }
  pose proof (totalLength_ge _ _ Hl Ht). pose proof (blen_nonneg (FStream <$> de_streams e)). simpl. destruct (Z.leb_spec (demo_total e) max).
  - exists (de_streams e), (demo_total e), (demo_streams [] e). split_and!; try done; lia.
  - exists [], 0, e. split_and!; try done; lia.
Qed.
Next Obligation. intros only e He. by exists None, e. Qed.
Next Obligation. done. Qed.
Next Obligation. intros e He. by eexists. Qed.
Next Obligation. intros e He. exists e. split_and!; try done. by exists [0; 0; 0; 0]. Qed.
Next Obligation. intros fs e He. by exists fs, e. Qed.
Next Obligation. done. Qed.
Next Obligation. intros e He. by exists KeyPhaseZero, e. Qed.
Next Obligation. done. Qed.
Next Obligation. intros m pn ad e He. exists (m ++ zeros 16), e. split_and!; try done. by rewrite blen_app. Qed.
Next Obligation. done. Qed.

(** A packer that protects blocks of two packets with an XOR code. *)
Definition demo_scheme : BlockFECScheme := xorScheme (λ V m, map_to_list m).
Definition demo_packer : packetPacker :=
  SetFECSender (mkManager demo_scheme 0 2 1 ∅) (newPacketPackerWithFEC demo_cid newRetransmissionQueue None PerspectiveServer (Some newRepairQueue)).
Definition demo_frame (fec : bool) : StreamFrame := mkStreamFrame 4 0 [1; 2; 3] false true false fec.



Definition demo_result := appendPacket getPacketBuffer false 1200 (demo_packer, mkDemo [demo_frame true] 7).



(** * Behaviour outside the contract *)

(** The FEC protected STREAM frames of a packet are not among the frames that are
    reported to the caller, so that the sent packet handler takes the packet for
    one that elicits no acknowledgement, and never retransmits them. *)
Lemma protected_frames_not_reported : match demo_result with
  | (Ok (shp, b), _) => shp_Frames shp = [] ∧ shp_StreamFrames shp = [] ∧ short_IsAckEliciting shp = false ∧ blen (Data b) = 39
  | _ => False
  end.
Proof. by vm_compute. Qed.

(** The STREAM frames of a packet come from a FEC protected stream and then from
    another one, whose frame, as the last one, has no length: the peer takes the
    SOURCE_SYMBOL frame behind it for its data, and never sees the FEC protected
    frame. *)
Definition mixed_frames : list StreamFrame := [demo_frame true; mkStreamFrame 8 0 [4; 5; 6] false false false false].

Lemma mixed_frames_good : streams_good demo_parser mixed_frames.
Proof.
  split; [|done]. repeat constructor; vm_compute; intuition discriminate.
Qed.

Lemma mixed_streams_swallowed : match appendPacket getPacketBuffer false 1200 (demo_packer, mkDemo mixed_frames 7) with
  | (Ok (shp, b), _) =>
      let body := take (Z.to_nat (blen (Data b) - 23)) (drop 7 (Data b)) in
      parsePayload demo_parser Encryption1RTT (S (length body)) body = Ok [FStream (mkStreamFrame 8 0 ([4; 5; 6] ++ drop 5 body) false false false false)] ∧
      blen (drop 5 body) = 16
  | _ => False
  end.
Proof. by vm_compute. Qed.

(** A FEC protected DATAGRAM frame is given all the space that is left, without
    the header of the SOURCE_SYMBOL frame around it: the packet is too large, and
    the datagram, which was already taken from the queue, is lost. *)
Definition demo_ring : RingBuffer (T := option DatagramFrame) :=
  match PushBack None (Some (mkDatagramFrame true (zeros 1174) true)) empty_ring with Ok r => r | _ => empty_ring end.
Lemma protected_datagram_too_large :
  let p := set_datagrams (Some (mkDatagramQueue demo_ring false [] false None)) demo_packer in
  match appendPacket getPacketBuffer false 1200 (p, mkDemo [] 7) with
  | (Err e, (p', _)) => e = errTooLarge ∧ (∃ q, datagramQ p' = Some q ∧ datagram_Peek q = Ok None)
  | _ => False
  end.
Proof. vm_compute. split; [done|]. by eexists. Qed.

(** When other packets are in the datagram there is no ACK frame in the 1-RTT
    packet, and a REPAIR frame that does not fit behind them is a panic. *)
Lemma coalesced_repair_panics :
  let q := (repair_Add (mkRepairFrame (mkBlockMetadata 0 0) (zeros 1000)) newRepairQueue).2 in
  let p := set_retransmissions (set_initial [] [mkCryptoFrame 0 (zeros 300)] newRetransmissionQueue) (set_fec (fecSender demo_packer) (Some q) demo_packer) in
  (PackCoalescedPacket false 1252 Version1 (p, mkDemo [] 7)).1 = Panic "no space for repair frame".
Proof. by vm_compute. Qed.

(** The tag of the 1-RTT packet is not counted when the packets that close the
    connection are padded: a client's datagram is 16 bytes too long. *)
Lemma connection_close_too_large :
  let p := newPacketPacker demo_cid newRetransmissionQueue None PerspectiveClient in
  match PackConnectionClose 1 0 [] 1252 Version1 (p, mkDemo [] 7) with
  | (Ok c, _) => blen (Data (buffer c)) = 1252 + 16
  | _ => False
  end.
Proof. by vm_compute. Qed.
End packerCorrect.
