(* ===== verification/TransportParameters.v ===== *)
(** Transport parameters (internal/wire/transport_parameters.go): how they are
    written for the handshake and for session tickets, and read back; every
    parameter is read at most once, within its limits. *)

From stdpp Require Import sorting.
From S2P Require Import Prelude.
From S2P Require Import Varint.
From S2P Require Import Protocol.
From S2P Require Import Headers.

Module transportParameters.
Import protocol headers.

(** * Constants *)

Definition Millisecond : Z := 1000000.
Definition MinRemoteIdleTimeout : Z := 5000 * Millisecond.
Definition DefaultActiveConnectionIDLimit : Z := 2.
Definition MaxAckDelayExponent : Z := 20.
Definition DefaultMaxAckDelay : Z := 25 * Millisecond.
Definition MaxMaxAckDelay : Z := (2 ^ 14 - 1) * Millisecond.
Definition transportParameterMarshalingVersion : Z := 1.

Definition originalDestinationConnectionIDParameterID : Z := 0x0.
Definition maxIdleTimeoutParameterID : Z := 0x1.
Definition statelessResetTokenParameterID : Z := 0x2.
Definition maxUDPPayloadSizeParameterID : Z := 0x3.
Definition initialMaxDataParameterID : Z := 0x4.
Definition initialMaxStreamDataBidiLocalParameterID : Z := 0x5.
Definition initialMaxStreamDataBidiRemoteParameterID : Z := 0x6.
Definition initialMaxStreamDataUniParameterID : Z := 0x7.
Definition initialMaxStreamsBidiParameterID : Z := 0x8.
Definition initialMaxStreamsUniParameterID : Z := 0x9.
Definition ackDelayExponentParameterID : Z := 0xa.
Definition maxAckDelayParameterID : Z := 0xb.
Definition disableActiveMigrationParameterID : Z := 0xc.
Definition preferredAddressParameterID : Z := 0xd.
Definition activeConnectionIDLimitParameterID : Z := 0xe.
Definition initialSourceConnectionIDParameterID : Z := 0xf.
Definition retrySourceConnectionIDParameterID : Z := 0x10.
Definition maxDatagramFrameSizeParameterID : Z := 0x20.
Definition fecEnableParameterID : Z := 0x238ffece01.
Definition fecDecoderSchemeParameterID : Z := 0x238ffecd.

(** * Data *)

(** [netip.Addr]: the zero address, four or sixteen bytes; [netip.AddrPort]. *)
Inductive Addr := AddrZero | AddrFrom4 (b : bytes) | AddrFrom16 (b : bytes).
Record AddrPort := AddrPortFrom { ap_Addr : Addr; ap_Port : Z }.

(** [As4] panics unless the address is an IPv4 address, possibly mapped to IPv6. *)
Definition mapped_prefix : bytes := replicate 10 0 ++ [255; 255].
Definition As4 (a : Addr) : res bytes :=
  match a with
  | AddrFrom4 b => Ok b
  | AddrFrom16 b => if bool_decide (take 12 b = mapped_prefix) then Ok (drop 12 b) else Panic "As4 called on IPv6 address"
  | AddrZero => Panic "As4 called on IP zero value"
  end.
Definition As16 (a : Addr) : bytes :=
  match a with AddrFrom16 b => b | AddrFrom4 b => mapped_prefix ++ b | AddrZero => replicate 16 0 end.

Record PreferredAddress := mkPreferredAddress {
  IPv4 : AddrPort;
  IPv6 : AddrPort;
  pa_ConnectionID : ConnectionID;
  pa_StatelessResetToken : bytes;   (* [16]byte *)
}.

(** Durations are in nanoseconds. *)
Record TransportParameters := mkTP {
  InitialMaxStreamDataBidiLocal : Z;
  InitialMaxStreamDataBidiRemote : Z;
  InitialMaxStreamDataUni : Z;
  InitialMaxData : Z;
  MaxAckDelay : Z;
  tp_AckDelayExponent : Z;
  DisableActiveMigration : bool;
  MaxUDPPayloadSize : Z;
  MaxUniStreamNum : Z;
  MaxBidiStreamNum : Z;
  MaxIdleTimeout : Z;
  tp_PreferredAddress : option PreferredAddress;
  OriginalDestinationConnectionID : ConnectionID;
  InitialSourceConnectionID : ConnectionID;
  RetrySourceConnectionID : option ConnectionID;
  tp_StatelessResetToken : option bytes;
  ActiveConnectionIDLimit : Z;
  MaxDatagramFrameSize : Z;
  EnableFEC : Z;
  DecoderFECScheme : Z;
}.

(** [&TransportParameters{}] *)
Definition noTransportParameters : TransportParameters :=
  mkTP 0 0 0 0 0 0 false 0 0 0 0 None ConnectionID_zero ConnectionID_zero None None 0 0 0 0.

Definition set_InitialMaxStreamDataBidiLocal (v : Z) (p : TransportParameters) : TransportParameters :=
  mkTP v (InitialMaxStreamDataBidiRemote p) (InitialMaxStreamDataUni p) (InitialMaxData p) (MaxAckDelay p) (tp_AckDelayExponent p) (DisableActiveMigration p) (MaxUDPPayloadSize p) (MaxUniStreamNum p) (MaxBidiStreamNum p) (MaxIdleTimeout p) (tp_PreferredAddress p) (OriginalDestinationConnectionID p) (InitialSourceConnectionID p) (RetrySourceConnectionID p) (tp_StatelessResetToken p) (ActiveConnectionIDLimit p) (MaxDatagramFrameSize p) (EnableFEC p) (DecoderFECScheme p).
Definition set_InitialMaxStreamDataBidiRemote (v : Z) (p : TransportParameters) : TransportParameters :=
  mkTP (InitialMaxStreamDataBidiLocal p) v (InitialMaxStreamDataUni p) (InitialMaxData p) (MaxAckDelay p) (tp_AckDelayExponent p) (DisableActiveMigration p) (MaxUDPPayloadSize p) (MaxUniStreamNum p) (MaxBidiStreamNum p) (MaxIdleTimeout p) (tp_PreferredAddress p) (OriginalDestinationConnectionID p) (InitialSourceConnectionID p) (RetrySourceConnectionID p) (tp_StatelessResetToken p) (ActiveConnectionIDLimit p) (MaxDatagramFrameSize p) (EnableFEC p) (DecoderFECScheme p).
Definition set_InitialMaxStreamDataUni (v : Z) (p : TransportParameters) : TransportParameters :=
  mkTP (InitialMaxStreamDataBidiLocal p) (InitialMaxStreamDataBidiRemote p) v (InitialMaxData p) (MaxAckDelay p) (tp_AckDelayExponent p) (DisableActiveMigration p) (MaxUDPPayloadSize p) (MaxUniStreamNum p) (MaxBidiStreamNum p) (MaxIdleTimeout p) (tp_PreferredAddress p) (OriginalDestinationConnectionID p) (InitialSourceConnectionID p) (RetrySourceConnectionID p) (tp_StatelessResetToken p) (ActiveConnectionIDLimit p) (MaxDatagramFrameSize p) (EnableFEC p) (DecoderFECScheme p).
Definition set_InitialMaxData (v : Z) (p : TransportParameters) : TransportParameters :=
  mkTP (InitialMaxStreamDataBidiLocal p) (InitialMaxStreamDataBidiRemote p) (InitialMaxStreamDataUni p) v (MaxAckDelay p) (tp_AckDelayExponent p) (DisableActiveMigration p) (MaxUDPPayloadSize p) (MaxUniStreamNum p) (MaxBidiStreamNum p) (MaxIdleTimeout p) (tp_PreferredAddress p) (OriginalDestinationConnectionID p) (InitialSourceConnectionID p) (RetrySourceConnectionID p) (tp_StatelessResetToken p) (ActiveConnectionIDLimit p) (MaxDatagramFrameSize p) (EnableFEC p) (DecoderFECScheme p).
Definition set_MaxAckDelay (v : Z) (p : TransportParameters) : TransportParameters :=
  mkTP (InitialMaxStreamDataBidiLocal p) (InitialMaxStreamDataBidiRemote p) (InitialMaxStreamDataUni p) (InitialMaxData p) v (tp_AckDelayExponent p) (DisableActiveMigration p) (MaxUDPPayloadSize p) (MaxUniStreamNum p) (MaxBidiStreamNum p) (MaxIdleTimeout p) (tp_PreferredAddress p) (OriginalDestinationConnectionID p) (InitialSourceConnectionID p) (RetrySourceConnectionID p) (tp_StatelessResetToken p) (ActiveConnectionIDLimit p) (MaxDatagramFrameSize p) (EnableFEC p) (DecoderFECScheme p).
Definition set_AckDelayExponent (v : Z) (p : TransportParameters) : TransportParameters :=
  mkTP (InitialMaxStreamDataBidiLocal p) (InitialMaxStreamDataBidiRemote p) (InitialMaxStreamDataUni p) (InitialMaxData p) (MaxAckDelay p) v (DisableActiveMigration p) (MaxUDPPayloadSize p) (MaxUniStreamNum p) (MaxBidiStreamNum p) (MaxIdleTimeout p) (tp_PreferredAddress p) (OriginalDestinationConnectionID p) (InitialSourceConnectionID p) (RetrySourceConnectionID p) (tp_StatelessResetToken p) (ActiveConnectionIDLimit p) (MaxDatagramFrameSize p) (EnableFEC p) (DecoderFECScheme p).
Definition set_DisableActiveMigration (v : bool) (p : TransportParameters) : TransportParameters :=
  mkTP (InitialMaxStreamDataBidiLocal p) (InitialMaxStreamDataBidiRemote p) (InitialMaxStreamDataUni p) (InitialMaxData p) (MaxAckDelay p) (tp_AckDelayExponent p) v (MaxUDPPayloadSize p) (MaxUniStreamNum p) (MaxBidiStreamNum p) (MaxIdleTimeout p) (tp_PreferredAddress p) (OriginalDestinationConnectionID p) (InitialSourceConnectionID p) (RetrySourceConnectionID p) (tp_StatelessResetToken p) (ActiveConnectionIDLimit p) (MaxDatagramFrameSize p) (EnableFEC p) (DecoderFECScheme p).
Definition set_MaxUDPPayloadSize (v : Z) (p : TransportParameters) : TransportParameters :=
  mkTP (InitialMaxStreamDataBidiLocal p) (InitialMaxStreamDataBidiRemote p) (InitialMaxStreamDataUni p) (InitialMaxData p) (MaxAckDelay p) (tp_AckDelayExponent p) (DisableActiveMigration p) v (MaxUniStreamNum p) (MaxBidiStreamNum p) (MaxIdleTimeout p) (tp_PreferredAddress p) (OriginalDestinationConnectionID p) (InitialSourceConnectionID p) (RetrySourceConnectionID p) (tp_StatelessResetToken p) (ActiveConnectionIDLimit p) (MaxDatagramFrameSize p) (EnableFEC p) (DecoderFECScheme p).
Definition set_MaxUniStreamNum (v : Z) (p : TransportParameters) : TransportParameters :=
  mkTP (InitialMaxStreamDataBidiLocal p) (InitialMaxStreamDataBidiRemote p) (InitialMaxStreamDataUni p) (InitialMaxData p) (MaxAckDelay p) (tp_AckDelayExponent p) (DisableActiveMigration p) (MaxUDPPayloadSize p) v (MaxBidiStreamNum p) (MaxIdleTimeout p) (tp_PreferredAddress p) (OriginalDestinationConnectionID p) (InitialSourceConnectionID p) (RetrySourceConnectionID p) (tp_StatelessResetToken p) (ActiveConnectionIDLimit p) (MaxDatagramFrameSize p) (EnableFEC p) (DecoderFECScheme p).
Definition set_MaxBidiStreamNum (v : Z) (p : TransportParameters) : TransportParameters :=
  mkTP (InitialMaxStreamDataBidiLocal p) (InitialMaxStreamDataBidiRemote p) (InitialMaxStreamDataUni p) (InitialMaxData p) (MaxAckDelay p) (tp_AckDelayExponent p) (DisableActiveMigration p) (MaxUDPPayloadSize p) (MaxUniStreamNum p) v (MaxIdleTimeout p) (tp_PreferredAddress p) (OriginalDestinationConnectionID p) (InitialSourceConnectionID p) (RetrySourceConnectionID p) (tp_StatelessResetToken p) (ActiveConnectionIDLimit p) (MaxDatagramFrameSize p) (EnableFEC p) (DecoderFECScheme p).
Definition set_MaxIdleTimeout (v : Z) (p : TransportParameters) : TransportParameters :=
  mkTP (InitialMaxStreamDataBidiLocal p) (InitialMaxStreamDataBidiRemote p) (InitialMaxStreamDataUni p) (InitialMaxData p) (MaxAckDelay p) (tp_AckDelayExponent p) (DisableActiveMigration p) (MaxUDPPayloadSize p) (MaxUniStreamNum p) (MaxBidiStreamNum p) v (tp_PreferredAddress p) (OriginalDestinationConnectionID p) (InitialSourceConnectionID p) (RetrySourceConnectionID p) (tp_StatelessResetToken p) (ActiveConnectionIDLimit p) (MaxDatagramFrameSize p) (EnableFEC p) (DecoderFECScheme p).
Definition set_PreferredAddress (v : option PreferredAddress) (p : TransportParameters) : TransportParameters :=
  mkTP (InitialMaxStreamDataBidiLocal p) (InitialMaxStreamDataBidiRemote p) (InitialMaxStreamDataUni p) (InitialMaxData p) (MaxAckDelay p) (tp_AckDelayExponent p) (DisableActiveMigration p) (MaxUDPPayloadSize p) (MaxUniStreamNum p) (MaxBidiStreamNum p) (MaxIdleTimeout p) v (OriginalDestinationConnectionID p) (InitialSourceConnectionID p) (RetrySourceConnectionID p) (tp_StatelessResetToken p) (ActiveConnectionIDLimit p) (MaxDatagramFrameSize p) (EnableFEC p) (DecoderFECScheme p).
Definition set_OriginalDestinationConnectionID (v : ConnectionID) (p : TransportParameters) : TransportParameters :=
  mkTP (InitialMaxStreamDataBidiLocal p) (InitialMaxStreamDataBidiRemote p) (InitialMaxStreamDataUni p) (InitialMaxData p) (MaxAckDelay p) (tp_AckDelayExponent p) (DisableActiveMigration p) (MaxUDPPayloadSize p) (MaxUniStreamNum p) (MaxBidiStreamNum p) (MaxIdleTimeout p) (tp_PreferredAddress p) v (InitialSourceConnectionID p) (RetrySourceConnectionID p) (tp_StatelessResetToken p) (ActiveConnectionIDLimit p) (MaxDatagramFrameSize p) (EnableFEC p) (DecoderFECScheme p).
Definition set_InitialSourceConnectionID (v : ConnectionID) (p : TransportParameters) : TransportParameters :=
  mkTP (InitialMaxStreamDataBidiLocal p) (InitialMaxStreamDataBidiRemote p) (InitialMaxStreamDataUni p) (InitialMaxData p) (MaxAckDelay p) (tp_AckDelayExponent p) (DisableActiveMigration p) (MaxUDPPayloadSize p) (MaxUniStreamNum p) (MaxBidiStreamNum p) (MaxIdleTimeout p) (tp_PreferredAddress p) (OriginalDestinationConnectionID p) v (RetrySourceConnectionID p) (tp_StatelessResetToken p) (ActiveConnectionIDLimit p) (MaxDatagramFrameSize p) (EnableFEC p) (DecoderFECScheme p).
Definition set_RetrySourceConnectionID (v : option ConnectionID) (p : TransportParameters) : TransportParameters :=
  mkTP (InitialMaxStreamDataBidiLocal p) (InitialMaxStreamDataBidiRemote p) (InitialMaxStreamDataUni p) (InitialMaxData p) (MaxAckDelay p) (tp_AckDelayExponent p) (DisableActiveMigration p) (MaxUDPPayloadSize p) (MaxUniStreamNum p) (MaxBidiStreamNum p) (MaxIdleTimeout p) (tp_PreferredAddress p) (OriginalDestinationConnectionID p) (InitialSourceConnectionID p) v (tp_StatelessResetToken p) (ActiveConnectionIDLimit p) (MaxDatagramFrameSize p) (EnableFEC p) (DecoderFECScheme p).
Definition set_StatelessResetToken (v : option bytes) (p : TransportParameters) : TransportParameters :=
  mkTP (InitialMaxStreamDataBidiLocal p) (InitialMaxStreamDataBidiRemote p) (InitialMaxStreamDataUni p) (InitialMaxData p) (MaxAckDelay p) (tp_AckDelayExponent p) (DisableActiveMigration p) (MaxUDPPayloadSize p) (MaxUniStreamNum p) (MaxBidiStreamNum p) (MaxIdleTimeout p) (tp_PreferredAddress p) (OriginalDestinationConnectionID p) (InitialSourceConnectionID p) (RetrySourceConnectionID p) v (ActiveConnectionIDLimit p) (MaxDatagramFrameSize p) (EnableFEC p) (DecoderFECScheme p).
Definition set_ActiveConnectionIDLimit (v : Z) (p : TransportParameters) : TransportParameters :=
  mkTP (InitialMaxStreamDataBidiLocal p) (InitialMaxStreamDataBidiRemote p) (InitialMaxStreamDataUni p) (InitialMaxData p) (MaxAckDelay p) (tp_AckDelayExponent p) (DisableActiveMigration p) (MaxUDPPayloadSize p) (MaxUniStreamNum p) (MaxBidiStreamNum p) (MaxIdleTimeout p) (tp_PreferredAddress p) (OriginalDestinationConnectionID p) (InitialSourceConnectionID p) (RetrySourceConnectionID p) (tp_StatelessResetToken p) v (MaxDatagramFrameSize p) (EnableFEC p) (DecoderFECScheme p).
Definition set_MaxDatagramFrameSize (v : Z) (p : TransportParameters) : TransportParameters :=
  mkTP (InitialMaxStreamDataBidiLocal p) (InitialMaxStreamDataBidiRemote p) (InitialMaxStreamDataUni p) (InitialMaxData p) (MaxAckDelay p) (tp_AckDelayExponent p) (DisableActiveMigration p) (MaxUDPPayloadSize p) (MaxUniStreamNum p) (MaxBidiStreamNum p) (MaxIdleTimeout p) (tp_PreferredAddress p) (OriginalDestinationConnectionID p) (InitialSourceConnectionID p) (RetrySourceConnectionID p) (tp_StatelessResetToken p) (ActiveConnectionIDLimit p) v (EnableFEC p) (DecoderFECScheme p).
Definition set_EnableFEC (v : Z) (p : TransportParameters) : TransportParameters :=
  mkTP (InitialMaxStreamDataBidiLocal p) (InitialMaxStreamDataBidiRemote p) (InitialMaxStreamDataUni p) (InitialMaxData p) (MaxAckDelay p) (tp_AckDelayExponent p) (DisableActiveMigration p) (MaxUDPPayloadSize p) (MaxUniStreamNum p) (MaxBidiStreamNum p) (MaxIdleTimeout p) (tp_PreferredAddress p) (OriginalDestinationConnectionID p) (InitialSourceConnectionID p) (RetrySourceConnectionID p) (tp_StatelessResetToken p) (ActiveConnectionIDLimit p) (MaxDatagramFrameSize p) v (DecoderFECScheme p).
Definition set_DecoderFECScheme (v : Z) (p : TransportParameters) : TransportParameters :=
  mkTP (InitialMaxStreamDataBidiLocal p) (InitialMaxStreamDataBidiRemote p) (InitialMaxStreamDataUni p) (InitialMaxData p) (MaxAckDelay p) (tp_AckDelayExponent p) (DisableActiveMigration p) (MaxUDPPayloadSize p) (MaxUniStreamNum p) (MaxBidiStreamNum p) (MaxIdleTimeout p) (tp_PreferredAddress p) (OriginalDestinationConnectionID p) (InitialSourceConnectionID p) (RetrySourceConnectionID p) (tp_StatelessResetToken p) (ActiveConnectionIDLimit p) (MaxDatagramFrameSize p) (EnableFEC p) v.

(** * Reading *)

(** The switch over the numeric parameters, for the value [val]. *)
Definition numericParameter (paramID val : Z) (p : TransportParameters) : res TransportParameters :=
  if paramID =? initialMaxStreamDataBidiLocalParameterID then Ok (set_InitialMaxStreamDataBidiLocal (i64 val) p) else
  if paramID =? initialMaxStreamDataBidiRemoteParameterID then Ok (set_InitialMaxStreamDataBidiRemote (i64 val) p) else
  if paramID =? initialMaxStreamDataUniParameterID then Ok (set_InitialMaxStreamDataUni (i64 val) p) else
  if paramID =? initialMaxDataParameterID then Ok (set_InitialMaxData (i64 val) p) else
  if paramID =? initialMaxStreamsBidiParameterID then
    if MaxStreamCount <? i64 val then Err (ErrMsg "initial_max_streams_bidi too large") else Ok (set_MaxBidiStreamNum (i64 val) p) else
  if paramID =? initialMaxStreamsUniParameterID then
    if MaxStreamCount <? i64 val then Err (ErrMsg "initial_max_streams_uni too large") else Ok (set_MaxUniStreamNum (i64 val) p) else
  if paramID =? maxIdleTimeoutParameterID then Ok (set_MaxIdleTimeout (Z.max MinRemoteIdleTimeout (i64 (i64 val * Millisecond))) p) else
  if paramID =? maxUDPPayloadSizeParameterID then
    if val <? 1200 then Err (ErrMsg "invalid value for max_packet_size") else Ok (set_MaxUDPPayloadSize (i64 val) p) else
  if paramID =? ackDelayExponentParameterID then
    if MaxAckDelayExponent <? val then Err (ErrMsg "invalid value for ack_delay_exponent") else Ok (set_AckDelayExponent (u8 val) p) else
  if paramID =? maxAckDelayParameterID then
    if MaxMaxAckDelay / Millisecond <? val then Err (ErrMsg "invalid value for max_ack_delay") else Ok (set_MaxAckDelay (i64 (i64 val * Millisecond)) p) else
  if paramID =? activeConnectionIDLimitParameterID then
    if val <? 2 then Err (ErrMsg "invalid value for active_connection_id_limit") else Ok (set_ActiveConnectionIDLimit val p) else
  if paramID =? maxDatagramFrameSizeParameterID then Ok (set_MaxDatagramFrameSize (i64 val) p) else
  if paramID =? fecEnableParameterID then
    if negb (val =? 0) && negb (val =? 1) then Err (ErrMsg "invalid value for enable_fec") else Ok (set_EnableFEC (u8 val) p) else
  if paramID =? fecDecoderSchemeParameterID then Ok (set_DecoderFECScheme (u8 val) p) else
  Err (ErrMsg "TransportParameter BUG: transport parameter not found").

Definition readNumericTransportParameter (paramID expectedLen : Z) (p : TransportParameters) : rd TransportParameters :=
  remainingLen ← rd_len;
  val ← (λ s, match quicvarint.Read s with (Err _, s') => (Err (ErrMsg "error while reading transport parameter"), s') | x => x end);
  l ← rd_len;
  if negb (remainingLen - l =? expectedLen) then rd_fail (ErrMsg "inconsistent transport parameter length") else
  λ s, (numericParameter paramID val p, s).

Definition readPreferredAddress (expectedLen : Z) (p : TransportParameters) : rd TransportParameters :=
  remainingLen ← rd_len;
  ipv4 ← ReadFull 4;
  port4 ← ReadUint16;
  ipv6 ← ReadFull 16;
  port6 ← ReadUint16;
  connIDLen ← ReadByte;
  if (connIDLen =? 0) || (MaxConnIDLen <? connIDLen) then rd_fail (ErrMsg "invalid connection ID length") else
  connID ← ReadConnectionID connIDLen;
  token ← ReadFull 16;
  l ← rd_len;
  if negb (remainingLen - l =? expectedLen) then rd_fail (ErrMsg "wrong length of preferred_address") else
  mret (set_PreferredAddress (Some (mkPreferredAddress (AddrPortFrom (AddrFrom4 ipv4) port4) (AddrPortFrom (AddrFrom16 ipv6) port6) connID token)) p).

(** [connID, _ := protocol.ReadConnectionID(r, l)]: on an error nothing is read
    and the connection ID is empty.  ([l] bytes are left, so that only the length
    can be wrong.) *)
Definition readConnID (l : Z) : rd ConnectionID := λ s,
  match ReadConnectionID l s with (Err _, s') => (Ok ConnectionID_zero, s') | x => x end.

(** [r.Read(token[:])] into an array of 16 bytes *)
Definition readToken : rd bytes := λ s, (Ok (take 16 s ++ replicate (16 - length s) 0), drop 16 s).

(** [r.Seek(n, io.SeekCurrent)] *)
Definition rd_skip (n : Z) : rd () := λ s, (Ok tt, drop (Z.to_nat n) s).

Definition numericParameterIDs : list Z := [
  activeConnectionIDLimitParameterID; maxIdleTimeoutParameterID; maxUDPPayloadSizeParameterID; initialMaxDataParameterID;
  initialMaxStreamDataBidiLocalParameterID; initialMaxStreamDataBidiRemoteParameterID; initialMaxStreamDataUniParameterID;
  initialMaxStreamsBidiParameterID; initialMaxStreamsUniParameterID; maxAckDelayParameterID; maxDatagramFrameSizeParameterID;
  ackDelayExponentParameterID; fecEnableParameterID; fecDecoderSchemeParameterID].

(** The variables of [unmarshal]: the parameters, the IDs seen, and the flags
    [readOriginalDestinationConnectionID], [readInitialSourceConnectionID],
    [readActiveConnectionIDLimit]. *)
Record vars := mkVars { v_p : TransportParameters; parameterIDs : list Z; readODCID : bool; readISCID : bool; readLimit : bool }.
Definition set_p (p : TransportParameters) (v : vars) : vars := mkVars p (parameterIDs v) (readODCID v) (readISCID v) (readLimit v).
Definition set_ODCID (v : vars) : vars := mkVars (v_p v) (parameterIDs v) true (readISCID v) (readLimit v).
Definition set_ISCID (v : vars) : vars := mkVars (v_p v) (parameterIDs v) (readODCID v) true (readLimit v).
Definition set_Limit (v : vars) : vars := mkVars (v_p v) (parameterIDs v) (readODCID v) (readISCID v) true.
Definition seen (id : Z) (v : vars) : vars := mkVars (v_p v) (parameterIDs v ++ [id]) (readODCID v) (readISCID v) (readLimit v).

(** The switch over the parameter ID. *)
Definition readParameter (sentBy : Perspective) (paramID paramLen : Z) (v : vars) : rd vars :=
  if bool_decide (paramID ∈ numericParameterIDs) then
    let v := if paramID =? activeConnectionIDLimitParameterID then set_Limit v else v in
    p ← readNumericTransportParameter paramID paramLen (v_p v); mret (set_p p v)
  else if paramID =? preferredAddressParameterID then
    if bool_decide (sentBy = PerspectiveClient) then rd_fail (ErrMsg "client sent a preferred_address") else
    p ← readPreferredAddress paramLen (v_p v); mret (set_p p v)
  else if paramID =? disableActiveMigrationParameterID then
    if negb (paramLen =? 0) then rd_fail (ErrMsg "wrong length for disable_active_migration") else
    mret (set_p (set_DisableActiveMigration true (v_p v)) v)
  else if paramID =? statelessResetTokenParameterID then
    if bool_decide (sentBy = PerspectiveClient) then rd_fail (ErrMsg "client sent a stateless_reset_token") else
    if negb (paramLen =? 16) then rd_fail (ErrMsg "wrong length for stateless_reset_token") else
    token ← readToken; mret (set_p (set_StatelessResetToken (Some token) (v_p v)) v)
  else if paramID =? originalDestinationConnectionIDParameterID then
    if bool_decide (sentBy = PerspectiveClient) then rd_fail (ErrMsg "client sent an original_destination_connection_id") else
    c ← readConnID paramLen; mret (set_ODCID (set_p (set_OriginalDestinationConnectionID c (v_p v)) v))
  else if paramID =? initialSourceConnectionIDParameterID then
    c ← readConnID paramLen; mret (set_ISCID (set_p (set_InitialSourceConnectionID c (v_p v)) v))
  else if paramID =? retrySourceConnectionIDParameterID then
    if bool_decide (sentBy = PerspectiveClient) then rd_fail (ErrMsg "client sent a retry_source_connection_id") else
    c ← readConnID paramLen; mret (set_p (set_RetrySourceConnectionID (Some c) (v_p v)) v)
  else _ ← rd_skip paramLen; mret v.

(** [for r.Len() > 0]: a round reads two numbers at least. *)
Fixpoint unmarshal_loop (fuel : nat) (sentBy : Perspective) (v : vars) : rd vars :=
  match fuel with
  | O => rd_panic "out of fuel"
  | S fuel =>
      l ← rd_len;
      if l <=? 0 then mret v else
      paramID ← quicvarint.Read;
      paramLen ← quicvarint.Read;
      l ← rd_len;
      if l <? paramLen then rd_fail (ErrMsg "remaining length smaller than parameter length") else
      v ← readParameter sentBy paramID paramLen (seen paramID v);
      unmarshal_loop fuel sentBy v
  end.

(** [sort.Slice] and the comparison of neighbours. *)
Fixpoint adjacent_equal (l : list Z) : bool :=
  match l with
  | x :: ((y :: _) as l) => (x =? y) || adjacent_equal l
  | _ => false
  end.

Definition unmarshal (p : TransportParameters) (sentBy : Perspective) (fromSessionTicket : bool) : rd TransportParameters := λ s,
  let p := set_MaxDatagramFrameSize InvalidByteCount (set_MaxAckDelay DefaultMaxAckDelay (set_AckDelayExponent DefaultAckDelayExponent p)) in
  (v ← unmarshal_loop (S (length s)) sentBy (mkVars p [] false false false);
   let p := if negb (readLimit v) then set_ActiveConnectionIDLimit DefaultActiveConnectionIDLimit (v_p v) else v_p v in
   let p' := if MaxUDPPayloadSize p =? 0 then set_MaxUDPPayloadSize MaxByteCount p else p in
   if negb fromSessionTicket && bool_decide (sentBy = PerspectiveServer) && negb (readODCID v)
   then rd_fail (ErrMsg "missing original_destination_connection_id") else
   if negb fromSessionTicket && negb (readISCID v) then rd_fail (ErrMsg "missing initial_source_connection_id") else
   if adjacent_equal (merge_sort Z.le (parameterIDs v)) then rd_fail (ErrMsg "received duplicate transport parameter") else
   mret (if fromSessionTicket then p else p')) s.

Definition Unmarshal (data : bytes) (sentBy : Perspective) (p : TransportParameters) : res TransportParameters :=
  match (unmarshal p sentBy false data).1 with
  | Err e => Err (TransportError TransportParameterError 0 e)
  | r => r
  end.

(** * Writing *)

Definition marshalVarintParam (b : bytes) (id val : Z) : res bytes :=
  b ← quicvarint.Append b id;
  n ← quicvarint.Len val;
  b ← quicvarint.Append b n;
  quicvarint.Append b val.

(** A parameter with the value [d]. *)
Definition marshalParam (b : bytes) (id : Z) (d : bytes) : res bytes :=
  b ← quicvarint.Append b id;
  b ← quicvarint.Append b (blen d);
  Ok (b ++ d).

(** The greased parameter, from 18 random bytes. *)
Definition marshalGrease (b random : bytes) : res bytes :=
  r0 ← get_at random 0;
  r1 ← get_at random 1;
  let length := r1 mod 16 in
  b ← quicvarint.Append b (27 + 31 * r0);
  b ← quicvarint.Append b length;
  Ok (b ++ take (Z.to_nat length) (drop 2 random)).

Definition marshalPreferredAddress (b : bytes) (a : PreferredAddress) : res bytes :=
  b ← quicvarint.Append b preferredAddressParameterID;
  b ← quicvarint.Append b (4 + 2 + 16 + 2 + 1 + ConnectionID_Len (pa_ConnectionID a) + 16);
  ip4 ← As4 (ap_Addr (IPv4 a));
  Ok (b ++ ip4 ++ PutUint16 (ap_Port (IPv4 a)) ++ As16 (ap_Addr (IPv6 a)) ++ PutUint16 (ap_Port (IPv6 a)) ++
      [u8 (ConnectionID_Len (pa_ConnectionID a))] ++ ConnectionID_Bytes (pa_ConnectionID a) ++ pa_StatelessResetToken a).

(** [AdditionalTransportParametersClient], in the order of the iteration. *)
Fixpoint marshalAdditional (b : bytes) (l : list (Z * bytes)) : res bytes :=
  match l with
  | [] => Ok b
  | (k, v) :: l => b ← marshalParam b k v; marshalAdditional b l
  end.

Definition Marshal (random : bytes) (additional : list (Z * bytes)) (pers : Perspective) (p : TransportParameters) : res bytes :=
  let server := bool_decide (pers = PerspectiveServer) in
  b ← marshalGrease [] random;
  b ← marshalVarintParam b initialMaxStreamDataBidiLocalParameterID (u64 (InitialMaxStreamDataBidiLocal p));
  b ← marshalVarintParam b initialMaxStreamDataBidiRemoteParameterID (u64 (InitialMaxStreamDataBidiRemote p));
  b ← marshalVarintParam b initialMaxStreamDataUniParameterID (u64 (InitialMaxStreamDataUni p));
  b ← marshalVarintParam b initialMaxDataParameterID (u64 (InitialMaxData p));
  b ← marshalVarintParam b initialMaxStreamsBidiParameterID (u64 (MaxBidiStreamNum p));
  b ← marshalVarintParam b initialMaxStreamsUniParameterID (u64 (MaxUniStreamNum p));
  b ← marshalVarintParam b maxIdleTimeoutParameterID (u64 (Z.quot (MaxIdleTimeout p) Millisecond));
  b ← marshalVarintParam b maxUDPPayloadSizeParameterID MaxPacketBufferSize;
  b ← marshalVarintParam b fecEnableParameterID (EnableFEC p);
  b ← marshalVarintParam b fecDecoderSchemeParameterID (DecoderFECScheme p);
  b ← (if negb (MaxAckDelay p =? DefaultMaxAckDelay) then marshalVarintParam b maxAckDelayParameterID (u64 (Z.quot (MaxAckDelay p) Millisecond)) else Ok b);
  b ← (if negb (tp_AckDelayExponent p =? DefaultAckDelayExponent) then marshalVarintParam b ackDelayExponentParameterID (tp_AckDelayExponent p) else Ok b);
  b ← (if DisableActiveMigration p then marshalParam b disableActiveMigrationParameterID [] else Ok b);
  b ← (if server then match tp_StatelessResetToken p with Some t => marshalParam b statelessResetTokenParameterID t | None => Ok b end else Ok b);
  b ← (if server then marshalParam b originalDestinationConnectionIDParameterID (ConnectionID_Bytes (OriginalDestinationConnectionID p)) else Ok b);
  b ← (if server then match tp_PreferredAddress p with Some a => marshalPreferredAddress b a | None => Ok b end else Ok b);
  b ← (if negb (ActiveConnectionIDLimit p =? DefaultActiveConnectionIDLimit)
       then marshalVarintParam b activeConnectionIDLimitParameterID (ActiveConnectionIDLimit p) else Ok b);
  b ← marshalParam b initialSourceConnectionIDParameterID (ConnectionID_Bytes (InitialSourceConnectionID p));
  b ← (if server then match RetrySourceConnectionID p with Some c => marshalParam b retrySourceConnectionIDParameterID (ConnectionID_Bytes c) | None => Ok b end
       else Ok b);
  b ← (if negb (MaxDatagramFrameSize p =? InvalidByteCount) then marshalVarintParam b maxDatagramFrameSizeParameterID (u64 (MaxDatagramFrameSize p)) else Ok b);
  if bool_decide (pers = PerspectiveClient) then marshalAdditional b additional else Ok b.

Definition MarshalForSessionTicket (b : bytes) (p : TransportParameters) : res bytes :=
  b ← quicvarint.Append b transportParameterMarshalingVersion;
  b ← marshalVarintParam b initialMaxStreamDataBidiLocalParameterID (u64 (InitialMaxStreamDataBidiLocal p));
  b ← marshalVarintParam b initialMaxStreamDataBidiRemoteParameterID (u64 (InitialMaxStreamDataBidiRemote p));
  b ← marshalVarintParam b initialMaxStreamDataUniParameterID (u64 (InitialMaxStreamDataUni p));
  b ← marshalVarintParam b initialMaxDataParameterID (u64 (InitialMaxData p));
  b ← marshalVarintParam b initialMaxStreamsBidiParameterID (u64 (MaxBidiStreamNum p));
  b ← marshalVarintParam b initialMaxStreamsUniParameterID (u64 (MaxUniStreamNum p));
  b ← (if negb (MaxDatagramFrameSize p =? InvalidByteCount) then marshalVarintParam b maxDatagramFrameSizeParameterID (u64 (MaxDatagramFrameSize p)) else Ok b);
  marshalVarintParam b activeConnectionIDLimitParameterID (ActiveConnectionIDLimit p).

Definition UnmarshalFromSessionTicket (p : TransportParameters) : rd TransportParameters :=
  version ← quicvarint.Read;
  if negb (version =? transportParameterMarshalingVersion) then rd_fail (ErrMsg "unknown transport parameter marshaling version") else
  unmarshal p PerspectiveServer true.

(** * Comparing *)

Definition datagram_reduced (saved p : TransportParameters) : bool :=
  negb (MaxDatagramFrameSize saved =? InvalidByteCount) &&
  ((MaxDatagramFrameSize p =? InvalidByteCount) || (MaxDatagramFrameSize p <? MaxDatagramFrameSize saved)).

Definition ValidFor0RTT (saved p : TransportParameters) : bool :=
  if datagram_reduced saved p then false else
  (InitialMaxStreamDataBidiLocal saved <=? InitialMaxStreamDataBidiLocal p) &&
  (InitialMaxStreamDataBidiRemote saved <=? InitialMaxStreamDataBidiRemote p) &&
  (InitialMaxStreamDataUni saved <=? InitialMaxStreamDataUni p) &&
  (InitialMaxData saved <=? InitialMaxData p) &&
  (MaxBidiStreamNum saved <=? MaxBidiStreamNum p) &&
  (MaxUniStreamNum saved <=? MaxUniStreamNum p) &&
  (ActiveConnectionIDLimit p =? ActiveConnectionIDLimit saved).

Definition ValidForUpdate (saved p : TransportParameters) : bool :=
  if datagram_reduced saved p then false else
  (ActiveConnectionIDLimit saved <=? ActiveConnectionIDLimit p) &&
  (InitialMaxData saved <=? InitialMaxData p) &&
  (InitialMaxStreamDataBidiLocal saved <=? InitialMaxStreamDataBidiLocal p) &&
  (InitialMaxStreamDataBidiRemote saved <=? InitialMaxStreamDataBidiRemote p) &&
  (InitialMaxStreamDataUni saved <=? InitialMaxStreamDataUni p) &&
  (MaxBidiStreamNum saved <=? MaxBidiStreamNum p) &&
  (MaxUniStreamNum saved <=? MaxUniStreamNum p).

(** * Parameters as type, length and value *)

Abbreviation enc := quicvarint.enc.
Abbreviation encodable := quicvarint.encodable.

Definition tlv (id : Z) (d : bytes) : bytes := enc id ++ enc (blen d) ++ d.
Definition tlvs (l : list (Z * bytes)) : bytes := concat ((λ x, tlv x.1 x.2) <$> l).
Definition item_ok (x : Z * bytes) : Prop := encodable x.1 ∧ encodable (blen x.2).

Lemma tlvs_app l1 l2 : tlvs (l1 ++ l2) = tlvs l1 ++ tlvs l2.
Proof. unfold tlvs. by rewrite fmap_app, concat_app. Qed.

Lemma tlvs_cons id d l : tlvs ((id, d) :: l) = tlv id d ++ tlvs l.
Proof. done. Qed.

Lemma marshalVarintParam_tlv b id val : encodable id → encodable val → marshalVarintParam b id val = Ok (b ++ tlv id (enc val)).
Proof.
  intros Hid Hv. unfold marshalVarintParam, tlv. rewrite quicvarint.Append_enc, res_bind_ok, quicvarint.Len_size, res_bind_ok by done.
  rewrite quicvarint.blen_enc by done. pose proof (quicvarint.size_range val Hv).
  assert (encodable (quicvarint.size val)) by (unfold quicvarint.encodable, quicvarint.Max, quicvarint.maxVarInt8; lia).
  rewrite quicvarint.Append_enc, res_bind_ok, quicvarint.Append_enc by done. by rewrite <- !app_assoc.
Qed.

Lemma marshalParam_tlv b id d : encodable id → encodable (blen d) → marshalParam b id d = Ok (b ++ tlv id d).
Proof.
  intros Hid Hd. unfold marshalParam, tlv. rewrite !quicvarint.Append_enc, res_bind_ok by done. rewrite quicvarint.Append_enc, res_bind_ok by done.
  by rewrite <- !app_assoc.
Qed.

(** [items_read]: what the switch makes of parameters, whatever follows them. *)
Inductive items_read (sentBy : Perspective) : list (Z * bytes) → vars → vars → Prop :=
| ir_nil v : items_read sentBy [] v v
| ir_cons id d l v v1 v2 : (∀ s, readParameter sentBy id (blen d) (seen id v) (d ++ s) = (Ok v1, s)) →
    items_read sentBy l v1 v2 → items_read sentBy ((id, d) :: l) v v2.

Lemma items_read_app sentBy l1 l2 v1 v2 v3 : items_read sentBy l1 v1 v2 → items_read sentBy l2 v2 v3 → items_read sentBy (l1 ++ l2) v1 v3.
Proof. induction 1; intros Hr; [done|]. simpl. econstructor; eauto. Qed.

Lemma loop_items sentBy l v v' fuel : items_read sentBy l v v' → Forall item_ok l → (length l < fuel)%nat →
  unmarshal_loop fuel sentBy v (tlvs l) = (Ok v', []).
Proof.
  intros Hr. revert fuel. induction Hr as [v|id d l v v1 v2 Hread _ IH]; intros fuel Hok Hf; (destruct fuel as [|fuel]; [simpl in Hf; lia|]).
  { done. }
  apply Forall_cons in Hok as [[Hid Hd] Hok]. cbn [unmarshal_loop fst snd] in *. rewrite tlvs_cons. unfold tlv. rewrite <- !app_assoc.
  rewrite rd_len_bind, (proj2 (Z.leb_gt _ _)).
  2:{ rewrite blen_app, quicvarint.blen_enc by done. pose proof (quicvarint.size_range id Hid). pose proof (blen_nonneg (enc (blen d) ++ d ++ tlvs l)). lia. }
  rewrite (rd_bind_ok _ _ _ _ _ (quicvarint.Read_enc id _ Hid)), (rd_bind_ok _ _ _ _ _ (quicvarint.Read_enc (blen d) _ Hd)).
  rewrite rd_len_bind, blen_app, (proj2 (Z.ltb_ge _ _)) by (pose proof (blen_nonneg (tlvs l)); lia).
  rewrite (rd_bind_ok _ _ _ _ _ (Hread _)). apply IH; [done|simpl in Hf; lia].
Qed.

(** A numeric parameter. *)
Lemma read_numeric sentBy id val v p : id ∈ numericParameterIDs → encodable val → numericParameter id val (v_p v) = Ok p →
  ∀ s, readParameter sentBy id (blen (enc val)) v (enc val ++ s) =
    (Ok (set_p p (if id =? activeConnectionIDLimitParameterID then set_Limit v else v)), s).
Proof.
  intros Hid Hv Hp s. unfold readParameter. rewrite bool_decide_eq_true_2 by done. set (v1 := if _ =? _ then _ else _).
  assert (Hp1 : v_p v1 = v_p v) by (unfold v1; by destruct (_ =? _)). unfold readNumericTransportParameter. rewrite Hp1.
  erewrite rd_bind_ok; [done|]. rewrite rd_len_bind. erewrite rd_bind_ok; [|by rewrite quicvarint.Read_enc]. rewrite rd_len_bind, blen_app.
  replace (blen (enc val) + blen s - blen s) with (blen (enc val)) by lia. rewrite Z.eqb_refl. simpl. by rewrite Hp.
Qed.

(** An unknown parameter is skipped. *)
Definition knownParameterIDs : list Z := numericParameterIDs ++ [preferredAddressParameterID; disableActiveMigrationParameterID;
  statelessResetTokenParameterID; originalDestinationConnectionIDParameterID; initialSourceConnectionIDParameterID; retrySourceConnectionIDParameterID].

Lemma read_unknown sentBy id d v s : id ∉ knownParameterIDs → readParameter sentBy id (blen d) v (d ++ s) = (Ok v, s).
Proof.
  intros Hid. unfold knownParameterIDs in Hid. rewrite not_elem_of_app in Hid. destruct Hid as [Hn Ho]. unfold readParameter.
  rewrite bool_decide_eq_false_2 by done.
  assert (Hne : ∀ x, x ∈ [preferredAddressParameterID; disableActiveMigrationParameterID; statelessResetTokenParameterID;
    originalDestinationConnectionIDParameterID; initialSourceConnectionIDParameterID; retrySourceConnectionIDParameterID] → (id =? x) = false).
  { intros x Hx. apply Z.eqb_neq. congruence. }
  rewrite !Hne by set_solver. unfold rd_skip, mbind, rd_bind. simpl. by rewrite to_nat_blen, drop_app_length.
Qed.

Lemma read_connID c s : ConnectionID_wf c → readConnID (blen (ConnectionID_Bytes c)) (ConnectionID_Bytes c ++ s) = (Ok c, s).
Proof. intros Hc. destruct (ConnectionID_Len_Bytes _ Hc) as [Hl _]. unfold readConnID. by rewrite Hl, ReadConnectionID_app. Qed.

Lemma readToken_app t s : blen t = 16 → readToken (t ++ s) = (Ok t, s).
Proof.
  intros Ht. unfold readToken. assert (length t = 16%nat) as Hl by (unfold blen in Ht; lia).
  rewrite <- Hl, take_app_length, drop_app_length, length_app. replace (length t - (length t + length s))%nat with 0%nat by lia. simpl. by rewrite app_nil_r.
Qed.

(** * Duplicates *)

Lemma adjacent_equal_sorted l : Sorted Z.le l → adjacent_equal l = false ↔ NoDup l.
Proof.
  intros Hs. apply Sorted_StronglySorted in Hs; [|intros x y z; lia]. induction Hs as [|x l Hs IH Hx]; [by split; [intros _; constructor|]|].
  destruct l as [|y l]; [by split; [intros _; apply NoDup_singleton|]|]. cbn [adjacent_equal]. rewrite orb_false_iff, IH, (NoDup_cons x), Z.eqb_neq.
  apply Forall_cons in Hx as [Hxy Hx]. apply StronglySorted_inv in Hs as [_ Hy]. split.
  - intros [Hne Hnd]. split; [|done]. rewrite not_elem_of_cons. split; [done|]. intros Hin. rewrite Forall_forall in Hx, Hy.
    specialize (Hy x Hin). lia.
  - intros [Hni Hnd]. split; [|done]. rewrite not_elem_of_cons in Hni. tauto.
Qed.

Lemma duplicates_found l : adjacent_equal (merge_sort Z.le l) = false ↔ NoDup l.
Proof. rewrite adjacent_equal_sorted by (apply Sorted_merge_sort; intros x y; lia). by rewrite merge_sort_Permutation. Qed.

(** * What is written *)

Definition address_ok (a : PreferredAddress) : Prop :=
  (∃ b4, ap_Addr (IPv4 a) = AddrFrom4 b4 ∧ blen b4 = 4) ∧ (∃ b6, ap_Addr (IPv6 a) = AddrFrom16 b6 ∧ blen b6 = 16) ∧
  0 ≤ ap_Port (IPv4 a) < 2 ^ 16 ∧ 0 ≤ ap_Port (IPv6 a) < 2 ^ 16 ∧ ConnectionID_wf (pa_ConnectionID a) ∧ ConnectionID_Len (pa_ConnectionID a) ≠ 0 ∧
  blen (pa_StatelessResetToken a) = 16.

(** Parameters an endpoint may send. *)
Record tp_wf (p : TransportParameters) : Prop := {
  wf_windows : Forall encodable [InitialMaxStreamDataBidiLocal p; InitialMaxStreamDataBidiRemote p; InitialMaxStreamDataUni p; InitialMaxData p];
  wf_streams : 0 ≤ MaxBidiStreamNum p ≤ MaxStreamCount ∧ 0 ≤ MaxUniStreamNum p ≤ MaxStreamCount;
  wf_idle : 0 ≤ MaxIdleTimeout p < 2 ^ 63;
  wf_ackDelay : 0 ≤ MaxAckDelay p ≤ MaxMaxAckDelay;
  wf_exponent : 0 ≤ tp_AckDelayExponent p ≤ MaxAckDelayExponent;
  wf_token : ∀ t, tp_StatelessResetToken p = Some t → blen t = 16;
  wf_address : ∀ a, tp_PreferredAddress p = Some a → address_ok a;
  wf_cids : ConnectionID_wf (OriginalDestinationConnectionID p) ∧ ConnectionID_wf (InitialSourceConnectionID p);
  wf_retry : ∀ c, RetrySourceConnectionID p = Some c → ConnectionID_wf c;
  wf_limit : 2 ≤ ActiveConnectionIDLimit p ≤ quicvarint.Max;
  wf_datagram : MaxDatagramFrameSize p = InvalidByteCount ∨ encodable (MaxDatagramFrameSize p);
  wf_fec : (EnableFEC p = 0 ∨ EnableFEC p = 1) ∧ is_byte (DecoderFECScheme p);
}.

Definition num (id val : Z) : list (Z * bytes) := [(id, enc val)].
Definition opt (c : bool) (l : list (Z * bytes)) : list (Z * bytes) := if c then l else [].
Definition opt_some {A} (x : option A) (f : A → list (Z * bytes)) : list (Z * bytes) := match x with Some a => f a | None => [] end.

Definition address_bytes (a : PreferredAddress) : bytes :=
  match As4 (ap_Addr (IPv4 a)) with Ok ip4 => ip4 | _ => [] end ++ PutUint16 (ap_Port (IPv4 a)) ++ As16 (ap_Addr (IPv6 a)) ++ PutUint16 (ap_Port (IPv6 a)) ++
  [u8 (ConnectionID_Len (pa_ConnectionID a))] ++ ConnectionID_Bytes (pa_ConnectionID a) ++ pa_StatelessResetToken a.

Definition windows (p : TransportParameters) : list (Z * bytes) :=
  num initialMaxStreamDataBidiLocalParameterID (InitialMaxStreamDataBidiLocal p) ++
  num initialMaxStreamDataBidiRemoteParameterID (InitialMaxStreamDataBidiRemote p) ++
  num initialMaxStreamDataUniParameterID (InitialMaxStreamDataUni p) ++
  num initialMaxDataParameterID (InitialMaxData p) ++
  num initialMaxStreamsBidiParameterID (MaxBidiStreamNum p) ++
  num initialMaxStreamsUniParameterID (MaxUniStreamNum p).

Definition grease (random : bytes) : list (Z * bytes) :=
  match random with r0 :: r1 :: rest => [(27 + 31 * r0, take (Z.to_nat (r1 mod 16)) rest)] | _ => [] end.

Definition items (random : bytes) (additional : list (Z * bytes)) (pers : Perspective) (p : TransportParameters) : list (Z * bytes) :=
  let server := bool_decide (pers = PerspectiveServer) in
  grease random ++ windows p ++
  num maxIdleTimeoutParameterID (Z.quot (MaxIdleTimeout p) Millisecond) ++
  num maxUDPPayloadSizeParameterID MaxPacketBufferSize ++
  num fecEnableParameterID (EnableFEC p) ++
  num fecDecoderSchemeParameterID (DecoderFECScheme p) ++
  opt (negb (MaxAckDelay p =? DefaultMaxAckDelay)) (num maxAckDelayParameterID (Z.quot (MaxAckDelay p) Millisecond)) ++
  opt (negb (tp_AckDelayExponent p =? DefaultAckDelayExponent)) (num ackDelayExponentParameterID (tp_AckDelayExponent p)) ++
  opt (DisableActiveMigration p) [(disableActiveMigrationParameterID, [])] ++
  opt server (opt_some (tp_StatelessResetToken p) (λ t, [(statelessResetTokenParameterID, t)])) ++
  opt server [(originalDestinationConnectionIDParameterID, ConnectionID_Bytes (OriginalDestinationConnectionID p))] ++
  opt server (opt_some (tp_PreferredAddress p) (λ a, [(preferredAddressParameterID, address_bytes a)])) ++
  opt (negb (ActiveConnectionIDLimit p =? DefaultActiveConnectionIDLimit)) (num activeConnectionIDLimitParameterID (ActiveConnectionIDLimit p)) ++
  [(initialSourceConnectionIDParameterID, ConnectionID_Bytes (InitialSourceConnectionID p))] ++
  opt server (opt_some (RetrySourceConnectionID p) (λ c, [(retrySourceConnectionIDParameterID, ConnectionID_Bytes c)])) ++
  opt (negb (MaxDatagramFrameSize p =? InvalidByteCount)) (num maxDatagramFrameSizeParameterID (MaxDatagramFrameSize p)) ++
  opt (bool_decide (pers = PerspectiveClient)) additional.

(** A writer that appends parameters. *)
Definition writes (f : bytes → res bytes) (l : list (Z * bytes)) : Prop := ∀ b, f b = Ok (b ++ tlvs l).

Lemma writes_bind f g l1 l2 : writes f l1 → writes g l2 → writes (λ b, b ← f b; g b) (l1 ++ l2).
Proof. intros Hf Hg b. by rewrite Hf, res_bind_ok, Hg, tlvs_app, app_assoc. Qed.

Lemma writes_run f g l1 l2 : writes f l1 → writes g l2 → (b ← f []; g b) = Ok (tlvs (l1 ++ l2)).
Proof. intros Hf Hg. by rewrite Hf, res_bind_ok, Hg, tlvs_app. Qed.

Lemma writes_opt (c : bool) f l : (c = true → writes f l) → writes (λ b, if c then f b else Ok b) (opt c l).
Proof. intros Hf b. destruct c; [by apply Hf|]. simpl. by rewrite app_nil_r. Qed.

Lemma writes_some {A} (x : option A) f l : (∀ a, x = Some a → writes (f a) (l a)) → writes (λ b, match x with Some a => f a b | None => Ok b end) (opt_some x l).
Proof. intros Hf b. destruct x; [by apply Hf|]. simpl. by rewrite app_nil_r. Qed.

Lemma tlvs_one id d : tlvs [(id, d)] = tlv id d.
Proof. unfold tlvs. simpl. by rewrite app_nil_r. Qed.

Lemma writes_num id val : encodable id → encodable val → writes (λ b, marshalVarintParam b id (u64 val)) (num id val).
Proof. intros Hid Hv b. unfold num. by rewrite quicvarint.encodable_u64, marshalVarintParam_tlv, tlvs_one by done. Qed.

Lemma writes_num' id val : encodable id → encodable val → writes (λ b, marshalVarintParam b id val) (num id val).
Proof. intros Hid Hv b. unfold num. by rewrite marshalVarintParam_tlv, tlvs_one by done. Qed.

Lemma writes_param id d : encodable id → encodable (blen d) → writes (λ b, marshalParam b id d) [(id, d)].
Proof. intros Hid Hd b. by rewrite marshalParam_tlv, tlvs_one by done. Qed.

Lemma address_length a : address_ok a → blen (address_bytes a) = 4 + 2 + 16 + 2 + 1 + ConnectionID_Len (pa_ConnectionID a) + 16.
Proof.
  intros ((b4 & E4 & H4) & (b6 & E6 & H6) & _ & _ & Hc & _ & Ht). unfold address_bytes. rewrite E4, E6. cbn [As4 As16].
  destruct (ConnectionID_Len_Bytes _ Hc) as [Hl _]. rewrite !blen_app, H4, H6, Hl, Ht. unfold blen. simpl. lia.
Qed.

Lemma small_encodable x : 0 ≤ x < 2 ^ 62 → encodable x.
Proof. unfold quicvarint.encodable, quicvarint.Max, quicvarint.maxVarInt8. lia. Qed.

Lemma writes_address a : address_ok a → writes (λ b, marshalPreferredAddress b a) [(preferredAddressParameterID, address_bytes a)].
Proof.
  intros Ha b. pose proof (address_length a Ha) as Hl. destruct Ha as ((b4 & E4 & H4) & _ & _ & _ & Hc & _). destruct (ConnectionID_Len_Bytes _ Hc) as [_ Hc'].
  unfold marshalPreferredAddress. rewrite tlvs_one. unfold tlv. rewrite Hl. rewrite quicvarint.Append_enc, res_bind_ok by (by vm_compute).
  rewrite quicvarint.Append_enc, res_bind_ok by (apply small_encodable; lia). unfold address_bytes. rewrite E4. cbn [As4]. rewrite res_bind_ok, <- !app_assoc. done.
Qed.

Lemma writes_additional l : Forall item_ok l → writes (λ b, marshalAdditional b l) l.
Proof.
  intros Hl. induction Hl as [|[k d] l [Hk Hd] _ IH]; intros b; [simpl; by rewrite app_nil_r|]. cbn [marshalAdditional].
  rewrite marshalParam_tlv, res_bind_ok, IH, tlvs_cons, app_assoc by done. done.
Qed.

Lemma writes_grease random : bytes_ok random → blen random = 18 → writes (λ b, marshalGrease b random) (grease random).
Proof.
  intros Hb Hl b. destruct random as [|r0 [|r1 rest]]; [done|done|]. apply Forall_cons in Hb as [H0 Hb]. apply Forall_cons in Hb as [H1 _]. unfold is_byte in *.
  rewrite !blen_cons in Hl. unfold marshalGrease. pose proof (Z.mod_pos_bound r1 16).
  change (get_at (r0 :: r1 :: rest) 0) with (Ok r0). change (get_at (r0 :: r1 :: rest) 1) with (Ok r1). rewrite !res_bind_ok. cbv zeta.
  rewrite quicvarint.Append_enc, res_bind_ok by (apply small_encodable; lia). rewrite quicvarint.Append_enc, res_bind_ok by (apply small_encodable; lia).
  cbn [skipn grease]. rewrite drop_0, tlvs_one. unfold tlv. rewrite <- !app_assoc. assert (blen (take (Z.to_nat (r1 mod 16)) rest) = r1 mod 16) as ->; [|done].
  unfold blen in *. rewrite length_take. lia.
Qed.

Lemma quot_ms x : 0 ≤ x < 2 ^ 63 → 0 ≤ Z.quot x Millisecond < 2 ^ 62.
Proof. unfold Millisecond. intros. rewrite Z.quot_div_nonneg by lia. split; [apply Z.div_pos; lia|apply Z.div_lt_upper_bound; lia]. Qed.

Lemma Marshal_items random additional pers p : tp_wf p → bytes_ok random → blen random = 18 → Forall item_ok additional →
  Marshal random additional pers p = Ok (tlvs (items random additional pers p)).
Proof.
  intros [] Hr Hl Hadd. pose proof wf_windows0 as Hw. rewrite !Forall_cons in Hw. destruct Hw as (W1 & W2 & W3 & W4 & _).
  pose proof (quot_ms _ wf_idle0) as Hidle. assert (0 ≤ MaxAckDelay p < 2 ^ 63) as Hd by (unfold MaxMaxAckDelay, Millisecond in *; lia).
  pose proof (quot_ms _ Hd) as Hdelay. destruct wf_streams0 as [Hs1 Hs2]. unfold MaxStreamCount in *. destruct wf_cids0 as [Hc1 Hc2].
  destruct (ConnectionID_Len_Bytes _ Hc1) as [L1 B1]. destruct (ConnectionID_Len_Bytes _ Hc2) as [L2 B2]. destruct wf_fec0 as [Hf1 Hf2]. unfold is_byte in Hf2.
  unfold MaxAckDelayExponent in *. assert (encodable (ActiveConnectionIDLimit p)) as Hlim by (unfold quicvarint.encodable; lia).
  unfold Marshal, items, windows. rewrite <- !app_assoc. cbv zeta. apply (writes_run (λ b, marshalGrease b random)); [by apply writes_grease|].
  do 7 (apply writes_bind; [apply writes_num; [by vm_compute|first [done|apply small_encodable; lia]]|]).
  do 3 (apply writes_bind; [apply writes_num'; [by vm_compute|apply small_encodable; unfold MaxPacketBufferSize; lia]|]).
  apply writes_bind; [apply writes_opt; intros _; apply writes_num; [by vm_compute|apply small_encodable; lia]|].
  apply writes_bind; [apply writes_opt; intros _; apply writes_num'; [by vm_compute|apply small_encodable; lia]|].
  apply writes_bind; [apply writes_opt; intros _; apply writes_param; by vm_compute|].
  apply writes_bind; [apply writes_opt; intros _; apply writes_some; intros t Ht; apply writes_param; [by vm_compute|by rewrite wf_token0]|].
  apply writes_bind; [apply writes_opt; intros _; apply writes_param; [by vm_compute|apply small_encodable; lia]|].
  apply writes_bind; [apply writes_opt; intros _; apply writes_some; intros a Ha; apply writes_address; by apply wf_address0|].
  apply writes_bind; [apply writes_opt; intros _; apply writes_num'; [by vm_compute|done]|].
  apply writes_bind; [apply writes_param; [by vm_compute|apply small_encodable; lia]|].
  apply writes_bind; [apply writes_opt; intros _; apply writes_some; intros c Hc; destruct (ConnectionID_Len_Bytes _ (wf_retry0 c Hc)); apply writes_param; [by vm_compute|apply small_encodable; lia]|].
  apply writes_bind; [apply writes_opt; intros Hn; apply writes_num; [by vm_compute|]|].
  { destruct wf_datagram0 as [E|]; [|done]. by rewrite E in Hn. }
  apply writes_opt. intros _. by apply writes_additional.
Qed.

(** * What is read *)

(** The parameters and the flags after some parameters were read. *)
Definition reads_to (sentBy : Perspective) (l : list (Z * bytes)) (x y : TransportParameters * bool * bool * bool) : Prop :=
  ∀ ids, ∃ ids', items_read sentBy l (mkVars x.1.1.1 ids x.1.1.2 x.1.2 x.2) (mkVars y.1.1.1 ids' y.1.1.2 y.1.2 y.2).

Section reads.
Context (sentBy : Perspective).
Implicit Types (x y z : TransportParameters * bool * bool * bool).

Lemma rt_nil x : reads_to sentBy [] x x.
Proof. intros ids. exists ids. constructor. Qed.

Lemma rt_app l1 l2 x y z : reads_to sentBy l1 x y → reads_to sentBy l2 y z → reads_to sentBy (l1 ++ l2) x z.
Proof. intros H1 H2 ids. destruct (H1 ids) as [ids1 K1]. destruct (H2 ids1) as [ids2 K2]. exists ids2. by eapply items_read_app. Qed.

Lemma rt_one id d p o i m p' o' i' m' :
  (∀ v s, v_p v = p → readODCID v = o → readISCID v = i → readLimit v = m →
    readParameter sentBy id (blen d) v (d ++ s) = (Ok (mkVars p' (parameterIDs v) o' i' m'), s)) →
  reads_to sentBy [(id, d)] (p, o, i, m) (p', o', i', m').
Proof. intros Hr ids. exists (ids ++ [id]). econstructor; [intros s; by apply (Hr (mkVars p (ids ++ [id]) o i m))|constructor]. Qed.

Lemma rt_num id val p p' o i m : id ∈ numericParameterIDs → encodable val → numericParameter id val p = Ok p' →
  reads_to sentBy (num id val) (p, o, i, m) (p', o, i, (id =? activeConnectionIDLimitParameterID) || m).
Proof.
  intros Hid Hv Hp. apply rt_one. intros v s <- <- <- <-. rewrite (read_numeric sentBy id val v p') by done. by destruct (_ =? _).
Qed.

Lemma rt_opt (c : bool) l p o i m p' m' : (c = true → reads_to sentBy l (p, o, i, m) (p', o, i, m')) →
  reads_to sentBy (opt c l) (p, o, i, m) (if c then p' else p, o, i, if c then m' else m).
Proof. intros Hr. destruct c; [by apply Hr|apply rt_nil]. Qed.

Lemma rt_unknown l x : Forall (λ it, it.1 ∉ knownParameterIDs) l → reads_to sentBy l x x.
Proof.
  destruct x as [[[p o] i] m]. induction 1 as [|[id d] l Hid _ IH]; [apply rt_nil|]. change ((id, d) :: l) with ([(id, d)] ++ l). eapply rt_app; [|exact IH].
  apply rt_one. intros v s <- <- <- <-. rewrite read_unknown by done. by destruct v.
Qed.

Lemma rt_disable p o i m : reads_to sentBy [(disableActiveMigrationParameterID, [])] (p, o, i, m) (set_DisableActiveMigration true p, o, i, m).
Proof. apply rt_one. by intros v s <- <- <- <-. Qed.

Lemma rt_iscid c p o i m : ConnectionID_wf c →
  reads_to sentBy [(initialSourceConnectionIDParameterID, ConnectionID_Bytes c)] (p, o, i, m) (set_InitialSourceConnectionID c p, o, true, m).
Proof. intros Hc. apply rt_one. intros v s <- <- <- <-. unfold readParameter. simpl. by rewrite (rd_bind_ok _ _ _ _ _ (read_connID c s Hc)). Qed.
End reads.

(** The parameters only a server sends. *)
Section server.
Lemma rt_odcid c p o i m : ConnectionID_wf c →
  reads_to PerspectiveServer [(originalDestinationConnectionIDParameterID, ConnectionID_Bytes c)] (p, o, i, m) (set_OriginalDestinationConnectionID c p, true, i, m).
Proof. intros Hc. apply rt_one. intros v s <- <- <- <-. unfold readParameter. simpl. by rewrite (rd_bind_ok _ _ _ _ _ (read_connID c s Hc)). Qed.

Lemma rt_retry c p o i m : (∀ x, c = Some x → ConnectionID_wf x) → RetrySourceConnectionID p = None →
  reads_to PerspectiveServer (opt_some c (λ c, [(retrySourceConnectionIDParameterID, ConnectionID_Bytes c)])) (p, o, i, m) (set_RetrySourceConnectionID c p, o, i, m).
Proof.
  intros Hc Hn. destruct c as [c|]; simpl.
  - apply rt_one. intros v s <- <- <- <-. unfold readParameter. simpl. by rewrite (rd_bind_ok _ _ _ _ _ (read_connID c s (Hc c eq_refl))).
  - replace (set_RetrySourceConnectionID None p) with p; [apply rt_nil|]. destruct p; simpl in *; by subst.
Qed.

Lemma rt_token t p o i m : (∀ x, t = Some x → blen x = 16) → tp_StatelessResetToken p = None →
  reads_to PerspectiveServer (opt_some t (λ t, [(statelessResetTokenParameterID, t)])) (p, o, i, m) (set_StatelessResetToken t p, o, i, m).
Proof.
  intros Ht Hn. destruct t as [t|]; simpl.
  - apply rt_one. intros v s <- <- <- <-. unfold readParameter. simpl. rewrite (Ht t eq_refl). simpl.
    by rewrite (rd_bind_ok _ _ _ _ _ (readToken_app t s (Ht t eq_refl))).
  - replace (set_StatelessResetToken None p) with p; [apply rt_nil|]. destruct p; simpl in *; by subst.
Qed.

Lemma ReadUint16_Put v s : 0 ≤ v < 2 ^ 16 → ReadUint16 (PutUint16 v ++ s) = (Ok v, s).
Proof.
  intros Hv. unfold ReadUint16, PutUint16. cbn [app]. rewrite (rd_bind_ok _ _ _ _ _ (ReadByte_cons _ _)), (rd_bind_ok _ _ _ _ _ (ReadByte_cons _ _)).
  rewrite Uint16_bytes, Z.mod_small by done. done.
Qed.

Lemma readPreferredAddress_app a p s : address_ok a →
  readPreferredAddress (blen (address_bytes a)) p (address_bytes a ++ s) = (Ok (set_PreferredAddress (Some a) p), s).
Proof.
  intros Ha. pose proof (address_length a Ha) as Hlen. destruct Ha as ((b4 & E4 & H4) & (b6 & E6 & H6) & Hp4 & Hp6 & Hc & Hc0 & Ht).
  destruct (ConnectionID_Len_Bytes _ Hc) as [Hl Hlb]. unfold readPreferredAddress. rewrite rd_len_bind, blen_app.
  set (N := blen (address_bytes a)) in *. clearbody N. unfold address_bytes. rewrite E4, E6. cbn [As4 As16]. rewrite <- !app_assoc. rewrite (rd_bind_ok _ _ _ _ _ (ReadFull_app_n 4 _ _ (eq_sym H4))), (rd_bind_ok _ _ _ _ _ (ReadUint16_Put _ _ Hp4)).
  rewrite (rd_bind_ok _ _ _ _ _ (ReadFull_app_n 16 _ _ (eq_sym H6))), (rd_bind_ok _ _ _ _ _ (ReadUint16_Put _ _ Hp6)).
  cbn [app]. rewrite (rd_bind_ok _ _ _ _ _ (ReadByte_cons _ _)), u8_small by lia. unfold MaxConnIDLen.
  rewrite (proj2 (Z.eqb_neq _ _)), (proj2 (Z.ltb_ge _ _)) by lia. cbn [orb].
  rewrite (rd_bind_ok _ _ _ _ _ (ReadConnectionID_app _ _ Hc)), (rd_bind_ok _ _ _ _ _ (ReadFull_app_n 16 _ _ (eq_sym Ht))), rd_len_bind.
  replace (N + blen s - blen s) with N by lia. rewrite Z.eqb_refl. simpl. destruct a as [[] [] ? ?]. simpl in *. by subst.
Qed.

Lemma rt_address a p o i m : (∀ x, a = Some x → address_ok x) → tp_PreferredAddress p = None →
  reads_to PerspectiveServer (opt_some a (λ a, [(preferredAddressParameterID, address_bytes a)])) (p, o, i, m) (set_PreferredAddress a p, o, i, m).
Proof.
  intros Ha Hn. destruct a as [a|]; cbn [opt_some].
  - apply rt_one. intros v s <- <- <- <-. unfold readParameter.
    change (bool_decide (preferredAddressParameterID ∈ numericParameterIDs)) with false. cbv iota. rewrite Z.eqb_refl. simpl.
    by rewrite (rd_bind_ok _ _ _ _ _ (readPreferredAddress_app a _ s (Ha a eq_refl))).
  - replace (set_PreferredAddress None p) with p; [apply rt_nil|]. destruct p; simpl in *; by subst.
Qed.
End server.

(** The IDs that were read. *)
Lemma readParameter_ids sentBy id n v s v' s' : readParameter sentBy id n v s = (Ok v', s') → parameterIDs v' = parameterIDs v.
Proof.
  unfold readParameter. intros Hr. repeat case_match; repeat (apply rd_bind_inv in Hr as (? & ? & ? & Hr));
    unfold rd_fail, mret, rd_ret in Hr; by simplify_eq/=.
Qed.

Lemma items_read_ids sentBy l v v' : items_read sentBy l v v' → parameterIDs v' = parameterIDs v ++ (fst <$> l).
Proof.
  induction 1 as [v|id d l v v1 v2 Hr _ IH]; [by rewrite app_nil_r|]. rewrite IH. specialize (Hr []). apply readParameter_ids in Hr. rewrite Hr.
  simpl. by rewrite <- app_assoc.
Qed.

Ltac num_id := apply (bool_decide_eq_true_1 _); by vm_compute.

(** The values of the numeric parameters. *)
Section numeric.
Context (p : TransportParameters).

Lemma numeric_BidiLocal v : encodable v → numericParameter initialMaxStreamDataBidiLocalParameterID v p = Ok (set_InitialMaxStreamDataBidiLocal v p).
Proof. intros Hv. unfold numericParameter. simpl. by rewrite quicvarint.encodable_i64. Qed.
Lemma numeric_BidiRemote v : encodable v → numericParameter initialMaxStreamDataBidiRemoteParameterID v p = Ok (set_InitialMaxStreamDataBidiRemote v p).
Proof. intros Hv. unfold numericParameter. simpl. by rewrite quicvarint.encodable_i64. Qed.
Lemma numeric_Uni v : encodable v → numericParameter initialMaxStreamDataUniParameterID v p = Ok (set_InitialMaxStreamDataUni v p).
Proof. intros Hv. unfold numericParameter. simpl. by rewrite quicvarint.encodable_i64. Qed.
Lemma numeric_Data v : encodable v → numericParameter initialMaxDataParameterID v p = Ok (set_InitialMaxData v p).
Proof. intros Hv. unfold numericParameter. simpl. by rewrite quicvarint.encodable_i64. Qed.
Lemma numeric_StreamsBidi v : 0 ≤ v ≤ MaxStreamCount → numericParameter initialMaxStreamsBidiParameterID v p = Ok (set_MaxBidiStreamNum v p).
Proof. intros Hv. unfold numericParameter. simpl. rewrite i64_small by (unfold MaxStreamCount in *; lia). by rewrite (proj2 (Z.ltb_ge _ _)) by lia. Qed.
Lemma numeric_StreamsUni v : 0 ≤ v ≤ MaxStreamCount → numericParameter initialMaxStreamsUniParameterID v p = Ok (set_MaxUniStreamNum v p).
Proof. intros Hv. unfold numericParameter. simpl. rewrite i64_small by (unfold MaxStreamCount in *; lia). by rewrite (proj2 (Z.ltb_ge _ _)) by lia. Qed.
Lemma numeric_Idle v : 0 ≤ v → v * Millisecond < 2 ^ 63 →
  numericParameter maxIdleTimeoutParameterID v p = Ok (set_MaxIdleTimeout (Z.max MinRemoteIdleTimeout (v * Millisecond)) p).
Proof. unfold Millisecond. intros Hv Hm. unfold numericParameter, Millisecond. simpl. by rewrite (i64_small v), i64_small by lia. Qed.
Lemma numeric_UDP : numericParameter maxUDPPayloadSizeParameterID MaxPacketBufferSize p = Ok (set_MaxUDPPayloadSize MaxPacketBufferSize p).
Proof. done. Qed.
Lemma numeric_Exponent v : 0 ≤ v ≤ MaxAckDelayExponent → numericParameter ackDelayExponentParameterID v p = Ok (set_AckDelayExponent v p).
Proof. unfold MaxAckDelayExponent. intros Hv. unfold numericParameter, MaxAckDelayExponent. simpl. rewrite (proj2 (Z.ltb_ge _ _)) by lia. by rewrite u8_small by lia. Qed.
Lemma numeric_AckDelay v : 0 ≤ v < 2 ^ 14 → numericParameter maxAckDelayParameterID v p = Ok (set_MaxAckDelay (v * Millisecond) p).
Proof.
  intros Hv. unfold numericParameter. simpl. change (MaxMaxAckDelay / Millisecond) with (2 ^ 14 - 1). rewrite (proj2 (Z.ltb_ge _ _)) by lia.
  unfold Millisecond. by rewrite (i64_small v), i64_small by lia.
Qed.
Lemma numeric_Limit v : 2 ≤ v → numericParameter activeConnectionIDLimitParameterID v p = Ok (set_ActiveConnectionIDLimit v p).
Proof. intros Hv. unfold numericParameter. simpl. by rewrite (proj2 (Z.ltb_ge _ _)) by lia. Qed.
Lemma numeric_Datagram v : encodable v → numericParameter maxDatagramFrameSizeParameterID v p = Ok (set_MaxDatagramFrameSize v p).
Proof. intros Hv. unfold numericParameter. simpl. by rewrite quicvarint.encodable_i64. Qed.
Lemma numeric_FEC v : v = 0 ∨ v = 1 → numericParameter fecEnableParameterID v p = Ok (set_EnableFEC v p).
Proof. by intros [-> | ->]. Qed.
Lemma numeric_Scheme v : is_byte v → numericParameter fecDecoderSchemeParameterID v p = Ok (set_DecoderFECScheme v p).
Proof. intros Hv. unfold numericParameter. simpl. by rewrite u8_small. Qed.
End numeric.

Lemma set_AckDelay_if (c : bool) v p : (if c then set_MaxAckDelay v p else p) = set_MaxAckDelay (if c then v else MaxAckDelay p) p.
Proof. by destruct c, p. Qed.
Lemma set_Exponent_if (c : bool) v p : (if c then set_AckDelayExponent v p else p) = set_AckDelayExponent (if c then v else tp_AckDelayExponent p) p.
Proof. by destruct c, p. Qed.
Lemma set_Disable_if (c : bool) p : DisableActiveMigration p = false → (if c then set_DisableActiveMigration true p else p) = set_DisableActiveMigration c p.
Proof. intros Hp. destruct c, p; simpl in *; by subst. Qed.
Lemma set_Limit_if (c : bool) v p : (if c then set_ActiveConnectionIDLimit v p else p) = set_ActiveConnectionIDLimit (if c then v else ActiveConnectionIDLimit p) p.
Proof. by destruct c, p. Qed.
Lemma set_Datagram_if (c : bool) v p : (if c then set_MaxDatagramFrameSize v p else p) = set_MaxDatagramFrameSize (if c then v else MaxDatagramFrameSize p) p.
Proof. by destruct c, p. Qed.

(** What the peer of an endpoint with the parameters [p] makes of them:
    durations are in milliseconds, the idle timeout at least five seconds, and a
    client sends none of the server's parameters. *)
Definition received (pers : Perspective) (p : TransportParameters) : TransportParameters :=
  let server := bool_decide (pers = PerspectiveServer) in
  mkTP (InitialMaxStreamDataBidiLocal p) (InitialMaxStreamDataBidiRemote p) (InitialMaxStreamDataUni p) (InitialMaxData p)
    (MaxAckDelay p / Millisecond * Millisecond) (tp_AckDelayExponent p) (DisableActiveMigration p) MaxPacketBufferSize
    (MaxUniStreamNum p) (MaxBidiStreamNum p) (Z.max MinRemoteIdleTimeout (MaxIdleTimeout p / Millisecond * Millisecond))
    (if server then tp_PreferredAddress p else None)
    (if server then OriginalDestinationConnectionID p else ConnectionID_zero) (InitialSourceConnectionID p)
    (if server then RetrySourceConnectionID p else None) (if server then tp_StatelessResetToken p else None)
    (ActiveConnectionIDLimit p) (MaxDatagramFrameSize p) (EnableFEC p) (DecoderFECScheme p).

Definition initialParameters : TransportParameters :=
  set_MaxDatagramFrameSize InvalidByteCount (set_MaxAckDelay DefaultMaxAckDelay (set_AckDelayExponent DefaultAckDelayExponent noTransportParameters)).

Definition set_windows (p q : TransportParameters) : TransportParameters :=
  set_MaxUniStreamNum (MaxUniStreamNum p) (set_MaxBidiStreamNum (MaxBidiStreamNum p) (set_InitialMaxData (InitialMaxData p)
    (set_InitialMaxStreamDataUni (InitialMaxStreamDataUni p) (set_InitialMaxStreamDataBidiRemote (InitialMaxStreamDataBidiRemote p)
      (set_InitialMaxStreamDataBidiLocal (InitialMaxStreamDataBidiLocal p) q))))).

Lemma windows_read sentBy p q o i m : tp_wf p → reads_to sentBy (windows p) (q, o, i, m) (set_windows p q, o, i, m).
Proof.
  intros []. rewrite !Forall_cons in wf_windows0. destruct wf_windows0 as (W1 & W2 & W3 & W4 & _). destruct wf_streams0 as [S1 S2].
  assert (encodable (MaxBidiStreamNum p) ∧ encodable (MaxUniStreamNum p)) as [E1 E2] by (split; apply small_encodable; unfold MaxStreamCount in *; lia).
  unfold windows.
  eapply rt_app; [apply rt_num; [num_id|done|by apply numeric_BidiLocal]|]. eapply rt_app; [apply rt_num; [num_id|done|by apply numeric_BidiRemote]|].
  eapply rt_app; [apply rt_num; [num_id|done|by apply numeric_Uni]|]. eapply rt_app; [apply rt_num; [num_id|done|by apply numeric_Data]|].
  eapply rt_app; [apply rt_num; [num_id|done|by apply numeric_StreamsBidi]|]. apply rt_num; [num_id|done|by apply numeric_StreamsUni].
Qed.

(** The parameters both sides send. *)
Definition common (p : TransportParameters) : list (Z * bytes) :=
  num maxIdleTimeoutParameterID (Z.quot (MaxIdleTimeout p) Millisecond) ++
  num maxUDPPayloadSizeParameterID MaxPacketBufferSize ++ num fecEnableParameterID (EnableFEC p) ++ num fecDecoderSchemeParameterID (DecoderFECScheme p) ++
  opt (negb (MaxAckDelay p =? DefaultMaxAckDelay)) (num maxAckDelayParameterID (Z.quot (MaxAckDelay p) Millisecond)) ++
  opt (negb (tp_AckDelayExponent p =? DefaultAckDelayExponent)) (num ackDelayExponentParameterID (tp_AckDelayExponent p)) ++
  opt (DisableActiveMigration p) [(disableActiveMigrationParameterID, [])].
Definition set_common (p q : TransportParameters) : TransportParameters :=
  set_DisableActiveMigration (DisableActiveMigration p) (set_AckDelayExponent (tp_AckDelayExponent p) (set_MaxAckDelay (MaxAckDelay p / Millisecond * Millisecond)
    (set_DecoderFECScheme (DecoderFECScheme p) (set_EnableFEC (EnableFEC p) (set_MaxUDPPayloadSize MaxPacketBufferSize
      (set_MaxIdleTimeout (Z.max MinRemoteIdleTimeout (MaxIdleTimeout p / Millisecond * Millisecond)) q)))))).

Lemma common_read sentBy p q o i m : tp_wf p → MaxAckDelay q = DefaultMaxAckDelay → tp_AckDelayExponent q = DefaultAckDelayExponent → DisableActiveMigration q = false →
  reads_to sentBy (common p) (q, o, i, m) (set_common p q, o, i, m).
Proof.
  unfold common, set_common.
  intros [] Hd He Ha. destruct wf_fec0 as [F1 F2]. unfold is_byte in F2. pose proof (quot_ms _ wf_idle0) as Hq1.
  assert (0 ≤ MaxAckDelay p < 2 ^ 63) as Hd2 by (unfold MaxMaxAckDelay, Millisecond in *; lia). pose proof (quot_ms _ Hd2) as Hq2.
  assert (Hi : Z.quot (MaxIdleTimeout p) Millisecond = MaxIdleTimeout p / Millisecond) by (apply Z.quot_div_nonneg; unfold Millisecond; lia).
  assert (Hm : Z.quot (MaxAckDelay p) Millisecond = MaxAckDelay p / Millisecond) by (apply Z.quot_div_nonneg; unfold Millisecond; lia).
  rewrite Hi, Hm in *. eapply rt_app; [apply rt_num; [num_id|apply small_encodable; lia|apply numeric_Idle; [lia|]]|].
  { pose proof (Z.mul_div_le (MaxIdleTimeout p) Millisecond ltac:(done)). lia. }
  eapply rt_app; [apply rt_num; [num_id|by vm_compute|apply numeric_UDP]|].
  eapply rt_app; [apply rt_num; [num_id|apply small_encodable; lia|by apply numeric_FEC]|].
  eapply rt_app; [apply rt_num; [num_id|apply small_encodable; lia|by apply numeric_Scheme]|]. cbn [orb Z.eqb].
  eapply rt_app.
  { apply rt_opt. intros _. apply rt_num; [num_id|apply small_encodable; lia|]. apply numeric_AckDelay. split; [lia|].
    apply Z.div_lt_upper_bound; unfold MaxMaxAckDelay, Millisecond in *; lia. }
  eapply rt_app; [apply rt_opt; intros _; apply rt_num; [num_id|apply small_encodable; unfold MaxAckDelayExponent in *; lia|by apply numeric_Exponent]|].
  rewrite set_AckDelay_if, set_Exponent_if. set (c1 := negb _). set (c2 := negb _).
  match goal with |- reads_to _ _ (?a, _, _, _) _ => set (q' := a) end.
  assert (Eq : q' = set_AckDelayExponent (tp_AckDelayExponent p) (set_MaxAckDelay (MaxAckDelay p / Millisecond * Millisecond)
    (set_DecoderFECScheme (DecoderFECScheme p) (set_EnableFEC (EnableFEC p) (set_MaxUDPPayloadSize MaxPacketBufferSize
      (set_MaxIdleTimeout (Z.max MinRemoteIdleTimeout (MaxIdleTimeout p / Millisecond * Millisecond)) q)))))).
  { unfold q'. f_equal; [|f_equal].
    - unfold c2. destruct (Z.eqb_spec (tp_AckDelayExponent p) DefaultAckDelayExponent) as [->|]; [exact He|done].
    - unfold c1. destruct (Z.eqb_spec (MaxAckDelay p) DefaultMaxAckDelay) as [->|]; [exact Hd|done]. }
  rewrite Eq.
  rewrite <- (set_Disable_if (DisableActiveMigration p)) by exact Ha. clearbody c1 c2.
  destruct (DisableActiveMigration p); cbn [opt]; destruct c1, c2; cbn [orb]; first [apply rt_disable|apply rt_nil].
Qed.

(** The parameters behind those only a server sends. *)
Lemma last_read sentBy p q o i : tp_wf p → ActiveConnectionIDLimit q = 0 → MaxDatagramFrameSize q = InvalidByteCount →
  let c := negb (ActiveConnectionIDLimit p =? DefaultActiveConnectionIDLimit) in
  let q1 := set_InitialSourceConnectionID (InitialSourceConnectionID p) (set_ActiveConnectionIDLimit (if c then ActiveConnectionIDLimit p else 0) q) in
  reads_to sentBy (opt c (num activeConnectionIDLimitParameterID (ActiveConnectionIDLimit p)) ++
    [(initialSourceConnectionIDParameterID, ConnectionID_Bytes (InitialSourceConnectionID p))]) (q, o, i, false) (q1, o, true, c) ∧
  ∀ r m, reads_to sentBy (opt (negb (MaxDatagramFrameSize p =? InvalidByteCount)) (num maxDatagramFrameSizeParameterID (MaxDatagramFrameSize p)))
    (set_RetrySourceConnectionID r q1, o, i, m) (set_MaxDatagramFrameSize (MaxDatagramFrameSize p) (set_RetrySourceConnectionID r q1), o, i, m).
Proof.
  intros [] Hl Hd c q1. destruct wf_cids0 as [_ Hc]. split.
  - eapply rt_app; [apply rt_opt; intros _; apply rt_num; [num_id|unfold quicvarint.encodable; lia|apply numeric_Limit; lia]|].
    rewrite set_Limit_if, Hl. fold c. destruct c; cbn; by apply rt_iscid.
  - intros r m. destruct (Z.eqb_spec (MaxDatagramFrameSize p) InvalidByteCount) as [E|Hne]; cbn [negb opt].
    + rewrite E. match goal with |- reads_to _ _ (?a, _, _, _) (?b, _, _, _) => assert (b = a) as -> end; [|apply rt_nil].
      rewrite <- Hd. unfold q1. by destruct q.
    + destruct wf_datagram0; [done|]. apply rt_num; [num_id|done|by apply numeric_Datagram].
Qed.

(** All parameters: the flags, and the parameters once the default of
    active_connection_id_limit is filled in. *)
Lemma items_received random additional pers p : tp_wf p → Forall (λ it, it.1 ∉ knownParameterIDs) (grease random ++ additional) →
  ∃ q m, reads_to pers (items random additional pers p) (initialParameters, false, false, false) (q, bool_decide (pers = PerspectiveServer), true, m) ∧
    (if negb m then set_ActiveConnectionIDLimit DefaultActiveConnectionIDLimit q else q) = received pers p.
Proof.
  intros Hwf Hun. pose proof Hwf as []. destruct wf_cids0 as [Hc _]. apply Forall_app in Hun as [Hg Hadd].
  set (c := negb (ActiveConnectionIDLimit p =? DefaultActiveConnectionIDLimit)).
  assert (Hlim : (if c then ActiveConnectionIDLimit p else DefaultActiveConnectionIDLimit) = ActiveConnectionIDLimit p).
  { unfold c. by destruct (Z.eqb_spec (ActiveConnectionIDLimit p) DefaultActiveConnectionIDLimit). }
  set (q1 := set_common p (set_windows p initialParameters)).
  assert (Hstart : reads_to pers (grease random ++ windows p ++ common p) (initialParameters, false, false, false) (q1, false, false, false)).
  { eapply rt_app; [by apply rt_unknown|]. eapply rt_app; [by apply windows_read|]. by apply common_read. }
  assert (Ei : items random additional pers p = (grease random ++ windows p ++ common p) ++
    (let server := bool_decide (pers = PerspectiveServer) in
     opt server (opt_some (tp_StatelessResetToken p) (λ t, [(statelessResetTokenParameterID, t)])) ++
     opt server [(originalDestinationConnectionIDParameterID, ConnectionID_Bytes (OriginalDestinationConnectionID p))] ++
     opt server (opt_some (tp_PreferredAddress p) (λ a, [(preferredAddressParameterID, address_bytes a)])) ++
     (opt c (num activeConnectionIDLimitParameterID (ActiveConnectionIDLimit p)) ++
      [(initialSourceConnectionIDParameterID, ConnectionID_Bytes (InitialSourceConnectionID p))]) ++
     opt server (opt_some (RetrySourceConnectionID p) (λ c, [(retrySourceConnectionIDParameterID, ConnectionID_Bytes c)])) ++
     opt (negb (MaxDatagramFrameSize p =? InvalidByteCount)) (num maxDatagramFrameSizeParameterID (MaxDatagramFrameSize p)) ++
     opt (bool_decide (pers = PerspectiveClient)) additional)).
  { unfold items, common. cbv zeta. by rewrite <- !app_assoc. }
  rewrite Ei. clear Ei. destruct pers; cbv zeta.
  - set (q2 := set_PreferredAddress (tp_PreferredAddress p) (set_OriginalDestinationConnectionID (OriginalDestinationConnectionID p)
      (set_StatelessResetToken (tp_StatelessResetToken p) q1))).
    destruct (last_read PerspectiveServer p q2 true false Hwf eq_refl eq_refl) as [Hl1 _].
    destruct (last_read PerspectiveServer p q2 true true Hwf eq_refl eq_refl) as [_ Hl2]. fold c in Hl1, Hl2.
    eexists _, c. split.
    + eapply rt_app; [exact Hstart|]. eapply rt_app; [by apply rt_token|]. eapply rt_app; [by apply rt_odcid|]. eapply rt_app; [by apply rt_address|].
      eapply rt_app; [exact Hl1|]. eapply rt_app; [by apply rt_retry|]. eapply rt_app; [apply Hl2|]. apply rt_nil.
    + unfold received. rewrite <- Hlim. clearbody c. by destruct c.
  - destruct (last_read PerspectiveClient p q1 false false Hwf eq_refl eq_refl) as [Hl1 _].
    destruct (last_read PerspectiveClient p q1 false true Hwf eq_refl eq_refl) as [_ Hl2]. fold c in Hl1, Hl2.
    eexists _, c. split.
    + eapply rt_app; [exact Hstart|]. do 3 (eapply rt_app; [apply rt_nil|]). eapply rt_app; [exact Hl1|]. eapply rt_app; [apply rt_nil|].
      eapply rt_app; [apply (Hl2 None)|]. by apply rt_unknown.
    + unfold received. rewrite <- Hlim. clearbody c. by destruct c.
Qed.

(** Parameters are well-formed, and no ID is used twice. *)
Lemma num_ok id v : encodable id → encodable v → Forall item_ok (num id v).
Proof.
  intros Hid Hv. constructor; [|constructor]. split; [done|]. simpl. rewrite quicvarint.blen_enc by done.
  pose proof (quicvarint.size_range v Hv). apply small_encodable. lia.
Qed.

Lemma opt_ok c l : Forall item_ok l → Forall item_ok (opt c l).
Proof. destruct c; [done|]. intros _. constructor. Qed.

Lemma opt_some_ok {A} (x : option A) f : (∀ a, x = Some a → Forall item_ok (f a)) → Forall item_ok (opt_some x f).
Proof. destruct x; simpl; [auto|]. intros _. constructor. Qed.

Lemma one_ok id d : encodable id → encodable (blen d) → Forall item_ok [(id, d)].
Proof. intros. constructor; [done|constructor]. Qed.

Lemma windows_ok p : tp_wf p → Forall item_ok (windows p).
Proof.
  intros []. rewrite !Forall_cons in wf_windows0. destruct wf_windows0 as (W1 & W2 & W3 & W4 & _). unfold MaxStreamCount in *. unfold windows.
  repeat (apply Forall_app; split); (apply num_ok; [by vm_compute|first [done|apply small_encodable; lia]]).
Qed.

Lemma cid_ok c : ConnectionID_wf c → encodable (blen (ConnectionID_Bytes c)).
Proof. intros Hc. destruct (ConnectionID_Len_Bytes _ Hc) as [-> ?]. apply small_encodable. lia. Qed.

Lemma grease_ok random : bytes_ok random → blen random = 18 → Forall (λ it, item_ok it ∧ it.1 ∉ knownParameterIDs) (grease random).
Proof.
  intros Hb Hl. destruct random as [|r0 [|r1 rest]]; [constructor..|]. apply Forall_cons in Hb as [H0 _]. unfold is_byte in H0. rewrite !blen_cons in Hl.
  constructor; [|constructor]. pose proof (blen_nonneg (take (Z.to_nat (r1 mod 16)) rest)). split; [split; simpl|].
  - apply small_encodable. lia.
  - apply small_encodable. unfold blen in *. rewrite length_take in *. lia.
  - simpl. unfold knownParameterIDs, numericParameterIDs. intros Hin. cbn [app] in Hin.
    repeat (apply elem_of_cons in Hin as [Hin|Hin]; [revert Hin; match goal with |- _ = ?x → _ => let v := eval vm_compute in x in change x with v end; lia|]).
    by apply elem_of_nil in Hin.
Qed.

Lemma items_ok random additional pers p : tp_wf p → bytes_ok random → blen random = 18 → Forall item_ok additional →
  Forall item_ok (items random additional pers p).
Proof.
  intros Hwf Hb Hl Hadd. pose proof (windows_ok p Hwf) as Hw. destruct Hwf. pose proof (quot_ms _ wf_idle0) as Hq1.
  assert (0 ≤ MaxAckDelay p < 2 ^ 63) as Hd2 by (unfold MaxMaxAckDelay, Millisecond in *; lia). pose proof (quot_ms _ Hd2) as Hq2.
  destruct wf_fec0 as [F1 F2], wf_cids0. unfold is_byte in F2. unfold items. cbv zeta. unfold MaxAckDelayExponent in *.
  apply Forall_app; split; [eapply Forall_impl; [by apply grease_ok|]; by intros it []|]. apply Forall_app; split; [done|].
  do 4 (apply Forall_app; split; [apply num_ok; [by vm_compute|apply small_encodable; unfold MaxPacketBufferSize; lia]|]).
  do 2 (apply Forall_app; split; [apply opt_ok, num_ok; [by vm_compute|apply small_encodable; lia]|]).
  apply Forall_app; split; [apply opt_ok, one_ok; by vm_compute|].
  apply Forall_app; split; [apply opt_ok, opt_some_ok; intros t Ht; apply one_ok; [by vm_compute|by rewrite wf_token0]|].
  apply Forall_app; split; [apply opt_ok, one_ok; [by vm_compute|by apply cid_ok]|].
  apply Forall_app; split.
  { apply opt_ok, opt_some_ok. intros a Ha. apply one_ok; [by vm_compute|]. rewrite address_length by auto. destruct (wf_address0 a Ha) as (_ & _ & _ & _ & Hc & _).
    destruct (ConnectionID_Len_Bytes _ Hc). apply small_encodable. lia. }
  apply Forall_app; split; [apply opt_ok, num_ok; [by vm_compute|unfold quicvarint.encodable; lia]|].
  apply Forall_app; split; [apply one_ok; [by vm_compute|by apply cid_ok]|].
  apply Forall_app; split; [apply opt_ok, opt_some_ok; intros c Hc; apply one_ok; [by vm_compute|by apply cid_ok, wf_retry0]|].
  apply Forall_app; split; [|by apply opt_ok]. destruct (Z.eqb_spec (MaxDatagramFrameSize p) InvalidByteCount); [constructor|].
  apply num_ok; [by vm_compute|]. by destruct wf_datagram0.
Qed.

(** The IDs in the order in which they are written. *)
Definition writtenIDs : list Z := [
  initialMaxStreamDataBidiLocalParameterID; initialMaxStreamDataBidiRemoteParameterID; initialMaxStreamDataUniParameterID; initialMaxDataParameterID;
  initialMaxStreamsBidiParameterID; initialMaxStreamsUniParameterID; maxIdleTimeoutParameterID; maxUDPPayloadSizeParameterID; fecEnableParameterID;
  fecDecoderSchemeParameterID; maxAckDelayParameterID; ackDelayExponentParameterID; disableActiveMigrationParameterID; statelessResetTokenParameterID;
  originalDestinationConnectionIDParameterID; preferredAddressParameterID; activeConnectionIDLimitParameterID; initialSourceConnectionIDParameterID;
  retrySourceConnectionIDParameterID; maxDatagramFrameSizeParameterID].

Lemma sublist_opt c (l : list (Z * bytes)) id : fst <$> l `sublist_of` [id] → fst <$> opt c l `sublist_of` [id].
Proof. destruct c; [done|]. intros _. apply sublist_nil_l. Qed.
Lemma sublist_opt_some {A} (x : option A) f id : (∀ a, fst <$> f a `sublist_of` [id]) → fst <$> (opt_some x f : list (Z * bytes)) `sublist_of` [id].
Proof. destruct x; simpl; [auto|]. intros _. apply sublist_nil_l. Qed.

Lemma items_ids random additional pers p :
  fst <$> items random additional pers p `sublist_of` (fst <$> grease random) ++ writtenIDs ++ (fst <$> additional).
Proof.
  unfold items, windows. cbv zeta. rewrite <- !app_assoc, !fmap_app. apply sublist_app; [done|].
  do 10 (apply (sublist_app _ [_]); [done|]). do 3 (apply (sublist_app _ [_]); [by apply sublist_opt|]).
  apply (sublist_app _ [_]); [by apply sublist_opt, sublist_opt_some|]. apply (sublist_app _ [_]); [by apply sublist_opt|].
  apply (sublist_app _ [_]); [by apply sublist_opt, sublist_opt_some|]. apply (sublist_app _ [_]); [by apply sublist_opt|].
  apply (sublist_app _ [_]); [done|]. apply (sublist_app _ [_]); [by apply sublist_opt, sublist_opt_some|].
  apply (sublist_app _ [_]); [by apply sublist_opt|]. destruct pers; [apply sublist_nil_l|done].
Qed.

Lemma items_NoDup random additional pers p : bytes_ok random → blen random = 18 → Forall (λ it, it.1 ∉ knownParameterIDs) additional →
  NoDup (fst <$> (grease random ++ additional)) → NoDup (fst <$> items random additional pers p).
Proof.
  intros Hb Hl Hadd Hnd. eapply sublist_NoDup; [|apply items_ids]. rewrite fmap_app in Hnd. apply NoDup_app in Hnd as (N1 & N2 & N3).
  assert (Hw : ∀ x, x ∈ writtenIDs → x ∈ knownParameterIDs).
  { intros x Hx. revert x Hx. apply Forall_forall. apply (bool_decide_eq_true_1 _). by vm_compute. }
  assert (Hun : ∀ l : list (Z * bytes), Forall (λ it, it.1 ∉ knownParameterIDs) l → ∀ x, x ∈ fst <$> l → x ∉ writtenIDs).
  { intros l Hall x Hx Hin. apply list_elem_of_fmap in Hx as (it & -> & Hit). rewrite Forall_forall in Hall. apply (Hall it Hit). by apply Hw. }
  apply NoDup_app. split_and!; [done| |].
  - intros x Hx Hin. apply elem_of_app in Hin as [Hin|Hin]; [|by eapply N2]. eapply Hun; [|exact Hx|exact Hin].
    eapply Forall_impl; [by apply grease_ok|]. by intros it [].
  - apply NoDup_app. split_and!; [apply (bool_decide_eq_true_1 _); by vm_compute| |done]. intros x Hx Hin. by eapply Hun.
Qed.

Lemma tlvs_length l : Forall item_ok l → (length l ≤ length (tlvs l))%nat.
Proof.
  induction 1 as [|[id d] l [Hid _] _ IH]; [done|]. rewrite tlvs_cons. unfold tlv. rewrite !length_app. simpl.
  pose proof (quicvarint.size_range id Hid) as Hs. rewrite <- (quicvarint.blen_enc id Hid) in Hs. unfold blen in Hs. lia.
Qed.

(** Reading well-formed parameters with distinct IDs. *)
Lemma unmarshal_items sentBy l ticket q o i m : Forall item_ok l → NoDup (fst <$> l) →
  reads_to sentBy l (initialParameters, false, false, false) (q, o, i, m) → (ticket = false → (sentBy = PerspectiveServer → o = true) ∧ i = true) →
  let p := if negb m then set_ActiveConnectionIDLimit DefaultActiveConnectionIDLimit q else q in
  unmarshal noTransportParameters sentBy ticket (tlvs l) =
    (Ok (if ticket then p else if MaxUDPPayloadSize p =? 0 then set_MaxUDPPayloadSize MaxByteCount p else p), []).
Proof.
  intros Hok Hnd Hr Hflags p. destruct (Hr []) as [ids' Hread]. cbn [fst snd] in Hread. pose proof (items_read_ids _ _ _ _ Hread) as Hids. cbn [parameterIDs app] in Hids.
  unfold unmarshal. cbv zeta. fold initialParameters.
  rewrite (rd_bind_ok _ _ _ _ _ (loop_items _ _ _ _ (S (length (tlvs l))) Hread Hok ltac:(pose proof (tlvs_length l Hok); lia))).
  cbn [readLimit v_p readODCID readISCID parameterIDs]. fold p. rewrite Hids, (proj2 (duplicates_found _) Hnd). destruct ticket; cbn [negb andb]; [done|].
  destruct (Hflags eq_refl) as [Ho ->]. cbn [negb]. destruct sentBy; cbn [bool_decide decide_rel]; [by rewrite Ho by done|done].
Qed.

(** C28: transport parameters survive the handshake.  Whatever the random bytes
    and the additional (unknown) parameters of a client, [Marshal] writes
    parameters from which the peer's [Unmarshal] reads the same ones: durations in
    whole milliseconds, an idle timeout of at least five seconds, and none of the
    server's parameters from a client. *)
Theorem transport_parameters_roundtrip random additional pers p : tp_wf p → bytes_ok random → blen random = 18 →
  Forall item_ok additional → Forall (λ it, it.1 ∉ knownParameterIDs) additional → NoDup (fst <$> (grease random ++ additional)) →
  ∃ b, Marshal random additional pers p = Ok b ∧ Unmarshal b pers noTransportParameters = Ok (received pers p).
Proof.
  intros Hwf Hb Hl Hadd Hun Hnd. eexists. split; [by apply Marshal_items|].
  destruct (items_received random additional pers p Hwf) as (q & m & Hr & Hq).
  { apply Forall_app. split; [|done]. eapply Forall_impl; [by apply grease_ok|]. by intros it []. }
  unfold Unmarshal. rewrite (unmarshal_items _ _ false q _ true m (items_ok _ _ _ _ Hwf Hb Hl Hadd) (items_NoDup _ _ _ _ Hb Hl Hun Hnd) Hr).
  - cbn [fst]. by rewrite Hq.
  - intros _. split; [|done]. by intros ->.
Qed.

Definition example_parameters : TransportParameters :=
  mkTP 100 200 300 400 (30 * Millisecond) 7 true 0 5 6 (30000 * Millisecond)
    (Some (mkPreferredAddress (AddrPortFrom (AddrFrom4 [127; 0; 0; 1]) 4433) (AddrPortFrom (AddrFrom16 (replicate 15 0 ++ [1])) 4434)
             (mkConnectionID (cid_array [1; 2; 3]) 3) (replicate 16 9)))
    (mkConnectionID (cid_array [4; 5]) 2) (mkConnectionID (cid_array [6]) 1) None (Some (replicate 16 8)) 4 1200 1 2.

Lemma example_parameters_wf : tp_wf example_parameters.
Proof.
  split.
  - repeat constructor; vm_compute; discriminate.
  - vm_compute. intuition discriminate.
  - by vm_compute.
  - vm_compute. intuition discriminate.
  - vm_compute. intuition discriminate.
  - by intros t [= <-].
  - intros a [= <-]. unfold address_ok. cbn [IPv4 IPv6 ap_Addr ap_Port pa_ConnectionID pa_StatelessResetToken].
    split_and!; [by exists [127; 0; 0; 1]|by exists (replicate 15 0 ++ [1])|lia|lia|lia|lia|by exists [1; 2; 3]|done|done].
  - split; [by exists [4; 5]|by exists [6]].
  - done.
  - vm_compute. intuition discriminate.
  - right. vm_compute. intuition discriminate.
  - split; [by right|by vm_compute].
Qed.

Lemma transport_parameters_roundtrip_witness :
  ∃ b, Marshal (replicate 18 3) [] PerspectiveServer example_parameters = Ok b ∧
    Unmarshal b PerspectiveServer noTransportParameters = Ok (received PerspectiveServer example_parameters).
Proof.
  apply (transport_parameters_roundtrip (replicate 18 3) [] PerspectiveServer example_parameters).
  - apply example_parameters_wf.
  - apply Forall_replicate. done.
  - done.
  - constructor.
  - constructor.
  - apply NoDup_singleton.
Defined.

(** * Arbitrary input *)

(** Parameters within their limits; [final] once the defaults are filled in. *)
Record within_limits (sentBy : Perspective) (final : bool) (p : TransportParameters) : Prop := {
  wl_local : encodable (InitialMaxStreamDataBidiLocal p);
  wl_remote : encodable (InitialMaxStreamDataBidiRemote p);
  wl_uni : encodable (InitialMaxStreamDataUni p);
  wl_data : encodable (InitialMaxData p);
  wl_bidiStreams : 0 ≤ MaxBidiStreamNum p ≤ MaxStreamCount;
  wl_uniStreams : 0 ≤ MaxUniStreamNum p ≤ MaxStreamCount;
  wl_idle : MaxIdleTimeout p = 0 ∨ MinRemoteIdleTimeout ≤ MaxIdleTimeout p < 2 ^ 63;
  wl_ackDelay : 0 ≤ MaxAckDelay p ≤ MaxMaxAckDelay;
  wl_exponent : 0 ≤ tp_AckDelayExponent p ≤ MaxAckDelayExponent;
  wl_udp : final = false ∧ MaxUDPPayloadSize p = 0 ∨ 1200 ≤ MaxUDPPayloadSize p ≤ MaxByteCount;
  wl_limit : final = false ∧ ActiveConnectionIDLimit p = 0 ∨ 2 ≤ ActiveConnectionIDLimit p ≤ quicvarint.Max;
  wl_datagram : MaxDatagramFrameSize p = InvalidByteCount ∨ encodable (MaxDatagramFrameSize p);
  wl_fec : EnableFEC p = 0 ∨ EnableFEC p = 1;
  wl_scheme : is_byte (DecoderFECScheme p);
  wl_odcid : ConnectionID_wf (OriginalDestinationConnectionID p);
  wl_iscid : ConnectionID_wf (InitialSourceConnectionID p);
  wl_retry : ∀ c, RetrySourceConnectionID p = Some c → ConnectionID_wf c;
  wl_token : ∀ t, tp_StatelessResetToken p = Some t → blen t = 16;
  wl_address : ∀ a, tp_PreferredAddress p = Some a → address_ok a;
  wl_client : sentBy = PerspectiveClient → tp_StatelessResetToken p = None ∧ tp_PreferredAddress p = None ∧ RetrySourceConnectionID p = None ∧
    OriginalDestinationConnectionID p = ConnectionID_zero;
}.

Section safe.
Context (sentBy : Perspective).
Abbreviation good := (within_limits sentBy false).

Lemma numeric_limits id val p p' : encodable val → good p → numericParameter id val p = Ok p' → good p'.
Proof.
  intros Hv Hp. assert (Hi : i64 val = val) by by apply quicvarint.encodable_i64. assert (Hv' : 0 ≤ val < 2 ^ 62).
  { destruct Hv. unfold quicvarint.Max, quicvarint.maxVarInt8 in *. lia. }
  unfold numericParameter. rewrite !Hi.
  destruct (id =? initialMaxStreamDataBidiLocalParameterID); [intros [= <-]; destruct Hp; split; simpl; assumption|].
  destruct (id =? initialMaxStreamDataBidiRemoteParameterID); [intros [= <-]; destruct Hp; split; simpl; assumption|].
  destruct (id =? initialMaxStreamDataUniParameterID); [intros [= <-]; destruct Hp; split; simpl; assumption|].
  destruct (id =? initialMaxDataParameterID); [intros [= <-]; destruct Hp; split; simpl; assumption|].
  destruct (id =? initialMaxStreamsBidiParameterID).
  { destruct (Z.ltb_spec MaxStreamCount val); [discriminate|]. intros [= <-]. assert (0 ≤ val ≤ MaxStreamCount) by lia. destruct Hp. split; simpl; assumption. }
  destruct (id =? initialMaxStreamsUniParameterID).
  { destruct (Z.ltb_spec MaxStreamCount val); [discriminate|]. intros [= <-]. assert (0 ≤ val ≤ MaxStreamCount) by lia. destruct Hp. split; simpl; assumption. }
  destruct (id =? maxIdleTimeoutParameterID).
  { intros [= <-]. set (x := Z.max MinRemoteIdleTimeout (i64 (val * Millisecond))).
    assert (x = 0 ∨ MinRemoteIdleTimeout ≤ x < 2 ^ 63).
    { pose proof (i64_range (val * Millisecond)). unfold x, MinRemoteIdleTimeout, Millisecond in *. lia. }
    destruct Hp. split; simpl; assumption. }
  destruct (id =? maxUDPPayloadSizeParameterID).
  { destruct (Z.ltb_spec val 1200); [discriminate|]. intros [= <-]. assert (false = false ∧ val = 0 ∨ 1200 ≤ val ≤ MaxByteCount) by (unfold MaxByteCount; lia).
    destruct Hp. split; simpl; assumption. }
  destruct (id =? ackDelayExponentParameterID).
  { destruct (Z.ltb_spec MaxAckDelayExponent val); [discriminate|]. intros [= <-]. rewrite u8_small by (unfold MaxAckDelayExponent in *; lia).
    assert (0 ≤ val ≤ MaxAckDelayExponent) by lia. destruct Hp. split; simpl; assumption. }
  destruct (id =? maxAckDelayParameterID).
  { change (MaxMaxAckDelay / Millisecond) with (2 ^ 14 - 1). destruct (Z.ltb_spec (2 ^ 14 - 1) val); [discriminate|]. intros [= <-].
    rewrite i64_small by (unfold Millisecond; lia). assert (0 ≤ val * Millisecond ≤ MaxMaxAckDelay) by (unfold MaxMaxAckDelay, Millisecond; lia).
    destruct Hp. split; simpl; assumption. }
  destruct (id =? activeConnectionIDLimitParameterID).
  { destruct (Z.ltb_spec val 2); [discriminate|]. intros [= <-]. assert (false = false ∧ val = 0 ∨ 2 ≤ val ≤ quicvarint.Max) by (destruct Hv; lia).
    destruct Hp. split; simpl; assumption. }
  destruct (id =? maxDatagramFrameSizeParameterID).
  { intros [= <-]. assert (val = InvalidByteCount ∨ encodable val) by by right. destruct Hp. split; simpl; assumption. }
  destruct (id =? fecEnableParameterID).
  { destruct (Z.eqb_spec val 0) as [->|]; [intros [= <-]; assert (0 = 0 ∨ 0 = 1) by lia; destruct Hp; split; simpl; assumption|].
    destruct (Z.eqb_spec val 1) as [->|]; [|discriminate]. intros [= <-]. assert (1 = 0 ∨ 1 = 1) by lia. destruct Hp. split; simpl; assumption. }
  destruct (id =? fecDecoderSchemeParameterID); [|discriminate]. intros [= <-]. assert (is_byte (u8 val)) by apply u8_range. destruct Hp. split; simpl; assumption.
Qed.

Lemma numeric_no_panic id val p m : numericParameter id val p ≠ Panic m.
Proof. unfold numericParameter. repeat case_match; discriminate. Qed.

(** Only [active_connection_id_limit] changes the limit, to two or more. *)
Lemma numeric_idLimit id val p p' : numericParameter id val p = Ok p' →
  if id =? activeConnectionIDLimitParameterID then 2 ≤ ActiveConnectionIDLimit p' else ActiveConnectionIDLimit p' = ActiveConnectionIDLimit p.
Proof.
  destruct (Z.eqb_spec id activeConnectionIDLimitParameterID) as [->|Hne].
  - unfold numericParameter. repeat match goal with |- context [activeConnectionIDLimitParameterID =? ?b] =>
      let x := eval vm_compute in (activeConnectionIDLimitParameterID =? b) in change (activeConnectionIDLimitParameterID =? b) with x; cbv iota end.
    destruct (Z.ltb_spec val 2); [discriminate|]. by intros [= <-].
  - apply Z.eqb_neq in Hne. unfold numericParameter. rewrite Hne. repeat case_match; try discriminate; by intros [= <-].
Qed.

Lemma readNumeric_safe N id n p : good p → rd_safe N (λ p', good p' ∧
  if id =? activeConnectionIDLimitParameterID then 2 ≤ ActiveConnectionIDLimit p' else ActiveConnectionIDLimit p' = ActiveConnectionIDLimit p)
  (readNumericTransportParameter id n p).
Proof.
  intros Hp. unfold readNumericTransportParameter. eapply rd_safe_bind; [apply rd_len_safe|]. intros l _.
  eapply (rd_safe_bind N encodable).
  - intros s Hs. pose proof (quicvarint.Read_safe N s Hs) as Hr. by destruct (quicvarint.Read s) as [[v|e|m] s'].
  - intros v Hv. eapply rd_safe_bind; [apply rd_len_safe|]. intros l' _. destruct (negb _); [apply rd_safe_fail|]. intros s _.
    destruct (numericParameter id v p) as [p'|e|m] eqn:E; [|done|by eapply numeric_no_panic].
    split; [split; [by eapply numeric_limits|by eapply numeric_idLimit]|done].
Qed.

Lemma ReadUint16_safe N : rd_safe N (λ v, 0 ≤ v < 2 ^ 16) ReadUint16.
Proof.
  unfold ReadUint16. eapply rd_safe_bind; [apply ReadByte_safe|intros b2 _]. eapply rd_safe_bind; [apply ReadByte_safe|intros b1 _].
  apply rd_safe_ret. unfold Uint16, u16. by apply Z.mod_pos_bound.
Qed.

Lemma readPreferredAddress_safe N n p : sentBy = PerspectiveServer → good p →
  rd_safe N (λ p', good p' ∧ ActiveConnectionIDLimit p' = ActiveConnectionIDLimit p) (readPreferredAddress n p).
Proof.
  intros Hs Hp. unfold readPreferredAddress. eapply rd_safe_bind; [apply rd_len_safe|intros l _]. eapply rd_safe_bind; [by apply ReadFull_safe|intros b4 [H4 _]].
  eapply rd_safe_bind; [apply ReadUint16_safe|intros p4 [Hp4 Hp4']]. eapply rd_safe_bind; [by apply ReadFull_safe|intros b6 [H6 _]].
  eapply rd_safe_bind; [apply ReadUint16_safe|intros p6 [Hp6 Hp6']]. eapply rd_safe_bind; [apply ReadByte_safe|intros cl [Hcl _]].
  destruct (Z.eqb_spec cl 0) as [|Hcl0]; [apply rd_safe_fail|]. destruct (MaxConnIDLen <? cl); [apply rd_safe_fail|]. cbn [orb].
  eapply rd_safe_bind; [by apply ReadConnectionID_safe|intros c [Hc Hc1]]. eapply rd_safe_bind; [by apply ReadFull_safe|intros t [Ht _]].
  eapply rd_safe_bind; [apply rd_len_safe|intros l' _]. destruct (negb _); [apply rd_safe_fail|]. apply rd_safe_ret.
  set (a := mkPreferredAddress _ _ _ _). assert (Ha : ∀ x, Some a = Some x → address_ok x).
  { intros x [= <-]. unfold address_ok, a. cbn [IPv4 IPv6 ap_Addr ap_Port pa_ConnectionID pa_StatelessResetToken].
    split_and!; [by exists b4|by exists b6|lia|lia|lia|lia|done|congruence|done]. }
  assert (Hcl' : sentBy = PerspectiveClient → tp_StatelessResetToken p = None ∧ Some a = None ∧ RetrySourceConnectionID p = None ∧
    OriginalDestinationConnectionID p = ConnectionID_zero) by congruence.
  split; [|reflexivity]. destruct Hp. split; simpl; assumption.
Qed.

Lemma readConnID_safe N l : 0 ≤ l → rd_safe N ConnectionID_wf (readConnID l).
Proof.
  intros Hl s Hs. unfold readConnID. pose proof (ReadConnectionID_safe N l Hl s Hs) as Hr. destruct (ReadConnectionID l s) as [[c|e|m] s']; [| |done].
  - destruct Hr as [[Hc _] Hsuf]. done.
  - split; [by exists []|done].
Qed.

Lemma readToken_safe N : rd_safe N (λ t, blen t = 16) readToken.
Proof.
  intros s _. unfold readToken. split; [|exists (take 16 s); by rewrite take_drop]. unfold blen. rewrite length_app, length_take, length_replicate. lia.
Qed.

Lemma rd_skip_safe N n : rd_safe N (λ _, True) (rd_skip n).
Proof. intros s _. split; [done|]. exists (take (Z.to_nat n) s). by rewrite take_drop. Qed.

(** Once the limit of connection IDs is read, it is at least two. *)
Definition vgood (v : vars) : Prop := good (v_p v) ∧ (readLimit v = true → 2 ≤ ActiveConnectionIDLimit (v_p v)).

Lemma readParameter_safe N id n v : 0 ≤ n → vgood v → rd_safe N vgood (readParameter sentBy id n v).
Proof.
  intros Hn [Hv Hl]. unfold readParameter. destruct (bool_decide (id ∈ numericParameterIDs)).
  { eapply rd_safe_bind; [apply readNumeric_safe; by destruct (_ =? _)|]. intros p [Hp Hp']. apply rd_safe_ret. split; [done|].
    destruct (id =? activeConnectionIDLimitParameterID); [done|]. cbn [set_p v_p readLimit]. by rewrite Hp'. }
  assert (Hserver : bool_decide (sentBy = PerspectiveClient) = false → sentBy = PerspectiveServer) by (destruct sentBy; done).
  destruct (id =? preferredAddressParameterID).
  { destruct (bool_decide (sentBy = PerspectiveClient)); [apply rd_safe_fail|]. specialize (Hserver eq_refl).
    eapply rd_safe_bind; [by apply readPreferredAddress_safe|]. intros p [Hp Hp']. apply rd_safe_ret. split; [done|]. cbn [set_p v_p readLimit]. by rewrite Hp'. }
  destruct (id =? disableActiveMigrationParameterID).
  { destruct (negb _); [apply rd_safe_fail|]. apply rd_safe_ret. split; [|exact Hl]. cbn [set_p v_p]. destruct Hv. split; simpl; assumption. }
  destruct (id =? statelessResetTokenParameterID).
  { destruct (bool_decide (sentBy = PerspectiveClient)); [apply rd_safe_fail|]. specialize (Hserver eq_refl). destruct (negb _); [apply rd_safe_fail|].
    eapply rd_safe_bind; [apply readToken_safe|]. intros t Ht. apply rd_safe_ret. split; [|exact Hl]. cbn [set_p v_p].
    assert (∀ x, Some t = Some x → blen x = 16) by (by intros x [= <-]). destruct Hv. split; simpl; first [assumption|congruence]. }
  destruct (id =? originalDestinationConnectionIDParameterID).
  { destruct (bool_decide (sentBy = PerspectiveClient)); [apply rd_safe_fail|]. specialize (Hserver eq_refl).
    eapply rd_safe_bind; [by apply readConnID_safe|]. intros c Hc. apply rd_safe_ret. split; [|exact Hl]. cbn [set_ODCID set_p v_p]. destruct Hv. split; simpl; first [assumption|congruence]. }
  destruct (id =? initialSourceConnectionIDParameterID).
  { eapply rd_safe_bind; [by apply readConnID_safe|]. intros c Hc. apply rd_safe_ret. split; [|exact Hl]. cbn [set_ISCID set_p v_p]. destruct Hv. split; simpl; assumption. }
  destruct (id =? retrySourceConnectionIDParameterID).
  { destruct (bool_decide (sentBy = PerspectiveClient)); [apply rd_safe_fail|]. specialize (Hserver eq_refl).
    eapply rd_safe_bind; [by apply readConnID_safe|]. intros c Hc. apply rd_safe_ret. split; [|exact Hl]. cbn [set_p v_p].
    assert (∀ x, Some c = Some x → ConnectionID_wf x) by (by intros x [= <-]). destruct Hv. split; simpl; first [assumption|congruence]. }
  eapply rd_safe_bind; [apply rd_skip_safe|]. intros _ _. by apply rd_safe_ret.
Qed.

Lemma unmarshal_loop_safe N fuel v s : input_ok N s → vgood v → (length s < fuel)%nat →
  match unmarshal_loop fuel sentBy v s with
  | (Ok v', s') => vgood v' ∧ s' `suffix_of` s
  | (Err _, s') => s' `suffix_of` s
  | (Panic _, _) => False
  end.
Proof.
  revert v s. induction fuel as [|fuel IH]; intros v s Hs Hv Hf; [lia|]. cbn [unmarshal_loop]. rewrite rd_len_bind.
  destruct (Z.leb_spec (blen s) 0) as [|Hpos]; [done|]. pose proof (quicvarint.Read_safe N s Hs) as Hr1.
  destruct (quicvarint.Read s) as [[id|e|m] s1] eqn:E1; [|by rewrite (rd_bind_err _ _ _ _ _ E1)|done]. rewrite (rd_bind_ok _ _ _ _ _ E1).
  destruct Hr1 as [Hid Hsuf1]. destruct (quicvarint.Read_inv s id s1 (proj1 Hs) E1) as (_ & _ & w & Hw & Hwl).
  pose proof (input_ok_suffix _ _ _ Hsuf1 Hs) as Hs1. pose proof (quicvarint.Read_safe N s1 Hs1) as Hr2.
  destruct (quicvarint.Read s1) as [[n|e|m] s2] eqn:E2; [|rewrite (rd_bind_err _ _ _ _ _ E2); by etrans|done]. rewrite (rd_bind_ok _ _ _ _ _ E2).
  destruct Hr2 as [Hn Hsuf2]. assert (Hsuf : s2 `suffix_of` s) by (by etrans). rewrite rd_len_bind. destruct (blen s2 <? n); [exact Hsuf|].
  pose proof (input_ok_suffix _ _ _ Hsuf2 Hs1) as Hs2. pose proof (readParameter_safe N id n (seen id v) (proj1 Hn) Hv s2 Hs2) as Hr3.
  destruct (readParameter sentBy id n (seen id v) s2) as [[v'|e|m] s3] eqn:E3; [|rewrite (rd_bind_err _ _ _ _ _ E3); by etrans|done].
  rewrite (rd_bind_ok _ _ _ _ _ E3). destruct Hr3 as [Hv' Hsuf3]. assert (Hl : (length s3 < length s)%nat).
  { destruct Hsuf3 as [x3 ->], Hsuf2 as [x2 ->]. rewrite Hw, !length_app. unfold blen in Hwl. lia. }
  specialize (IH v' s3 (input_ok_suffix _ _ _ Hsuf3 Hs2) Hv' ltac:(lia)). destruct (unmarshal_loop fuel sentBy v' s3) as [[v4|e|m] s4]; [|by do 2 etrans|done].
  destruct IH as [Hg Hsuf4]. split; [done|]. by do 2 etrans.
Qed.

Lemma initial_good : good initialParameters.
Proof.
  assert (encodable 0) by by vm_compute. assert (ConnectionID_wf ConnectionID_zero) by by exists [].
  split; cbn; try assumption; try (by intros x [=]).
  - by left.
  - vm_compute. intuition discriminate.
  - vm_compute. intuition discriminate.
  - by left.
  - by left.
  - by left.
  - by left.
  - by vm_compute.
  - done.
Qed.

(** The defaults are filled in. *)
Lemma final_limits v : vgood v →
  let p := if negb (readLimit v) then set_ActiveConnectionIDLimit DefaultActiveConnectionIDLimit (v_p v) else v_p v in
  within_limits sentBy true (if MaxUDPPayloadSize p =? 0 then set_MaxUDPPayloadSize MaxByteCount p else p).
Proof.
  intros [Hg Hl] p.
  assert (Hlim : 2 ≤ ActiveConnectionIDLimit p ≤ quicvarint.Max).
  { unfold p. destruct (readLimit v); cbn; [|by vm_compute]. specialize (Hl eq_refl). destruct (wl_limit _ _ _ Hg) as [[_ Hz]|]; lia. }
  assert (Hp : good p).
  { unfold p. destruct (readLimit v); cbn; [done|]. assert (false = false ∧ 2 = 0 ∨ 2 ≤ 2 ≤ quicvarint.Max) by (right; by vm_compute).
    destruct Hg. split; simpl; assumption. }
  clearbody p. assert (H1 : true = false ∧ ActiveConnectionIDLimit p = 0 ∨ 2 ≤ ActiveConnectionIDLimit p ≤ quicvarint.Max) by by right.
  destruct (Z.eqb_spec (MaxUDPPayloadSize p) 0) as [Hz|Hnz].
  - assert (true = false ∧ MaxByteCount = 0 ∨ 1200 ≤ MaxByteCount ≤ MaxByteCount) by (right; by vm_compute). destruct Hp. split; simpl; assumption.
  - assert (true = false ∧ MaxUDPPayloadSize p = 0 ∨ 1200 ≤ MaxUDPPayloadSize p ≤ MaxByteCount) by (destruct (wl_udp _ _ _ Hp) as [[_ Hz]|Hr]; [destruct (Hnz Hz)|right; exact Hr]).
    destruct Hp. split; simpl; assumption.
Qed.
End safe.

(** Whatever a peer sends as transport parameters, [Unmarshal] ends without
    a panic: with a TRANSPORT_PARAMETER_ERROR, or with parameters that are all
    within the limits of the protocol (and none of a server's parameters from a
    client), no parameter having been read twice. *)
Theorem Unmarshal_limits N data sentBy : input_ok N data →
  match Unmarshal data sentBy noTransportParameters with
  | Ok p => within_limits sentBy true p ∧
      ∃ v s, unmarshal_loop (S (length data)) sentBy (mkVars initialParameters [] false false false) data = (Ok v, s) ∧
        NoDup (parameterIDs v) ∧ readISCID v = true ∧ (sentBy = PerspectiveServer → readODCID v = true)
  | Err e => ∃ c, e = TransportError TransportParameterError 0 c
  | Panic _ => False
  end.
Proof.
  intros Hd. unfold Unmarshal, unmarshal. cbv zeta. fold initialParameters.
  assert (Hv0 : vgood sentBy (mkVars initialParameters [] false false false)) by (split; [apply initial_good|done]).
  pose proof (unmarshal_loop_safe sentBy N (S (length data)) _ data Hd Hv0 ltac:(lia)) as Hs.
  destruct (unmarshal_loop (S (length data)) sentBy _ data) as [[v|e|m] s] eqn:E; [| |done].
  - rewrite (rd_bind_ok _ _ _ _ _ E). destruct Hs as [Hg _]. pose proof (final_limits sentBy v Hg) as Hf. cbn [negb andb].
    destruct (bool_decide (sentBy = PerspectiveServer) && negb (readODCID v)) eqn:Eo; [by eexists|].
    destruct (readISCID v) eqn:Ei; cbn [negb]; [|by eexists].
    destruct (adjacent_equal _) eqn:Ed; [by eexists|]. split; [exact Hf|]. exists v, s. split_and!; [done|by apply duplicates_found|done|].
    intros ->. by destruct (readODCID v).
  - rewrite (rd_bind_err _ _ _ _ _ E). by eexists.
Qed.

Lemma Unmarshal_limits_witness : input_ok 100 (tlv initialSourceConnectionIDParameterID [1; 2] ++ tlv initialMaxDataParameterID (enc 1000)) ∧
  match Unmarshal (tlv initialSourceConnectionIDParameterID [1; 2] ++ tlv initialMaxDataParameterID (enc 1000)) PerspectiveClient noTransportParameters with
  | Ok p => InitialMaxData p = 1000 ∧ within_limits PerspectiveClient true p
  | _ => False
  end.
Proof.
  assert (Hok : input_ok 100 (tlv initialSourceConnectionIDParameterID [1; 2] ++ tlv initialMaxDataParameterID (enc 1000))).
  { split; [apply (bool_decide_eq_true_1 _)|]; by vm_compute. }
  split; [exact Hok|]. pose proof (Unmarshal_limits 100 _ PerspectiveClient Hok) as H.
  destruct (Unmarshal _ _ _) as [p|e|m] eqn:E; [|by vm_compute in E|exact H]. split; [|apply H]. vm_compute in E. by injection E as <-.
Defined.

(** * Session tickets *)

(** What a client remembers of a server's parameters. *)
Definition remembered (p : TransportParameters) : TransportParameters :=
  set_ActiveConnectionIDLimit (ActiveConnectionIDLimit p) (set_MaxDatagramFrameSize (MaxDatagramFrameSize p) (set_windows p initialParameters)).
Definition ticketItems (p : TransportParameters) : list (Z * bytes) :=
  windows p ++ opt (negb (MaxDatagramFrameSize p =? InvalidByteCount)) (num maxDatagramFrameSizeParameterID (MaxDatagramFrameSize p)) ++
  num activeConnectionIDLimitParameterID (ActiveConnectionIDLimit p).

Lemma Ticket_items b p : tp_wf p → MarshalForSessionTicket b p = Ok (b ++ enc transportParameterMarshalingVersion ++ tlvs (ticketItems p)).
Proof.
  intros []. rewrite !Forall_cons in wf_windows0. destruct wf_windows0 as (W1 & W2 & W3 & W4 & _). destruct wf_streams0 as [Hs1 Hs2]. unfold MaxStreamCount in *.
  assert (encodable (ActiveConnectionIDLimit p)) as Hlim by (unfold quicvarint.encodable; lia).
  unfold MarshalForSessionTicket. rewrite quicvarint.Append_enc, res_bind_ok by (by vm_compute). rewrite app_assoc.
  set (b' := b ++ _). clearbody b'. revert b'. unfold ticketItems, windows. rewrite <- !app_assoc.
  do 6 (apply writes_bind; [apply writes_num; [by vm_compute|first [done|apply small_encodable; lia]]|]).
  apply writes_bind; [apply writes_opt; intros Hn; apply writes_num; [by vm_compute|]|apply writes_num'; [by vm_compute|done]].
  destruct wf_datagram0 as [E|]; [|done]. by rewrite E in Hn.
Qed.

Lemma ticket_read p : tp_wf p → reads_to PerspectiveServer (ticketItems p) (initialParameters, false, false, false) (remembered p, false, false, true).
Proof.
  intros Hwf. pose proof Hwf as []. unfold ticketItems. eapply rt_app; [by apply windows_read|].
  set (q := set_windows p initialParameters). apply (rt_app _ _ _ _ (set_MaxDatagramFrameSize (MaxDatagramFrameSize p) q, false, false, false)).
  - destruct (Z.eqb_spec (MaxDatagramFrameSize p) InvalidByteCount) as [E|Hne]; cbn [negb opt].
    + rewrite E. assert (set_MaxDatagramFrameSize InvalidByteCount q = q) as -> by done. apply rt_nil.
    + destruct wf_datagram0; [done|]. apply rt_num; [num_id|done|by apply numeric_Datagram].
  - apply rt_num; [num_id|unfold quicvarint.encodable; lia|apply numeric_Limit; lia].
Qed.

Lemma ticket_ok p : tp_wf p → Forall item_ok (ticketItems p).
Proof.
  intros Hwf. apply Forall_app. split; [by apply windows_ok|]. destruct Hwf. apply Forall_app. split.
  - destruct (Z.eqb_spec (MaxDatagramFrameSize p) InvalidByteCount); [constructor|]. apply num_ok; [by vm_compute|]. by destruct wf_datagram0.
  - apply num_ok; [by vm_compute|]. unfold quicvarint.encodable. lia.
Qed.

Lemma ticket_NoDup p : NoDup (fst <$> ticketItems p).
Proof. unfold ticketItems. destruct (negb _); cbn; apply (bool_decide_eq_true_1 _); by vm_compute. Qed.

(** The limits a server must not lower while it accepts 0-RTT. *)
Definition not_reduced (saved p : TransportParameters) : Prop :=
  InitialMaxStreamDataBidiLocal saved ≤ InitialMaxStreamDataBidiLocal p ∧ InitialMaxStreamDataBidiRemote saved ≤ InitialMaxStreamDataBidiRemote p ∧
  InitialMaxStreamDataUni saved ≤ InitialMaxStreamDataUni p ∧ InitialMaxData saved ≤ InitialMaxData p ∧
  MaxBidiStreamNum saved ≤ MaxBidiStreamNum p ∧ MaxUniStreamNum saved ≤ MaxUniStreamNum p ∧
  (MaxDatagramFrameSize saved = InvalidByteCount ∨ MaxDatagramFrameSize p ≠ InvalidByteCount ∧ MaxDatagramFrameSize saved ≤ MaxDatagramFrameSize p).

Lemma datagram_reduced_false saved p : datagram_reduced saved p = false ↔
  MaxDatagramFrameSize saved = InvalidByteCount ∨ MaxDatagramFrameSize p ≠ InvalidByteCount ∧ MaxDatagramFrameSize saved ≤ MaxDatagramFrameSize p.
Proof. unfold datagram_reduced. rewrite andb_false_iff, orb_false_iff, negb_false_iff, Z.eqb_eq, Z.eqb_neq, Z.ltb_ge. done. Qed.

Lemma ValidFor0RTT_spec saved p : ValidFor0RTT saved p = true ↔ not_reduced saved p ∧ ActiveConnectionIDLimit p = ActiveConnectionIDLimit saved.
Proof.
  unfold ValidFor0RTT, not_reduced. rewrite <- datagram_reduced_false. destruct (datagram_reduced saved p); [naive_solver|].
  rewrite !andb_true_iff, !Z.leb_le, Z.eqb_eq. naive_solver.
Qed.

Lemma ValidForUpdate_spec saved p : ValidForUpdate saved p = true ↔ not_reduced saved p ∧ ActiveConnectionIDLimit saved ≤ ActiveConnectionIDLimit p.
Proof.
  unfold ValidForUpdate, not_reduced. rewrite <- datagram_reduced_false. destruct (datagram_reduced saved p); [naive_solver|].
  rewrite !andb_true_iff, !Z.leb_le. naive_solver.
Qed.

(** Session tickets: the parameters a server stores in a ticket are read back
    from it, and a server accepts 0-RTT with them exactly when none of its limits
    went down and the number of connection IDs is the same; then a client that
    remembers them accepts the server's new parameters. *)
Theorem session_ticket p : tp_wf p →
  ∃ b, MarshalForSessionTicket [] p = Ok b ∧ UnmarshalFromSessionTicket noTransportParameters b = (Ok (remembered p), []) ∧
    ∀ p', (ValidFor0RTT (remembered p) p' = true ↔ not_reduced p p' ∧ ActiveConnectionIDLimit p' = ActiveConnectionIDLimit p) ∧
      (ValidFor0RTT (remembered p) p' = true → ValidForUpdate (remembered p) p' = true).
Proof.
  intros Hwf. eexists. split; [by apply Ticket_items|]. split.
  - unfold UnmarshalFromSessionTicket. cbn [app]. rewrite (rd_bind_ok _ _ _ _ _ (quicvarint.Read_enc transportParameterMarshalingVersion _ ltac:(by vm_compute))).
    cbn [Z.eqb negb transportParameterMarshalingVersion Pos.eqb].
    by rewrite (unmarshal_items _ _ true _ _ _ _ (ticket_ok p Hwf) (ticket_NoDup p) (ticket_read p Hwf)).
  - intros p'. rewrite ValidForUpdate_spec, ValidFor0RTT_spec. split; [done|]. intros [? ->]. split; [done|lia].
Qed.

Lemma session_ticket_witness : ∃ b, MarshalForSessionTicket [] example_parameters = Ok b ∧
  UnmarshalFromSessionTicket noTransportParameters b = (Ok (remembered example_parameters), []).
Proof. destruct (session_ticket example_parameters example_parameters_wf) as (b & H1 & H2 & _). by exists b. Defined.

(** * What the reader also accepts *)

(** A connection ID of 21 bytes: the error is dropped, the ID is taken to be
    empty, and its bytes are read as further parameters (here, an
    initial_max_data of 63). *)
Example long_connection_id_reparsed :
  match Unmarshal ([0xf; 21] ++ tlv initialMaxDataParameterID [63] ++ tlv 27 (replicate 16 0)) PerspectiveClient noTransportParameters with
  | Ok p => InitialSourceConnectionID p = ConnectionID_zero ∧ InitialMaxData p = 63
  | _ => False
  end.
Proof. by vm_compute. Qed.

(** An idle timeout of more than 292 years overflows [time.Duration]: the
    connection times out after five seconds. *)
Example huge_idle_timeout :
  match Unmarshal (tlv initialSourceConnectionIDParameterID [] ++ tlv maxIdleTimeoutParameterID (enc (2 ^ 44))) PerspectiveClient noTransportParameters with
  | Ok p => MaxIdleTimeout p = MinRemoteIdleTimeout
  | _ => False
  end.
Proof. by vm_compute. Qed.

(** A FEC scheme of more than eight bits is truncated: 258 selects scheme 2. *)
Example fec_scheme_truncated :
  match Unmarshal (tlv initialSourceConnectionIDParameterID [] ++ tlv fecDecoderSchemeParameterID (enc 258)) PerspectiveClient noTransportParameters with
  | Ok p => DecoderFECScheme p = 2
  | _ => False
  end.
Proof. by vm_compute. Qed.

End transportParameters.
