(* ===== verification/ConnectionIDs.v ===== *)
(** Connection IDs: those an endpoint issues (conn_id_generator.go), those of its
    peer it uses (conn_id_manager.go), and the packet handler map that routes
    packets to connections (packet_handler_map.go, closed_conn.go,
    internal/utils/rand.go).  A manager keeps account of every ID it was given,
    whatever the peer sends. *)

From stdpp Require Import sorting.
From S2P Require Import Prelude.
From S2P Require Import Protocol.
From S2P Require Import Frames.
From S2P Require Import FrameParser.
From S2P Require Import Headers.

Module connIDs.
Import protocol wire parser headers.

#[global] Instance ConnectionID_countable : Countable ConnectionID.
Proof.
  refine (inj_countable' (λ c, (cid_b c, cid_l c)) (λ x, mkConnectionID x.1 x.2) _). by intros [].
Defined.

(** * Constants *)

Definition MaxActiveConnectionIDs : Z := 4.
Definition MaxIssuedConnectionIDs : Z := 6.
Definition PacketsPerConnectionID : Z := 10000.
Definition MinConnectionIDLenInitial : Z := 8.
Definition RetiredConnectionIDDeleteTimeout : Z := 5 * 10 ^ 9.

(** * Closed connections *)

(** [closedLocalConn]: the CONNECTION_CLOSE packet and the packets received. *)
Record closedLocalConn := mkClosedLocal { counter : Z; connClosePacket : bytes }.

Fixpoint OnesCount_pos (p : positive) : Z :=
  match p with xH => 1 | xO p => OnesCount_pos p | xI p => 1 + OnesCount_pos p end.
Definition OnesCount32 (x : Z) : Z := match u32 x with Zpos p => OnesCount_pos p | _ => 0 end.

(** [closedLocalConn.handlePacket]: whether the packet is sent again. *)
Definition closedLocal_handlePacket (c : closedLocalConn) : closedLocalConn * bool :=
  let c := mkClosedLocal (u32 (counter c + 1)) (connClosePacket c) in
  (c, OnesCount32 (counter c) =? 1).

(** * The packet handler map *)

(** A handler: a connection, or one that was closed here (with its number) or by
    the peer. *)
Inductive packetHandler := HConn (conn : nat) | HClosedLocal (n : nat) | HClosedRemote.
#[global] Instance packetHandler_eq_dec : EqDecision packetHandler.
Proof. solve_decision. Defined.

(** The maps, the pending [time.AfterFunc] calls (when, and the connection IDs to
    delete) with the clock, the connections closed here, the HMAC of the stateless
    reset key if there is one, and the random numbers to come. *)
Record packetHandlerMap := mkHandlerMap {
  handlers : gmap ConnectionID packetHandler;
  resetTokens : gmap bytes packetHandler;
  hm_closed : bool;
  clock : Z;
  timers : list (Z * list ConnectionID);
  closedLocals : list closedLocalConn;
  statelessResetHasher : option (bytes → bytes);
  hm_random : list bytes;
}.

Definition newPacketHandlerMap (hasher : option (bytes → bytes)) (now : Z) (random : list bytes) : packetHandlerMap :=
  mkHandlerMap ∅ ∅ false now [] [] hasher random.

Definition set_handlers (x : gmap ConnectionID packetHandler) (h : packetHandlerMap) : packetHandlerMap :=
  mkHandlerMap x (resetTokens h) (hm_closed h) (clock h) (timers h) (closedLocals h) (statelessResetHasher h) (hm_random h).
Definition set_resetTokens (x : gmap bytes packetHandler) (h : packetHandlerMap) : packetHandlerMap :=
  mkHandlerMap (handlers h) x (hm_closed h) (clock h) (timers h) (closedLocals h) (statelessResetHasher h) (hm_random h).
Definition set_timers (x : list (Z * list ConnectionID)) (h : packetHandlerMap) : packetHandlerMap :=
  mkHandlerMap (handlers h) (resetTokens h) (hm_closed h) (clock h) x (closedLocals h) (statelessResetHasher h) (hm_random h).
Definition set_closedLocals (x : list closedLocalConn) (h : packetHandlerMap) : packetHandlerMap :=
  mkHandlerMap (handlers h) (resetTokens h) (hm_closed h) (clock h) (timers h) x (statelessResetHasher h) (hm_random h).

Definition hm_Get (h : packetHandlerMap) (id : ConnectionID) : option packetHandler := handlers h !! id.

(** [Add]: whether it was added. *)
Definition hm_Add (id : ConnectionID) (handler : packetHandler) (h : packetHandlerMap) : bool * packetHandlerMap :=
  match handlers h !! id with
  | Some _ => (false, h)
  | None => (true, set_handlers (<[id := handler]> (handlers h)) h)
  end.

Definition AddWithConnID (clientDestConnID newConnID : ConnectionID) (handler : packetHandler) (h : packetHandlerMap) : bool * packetHandlerMap :=
  match handlers h !! clientDestConnID with
  | Some _ => (false, h)
  | None => (true, set_handlers (<[newConnID := handler]> (<[clientDestConnID := handler]> (handlers h))) h)
  end.

Definition hm_Remove (id : ConnectionID) (h : packetHandlerMap) : packetHandlerMap := set_handlers (delete id (handlers h)) h.

Definition AfterFunc (ids : list ConnectionID) (h : packetHandlerMap) : packetHandlerMap :=
  set_timers (timers h ++ [(clock h + RetiredConnectionIDDeleteTimeout, ids)]) h.
Definition hm_Retire (id : ConnectionID) (h : packetHandlerMap) : packetHandlerMap := AfterFunc [id] h.

Definition hm_ReplaceWithClosed (ids : list ConnectionID) (connClosePacket : option bytes) (h : packetHandlerMap) : packetHandlerMap :=
  let '(handler, h) := match connClosePacket with
    | Some p => (HClosedLocal (length (closedLocals h)), set_closedLocals (closedLocals h ++ [mkClosedLocal 0 p]) h)
    | None => (HClosedRemote, h)
    end in
  AfterFunc ids (set_handlers (foldl (λ m id, <[id := handler]> m) (handlers h) ids) h).

(** The functions of the timers that are due at [now] run. *)
Definition deleteAll (ids : list ConnectionID) (m : gmap ConnectionID packetHandler) : gmap ConnectionID packetHandler :=
  foldl (λ m id, delete id m) m ids.
Definition fireTimers (now : Z) (h : packetHandlerMap) : packetHandlerMap :=
  let due := filter (λ t, t.1 ≤ now) (timers h) in
  mkHandlerMap (foldl (λ m t, deleteAll t.2 m) (handlers h) due) (resetTokens h) (hm_closed h) now
    (filter (λ t, ¬ t.1 ≤ now) (timers h)) (closedLocals h) (statelessResetHasher h) (hm_random h).

Definition AddResetToken (token : bytes) (handler : packetHandler) (h : packetHandlerMap) : packetHandlerMap :=
  set_resetTokens (<[token := handler]> (resetTokens h)) h.
Definition RemoveResetToken (token : bytes) (h : packetHandlerMap) : packetHandlerMap :=
  set_resetTokens (delete token (resetTokens h)) h.
Definition GetByResetToken (h : packetHandlerMap) (token : bytes) : option packetHandler := resetTokens h !! token.

(** [Close]: the handlers that are destroyed. *)
Definition hm_Close (h : packetHandlerMap) : list packetHandler * packetHandlerMap :=
  if hm_closed h then ([], h) else
  ((map_to_list (handlers h)).*2,
   mkHandlerMap (handlers h) (resetTokens h) true (clock h) (timers h) (closedLocals h) (statelessResetHasher h) (hm_random h)).

(** An array of 16 bytes, filled from [b]. *)
Definition token_array (b : bytes) : bytes := take 16 (b ++ replicate 16 0).
Definition GetStatelessResetToken (connID : ConnectionID) (h : packetHandlerMap) : bytes * packetHandlerMap :=
  match statelessResetHasher h with
  | Some hmac => (token_array (hmac (ConnectionID_Bytes connID)), h)
  | None =>
      (token_array (default [] (head (hm_random h))),
       mkHandlerMap (handlers h) (resetTokens h) (hm_closed h) (clock h) (timers h) (closedLocals h) None (tail (hm_random h)))
  end.

(** * Random numbers *)

(** [Rand.Int31], from four random bytes. *)
Definition Int31 (b : Z * Z * Z * Z) : Z := let '(b3, b2, b1, b0) := b in Z.land (Uint32 b3 b2 b1 b0) (2 ^ 31 - 1).

(** [Rand.Int31n]: numbers above the largest multiple of [n] are drawn again;
    [None] when the random bytes [r] are used up. *)
Fixpoint Int31n_loop (max n : Z) (r : list (Z * Z * Z * Z)) : option (Z * list (Z * Z * Z * Z)) :=
  match r with
  | [] => None
  | b :: r => if max <? Int31 b then Int31n_loop max n r else Some (Int31 b mod n, r)
  end.
Definition Int31n (n : Z) (r : list (Z * Z * Z * Z)) : option (Z * list (Z * Z * Z * Z)) :=
  if Z.land n (n - 1) =? 0 then
    match r with [] => None | b :: r => Some (Z.land (Int31 b) (n - 1), r) end
  else Int31n_loop (2 ^ 31 - 1 - 2 ^ 31 mod n) n r.

(** * The connection IDs of the peer *)

Record newConnID := mkNewConnID { nid_SequenceNumber : Z; nid_ConnectionID : ConnectionID; nid_StatelessResetToken : bytes }.

Record connIDManager := mkManager {
  queue : list newConnID;
  handshakeComplete : bool;
  activeSequenceNumber : Z;
  highestRetired : Z;
  activeConnectionID : ConnectionID;
  activeStatelessResetToken : option bytes;
  packetsSinceLastChange : Z;
  packetsPerConnectionID : Z;
}.

Definition newConnIDManager (initialDestConnID : ConnectionID) : connIDManager :=
  mkManager [] false 0 0 initialDestConnID None 0 0.

Definition set_queue (x : list newConnID) (h : connIDManager) : connIDManager :=
  mkManager x (handshakeComplete h) (activeSequenceNumber h) (highestRetired h) (activeConnectionID h) (activeStatelessResetToken h)
    (packetsSinceLastChange h) (packetsPerConnectionID h).
Definition set_highestRetired (x : Z) (h : connIDManager) : connIDManager :=
  mkManager (queue h) (handshakeComplete h) (activeSequenceNumber h) x (activeConnectionID h) (activeStatelessResetToken h)
    (packetsSinceLastChange h) (packetsPerConnectionID h).

(** The manager with what its callbacks act on: the packet handler map, where the
    connection is [self], and the control frames queued. *)
Record mstate := mkM { self : nat; man : connIDManager; runner : packetHandlerMap; control : list frame }.
Definition set_man (f : connIDManager → connIDManager) : st mstate () := st_modify (λ s, mkM (self s) (f (man s)) (runner s) (control s)).
Definition m_runner (f : nat → packetHandlerMap → packetHandlerMap) : st mstate () :=
  st_modify (λ s, mkM (self s) (man s) (f (self s) (runner s)) (control s)).
Definition queueControlFrame (f : frame) : st mstate () := st_modify (λ s, mkM (self s) (man s) (runner s) (control s ++ [f])).

Definition addStatelessResetToken (t : bytes) : st mstate () := m_runner (λ self, AddResetToken t (HConn self)).
Definition removeStatelessResetToken (t : bytes) : st mstate () := m_runner (λ _, RemoveResetToken t).

(** The insertion in the middle: the first element that is not below [seq]. *)
Fixpoint insertConnID (x : newConnID) (q : list newConnID) : res (list newConnID) :=
  match q with
  | [] => Ok []
  | el :: q' =>
      if nid_SequenceNumber el =? nid_SequenceNumber x then
        if negb (bool_decide (nid_ConnectionID el = nid_ConnectionID x)) then Err (ErrMsg "received conflicting connection IDs") else
        if negb (bool_decide (nid_StatelessResetToken el = nid_StatelessResetToken x)) then Err (ErrMsg "received conflicting stateless reset tokens") else
        Ok q
      else if nid_SequenceNumber x <? nid_SequenceNumber el then Ok (x :: q)
      else q' ← insertConnID x q'; Ok (el :: q')
  end.

Definition addConnectionID (seq : Z) (connID : ConnectionID) (resetToken : bytes) : st mstate () :=
  s ← st_get;
  let q := queue (man s) in
  let x := mkNewConnID seq connID resetToken in
  if match last q with None => true | Some back => nid_SequenceNumber back <? seq end
  then set_man (set_queue (q ++ [x]))
  else q' ← st_lift (insertConnID x q); set_man (set_queue q').

Definition AddFromPreferredAddress (connID : ConnectionID) (resetToken : bytes) : st mstate () := addConnectionID 1 connID resetToken.

(** The drawn number is [r]. *)
Definition updateConnectionID (r : Z) : st mstate () :=
  s ← st_get;
  let h := man s in
  _ ← queueControlFrame (FRetireConnectionID (mkRetireConnectionIDFrame (activeSequenceNumber h)));
  _ ← set_man (set_highestRetired (highestRetired h `max` activeSequenceNumber h));
  _ ← (match activeStatelessResetToken h with Some t => removeStatelessResetToken t | None => mret tt end);
  match queue h with
  | [] => st_panic "nil pointer dereference"
  | front :: q =>
      _ ← set_man (λ h, mkManager q (handshakeComplete h) (nid_SequenceNumber front) (highestRetired h) (nid_ConnectionID front)
                          (Some (nid_StatelessResetToken front)) 0 (u32 (PacketsPerConnectionID / 2 + u32 r)));
      addStatelessResetToken (nid_StatelessResetToken front)
  end.

(** The loop over the front of the queue. *)
Fixpoint retireQueue (retirePriorTo : Z) (q : list newConnID) : list newConnID * list frame :=
  match q with
  | [] => ([], [])
  | el :: q' =>
      if retirePriorTo <=? nid_SequenceNumber el then (q, []) else
      let '(q', fs) := retireQueue retirePriorTo q' in
      (q', FRetireConnectionID (mkRetireConnectionIDFrame (nid_SequenceNumber el)) :: fs)
  end.

Definition retireFromQueue (retirePriorTo : Z) : st mstate () :=
  s ← st_get;
  let '(q, fs) := retireQueue retirePriorTo (queue (man s)) in
  _ ← st_iter queueControlFrame fs;
  set_man (λ h, set_highestRetired retirePriorTo (set_queue q h)).

Definition add (r : Z) (f : NewConnectionIDFrame) : st mstate () :=
  s ← st_get;
  let h := man s in
  if (nc_SequenceNumber f <? activeSequenceNumber h) || (nc_SequenceNumber f <? highestRetired h)
  then queueControlFrame (FRetireConnectionID (mkRetireConnectionIDFrame (nc_SequenceNumber f))) else
  _ ← (if highestRetired h <? nc_RetirePriorTo f then retireFromQueue (nc_RetirePriorTo f) else mret tt);
  if nc_SequenceNumber f =? activeSequenceNumber h then mret tt else
  _ ← addConnectionID (nc_SequenceNumber f) (nc_ConnectionID f) (nc_StatelessResetToken f);
  if activeSequenceNumber h <? nc_RetirePriorTo f then updateConnectionID r else mret tt.

Definition Add (r : Z) (f : NewConnectionIDFrame) : st mstate () :=
  _ ← add r f;
  s ← st_get;
  if MaxActiveConnectionIDs <=? blen (queue (man s)) then st_fail (TransportError ConnectionIDLimitError 0 (ErrMsg "")) else mret tt.

Definition m_Close : st mstate () :=
  s ← st_get;
  match activeStatelessResetToken (man s) with Some t => removeStatelessResetToken t | None => mret tt end.

Definition ChangeInitialConnID (newConnID : ConnectionID) : st mstate () :=
  s ← st_get;
  if negb (activeSequenceNumber (man s) =? 0) then st_panic "expected first connection ID to have sequence number 0" else
  set_man (λ h, mkManager (queue h) (handshakeComplete h) (activeSequenceNumber h) (highestRetired h) newConnID (activeStatelessResetToken h)
                  (packetsSinceLastChange h) (packetsPerConnectionID h)).

Definition SetStatelessResetToken (token : bytes) : st mstate () :=
  s ← st_get;
  if negb (activeSequenceNumber (man s) =? 0) then st_panic "expected first connection ID to have sequence number 0" else
  _ ← set_man (λ h, mkManager (queue h) (handshakeComplete h) (activeSequenceNumber h) (highestRetired h) (activeConnectionID h) (Some token)
                      (packetsSinceLastChange h) (packetsPerConnectionID h));
  addStatelessResetToken token.

Definition SentPacket : st mstate () :=
  set_man (λ h, mkManager (queue h) (handshakeComplete h) (activeSequenceNumber h) (highestRetired h) (activeConnectionID h) (activeStatelessResetToken h)
                  (u32 (packetsSinceLastChange h + 1)) (packetsPerConnectionID h)).

Definition shouldUpdateConnID (h : connIDManager) : bool :=
  if negb (handshakeComplete h) then false else
  if (0 <? blen (queue h)) && (activeSequenceNumber h =? 0) then true else
  (MaxActiveConnectionIDs <=? 2 * blen (queue h)) && (packetsPerConnectionID h <=? packetsSinceLastChange h).

Definition Get (r : Z) : st mstate ConnectionID :=
  s ← st_get;
  _ ← (if shouldUpdateConnID (man s) then updateConnectionID r else mret tt);
  s ← st_get;
  mret (activeConnectionID (man s)).

Definition SetHandshakeComplete : st mstate () :=
  set_man (λ h, mkManager (queue h) true (activeSequenceNumber h) (highestRetired h) (activeConnectionID h) (activeStatelessResetToken h)
                  (packetsSinceLastChange h) (packetsPerConnectionID h)).

(** * The connection IDs issued *)

(** [ConnectionIDGenerator], with the state of the generator. *)
Class ConnectionIDGenerator (G : Type) := {
  GenerateConnectionID : G → res ConnectionID * G;
  ConnectionIDLen : G → Z;
}.

(** [protocol.GenerateConnectionID], with the random bytes read (or none). *)
Definition protocol_GenerateConnectionID (l : Z) (random : option bytes) : res ConnectionID :=
  if (l <? 0) || (20 <? l) then Panic "slice bounds out of range" else
  match random with
  | None => Err (ErrMsg "rand")
  | Some b => Ok (mkConnectionID (cid_array (take (Z.to_nat l) (b ++ replicate (Z.to_nat l) 0))) (u8 l))
  end.

Definition GenerateConnectionIDForInitial (r : option Z) (random : option bytes) : res ConnectionID :=
  match r with
  | None => Err (ErrMsg "rand")
  | Some r0 => protocol_GenerateConnectionID (MinConnectionIDLenInitial + r0 mod (maxConnectionIDLen - MinConnectionIDLenInitial + 1)) random
  end.

(** [DefaultConnectionIDGenerator], with the random bytes to come. *)
Record DefaultConnectionIDGenerator := mkDefaultGenerator { ConnLen : Z; dg_random : list bytes }.
#[global] Instance DefaultConnectionIDGenerator_Generator : ConnectionIDGenerator DefaultConnectionIDGenerator := {
  GenerateConnectionID d := (protocol_GenerateConnectionID (ConnLen d) (head (dg_random d)), mkDefaultGenerator (ConnLen d) (tail (dg_random d)));
  ConnectionIDLen d := ConnLen d;
}.

Section generator.
Context {G : Type} `{ConnectionIDGenerator G}.

Record connIDGenerator := mkGenerator {
  generator : G;
  highestSeq : Z;
  activeSrcConnIDs : gmap Z ConnectionID;
  initialClientDestConnID : option ConnectionID;
}.

Definition newConnIDGenerator (initialConnectionID : ConnectionID) (initialClientDestConnID : option ConnectionID) (g : G) : connIDGenerator :=
  mkGenerator g 0 {[ 0 := initialConnectionID ]} initialClientDestConnID.

Record gstate := mkG { gself : nat; gen : connIDGenerator; grunner : packetHandlerMap; gcontrol : list frame }.
Definition set_gen (f : connIDGenerator → connIDGenerator) : st gstate () := st_modify (λ s, mkG (gself s) (f (gen s)) (grunner s) (gcontrol s)).
Definition g_runner (f : packetHandlerMap → packetHandlerMap) : st gstate () :=
  st_modify (λ s, mkG (gself s) (gen s) (f (grunner s)) (gcontrol s)).
Definition g_queueControlFrame (f : frame) : st gstate () := st_modify (λ s, mkG (gself s) (gen s) (grunner s) (gcontrol s ++ [f])).

(** The callbacks: [runner.Add(connID, s)] (whose result is dropped),
    [runner.GetStatelessResetToken], [runner.Retire] and [runner.Remove]. *)
Definition g_addConnectionID (c : ConnectionID) : st gstate () := s ← st_get; g_runner (λ h, (hm_Add c (HConn (gself s)) h).2).
Definition getStatelessResetToken (c : ConnectionID) : st gstate bytes :=
  s ← st_get; let '(t, h) := GetStatelessResetToken c (grunner s) in _ ← g_runner (λ _, h); mret t.
Definition retireConnectionID (c : ConnectionID) : st gstate () := g_runner (hm_Retire c).
Definition removeConnectionID (c : ConnectionID) : st gstate () := g_runner (hm_Remove c).

Definition generateConnID : st gstate ConnectionID :=
  s ← st_get;
  let '(r, g) := GenerateConnectionID (generator (gen s)) in
  _ ← set_gen (λ m, mkGenerator g (highestSeq m) (activeSrcConnIDs m) (initialClientDestConnID m));
  st_lift r.

Definition issueNewConnID : st gstate () :=
  connID ← generateConnID;
  s ← st_get;
  let seq := u64 (highestSeq (gen s) + 1) in
  _ ← set_gen (λ m, mkGenerator (generator m) (highestSeq m) (<[seq := connID]> (activeSrcConnIDs m)) (initialClientDestConnID m));
  _ ← g_addConnectionID connID;
  token ← getStatelessResetToken connID;
  _ ← g_queueControlFrame (FNewConnectionID (mkNewConnectionIDFrame seq 0 connID token));
  set_gen (λ m, mkGenerator (generator m) (u64 (highestSeq m + 1)) (activeSrcConnIDs m) (initialClientDestConnID m)).

(** The loop for [i] from the number of connection IDs up to the limit. *)
Fixpoint issueUpTo (n : nat) : st gstate () :=
  match n with O => mret tt | S n => _ ← issueNewConnID; issueUpTo n end.
Definition SetMaxActiveConnIDs (limit : Z) : st gstate () :=
  s ← st_get;
  if ConnectionIDLen (generator (gen s)) =? 0 then mret tt else
  issueUpTo (Z.to_nat (limit `min` MaxIssuedConnectionIDs - Z.of_nat (size (activeSrcConnIDs (gen s))))).

Definition Retire (seq : Z) (sentWithDestConnID : ConnectionID) : st gstate () :=
  s ← st_get;
  let m := gen s in
  if highestSeq m <? seq then st_fail (TransportError ProtocolViolation 0 (ErrMsg "retired connection ID that was not issued")) else
  match activeSrcConnIDs m !! seq with
  | None => mret tt
  | Some connID =>
      if bool_decide (connID = sentWithDestConnID)
      then st_fail (TransportError ProtocolViolation 0 (ErrMsg "retired connection ID, which was used as the Destination Connection ID on this packet")) else
      _ ← retireConnectionID connID;
      _ ← set_gen (λ m, mkGenerator (generator m) (highestSeq m) (delete seq (activeSrcConnIDs m)) (initialClientDestConnID m));
      if seq =? 0 then mret tt else issueNewConnID
  end.

Definition g_SetHandshakeComplete : st gstate () :=
  s ← st_get;
  match initialClientDestConnID (gen s) with
  | None => mret tt
  | Some c =>
      _ ← retireConnectionID c;
      set_gen (λ m, mkGenerator (generator m) (highestSeq m) (activeSrcConnIDs m) None)
  end.

(** The connection IDs in use, in the order in which the map is iterated. *)
Definition srcConnIDs (m : connIDGenerator) : list ConnectionID :=
  option_list (initialClientDestConnID m) ++ (map_to_list (activeSrcConnIDs m)).*2.

Definition RemoveAll : st gstate () := s ← st_get; st_iter removeConnectionID (srcConnIDs (gen s)).

Definition ReplaceWithClosed (connClose : option bytes) : st gstate () :=
  s ← st_get; g_runner (hm_ReplaceWithClosed (srcConnIDs (gen s)) connClose).
End generator.
Arguments connIDGenerator : clear implicits.
Arguments gstate : clear implicits.

(** * Lemmas on the random numbers and on closed connections *)

Lemma Int31_range b : 0 ≤ Int31 b < 2 ^ 31.
Proof.
  destruct b as [[[b3 b2] b1] b0]. unfold Int31. change (2 ^ 31 - 1) with (Z.ones 31). rewrite Z.land_ones by lia. by apply Z.mod_pos_bound.
Qed.

(** [Int31n] returns numbers below [n], and each of them for equally many values
    of [Int31]: what is not drawn again is below a multiple of [n]. *)
Lemma Int31n_range n r v r' : 0 < n < 2 ^ 31 → Int31n n r = Some (v, r') → 0 ≤ v < n.
Proof.
  intros Hn. unfold Int31n. destruct (Z.eqb_spec (Z.land n (n - 1)) 0) as [E|_].
  - destruct r as [|b r]; [done|]. intros [= <- <-]. pose proof (Int31_range b). split; [apply Z.land_nonneg; lia|].
    rewrite <- (Z2N.id (Int31 b)), <- (Z2N.id (n - 1)), <- N2Z.inj_land by lia. pose proof (N.land_le_r (Z.to_N (Int31 b)) (Z.to_N (n - 1))). lia.
  - induction r as [|b r IH]; [done|]. cbn [Int31n_loop]. destruct (_ <? _); [done|]. intros [= <- <-]. apply Z.mod_pos_bound. lia.
Qed.

(** * The account of the connection IDs of the peer *)

Abbreviation seqs q := (nid_SequenceNumber <$> q).
Abbreviation sorted q := (StronglySorted Z.lt (seqs q)).

Lemma sorted_cons el q : sorted (el :: q) ↔ sorted q ∧ Forall (λ y, nid_SequenceNumber el < nid_SequenceNumber y) q.
Proof.
  split.
  - intros [H1 H2]%StronglySorted_inv. split; [done|]. by apply (proj1 (Forall_fmap _ _ _)) in H2.
  - intros [H1 H2]. constructor; [done|]. by apply (proj2 (Forall_fmap _ _ _)).
Qed.

Lemma sorted_NoDup q : sorted q → NoDup (seqs q).
Proof.
  induction q as [|el q IH]; [constructor|]. intros [Hs Hall]%sorted_cons. apply NoDup_cons. split; [|by apply IH].
  intros (y & E & Hy)%list_elem_of_fmap. rewrite Forall_forall in Hall. apply Hall in Hy. lia.
Qed.

(** What [addConnectionID] makes of the queue. *)
Definition enqueue (x : newConnID) (q : list newConnID) : res (list newConnID) :=
  if match last q with None => true | Some back => nid_SequenceNumber back <? nid_SequenceNumber x end then Ok (q ++ [x]) else insertConnID x q.

Lemma insertConnID_spec x q : sorted q → (∃ y, last q = Some y ∧ nid_SequenceNumber x ≤ nid_SequenceNumber y) →
  match insertConnID x q with
  | Ok q' => sorted q' ∧ ∀ y, y ∈ q' ↔ y ∈ q ∨ y = x
  | Err _ => nid_SequenceNumber x ∈ seqs q ∧ x ∉ q
  | Panic _ => False
  end.
Proof.
  induction q as [|el q IH]; intros Hs (y & Hy & Hle); [done|]. apply sorted_cons in Hs as [Hs Hall]. cbn [insertConnID].
  assert (Hlt : ∀ z, z ∈ q → nid_SequenceNumber el < nid_SequenceNumber z).
  { by apply Forall_forall. }
  destruct (Z.eqb_spec (nid_SequenceNumber el) (nid_SequenceNumber x)) as [E|Hne].
  - assert (Hx : x ∈ q → False) by (intros Hx; apply Hlt in Hx; lia).
    case_bool_decide; cbn [negb]; [|split; [simpl; rewrite E; left|intros [->|?]%elem_of_cons; done]].
    case_bool_decide; cbn [negb]; [|split; [simpl; rewrite E; left|intros [->|?]%elem_of_cons; done]].
    split; [by apply sorted_cons|]. intros z. assert (el = x) as -> by (destruct el, x; simpl in *; congruence). set_solver.
  - destruct (Z.ltb_spec (nid_SequenceNumber x) (nid_SequenceNumber el)) as [Hlt'|Hge].
    + split; [|set_solver]. apply sorted_cons. split; [by apply sorted_cons|]. constructor; [done|]. eapply Forall_impl; [exact Hall|]. simpl. lia.
    + assert (Hq : ∃ y, last q = Some y ∧ nid_SequenceNumber x ≤ nid_SequenceNumber y).
      { destruct q as [|e q]; [|by exists y]. simpl in Hy. injection Hy as <-. lia. }
      specialize (IH Hs Hq). destruct (insertConnID x q) as [q'|e|m]; cbn; [|set_solver|done].
      destruct IH as [Hs' Hin]. split; [|set_solver]. apply sorted_cons. split; [done|]. apply Forall_forall. intros z Hz.
      apply Hin in Hz as [Hz| ->]; [by apply Hlt|lia].
Qed.

Lemma sorted_snoc q x : sorted q → (∀ y, last q = Some y → nid_SequenceNumber y < nid_SequenceNumber x) → sorted (q ++ [x]).
Proof.
  induction q as [|el q IH]; intros Hs Hl; [repeat constructor|]. apply sorted_cons in Hs as [Hs Hall]. simpl. apply sorted_cons. split.
  - apply IH; [done|]. intros y Hy. apply Hl. destruct q; [done|exact Hy].
  - apply Forall_app. split; [done|]. constructor; [|constructor].
    destruct (last q) as [y|] eqn:E; [|apply last_None in E as ->; by apply Hl].
    assert (nid_SequenceNumber y < nid_SequenceNumber x) by (apply Hl; destruct q; [done|exact E]).
    rewrite Forall_forall in Hall. assert (nid_SequenceNumber el < nid_SequenceNumber y); [|lia].
    apply Hall. by apply last_Some_elem_of.
Qed.

Lemma enqueue_spec x q : sorted q →
  match enqueue x q with
  | Ok q' => sorted q' ∧ ∀ y, y ∈ q' ↔ y ∈ q ∨ y = x
  | Err _ => nid_SequenceNumber x ∈ seqs q ∧ x ∉ q
  | Panic _ => False
  end.
Proof.
  intros Hs. unfold enqueue. destruct (last q) as [back|] eqn:E.
  - destruct (Z.ltb_spec (nid_SequenceNumber back) (nid_SequenceNumber x)).
    + split; [apply sorted_snoc; [done|]; congruence|set_solver].
    + apply insertConnID_spec; [done|]. by exists back.
  - apply last_None in E as ->. split; [repeat constructor|set_solver].
Qed.

(** The queue is cut at the first ID that is kept; the others are retired. *)
Lemma retireQueue_spec r q : sorted q →
  let '(q', fs) := retireQueue r q in
  sorted q' ∧ (∀ y, y ∈ q' ↔ y ∈ q ∧ r ≤ nid_SequenceNumber y) ∧
  fs = (λ y, FRetireConnectionID (mkRetireConnectionIDFrame (nid_SequenceNumber y))) <$> filter (λ y, nid_SequenceNumber y < r) q.
Proof.
  induction q as [|el q IH]; intros Hs; [split; [constructor|set_solver]|]. pose proof Hs as Hs'. apply sorted_cons in Hs as [Hs Hall]. cbn [retireQueue].
  destruct (Z.leb_spec r (nid_SequenceNumber el)) as [Hle|Hlt].
  - assert (Hge : Forall (λ y, r ≤ nid_SequenceNumber y) (el :: q)).
    { constructor; [done|]. eapply Forall_impl; [exact Hall|]. simpl. lia. }
    rewrite Forall_forall in Hge. split; [done|]. split; [naive_solver|].
    assert (filter (λ y, nid_SequenceNumber y < r) (el :: q) = []) as ->; [|done]. apply elem_of_nil_inv. intros y [? Hy%Hge]%list_elem_of_filter. lia.
  - specialize (IH Hs). destruct (retireQueue r q) as [q' fs]. destruct IH as (H1 & H2 & ->). split; [done|]. split.
    + intros y. rewrite H2, elem_of_cons. split; [naive_solver|]. intros [[->|?] ?]; [lia|done].
    + by rewrite filter_cons_True.
Qed.

(** Retirements queued: the sequence numbers of the RETIRE_CONNECTION_ID frames. *)
Definition retiredSeqs (fs : list frame) : list Z :=
  omap (λ f, match f with FRetireConnectionID f => Some (rcid_SequenceNumber f) | _ => None end) fs.

#[global] Arguments retiredSeqs : simpl never.

(** The invariant of a manager that was given the IDs with the numbers [seen],
    all of them as [known] says (the first one may have no reset token); the IDs
    below [r] are retired, but for the active one. *)
Record minv (known : Z → ConnectionID → option bytes → Prop) (seen : Z → Prop) (r : Z) (s : mstate) : Prop := {
  mi_known : ∀ x, x ∈ queue (man s) → known (nid_SequenceNumber x) (nid_ConnectionID x) (Some (nid_StatelessResetToken x));
  mi_active : known (activeSequenceNumber (man s)) (activeConnectionID (man s)) (activeStatelessResetToken (man s));
  mi_sorted : sorted (queue (man s));
  mi_above : Forall (λ x, activeSequenceNumber (man s) < nid_SequenceNumber x) (queue (man s));
  mi_from : Forall (λ x, r ≤ nid_SequenceNumber x) (queue (man s));
  mi_highest : highestRetired (man s) ≤ r;
  mi_current : activeSequenceNumber (man s) ≤ r;
  mi_account : ∀ n, seen n ↔ n = activeSequenceNumber (man s) ∨ n ∈ seqs (queue (man s)) ∨ n ∈ retiredSeqs (control s);
  mi_retired : ∀ n, n ∈ retiredSeqs (control s) → n < r ∧ n ≠ activeSequenceNumber (man s);
  mi_tokens : ∀ t, resetTokens (runner s) !! t = Some (HConn (self s)) ↔ activeStatelessResetToken (man s) = Some t;
}.

Lemma retiredSeqs_app fs fs' : retiredSeqs (fs ++ fs') = retiredSeqs fs ++ retiredSeqs fs'.
Proof. apply omap_app. Qed.

Lemma retiredSeqs_snoc n fs m : n ∈ retiredSeqs (fs ++ [FRetireConnectionID (mkRetireConnectionIDFrame m)]) ↔ n ∈ retiredSeqs fs ∨ n = m.
Proof. rewrite retiredSeqs_app, elem_of_app. change (retiredSeqs [FRetireConnectionID (mkRetireConnectionIDFrame m)]) with [m]. by rewrite list_elem_of_singleton. Qed.

Lemma iter_queue fs s : st_iter queueControlFrame fs s = (Ok tt, mkM (self s) (man s) (runner s) (control s ++ fs)).
Proof.
  revert s. induction fs as [|f fs IH]; intros s; cbn; [by rewrite app_nil_r; destruct s|]. unfold mbind, st_bind. cbn. rewrite IH. cbn. by rewrite <- app_assoc.
Qed.

Lemma addConnectionID_run seq c t s :
  addConnectionID seq c t s = match enqueue (mkNewConnID seq c t) (queue (man s)) with
    | Ok q => (Ok tt, mkM (self s) (set_queue q (man s)) (runner s) (control s))
    | Err e => (Err e, s)
    | Panic m => (Panic m, s)
    end.
Proof.
  unfold addConnectionID, enqueue, mbind, st_bind, st_get, st_lift. cbn. destruct (match last _ with Some _ => _ | None => _ end); [done|].
  by destruct (insertConnID _ _).
Qed.

Lemma updateConnectionID_run r s : updateConnectionID r s =
  let h := man s in
  let runner' := match activeStatelessResetToken h with Some t => RemoveResetToken t (runner s) | None => runner s end in
  let control' := control s ++ [FRetireConnectionID (mkRetireConnectionIDFrame (activeSequenceNumber h))] in
  match queue h with
  | [] => (Panic "nil pointer dereference", mkM (self s) (set_highestRetired (highestRetired h `max` activeSequenceNumber h) h) runner' control')
  | front :: q =>
      (Ok tt, mkM (self s) (mkManager q (handshakeComplete h) (nid_SequenceNumber front) (highestRetired h `max` activeSequenceNumber h) (nid_ConnectionID front)
                 (Some (nid_StatelessResetToken front)) 0 (u32 (PacketsPerConnectionID / 2 + u32 r)))
                (AddResetToken (nid_StatelessResetToken front) (HConn (self s)) runner') control')
  end.
Proof.
  unfold updateConnectionID, mbind, st_bind, st_get. destruct s as [n h rn c]. cbn. by destruct (activeStatelessResetToken h), (queue h).
Qed.

(** The active ID is retired and replaced by the next one. *)
Lemma manager_update_inv known seen r x s : minv known seen r s → queue (man s) ≠ [] →
  ∃ s', updateConnectionID x s = (Ok tt, s') ∧ minv known seen (activeSequenceNumber (man s')) s' ∧ nid_SequenceNumber <$> head (queue (man s)) = Some (activeSequenceNumber (man s')) ∧
    queue (man s') = tail (queue (man s)).
Proof.
  intros [] Hq. rewrite updateConnectionID_run. cbv zeta. destruct (queue (man s)) as [|front q] eqn:E; [done|]. eexists. split; [done|].
  apply sorted_cons in mi_sorted0 as [Hs Hall]. apply Forall_cons in mi_above0 as [Hf Hab]. apply Forall_cons in mi_from0 as [Hr _].
  split; [|done]. split; cbn; [set_solver|apply mi_known0; set_solver|done|done|eapply Forall_impl; [exact Hall|simpl; lia]|lia|lia| | |].
  - intros n. rewrite mi_account0, retiredSeqs_snoc. set_solver.
  - intros n [Hn%mi_retired0|Hn]%retiredSeqs_snoc; lia.
  - intros t. assert (Hrm : ∀ t', resetTokens (match activeStatelessResetToken (man s) with Some t => RemoveResetToken t (runner s) | None => runner s end) !! t' ≠
      Some (HConn (self s))).
    { intros t'. destruct (activeStatelessResetToken (man s)) as [t0|] eqn:Et; cbn.
      - rewrite lookup_delete_Some. intros [Hne Hx%mi_tokens0]. congruence.
      - rewrite mi_tokens0. done. }
    rewrite lookup_insert_Some. split; [|naive_solver]. intros [[-> _]|[_ Hx]]; [done|]. by apply Hrm in Hx.
Qed.

Section account.
Context (known : Z → ConnectionID → option bytes → Prop).
Abbreviation inv := (minv known).

(** IDs are added behind the active one. *)
Lemma addConnectionID_inv seen r seq c t s : inv seen r s → activeSequenceNumber (man s) < seq → r ≤ seq → known seq c (Some t) →
  match addConnectionID seq c t s with
  | (Ok _, s') => inv (λ n, seen n ∨ n = seq) r s' ∧ (∃ q, s' = mkM (self s) (set_queue q (man s)) (runner s) (control s) ∧ mkNewConnID seq c t ∈ q)
  | (Err _, s') => s' = s ∧ seq ∈ seqs (queue (man s)) ∧ mkNewConnID seq c t ∉ queue (man s)
  | (Panic _, _) => False
  end.
Proof.
  intros [] Hlt Hr Hk. rewrite addConnectionID_run. pose proof (enqueue_spec (mkNewConnID seq c t) _ mi_sorted0) as He.
  destruct (enqueue _ _) as [q|e|m]; [|done|done]. destruct He as [Hs Hin]. split; [|eexists; split; [done|]; rewrite Hin; by right]. rewrite Forall_forall in mi_above0, mi_from0. split; cbn; [|done|done| | |done|done| |done|done].
  - intros x [Hx| ->]%Hin; [by apply mi_known0|done].
  - apply Forall_forall. intros x [Hx| ->]%Hin; [by apply mi_above0|done].
  - apply Forall_forall. intros x [Hx| ->]%Hin; [by apply mi_from0|done].
  - intros n. rewrite mi_account0, !list_elem_of_fmap. setoid_rewrite Hin. naive_solver.
Qed.

(** IDs below [r] leave the queue; [highestRetired] waits for the active ID. *)
Lemma retireFromQueue_run r s : retireFromQueue r s =
  let '(q, fs) := retireQueue r (queue (man s)) in
  (Ok tt, mkM (self s) (set_highestRetired r (set_queue q (man s))) (runner s) (control s ++ fs)).
Proof.
  unfold retireFromQueue. unfold mbind at 1, st_bind at 1, st_get. destruct (retireQueue r (queue (man s))) as [q fs].
  by rewrite (st_bind_ok _ _ _ _ _ (iter_queue fs s)).
Qed.

Lemma retiredSeqs_queue r q : retiredSeqs ((λ y, FRetireConnectionID (mkRetireConnectionIDFrame (nid_SequenceNumber y))) <$> filter (λ y, nid_SequenceNumber y < r) q) =
  seqs (filter (λ y, nid_SequenceNumber y < r) q).
Proof. unfold retiredSeqs. induction (filter (λ y, nid_SequenceNumber y < r) q) as [|x l IH]; [done|]. simpl. by f_equal. Qed.

Lemma retireFromQueue_inv seen r r' s : inv seen r s →
  ∃ s', retireFromQueue r' s = (Ok tt, s') ∧ inv seen (r `max` r') s' ∧
    activeSequenceNumber (man s') = activeSequenceNumber (man s) ∧ ∀ x, x ∈ queue (man s') ↔ x ∈ queue (man s) ∧ r' ≤ nid_SequenceNumber x.
Proof.
  intros []. rewrite retireFromQueue_run. pose proof (retireQueue_spec r' _ mi_sorted0) as Hq.
  destruct (retireQueue r' (queue (man s))) as [q fs]. destruct Hq as (Hs & Hin & ->). eexists. split; [done|]. split; [|done].
  rewrite Forall_forall in mi_above0, mi_from0. split; cbn; [|done|done| | |lia|lia| | |done].
  - intros x [Hx _]%Hin. by apply mi_known0.
  - apply Forall_forall. intros x [Hx _]%Hin. by apply mi_above0.
  - apply Forall_forall. intros x [Hx%mi_from0 ?]%Hin. lia.
  - intros n. rewrite mi_account0, retiredSeqs_app, elem_of_app, retiredSeqs_queue, !list_elem_of_fmap. setoid_rewrite Hin. setoid_rewrite list_elem_of_filter.
    split; [|naive_solver]. intros [?|[(x & -> & Hx)|?]]; [by left| |by right; right; left].
    right. destruct (Z_lt_le_dec (nid_SequenceNumber x) r') as [Hlt|Hge]; [right; right|left]; by exists x.
  - intros n. rewrite retiredSeqs_app, elem_of_app, retiredSeqs_queue, list_elem_of_fmap. setoid_rewrite list_elem_of_filter.
    intros [Hn%mi_retired0|(x & -> & Hx & Hx'%mi_above0)]; lia.
Qed.

Lemma retire_inv seen rp s : inv seen (activeSequenceNumber (man s)) s →
  ∃ s1, (if highestRetired (man s) <? rp then retireFromQueue rp else mret tt) s = (Ok tt, s1) ∧ inv seen (activeSequenceNumber (man s) `max` rp) s1 ∧
    activeSequenceNumber (man s1) = activeSequenceNumber (man s) ∧ ∀ x, x ∈ queue (man s1) ↔ x ∈ queue (man s) ∧ rp ≤ nid_SequenceNumber x.
Proof.
  intros Hi. pose proof (mi_highest _ _ _ _ Hi) as Hh. pose proof (mi_from _ _ _ _ Hi) as Hfrom. rewrite Forall_forall in Hfrom.
  destruct (Z.ltb_spec (highestRetired (man s)) rp) as [Hlt|Hge]; [by apply retireFromQueue_inv|].
  exists s. rewrite Z.max_l by lia. split_and!; [done..|]. intros x. split; [|naive_solver]. intros Hx. split; [done|]. apply Hfrom in Hx. lia.
Qed.

(** A frame of any peer: the manager answers with an error only if the frame
    contradicts an earlier one. *)
Lemma add_inv seen x f s : inv seen (activeSequenceNumber (man s)) s → nc_RetirePriorTo f ≤ nc_SequenceNumber f →
  known (nc_SequenceNumber f) (nc_ConnectionID f) (Some (nc_StatelessResetToken f)) →
  match add x f s with
  | (Ok _, s') => inv (λ n, seen n ∨ n = nc_SequenceNumber f) (activeSequenceNumber (man s')) s' ∧ nc_RetirePriorTo f ≤ activeSequenceNumber (man s')
  | (Err _, _) => nc_SequenceNumber f ∈ seqs (queue (man s)) ∧ mkNewConnID (nc_SequenceNumber f) (nc_ConnectionID f) (nc_StatelessResetToken f) ∉ queue (man s)
  | (Panic _, _) => False
  end.
Proof.
  intros Hi Hf Hk. unfold add. unfold mbind at 1, st_bind at 1, st_get.
  destruct (Z.ltb_spec (nc_SequenceNumber f) (activeSequenceNumber (man s))) as [Hlt|Hge]; cbn [orb].
  { cbn. split; [|lia]. destruct Hi. split; cbn; try assumption.
    - intros n. rewrite retiredSeqs_snoc, mi_account0. naive_solver.
    - intros n [Hn%mi_retired0|Hn]%retiredSeqs_snoc; lia. }
  pose proof (mi_highest _ _ _ _ Hi) as Hh. destruct (Z.ltb_spec (nc_SequenceNumber f) (highestRetired (man s))) as [|_]; [lia|].
  set (a := activeSequenceNumber (man s)) in *. set (rp := nc_RetirePriorTo f) in *.
  assert (Hret : ∃ s1, (if highestRetired (man s) <? rp then retireFromQueue rp else mret tt) s = (Ok tt, s1) ∧ inv seen (a `max` rp) s1 ∧
    activeSequenceNumber (man s1) = a ∧ (∀ x, x ∈ queue (man s1) ↔ x ∈ queue (man s) ∧ rp ≤ nid_SequenceNumber x)).
  { by apply retire_inv. }
  destruct Hret as (s1 & E1 & Hi1 & Ha1 & Hq1). rewrite (st_bind_ok _ _ _ _ _ E1).
  destruct (Z.eqb_spec (nc_SequenceNumber f) a) as [Heq|Hne].
  { cbn. rewrite Ha1. replace (a `max` rp) with a in Hi1 by lia. split; [|lia]. destruct Hi1. split; try done. intros n. rewrite Heq, Ha1, mi_account0, Ha1. naive_solver. }
  pose proof (addConnectionID_inv seen (a `max` rp) (nc_SequenceNumber f) _ _ s1 Hi1 ltac:(lia) ltac:(lia) Hk) as Hadd.
  unfold mbind at 1, st_bind at 1. destruct (addConnectionID _ _ _ s1) as [[[]|e|m] s2]; [| |done].
  - destruct Hadd as [Hi2 (q & -> & Hin)]. destruct (Z.ltb_spec a rp) as [Hlt|Hle].
    + edestruct (manager_update_inv known _ _ x _ Hi2) as (s3 & E3 & Hi3 & Ha3 & _); [cbn; intros ->; by apply elem_of_nil in Hin|]. rewrite E3. split; [done|].
      destruct Hi2. cbn in *. destruct q as [|y q]; [done|]. cbn in Ha3. injection Ha3 as <-. apply Forall_cons in mi_from0 as [? _]. lia.
    + cbn in *. rewrite Ha1. replace (a `max` rp) with a in Hi2 by lia. done.
  - destruct Hadd as (_ & H1 & H2). apply list_elem_of_fmap in H1 as (y & E & Hy). apply Hq1 in Hy as [Hy _]. split; [rewrite E; by apply (list_elem_of_fmap_2 nid_SequenceNumber)|].
    intros Hin. apply H2, Hq1. done.
Qed.

(** [Get] returns the active ID, the next one if it is time for a change. *)
Lemma Get_inv seen x s : inv seen (activeSequenceNumber (man s)) s →
  ∃ s', Get x s = (Ok (activeConnectionID (man s')), s') ∧ inv seen (activeSequenceNumber (man s')) s'.
Proof.
  intros Hi. unfold Get. unfold mbind at 1, st_bind at 1, st_get at 1. destruct (shouldUpdateConnID (man s)) eqn:E; [|by exists s].
  edestruct (manager_update_inv known _ _ x _ Hi) as (s' & E' & Hi' & _).
  - intros Hq. unfold shouldUpdateConnID in E. rewrite Hq in E. by destruct (handshakeComplete (man s)).
  - rewrite (st_bind_ok _ _ _ _ _ E'). by exists s'.
Qed.

(** Fields other than the account. *)
Lemma other_inv seen r s h : inv seen r s → queue h = queue (man s) → activeSequenceNumber h = activeSequenceNumber (man s) →
  highestRetired h = highestRetired (man s) → activeStatelessResetToken h = activeStatelessResetToken (man s) →
  known (activeSequenceNumber h) (activeConnectionID h) (activeStatelessResetToken h) →
  inv seen r (mkM (self s) h (runner s) (control s)).
Proof. intros [] Eq Ea Eh Et Hk. split; cbn; rewrite ?Eq, ?Ea, ?Eh, ?Et in *; done. Qed.
End account.

(** What a connection does with its manager; [x] is the number drawn. *)
Inductive mop :=
| OpAdd (x : Z) (f : NewConnectionIDFrame)
| OpPreferred (c : ConnectionID) (t : bytes)
| OpGet (x : Z)
| OpSentPacket
| OpHandshakeComplete
| OpChangeInitial (c : ConnectionID)
| OpResetToken (t : bytes).

Definition mexec (op : mop) : st mstate () :=
  match op with
  | OpAdd x f => Add x f
  | OpPreferred c t => AddFromPreferredAddress c t
  | OpGet x => _ ← Get x; mret tt
  | OpSentPacket => SentPacket
  | OpHandshakeComplete => SetHandshakeComplete
  | OpChangeInitial c => ChangeInitialConnID c
  | OpResetToken t => SetStatelessResetToken t
  end.

(** Frames as the parser returns them; the server's parameters are applied while
    the first ID is in use. *)
Definition allowed (op : mop) (s : mstate) : Prop :=
  match op with
  | OpAdd _ f => 0 ≤ nc_RetirePriorTo f ≤ nc_SequenceNumber f
  | OpPreferred _ _ | OpChangeInitial _ => activeSequenceNumber (man s) = 0
  | OpResetToken _ => activeSequenceNumber (man s) = 0 ∧ activeStatelessResetToken (man s) = None
  | _ => True
  end.

Definition given (op : mop) (n : Z) : Prop :=
  match op with OpAdd _ f => n = nc_SequenceNumber f | OpPreferred _ _ => n = 1 | _ => False end.

(** What the IDs an operation brings are known to be. *)
Definition op_known (known : Z → ConnectionID → option bytes → Prop) (op : mop) (s : mstate) : Prop :=
  match op with
  | OpAdd _ f => known (nc_SequenceNumber f) (nc_ConnectionID f) (Some (nc_StatelessResetToken f))
  | OpPreferred c t => known 1 c (Some t)
  | OpChangeInitial c => known 0 c (activeStatelessResetToken (man s))
  | OpResetToken t => known 0 (activeConnectionID (man s)) (Some t)
  | _ => True
  end.

Definition the_inv (known : Z → ConnectionID → option bytes → Prop) (seen : Z → Prop) (s : mstate) : Prop :=
  minv known seen (activeSequenceNumber (man s)) s.

Lemma minv_seen known seen seen' r s : (∀ n, seen n ↔ seen' n) → minv known seen r s → minv known seen' r s.
Proof. intros Hs []. split; try done. intros n. by rewrite <- Hs. Qed.

Lemma op_inv known seen op s : the_inv known seen s → allowed op s → op_known known op s →
  match mexec op s with
  | (Ok _, s') => the_inv known (λ n, seen n ∨ given op n) s' ∧
      match op with OpAdd _ f => nc_RetirePriorTo f ≤ activeSequenceNumber (man s') ∧ blen (queue (man s')) < MaxActiveConnectionIDs | _ => True end
  | (Err e, s') =>
      match op with
      | OpAdd _ f =>
          nc_SequenceNumber f ∈ seqs (queue (man s)) ∧ mkNewConnID (nc_SequenceNumber f) (nc_ConnectionID f) (nc_StatelessResetToken f) ∉ queue (man s) ∨
          e = TransportError ConnectionIDLimitError 0 (ErrMsg "") ∧ the_inv known (λ n, seen n ∨ given op n) s' ∧ MaxActiveConnectionIDs ≤ blen (queue (man s'))
      | OpPreferred c t => 1 ∈ seqs (queue (man s)) ∧ mkNewConnID 1 c t ∉ queue (man s)
      | _ => False
      end
  | (Panic _, _) => False
  end.
Proof.
  unfold the_inv. intros Hi Ha Hk.
  assert (Hsame : ∀ r s', minv known seen r s' → minv known (λ n, seen n ∨ False) r s').
  { intros r s'. apply minv_seen. tauto. }
  destruct op as [x f|c t|x| | |c|t]; cbn [mexec allowed given op_known] in *.
  - unfold Add. pose proof (add_inv known seen x f s Hi (proj2 Ha) Hk) as Hadd. unfold mbind at 1, st_bind at 1. destruct (add x f s) as [[[]|e|m] s'].
    + destruct Hadd as [Hi' Hr]. unfold mbind, st_bind, st_get. destruct (Z.leb_spec MaxActiveConnectionIDs (blen (queue (man s')))); [by right|done].
    + by left.
    + done.
  - pose proof (addConnectionID_inv known seen _ 1 c t s Hi ltac:(lia) ltac:(lia) Hk) as Hadd. unfold AddFromPreferredAddress.
    destruct (addConnectionID 1 c t s) as [[[]|e|m] s'].
    + destruct Hadd as [Hi' (q & -> & _)]. done.
    + by destruct Hadd as (_ & H1 & H2).
    + done.
  - destruct (Get_inv known seen x s Hi) as (s' & E & Hi'). rewrite (st_bind_ok _ _ _ _ _ E). cbn. split; [by apply Hsame|done].
  - cbn. split; [|done]. apply Hsame, other_inv; try done. by destruct Hi.
  - cbn. split; [|done]. apply Hsame, other_inv; try done. by destruct Hi.
  - unfold ChangeInitialConnID. unfold mbind, st_bind, st_get. rewrite Ha. cbn. split; [|done]. apply Hsame, other_inv; try done. by rewrite Ha.
  - destruct Ha as [Ha Ht]. unfold SetStatelessResetToken. unfold mbind at 1, st_bind at 1, st_get. rewrite Ha. cbn. split; [|done]. apply Hsame.
    destruct Hi. split; cbn; try done; [by rewrite Ha|]. intros t'. rewrite lookup_insert_Some, mi_tokens0, Ht. naive_solver.
Qed.

(** Control frames are only added. *)
Definition appends {A} (m : st mstate A) : Prop := ∀ s, control s `prefix_of` control (m s).2.

Lemma appends_bind {A B} (m : st mstate A) (k : A → st mstate B) : appends m → (∀ a, appends (k a)) → appends (m ≫= k).
Proof.
  intros Hm Hk s. specialize (Hm s). unfold mbind, st_bind. destruct (m s) as [[a|e|p] s']; [|done|done]. etrans; [exact Hm|apply Hk].
Qed.
Lemma appends_same {A} (m : st mstate A) : (∀ s, control (m s).2 = control s) → appends m.
Proof. intros Hm s. by rewrite Hm. Qed.
Lemma appends_frame f : appends (queueControlFrame f).
Proof. intros s. by exists [f]. Qed.
Lemma appends_iter fs : appends (st_iter queueControlFrame fs).
Proof. intros s. rewrite iter_queue. by exists fs. Qed.

Ltac appends := repeat first
  [apply appends_frame|apply appends_iter|apply appends_bind; [|intros ?]|by apply appends_same|case_match].

Lemma mexec_appends op : appends (mexec op).
Proof.
  destruct op; cbn [mexec]; unfold Add, add, AddFromPreferredAddress, addConnectionID, retireFromQueue, Get, updateConnectionID, ChangeInitialConnID,
    SetStatelessResetToken, addStatelessResetToken, removeStatelessResetToken; cbv zeta; appends.
Qed.

(** A manager after any operations that succeeded, with the numbers it was given. *)
Inductive mreach : (Z → Prop) → mstate → Prop :=
| mr_initial n c r : (∀ t, resetTokens r !! t ≠ Some (HConn n)) → mreach (λ k, k = 0) (mkM n (newConnIDManager c) r [])
| mr_step seen s op s' : mreach seen s → allowed op s → mexec op s = (Ok tt, s') → mreach (λ k, seen k ∨ given op k) s'.

Lemma mreach_inv seen s : mreach seen s → the_inv (λ _ _ _, True) seen s.
Proof.
  induction 1 as [n c r Hr|seen s op s' _ IH Hal E].
  - unfold the_inv. split; cbn; try done.
    + constructor.
    + intros k. unfold retiredSeqs. cbn. set_solver.
    + intros k []%elem_of_nil.
    + intros t. split; [intros Ht; by destruct (Hr t)|done].
  - pose proof (op_inv _ _ op s IH Hal ltac:(by destruct op)) as Hop. rewrite E in Hop. apply Hop.
Qed.

(** The operation brings an ID under a number that is in use for another one. *)
Definition conflict (op : mop) (s : mstate) : Prop :=
  match op with
  | OpAdd _ f => nc_SequenceNumber f ∈ seqs (queue (man s)) ∧ mkNewConnID (nc_SequenceNumber f) (nc_ConnectionID f) (nc_StatelessResetToken f) ∉ queue (man s)
  | OpPreferred c t => 1 ∈ seqs (queue (man s)) ∧ mkNewConnID 1 c t ∉ queue (man s)
  | _ => False
  end.

(** C37: whatever NEW_CONNECTION_ID frames a peer sends, the manager keeps account
    of every connection ID: each ID it was given is the active one, in the queue or
    retired by a RETIRE_CONNECTION_ID frame, and only one of these; the IDs below
    Retire Prior To are given up at once; the reset token registered is that of
    the active ID.  No frame makes it panic, and it closes the connection only if
    two frames contradict each other or if four IDs or more are queued. *)
Theorem connection_ids_accounted seen s op : mreach seen s → allowed op s →
  (∀ n, seen n ↔ n = activeSequenceNumber (man s) ∨ n ∈ seqs (queue (man s)) ∨ n ∈ retiredSeqs (control s)) ∧
  NoDup (seqs (queue (man s))) ∧ (∀ n, n ∈ seqs (queue (man s)) → activeSequenceNumber (man s) < n) ∧
  (∀ n, n ∈ retiredSeqs (control s) → n < activeSequenceNumber (man s)) ∧
  (∀ t, GetByResetToken (runner s) t = Some (HConn (self s)) ↔ activeStatelessResetToken (man s) = Some t) ∧
  match mexec op s with
  | (Ok _, s') => match op with OpAdd _ f => nc_RetirePriorTo f ≤ activeSequenceNumber (man s') | _ => True end
  | (Err e, s') => conflict op s ∨ e = TransportError ConnectionIDLimitError 0 (ErrMsg "") ∧ MaxActiveConnectionIDs ≤ blen (queue (man s'))
  | (Panic _, _) => False
  end.
Proof.
  intros Hr Hal. pose proof (mreach_inv _ _ Hr) as Hi. split_and!; [by destruct Hi|by apply sorted_NoDup; destruct Hi| | |by destruct Hi|].
  - intros n (x & -> & Hx)%list_elem_of_fmap. pose proof (mi_above _ _ _ _ Hi) as Hab. rewrite Forall_forall in Hab. by apply Hab.
  - intros n Hn. apply (mi_retired _ _ _ _ Hi) in Hn. lia.
  - pose proof (op_inv _ _ op s Hi Hal ltac:(by destruct op)) as Hop. unfold conflict. destruct (mexec op s) as [[[]|e|m] s']; [|destruct op; naive_solver|done].
    destruct Hop as [_ Hop]. destruct op; naive_solver.
Qed.

Definition example_frame (seq retirePriorTo : Z) : NewConnectionIDFrame :=
  mkNewConnectionIDFrame seq retirePriorTo (mkConnectionID (cid_array [seq]) 1) (replicate 16 seq).
Definition example_manager : mstate := mkM 0 (newConnIDManager ConnectionID_zero) (newPacketHandlerMap None 0 []) [].
Definition example_manager1 : mstate := (Add 0 (example_frame 2 0) example_manager).2.

Lemma connection_ids_accounted_witness : match Add 0 (example_frame 4 3) example_manager1 with
  | (Ok _, s) => 3 ≤ activeSequenceNumber (man s) ∧ retiredSeqs (control s) = [2; 0]
  | _ => False
  end.
Proof.
  assert (Hr : mreach (λ k, k = 0 ∨ given (OpAdd 0 (example_frame 2 0)) k) example_manager1).
  { apply (mr_step _ example_manager); [by apply mr_initial; intros t; cbn; rewrite lookup_empty|by vm_compute|by vm_compute]. }
  destruct (connection_ids_accounted _ _ (OpAdd 0 (example_frame 4 3)) Hr ltac:(by vm_compute)) as (_ & _ & _ & _ & _ & H).
  cbn [mexec] in H. destruct (Add 0 (example_frame 4 3) example_manager1) as [[[]|e|m] s] eqn:E; [|by vm_compute in E|exact H].
  split; [exact H|]. replace s with (Add 0 (example_frame 4 3) example_manager1).2 by by rewrite E. by vm_compute.
Defined.

(** The CONNECTION_CLOSE packet is repeated for the 1st, 2nd, 4th, 8th packet, and
    so on. *)
Lemma OnesCount_one p : OnesCount_pos p = 1 ↔ ∃ k : nat, Zpos p = 2 ^ Z.of_nat k.
Proof.
  assert (Hpos : ∀ p, 1 ≤ OnesCount_pos p) by (intros q; induction q; cbn; lia).
  split.
  - induction p as [p _|p IH|]; cbn; intros E; [specialize (Hpos p); lia| |by exists 0%nat]. destruct (IH E) as [k Hk]. exists (S k).
    rewrite Nat2Z.inj_succ, Z.pow_succ_r by lia. lia.
  - intros [k Hk]. revert p Hk. induction k as [|k IH]; intros p Hk; [by injection Hk as ->|]. rewrite Nat2Z.inj_succ, Z.pow_succ_r in Hk by lia.
    destruct p as [p|p|]; cbn; [lia|apply IH; lia|lia].
Qed.

Fixpoint handlePackets (n : nat) (c : closedLocalConn) : closedLocalConn :=
  match n with O => c | S n => (closedLocal_handlePacket (handlePackets n c)).1 end.

Lemma handlePackets_counter n p : Z.of_nat n < 2 ^ 32 → handlePackets n (mkClosedLocal 0 p) = mkClosedLocal (Z.of_nat n) p.
Proof.
  induction n as [|n IH]; intros Hn; [done|]. cbn [handlePackets]. rewrite IH by lia. unfold closedLocal_handlePacket. cbn [counter connClosePacket fst].
  rewrite u32_small by lia. f_equal. lia.
Qed.

Lemma close_backoff n p : Z.of_nat n + 1 < 2 ^ 32 →
  (closedLocal_handlePacket (handlePackets n (mkClosedLocal 0 p))).2 = true ↔ ∃ k : nat, Z.of_nat n + 1 = 2 ^ Z.of_nat k.
Proof.
  intros Hn. rewrite handlePackets_counter by lia. unfold closedLocal_handlePacket, OnesCount32. cbn [counter connClosePacket snd].
  rewrite !u32_small by (rewrite ?u32_small; lia). destruct (Z.of_nat n + 1) as [|q|q] eqn:E; [lia| |lia]. by rewrite Z.eqb_eq, OnesCount_one.
Qed.
End connIDs.
