(* ===== verification/ConnIDsCorrect.v ===== *)
(** Connection IDs between two endpoints: the IDs one endpoint issues
    (conn_id_generator.go) and the other one uses (conn_id_manager.go), with
    frames that are lost, repeated and reordered.  The ID in use always leads to
    the connection, and neither endpoint sees an error. *)

From S2P Require Import Prelude.
From S2P Require Import Protocol.
From S2P Require Import Frames.
From S2P Require Import FrameParser.
From S2P Require Import ConnectionIDs.

Module connIDsCorrect.
Import protocol wire parser connIDs.

(** What the documentation of [ConnectionIDGenerator] asks for: the IDs generated
    are unique ([upcoming g c]: [g] may still generate [c]). *)
Class GeneratorLaws (G : Type) `{ConnectionIDGenerator G} := {
  gen_ok : G → Prop;
  upcoming : G → ConnectionID → Prop;
  generate_unique g : gen_ok g →
    let '(r, g') := GenerateConnectionID g in
    gen_ok g' ∧ (∀ d, upcoming g' d → upcoming g d) ∧ (∀ c, r = Ok c → upcoming g c ∧ ¬ upcoming g' c) ∧ ∀ m, r ≠ Panic m;
}.

Abbreviation idmap := (gmap Z (ConnectionID * option bytes)).

Section system.
Context {G : Type} `{GeneratorLaws G}.

(** * The endpoint that issues *)

(** All IDs issued are [ids], with their reset tokens; those that are not active
    any more are retired ([R]). *)
Record ginv (ids : idmap) (R : Z → Prop) (s : gstate G) : Prop := {
  gi_gen : gen_ok (generator (gen s));
  gi_range : ∀ n, is_Some (ids !! n) ↔ 0 ≤ n ≤ highestSeq (gen s);
  gi_high : 0 ≤ highestSeq (gen s);
  gi_inj : ∀ n m c t t', ids !! n = Some (c, t) → ids !! m = Some (c, t') → n = m;
  gi_old : ∀ n c t, ids !! n = Some (c, t) → ¬ upcoming (generator (gen s)) c;
  gi_active : ∀ n c, activeSrcConnIDs (gen s) !! n = Some c → ∃ t, ids !! n = Some (c, t);
  gi_gone : ∀ n x, ids !! n = Some x → activeSrcConnIDs (gen s) !! n = None → R n;
  gi_new : ∀ f, FNewConnectionID f ∈ gcontrol s ↔
    ids !! nc_SequenceNumber f = Some (nc_ConnectionID f, Some (nc_StatelessResetToken f)) ∧ nc_RetirePriorTo f = 0;
  gi_first : ∀ n c, ids !! n = Some (c, None) → n = 0;
  gi_handlers : ∀ n c, activeSrcConnIDs (gen s) !! n = Some c → handlers (grunner s) !! c = Some (HConn (gself s));
  gi_free : ∀ c, upcoming (generator (gen s)) c → handlers (grunner s) !! c = None;
  gi_client : ∀ c, initialClientDestConnID (gen s) = Some c → ¬ upcoming (generator (gen s)) c ∧ ∀ n t, ids !! n ≠ Some (c, t);
  gi_timers : ∀ d l c, (d, l) ∈ timers (grunner s) → c ∈ l → ¬ upcoming (generator (gen s)) c ∧ ∀ n, activeSrcConnIDs (gen s) !! n ≠ Some c;
}.

Lemma token_frame c h : let '(t, h') := GetStatelessResetToken c h in handlers h' = handlers h ∧ timers h' = timers h.
Proof. unfold GetStatelessResetToken. by destruct (statelessResetHasher h). Qed.

(** [issueNewConnID] as one step. *)
Lemma issue_run s : 0 ≤ highestSeq (gen s) < 2 ^ 62 →
  issueNewConnID s =
  let '(r, g) := GenerateConnectionID (generator (gen s)) in
  let m := gen s in
  let s1 := mkG (gself s) (mkGenerator g (highestSeq m) (activeSrcConnIDs m) (initialClientDestConnID m)) (grunner s) (gcontrol s) in
  match r with
  | Ok c =>
      let seq := highestSeq m + 1 in
      let '(t, h) := GetStatelessResetToken c (hm_Add c (HConn (gself s)) (grunner s)).2 in
      (Ok tt, mkG (gself s) (mkGenerator g seq (<[seq := c]> (activeSrcConnIDs m)) (initialClientDestConnID m)) h
                (gcontrol s ++ [FNewConnectionID (mkNewConnectionIDFrame seq 0 c t)]))
  | Err e => (Err e, s1)
  | Panic p => (Panic p, s1)
  end.
Proof.
  intros Hh. unfold issueNewConnID, generateConnID, getStatelessResetToken, g_addConnectionID, g_queueControlFrame, set_gen, g_runner, mbind, st_bind, st_get, st_modify, st_lift.
  destruct (GenerateConnectionID (generator (gen s))) as [[c|e|p] g]; [|done|done]. cbn.
  destruct (GetStatelessResetToken c (hm_Add c (HConn (gself s)) (grunner s)).2) as [t h] eqn:E. cbn. rewrite u64_small by lia. done.
Qed.

Lemma issue_inv ids R s : ginv ids R s → highestSeq (gen s) < 2 ^ 62 →
  match issueNewConnID s with
  | (Ok _, s') => ∃ c t, ginv (<[highestSeq (gen s) + 1 := (c, Some t)]> ids) R s' ∧ ids !! (highestSeq (gen s) + 1) = None ∧ gself s' = gself s ∧
      size (activeSrcConnIDs (gen s')) = S (size (activeSrcConnIDs (gen s))) ∧ highestSeq (gen s') = highestSeq (gen s) + 1
  | (Err e, s') => ginv ids R s' ∧ (GenerateConnectionID (generator (gen s))).1 = Err e ∧ gself s' = gself s ∧ activeSrcConnIDs (gen s') = activeSrcConnIDs (gen s)
  | (Panic _, _) => False
  end.
Proof.
  intros Hi Hh. rewrite issue_run by (destruct Hi; lia). pose proof (generate_unique _ (gi_gen _ _ _ Hi)) as Hg.
  destruct (GenerateConnectionID (generator (gen s))) as [r g]. destruct Hg as (Hg & Hsub & Hnew & Hp). cbv zeta.
  destruct r as [c|e|p]; [|split; [|done]|by destruct (Hp p)].
  - destruct (Hnew c eq_refl) as [Hup Hnup]. unfold hm_Add. rewrite (gi_free _ _ _ Hi c Hup). cbn [snd].
    pose proof (token_frame c (set_handlers (<[c := HConn (gself s)]> (handlers (grunner s))) (grunner s))) as Ht.
    destruct (GetStatelessResetToken _ _) as [t h]. destruct Ht as [Hth Htt]. cbn in Hth, Htt. exists c, t.
    assert (Hnone : ids !! (highestSeq (gen s) + 1) = None). { apply eq_None_not_Some. rewrite (gi_range _ _ _ Hi). lia. }
    assert (Hanone : activeSrcConnIDs (gen s) !! (highestSeq (gen s) + 1) = None).
    { destruct (activeSrcConnIDs (gen s) !! _) as [c'|] eqn:E; [|done]. apply (gi_active _ _ _ Hi) in E as [? E]. congruence. }
    split_and!; [|done|done|cbn; by rewrite map_size_insert_None|done]. destruct Hi. split; cbn; rewrite ?Hth, ?Htt; try done.
    + intros n. rewrite lookup_insert_is_Some', gi_range0. lia.
    + lia.
    + intros n m c' t1 t2 [[<- [= <- <-]]|[Hn E1]]%lookup_insert_Some [[<- E2]|[Hm E2]]%lookup_insert_Some; [done| | |by eapply gi_inj0].
      * by destruct (gi_old0 _ _ _ E2).
      * injection E2 as <- <-. by destruct (gi_old0 _ _ _ E1).
    + intros n c' t' [[<- [= <- <-]]|[Hn E1]]%lookup_insert_Some; [done|]. eapply gi_old0 in E1. auto.
    + intros n c' [[<- <-]|[Hne (t' & E)%gi_active0]]%lookup_insert_Some; [exists (Some t); by rewrite lookup_insert_eq|exists t'; by rewrite lookup_insert_ne].
    + intros n x [[<- <-]|[Hne E]]%lookup_insert_Some; [by rewrite lookup_insert_eq|rewrite lookup_insert_ne by done; eauto].
    + intros f. rewrite elem_of_app, list_elem_of_singleton, gi_new0, lookup_insert_Some. destruct f as [n r c' t']. cbn. split.
      * intros [[E ->]|[= -> -> -> ->]]; [|by split; [left|]]. split; [right; split; [|done]|done]. intros <-. congruence.
      * intros [[[<- [= <- <-]]|[Hne E]] ->]; [by right|by left].
    + intros n c' [[<- [=]]|[Hne E]]%lookup_insert_Some. by eapply gi_first0.
    + intros n c' [[<- <-]|[_ Hc]]%lookup_insert_Some; [by rewrite lookup_insert_eq|].
      destruct (decide (c = c')) as [->|Hne]; [by rewrite lookup_insert_eq|rewrite lookup_insert_ne by done; eauto].
    + intros c' Hc'. rewrite lookup_insert_ne by naive_solver. naive_solver.
    + intros c' Hc'. destruct (gi_client0 c' Hc'). split; [naive_solver|]. intros n t'. rewrite lookup_insert_Some. naive_solver.
    + intros d l c' Hd Hc'. destruct (gi_timers0 d l c' Hd Hc'). split; [naive_solver|]. intros n. rewrite lookup_insert_Some. naive_solver.
  - destruct Hi. split; cbn; try done; naive_solver.
Qed.

Lemma ginv_weaken ids (R R' : Z → Prop) s : (∀ n, R n → R' n) → ginv ids R s → ginv ids R' s.
Proof. intros HR []. split; try done. intros n x E1 E2. by eapply HR, gi_gone0. Qed.

(** [issueUpTo] stops at the first error. *)
Lemma issueUpTo_inv k ids R s : ginv ids R s → highestSeq (gen s) + Z.of_nat k ≤ 2 ^ 62 →
  ∃ ids', ids ⊆ ids' ∧ ginv ids' R (issueUpTo k s).2 ∧ gself (issueUpTo k s).2 = gself s ∧
    (size (activeSrcConnIDs (gen (issueUpTo k s).2)) ≤ size (activeSrcConnIDs (gen s)) + k)%nat ∧ ∀ m, (issueUpTo k s).1 ≠ Panic m.
Proof.
  revert ids s. induction k as [|k IH]; intros ids s Hi Hk; cbn [issueUpTo]; [exists ids; cbn; split_and!; try done; lia|].
  pose proof (issue_inv ids R s Hi ltac:(lia)) as Hs. unfold mbind, st_bind. destruct (issueNewConnID s) as [[[]|e|m] s'].
  - destruct Hs as (c & t & Hi' & Hn & Hself & Hsz & Hhi). destruct (IH _ s' Hi' ltac:(lia)) as (ids' & Hsub & Hi'' & Hs'' & Hsz' & Hp). exists ids'. split_and!; try done.
    + etrans; [|exact Hsub]. by apply insert_subseteq.
    + congruence.
    + lia.
  - destruct Hs as (Hi' & _ & Hself & Ha). exists ids. cbn. rewrite Ha. split_and!; try done. lia.
  - done.
Qed.

Lemma SetMaxActive_inv limit ids R s : ginv ids R s → highestSeq (gen s) + limit ≤ 2 ^ 62 → Z.of_nat (size (activeSrcConnIDs (gen s))) ≤ limit →
  ∃ ids', ids ⊆ ids' ∧ ginv ids' R (SetMaxActiveConnIDs limit s).2 ∧ gself (SetMaxActiveConnIDs limit s).2 = gself s ∧
    Z.of_nat (size (activeSrcConnIDs (gen (SetMaxActiveConnIDs limit s).2))) ≤ limit ∧ ∀ m, (SetMaxActiveConnIDs limit s).1 ≠ Panic m.
Proof.
  intros Hi Hh Hsz. unfold SetMaxActiveConnIDs. unfold mbind, st_bind, st_get. destruct (_ =? 0); [by exists ids|].
  destruct (issueUpTo_inv (Z.to_nat (limit `min` MaxIssuedConnectionIDs - Z.of_nat (size (activeSrcConnIDs (gen s))))) ids R s Hi ltac:(lia))
    as (ids' & H1 & H2 & H3 & H4 & H5).
  exists ids'. split_and!; try done. lia.
Qed.

(** An ID that the peer retired is dropped; unless it is the first one, another
    one is issued. *)
Lemma drop_inv ids R s n c : ginv ids R s → activeSrcConnIDs (gen s) !! n = Some c → R n →
  ginv ids R (mkG (gself s) (mkGenerator (generator (gen s)) (highestSeq (gen s)) (delete n (activeSrcConnIDs (gen s))) (initialClientDestConnID (gen s)))
                (hm_Retire c (grunner s)) (gcontrol s)).
Proof.
  intros [] Hc HR. destruct (gi_active0 n c Hc) as [t Et]. split; cbn; try done.
  - intros m c' [_ E]%lookup_delete_Some. eauto.
  - intros m x E1 [<-|E2]%lookup_delete_None; eauto.
  - intros m c' [_ E]%lookup_delete_Some. eauto.
  - intros d l c' [Hd|Hd]%elem_of_app Hin.
    + destruct (gi_timers0 d l c' Hd Hin) as [H1 H2]. split; [done|]. intros m [_ E]%lookup_delete_Some. by eapply H2.
    + apply list_elem_of_singleton in Hd as [= -> ->]. apply list_elem_of_singleton in Hin as ->. split; [by eapply gi_old0|].
      intros m [Hne E]%lookup_delete_Some. destruct (gi_active0 m c E) as [t' Et']. apply Hne. by eapply gi_inj0.
Qed.

Lemma Retire_inv ids R s n c a ta : ginv ids R s → highestSeq (gen s) < 2 ^ 62 → R n → is_Some (ids !! n) → ids !! a = Some (c, ta) → n ≠ a →
  match Retire n c s with
  | (Ok _, s') => ∃ ids', ids ⊆ ids' ∧ ginv ids' R s' ∧ gself s' = gself s ∧ (size (activeSrcConnIDs (gen s')) ≤ size (activeSrcConnIDs (gen s)))%nat
  | (Err e, _) => (GenerateConnectionID (generator (gen s))).1 = Err e
  | (Panic _, _) => False
  end.
Proof.
  intros Hi Hh HR Hn Ha Hne. unfold Retire. unfold mbind at 1, st_bind at 1, st_get. apply (gi_range _ _ _ Hi) in Hn. rewrite (proj2 (Z.ltb_ge _ _)) by lia.
  destruct (activeSrcConnIDs (gen s) !! n) as [cn|] eqn:E; [|by exists ids]. case_bool_decide as Hc.
  { subst. destruct (gi_active _ _ _ Hi _ _ E) as [t Et]. destruct Hne. by eapply (gi_inj _ _ _ Hi). }
  pose proof (drop_inv ids R s n cn Hi E HR) as Hd. unfold retireConnectionID, g_runner, set_gen, mbind, st_bind, st_modify. cbn.
  set (s1 := mkG _ _ _ _) in *. assert (Hsz : size (activeSrcConnIDs (gen s)) = S (size (activeSrcConnIDs (gen s1)))).
  { cbn. rewrite map_size_delete, E. assert (size (activeSrcConnIDs (gen s)) ≠ 0%nat); [|lia]. intros Hz%map_size_empty_inv. by rewrite Hz, lookup_empty in E. }
  destruct (n =? 0); [exists ids; split_and!; try done; cbn in *; lia|].
  pose proof (issue_inv ids R s1 Hd Hh) as Hs. destruct (issueNewConnID s1) as [[[]|e|m] s']; [|by destruct Hs as (_ & He & _)|done].
  destruct Hs as (c' & t & Hi' & Hnone & Hself & Hsz' & _). eexists. split; [by apply insert_subseteq|]. split_and!; [done|done|lia].
Qed.

Lemma g_SetHandshakeComplete_inv ids R s : ginv ids R s → ∃ s', g_SetHandshakeComplete s = (Ok tt, s') ∧ ginv ids R s' ∧ gself s' = gself s ∧
  activeSrcConnIDs (gen s') = activeSrcConnIDs (gen s).
Proof.
  intros Hi. unfold g_SetHandshakeComplete. unfold mbind at 1, st_bind at 1, st_get. destruct (initialClientDestConnID (gen s)) as [c|] eqn:E; [|by exists s].
  eexists. split; [done|]. split; [|done]. destruct (gi_client _ _ _ Hi c E) as [Hc1 Hc2]. destruct Hi. split; cbn; try done.
  intros d l c' [Hd|Hd]%elem_of_app Hin; [eauto|].
  apply list_elem_of_singleton in Hd as [= -> ->]. apply list_elem_of_singleton in Hin as ->. split; [done|]. intros n Hn. destruct (gi_active0 n c Hn) as [t Ht]. by eapply Hc2.
Qed.

(** Timers delete retired IDs only. *)
Lemma deleteAll_lookup ids m c : deleteAll ids m !! c = if bool_decide (c ∈ ids) then None else m !! c.
Proof.
  unfold deleteAll. revert m. induction ids as [|id ids IH]; intros m; cbn [foldl]; [done|]. rewrite IH. repeat case_bool_decide; try set_solver.
  - destruct (decide (id = c)) as [->|]; [by rewrite lookup_delete_eq|set_solver].
  - rewrite lookup_delete_ne; [done|set_solver].
Qed.

Lemma due_lookup (due : list (Z * list ConnectionID)) m c :
  foldl (λ m t, deleteAll t.2 m) m due !! c = if bool_decide (Exists (λ t, c ∈ t.2) due) then None else m !! c.
Proof.
  revert m. induction due as [|t due IH]; intros m; cbn [foldl]; [done|]. rewrite IH, deleteAll_lookup. repeat case_bool_decide; rewrite ?Exists_cons in *; naive_solver.
Qed.

Lemma fireTimers_inv now ids R s : ginv ids R s → ginv ids R (mkG (gself s) (gen s) (fireTimers now (grunner s)) (gcontrol s)).
Proof.
  intros []. split; cbn; try done.
  - intros n c Hc. rewrite due_lookup. case_bool_decide as Hd; [|eauto]. apply Exists_exists in Hd as ((d & l) & Hin & Hc').
    apply list_elem_of_filter in Hin as [_ Hin]. destruct (gi_timers0 d l c Hin Hc') as [_ Hne]. by destruct (Hne n).
  - intros c Hc. rewrite due_lookup. case_bool_decide; [done|eauto].
  - intros d l c [_ Hd]%list_elem_of_filter. eauto.
Qed.

(** * Two endpoints *)

(** The endpoint [sA] issues IDs, [sB] uses them.  The control frames queued stay:
    a packet may carry any of them, at any time and more than once.  [sent] are
    the packets of [sB]: the destination connection ID and the retired numbers. *)
Record sys := mkSys { sA : gstate G; sB : mstate; sent : list (ConnectionID * list Z) }.

Definition limit : Z := MaxActiveConnectionIDs.

Inductive step : sys → sys → Prop :=
| s_limit a b p : highestSeq (gen a) + limit ≤ 2 ^ 62 → step (mkSys a b p) (mkSys (SetMaxActiveConnIDs limit a).2 b p)
| s_issued a b p x f b' : FNewConnectionID f ∈ gcontrol a → Add x f b = (Ok tt, b') → step (mkSys a b p) (mkSys a b' p)
| s_send a b p x c b' : Get x b = (Ok c, b') → step (mkSys a b p) (mkSys a b' (p ++ [(c, retiredSeqs (control b'))]))
| s_sent a b p b' : SentPacket b = (Ok tt, b') → step (mkSys a b p) (mkSys a b' p)
| s_complete a b p b' : SetHandshakeComplete b = (Ok tt, b') → step (mkSys a b p) (mkSys a b' p)
| s_token a b p t b' : activeSequenceNumber (man b) = 0 → activeStatelessResetToken (man b) = None → SetStatelessResetToken t b = (Ok tt, b') →
    step (mkSys a b p) (mkSys a b' p)
| s_retire a b p c rs n a' : (c, rs) ∈ p → n ∈ rs → highestSeq (gen a) < 2 ^ 62 → Retire n c a = (Ok tt, a') → step (mkSys a b p) (mkSys a' b p)
| s_gcomplete a b p a' : g_SetHandshakeComplete a = (Ok tt, a') → step (mkSys a b p) (mkSys a' b p)
| s_timers a b p now : clock (grunner a) ≤ now → step (mkSys a b p) (mkSys (mkG (gself a) (gen a) (fireTimers now (grunner a)) (gcontrol a)) b p).

(** The first ID of the connection is [c0]; a server also answers to the ID the
    client chose. *)
Record initial (g : G) (c0 : ConnectionID) (cl : option ConnectionID) (s : sys) : Prop := {
  in_gen : gen_ok g;
  in_A : gen (sA s) = newConnIDGenerator c0 cl g;
  in_B : man (sB s) = newConnIDManager c0;
  in_first : ¬ upcoming g c0 ∧ handlers (grunner (sA s)) !! c0 = Some (HConn (gself (sA s)));
  in_client : ∀ c, cl = Some c → ¬ upcoming g c ∧ c ≠ c0;
  in_free : ∀ c, upcoming g c → handlers (grunner (sA s)) !! c = None;
  in_timers : timers (grunner (sA s)) = [];
  in_control : gcontrol (sA s) = [] ∧ control (sB s) = [] ∧ sent s = [];
  in_tokens : ∀ t, resetTokens (runner (sB s)) !! t ≠ Some (HConn (self (sB s)));
}.

Inductive reachable : sys → Prop :=
| reach_initial g c0 cl s : initial g c0 cl s → reachable s
| reach_step s s' : reachable s → step s s' → reachable s'.

Definition known (ids : idmap) (n : Z) (c : ConnectionID) (t : option bytes) : Prop := ∃ t0, ids !! n = Some (c, t0) ∧ (n ≠ 0 → t = t0).

Record sinv (si_ids : idmap) (si_seen : Z → Prop) (s : sys) : Prop := {
  si_A : ginv si_ids (λ n, n ∈ retiredSeqs (control (sB s))) (sA s);
  si_size : Z.of_nat (size (activeSrcConnIDs (gen (sA s)))) ≤ limit;
  si_B : the_inv (known si_ids) si_seen (sB s);
  si_issued : ∀ n, si_seen n → is_Some (si_ids !! n);
  si_sent : ∀ c rs n, (c, rs) ∈ sent s → n ∈ rs → n ∈ retiredSeqs (control (sB s)) ∧ ∃ a t, si_ids !! a = Some (c, t) ∧ n < a;
}.

Lemma known_mono ids ids' seen r s : ids ⊆ ids' → minv (known ids) seen r s → minv (known ids') seen r s.
Proof.
  intros Hsub. assert (Hk : ∀ n c t, known ids n c t → known ids' n c t). { intros n c t (t0 & E & Ht). exists t0. split; [by eapply lookup_weaken|done]. }
  intros []. split; try done; auto.
Qed.

(** What [sB] holds, [sA] answers to. *)
Lemma held_active ids seen s n : sinv ids seen s → n = activeSequenceNumber (man (sB s)) ∨ n ∈ seqs (queue (man (sB s))) → is_Some (activeSrcConnIDs (gen (sA s)) !! n).
Proof.
  intros [HA _ HB Hiss _] Hn. destruct (activeSrcConnIDs (gen (sA s)) !! n) as [c|] eqn:E; [done|]. exfalso.
  assert (Hs : seen n) by (apply (mi_account _ _ _ _ HB); tauto). apply Hiss in Hs as [x Hx]. pose proof (gi_gone _ _ _ HA _ _ Hx E) as Hr.
  apply (mi_retired _ _ _ _ HB) in Hr as [Hlt Hne]. destruct Hn as [|Hn]; [done|]. apply list_elem_of_fmap in Hn as (y & -> & Hy).
  pose proof (mi_above _ _ _ _ HB) as Hab. rewrite Forall_forall in Hab. apply Hab in Hy. lia.
Qed.

Lemma NoDup_size (l : list Z) (m : gmap Z ConnectionID) : NoDup l → (∀ n, n ∈ l → is_Some (m !! n)) → (length l ≤ size m)%nat.
Proof.
  intros Hnd Hl. rewrite <- (size_list_to_set (C := gset Z) l Hnd), <- size_dom. apply subseteq_size. intros n Hn%elem_of_list_to_set. by apply elem_of_dom, Hl.
Qed.

Lemma queue_small ids seen s : sinv ids seen s → blen (queue (man (sB s))) < limit.
Proof.
  intros Hi. pose proof Hi as [_ Hsz HB _ _].
  assert (Hnd : NoDup (activeSequenceNumber (man (sB s)) :: seqs (queue (man (sB s))))).
  { apply NoDup_cons. split.
    - intros (y & E & Hy)%list_elem_of_fmap. pose proof (mi_above _ _ _ _ HB) as Hab. rewrite Forall_forall in Hab. apply Hab in Hy. lia.
    - by apply sorted_NoDup, (mi_sorted _ _ _ _ HB). }
  pose proof (NoDup_size _ (activeSrcConnIDs (gen (sA s))) Hnd) as Hl. cbn in Hl. rewrite length_fmap in Hl.
  assert (S (length (queue (man (sB s)))) ≤ size (activeSrcConnIDs (gen (sA s))))%nat; [|unfold blen; lia].
  apply Hl. intros n [->|Hn]%elem_of_cons; eapply held_active; eauto.
Qed.

(** Two IDs with one number agree. *)
Lemma no_conflict ids seen s n c t : sinv ids seen s → known ids n c (Some t) → n ∈ seqs (queue (man (sB s))) → mkNewConnID n c t ∉ queue (man (sB s)) → False.
Proof.
  intros [HA _ HB _ _] (t0 & E0 & Ht0) (y & -> & Hy)%list_elem_of_fmap Hnot. apply Hnot. destruct (mi_known _ _ _ _ HB y Hy) as (t1 & E1 & Ht1).
  destruct (mi_active _ _ _ _ HB) as (t2 & E2 & _). pose proof (mi_above _ _ _ _ HB) as Hab. rewrite Forall_forall in Hab. specialize (Hab y Hy).
  pose proof (proj1 (gi_range _ _ _ HA _) (mk_is_Some _ _ E2)). assert (nid_SequenceNumber y ≠ 0) as Hne by lia. specialize (Ht0 Hne). specialize (Ht1 Hne).
  rewrite E0 in E1. injection E1 as -> ->. rewrite <- Ht1 in Ht0. injection Ht0 as ->. by destruct y.
Qed.

(** An operation of [sB] that brings no new ID, or one that [sA] issued. *)
Lemma B_inv ids seen a b p op : sinv ids seen (mkSys a b p) → allowed op b → op_known (known ids) op b → (∀ n, given op n → is_Some (ids !! n)) →
  match mexec op b with
  | (Ok _, b') => sinv ids (λ n, seen n ∨ given op n) (mkSys a b' p)
  | (Err _, _) => False
  | (Panic _, _) => False
  end.
Proof.
  intros Hi Hal Hk Hgiven. pose proof Hi as [HA Hsz HB Hiss Hsent]. cbn in *. pose proof (op_inv (known ids) seen op b HB Hal Hk) as Hop.
  pose proof (mexec_appends op b) as Happ.
  assert (Hnext : ∀ b', control b `prefix_of` control b' → the_inv (known ids) (λ n, seen n ∨ given op n) b' → sinv ids (λ n, seen n ∨ given op n) (mkSys a b' p)).
  { intros b' [l Hl] Hb'. assert (Hr : ∀ n, n ∈ retiredSeqs (control b) → n ∈ retiredSeqs (control b')). { intros n Hn. rewrite Hl, retiredSeqs_app. set_solver. }
    split; cbn; [|done|done|intros n [?|?]; auto|].
    - eapply ginv_weaken; [|exact HA]. exact Hr.
    - intros c rs n Hc Hn. destruct (Hsent c rs n Hc Hn) as [H1 H2]. auto. }
  destruct (mexec op b) as [[[]|e|m] b']; cbn in Happ; [apply Hnext; [done|apply Hop]|destruct op as [x f|c t|x| | |c|t]; try done|done].
  - destruct Hop as [[Hin Hnot]|(_ & Hb' & Hlen)]; [by eapply no_conflict|].
    pose proof (queue_small _ _ _ (Hnext b' Happ Hb')) as Hq. cbn in Hq. unfold limit in Hq. lia.
  - destruct Hop. by eapply no_conflict.
Qed.

Lemma initial_inv g c0 cl s : initial g c0 cl s → ∃ ids seen, sinv ids seen s.
Proof.
  intros [Hg EA EB [Hc0 Hh0] Hcl Hfree Htm (Hc1 & Hc2 & Hs) Htok]. exists {[ 0 := (c0, None) ]}, (λ n, n = 0). split.
  - split; rewrite ?EA, ?Hc1, ?Htm; cbn; try done.
    + intros n. rewrite lookup_singleton_is_Some. lia.
    + intros n m c t t' [-> [= <- <-]]%lookup_singleton_Some [-> _]%lookup_singleton_Some. done.
    + by intros n c t [<- [= <- <-]]%lookup_singleton_Some.
    + intros n c [<- <-]%lookup_singleton_Some. exists None. apply lookup_singleton_eq.
    + intros n x [<- _]%lookup_singleton_Some. by rewrite lookup_singleton_eq.
    + intros f. split; [by intros ?%elem_of_nil|]. intros [[_ [=]]%lookup_singleton_Some _].
    + by intros n c [<- _]%lookup_singleton_Some.
    + by intros n c [<- <-]%lookup_singleton_Some.
    + intros c ->. destruct (Hcl c eq_refl) as [H1 H2]. split; [done|]. intros n t [_ [= E _]]%lookup_singleton_Some. done.
    + intros d l c []%elem_of_nil.
  - rewrite EA. cbn. rewrite map_size_singleton. done.
  - unfold the_inv. split; rewrite ?EB, ?Hc2; cbn; try done.
    + intros x []%elem_of_nil.
    + exists None. split; [apply lookup_singleton_eq|done].
    + constructor.
    + intros n. unfold retiredSeqs. cbn. set_solver.
    + intros n []%elem_of_nil.
    + intros t. split; [intros Ht; by destruct (Htok t)|done].
  - intros n ->. by rewrite lookup_singleton_eq.
  - rewrite Hs. intros c rs n []%elem_of_nil.
Qed.

(** A step of [sA] that keeps what it issued. *)
Lemma A_inv ids ids' seen a a' b p : sinv ids seen (mkSys a b p) → ids ⊆ ids' → ginv ids' (λ n, n ∈ retiredSeqs (control b)) a' →
  Z.of_nat (size (activeSrcConnIDs (gen a'))) ≤ limit → sinv ids' seen (mkSys a' b p).
Proof.
  intros [_ _ HB Hiss Hsent] Hsub Ha' Hsz. split; cbn in *; [done|done|by eapply known_mono| |].
  - intros n [x Hx]%Hiss. exists x. by eapply lookup_weaken.
  - intros c rs n Hc Hn. destruct (Hsent c rs n Hc Hn) as (H1 & a0 & t & E & Hlt). split; [done|]. exists a0, t. split; [by eapply lookup_weaken|done].
Qed.

Lemma known_frame ids seen s f : sinv ids seen s → FNewConnectionID f ∈ gcontrol (sA s) →
  known ids (nc_SequenceNumber f) (nc_ConnectionID f) (Some (nc_StatelessResetToken f)) ∧ is_Some (ids !! nc_SequenceNumber f) ∧
  0 ≤ nc_RetirePriorTo f ≤ nc_SequenceNumber f.
Proof.
  intros [HA _ _ _ _] [Hf Hr]%(gi_new _ _ _ HA). split_and!; [by eexists|done|lia|]. rewrite Hr. apply (gi_range _ _ _ HA). done.
Qed.

Lemma ids_step_inv ids seen s s' : sinv ids seen s → step s s' → ∃ ids' seen', sinv ids' seen' s'.
Proof.
  intros Hi Hst. destruct Hst as [a b p Hh|a b p x f b' Hf E|a b p x c b' E|a b p b' E|a b p b' E|a b p t b' H1 H2 E|a b p c rs n a' Hc Hn Hh E|a b p a' E|a b p now Hc].
  - pose proof Hi as [HA Hsz _ _ _]. destruct (SetMaxActive_inv limit ids _ a HA Hh Hsz) as (ids' & Hsub & Ha' & _ & Hsz' & _). exists ids', seen. by eapply A_inv.
  - destruct (known_frame _ _ _ f Hi Hf) as (Hk & Hs & Hr). pose proof (B_inv ids seen a b p (OpAdd x f) Hi Hr Hk) as HB. cbn [mexec] in HB.
    rewrite E in HB. eexists _, _. apply HB. by intros n ->.
  - pose proof (B_inv ids seen a b p (OpGet x) Hi I I ltac:(done)) as HB. cbn [mexec] in HB. rewrite (st_bind_ok _ _ _ _ _ E) in HB. cbn in HB.
    destruct (Get_inv (known ids) seen x b (si_B _ _ _ Hi)) as (b1 & E' & Hb). rewrite E in E'. injection E' as -> ->.
    exists ids, (λ n, seen n ∨ False). destruct HB as [HA Hsz HB Hiss Hsent]. split; try done. cbn in *.
    intros c rs n [Hc|Hc%list_elem_of_singleton]%elem_of_app Hn; [by eapply Hsent|]. injection Hc as -> ->. split; [done|].
    destruct (mi_active _ _ _ _ Hb) as (t & Et & _). apply (mi_retired _ _ _ _ Hb) in Hn as [Hlt _]. eauto.
  - pose proof (B_inv ids seen a b p OpSentPacket Hi I I ltac:(done)) as HB. cbn [mexec] in HB. rewrite E in HB. eauto.
  - pose proof (B_inv ids seen a b p OpHandshakeComplete Hi I I ltac:(done)) as HB. cbn [mexec] in HB. rewrite E in HB. eauto.
  - assert (Hk : known ids 0 (activeConnectionID (man b)) (Some t)).
    { destruct (mi_active _ _ _ _ (si_B _ _ _ Hi)) as (t0 & E0 & _). cbn in E0. rewrite H1 in E0. by exists t0. }
    pose proof (B_inv ids seen a b p (OpResetToken t) Hi (conj H1 H2) Hk ltac:(done)) as HB. cbn [mexec] in HB. rewrite E in HB. eauto.
  - pose proof Hi as [HA Hsz _ Hiss Hsent]. destruct (Hsent c rs n Hc Hn) as (Hr & a0 & t & Ea & Hlt). cbn in *.
    assert (Hs : is_Some (ids !! n)). { apply Hiss, (mi_account _ _ _ _ (si_B _ _ _ Hi)). auto. }
    pose proof (Retire_inv ids _ a n c a0 t HA Hh Hr Hs Ea ltac:(lia)) as HR. rewrite E in HR. destruct HR as (ids' & Hsub & Ha' & _ & Hsz').
    exists ids', seen. eapply A_inv; [done..|]. lia.
  - pose proof Hi as [HA Hsz _ _ _]. destruct (g_SetHandshakeComplete_inv ids _ a HA) as (a1 & E1 & Ha1 & _ & Hact). rewrite E in E1. injection E1 as <-.
    exists ids, seen. eapply A_inv; [done..|]. by rewrite Hact.
  - pose proof Hi as [HA Hsz _ _ _]. exists ids, seen. eapply A_inv; [done|done|by apply fireTimers_inv|done].
Qed.

Lemma ids_reachable_inv s : reachable s → ∃ ids seen, sinv ids seen s.
Proof.
  induction 1 as [g c0 cl s Hs|s s' _ (ids & seen & IH) Hst]; [by eapply initial_inv|]. by eapply ids_step_inv.
Qed.

Lemma held_routed ids seen s n c t : sinv ids seen s → n = activeSequenceNumber (man (sB s)) ∨ n ∈ seqs (queue (man (sB s))) → known ids n c t →
  handlers (grunner (sA s)) !! c = Some (HConn (gself (sA s))).
Proof.
  intros Hi Hn (t0 & E & _). destruct (held_active _ _ _ _ Hi Hn) as [c' Hc]. pose proof Hi as [HA _ _ _ _].
  destruct (gi_active _ _ _ HA n c' Hc) as [t' Et]. rewrite E in Et. injection Et as <- <-. by eapply (gi_handlers _ _ _ HA).
Qed.

(** C18: connection IDs of two endpoints agree.  However the frames are lost,
    repeated and reordered, and whenever retired IDs are deleted: the ID an
    endpoint sends to leads to the connection at its peer, as do those it keeps
    in reserve; a stateless reset is recognised by the token the peer issued with
    this ID; no frame the peer issued makes it close the connection (the limit of
    four IDs included), and no retirement makes the peer close it, short of
    running out of IDs. *)
Theorem connection_ids_agree s : reachable s →
  handlers (grunner (sA s)) !! activeConnectionID (man (sB s)) = Some (HConn (gself (sA s))) ∧
  (∀ x, x ∈ queue (man (sB s)) → handlers (grunner (sA s)) !! nid_ConnectionID x = Some (HConn (gself (sA s)))) ∧
  (activeSequenceNumber (man (sB s)) ≠ 0 → ∃ t, activeStatelessResetToken (man (sB s)) = Some t ∧
    FNewConnectionID (mkNewConnectionIDFrame (activeSequenceNumber (man (sB s))) 0 (activeConnectionID (man (sB s))) t) ∈ gcontrol (sA s) ∧
    ∀ t', resetTokens (runner (sB s)) !! t' = Some (HConn (self (sB s))) ↔ t' = t) ∧
  (∀ x f, FNewConnectionID f ∈ gcontrol (sA s) → ∃ b', Add x f (sB s) = (Ok tt, b')) ∧
  (∀ c rs n, (c, rs) ∈ sent s → n ∈ rs → highestSeq (gen (sA s)) < 2 ^ 62 →
    match Retire n c (sA s) with
    | (Ok _, _) => True
    | (Err e, _) => (GenerateConnectionID (generator (gen (sA s)))).1 = Err e
    | (Panic _, _) => False
    end).
Proof.
  intros (ids & seen & Hi)%ids_reachable_inv. pose proof Hi as [HA Hsz HB Hiss Hsent]. pose proof (mi_active _ _ _ _ HB) as Hact. split_and!.
  - eapply held_routed; eauto.
  - intros x Hx. eapply held_routed; [done| |by apply (mi_known _ _ _ _ HB)]. right. by apply (list_elem_of_fmap_2 nid_SequenceNumber).
  - intros Hne. destruct Hact as (t0 & E & Ht). specialize (Ht Hne). destruct t0 as [t|]; [|by apply (gi_first _ _ _ HA) in E]. exists t. split_and!; [done|by apply (gi_new _ _ _ HA)|].
    intros t'. rewrite (mi_tokens _ _ _ _ HB), Ht. naive_solver.
  - intros x f Hf. destruct (known_frame _ _ _ f Hi Hf) as (Hk & Hs & Hr). destruct s as [a b p]. pose proof (B_inv ids seen a b p (OpAdd x f) Hi Hr Hk) as Hadd.
    cbn [mexec] in Hadd. cbn. destruct (Add x f b) as [[[]|e|m] b']; [by exists b'| |]; destruct Hadd; by intros n ->.
  - intros c rs n Hc Hn Hh. destruct (Hsent c rs n Hc Hn) as (Hr & a0 & t & Ea & Hlt).
    assert (Hs : is_Some (ids !! n)). { apply Hiss, (mi_account _ _ _ _ HB). auto. }
    pose proof (Retire_inv ids _ (sA s) n c a0 t HA Hh Hr Hs Ea ltac:(lia)) as HR. by destruct (Retire n c (sA s)) as [[[]|e|m] a'].
Qed.
End system.

(** * The generator of random IDs *)

(** The IDs are unique when the random bytes are. *)
Lemma cid_array_inj b b' : length b = length b' → cid_array b = cid_array b' → b = b'.
Proof. unfold cid_array. intros Hl E. by apply app_inj_1 in E as [-> _]. Qed.

#[global] Program Instance Default_Laws : GeneratorLaws DefaultConnectionIDGenerator := {
  gen_ok d := 0 < ConnLen d ≤ 20 ∧ NoDup (dg_random d) ∧ Forall (λ b, blen b = ConnLen d) (dg_random d);
  upcoming d c := ∃ b, b ∈ dg_random d ∧ c = mkConnectionID (cid_array b) (ConnLen d);
}.
Next Obligation.
  intros [l [|b r]] (Hl & Hnd & Hall); cbn in *; unfold protocol_GenerateConnectionID;
    rewrite (proj2 (Z.ltb_ge l 0)), (proj2 (Z.ltb_ge 20 l)) by lia; cbn [orb].
  { split_and!; try done; lia. }
  apply NoDup_cons in Hnd as [Hb Hnd]. apply Forall_cons in Hall as [Hlb Hall]. split_and!; [lia|lia|done|done| | |done].
  - intros d (b' & Hb' & ->). exists b'. split; [by right|done].
  - intros c [= <-]. assert (take (Z.to_nat l) (b ++ replicate (Z.to_nat l) 0) = b) as -> by (rewrite <- Hlb, to_nat_blen; apply take_app_length).
    rewrite u8_small by lia. split; [exists b; split; [by left|done]|].
    intros (b' & Hb' & [= E]%eq_sym). rewrite Forall_forall in Hall. apply Hb. apply cid_array_inj in E; [by subst|].
    specialize (Hall b' Hb'). unfold blen in *. lia.
Qed.

(** A connection that switches to a second ID. *)
Definition example_id (n : Z) : ConnectionID := mkConnectionID (cid_array [n; n; n; n]) 4.
Definition example_A : gstate DefaultConnectionIDGenerator :=
  mkG 0 (newConnIDGenerator (example_id 9) None (mkDefaultGenerator 4 [[1; 1; 1; 1]; [2; 2; 2; 2]; [3; 3; 3; 3]; [4; 4; 4; 4]]))
    (set_handlers {[ example_id 9 := HConn 0 ]} (newPacketHandlerMap None 0 [])) [].
Definition example_B : mstate := mkM 7 (newConnIDManager (example_id 9)) (newPacketHandlerMap None 0 []) [].
Definition example_A1 := (SetMaxActiveConnIDs limit example_A).2.
Definition example_B1 := (SetHandshakeComplete (Add 0 (mkNewConnectionIDFrame 1 0 (example_id 1) (replicate 16 0)) example_B).2).2.
Definition example_B2 := (Get 0 example_B1).2.

Lemma connection_ids_agree_witness : ∃ s : sys (G := DefaultConnectionIDGenerator), reachable s ∧ activeConnectionID (man (sB s)) = example_id 1 ∧
  sent s = [(example_id 1, [0])] ∧ handlers (grunner (sA s)) !! example_id 1 = Some (HConn 0).
Proof.
  assert (Hr : reachable (mkSys example_A1 example_B2 [(example_id 1, [0])])).
  { replace [(example_id 1, [0])] with ([] ++ [(example_id 1, retiredSeqs (control example_B2))]) by by vm_compute.
    apply (reach_step (mkSys example_A1 example_B1 [])); [|apply (s_send _ _ _ 0); by vm_compute].
    eapply reach_step; [|by apply s_complete].
    eapply reach_step; [|eapply (s_issued example_A1 example_B [] 0 (mkNewConnectionIDFrame 1 0 (example_id 1) (replicate 16 0))); [|by vm_compute]].
    - eapply reach_step; [|apply (s_limit example_A); by vm_compute]. eapply (reach_initial (mkDefaultGenerator 4 _) (example_id 9) None). split; try done.
      + split_and!; [done|done|apply (bool_decide_eq_true_1 _); by vm_compute|apply (bool_decide_eq_true_1 _); by vm_compute].
      + split; [|by vm_compute]. intros (b & Hb & E).
        assert (Hall : Forall (λ b, example_id 9 ≠ mkConnectionID (cid_array b) 4) [[1; 1; 1; 1]; [2; 2; 2; 2]; [3; 3; 3; 3]; [4; 4; 4; 4]])
          by (apply (bool_decide_eq_true_1 _); by vm_compute). rewrite Forall_forall in Hall. by apply (Hall b).
      + intros c (b & Hb & ->).
        assert (Hall : Forall (λ b, handlers (grunner example_A) !! mkConnectionID (cid_array b) 4 = None) [[1; 1; 1; 1]; [2; 2; 2; 2]; [3; 3; 3; 3]; [4; 4; 4; 4]])
          by (apply (bool_decide_eq_true_1 _); by vm_compute). rewrite Forall_forall in Hall. by apply (Hall b).
    - apply (list_elem_of_lookup_2 _ 0). by vm_compute. }
  destruct (connection_ids_agree _ Hr) as (H1 & _). exists (mkSys example_A1 example_B2 [(example_id 1, [0])]). split_and!; [exact Hr|by vm_compute|done|exact H1].
Defined.
End connIDsCorrect.
