(* ===== verification/Congestion.v ===== *)
(** Congestion control and pacing (internal/congestion): hybrid slow start, Cubic
    and Reno, and the token bucket that paces packets.  Times are nanoseconds
    since the zero [time.Time]; the tracer is left out. *)

From S2P Require Import Prelude.
From S2P Require Import Protocol.
From S2P Require Import Float64.
From S2P Require Import Ecn.

Module congestion.
Import protocol float64.
Import (hints) rtt.

Definition InitialPacketSizeIPv4 : Z := 1252.
Definition MaxCongestionWindowPackets : Z := 10000.
Definition MinPacingDelay : Z := rtt.Millisecond.

(** [a / b] *)
Definition int_div (a b : Z) : res Z := if b =? 0 then Panic "integer divide by zero" else Ok (Z.quot a b).

(** [t.Sub(u)] saturates. *)
Definition time_Sub (t u : Z) : Z := Z.max (- 2 ^ 63) (Z.min (2 ^ 63 - 1) (t - u)).

(** * Hybrid slow start *)

Definition hybridStartLowWindow : Z := 16.
Definition hybridStartMinSamples : Z := 8.
Definition hybridStartDelayFactorExp : Z := 3.
Definition hybridStartDelayMinThresholdUs : Z := 4000.
Definition hybridStartDelayMaxThresholdUs : Z := 16000.

Record HybridSlowStart := mkHybrid {
  endPacketNumber : Z;
  lastSentPacketNumber : Z;
  started : bool;
  currentMinRTT : Z;
  rttSampleCount : Z;
  hystartFound : bool;
}.

Definition newHybridSlowStart : HybridSlowStart := mkHybrid 0 0 false 0 0 false.

Definition StartReceiveRound (lastSent : Z) (s : HybridSlowStart) : HybridSlowStart :=
  mkHybrid lastSent (lastSentPacketNumber s) true 0 0 (hystartFound s).

Definition IsEndOfRound (ack : Z) (s : HybridSlowStart) : bool := endPacketNumber s <? ack.

Definition ShouldExitSlowStart (latestRTT minRTT congestionWindow : Z) (s : HybridSlowStart) : bool * HybridSlowStart :=
  let s := if negb (started s) then StartReceiveRound (lastSentPacketNumber s) s else s in
  if hystartFound s then (true, s) else
  let n := u32 (rttSampleCount s + 1) in
  let min := if (n <=? hybridStartMinSamples) && ((currentMinRTT s =? 0) || (latestRTT <? currentMinRTT s)) then latestRTT else currentMinRTT s in
  let found :=
    if n =? hybridStartMinSamples then
      let us := Z.shiftr (Z.quot minRTT rtt.Microsecond) hybridStartDelayFactorExp in
      let us := Z.min us hybridStartDelayMaxThresholdUs in
      let threshold := Z.max us hybridStartDelayMinThresholdUs * rtt.Microsecond in
      i64 (minRTT + threshold) <? min
    else false in
  let s := mkHybrid (endPacketNumber s) (lastSentPacketNumber s) (started s) min n found in
  ((hybridStartLowWindow <=? congestionWindow) && hystartFound s, s).

Definition hybrid_OnPacketSent (pn : Z) (s : HybridSlowStart) : HybridSlowStart :=
  mkHybrid (endPacketNumber s) pn (started s) (currentMinRTT s) (rttSampleCount s) (hystartFound s).

Definition hybrid_OnPacketAcked (pn : Z) (s : HybridSlowStart) : HybridSlowStart :=
  if IsEndOfRound pn s then mkHybrid (endPacketNumber s) (lastSentPacketNumber s) false (currentMinRTT s) (rttSampleCount s) (hystartFound s) else s.

Definition Restart (s : HybridSlowStart) : HybridSlowStart :=
  mkHybrid (endPacketNumber s) (lastSentPacketNumber s) false (currentMinRTT s) (rttSampleCount s) false.

(** * Cubic *)

Definition cubeScale : Z := 40.
Definition cubeCongestionWindowScale : Z := 410.
Definition cubicDatagramSize : Z := InitialPacketSizeIPv4.
Definition cubeFactor : Z := 2 ^ cubeScale / cubeCongestionWindowScale / cubicDatagramSize.

(** Further operations on float32. *)
Definition sub32 (f g : t) : t := round_to 24 (num f * den g - num g * den f) (den f * den g).
Definition div32 (f g : t) : t := round_to 24 (num f * den g) (den f * num g).
Definition beta : t := round_to 24 7 10.
Definition betaLastMax : t := round_to 24 85 100.

(** [math.Cbrt] of a non-negative integer [x], as the nearest float64, and its
    truncation to uint32.  The root is determined bit by bit. *)
Fixpoint cbrt_bits (n : nat) (x r : Z) : Z :=
  match n with
  | O => r
  | S n => let r' := r + 2 ^ Z.of_nat n in cbrt_bits n x (if r' ^ 3 <=? x then r' else r)
  end.
Definition cbrt_uint32 (f : t) : Z :=
  let x := Z.quot (num f) (den f) in
  let k := 53 - Z.log2 x / 3 - 1 in
  let m := cbrt_bits 54 (x * 2 ^ (3 * k)) 0 in
  let m := if (2 * m + 1) ^ 3 <=? 8 * (x * 2 ^ (3 * k)) then m + 1 else m in
  u32 (m / 2 ^ k).

Record Cubic := mkCubic {
  numConnections : Z;
  epoch : Z;
  lastMaxCongestionWindow : Z;
  ackedBytesCount : Z;
  estimatedTCPcongestionWindow : Z;
  originPointCongestionWindow : Z;
  timeToOriginPoint : Z;
  lastTargetCongestionWindow : Z;
}.

Definition Cubic_Reset (c : Cubic) : Cubic := mkCubic (numConnections c) 0 0 0 0 0 0 0.
Definition NewCubic : Cubic := mkCubic 1 0 0 0 0 0 0 0.
Definition SetNumConnections (n : Z) (c : Cubic) : Cubic :=
  mkCubic n (epoch c) (lastMaxCongestionWindow c) (ackedBytesCount c) (estimatedTCPcongestionWindow c) (originPointCongestionWindow c)
    (timeToOriginPoint c) (lastTargetCongestionWindow c).

Definition cubic_beta (c : Cubic) : t :=
  let n := of_int32 (numConnections c) in div32 (add32 (sub32 n (of_int32 1)) beta) n.
Definition cubic_betaLastMax (c : Cubic) : t :=
  let n := of_int32 (numConnections c) in div32 (add32 (sub32 n (of_int32 1)) betaLastMax) n.
Definition alpha (c : Cubic) : t :=
  let b := cubic_beta c in
  let n := of_int32 (numConnections c) in
  div32 (mul32 (mul32 (mul32 (of_int32 3) n) n) (sub32 (of_int32 1) b)) (add32 (of_int32 1) b).

Definition OnApplicationLimited (c : Cubic) : Cubic :=
  mkCubic (numConnections c) 0 (lastMaxCongestionWindow c) (ackedBytesCount c) (estimatedTCPcongestionWindow c) (originPointCongestionWindow c)
    (timeToOriginPoint c) (lastTargetCongestionWindow c).

Definition CongestionWindowAfterPacketLoss (cwnd : Z) (c : Cubic) : Z * Cubic :=
  let lastMax := if i64 (cwnd + cubicDatagramSize) <? lastMaxCongestionWindow c then to_int (mul32 (cubic_betaLastMax c) (of_int32 cwnd)) else cwnd in
  (to_int (mul32 (of_int32 cwnd) (cubic_beta c)),
   mkCubic (numConnections c) 0 lastMax (ackedBytesCount c) (estimatedTCPcongestionWindow c) (originPointCongestionWindow c)
     (timeToOriginPoint c) (lastTargetCongestionWindow c)).

(** The first ACK after a loss event starts an epoch. *)
Definition startEpoch (ackedBytes cwnd eventTime : Z) (c : Cubic) : Cubic :=
  let c := mkCubic (numConnections c) (epoch c) (lastMaxCongestionWindow c) (i64 (ackedBytesCount c + ackedBytes)) (estimatedTCPcongestionWindow c)
             (originPointCongestionWindow c) (timeToOriginPoint c) (lastTargetCongestionWindow c) in
  if negb (epoch c =? 0) then c else
  let '(time, origin) :=
    if lastMaxCongestionWindow c <=? cwnd then (0, cwnd)
    else (cbrt_uint32 (of_int (i64 (cubeFactor * (lastMaxCongestionWindow c - cwnd)))), lastMaxCongestionWindow c) in
  mkCubic (numConnections c) eventTime (lastMaxCongestionWindow c) ackedBytes cwnd origin time (lastTargetCongestionWindow c).

(** The window of the cubic function at a time. *)
Definition cubicTarget (eventTime delayMin : Z) (c : Cubic) : Z :=
  let elapsedTime := Z.quot (i64 (Z.shiftl (Z.quot (time_Sub (eventTime + delayMin) (epoch c)) rtt.Microsecond) 10)) (1000 * 1000) in
  let offset := i64 (timeToOriginPoint c - elapsedTime) in
  let offset := if offset <? 0 then i64 (- offset) else offset in
  let delta := Z.shiftr (i64 (i64 (i64 (i64 (cubeCongestionWindowScale * offset) * offset) * offset) * cubicDatagramSize)) cubeScale in
  if timeToOriginPoint c <? elapsedTime then i64 (originPointCongestionWindow c + delta) else i64 (originPointCongestionWindow c - delta).

Definition CongestionWindowAfterAck (ackedBytes cwnd delayMin eventTime : Z) (c : Cubic) : Z * Cubic :=
  let c := startEpoch ackedBytes cwnd eventTime c in
  let target := cubicTarget eventTime delayMin c in
  let target := Z.min target (i64 (cwnd + Z.quot (ackedBytesCount c) 2)) in
  let est := i64 (estimatedTCPcongestionWindow c +
    to_int (div32 (mul32 (mul32 (of_int32 (ackedBytesCount c)) (alpha c)) (of_int32 cubicDatagramSize)) (of_int32 (estimatedTCPcongestionWindow c)))) in
  (if target <? est then est else target,
   mkCubic (numConnections c) (epoch c) (lastMaxCongestionWindow c) 0 est (originPointCongestionWindow c) (timeToOriginPoint c) target).

(** * Bandwidth and pacing *)

Definition infBandwidth : Z := 2 ^ 64 - 1.
Definition BytesPerSecond : Z := 8.

(** In bits per second; the divisor is not zero. *)
Definition BandwidthFromDelta (bytes delta : Z) : Z := u64 (u64 (u64 bytes * 10 ^ 9) / u64 delta * BytesPerSecond).

Definition maxBurstSizePackets : Z := 10.

Record pacer := mkPacer { budgetAtLastSent : Z; p_maxDatagramSize : Z; lastSentTime : Z }.

(** [adjustedBandwidth], in bytes per second, from the estimate [bw]. *)
Definition adjustedBandwidth (bw : Z) : Z := u64 (bw / BytesPerSecond * 5) / 4.

Definition maxBurstSize (bw : Z) (p : pacer) : Z :=
  Z.max (Z.quot (i64 (u64 ((MinPacingDelay + rtt.TimerGranularity) * adjustedBandwidth bw))) (10 ^ 9)) (maxBurstSizePackets * p_maxDatagramSize p).

Definition newPacer (bw : Z) : pacer :=
  let p := mkPacer 0 InitialPacketSizeIPv4 0 in mkPacer (maxBurstSize bw p) (p_maxDatagramSize p) 0.

Definition Budget (bw now : Z) (p : pacer) : Z :=
  if lastSentTime p =? 0 then maxBurstSize bw p else
  let budget := i64 (budgetAtLastSent p + Z.quot (i64 (i64 (adjustedBandwidth bw) * time_Sub now (lastSentTime p))) (10 ^ 9)) in
  let budget := if budget <? 0 then MaxByteCount else budget in
  Z.min (maxBurstSize bw p) budget.

Definition pacer_SentPacket (bw sendTime size : Z) (p : pacer) : pacer :=
  let budget := Budget bw sendTime p in
  mkPacer (if budget <=? size then 0 else budget - size) (p_maxDatagramSize p) sendTime.

Definition pacer_TimeUntilSend (bw : Z) (p : pacer) : res Z :=
  if p_maxDatagramSize p <=? budgetAtLastSent p then Ok 0 else
  let diff := u64 (10 ^ 9 * u64 (p_maxDatagramSize p - budgetAtLastSent p)) in
  let bw := adjustedBandwidth bw in
  if bw =? 0 then Panic "integer divide by zero" else
  let d := diff / bw in
  let d := if 0 <? diff mod bw then u64 (d + 1) else d in
  Ok (lastSentTime p + Z.max MinPacingDelay (i64 d)).

Definition pacer_SetMaxDatagramSize (s : Z) (p : pacer) : pacer := mkPacer (budgetAtLastSent p) s (lastSentTime p).

(** * The sender *)

Definition maxBurstPackets : Z := 3.
Definition renoBeta : t := round 7 10.
Definition minCongestionWindowPackets : Z := 2.
Definition initialCongestionWindow : Z := 32.

Record cubicSender := mkSender {
  hybridSlowStart : HybridSlowStart;
  cubic : Cubic;
  cs_pacer : pacer;
  reno : bool;
  largestSentPacketNumber : Z;
  largestAckedPacketNumber : Z;
  largestSentAtLastCutback : Z;
  lastCutbackExitedSlowstart : bool;
  congestionWindow : Z;
  slowStartThreshold : Z;
  numAckedPackets : Z;
  cs_initialCongestionWindow : Z;
  initialMaxCongestionWindow : Z;
  maxDatagramSize : Z;
}.

Definition set_hybrid (x : HybridSlowStart) (c : cubicSender) : cubicSender :=
  mkSender x (cubic c) (cs_pacer c) (reno c) (largestSentPacketNumber c) (largestAckedPacketNumber c) (largestSentAtLastCutback c)
    (lastCutbackExitedSlowstart c) (congestionWindow c) (slowStartThreshold c) (numAckedPackets c) (cs_initialCongestionWindow c)
    (initialMaxCongestionWindow c) (maxDatagramSize c).
Definition set_cubic (x : Cubic) (c : cubicSender) : cubicSender :=
  mkSender (hybridSlowStart c) x (cs_pacer c) (reno c) (largestSentPacketNumber c) (largestAckedPacketNumber c) (largestSentAtLastCutback c)
    (lastCutbackExitedSlowstart c) (congestionWindow c) (slowStartThreshold c) (numAckedPackets c) (cs_initialCongestionWindow c)
    (initialMaxCongestionWindow c) (maxDatagramSize c).
Definition set_pacer (x : pacer) (c : cubicSender) : cubicSender :=
  mkSender (hybridSlowStart c) (cubic c) x (reno c) (largestSentPacketNumber c) (largestAckedPacketNumber c) (largestSentAtLastCutback c)
    (lastCutbackExitedSlowstart c) (congestionWindow c) (slowStartThreshold c) (numAckedPackets c) (cs_initialCongestionWindow c)
    (initialMaxCongestionWindow c) (maxDatagramSize c).
Definition set_largestSent (x : Z) (c : cubicSender) : cubicSender :=
  mkSender (hybridSlowStart c) (cubic c) (cs_pacer c) (reno c) x (largestAckedPacketNumber c) (largestSentAtLastCutback c)
    (lastCutbackExitedSlowstart c) (congestionWindow c) (slowStartThreshold c) (numAckedPackets c) (cs_initialCongestionWindow c)
    (initialMaxCongestionWindow c) (maxDatagramSize c).
Definition set_largestAcked (x : Z) (c : cubicSender) : cubicSender :=
  mkSender (hybridSlowStart c) (cubic c) (cs_pacer c) (reno c) (largestSentPacketNumber c) x (largestSentAtLastCutback c)
    (lastCutbackExitedSlowstart c) (congestionWindow c) (slowStartThreshold c) (numAckedPackets c) (cs_initialCongestionWindow c)
    (initialMaxCongestionWindow c) (maxDatagramSize c).
Definition set_cutback (x : Z) (c : cubicSender) : cubicSender :=
  mkSender (hybridSlowStart c) (cubic c) (cs_pacer c) (reno c) (largestSentPacketNumber c) (largestAckedPacketNumber c) x
    (lastCutbackExitedSlowstart c) (congestionWindow c) (slowStartThreshold c) (numAckedPackets c) (cs_initialCongestionWindow c)
    (initialMaxCongestionWindow c) (maxDatagramSize c).
Definition set_cwnd (x : Z) (c : cubicSender) : cubicSender :=
  mkSender (hybridSlowStart c) (cubic c) (cs_pacer c) (reno c) (largestSentPacketNumber c) (largestAckedPacketNumber c)
    (largestSentAtLastCutback c) (lastCutbackExitedSlowstart c) x (slowStartThreshold c) (numAckedPackets c) (cs_initialCongestionWindow c)
    (initialMaxCongestionWindow c) (maxDatagramSize c).
Definition set_threshold (x : Z) (c : cubicSender) : cubicSender :=
  mkSender (hybridSlowStart c) (cubic c) (cs_pacer c) (reno c) (largestSentPacketNumber c) (largestAckedPacketNumber c)
    (largestSentAtLastCutback c) (lastCutbackExitedSlowstart c) (congestionWindow c) x (numAckedPackets c) (cs_initialCongestionWindow c)
    (initialMaxCongestionWindow c) (maxDatagramSize c).
Definition set_numAcked (x : Z) (c : cubicSender) : cubicSender :=
  mkSender (hybridSlowStart c) (cubic c) (cs_pacer c) (reno c) (largestSentPacketNumber c) (largestAckedPacketNumber c)
    (largestSentAtLastCutback c) (lastCutbackExitedSlowstart c) (congestionWindow c) (slowStartThreshold c) x (cs_initialCongestionWindow c)
    (initialMaxCongestionWindow c) (maxDatagramSize c).
Definition set_datagramSize (x : Z) (c : cubicSender) : cubicSender :=
  mkSender (hybridSlowStart c) (cubic c) (cs_pacer c) (reno c) (largestSentPacketNumber c) (largestAckedPacketNumber c)
    (largestSentAtLastCutback c) (lastCutbackExitedSlowstart c) (congestionWindow c) (slowStartThreshold c) (numAckedPackets c)
    (cs_initialCongestionWindow c) (initialMaxCongestionWindow c) x.

Definition NewCubicSender (r : rtt.RTTStats) (reno : bool) (initialMaxDatagramSize : Z) : cubicSender :=
  let bw := if rtt.smoothedRTT r =? 0 then infBandwidth else BandwidthFromDelta (initialCongestionWindow * initialMaxDatagramSize) (rtt.smoothedRTT r) in
  mkSender newHybridSlowStart NewCubic (newPacer bw) reno InvalidPacketNumber InvalidPacketNumber InvalidPacketNumber false
    (initialCongestionWindow * initialMaxDatagramSize) MaxByteCount 0
    (initialCongestionWindow * initialMaxDatagramSize) (MaxCongestionWindowPackets * initialMaxDatagramSize) initialMaxDatagramSize.

Definition BandwidthEstimate (r : rtt.RTTStats) (c : cubicSender) : Z :=
  if rtt.smoothedRTT r =? 0 then infBandwidth else BandwidthFromDelta (congestionWindow c) (rtt.smoothedRTT r).

Definition TimeUntilSend (r : rtt.RTTStats) (c : cubicSender) : res Z := pacer_TimeUntilSend (BandwidthEstimate r c) (cs_pacer c).
Definition HasPacingBudget (r : rtt.RTTStats) (now : Z) (c : cubicSender) : bool := maxDatagramSize c <=? Budget (BandwidthEstimate r c) now (cs_pacer c).

Definition maxCongestionWindow (c : cubicSender) : Z := maxDatagramSize c * MaxCongestionWindowPackets.
Definition minCongestionWindow (c : cubicSender) : Z := maxDatagramSize c * minCongestionWindowPackets.

Definition OnPacketSent (r : rtt.RTTStats) (sentTime packetNumber bytes : Z) (isRetransmittable : bool) (c : cubicSender) : cubicSender :=
  let c := set_pacer (pacer_SentPacket (BandwidthEstimate r c) sentTime bytes (cs_pacer c)) c in
  if negb isRetransmittable then c else
  let c := set_largestSent packetNumber c in
  set_hybrid (hybrid_OnPacketSent packetNumber (hybridSlowStart c)) c.

Definition CanSend (bytesInFlight : Z) (c : cubicSender) : bool := bytesInFlight <? congestionWindow c.
Definition InRecovery (c : cubicSender) : bool :=
  negb (largestAckedPacketNumber c =? InvalidPacketNumber) && (largestAckedPacketNumber c <=? largestSentAtLastCutback c).
Definition InSlowStart (c : cubicSender) : bool := congestionWindow c <? slowStartThreshold c.

Definition MaybeExitSlowStart (r : rtt.RTTStats) : st cubicSender () :=
  c ← st_get;
  if negb (InSlowStart c) then mret tt else
  packets ← st_lift (int_div (congestionWindow c) (maxDatagramSize c));
  let '(exit, h) := ShouldExitSlowStart (rtt.latestRTT r) (rtt.minRTT r) packets (hybridSlowStart c) in
  _ ← st_modify (set_hybrid h);
  if exit then st_modify (λ c, set_threshold (congestionWindow c) c) else mret tt.

Definition isCwndLimited (bytesInFlight : Z) (c : cubicSender) : bool :=
  if congestionWindow c <=? bytesInFlight then true else
  let availableBytes := congestionWindow c - bytesInFlight in
  let slowStartLimited := InSlowStart c && (Z.quot (congestionWindow c) 2 <? bytesInFlight) in
  slowStartLimited || (availableBytes <=? maxBurstPackets * maxDatagramSize c).

Definition maybeIncreaseCwnd (r : rtt.RTTStats) (ackedBytes priorInFlight eventTime : Z) : st cubicSender () :=
  c ← st_get;
  if negb (isCwndLimited priorInFlight c) then st_modify (λ c, set_cubic (OnApplicationLimited (cubic c)) c) else
  if maxCongestionWindow c <=? congestionWindow c then mret tt else
  if InSlowStart c then st_modify (set_cwnd (i64 (congestionWindow c + maxDatagramSize c))) else
  if reno c then
    let n := u64 (numAckedPackets c + 1) in
    _ ← st_modify (set_numAcked n);
    packets ← st_lift (int_div (congestionWindow c) (maxDatagramSize c));
    if u64 packets <=? n then st_modify (λ c, set_numAcked 0 (set_cwnd (i64 (congestionWindow c + maxDatagramSize c)) c)) else mret tt
  else
    let '(w, cub) := CongestionWindowAfterAck ackedBytes (congestionWindow c) (rtt.minRTT r) eventTime (cubic c) in
    st_modify (λ c, set_cwnd (Z.min (maxCongestionWindow c) w) (set_cubic cub c)).

Definition OnPacketAcked (r : rtt.RTTStats) (ackedPacketNumber ackedBytes priorInFlight eventTime : Z) : st cubicSender () :=
  _ ← st_modify (λ c, set_largestAcked (Z.max ackedPacketNumber (largestAckedPacketNumber c)) c);
  c ← st_get;
  if InRecovery c then mret tt else
  _ ← maybeIncreaseCwnd r ackedBytes priorInFlight eventTime;
  c ← st_get;
  if InSlowStart c then st_modify (λ c, set_hybrid (hybrid_OnPacketAcked ackedPacketNumber (hybridSlowStart c)) c) else mret tt.

Definition OnCongestionEvent (packetNumber : Z) (c : cubicSender) : cubicSender :=
  if packetNumber <=? largestSentAtLastCutback c then c else
  let c := mkSender (hybridSlowStart c) (cubic c) (cs_pacer c) (reno c) (largestSentPacketNumber c) (largestAckedPacketNumber c)
             (largestSentAtLastCutback c) (InSlowStart c) (congestionWindow c) (slowStartThreshold c) (numAckedPackets c)
             (cs_initialCongestionWindow c) (initialMaxCongestionWindow c) (maxDatagramSize c) in
  let c :=
    if reno c then set_cwnd (to_int (mul (of_int (congestionWindow c)) renoBeta)) c
    else let '(w, cub) := CongestionWindowAfterPacketLoss (congestionWindow c) (cubic c) in set_cwnd w (set_cubic cub c) in
  let c := if congestionWindow c <? minCongestionWindow c then set_cwnd (minCongestionWindow c) c else c in
  set_numAcked 0 (set_cutback (largestSentPacketNumber c) (set_threshold (congestionWindow c) c)).

Definition OnRetransmissionTimeout (packetsRetransmitted : bool) (c : cubicSender) : cubicSender :=
  let c := set_cutback InvalidPacketNumber c in
  if negb packetsRetransmitted then c else
  let c := set_cubic (Cubic_Reset (cubic c)) (set_hybrid (Restart (hybridSlowStart c)) c) in
  let c := set_threshold (Z.quot (congestionWindow c) 2) c in
  set_cwnd (minCongestionWindow c) c.

Definition OnConnectionMigration (c : cubicSender) : cubicSender :=
  mkSender (Restart (hybridSlowStart c)) (Cubic_Reset (cubic c)) (cs_pacer c) (reno c) InvalidPacketNumber InvalidPacketNumber InvalidPacketNumber false
    (cs_initialCongestionWindow c) (initialMaxCongestionWindow c) 0 (cs_initialCongestionWindow c) (initialMaxCongestionWindow c) (maxDatagramSize c).

Definition SetMaxDatagramSize (s : Z) : st cubicSender () :=
  c ← st_get;
  if s <? maxDatagramSize c then st_panic "congestion BUG: decreased max datagram size" else
  let cwndIsMinCwnd := congestionWindow c =? minCongestionWindow c in
  _ ← st_modify (set_datagramSize s);
  _ ← (if cwndIsMinCwnd then st_modify (λ c, set_cwnd (minCongestionWindow c) c) else mret tt);
  st_modify (λ c, set_pacer (pacer_SetMaxDatagramSize s (cs_pacer c)) c).

(** * Rounding *)

Lemma exponent_low prec n d : 1 ≤ prec → 0 < n → 0 < d →
  let e := exponent prec n d in 2 ^ (prec - 1) * (d * 2 ^ Z.max 0 e) ≤ n * 2 ^ Z.max 0 (- e).
Proof.
  intros Hp Hn Hd. unfold exponent. pose proof (Z.log2_spec n Hn) as [Hn1 _]. pose proof (Z.log2_spec d Hd) as [_ Hd2].
  pose proof (Z.log2_nonneg n). pose proof (Z.log2_nonneg d). set (a := Z.log2 n) in *. set (b := Z.log2 d) in *. rewrite Z.pow_succ_r in Hd2 by lia.
  set (e := a - b - prec). cbv zeta. destruct (Z.leb_spec (2 ^ prec * (d * 2 ^ Z.max 0 e)) (n * 2 ^ Z.max 0 (- e))) as [Hc|Hc].
  - replace prec with (Z.succ (prec - 1)) in Hc at 1 by lia. rewrite Z.pow_succ_r in Hc by lia. set (P := 2 ^ (prec - 1)) in *. destruct (decide (0 ≤ e)).
    + rewrite (Z.max_r 0 (e + 1)), (Z.max_l 0 (- (e + 1))) by lia. rewrite (Z.max_r 0 e), (Z.max_l 0 (- e)) in Hc by lia.
      rewrite Z.pow_add_r, Z.pow_1_r by lia. nia.
    + rewrite (Z.max_l 0 (e + 1)), (Z.max_r 0 (- (e + 1))) by lia. rewrite (Z.max_l 0 e), (Z.max_r 0 (- e)) in Hc by lia.
      replace (- e) with (1 + - (e + 1)) in Hc by lia. rewrite Z.pow_add_r, Z.pow_1_r in Hc by lia. nia.
  - assert (Heq : 2 ^ (prec - 1) * (2 * 2 ^ b) * 2 ^ Z.max 0 e = 2 ^ a * 2 ^ Z.max 0 (- e)).
    { rewrite <- Z.pow_succ_r by lia. rewrite <- !Z.pow_add_r by lia. f_equal. lia. }
    pose proof (pow2_pos e). pose proof (pow2_pos (- e)). assert (0 < 2 ^ (prec - 1)) by (apply Z.pow_pos_nonneg; lia).
    transitivity (2 ^ a * 2 ^ Z.max 0 (- e)); [rewrite <- Heq, <- Z.mul_assoc; apply Z.mul_le_mono_nonneg_l; [lia|]; apply Z.mul_le_mono_nonneg_r; lia|].
    apply Z.mul_le_mono_nonneg_r; lia.
Qed.

Lemma round_to_error prec n d : 1 ≤ prec → 0 ≤ n → 0 < d →
  0 ≤ num (round_to prec n d) ∧ 2 ^ prec * Z.abs (num (round_to prec n d) * d - n * den (round_to prec n d)) ≤ n * den (round_to prec n d).
Proof.
  intros Hp Hn Hd. unfold round_to. destruct (Z.eqb_spec n 0) as [->|Hn0]; [split; [by vm_compute|]; change (num (mkF 0 0)) with 0; rewrite !Z.mul_0_l; cbn [Z.sub Z.add Z.opp Z.abs]; lia|]. rewrite (Z.abs_eq n), (Z.sgn_pos n) by lia.
  pose proof (exponent_low prec n d Hp ltac:(lia) Hd) as Hlow. cbv zeta in Hlow. unfold num, den. cbn [mant exp]. set (e := exponent prec n d) in *.
  pose proof (pow2_pos e). pose proof (pow2_pos (- e)). set (p := 2 ^ Z.max 0 e) in *. set (p' := 2 ^ Z.max 0 (- e)) in *.
  replace (2 ^ prec) with (2 * 2 ^ (prec - 1)) by (rewrite <- Z.pow_succ_r by lia; f_equal; lia).
  assert (1 ≤ 2 ^ (prec - 1)) by (pose proof (Z.pow_pos_nonneg 2 (prec - 1)); lia). set (P := 2 ^ (prec - 1)) in *.
  pose proof (rne_spec (n * p') (d * p) ltac:(nia)) as Hr. set (q := rne _ _) in *. rewrite Z.mul_1_l. split; [nia|].
  replace (q * p * d - n * p') with (q * (d * p) - n * p') by ring. set (A := Z.abs _) in *. nia.
Qed.

(** Multiplication by at most 0.71, rounded twice, takes away a quarter. *)
Lemma shrink prec c w : 8 ≤ prec → 0 ≤ num c → 100 * num c ≤ 71 * den c → 0 ≤ w < 2 ^ 62 →
  let f := round_to prec w 1 in let x := to_int (round_to prec (num f * num c) (den f * den c)) in 0 ≤ x ∧ 4 * x ≤ 3 * w.
Proof.
  intros Hp Hc0 Hc Hw f. pose proof (den_pos c). pose proof (den_pos f).
  destruct (round_to_error prec w 1 ltac:(lia) ltac:(lia) ltac:(lia)) as [Hf0 Hf]. fold f in Hf0, Hf. rewrite Z.mul_1_r in Hf.
  destruct (round_to_error prec (num f * num c) (den f * den c) ltac:(lia) ltac:(nia) ltac:(nia)) as [Hg0 Hg].
  set (g := round_to prec (num f * num c) (den f * den c)) in *. pose proof (den_pos g).
  assert (HP : 256 ≤ 2 ^ prec) by (change 256 with (2 ^ 8); apply Z.pow_le_mono_r; lia). set (P := 2 ^ prec) in *.
  assert (256 * num f ≤ 257 * (w * den f)) by nia.
  assert (256 * (num g * (den f * den c)) ≤ 257 * (num f * num c * den g)) by nia.
  assert (4 * num g ≤ 3 * (w * den g)).
  { apply (Z.mul_le_mono_pos_r _ _ (den f * den c)); [nia|]. set (Y := num f * num c * den g) in *.
    set (V := w * den f * num c * den g). set (U := w * den g * (den f * den c)). rewrite <- !Z.mul_assoc. set (X := num g * (den f * den c)) in *.
    assert (256 * Y ≤ 257 * V).
    { replace (256 * Y) with (256 * num f * (num c * den g)) by (unfold Y; ring). replace (257 * V) with (257 * (w * den f) * (num c * den g)) by (unfold V; ring).
      apply Z.mul_le_mono_nonneg_r; [apply Z.mul_nonneg_nonneg; lia|done]. }
    assert (100 * V ≤ 71 * U).
    { replace (100 * V) with (100 * num c * (w * den f * den g)) by (unfold V; ring). replace (71 * U) with (71 * den c * (w * den f * den g)) by (unfold U; ring).
      apply Z.mul_le_mono_nonneg_r; [repeat apply Z.mul_nonneg_nonneg; lia|done]. }
    assert (0 ≤ U) by (unfold U; repeat apply Z.mul_nonneg_nonneg; lia). replace (w * (den g * (den f * den c))) with U by (unfold U; ring). lia. }
  assert (num g < 2 ^ 63 * den g) by nia. cbv zeta. rewrite to_int_div by done. split; [apply Z.div_pos; lia|].
  pose proof (Z.mul_div_le (num g) (den g) ltac:(lia)). nia.
Qed.

(** [upto f n d]: [f] is at most [n / d]. *)
Definition upto (f : t) (n d : Z) : Prop := 0 ≤ num f ∧ num f * d ≤ n * den f.

Lemma upto_round n d : 0 ≤ n → 0 < d → upto (round_to 24 n d) (2 * n) d.
Proof. intros Hn Hd. destruct (round_to_error 24 n d ltac:(lia) Hn Hd) as [H1 H2]. split; [done|]. lia. Qed.

Lemma upto_mul f g a b a' b' : 0 < b → 0 < b' → upto f a b → upto g a' b' → upto (mul32 f g) (2 * (a * a')) (b * b').
Proof.
  intros Hb Hb' [Hf Hf'] [Hg Hg']. pose proof (den_pos f). pose proof (den_pos g). unfold mul32.
  destruct (round_to_error 24 (num f * num g) (den f * den g) ltac:(lia) ltac:(nia) ltac:(nia)) as [He1 He2]. set (h := round_to _ _ _) in *. pose proof (den_pos h).
  split; [done|]. apply (Z.mul_le_mono_pos_r _ _ (den f * den g)); [nia|].
  assert (num h * (den f * den g) ≤ 2 * (num f * num g * den h)) by lia.
  assert ((num f * b) * (num g * b') ≤ (a * den f) * (a' * den g)) by (apply Z.mul_le_mono_nonneg; nia).
  replace (num h * (b * b') * (den f * den g)) with (num h * (den f * den g) * (b * b')) by ring.
  replace (2 * (a * a') * den h * (den f * den g)) with (2 * ((a * den f) * (a' * den g)) * den h) by ring.
  transitivity (2 * (num f * num g * den h) * (b * b')); [apply Z.mul_le_mono_nonneg_r; [nia|done]|].
  transitivity (2 * ((num f * b) * (num g * b')) * den h); [lia|]. apply Z.mul_le_mono_nonneg_r; lia.
Qed.

Lemma upto_div f g a b a' b' : 0 < b → 0 < b' → 0 < a' → upto f a b → a' * den g ≤ num g * b' → upto (div32 f g) (2 * (a * b')) (b * a').
Proof.
  intros Hb Hb' Ha' [Hf Hf'] Hg. pose proof (den_pos f). pose proof (den_pos g). assert (0 < num g) by nia. unfold div32.
  destruct (round_to_error 24 (num f * den g) (den f * num g) ltac:(lia) ltac:(nia) ltac:(nia)) as [He1 He2]. set (h := round_to _ _ _) in *. pose proof (den_pos h).
  split; [done|]. apply (Z.mul_le_mono_pos_r _ _ (den f * num g)); [nia|].
  assert (num h * (den f * num g) ≤ 2 * (num f * den g * den h)) by lia.
  assert ((num f * b) * (a' * den g) ≤ (a * den f) * (num g * b')) by (apply Z.mul_le_mono_nonneg; nia).
  replace (num h * (b * a') * (den f * num g)) with (num h * (den f * num g) * (b * a')) by ring.
  replace (2 * (a * b') * den h * (den f * num g)) with (2 * ((a * den f) * (num g * b')) * den h) by ring.
  transitivity (2 * (num f * den g * den h) * (b * a')); [apply Z.mul_le_mono_nonneg_r; [nia|done]|].
  transitivity (2 * ((num f * b) * (a' * den g)) * den h); [lia|]. apply Z.mul_le_mono_nonneg_r; lia.
Qed.

Lemma to_int_upto f n d : 0 < d → n < 2 ^ 63 * d → upto f n d → 0 ≤ to_int f ≤ n / d.
Proof.
  intros Hd Hn [Hf Hf']. pose proof (den_pos f). assert (num f < 2 ^ 63 * den f) by nia. rewrite to_int_div by done. split; [apply Z.div_pos; lia|].
  apply Z.div_le_lower_bound; [done|]. pose proof (Z.mul_div_le (num f) (den f) ltac:(lia)). nia.
Qed.

(** * The congestion window *)

(** What the sent packet handler (and tests) call; [r] are the RTT measurements. *)
Inductive cop :=
| COnPacketSent (r : rtt.RTTStats) (sentTime packetNumber bytes : Z) (isRetransmittable : bool)
| COnPacketAcked (r : rtt.RTTStats) (packetNumber ackedBytes priorInFlight eventTime : Z)
| CMaybeExitSlowStart (r : rtt.RTTStats)
| COnCongestionEvent (packetNumber : Z)
| COnRetransmissionTimeout (packetsRetransmitted : bool)
| COnConnectionMigration
| CSetMaxDatagramSize (s : Z).

Definition cexec (op : cop) : st cubicSender () :=
  match op with
  | COnPacketSent r t pn n b => st_modify (OnPacketSent r t pn n b)
  | COnPacketAcked r pn n p t => OnPacketAcked r pn n p t
  | CMaybeExitSlowStart r => MaybeExitSlowStart r
  | COnCongestionEvent pn => st_modify (OnCongestionEvent pn)
  | COnRetransmissionTimeout b => st_modify (OnRetransmissionTimeout b)
  | COnConnectionMigration => st_modify OnConnectionMigration
  | CSetMaxDatagramSize s => SetMaxDatagramSize s
  end.

(** UDP packets have less than 64 kB; packets only become larger. *)
Definition callowed (op : cop) (c : cubicSender) : Prop :=
  match op with
  | COnPacketAcked _ _ n _ _ => 0 ≤ n < 2 ^ 16
  | CSetMaxDatagramSize s => maxDatagramSize c ≤ s < 2 ^ 16
  | _ => True
  end.

(** [m0] is the smallest packet size used; [n] counts the calls. *)
Record cinv (m0 : Z) (n : nat) (c : cubicSender) : Prop := {
  ci_size : m0 ≤ maxDatagramSize c < 2 ^ 16;
  ci_low : 2 * m0 ≤ congestionWindow c;
  ci_high : congestionWindow c < maxCongestionWindow c + maxDatagramSize c;
  ci_est : epoch (cubic c) ≠ 0 → 2 * m0 ≤ estimatedTCPcongestionWindow (cubic c) ≤ 2 ^ 40 + Z.of_nat n * 2 ^ 20;
  ci_count : ackedBytesCount (cubic c) = 0;
  ci_connections : numConnections (cubic c) = 1;
  ci_initial : 2 * m0 ≤ cs_initialCongestionWindow c < maxCongestionWindow c;
}.

Section window.
Context (m0 : Z) (Hm0 : 1200 ≤ m0).

Lemma cinv_mono n n' c : (n ≤ n')%nat → cinv m0 n c → cinv m0 n' c.
Proof. intros Hn []. split; try done. intros He. specialize (ci_est0 He). lia. Qed.

(** The estimate of Cubic grows by at most ten times the acknowledged bytes. *)
Lemma alpha_upto c : numConnections c = 1 → upto (alpha c) 9 16.
Proof. intros E. unfold alpha, cubic_beta. rewrite E. by vm_compute. Qed.

Lemma estimate_step c a : numConnections c = 1 → 0 ≤ a < 2 ^ 16 → 2400 ≤ estimatedTCPcongestionWindow c < 2 ^ 62 →
  0 ≤ to_int (div32 (mul32 (mul32 (of_int32 a) (alpha c)) (of_int32 cubicDatagramSize)) (of_int32 (estimatedTCPcongestionWindow c))) < 2 ^ 20.
Proof.
  intros Hn Ha He. set (e := estimatedTCPcongestionWindow c) in *.
  assert (H1 : upto (of_int32 a) (2 * a) 1) by (apply upto_round; lia).
  assert (H2 : upto (of_int32 cubicDatagramSize) 1252 1) by (split; by vm_compute).
  pose proof (upto_mul _ _ (2 * a) 1 9 16 ltac:(lia) ltac:(lia) H1 (alpha_upto c Hn)) as H3.
  pose proof (upto_mul _ _ _ (1 * 16) 1252 1 ltac:(lia) ltac:(lia) H3 H2) as H4.
  assert (H5 : e * den (of_int32 e) ≤ num (of_int32 e) * 2).
  { destruct (round_to_error 24 e 1 ltac:(lia) ltac:(lia) ltac:(lia)) as [_ H5]. fold (of_int32 e) in H5. lia. }
  pose proof (upto_div _ _ _ (1 * 16 * 1) e 2 ltac:(lia) ltac:(lia) ltac:(lia) H4 H5) as H6.
  apply to_int_upto in H6; [|nia|nia]. split; [lia|]. eapply Z.le_lt_trans; [apply H6|]. apply Z.div_lt_upper_bound; [nia|]. nia.
Qed.

(** The window of Cubic after an ACK lies between the estimate and half of the
    acknowledged bytes above the current window. *)
Lemma AfterAck_bounds n c a w d t : cinv m0 n c → Z.of_nat n < 2 ^ 40 → 0 ≤ a < 2 ^ 16 → w = congestionWindow c →
  let '(w', cub) := CongestionWindowAfterAck a w d t (cubic c) in
  2 * m0 ≤ w' ∧ 2 * m0 ≤ estimatedTCPcongestionWindow cub ≤ 2 ^ 40 + (Z.of_nat n + 1) * 2 ^ 20 ∧ ackedBytesCount cub = 0 ∧ numConnections cub = 1.
Proof.
  intros [] Hn Ha Hw. unfold CongestionWindowAfterAck. set (c' := startEpoch a w t (cubic c)).
  assert (Hc : numConnections c' = 1 ∧ ackedBytesCount c' = a ∧ 2 * m0 ≤ estimatedTCPcongestionWindow c' ≤ 2 ^ 40 + Z.of_nat n * 2 ^ 20).
  { unfold c', startEpoch. cbn [epoch]. rewrite ci_count0, Z.add_0_l, i64_small by lia. destruct (Z.eqb_spec (epoch (cubic c)) 0) as [E|E]; cbn [negb].
    - unfold maxCongestionWindow, MaxCongestionWindowPackets in *. destruct (_ <=? _); cbn; lia.
    - specialize (ci_est0 E). cbn. lia. }
  destruct Hc as (H1 & H2 & H3). rewrite H2. pose proof (estimate_step c' a H1 Ha ltac:(lia)) as He.
  rewrite (i64_small (estimatedTCPcongestionWindow c' + _)) by lia. set (est := estimatedTCPcongestionWindow c' + _) in *. cbn.
  destruct (Z.ltb_spec (cubicTarget t d c' `min` i64 (w + Z.quot a 2)) est); lia.
Qed.

(** Changes that do not concern the windows. *)
Lemma cinv_other n c c' : cinv m0 n c → cubic c' = cubic c → congestionWindow c' = congestionWindow c → maxDatagramSize c' = maxDatagramSize c →
  cs_initialCongestionWindow c' = cs_initialCongestionWindow c → cinv m0 n c'.
Proof. intros [] E1 E2 E3 E4. split; unfold maxCongestionWindow in *; rewrite ?E1, ?E2, ?E3, ?E4; done. Qed.

Lemma increase_inv n c r a p t : cinv m0 n c → Z.of_nat n < 2 ^ 40 → 0 ≤ a < 2 ^ 16 →
  ∃ c', maybeIncreaseCwnd r a p t c = (Ok tt, c') ∧ cinv m0 (S n) c'.
Proof.
  intros Hi Hn Ha. pose proof (cinv_mono n (S n) c ltac:(lia) Hi) as Hi'. unfold maybeIncreaseCwnd, mbind, st_bind, st_get, st_modify, st_lift.
  destruct (isCwndLimited p c); cbn [negb].
  2:{ eexists. split; [done|]. destruct Hi'. by split. }
  destruct (Z.leb_spec (maxCongestionWindow c) (congestionWindow c)) as [|Hmax]; [by exists c|].
  assert (Hgrow : ∀ c', cinv m0 n c' → maxDatagramSize c' = maxDatagramSize c → congestionWindow c' = congestionWindow c →
    cinv m0 (S n) (set_cwnd (i64 (congestionWindow c + maxDatagramSize c)) c')).
  { intros c' Hc' E1 E2. apply (cinv_mono n (S n)) in Hc'; [|lia]. destruct Hi, Hc'.
    rewrite i64_small by (unfold maxCongestionWindow, MaxCongestionWindowPackets in *; lia). unfold maxCongestionWindow in *. split; cbn; unfold maxCongestionWindow; cbn; lia || done. }
  destruct (InSlowStart c); [eexists; split; [done|]; by apply Hgrow|].
  destruct (reno c).
  - unfold int_div. rewrite (proj2 (Z.eqb_neq _ _)) by (destruct Hi; lia). cbn. destruct (_ <=? _); eexists; (split; [done|]).
    + eapply cinv_other; [apply (Hgrow c); done|done..].
    + by eapply cinv_other.
  - pose proof (AfterAck_bounds n c a (congestionWindow c) (rtt.minRTT r) t Hi Hn Ha eq_refl) as Hw.
    destruct (CongestionWindowAfterAck _ _ _ _ _) as [w cub]. destruct Hw as (H1 & H2 & H3 & H4). eexists. split; [done|].
    destruct Hi'. split; cbn; unfold maxCongestionWindow, MaxCongestionWindowPackets in *; cbn; try done; lia.
Qed.

(** The end of a cutback: the window is at least the minimum. *)
Lemma settle_inv n c x y : m0 ≤ maxDatagramSize c < 2 ^ 16 → 0 ≤ congestionWindow c < maxCongestionWindow c + maxDatagramSize c →
  (epoch (cubic c) ≠ 0 → 2 * m0 ≤ estimatedTCPcongestionWindow (cubic c) ≤ 2 ^ 40 + Z.of_nat n * 2 ^ 20) → ackedBytesCount (cubic c) = 0 →
  numConnections (cubic c) = 1 → 2 * m0 ≤ cs_initialCongestionWindow c < maxCongestionWindow c →
  let c' := if congestionWindow c <? minCongestionWindow c then set_cwnd (minCongestionWindow c) c else c in
  cinv m0 n (set_numAcked 0 (set_cutback x (set_threshold y c'))).
Proof.
  intros H1 H2 H3 H4 H5 H6 c'. apply (cinv_other n c'); [|done..].
  unfold c', maxCongestionWindow, minCongestionWindow, minCongestionWindowPackets, MaxCongestionWindowPackets in *.
  destruct (Z.ltb_spec (congestionWindow c) (maxDatagramSize c * 2)); split; cbn; unfold maxCongestionWindow, MaxCongestionWindowPackets; cbn; try done; lia.
Qed.

(** The window after a loss, before the minimum is applied. *)
Definition reduced (c : cubicSender) : Z :=
  if reno c then to_int (mul (of_int (congestionWindow c)) renoBeta) else to_int (mul32 (of_int32 (congestionWindow c)) (cubic_beta (cubic c))).

Lemma reduced_bounds n c : cinv m0 n c → 0 ≤ reduced c ∧ 4 * reduced c ≤ 3 * congestionWindow c.
Proof.
  intros Hi. assert (Hw : 0 ≤ congestionWindow c < 2 ^ 62) by (destruct Hi; unfold maxCongestionWindow, MaxCongestionWindowPackets in *; lia).
  unfold reduced. destruct (reno c).
  - apply (shrink 53 renoBeta (congestionWindow c)); [lia|by vm_compute|by vm_compute|done].
  - replace (cubic_beta (cubic c)) with (cubic_beta NewCubic) by (unfold cubic_beta; by rewrite (ci_connections _ _ _ Hi)).
    apply (shrink 24 (cubic_beta NewCubic) (congestionWindow c)); [lia|by vm_compute|by vm_compute|done].
Qed.

(** A cutback, or nothing for a packet sent before the last one. *)
Lemma cutback_inv n c pn : cinv m0 n c →
  let c' := OnCongestionEvent pn c in
  cinv m0 n c' ∧ (largestSentAtLastCutback c < pn → congestionWindow c' = Z.max (reduced c) (minCongestionWindow c) ∧ InSlowStart c' = false ∧
    largestSentAtLastCutback c' = largestSentPacketNumber c).
Proof.
  intros Hi. pose proof (reduced_bounds n c Hi) as Hr. unfold OnCongestionEvent. destruct (Z.leb_spec pn (largestSentAtLastCutback c)); [split; [done|lia]|].
  cbn [reno congestionWindow cubic]. unfold reduced in *. destruct Hi.
  set (b := if reno c then _ else _). assert (Hb : congestionWindow b = (if reno c then to_int (mul (of_int (congestionWindow c)) renoBeta)
      else to_int (mul32 (of_int32 (congestionWindow c)) (cubic_beta (cubic c)))) ∧ maxDatagramSize b = maxDatagramSize c ∧
    cs_initialCongestionWindow b = cs_initialCongestionWindow c ∧ largestSentPacketNumber b = largestSentPacketNumber c ∧
    (epoch (cubic b) ≠ 0 → epoch (cubic c) ≠ 0) ∧ estimatedTCPcongestionWindow (cubic b) = estimatedTCPcongestionWindow (cubic c) ∧
    ackedBytesCount (cubic b) = ackedBytesCount (cubic c) ∧ numConnections (cubic b) = numConnections (cubic c)).
  { unfold b, CongestionWindowAfterPacketLoss. by destruct (reno c). }
  destruct Hb as (E1 & E2 & E3 & E4 & E5 & E6 & E7 & E8). rewrite <- E1 in *. clearbody b. unfold maxCongestionWindow in *. split.
  - apply settle_inv; unfold maxCongestionWindow; rewrite ?E2, ?E3, ?E6, ?E7, ?E8; try done; [lia|auto].
  - intros _. unfold InSlowStart, minCongestionWindow. rewrite E2. destruct (Z.ltb_spec (congestionWindow b) (maxDatagramSize c * minCongestionWindowPackets)); cbn; rewrite E4;
      (split_and!; [lia|apply Z.ltb_irrefl|done]).
Qed.

Lemma cexec_inv n op c : cinv m0 n c → Z.of_nat n < 2 ^ 40 → callowed op c → ∃ c', cexec op c = (Ok tt, c') ∧ cinv m0 (S n) c'.
Proof.
  intros Hi Hn Ha. pose proof (cinv_mono n (S n) c ltac:(lia) Hi) as Hi'. destruct op as [r t pn k b|r pn k p t|r|pn|b| |z]; cbn [cexec callowed] in *.
  - eexists. split; [done|]. unfold OnPacketSent. by destruct b; eapply cinv_other.
  - unfold OnPacketAcked. unfold mbind at 1, st_bind at 1, st_modify at 1. set (c1 := set_largestAcked _ c). assert (Hc1 : cinv m0 n c1) by by eapply cinv_other.
    unfold mbind at 1, st_bind at 1, st_get at 1. destruct (InRecovery c1); [exists c1; split; [done|by eapply cinv_mono; [|exact Hc1]; lia]|].
    destruct (increase_inv n c1 r k p t Hc1 Hn Ha) as (c2 & E & Hc2). rewrite (st_bind_ok _ _ _ _ _ E). unfold mbind, st_bind, st_get.
    destruct (InSlowStart c2); [|by exists c2]. eexists. split; [done|]. by eapply cinv_other.
  - unfold MaybeExitSlowStart, mbind, st_bind, st_get, st_lift, st_modify, int_div. destruct (InSlowStart c); cbn [negb]; [|by exists c].
    rewrite (proj2 (Z.eqb_neq _ _)) by (destruct Hi; lia). destruct (ShouldExitSlowStart _ _ _ _) as [[] h]; eexists; (split; [done|]); by eapply cinv_other.
  - eexists. split; [done|]. by apply (cutback_inv (S n)).
  - eexists. split; [done|]. unfold OnRetransmissionTimeout. destruct b; cbn [negb]; [|by eapply cinv_other].
    destruct Hi'. split; cbn; unfold maxCongestionWindow, minCongestionWindow, minCongestionWindowPackets, MaxCongestionWindowPackets in *; cbn; try done; lia.
  - eexists. split; [done|]. unfold OnConnectionMigration. destruct Hi'. unfold maxCongestionWindow in *.
    split; cbn; unfold maxCongestionWindow, Cubic_Reset; cbn; try done; lia.
  - unfold SetMaxDatagramSize. unfold mbind at 1, st_bind at 1, st_get. rewrite (proj2 (Z.ltb_ge _ _)) by lia.
    unfold mbind, st_bind, st_modify. cbn. destruct (_ =? _); cbn; eexists; (split; [done|]); destruct Hi';
      split; cbn; unfold maxCongestionWindow, minCongestionWindow, minCongestionWindowPackets, MaxCongestionWindowPackets in *; cbn; try done; lia.
Qed.
End window.

(** A sender after [n] calls. *)
Inductive creach (m0 : Z) : nat → cubicSender → Prop :=
| cr_initial r reno : creach m0 0 (NewCubicSender r reno m0)
| cr_step n c op c' : creach m0 n c → callowed op c → cexec op c = (Ok tt, c') → creach m0 (S n) c'.

Lemma creach_inv m0 n c : 1200 ≤ m0 < 2 ^ 16 → Z.of_nat n ≤ 2 ^ 40 → creach m0 n c → cinv m0 n c.
Proof.
  intros Hm Hn. induction 1 as [r b|n c op c' _ IH Ha E].
  - split; cbn; unfold maxCongestionWindow, initialCongestionWindow, MaxCongestionWindowPackets; cbn; try done; lia.
  - destruct (cexec_inv m0 ltac:(lia) n op c (IH ltac:(lia)) ltac:(lia) Ha) as (c1 & E1 & Hc1). rewrite E in E1. by injection E1 as <-.
Qed.

(** The bandwidth the pacer divides by is not zero, up to an RTT of 2 m0 seconds. *)
Lemma TimeUntilSend_total m0 n c r : 1200 ≤ m0 < 2 ^ 16 → cinv m0 n c → 0 ≤ rtt.smoothedRTT r ≤ 2 * m0 * 10 ^ 9 → ∃ t, TimeUntilSend r c = Ok t.
Proof.
  intros Hm [] Hr. unfold maxCongestionWindow, MaxCongestionWindowPackets in *. unfold TimeUntilSend, pacer_TimeUntilSend. destruct (_ <=? _); [by eexists|].
  assert (Hb : 0 < adjustedBandwidth (BandwidthEstimate r c)).
  { unfold BandwidthEstimate. destruct (Z.eqb_spec (rtt.smoothedRTT r) 0); [by vm_compute|].
    unfold adjustedBandwidth, BandwidthFromDelta, BytesPerSecond. set (w := congestionWindow c) in *. set (d := rtt.smoothedRTT r) in *.
    rewrite (u64_small w), (u64_small (w * 10 ^ 9)), (u64_small d) by lia.
    assert (1 ≤ w * 10 ^ 9 / d ≤ w * 10 ^ 9) by (split; [apply Z.div_le_lower_bound; lia|apply Z.div_le_upper_bound; nia]).
    set (q := w * 10 ^ 9 / d) in *. clearbody q. rewrite (u64_small (q * 8)) by lia. rewrite Z.div_mul by lia. rewrite u64_small by lia.
    apply Z.div_str_pos. lia. }
  cbv zeta. rewrite (proj2 (Z.eqb_neq _ _)) by lia. by eexists.
Qed.

(** C19: the congestion window, for Reno and for Cubic, over fewer than 2^40 calls
    in any order, whatever is reported as sent, acknowledged (at most 2^16 bytes
    each) and lost.  The window stays between two packets of the initial size,
    which is less than two packets once the packet size was raised, and 10001
    packets, one more than the maximum, so that a packet may be sent when nothing
    is in flight.  No call panics (the packet size is only raised, to less than
    2^16), and neither does [TimeUntilSend], up to an RTT of 2 m0 seconds, which is
    at least 40 minutes.  The first loss of a packet sent after the last cutback
    leaves at most three quarters of the window, or else two packets, which may be
    more than before, and ends slow start; further losses of packets sent before do
    nothing. *)
Theorem congestion_window_bounded m0 n c : 1200 ≤ m0 < 2 ^ 16 → Z.of_nat n < 2 ^ 40 → creach m0 n c →
  2 * m0 ≤ congestionWindow c < (MaxCongestionWindowPackets + 1) * maxDatagramSize c ∧ CanSend 0 c = true ∧
  (∀ op, callowed op c → ∃ c', cexec op c = (Ok tt, c')) ∧
  (∀ r, 0 ≤ rtt.smoothedRTT r ≤ 2 * m0 * 10 ^ 9 → ∃ t, TimeUntilSend r c = Ok t) ∧
  ∀ pn, largestSentAtLastCutback c < pn →
    let c' := OnCongestionEvent pn c in
    minCongestionWindow c ≤ congestionWindow c' ∧ (congestionWindow c' = minCongestionWindow c ∨ 4 * congestionWindow c' ≤ 3 * congestionWindow c) ∧
    InSlowStart c' = false ∧ ∀ pn', pn' ≤ largestSentPacketNumber c → OnCongestionEvent pn' c' = c'.
Proof.
  intros Hm Hn Hr. pose proof (creach_inv m0 n c Hm ltac:(lia) Hr) as Hi. pose proof Hi as []. unfold maxCongestionWindow in *. split_and!; [lia|lia| | | |].
  - apply Z.ltb_lt. lia.
  - intros op Ha. destruct (cexec_inv m0 ltac:(lia) n op c Hi Hn Ha) as (c' & E & _). by exists c'.
  - intros r. by apply (TimeUntilSend_total m0 n).
  - intros pn Hpn. destruct (cutback_inv m0 ltac:(lia) n c pn Hi) as [_ Hcut]. destruct (Hcut Hpn) as (E1 & E2 & E3).
    destruct (reduced_bounds m0 ltac:(lia) n c Hi). cbv zeta. rewrite E1. split_and!; [lia|lia|done|]. intros pn' Hpn'. unfold OnCongestionEvent at 1.
    by rewrite E3, (proj2 (Z.leb_le _ _)).
Qed.

Definition example_sender : cubicSender := OnPacketSent rtt.NewRTTStats 1000 5 1252 true (NewCubicSender rtt.NewRTTStats true 1252).

Lemma congestion_window_bounded_witness :
  congestionWindow example_sender = 40064 ∧ congestionWindow (OnCongestionEvent 3 example_sender) = 28044 ∧
  4 * congestionWindow (OnCongestionEvent 3 example_sender) ≤ 3 * congestionWindow example_sender ∧
  OnCongestionEvent 5 (OnCongestionEvent 3 example_sender) = OnCongestionEvent 3 example_sender.
Proof.
  assert (Hr : creach 1252 1 example_sender).
  { apply (cr_step 1252 0 _ (COnPacketSent rtt.NewRTTStats 1000 5 1252 true) _ (cr_initial 1252 rtt.NewRTTStats true)); [exact I|reflexivity]. }
  destruct (congestion_window_bounded 1252 1 example_sender ltac:(lia) ltac:(lia) Hr) as (_ & _ & _ & _ & H).
  destruct (H 3 ltac:(by vm_compute)) as (_ & H2 & _ & H4). split_and!; [by vm_compute|by vm_compute| |].
  - destruct H2 as [H2|H2]; [exfalso; clear -H2; vm_compute in H2; discriminate H2|exact H2].
  - apply H4. by vm_compute.
Defined.

(** * Reno grows by one packet per window *)

Fixpoint acks (r : rtt.RTTStats) (l : list (Z * Z * Z * Z)) : st cubicSender () :=
  match l with [] => mret tt | (pn, n, p, t) :: l => _ ← OnPacketAcked r pn n p t; acks r l end.

Record avoiding (c : cubicSender) : Prop := {
  av_reno : reno c = true;
  av_size : 0 < maxDatagramSize c < 2 ^ 16;
  av_threshold : slowStartThreshold c ≤ congestionWindow c;
  av_window : maxDatagramSize c ≤ congestionWindow c < (MaxCongestionWindowPackets + 1) * maxDatagramSize c;
  av_acked : 0 ≤ numAckedPackets c;
}.

Lemma reno_step r pn n p t c : avoiding c → numAckedPackets c < 2 ^ 62 →
  ∃ c', OnPacketAcked r pn n p t c = (Ok tt, c') ∧ avoiding c' ∧ maxDatagramSize c' = maxDatagramSize c ∧
    (congestionWindow c' = congestionWindow c ∧ numAckedPackets c' ≤ numAckedPackets c + 1 ∨
     congestionWindow c' = congestionWindow c + maxDatagramSize c ∧ numAckedPackets c' = 0 ∧ Z.quot (congestionWindow c) (maxDatagramSize c) ≤ numAckedPackets c + 1).
Proof.
  intros Hav Hn. unfold OnPacketAcked. unfold mbind at 1, st_bind at 1, st_modify at 1. set (c1 := set_largestAcked _ c).
  assert (Hc1 : avoiding c1) by (destruct Hav; by split). change (congestionWindow c) with (congestionWindow c1). change (maxDatagramSize c) with (maxDatagramSize c1).
  change (numAckedPackets c) with (numAckedPackets c1) in *. clearbody c1. clear Hav c. pose proof Hc1 as []. unfold MaxCongestionWindowPackets in *.
  assert (Hsame : ∀ c', avoiding c' → InSlowStart c' = false) by (intros c' []; apply Z.ltb_ge; done).
  unfold mbind at 1, st_bind at 1, st_get at 1. destruct (InRecovery c1); [exists c1; split_and!; try done; left; lia|].
  unfold maybeIncreaseCwnd, mret, st_ret, mbind, st_bind, st_get, st_modify, st_lift, int_div. rewrite (Hsame c1 Hc1), av_reno0.
  destruct (isCwndLimited p c1); cbn [negb].
  2:{ eexists. split; [by rewrite (Hsame (set_cubic _ c1)) by by split|]. split; [by split|]. split; [done|]. left. cbn. lia. }
  destruct (Z.leb_spec (maxCongestionWindow c1) (congestionWindow c1)) as [|Hmax].
  { exists c1. rewrite (Hsame c1 Hc1). split_and!; try done. left. lia. }
  rewrite (proj2 (Z.eqb_neq _ _)) by lia. rewrite (u64_small (numAckedPackets c1 + 1)) by lia.
  assert (0 ≤ Z.quot (congestionWindow c1) (maxDatagramSize c1) < 2 ^ 31).
  { split; [apply Z.quot_pos; lia|]. apply Z.quot_lt_upper_bound; lia. }
  rewrite u64_small by lia. unfold maxCongestionWindow, MaxCongestionWindowPackets in *.
  destruct (Z.leb_spec (Z.quot (congestionWindow c1) (maxDatagramSize c1)) (numAckedPackets c1 + 1)).
  - cbn. rewrite i64_small by lia. set (c2 := set_numAcked 0 _). assert (Hc2 : avoiding c2) by (split; cbn; unfold MaxCongestionWindowPackets; lia || done).
    exists c2. rewrite (Hsame c2 Hc2). split_and!; try done. by right.
  - set (c2 := set_numAcked _ c1). assert (Hc2 : avoiding c2) by (split; cbn; unfold MaxCongestionWindowPackets; lia || done).
    exists c2. rewrite (Hsame c2 Hc2). split_and!; try done. left. cbn. lia.
Qed.

(** In congestion avoidance [k] acknowledgements add at most [k] packets over the
    packets of a window. *)
Lemma reno_growth r l c W : avoiding c → W ≤ Z.quot (congestionWindow c) (maxDatagramSize c) → numAckedPackets c + Z.of_nat (length l) < 2 ^ 62 →
  ∃ c' j, acks r l c = (Ok tt, c') ∧ congestionWindow c' = congestionWindow c + j * maxDatagramSize c ∧ 0 ≤ j ∧ j * W ≤ numAckedPackets c + Z.of_nat (length l).
Proof.
  revert c. induction l as [|[[[pn n] p] t] l IH]; intros c Hav HW Hl; cbn [acks length] in *.
  { exists c, 0. pose proof (av_acked c Hav). split_and!; [done|lia|lia|lia]. }
  pose proof (av_acked c Hav). destruct (reno_step r pn n p t c Hav ltac:(lia)) as (c1 & E & Hc1 & Hm & Hcase). rewrite (st_bind_ok _ _ _ _ _ E).
  pose proof (av_acked c1 Hc1). pose proof (av_size c Hav).
  assert (HW1 : W ≤ Z.quot (congestionWindow c1) (maxDatagramSize c1)).
  { rewrite Hm. etrans; [exact HW|]. apply Z.quot_le_mono; lia. }
  destruct (IH c1 Hc1 HW1) as (c' & j & E' & Hw & Hj & HjW).
  - destruct Hcase as [(_ & ?)|(_ & ? & _)]; lia.
  - rewrite Hm in Hw. destruct Hcase as [(Hc & ?)|(Hc & ? & Hq)]; [exists c', j|exists c', (j + 1)]; (split_and!; [done|lia|lia|lia]).
Qed.

(** * Pacing *)

Section pacing.
(** The bandwidth does not change: [B] bytes per second. *)
Context (bw : Z).
Abbreviation B := (adjustedBandwidth bw).
Context (HB : 0 < B < 2 ^ 42).

Lemma maxBurstSize_eq p : maxBurstSize bw p = Z.max (2 * 10 ^ 6 * B / 10 ^ 9) (10 * p_maxDatagramSize p).
Proof.
  unfold maxBurstSize, MinPacingDelay, rtt.TimerGranularity, rtt.Millisecond, maxBurstSizePackets. set (b := adjustedBandwidth bw) in *. clearbody b.
  rewrite u64_small, i64_small by (try rewrite u64_small; lia). rewrite Z.quot_div_nonneg by lia. done.
Qed.

Record pacer_ok (p : pacer) : Prop := {
  po_size : 0 < p_maxDatagramSize p < 2 ^ 16;
  po_budget : 0 ≤ budgetAtLastSent p ≤ maxBurstSize bw p;
}.

(** The budget never exceeds what the bandwidth allows, even if the computation
    overflows. *)
Lemma Budget_upper now p : pacer_ok p → lastSentTime p ≠ 0 → lastSentTime p ≤ now →
  0 ≤ Budget bw now p ≤ maxBurstSize bw p ∧ 10 ^ 9 * Budget bw now p ≤ 10 ^ 9 * budgetAtLastSent p + B * (now - lastSentTime p).
Proof.
  intros [Hs Hb] Ht0 Ht. unfold Budget. rewrite (proj2 (Z.eqb_neq _ _)) by done. pose proof (maxBurstSize_eq p) as Hm.
  set (M := maxBurstSize bw p) in *. unfold time_Sub. set (D := Z.max _ (Z.min _ (now - lastSentTime p))).
  assert (HD : 0 ≤ D ≤ now - lastSentTime p ∧ D < 2 ^ 63 ∧ (D < 2 ^ 63 - 1 → D = now - lastSentTime p)) by (unfold D; lia). clearbody D.
  assert (HM : 0 ≤ M < 2 ^ 40). { pose proof (Z.div_lt_upper_bound (2 * 10 ^ 6 * B) (10 ^ 9) (2 ^ 40)). pose proof (Z.div_pos (2 * 10 ^ 6 * B) (10 ^ 9)). lia. }
  rewrite (i64_small B) by lia. set (x := Z.quot _ _). set (b := i64 (_ + x)). set (v := if b <? 0 then _ else b).
  assert (Hv : 0 ≤ v). { unfold v. destruct (Z.ltb_spec b 0); [by vm_compute|done]. }
  split; [lia|]. destruct (Z_lt_le_dec (B * D) (2 ^ 63)) as [Hlt|Hge].
  - assert (Hx : x = B * D / 10 ^ 9). { unfold x. rewrite i64_small by lia. apply Z.quot_div_nonneg; lia. }
    assert (0 ≤ x ∧ 10 ^ 9 * x ≤ B * D) by (rewrite Hx; split; [apply Z.div_pos; lia|apply Z.mul_div_le; lia]).
    assert (b = budgetAtLastSent p + x) by (unfold b; apply i64_small; lia). unfold v. rewrite (proj2 (Z.ltb_ge _ _)) by lia. nia.
  - assert (10 ^ 9 * M ≤ B * D); [|nia]. rewrite Hm. destruct (Z.max_spec (2 * 10 ^ 6 * B / 10 ^ 9) (10 * p_maxDatagramSize p)) as [[_ ->]|[_ ->]]; [lia|].
    pose proof (Z.mul_div_le (2 * 10 ^ 6 * B) (10 ^ 9) ltac:(lia)). nia.
Qed.

Lemma SentPacket_ok now n p : pacer_ok p → 0 ≤ n → lastSentTime p ≤ now → pacer_ok (pacer_SentPacket bw now n p).
Proof.
  intros Hp Hn Ht. assert (HM : 0 ≤ Budget bw now p ≤ maxBurstSize bw p).
  { destruct (decide (lastSentTime p = 0)) as [E|E]; [|by apply Budget_upper]. unfold Budget. rewrite E. cbn. destruct Hp. lia. }
  destruct Hp. unfold pacer_SentPacket. split; cbn; [done|]. change (maxBurstSize bw (mkPacer _ (p_maxDatagramSize p) now)) with (maxBurstSize bw p).
  destruct (Z.leb_spec (Budget bw now p) n); lia.
Qed.

(** While nothing overflows the budget is exact. *)
Lemma Budget_exact now p : pacer_ok p → lastSentTime p ≠ 0 → lastSentTime p ≤ now → B * (now - lastSentTime p) < 2 ^ 62 →
  Budget bw now p = Z.min (maxBurstSize bw p) (budgetAtLastSent p + B * (now - lastSentTime p) / 10 ^ 9).
Proof.
  intros [Hs Hb] Ht0 Ht Hlt. unfold Budget. rewrite (proj2 (Z.eqb_neq _ _)) by done. pose proof (maxBurstSize_eq p) as Hm.
  set (M := maxBurstSize bw p) in *. assert (0 ≤ now - lastSentTime p < 2 ^ 62) by nia. unfold time_Sub. rewrite (Z.min_r (2 ^ 63 - 1)), (Z.max_r (- 2 ^ 63)) by lia.
  rewrite (i64_small B), (i64_small (B * _)) by nia. rewrite Z.quot_div_nonneg by nia.
  pose proof (Z.div_lt_upper_bound (2 * 10 ^ 6 * B) (10 ^ 9) (2 ^ 40)). pose proof (Z.div_pos (2 * 10 ^ 6 * B) (10 ^ 9)).
  set (x := B * (now - lastSentTime p) / 10 ^ 9). assert (0 ≤ x < 2 ^ 62).
  { split; [apply Z.div_pos; nia|]. apply Z.div_lt_upper_bound; lia. }
  rewrite i64_small by lia. by rewrite (proj2 (Z.ltb_ge _ _)) by lia.
Qed.

(** When the time returned by [TimeUntilSend] has come, a full packet may be sent. *)
Lemma TimeUntilSend_budget p t now : pacer_ok p → lastSentTime p ≠ 0 → pacer_TimeUntilSend bw p = Ok t → t ≤ now → lastSentTime p ≤ now →
  B * (now - lastSentTime p) < 2 ^ 62 → p_maxDatagramSize p ≤ Budget bw now p.
Proof.
  intros Hp Ht0 Hu Hnow Hl Hlt. rewrite Budget_exact by done. pose proof (maxBurstSize_eq p) as Hm. destruct Hp as [Hs Hb]. revert Hu. unfold pacer_TimeUntilSend.
  assert (0 ≤ B * (now - lastSentTime p) / 10 ^ 9) by (apply Z.div_pos; nia).
  destruct (Z.leb_spec (p_maxDatagramSize p) (budgetAtLastSent p)) as [Hle|Hgt]; [lia|]. rewrite (proj2 (Z.eqb_neq _ _)) by lia.
  set (k := p_maxDatagramSize p - budgetAtLastSent p) in *. rewrite (u64_small k), (u64_small (10 ^ 9 * k)) by lia. set (d := if _ <? _ then _ else _).
  pose proof (Z.div_mod (10 ^ 9 * k) B ltac:(lia)) as Hdm. pose proof (Z.mod_pos_bound (10 ^ 9 * k) B ltac:(lia)) as Hmod.
  assert (0 ≤ 10 ^ 9 * k / B ≤ 10 ^ 9 * k) by (split; [apply Z.div_pos; lia|apply Z.div_le_upper_bound; nia]).
  assert (Hd : 10 ^ 9 * k ≤ B * d ∧ 0 ≤ d < 2 ^ 62). { unfold d. destruct (Z.ltb_spec 0 ((10 ^ 9 * k) mod B)); rewrite ?u64_small by lia; nia. }
  clearbody d. rewrite i64_small by lia. intros [= <-].
  assert (k ≤ B * (now - lastSentTime p) / 10 ^ 9); [|lia]. apply Z.div_le_lower_bound; [lia|]. nia.
Qed.

(** Packets sent when the pacer allows it. *)
Inductive paced : pacer → list (Z * Z) → pacer → Prop :=
| paced_nil p : paced p [] p
| paced_cons p t n l p' : lastSentTime p ≤ t → 0 < t → 0 ≤ n ≤ p_maxDatagramSize p → p_maxDatagramSize p ≤ Budget bw t p →
    paced (pacer_SentPacket bw t n p) l p' → paced p ((t, n) :: l) p'.

Definition total (l : list (Z * Z)) : Z := foldr (λ x acc, x.2 + acc) 0 l.

Lemma paced_bound p l p' : paced p l p' → pacer_ok p → lastSentTime p ≠ 0 →
  10 ^ 9 * (total l + budgetAtLastSent p') ≤ 10 ^ 9 * budgetAtLastSent p + B * (lastSentTime p' - lastSentTime p) ∧ lastSentTime p ≤ lastSentTime p' ∧
  0 ≤ budgetAtLastSent p'.
Proof.
  induction 1 as [p|p t n l p' Ht H0 Hn HB' _ IH]; intros Hp Hl; [destruct Hp; cbn; lia|].
  destruct IH as (IH1 & IH2 & IH3); [apply SentPacket_ok; [done|lia|done]|cbn; lia|]. destruct (Budget_upper t p Hp Hl Ht) as [_ Hu].
  cbn in IH1, IH2. cbn [total foldr snd]. fold (total l). destruct (Z.leb_spec (Budget bw t p) n); (split_and!; [nia|lia|lia]).
Qed.

(** From any packet on, the packets sent are at most a burst and what the bandwidth
    allows until the last one. *)
Lemma paced_rate p t n l p' : pacer_ok p → paced p ((t, n) :: l) p' →
  10 ^ 9 * total ((t, n) :: l) ≤ 10 ^ 9 * maxBurstSize bw p + B * (lastSentTime p' - t).
Proof.
  intros Hp Hl. inversion Hl as [|? ? ? ? ? Ht H0 Hn HB' Hrest]; subst. assert (HM : 0 ≤ Budget bw t p ≤ maxBurstSize bw p).
  { destruct (decide (lastSentTime p = 0)) as [E|E]; [|by apply Budget_upper]. unfold Budget. rewrite E. cbn. destruct Hp. lia. }
  destruct (paced_bound _ _ _ Hrest) as (H1 & H2 & H3); [apply SentPacket_ok; [done|lia|done]|cbn; lia|]. cbn in H1, H2. cbn [total foldr snd]. fold (total l).
  destruct (Z.leb_spec (Budget bw t p) n); nia.
Qed.
End pacing.

(** Pacing.  With a bandwidth of [B] bytes per second (below 2^42), the packets
    sent when the pacer has a budget for them are, from any packet on, at most one
    burst and [B] times the time passed, whatever the times (also when the
    computation of the budget overflows); and when the time the pacer announced
    has come, it has the budget for a full packet. *)
Theorem pacing_rate bw p l p' : 0 < adjustedBandwidth bw < 2 ^ 42 → pacer_ok bw p → paced bw p l p' →
  (∀ t n l', l = (t, n) :: l' → 10 ^ 9 * total l ≤ 10 ^ 9 * maxBurstSize bw p + adjustedBandwidth bw * (lastSentTime p' - t)) ∧
  (lastSentTime p' ≠ 0 → ∃ t, pacer_TimeUntilSend bw p' = Ok t ∧ ∀ now, t ≤ now → lastSentTime p' ≤ now →
    adjustedBandwidth bw * (now - lastSentTime p') < 2 ^ 62 → p_maxDatagramSize p' ≤ Budget bw now p').
Proof.
  intros HB Hp Hl. split; [intros t n l' ->; by eapply paced_rate|]. intros Hne.
  assert (Hp' : pacer_ok bw p'). { clear Hne. induction Hl; [done|]. apply IHHl. apply SentPacket_ok; [done|done|lia|done]. }
  assert (Hu : ∃ t, pacer_TimeUntilSend bw p' = Ok t).
  { unfold pacer_TimeUntilSend. destruct (_ <=? _); [by eexists|]. rewrite (proj2 (Z.eqb_neq _ _)) by lia. by eexists. }
  destruct Hu as [t Ht]. exists t. split; [done|]. intros now H1 H2 H3. by eapply TimeUntilSend_budget.
Qed.

(** 10 MB/s: [10 ^ 6 * 8 * 8] bits per second times 5/4. *)
Definition example_pacer : pacer := newPacer 64000000.
Lemma pacing_rate_witness :
  adjustedBandwidth 64000000 = 10 ^ 7 ∧
  10 ^ 9 * total [(1, 1252); (100, 1252)] ≤ 10 ^ 9 * maxBurstSize 64000000 example_pacer + 10 ^ 7 * 99.
Proof.
  split; [by vm_compute|].
  assert (Hp : pacer_ok 64000000 example_pacer) by (split; by vm_compute).
  assert (Hl : paced 64000000 example_pacer [(1, 1252); (100, 1252)] (pacer_SentPacket 64000000 100 1252 (pacer_SentPacket 64000000 1 1252 example_pacer))).
  { repeat (apply paced_cons; [by vm_compute|done|by vm_compute|by vm_compute|]). apply paced_nil. }
  destruct (pacing_rate 64000000 example_pacer _ _ ltac:(by vm_compute) Hp Hl) as [H _]. apply (H 1 1252 [(100, 1252)] eq_refl).
Defined.

(** Without a measurement of the RTT the bandwidth is unlimited, and the
    computation of the budget overflows to zero: one millisecond after the budget
    was used up there is still none. *)
Example unlimited_bandwidth_no_budget : Budget infBandwidth (100 + rtt.Millisecond) (mkPacer 0 1252 100) = 0.
Proof. by vm_compute. Qed.

(** Cubic, half a minute without a loss: the cube overflows, and the window falls
    back to the estimate for Reno, from 8 MB to 125 kB. *)
Definition example_cubic : Cubic := mkCubic 1 1 125200 0 125200 125200 0 0.
Example cubic_overflow :
  (CongestionWindowAfterAck 1252 7900000 0 (25 * 10 ^ 9) example_cubic).1 = 7900626 ∧
  (CongestionWindowAfterAck 1252 7900626 0 (27 * 10 ^ 9) example_cubic).1 = 125206.
Proof. split; by vm_compute. Qed.
End congestion.
