(* ===== verification/MtuDiscovery.v ===== *)
(** Path MTU discovery (mtu_discoverer.go): a binary search for the largest
    packet the path delivers, driven by the acknowledgement or loss of probe
    packets, with the congestion controller that is told about larger packets. *)

From S2P Require Import Prelude.
From S2P Require Import Protocol.
From S2P Require Import Ecn.
From S2P Require Import Congestion.

Module mtu.
Import protocol congestion.
Import (hints) rtt.

Definition maxMTUDiff : Z := 20.
Definition mtuProbeDelay : Z := 5.
Definition MinInitialPacketSize : Z := 1200.
Definition InitialPacketSizeIPv6 : Z := 1232.
Definition InvalidByteCount : Z := -1.

(** [net.IP.To4]: an address of 4 bytes, or of 16 bytes that embeds one. *)
Definition To4 (ip : bytes) : option bytes :=
  if blen ip =? 4 then Some ip
  else if (blen ip =? 16) && bool_decide (take 12 ip = replicate 10 0 ++ [255; 255]) then Some (drop 12 ip)
  else None.
Definition IsIPv4 (ip : bytes) : bool := match To4 ip with Some _ => true | None => false end.

(** [net.Addr]: the IP of a UDP address, or some other address. *)
Inductive Addr := UDPAddr (ip : bytes) | OtherAddr.

Definition getMaxPacketSize (addr : Addr) : Z :=
  match addr with
  | UDPAddr ip => if IsIPv4 ip then InitialPacketSizeIPv4 else InitialPacketSizeIPv6
  | OtherAddr => MinInitialPacketSize
  end.

Record mtuFinder := mkFinder {
  lastProbeTime : Z;
  inFlight : Z;
  current : Z;
  max : Z;
}.

Definition newMTUDiscoverer (start : Z) : mtuFinder := mkFinder 0 InvalidByteCount start 0.

Definition finder_done (f : mtuFinder) : bool := i64 (max f - current f) <=? maxMTUDiff + 1.

Definition Start (now maxPacketSize : Z) (f : mtuFinder) : mtuFinder := mkFinder now (inFlight f) (current f) maxPacketSize.

(** [s.peerParams.MaxUDPPayloadSize] decides how far the search goes. *)
Definition searchLimit (MaxUDPPayloadSize : Z) : Z :=
  Z.min (if MaxUDPPayloadSize =? 0 then MaxByteCount else MaxUDPPayloadSize) MaxPacketBufferSize.

Definition ShouldSendProbe (r : rtt.RTTStats) (now : Z) (f : mtuFinder) : bool :=
  if (max f =? 0) || (lastProbeTime f =? 0) then false
  else if negb (inFlight f =? InvalidByteCount) || finder_done f then false
  else negb (now <? lastProbeTime f + i64 (mtuProbeDelay * rtt.smoothedRTT r)).

(** The PING frame of the probe carries the handler below. *)
Definition GetPing (now : Z) (f : mtuFinder) : Z * mtuFinder :=
  let size := Z.quot (i64 (max f + current f)) 2 in (size, mkFinder now size (current f) (max f)).

Definition CurrentSize (f : mtuFinder) : Z := current f.

(** The handler of the probe's frame; [mtuIncreased] changes an object of its own. *)
Section handler.
Context {S : Type} (mtuIncreased : Z → st S ()).

Definition mtu_OnAcked : st (mtuFinder * S) () := λ '(f, s),
  let size := inFlight f in
  if size =? InvalidByteCount then (Panic "OnAcked callback called although there's no MTU probe packet in flight", (f, s))
  else let '(r, s) := mtuIncreased size s in (r, (mkFinder (lastProbeTime f) InvalidByteCount size (max f), s)).

Definition mtu_OnLost : st (mtuFinder * S) () := λ '(f, s),
  let size := inFlight f in
  if size =? InvalidByteCount then (Panic "OnLost callback called although there's no MTU probe packet in flight", (f, s))
  else (Ok tt, (mkFinder (lastProbeTime f) InvalidByteCount (current f) size, s)).
End handler.

(** * The search on a path

    The path delivers packets of at most [mtu] bytes.  A probe that is acknowledged
    was delivered; one that is lost may have been too large or just lost.  The
    congestion controller is used in between. *)

Record search := mkSearch {
  finder : mtuFinder;
  sender : cubicSender;
  probes : nat;          (* probes sent *)
  unlucky : bool;        (* whether a probe the path delivers was reported lost *)
  limit : Z;             (* where the search was started *)
}.

Definition other_op (op : cop) : Prop := match op with CSetMaxDatagramSize _ => False | _ => True end.

Section path.
Context (addr : Addr) (mtu : Z).

Inductive search_step : search → search → Prop :=
| s_start f s p u l now peer : max f = 0 → 0 < now → (peer = 0 ∨ 1200 ≤ peer) →
    search_step (mkSearch f s p u l) (mkSearch (Start now (searchLimit peer) f) s p u (searchLimit peer))
| s_probe f s p u l r now : ShouldSendProbe r now f = true → 0 < now →
    search_step (mkSearch f s p u l) (mkSearch (GetPing now f).2 s (S p) u l)
| s_acked f s p u l f' s' r : inFlight f ≠ InvalidByteCount → inFlight f ≤ mtu → mtu_OnAcked SetMaxDatagramSize (f, s) = (r, (f', s')) →
    search_step (mkSearch f s p u l) (mkSearch f' s' p u l)
| s_lost f s p u l f' s' r : inFlight f ≠ InvalidByteCount → mtu_OnLost (f, s) = (r, (f', s')) →
    search_step (mkSearch f s p u l) (mkSearch f' s' p (u || (inFlight f <=? mtu)) l)
| s_other f s p u l op r s' : other_op op → callowed op s → cexec op s = (r, s') →
    search_step (mkSearch f s p u l) (mkSearch f s' p u l).

Inductive search_reach : nat → search → Prop :=
| sr_initial r reno : let start := getMaxPacketSize addr in
    search_reach 0 (mkSearch (newMTUDiscoverer start) (NewCubicSender r reno start) 0 false 0)
| sr_step n x y : search_reach n x → search_step x y → search_reach (S n) y.
End path.

(** * The invariant of the search *)

Lemma getMaxPacketSize_range addr : 1200 ≤ getMaxPacketSize addr ≤ 1252.
Proof. destruct addr as [ip|]; cbn; [destruct (IsIPv4 ip)|]; by vm_compute. Qed.

Lemma searchLimit_range peer : peer = 0 ∨ 1200 ≤ peer → 1200 ≤ searchLimit peer ≤ 1452.
Proof. unfold searchLimit, MaxByteCount, MaxPacketBufferSize. destruct (Z.eqb_spec peer 0); lia. Qed.

(** Only [SetMaxDatagramSize] changes the packet size of the congestion controller. *)
Lemma maybeIncreaseCwnd_size r a p t c : maxDatagramSize (maybeIncreaseCwnd r a p t c).2 = maxDatagramSize c.
Proof.
  unfold maybeIncreaseCwnd, mbind, st_bind, st_get, st_modify, st_lift, int_div. repeat (case_match; cbn in *; simplify_eq); try done.
Qed.

Lemma cexec_size op s : other_op op → maxDatagramSize (cexec op s).2 = maxDatagramSize s.
Proof.
  destruct op as [r t pn k b|r pn k p t|r|pn|b| |z]; cbn [cexec other_op]; intros Ho; try done.
  - unfold st_modify, OnPacketSent. by destruct b.
  - unfold OnPacketAcked, mbind, st_bind, st_get, st_modify. destruct (InRecovery _); [done|].
    pose proof (maybeIncreaseCwnd_size r k p t (set_largestAcked (Z.max pn (largestAckedPacketNumber s)) s)) as H.
    destruct (maybeIncreaseCwnd _ _ _ _ _) as [[] c2]; cbn in *; [|done..]. by destruct (InSlowStart c2).
  - unfold MaybeExitSlowStart, mbind, st_bind, st_get, st_modify, st_lift. destruct (InSlowStart s); cbn [negb]; [|done].
    destruct (int_div _ _); [|done..]. by destruct (ShouldExitSlowStart _ _ _ _) as [[] h].
  - unfold st_modify, OnCongestionEvent. cbn. repeat case_match; done.
  - unfold st_modify, OnRetransmissionTimeout. by destruct b.
Qed.

Lemma SetMaxDatagramSize_ok z s : maxDatagramSize s ≤ z → ∃ s', SetMaxDatagramSize z s = (Ok tt, s') ∧ maxDatagramSize s' = z.
Proof.
  intros H. unfold SetMaxDatagramSize, mbind, st_bind, st_get, st_modify. rewrite (proj2 (Z.ltb_ge _ _)) by done.
  destruct (_ =? _); by eexists.
Qed.

(** A probe is in the middle of what is left; halving it four times is enough. *)
Definition answered (f : mtuFinder) (p : nat) : nat := if inFlight f =? InvalidByteCount then p else pred p.

Record sinv (start mtu : Z) (n : nat) (x : search) : Prop := {
  si_current : start ≤ current (finder x) ≤ mtu;
  si_sender : cinv start n (sender x);
  si_size : maxDatagramSize (sender x) = current (finder x);
  si_idle : max (finder x) = 0 → current (finder x) = start ∧ inFlight (finder x) = InvalidByteCount ∧ probes x = 0%nat;
  si_time : max (finder x) ≠ 0 → 0 < lastProbeTime (finder x);
  si_max : max (finder x) ≠ 0 → 1200 ≤ max (finder x) ≤ limit x ∧ limit x ≤ 1452 ∧ (current (finder x) = start ∨ current (finder x) < max (finder x));
  si_inFlight : inFlight (finder x) ≠ InvalidByteCount → (1 ≤ probes x)%nat ∧ 21 < max (finder x) - current (finder x) ∧
    inFlight (finder x) = Z.quot (max (finder x) + current (finder x)) 2;
  si_half : 2 ^ Z.of_nat (answered (finder x) (probes x)) * (max (finder x) - current (finder x) - 1) ≤ 251;
  si_probes : (probes x ≤ 4)%nat;
  si_lucky : max (finder x) ≠ 0 → unlucky x = false → max (finder x) = limit x ∨ mtu < max (finder x);
}.

Lemma quot_half a : 0 ≤ a → 2 * Z.quot a 2 ≤ a ≤ 2 * Z.quot a 2 + 1.
Proof. intros. rewrite Z.quot_div_nonneg by lia. pose proof (Z.div_mod a 2). pose proof (Z.mod_pos_bound a 2). lia. Qed.

Lemma pow_bound p : 2 ^ Z.of_nat p * 21 ≤ 251 → (p ≤ 3)%nat.
Proof.
  intros H. destruct (decide (p ≤ 3)%nat) as [|Hp]; [done|]. exfalso.
  pose proof (Z.pow_le_mono_r 2 4 (Z.of_nat p) ltac:(lia) ltac:(lia)) as H'. change (2 ^ 4) with 16 in H'. lia.
Qed.

(** An answered probe halves the interval. *)
Lemma halve p d d' : (1 ≤ p)%nat → 2 ^ Z.of_nat (pred p) * (d - 1) ≤ 251 → 2 * (d' - 1) ≤ d - 1 → 2 ^ Z.of_nat p * (d' - 1) ≤ 251.
Proof.
  intros Hp H Hd. destruct p as [|p]; [lia|]. cbn [pred] in H. rewrite Nat2Z.inj_succ, Z.pow_succ_r by lia.
  pose proof (Z.pow_pos_nonneg 2 (Z.of_nat p) ltac:(lia) ltac:(lia)). nia.
Qed.

Section search_inv.
Context (start mtu : Z) (Hstart : 1200 ≤ start ≤ 1252).

(** A probe that is sent, acknowledged or lost. *)
Lemma probe_inv n f s p u l r now : sinv start mtu n (mkSearch f s p u l) → ShouldSendProbe r now f = true → 0 < now →
  sinv start mtu n (mkSearch (GetPing now f).2 s (S p) u l).
Proof.
  intros [] Hs Hnow. cbn in *. unfold ShouldSendProbe in Hs.
  destruct (Z.eqb_spec (max f) 0) as [|Hm]; [done|]. destruct (Z.eqb_spec (inFlight f) InvalidByteCount) as [Hf|]; [|by destruct (_ || _)].
  unfold answered in *. rewrite Hf in *. cbn in si_half0. destruct (si_max0 Hm) as (H1 & H2 & H3).
  unfold finder_done in Hs. rewrite i64_small in Hs by lia. destruct (Z.leb_spec (max f - current f) (maxMTUDiff + 1)) as [|Hd]; [by destruct (_ || _)|].
  unfold maxMTUDiff in Hd. assert (Hp : (p ≤ 3)%nat).
  { apply pow_bound. pose proof (Z.pow_pos_nonneg 2 (Z.of_nat p) ltac:(lia) ltac:(lia)). nia. }
  unfold GetPing. rewrite i64_small by lia. pose proof (quot_half (max f + current f) ltac:(lia)).
  split; cbn; try done; unfold InvalidByteCount in *; try lia.
  unfold answered. cbn. rewrite (proj2 (Z.eqb_neq _ _)) by (unfold InvalidByteCount; lia). done.
Qed.

Lemma acked_inv n f s p u l : Z.of_nat n < 2 ^ 40 → sinv start mtu n (mkSearch f s p u l) → inFlight f ≠ InvalidByteCount →
  current f < inFlight f < max f ∧ ∃ s', mtu_OnAcked SetMaxDatagramSize (f, s) = (Ok tt, (mkFinder (lastProbeTime f) InvalidByteCount (inFlight f) (max f), s')) ∧
    (inFlight f ≤ mtu → sinv start mtu (S n) (mkSearch (mkFinder (lastProbeTime f) InvalidByteCount (inFlight f) (max f)) s' p u l)).
Proof.
  intros Hn [] Hf. cbn in *. destruct (si_inFlight0 Hf) as (Hp & Hd & Hq). pose proof (quot_half (max f + current f) ltac:(lia)). unfold answered in *.
  rewrite (proj2 (Z.eqb_neq _ _) Hf) in *. split; [lia|]. destruct (decide (max f = 0)) as [|Hm]; [naive_solver|]. destruct (si_max0 Hm) as (H1 & H2 & H3).
  destruct (cexec_inv start ltac:(lia) n (CSetMaxDatagramSize (inFlight f)) s si_sender0 Hn ltac:(cbn; lia)) as (s' & E & Hs').
  destruct (SetMaxDatagramSize_ok (inFlight f) s ltac:(lia)) as (s1 & E1 & Hz). cbn [cexec] in E. rewrite E1 in E. injection E as ->.
  exists s'. unfold mtu_OnAcked. cbv beta iota zeta. rewrite ?(proj2 (Z.eqb_neq _ _) Hf), E1. split; [done|]. intros Hle.
  split; cbn; try done; try lia. unfold answered. cbn. eapply (halve p (max f - current f)); [lia..|]. lia.
Qed.

Lemma lost_inv n f s p u l : sinv start mtu n (mkSearch f s p u l) → inFlight f ≠ InvalidByteCount →
  mtu_OnLost (f, s) = (Ok tt, (mkFinder (lastProbeTime f) InvalidByteCount (current f) (inFlight f), s)) ∧
  sinv start mtu n (mkSearch (mkFinder (lastProbeTime f) InvalidByteCount (current f) (inFlight f)) s p (u || (inFlight f <=? mtu)) l).
Proof.
  intros [] Hf. cbn in *. destruct (si_inFlight0 Hf) as (Hp & Hd & Hq). pose proof (quot_half (max f + current f) ltac:(lia)). unfold answered in *.
  rewrite (proj2 (Z.eqb_neq _ _) Hf) in *. destruct (decide (max f = 0)) as [|Hm]; [naive_solver|]. destruct (si_max0 Hm) as (H1 & H2 & H3).
  unfold mtu_OnLost. cbv beta iota zeta. rewrite ?(proj2 (Z.eqb_neq _ _) Hf). split; [done|]. split; cbn; try done; try lia.
  unfold answered. cbn. eapply (halve p (max f - current f)); [lia..|]. lia.
Qed.

Lemma sinv_mono n x : sinv start mtu n x → sinv start mtu (S n) x.
Proof. intros []. split; try done. eapply cinv_mono; [|done]. lia. Qed.

Lemma search_step_inv n x y : Z.of_nat n < 2 ^ 40 → sinv start mtu n x → search_step mtu x y →
  sinv start mtu (S n) y ∧ current (finder x) ≤ current (finder y).
Proof.
  intros Hn Hi Hs. destruct Hs as [f s p u l now peer Hm Hnow Hpeer|f s p u l r now Hr Hnow|f s p u l f' s' r Hf Hle E|f s p u l f' s' r Hf E|f s p u l op r s' Ho Ha E].
  - split; [|done]. apply sinv_mono in Hi as []. cbn in *. destruct (si_idle0 Hm) as (E1 & E2 & E3). pose proof (searchLimit_range peer Hpeer).
    split; cbn; try done; try lia. rewrite E3. unfold answered. cbn. rewrite E2, E1. cbn. lia.
  - split; [|done]. by eapply sinv_mono, probe_inv.
  - destruct (acked_inv n f s p u l Hn Hi Hf) as (H & s1 & E1 & H'). rewrite E1 in E. injection E as <- <- <-. split; [by apply H'|cbn; lia].
  - destruct (lost_inv n f s p u l Hi Hf) as [E1 H']. rewrite E1 in E. injection E as <- <- <-. split; [by apply sinv_mono|done].
  - split; [|done]. destruct Hi. cbn in *. destruct (cexec_inv start ltac:(lia) n op s si_sender0 Hn Ha) as (s1 & E1 & Hs1).
    pose proof (cexec_size op s Ho) as Hz. rewrite E in E1, Hz. injection E1 as -> ->. split; cbn in *; try done; lia.
Qed.
End search_inv.

Lemma search_reach_inv addr mtu n x : getMaxPacketSize addr ≤ mtu → Z.of_nat n ≤ 2 ^ 40 → search_reach addr mtu n x →
  sinv (getMaxPacketSize addr) mtu n x.
Proof.
  intros Hm Hn. pose proof (getMaxPacketSize_range addr) as Ha. induction 1 as [r b start|n x y Hr IH Hs].
  - split; cbn; try done; try lia. apply creach_inv; [lia|lia|apply cr_initial].
  - by apply (search_step_inv _ mtu Ha n x y ltac:(lia) (IH ltac:(lia)) Hs).
Qed.

(** C29: path MTU discovery on a path that delivers packets of [mtu] bytes: the
    packet size only grows, is never above what the path takes, and is the size the
    congestion controller knows; at most four probes are sent, each
    larger than the packet size and within the peer's limit, and its handler does
    not panic.  As long as the search is not over the next probe is sent after
    five round trips; when it is over and no probe was lost by accident, the packet
    size is within 21 bytes of the best one. *)
Theorem mtu_discovery addr mtu n x : getMaxPacketSize addr ≤ mtu → Z.of_nat n < 2 ^ 40 → search_reach addr mtu n x →
  let f := finder x in
  getMaxPacketSize addr ≤ CurrentSize f ≤ mtu ∧ CurrentSize f ≤ MaxPacketBufferSize ∧ maxDatagramSize (sender x) = CurrentSize f ∧
  (probes x ≤ 4)%nat ∧ (∀ y, search_step mtu x y → CurrentSize f ≤ CurrentSize (finder y)) ∧
  (inFlight f ≠ InvalidByteCount → CurrentSize f < inFlight f < limit x ∧
    (mtu_OnAcked SetMaxDatagramSize (f, sender x)).1 = Ok tt ∧ (mtu_OnLost (f, sender x)).1 = Ok tt) ∧
  (max f ≠ 0 → inFlight f = InvalidByteCount →
    if finder_done f then unlucky x = false → Z.min mtu (limit x) - CurrentSize f ≤ maxMTUDiff + 1
    else ∀ r now, 0 ≤ rtt.smoothedRTT r < 2 ^ 60 → lastProbeTime f + mtuProbeDelay * rtt.smoothedRTT r ≤ now → ShouldSendProbe r now f = true).
Proof.
  intros Hm Hn Hr. pose proof (getMaxPacketSize_range addr) as Ha. pose proof (search_reach_inv addr mtu n x Hm ltac:(lia) Hr) as Hi.
  destruct x as [f s p u l]. cbv zeta. unfold CurrentSize. pose proof Hi as []. cbn [finder sender probes unlucky limit] in *.
  split_and!; [lia|lia| |done|lia| | |].
  - unfold MaxPacketBufferSize. destruct (decide (max f = 0)) as [H|H]; [destruct (si_idle0 H); lia|destruct (si_max0 H); lia].
  - intros y Hy. by apply (search_step_inv _ mtu Ha n _ y Hn Hi Hy).
  - intros Hf. destruct (acked_inv _ mtu Ha n f s p u l Hn Hi Hf) as (H1 & s' & E & _).
    destruct (lost_inv _ mtu Ha n f s p u l Hi Hf) as [E' _]. rewrite E, E'. split; [|done].
    destruct (decide (max f = 0)) as [H|H]; [destruct (si_idle0 H); naive_solver|destruct (si_max0 H); lia].
  - intros H Hf. destruct (si_max0 H) as (H1 & H2 & H3). destruct (finder_done f) eqn:Ed.
    + unfold finder_done in Ed. rewrite i64_small in Ed by lia. apply Z.leb_le in Ed. intros Hu. destruct (si_lucky0 H Hu); lia.
    + intros r now Hrtt Hnow. unfold ShouldSendProbe. rewrite Ed, Hf, (proj2 (Z.eqb_neq _ _) H). specialize (si_time0 H).
      rewrite (proj2 (Z.eqb_neq (lastProbeTime f) 0)) by lia. cbn. rewrite i64_small by (unfold mtuProbeDelay in *; lia).
      apply negb_true_iff, Z.ltb_ge. done.
Qed.

(** From 1252 to 1452 bytes on a path of 1400: the probes have 1352, 1402, 1377
    and 1389 bytes, and 1389 is taken. *)
Definition example_addr : Addr := UDPAddr [192; 0; 2; 1].
Definition example_found (s : cubicSender) : search := mkSearch (mkFinder 2 (-1) 1389 1402) s 4 false 1452.

Lemma mtu_discovery_witness : ∃ s, search_reach example_addr 1400 9 (example_found s) ∧ 1400 - CurrentSize (finder (example_found s)) ≤ maxMTUDiff + 1.
Proof.
  assert (H : ∃ s, search_reach example_addr 1400 9 (example_found s)).
  { pose proof (sr_step _ _ _ _ _ (sr_initial example_addr 1400 rtt.NewRTTStats true) (s_start _ (newMTUDiscoverer 1252) _ _ _ _ 1 0 eq_refl eq_refl ltac:(by left))) as H0.
    assert (Hp : ∀ n f s p u l, search_reach example_addr 1400 n (mkSearch f s p u l) → ShouldSendProbe rtt.NewRTTStats 2 f = true →
      search_reach example_addr 1400 (S n) (mkSearch (GetPing 2 f).2 s (S p) u l)).
    { intros n f s p u l H Hs. eapply sr_step; [exact H|]. by eapply s_probe. }
    apply Hp in H0; [|by vm_compute]. eapply sr_step in H0; [|eapply s_acked; [done|by vm_compute|reflexivity]].
    apply Hp in H0; [|by vm_compute]. eapply sr_step in H0; [|eapply s_lost; [done|reflexivity]].
    apply Hp in H0; [|by vm_compute]. eapply sr_step in H0; [|eapply s_acked; [done|by vm_compute|reflexivity]].
    apply Hp in H0; [|by vm_compute]. eapply sr_step in H0; [|eapply s_acked; [done|by vm_compute|reflexivity]].
    eexists. exact H0. }
  destruct H as [s H]. exists s. split; [done|]. pose proof (mtu_discovery example_addr 1400 9 (example_found s) ltac:(by vm_compute) ltac:(lia) H) as Ht.
  destruct Ht as (_ & _ & _ & _ & _ & _ & Ht). by apply (Ht ltac:(done) eq_refl eq_refl).
Defined.

End mtu.
