(* ===== verification/PacketProtection.v ===== *)
(** Packet protection (internal/handshake/hkdf.go, cipher_suite.go, aead.go,
    header_protector.go, initial_aead.go, retry.go): key derivation, the AEADs with
    their nonces, header protection, and the keys of Initial and Retry packets.
    The cryptographic primitives are parameters. *)

From S2P Require Import Prelude.
From S2P Require Import Protocol.
From S2P Require Import Headers.

Module protection.
Import protocol headers.

Inductive Hash := SHA256 | SHA384.
Definition Hash_Size (h : Hash) : Z := match h with SHA256 => 32 | SHA384 => 48 end.

(** crypto/hmac, crypto/aes, crypto/cipher and golang.org/x/crypto: HKDF, of which
    [hkdf_Expand] reads [n] bytes; AES-GCM and ChaCha20-Poly1305 with a key; one
    block of AES; [n] bytes of the ChaCha20 key stream. *)
Class Primitives := {
  hkdf_Extract : Hash → bytes → bytes → bytes;
  hkdf_Expand : Hash → bytes → bytes → Z → bytes;
  gcm_Seal : bytes → bytes → bytes → bytes → bytes;
  gcm_Open : bytes → bytes → bytes → bytes → option bytes;
  poly_Seal : bytes → bytes → bytes → bytes → bytes;
  poly_Open : bytes → bytes → bytes → bytes → option bytes;
  aes_Encrypt : bytes → bytes → bytes;
  chacha20_stream : bytes → bytes → Z → Z → bytes;
}.

(** What is documented of them: opening undoes sealing, the tag has 16 bytes, a
    block 16 bytes and a key stream as many as asked for. *)
Class PrimitivesLaws `{Primitives} := {
  gcm_roundtrip k n p ad : gcm_Open k n (gcm_Seal k n p ad) ad = Some p;
  gcm_length k n p ad : blen (gcm_Seal k n p ad) = blen p + 16;
  poly_roundtrip k n p ad : poly_Open k n (poly_Seal k n p ad) ad = Some p;
  poly_length k n p ad : blen (poly_Seal k n p ad) = blen p + 16;
  aes_block k b : blen (aes_Encrypt k b) = 16;
  chacha20_length k n c m : 0 ≤ m → blen (chacha20_stream k n c m) = m;
  expand_length h s info n : 0 ≤ n → blen (hkdf_Expand h s info n) = n;
}.

Definition string_bytes (s : string) : bytes := (λ a, Z.of_nat (Ascii.nat_of_ascii a)) <$> String.list_ascii_of_string s.

(** [binary.BigEndian.PutUint64] and [binary.LittleEndian.Uint32] *)
Definition PutUint64 (v : Z) : bytes := PutUint32 (Z.shiftr v 32) ++ PutUint32 v.
Definition LittleUint32 (b : bytes) : Z := match b with [b0; b1; b2; b3] => Uint32 b3 b2 b1 b0 | _ => 0 end.

Section crypto.
Context `{Primitives}.

(** * Key derivation *)

Definition hkdfExpandLabel (hash : Hash) (secret ctx : bytes) (label : string) (length : Z) : bytes :=
  let b := PutUint16 (u16 length) ++ [u8 (6 + blen (string_bytes label))] ++ string_bytes "tls13 " ++ string_bytes label ++
           [u8 (blen ctx)] ++ ctx in
  hkdf_Expand hash secret b length.

(** * Cipher suites *)

Inductive aead_kind := AESGCM | ChaCha20Poly1305.
Definition TLS_AES_128_GCM_SHA256 : Z := 0x1301.
Definition TLS_AES_256_GCM_SHA384 : Z := 0x1302.
Definition TLS_CHACHA20_POLY1305_SHA256 : Z := 0x1303.
Definition aeadNonceLength : Z := 12.

Record cipherSuite := mkSuite { suite_ID : Z; suite_Hash : Hash; suite_KeyLen : Z; suite_AEAD : aead_kind }.

Definition getCipherSuite (id : Z) : res cipherSuite :=
  if id =? TLS_AES_128_GCM_SHA256 then Ok (mkSuite TLS_AES_128_GCM_SHA256 SHA256 16 AESGCM) else
  if id =? TLS_CHACHA20_POLY1305_SHA256 then Ok (mkSuite TLS_CHACHA20_POLY1305_SHA256 SHA256 32 ChaCha20Poly1305) else
  if id =? TLS_AES_256_GCM_SHA384 then Ok (mkSuite TLS_AES_256_GCM_SHA384 SHA384 32 AESGCM) else
  Panic "unknown cypher suite".

(** A [cipher.AEAD] with its key, and the mask of its nonces. *)
Record xorNonceAEAD := mkAEAD { nonceMask : bytes; aead_cipher : aead_kind; aead_key : bytes }.

Definition aeadNew (kind : aead_kind) (key mask : bytes) : res xorNonceAEAD :=
  if negb (blen mask =? aeadNonceLength) then Panic "tls: internal error: wrong nonce length" else Ok (mkAEAD mask kind key).

(** [for i, b := range nonce { f.nonceMask[4+i] ^= b }] *)
Definition xor_nonce (mask nonce : bytes) : bytes := take 4 mask ++ zip_with Z.lxor (drop 4 mask) nonce.

(** The mask is the same again after the call ([xor_nonce_restores]). *)
Definition xorNonce_Seal (f : xorNonceAEAD) (nonce plaintext ad : bytes) : bytes :=
  match aead_cipher f with
  | AESGCM => gcm_Seal (aead_key f) (xor_nonce (nonceMask f) nonce) plaintext ad
  | ChaCha20Poly1305 => poly_Seal (aead_key f) (xor_nonce (nonceMask f) nonce) plaintext ad
  end.
Definition xorNonce_Open (f : xorNonceAEAD) (nonce ciphertext ad : bytes) : option bytes :=
  match aead_cipher f with
  | AESGCM => gcm_Open (aead_key f) (xor_nonce (nonceMask f) nonce) ciphertext ad
  | ChaCha20Poly1305 => poly_Open (aead_key f) (xor_nonce (nonceMask f) nonce) ciphertext ad
  end.
Definition xorNonce_Overhead : Z := 16.

Definition hkdfLabelKeyV1 : string := "quic key".
Definition hkdfLabelKeyV2 : string := "quicv2 key".
Definition hkdfLabelIVV1 : string := "quic iv".
Definition hkdfLabelIVV2 : string := "quicv2 iv".

Definition createAEAD (suite : cipherSuite) (trafficSecret : bytes) (v : Z) : res xorNonceAEAD :=
  let '(keyLabel, ivLabel) := if v =? Version2 then (hkdfLabelKeyV2, hkdfLabelIVV2) else (hkdfLabelKeyV1, hkdfLabelIVV1) in
  let key := hkdfExpandLabel (suite_Hash suite) trafficSecret [] keyLabel (suite_KeyLen suite) in
  let iv := hkdfExpandLabel (suite_Hash suite) trafficSecret [] ivLabel aeadNonceLength in
  aeadNew (suite_AEAD suite) key iv.

(** * Header protection *)

Definition hkdfHeaderProtectionLabel (v : Z) : string := if v =? Version2 then "quicv2 hp" else "quic hp".

Inductive headerProtector :=
| aesHeaderProtector (block : bytes) (isLongHeader : bool)
| chachaHeaderProtector (key : bytes) (isLongHeader : bool).

(** [copy(p.key[:], hpKey)] *)
Definition key32 (k : bytes) : bytes := take 32 (k ++ zeros 32).

Definition newHeaderProtector (suite : cipherSuite) (trafficSecret : bytes) (isLongHeader : bool) (v : Z) : res headerProtector :=
  let hpKey := hkdfExpandLabel (suite_Hash suite) trafficSecret [] (hkdfHeaderProtectionLabel v) (suite_KeyLen suite) in
  if (suite_ID suite =? TLS_AES_128_GCM_SHA256) || (suite_ID suite =? TLS_AES_256_GCM_SHA384) then Ok (aesHeaderProtector hpKey isLongHeader) else
  if suite_ID suite =? TLS_CHACHA20_POLY1305_SHA256 then Ok (chachaHeaderProtector (key32 hpKey) isLongHeader) else
  Panic "Invalid cipher suite id".

Definition isLong (p : headerProtector) : bool := match p with aesHeaderProtector _ l | chachaHeaderProtector _ l => l end.

(** [p.mask], computed from the sample. *)
Definition hp_mask (p : headerProtector) (sample : bytes) : bytes :=
  match p with
  | aesHeaderProtector block _ => aes_Encrypt block sample
  | chachaHeaderProtector key _ => chacha20_stream key (drop 4 sample) (LittleUint32 (take 4 sample)) 5
  end.

Definition applyMask (long : bool) (mask : bytes) (firstByte : Z) (hdrBytes : bytes) : res (Z * bytes) :=
  m0 ← get_at mask 0;
  let firstByte := Z.lxor firstByte (Z.land m0 (if long then 0xf else 0x1f)) in
  if blen mask <=? blen hdrBytes then Panic "index out of range" else
  Ok (firstByte, zip_with Z.lxor hdrBytes (tail mask)).

(** [EncryptHeader] and [DecryptHeader] are the same function. *)
Definition hp_apply (p : headerProtector) (sample : bytes) (firstByte : Z) (hdrBytes : bytes) : res (Z * bytes) :=
  if negb (blen sample =? 16) then Panic "invalid sample size" else applyMask (isLong p) (hp_mask p sample) firstByte hdrBytes.

(** * Long header packets *)

Record longHeaderSealer := mkLongSealer { ls_aead : xorNonceAEAD; ls_headerProtector : headerProtector }.
Record longHeaderOpener := mkLongOpener { lo_aead : xorNonceAEAD; lo_headerProtector : headerProtector; lo_highestRcvdPN : Z }.

(** [NonceSize] is 8. *)
Definition newLongHeaderSealer (a : xorNonceAEAD) (hp : headerProtector) : longHeaderSealer := mkLongSealer a hp.
Definition newLongHeaderOpener (a : xorNonceAEAD) (hp : headerProtector) : longHeaderOpener := mkLongOpener a hp 0.

Definition ErrDecryptionFailed : go_error := ErrMsg "decryption failed".

Definition long_Seal (s : longHeaderSealer) (src : bytes) (pn : Z) (ad : bytes) : bytes := xorNonce_Seal (ls_aead s) (PutUint64 (u64 pn)) src ad.
Definition long_DecodePacketNumber (o : longHeaderOpener) (wirePN wirePNLen : Z) : Z := DecodePacketNumber wirePNLen (lo_highestRcvdPN o) wirePN.
Definition long_Open (src : bytes) (pn : Z) (ad : bytes) : st longHeaderOpener bytes := λ o,
  match xorNonce_Open (lo_aead o) (PutUint64 (u64 pn)) src ad with
  | Some dec => (Ok dec, mkLongOpener (lo_aead o) (lo_headerProtector o) (Z.max (lo_highestRcvdPN o) pn))
  | None => (Err ErrDecryptionFailed, o)
  end.

(** * Initial packets *)

Definition quicSaltV1 : bytes := [0x38; 0x76; 0x2c; 0xf7; 0xf5; 0x59; 0x34; 0xb3; 0x4d; 0x17; 0x9a; 0xe6; 0xa4; 0xc8; 0x0c; 0xad; 0xcc; 0xbb; 0x7f; 0x0a].
Definition quicSaltV2 : bytes := [0x0d; 0xed; 0xe3; 0xde; 0xf7; 0x00; 0xa6; 0xdb; 0x81; 0x93; 0x81; 0xbe; 0x6e; 0x26; 0x9d; 0xcb; 0xf9; 0xbd; 0x2e; 0xd9].
Definition getSalt (v : Z) : bytes := if v =? Version2 then quicSaltV2 else quicSaltV1.
Definition initialSuite : cipherSuite := mkSuite TLS_AES_128_GCM_SHA256 SHA256 16 AESGCM.

Definition computeSecrets (connID : ConnectionID) (v : Z) : bytes * bytes :=
  let initialSecret := hkdf_Extract SHA256 (ConnectionID_Bytes connID) (getSalt v) in
  (hkdfExpandLabel SHA256 initialSecret [] "client in" (Hash_Size SHA256), hkdfExpandLabel SHA256 initialSecret [] "server in" (Hash_Size SHA256)).

Definition computeInitialKeyAndIV (secret : bytes) (v : Z) : bytes * bytes :=
  let '(keyLabel, ivLabel) := if v =? Version2 then (hkdfLabelKeyV2, hkdfLabelIVV2) else (hkdfLabelKeyV1, hkdfLabelIVV1) in
  (hkdfExpandLabel SHA256 secret [] keyLabel 16, hkdfExpandLabel SHA256 secret [] ivLabel 12).

Definition NewInitialAEAD (connID : ConnectionID) (pers : Perspective) (v : Z) : res (longHeaderSealer * longHeaderOpener) :=
  let '(clientSecret, serverSecret) := computeSecrets connID v in
  let '(mySecret, otherSecret) := match pers with PerspectiveClient => (clientSecret, serverSecret) | _ => (serverSecret, clientSecret) end in
  let '(myKey, myIV) := computeInitialKeyAndIV mySecret v in
  let '(otherKey, otherIV) := computeInitialKeyAndIV otherSecret v in
  encrypter ← aeadNew AESGCM myKey myIV;
  decrypter ← aeadNew AESGCM otherKey otherIV;
  hp ← newHeaderProtector initialSuite mySecret true v;
  Ok (newLongHeaderSealer encrypter hp,
      newLongHeaderOpener decrypter
        (aesHeaderProtector (hkdfExpandLabel SHA256 otherSecret [] (hkdfHeaderProtectionLabel v) (suite_KeyLen initialSuite)) true)).

(** * Retry packets *)

Definition retryKeyV1 : bytes := [0xbe; 0x0c; 0x69; 0x0b; 0x9f; 0x66; 0x57; 0x5a; 0x1d; 0x76; 0x6b; 0x54; 0xe3; 0x68; 0xc8; 0x4e].
Definition retryKeyV2 : bytes := [0x8f; 0xb4; 0xb0; 0x1b; 0x56; 0xac; 0x48; 0xe2; 0x60; 0xfb; 0xcb; 0xce; 0xad; 0x7c; 0xcc; 0x92].
Definition retryNonceV1 : bytes := [0x46; 0x15; 0x99; 0xd3; 0x5d; 0x63; 0x2b; 0xf2; 0x23; 0x98; 0x25; 0xbb].
Definition retryNonceV2 : bytes := [0xd8; 0x69; 0x69; 0xbc; 0x2d; 0x7c; 0x6d; 0x99; 0x90; 0xef; 0xb0; 0x4a].

Definition GetRetryIntegrityTag (retry : bytes) (origDestConnID : ConnectionID) (version : Z) : res bytes :=
  let buf := [u8 (ConnectionID_Len origDestConnID)] ++ ConnectionID_Bytes origDestConnID ++ retry in
  let sealed := if version =? Version2 then gcm_Seal retryKeyV2 retryNonceV2 [] buf else gcm_Seal retryKeyV1 retryNonceV1 [] buf in
  if negb (blen sealed =? 16) then Panic "unexpected Retry integrity tag length" else Ok sealed.
End crypto.

(** * Correctness *)

Section protect.
Context `{PrimitivesLaws}.

Lemma zip_lxor_restores l m : (length l ≤ length m)%nat → zip_with Z.lxor (zip_with Z.lxor l m) m = l.
Proof.
  revert m. induction l as [|x l IH]; intros [|y m] Hl; cbn in *; try done; [lia|].
  by rewrite Z.lxor_assoc, Z.lxor_nilpotent, Z.lxor_0_r, IH by lia.
Qed.

Lemma zip_lxor_length l m : (length l ≤ length m)%nat → blen (zip_with Z.lxor l m) = blen l.
Proof. intros. unfold blen. rewrite length_zip_with. lia. Qed.

Lemma blen_PutUint64 v : blen (PutUint64 v) = 8.
Proof. done. Qed.

(** The second loop of [Seal] and [Open] restores the mask. *)
Lemma xor_nonce_restores mask v : blen mask = aeadNonceLength →
  xor_nonce (xor_nonce mask (PutUint64 v)) (PutUint64 v) = mask.
Proof.
  intros Hm. assert (Hl : length mask = 12%nat) by (unfold blen, aeadNonceLength in Hm; lia). unfold xor_nonce.
  rewrite take_app_length', drop_app_length' by (rewrite length_take; lia). rewrite zip_lxor_restores.
  - apply take_drop.
  - rewrite length_drop, Hl. done.
Qed.

Lemma xorNonce_roundtrip f nonce p ad : xorNonce_Open f nonce (xorNonce_Seal f nonce p ad) ad = Some p.
Proof. unfold xorNonce_Open, xorNonce_Seal. destruct (aead_cipher f); [apply gcm_roundtrip|apply poly_roundtrip]. Qed.

Lemma xorNonce_length f nonce p ad : blen (xorNonce_Seal f nonce p ad) = blen p + xorNonce_Overhead.
Proof. unfold xorNonce_Seal. destruct (aead_cipher f); [apply gcm_length|apply poly_length]. Qed.

Lemma createAEAD_ok suite secret v : ∃ a, createAEAD suite secret v = Ok a ∧ blen (nonceMask a) = aeadNonceLength.
Proof.
  unfold createAEAD. destruct (v =? Version2); unfold aeadNew, hkdfExpandLabel; rewrite (expand_length (suite_Hash suite)) by done;
    rewrite Z.eqb_refl; cbn; (eexists; split; [done|]); by apply expand_length.
Qed.

(** The cipher suites of QUIC. *)
Definition suite_ok (s : cipherSuite) : Prop := getCipherSuite (suite_ID s) = Ok s.

Lemma suite_cases s : suite_ok s →
  suite_ID s = TLS_AES_128_GCM_SHA256 ∨ suite_ID s = TLS_CHACHA20_POLY1305_SHA256 ∨ suite_ID s = TLS_AES_256_GCM_SHA384.
Proof.
  unfold suite_ok, getCipherSuite. intros E. repeat zcase_in E; auto; done.
Qed.

Lemma newHeaderProtector_ok suite secret long v : suite_ok suite → ∃ p, newHeaderProtector suite secret long v = Ok p ∧ isLong p = long.
Proof. intros [E|[E|E]]%suite_cases; unfold newHeaderProtector; rewrite E; cbn; by eexists. Qed.

Lemma hp_mask_length p sample : 5 ≤ blen (hp_mask p sample).
Proof. destruct p; cbn; [rewrite aes_block; lia|rewrite chacha20_length; lia]. Qed.

(** Header protection of at most four bytes is undone by applying it again. *)
Lemma hp_apply_involutive p sample first hdr : blen sample = 16 → blen hdr ≤ 4 → 0 ≤ first < 256 →
  ∃ first' hdr', hp_apply p sample first hdr = Ok (first', hdr') ∧ hp_apply p sample first' hdr' = Ok (first, hdr) ∧ blen hdr' = blen hdr ∧
    (∀ i, i = 7 ∨ (if isLong p then i = 4 ∨ i = 5 ∨ i = 6 else i = 5 ∨ i = 6) → Z.testbit first' i = Z.testbit first i).
Proof.
  intros Hs Hh Hf. unfold hp_apply. rewrite Hs. cbn [negb Z.eqb Pos.eqb]. pose proof (hp_mask_length p sample) as Hm.
  destruct (hp_mask p sample) as [|m0 m] eqn:Em; [unfold blen in Hm; cbn in Hm; lia|]. unfold applyMask. change (get_at (m0 :: m) 0) with (Ok m0).
  rewrite blen_cons in *. assert (Hl : (length hdr ≤ length m)%nat) by (unfold blen in *; lia).
  cbn [mbind res_bind tail]. rewrite (proj2 (Z.leb_gt _ _)) by lia. do 2 eexists. split; [done|].
  rewrite (zip_lxor_length hdr m Hl), (proj2 (Z.leb_gt _ _)) by lia. split_and!.
  - by rewrite zip_lxor_restores, Z.lxor_assoc, Z.lxor_nilpotent, Z.lxor_0_r.
  - done.
  - intros i Hi. rewrite Z.lxor_spec, Z.land_spec. replace (Z.testbit (if isLong p then 15 else 31) i) with false; [by rewrite andb_false_r, xorb_false_r|].
    destruct (isLong p); naive_solver.
Qed.

(** Sealer and opener of the two sides of an encryption level. *)
Definition matching (s : longHeaderSealer) (o : longHeaderOpener) : Prop :=
  lo_aead o = ls_aead s ∧ lo_headerProtector o = ls_headerProtector s.

Lemma long_roundtrip s o src pn ad : matching s o →
  ∃ o', long_Open (long_Seal s src pn ad) pn ad o = (Ok src, o') ∧ matching s o' ∧ lo_highestRcvdPN o' = Z.max (lo_highestRcvdPN o) pn.
Proof. intros [E1 E2]. unfold long_Open, long_Seal. rewrite E1, xorNonce_roundtrip. eexists. by split_and!. Qed.

(** Client and server derive the same Initial keys, each sending with what the
    other receives with. *)
Lemma NewInitialAEAD_matching cid v : ∃ cs co ss so,
  NewInitialAEAD cid PerspectiveClient v = Ok (cs, co) ∧ NewInitialAEAD cid PerspectiveServer v = Ok (ss, so) ∧
  matching cs so ∧ matching ss co ∧ isLong (ls_headerProtector cs) = true ∧ isLong (ls_headerProtector ss) = true.
Proof.
  unfold NewInitialAEAD, computeSecrets. unfold computeInitialKeyAndIV. destruct (v =? Version2);
    unfold aeadNew, hkdfExpandLabel; rewrite !(expand_length SHA256) by done; cbn; do 4 eexists; (split_and!; try done).
Qed.

Lemma GetRetryIntegrityTag_ok retry cid v : ∃ tag, GetRetryIntegrityTag retry cid v = Ok tag ∧ blen tag = 16.
Proof. unfold GetRetryIntegrityTag. destruct (v =? Version2); rewrite gcm_length; cbn; eexists; (split; [done|]); by rewrite gcm_length. Qed.
End protect.

(** * Concrete primitives

    The tag of the AEADs is the key, and deriving the next secret counts in the
    first four bytes. *)

Definition toy_tag (k : bytes) : bytes := take 16 (k ++ zeros 16).
Definition toy_Seal (k n p ad : bytes) : bytes := p ++ toy_tag k.
Definition toy_Open (k n c ad : bytes) : option bytes :=
  let m := (length c - 16)%nat in if bool_decide (drop m c = toy_tag k) then Some (take m c) else None.
Definition toy_counter (s : bytes) : Z := match s with b3 :: b2 :: b1 :: b0 :: _ => Uint32 b3 b2 b1 b0 | _ => 0 end.
Definition toy_Expand (h : Hash) (secret info : bytes) (n : Z) : bytes :=
  let c := toy_counter secret in
  let c := if bool_decide (take 7 (drop 9 info) = string_bytes "quic ku") then c + 1 else c in
  take (Z.to_nat n) (PutUint32 c ++ zeros n).

#[local] Instance toy : Primitives := {
  hkdf_Extract h secret salt := salt;
  hkdf_Expand := toy_Expand;
  gcm_Seal := toy_Seal;
  gcm_Open := toy_Open;
  poly_Seal := toy_Seal;
  poly_Open := toy_Open;
  aes_Encrypt k b := take 16 (b ++ zeros 16);
  chacha20_stream k n c m := take (Z.to_nat m) (k ++ zeros m);
}.

Lemma blen_take_zeros n (l : bytes) : 0 ≤ n → blen (take (Z.to_nat n) (l ++ zeros n)) = n.
Proof. intros. unfold blen, zeros. rewrite length_take, length_app, length_replicate. lia. Qed.

Lemma toy_tag_length k : length (toy_tag k) = 16%nat.
Proof. unfold toy_tag. rewrite length_take, length_app. unfold zeros. rewrite length_replicate. lia. Qed.

Lemma toy_roundtrip k k' n n' p ad : toy_Open k' n' (toy_Seal k n p ad) ad = if bool_decide (toy_tag k = toy_tag k') then Some p else None.
Proof.
  unfold toy_Open, toy_Seal. rewrite length_app, toy_tag_length, Nat.add_sub, drop_app_length, take_app_length. done.
Qed.

#[local] Instance toy_laws : PrimitivesLaws.
Proof.
  split; intros; cbn.
  1,3: by rewrite toy_roundtrip, bool_decide_true.
  1,2: unfold toy_Seal; rewrite blen_app; f_equal; unfold blen; by rewrite toy_tag_length.
  - by apply (blen_take_zeros 16).
  - by apply blen_take_zeros.
  - by apply blen_take_zeros.
Qed.

End protection.
