(* ===== verification/KeyUpdate.v ===== *)
(** Key updates of 1-RTT packets (internal/handshake/updatable_aead.go), and two
    endpoints that update their keys while their packets are delayed, reordered,
    repeated or lost. *)

From S2P Require Import Prelude.
From S2P Require Import Protocol.
From S2P Require Import Headers.
From S2P Require Import Ecn.
From S2P Require Import PacketPacker.
From S2P Require Import PacketProtection.

Module keyUpdate.
Import protocol headers protection.
Import (hints) rtt.

Definition KeyUpdateInterval : Z := 100 * 1000.
Definition FirstKeyUpdateInterval : Z := 100.
Definition InvalidPacketLimitAES : Z := 2 ^ 52.
Definition InvalidPacketLimitChaCha : Z := 2 ^ 36.
Definition KeyUpdateError : Z := 0xe.
Definition AEADLimitReached : Z := 0xf.
Definition ErrKeysDropped : go_error := packer.ErrKeysDropped.

#[global] Instance KeyPhaseBit_eq_dec : EqDecision KeyPhaseBit.
Proof. solve_decision. Defined.

Record updatableAEAD := mkUpdatable {
  suite : option cipherSuite;
  keyPhase : Z;
  largestAcked : Z;
  firstPacketNumber : Z;
  handshakeConfirmed : bool;
  invalidPacketLimit : Z;
  invalidPacketCount : Z;
  prevRcvAEADExpiry : Z;
  prevRcvAEAD : option xorNonceAEAD;
  firstRcvdWithCurrentKey : Z;
  firstSentWithCurrentKey : Z;
  highestRcvdPN : Z;
  numRcvdWithCurrentKey : Z;
  numSentWithCurrentKey : Z;
  rcvAEAD : option xorNonceAEAD;
  sendAEAD : option xorNonceAEAD;
  aeadOverhead : Z;
  nextRcvAEAD : option xorNonceAEAD;
  nextSendAEAD : option xorNonceAEAD;
  nextRcvTrafficSecret : bytes;
  nextSendTrafficSecret : bytes;
  headerDecrypter : option headerProtector;
  headerEncrypter : option headerProtector;
  ua_version : Z;
}.

Definition newUpdatableAEAD (version : Z) : updatableAEAD :=
  mkUpdatable None 0 InvalidPacketNumber InvalidPacketNumber false 0 0 0 None InvalidPacketNumber InvalidPacketNumber 0 0 0 None None 0 None None [] []
    None None version.

Definition set_prev (x : option xorNonceAEAD) (expiry : Z) (a : updatableAEAD) : updatableAEAD :=
  mkUpdatable (suite a) (keyPhase a) (largestAcked a) (firstPacketNumber a) (handshakeConfirmed a) (invalidPacketLimit a) (invalidPacketCount a)
    expiry x (firstRcvdWithCurrentKey a) (firstSentWithCurrentKey a) (highestRcvdPN a) (numRcvdWithCurrentKey a) (numSentWithCurrentKey a)
    (rcvAEAD a) (sendAEAD a) (aeadOverhead a) (nextRcvAEAD a) (nextSendAEAD a) (nextRcvTrafficSecret a) (nextSendTrafficSecret a)
    (headerDecrypter a) (headerEncrypter a) (ua_version a).
Definition set_rcvd (first num : Z) (a : updatableAEAD) : updatableAEAD :=
  mkUpdatable (suite a) (keyPhase a) (largestAcked a) (firstPacketNumber a) (handshakeConfirmed a) (invalidPacketLimit a) (invalidPacketCount a)
    (prevRcvAEADExpiry a) (prevRcvAEAD a) first (firstSentWithCurrentKey a) (highestRcvdPN a) num (numSentWithCurrentKey a)
    (rcvAEAD a) (sendAEAD a) (aeadOverhead a) (nextRcvAEAD a) (nextSendAEAD a) (nextRcvTrafficSecret a) (nextSendTrafficSecret a)
    (headerDecrypter a) (headerEncrypter a) (ua_version a).
Definition set_sent (firstPN first num : Z) (a : updatableAEAD) : updatableAEAD :=
  mkUpdatable (suite a) (keyPhase a) (largestAcked a) firstPN (handshakeConfirmed a) (invalidPacketLimit a) (invalidPacketCount a)
    (prevRcvAEADExpiry a) (prevRcvAEAD a) (firstRcvdWithCurrentKey a) first (highestRcvdPN a) (numRcvdWithCurrentKey a) num
    (rcvAEAD a) (sendAEAD a) (aeadOverhead a) (nextRcvAEAD a) (nextSendAEAD a) (nextRcvTrafficSecret a) (nextSendTrafficSecret a)
    (headerDecrypter a) (headerEncrypter a) (ua_version a).
Definition set_invalid (n : Z) (a : updatableAEAD) : updatableAEAD :=
  mkUpdatable (suite a) (keyPhase a) (largestAcked a) (firstPacketNumber a) (handshakeConfirmed a) (invalidPacketLimit a) n
    (prevRcvAEADExpiry a) (prevRcvAEAD a) (firstRcvdWithCurrentKey a) (firstSentWithCurrentKey a) (highestRcvdPN a) (numRcvdWithCurrentKey a)
    (numSentWithCurrentKey a) (rcvAEAD a) (sendAEAD a) (aeadOverhead a) (nextRcvAEAD a) (nextSendAEAD a) (nextRcvTrafficSecret a)
    (nextSendTrafficSecret a) (headerDecrypter a) (headerEncrypter a) (ua_version a).
Definition set_highest (pn : Z) (a : updatableAEAD) : updatableAEAD :=
  mkUpdatable (suite a) (keyPhase a) (largestAcked a) (firstPacketNumber a) (handshakeConfirmed a) (invalidPacketLimit a) (invalidPacketCount a)
    (prevRcvAEADExpiry a) (prevRcvAEAD a) (firstRcvdWithCurrentKey a) (firstSentWithCurrentKey a) pn (numRcvdWithCurrentKey a)
    (numSentWithCurrentKey a) (rcvAEAD a) (sendAEAD a) (aeadOverhead a) (nextRcvAEAD a) (nextSendAEAD a) (nextRcvTrafficSecret a)
    (nextSendTrafficSecret a) (headerDecrypter a) (headerEncrypter a) (ua_version a).
Definition set_acked (pn : Z) (a : updatableAEAD) : updatableAEAD :=
  mkUpdatable (suite a) (keyPhase a) pn (firstPacketNumber a) (handshakeConfirmed a) (invalidPacketLimit a) (invalidPacketCount a)
    (prevRcvAEADExpiry a) (prevRcvAEAD a) (firstRcvdWithCurrentKey a) (firstSentWithCurrentKey a) (highestRcvdPN a) (numRcvdWithCurrentKey a)
    (numSentWithCurrentKey a) (rcvAEAD a) (sendAEAD a) (aeadOverhead a) (nextRcvAEAD a) (nextSendAEAD a) (nextRcvTrafficSecret a)
    (nextSendTrafficSecret a) (headerDecrypter a) (headerEncrypter a) (ua_version a).
Definition SetHandshakeConfirmed (a : updatableAEAD) : updatableAEAD :=
  mkUpdatable (suite a) (keyPhase a) (largestAcked a) (firstPacketNumber a) true (invalidPacketLimit a) (invalidPacketCount a)
    (prevRcvAEADExpiry a) (prevRcvAEAD a) (firstRcvdWithCurrentKey a) (firstSentWithCurrentKey a) (highestRcvdPN a) (numRcvdWithCurrentKey a)
    (numSentWithCurrentKey a) (rcvAEAD a) (sendAEAD a) (aeadOverhead a) (nextRcvAEAD a) (nextSendAEAD a) (nextRcvTrafficSecret a)
    (nextSendTrafficSecret a) (headerDecrypter a) (headerEncrypter a) (ua_version a).

(** [*p] of a pointer that may be nil *)
Definition deref {A} (o : option A) : res A := match o with Some x => Ok x | None => Panic "nil pointer dereference" end.

Section aead.
Context `{Primitives}.

Definition getNextTrafficSecret (hash : Hash) (ts : bytes) : bytes := hkdfExpandLabel hash ts [] "quic ku" (Hash_Size hash).

Definition rollKeys : st updatableAEAD () :=
  _ ← st_modify (λ a, match prevRcvAEAD a with Some _ => set_prev (prevRcvAEAD a) 0 a | None => a end);
  _ ← st_modify (λ a, mkUpdatable (suite a) (u64 (keyPhase a + 1)) (largestAcked a) (firstPacketNumber a) (handshakeConfirmed a)
        (invalidPacketLimit a) (invalidPacketCount a) (prevRcvAEADExpiry a) (rcvAEAD a) InvalidPacketNumber InvalidPacketNumber (highestRcvdPN a) 0 0
        (nextRcvAEAD a) (nextSendAEAD a) (aeadOverhead a) (nextRcvAEAD a) (nextSendAEAD a) (nextRcvTrafficSecret a) (nextSendTrafficSecret a)
        (headerDecrypter a) (headerEncrypter a) (ua_version a));
  a ← st_get;
  s ← st_lift (deref (suite a));
  let rcvSecret := getNextTrafficSecret (suite_Hash s) (nextRcvTrafficSecret a) in
  let sendSecret := getNextTrafficSecret (suite_Hash s) (nextSendTrafficSecret a) in
  nextRcv ← st_lift (createAEAD s rcvSecret (ua_version a));
  nextSend ← st_lift (createAEAD s sendSecret (ua_version a));
  st_modify (λ a, mkUpdatable (suite a) (keyPhase a) (largestAcked a) (firstPacketNumber a) (handshakeConfirmed a)
        (invalidPacketLimit a) (invalidPacketCount a) (prevRcvAEADExpiry a) (prevRcvAEAD a) (firstRcvdWithCurrentKey a) (firstSentWithCurrentKey a)
        (highestRcvdPN a) (numRcvdWithCurrentKey a) (numSentWithCurrentKey a) (rcvAEAD a) (sendAEAD a) (aeadOverhead a)
        (Some nextRcv) (Some nextSend) rcvSecret sendSecret (headerDecrypter a) (headerEncrypter a) (ua_version a)).

Definition startKeyDropTimer (r : rtt.RTTStats) (now : Z) (a : updatableAEAD) : updatableAEAD :=
  set_prev (prevRcvAEAD a) (now + i64 (3 * rtt.PTO true r)) a.

Definition set_suite (s : cipherSuite) (limit : Z) (a : updatableAEAD) : updatableAEAD :=
  mkUpdatable (Some s) (keyPhase a) (largestAcked a) (firstPacketNumber a) (handshakeConfirmed a) limit (invalidPacketCount a)
    (prevRcvAEADExpiry a) (prevRcvAEAD a) (firstRcvdWithCurrentKey a) (firstSentWithCurrentKey a) (highestRcvdPN a) (numRcvdWithCurrentKey a)
    (numSentWithCurrentKey a) (rcvAEAD a) (sendAEAD a) xorNonce_Overhead (nextRcvAEAD a) (nextSendAEAD a) (nextRcvTrafficSecret a)
    (nextSendTrafficSecret a) (headerDecrypter a) (headerEncrypter a) (ua_version a).

Definition setAEADParameters (s : cipherSuite) : st updatableAEAD () :=
  if (suite_ID s =? TLS_AES_128_GCM_SHA256) || (suite_ID s =? TLS_AES_256_GCM_SHA384) then st_modify (set_suite s InvalidPacketLimitAES) else
  if suite_ID s =? TLS_CHACHA20_POLY1305_SHA256 then st_modify (set_suite s InvalidPacketLimitChaCha) else
  _ ← st_modify (λ a, set_suite s (invalidPacketLimit a) a); st_panic "unknown cipher suite".

Definition SetReadKey (s : cipherSuite) (trafficSecret : bytes) : st updatableAEAD () :=
  a ← st_get;
  rcv ← st_lift (createAEAD s trafficSecret (ua_version a));
  hp ← st_lift (newHeaderProtector s trafficSecret false (ua_version a));
  _ ← st_modify (λ a, mkUpdatable (suite a) (keyPhase a) (largestAcked a) (firstPacketNumber a) (handshakeConfirmed a) (invalidPacketLimit a)
        (invalidPacketCount a) (prevRcvAEADExpiry a) (prevRcvAEAD a) (firstRcvdWithCurrentKey a) (firstSentWithCurrentKey a) (highestRcvdPN a)
        (numRcvdWithCurrentKey a) (numSentWithCurrentKey a) (Some rcv) (sendAEAD a) (aeadOverhead a) (nextRcvAEAD a) (nextSendAEAD a)
        (nextRcvTrafficSecret a) (nextSendTrafficSecret a) (Some hp) (headerEncrypter a) (ua_version a));
  _ ← match suite a with None => setAEADParameters s | Some _ => mret tt end;
  let next := getNextTrafficSecret (suite_Hash s) trafficSecret in
  nextRcv ← st_lift (createAEAD s next (ua_version a));
  st_modify (λ a, mkUpdatable (suite a) (keyPhase a) (largestAcked a) (firstPacketNumber a) (handshakeConfirmed a) (invalidPacketLimit a)
        (invalidPacketCount a) (prevRcvAEADExpiry a) (prevRcvAEAD a) (firstRcvdWithCurrentKey a) (firstSentWithCurrentKey a) (highestRcvdPN a)
        (numRcvdWithCurrentKey a) (numSentWithCurrentKey a) (rcvAEAD a) (sendAEAD a) (aeadOverhead a) (Some nextRcv) (nextSendAEAD a)
        next (nextSendTrafficSecret a) (headerDecrypter a) (headerEncrypter a) (ua_version a)).

Definition SetWriteKey (s : cipherSuite) (trafficSecret : bytes) : st updatableAEAD () :=
  a ← st_get;
  send ← st_lift (createAEAD s trafficSecret (ua_version a));
  hp ← st_lift (newHeaderProtector s trafficSecret false (ua_version a));
  _ ← st_modify (λ a, mkUpdatable (suite a) (keyPhase a) (largestAcked a) (firstPacketNumber a) (handshakeConfirmed a) (invalidPacketLimit a)
        (invalidPacketCount a) (prevRcvAEADExpiry a) (prevRcvAEAD a) (firstRcvdWithCurrentKey a) (firstSentWithCurrentKey a) (highestRcvdPN a)
        (numRcvdWithCurrentKey a) (numSentWithCurrentKey a) (rcvAEAD a) (Some send) (aeadOverhead a) (nextRcvAEAD a) (nextSendAEAD a)
        (nextRcvTrafficSecret a) (nextSendTrafficSecret a) (headerDecrypter a) (Some hp) (ua_version a));
  _ ← match suite a with None => setAEADParameters s | Some _ => mret tt end;
  let next := getNextTrafficSecret (suite_Hash s) trafficSecret in
  nextSend ← st_lift (createAEAD s next (ua_version a));
  st_modify (λ a, mkUpdatable (suite a) (keyPhase a) (largestAcked a) (firstPacketNumber a) (handshakeConfirmed a) (invalidPacketLimit a)
        (invalidPacketCount a) (prevRcvAEADExpiry a) (prevRcvAEAD a) (firstRcvdWithCurrentKey a) (firstSentWithCurrentKey a) (highestRcvdPN a)
        (numRcvdWithCurrentKey a) (numSentWithCurrentKey a) (rcvAEAD a) (sendAEAD a) (aeadOverhead a) (nextRcvAEAD a) (Some nextSend)
        (nextRcvTrafficSecret a) next (headerDecrypter a) (headerEncrypter a) (ua_version a)).

Definition short_DecodePacketNumber (wirePN wirePNLen : Z) (a : updatableAEAD) : Z := DecodePacketNumber wirePNLen (highestRcvdPN a) wirePN.

(** [cipher.AEAD.Open], with its error replaced. *)
Definition aead_Open (k : xorNonceAEAD) (nonce src ad : bytes) : res bytes :=
  match xorNonce_Open k nonce src ad with Some dec => Ok dec | None => Err ErrDecryptionFailed end.

Definition dropExpired (rcvTime : Z) (a : updatableAEAD) : updatableAEAD :=
  match prevRcvAEAD a with
  | Some _ => if negb (prevRcvAEADExpiry a =? 0) && (prevRcvAEADExpiry a <? rcvTime) then set_prev None 0 a else a
  | None => a
  end.

(** The nonce is written to [a.nonceBuf], of 8 bytes once there is a cipher suite. *)
Definition open (r : rtt.RTTStats) (src : bytes) (rcvTime pn : Z) (kp : KeyPhaseBit) (ad : bytes) : st updatableAEAD bytes :=
  _ ← st_modify (dropExpired rcvTime);
  a ← st_get;
  _ ← st_lift (deref (suite a));
  let nonce := PutUint64 (u64 pn) in
  if negb (bool_decide (kp = KeyPhase_Bit (keyPhase a))) then
    if (0 <? keyPhase a) && (firstRcvdWithCurrentKey a =? InvalidPacketNumber) || (pn <? firstRcvdWithCurrentKey a) then
      match prevRcvAEAD a with
      | None => st_fail ErrKeysDropped
      | Some k => st_lift (aead_Open k nonce src ad)
      end
    else
      k ← st_lift (deref (nextRcvAEAD a));
      dec ← st_lift (aead_Open k nonce src ad);
      if (0 <? keyPhase a) && (firstSentWithCurrentKey a =? InvalidPacketNumber)
      then st_fail (TransportError KeyUpdateError 0 (ErrMsg "keys updated too quickly")) else
      _ ← rollKeys;
      _ ← st_modify (startKeyDropTimer r rcvTime);
      _ ← st_modify (λ a, set_rcvd pn (numRcvdWithCurrentKey a) a);
      mret dec
  else
    k ← st_lift (deref (rcvAEAD a));
    dec ← st_lift (aead_Open k nonce src ad);
    _ ← st_modify (λ a, set_rcvd (firstRcvdWithCurrentKey a) (u64 (numRcvdWithCurrentKey a + 1)) a);
    _ ← (if firstRcvdWithCurrentKey a =? InvalidPacketNumber then
           _ ← (if 0 <? keyPhase a then st_modify (startKeyDropTimer r rcvTime) else mret tt);
           st_modify (λ a, set_rcvd pn (numRcvdWithCurrentKey a) a)
         else mret tt);
    mret dec.

Definition Open (r : rtt.RTTStats) (src : bytes) (rcvTime pn : Z) (kp : KeyPhaseBit) (ad : bytes) : st updatableAEAD bytes := λ a,
  match open r src rcvTime pn kp ad a with
  | (Ok dec, a) => (Ok dec, set_highest (Z.max (highestRcvdPN a) pn) a)
  | (Err e, a) =>
      if bool_decide (e = ErrDecryptionFailed) then
        let a := set_invalid (u64 (invalidPacketCount a + 1)) a in
        (Err (if invalidPacketLimit a <=? invalidPacketCount a then TransportError AEADLimitReached 0 (ErrMsg "") else e), a)
      else (Err e, a)
  | (Panic m, a) => (Panic m, a)
  end.

Definition Seal (src : bytes) (pn : Z) (ad : bytes) : st updatableAEAD bytes :=
  _ ← st_modify (λ a, set_sent (if firstPacketNumber a =? InvalidPacketNumber then pn else firstPacketNumber a)
        (if firstSentWithCurrentKey a =? InvalidPacketNumber then pn else firstSentWithCurrentKey a) (u64 (numSentWithCurrentKey a + 1)) a);
  a ← st_get;
  _ ← st_lift (deref (suite a));
  k ← st_lift (deref (sendAEAD a));
  mret (xorNonce_Seal k (PutUint64 (u64 pn)) src ad).

Definition SetLargestAcked (pn : Z) : st updatableAEAD () :=
  a ← st_get;
  if negb (firstSentWithCurrentKey a =? InvalidPacketNumber) && (firstSentWithCurrentKey a <=? pn) && (numRcvdWithCurrentKey a =? 0)
  then st_fail (TransportError KeyUpdateError 0 (ErrMsg "received ACK for key phase, but peer didn't update keys"))
  else st_modify (set_acked pn).

Definition updateAllowed (a : updatableAEAD) : bool :=
  if negb (handshakeConfirmed a) then false else
  (keyPhase a =? 0) ||
  (negb (firstSentWithCurrentKey a =? InvalidPacketNumber) && negb (largestAcked a =? InvalidPacketNumber) && (firstSentWithCurrentKey a <=? largestAcked a)).

Definition shouldInitiateKeyUpdate (a : updatableAEAD) : bool :=
  if negb (updateAllowed a) then false else
  if (keyPhase a =? 0) && ((FirstKeyUpdateInterval <=? numRcvdWithCurrentKey a) || (FirstKeyUpdateInterval <=? numSentWithCurrentKey a)) then true else
  (KeyUpdateInterval <=? numRcvdWithCurrentKey a) || (KeyUpdateInterval <=? numSentWithCurrentKey a).

Definition KeyPhase : st updatableAEAD KeyPhaseBit :=
  a ← st_get;
  _ ← (if shouldInitiateKeyUpdate a then rollKeys else mret tt);
  a ← st_get;
  mret (KeyPhase_Bit (keyPhase a)).

Definition short_EncryptHeader (sample : bytes) (firstByte : Z) (hdrBytes : bytes) (a : updatableAEAD) : res (Z * bytes) :=
  hp ← deref (headerEncrypter a); hp_apply hp sample firstByte hdrBytes.
Definition short_DecryptHeader (sample : bytes) (firstByte : Z) (hdrBytes : bytes) (a : updatableAEAD) : res (Z * bytes) :=
  hp ← deref (headerDecrypter a); hp_apply hp sample firstByte hdrBytes.
End aead.

(** * The keys of the two directions *)

Section keys.
Context `{PrimitivesLaws} (s : cipherSuite) (v : Z) (secret : bool → bytes).

Definition secretOf (b : bool) (i : nat) : bytes := Nat.iter i (getNextTrafficSecret (suite_Hash s)) (secret b).

(** What endpoint [b] seals with in key phase [i]. *)
Definition keyOf (b : bool) (i : nat) : xorNonceAEAD :=
  match createAEAD s (secretOf b i) v with Ok k => k | _ => mkAEAD [] AESGCM [] end.

Lemma createAEAD_keyOf b i : createAEAD s (secretOf b i) v = Ok (keyOf b i).
Proof. unfold keyOf. by destruct (createAEAD_ok s (secretOf b i) v) as (a & -> & _). Qed.

(** Endpoint [b] in key phase [j]. *)
Record keyed (b : bool) (j : nat) (a : updatableAEAD) : Prop := {
  k_suite : suite a = Some s;
  k_version : ua_version a = v;
  k_phase : keyPhase a = Z.of_nat j;
  k_send : sendAEAD a = Some (keyOf b j);
  k_rcv : rcvAEAD a = Some (keyOf (negb b) j);
  k_nextSend : nextSendAEAD a = Some (keyOf b (S j));
  k_nextRcv : nextRcvAEAD a = Some (keyOf (negb b) (S j));
  k_sendSecret : nextSendTrafficSecret a = secretOf b (S j);
  k_rcvSecret : nextRcvTrafficSecret a = secretOf (negb b) (S j);
  k_prev k : prevRcvAEAD a = Some k → ∃ i, j = S i ∧ k = keyOf (negb b) i;
  k_limit : 2 ^ 36 ≤ invalidPacketLimit a;
}.

Lemma rollKeys_ok b j a : keyed b j a → Z.of_nat j < 2 ^ 63 → ∃ a', rollKeys a = (Ok tt, a') ∧ keyed b (S j) a' ∧
  firstRcvdWithCurrentKey a' = InvalidPacketNumber ∧ firstSentWithCurrentKey a' = InvalidPacketNumber ∧
  numRcvdWithCurrentKey a' = 0 ∧ numSentWithCurrentKey a' = 0 ∧ invalidPacketCount a' = invalidPacketCount a ∧ largestAcked a' = largestAcked a ∧
  prevRcvAEAD a' = Some (keyOf (negb b) j).
Proof.
  intros [] Hj. set (f := λ a, match prevRcvAEAD a with Some _ => set_prev (prevRcvAEAD a) 0 a | None => a end).
  assert (Hf : ∀ {A} (g : updatableAEAD → A), (∀ e, g (set_prev (prevRcvAEAD a) e a) = g a) → g (f a) = g a).
  { intros A g Hg. unfold f. destruct (prevRcvAEAD a); [apply Hg|done]. }
  unfold rollKeys. fold f. unfold mbind, st_bind, st_modify, st_get, st_lift. cbn [suite nextRcvTrafficSecret nextSendTrafficSecret ua_version].
  rewrite (Hf _ suite), k_suite0 by done. cbn [deref]. rewrite (Hf _ nextRcvTrafficSecret), (Hf _ nextSendTrafficSecret), (Hf _ ua_version) by done.
  rewrite k_version0, k_rcvSecret0, k_sendSecret0. change (getNextTrafficSecret (suite_Hash s) (secretOf (negb b) (S j))) with (secretOf (negb b) (S (S j))).
  change (getNextTrafficSecret (suite_Hash s) (secretOf b (S j))) with (secretOf b (S (S j))).
  rewrite !createAEAD_keyOf. eexists. split; [done|].
  split_and!; cbn; [|done..|by apply (Hf _ invalidPacketCount)|by apply (Hf _ largestAcked)|by rewrite (Hf _ rcvAEAD)].
  split; cbn; try done; rewrite ?(Hf _ suite), ?(Hf _ ua_version), ?(Hf _ nextSendAEAD), ?(Hf _ nextRcvAEAD), ?(Hf _ keyPhase), ?(Hf _ invalidPacketLimit) by done; try done.
  - rewrite k_phase0, u64_small by lia. lia.
  - rewrite (Hf _ rcvAEAD), k_rcv0 by done. intros k [= <-]. by eexists.
Qed.

(** Keys do not change with these. *)
Lemma keyed_same b j a a' : keyed b j a → suite a' = suite a → ua_version a' = ua_version a → keyPhase a' = keyPhase a → sendAEAD a' = sendAEAD a →
  rcvAEAD a' = rcvAEAD a → nextSendAEAD a' = nextSendAEAD a → nextRcvAEAD a' = nextRcvAEAD a → nextSendTrafficSecret a' = nextSendTrafficSecret a →
  nextRcvTrafficSecret a' = nextRcvTrafficSecret a → (prevRcvAEAD a' = prevRcvAEAD a ∨ prevRcvAEAD a' = None) → invalidPacketLimit a' = invalidPacketLimit a →
  keyed b j a'.
Proof.
  intros [] E1 E2 E3 E4 E5 E6 E7 E8 E9 E10 E11. split; try congruence.
  intros k Hk. apply k_prev0. destruct E10; congruence.
Qed.

Lemma dropExpired_keyed b j now a : keyed b j a → keyed b j (dropExpired now a).
Proof. intros Hk. unfold dropExpired. destruct (prevRcvAEAD a) eqn:E; [|done]. destruct (_ && _); [|done]. eapply keyed_same; try done. by right. Qed.

(** Whether the previous receive keys are still there at a time. *)
Definition prevKept (now : Z) (a : updatableAEAD) : bool :=
  match prevRcvAEAD a with Some _ => (prevRcvAEADExpiry a =? 0) || (now <=? prevRcvAEADExpiry a) | None => false end.

Lemma dropExpired_prev now a : prevRcvAEAD (dropExpired now a) = if prevKept now a then prevRcvAEAD a else None.
Proof.
  unfold dropExpired, prevKept. destruct (prevRcvAEAD a) eqn:E; [|done]. destruct (Z.eqb_spec (prevRcvAEADExpiry a) 0); cbn; [done|].
  destruct (Z.ltb_spec (prevRcvAEADExpiry a) now); destruct (Z.leb_spec now (prevRcvAEADExpiry a)); cbn; try done; lia.
Qed.

Lemma dropExpired_rest now a : let a' := dropExpired now a in
  firstRcvdWithCurrentKey a' = firstRcvdWithCurrentKey a ∧ firstSentWithCurrentKey a' = firstSentWithCurrentKey a ∧
  numRcvdWithCurrentKey a' = numRcvdWithCurrentKey a ∧ invalidPacketCount a' = invalidPacketCount a ∧ largestAcked a' = largestAcked a.
Proof. cbv zeta. unfold dropExpired. destruct (prevRcvAEAD a); [|done]. by destruct (_ && _). Qed.

(** ** Packets that arrive *)

Definition sealedWith (b : bool) (i : nat) (pn : Z) (plain ad : bytes) : bytes := xorNonce_Seal (keyOf b i) (PutUint64 (u64 pn)) plain ad.
Definition bitOf (i : nat) : KeyPhaseBit := KeyPhase_Bit (Z.of_nat i).

Lemma bitOf_eq i j : bitOf i = bitOf j ↔ Nat.even i = Nat.even j.
Proof.
  unfold bitOf, KeyPhase_Bit. assert (E : ∀ k, (Z.of_nat k mod 2 =? 0) = Nat.even k).
  { intros k. destruct (Nat.even k) eqn:Ek.
    - apply Nat.even_spec in Ek as [m ->]. apply Z.eqb_eq. rewrite Nat2Z.inj_mul, Z.mul_comm. apply Z.mod_mul. lia.
    - assert (Nat.odd k = true) as [m ->]%Nat.odd_spec by (unfold Nat.odd; by rewrite Ek).
      apply Z.eqb_neq. rewrite Nat2Z.inj_add, Nat2Z.inj_mul. rewrite Z.add_comm, Z.mul_comm, Z.mod_add by lia. done. }
  rewrite !E. destruct (Nat.even i), (Nat.even j); split; done.
Qed.

(** Packets sealed with the keys of one phase are not authentic for those of another. *)
Definition keys_distinct : Prop := ∀ b i j pn plain ad, i ≠ j → Z.of_nat i < 2 ^ 32 → Z.of_nat j < 2 ^ 32 →
  xorNonce_Open (keyOf b i) (PutUint64 (u64 pn)) (sealedWith b j pn plain ad) ad = None.

Lemma Open_ok r src now pn kp ad a dec a' : open r src now pn kp ad a = (Ok dec, a') →
  Open r src now pn kp ad a = (Ok dec, set_highest (Z.max (highestRcvdPN a') pn) a').
Proof. intros E. unfold Open. by rewrite E. Qed.

(** What opening leaves unless the keys are rolled. *)
Definition rest_same (a a' : updatableAEAD) : Prop :=
  firstSentWithCurrentKey a' = firstSentWithCurrentKey a ∧ invalidPacketCount a' = invalidPacketCount a ∧ largestAcked a' = largestAcked a.

(** A packet of the current key phase. *)
Lemma open_current r b j now pn plain ad a : keyed b j a → ∃ a',
  open r (sealedWith (negb b) j pn plain ad) now pn (bitOf j) ad a = (Ok plain, a') ∧ keyed b j a' ∧ rest_same a a' ∧
  numRcvdWithCurrentKey a' = u64 (numRcvdWithCurrentKey a + 1) ∧
  firstRcvdWithCurrentKey a' = (if firstRcvdWithCurrentKey a =? InvalidPacketNumber then pn else firstRcvdWithCurrentKey a).
Proof.
  intros Hk%(dropExpired_keyed b j now). destruct (dropExpired_rest now a) as (E1 & E2 & E3 & E4 & E5). unfold rest_same. rewrite <- E1, <- E2, <- E3, <- E4, <- E5.
  unfold open, mbind, st_bind, st_modify, st_get, st_lift. set (a1 := dropExpired now a) in *. clearbody a1. clear E1 E2 E3 E4 E5 a. rename a1 into a.
  pose proof Hk as []. rewrite k_suite0. cbn [deref]. rewrite k_phase0. unfold bitOf at 1. rewrite bool_decide_true by done. cbn [negb].
  rewrite k_rcv0. cbn [deref]. unfold aead_Open, sealedWith. rewrite xorNonce_roundtrip.
  destruct (firstRcvdWithCurrentKey a =? InvalidPacketNumber); [destruct (0 <? Z.of_nat j)|]; (eexists; split; [done|]); split_and!; cbn; try done;
    (eapply keyed_same; [exact Hk|..]; by auto).
Qed.

(** A packet of the next key phase makes the endpoint follow. *)
Lemma open_next r b j now pn plain ad a : keyed b j a → Z.of_nat j < 2 ^ 63 →
  ((0 < j)%nat → firstSentWithCurrentKey a ≠ InvalidPacketNumber ∧ firstRcvdWithCurrentKey a ≠ InvalidPacketNumber) → firstRcvdWithCurrentKey a ≤ pn → ∃ a',
  open r (sealedWith (negb b) (S j) pn plain ad) now pn (bitOf (S j)) ad a = (Ok plain, a') ∧ keyed b (S j) a' ∧
  firstSentWithCurrentKey a' = InvalidPacketNumber ∧ firstRcvdWithCurrentKey a' = pn ∧ numRcvdWithCurrentKey a' = 0 ∧
  invalidPacketCount a' = invalidPacketCount a ∧ largestAcked a' = largestAcked a.
Proof.
  intros Hk%(dropExpired_keyed b j now) Hj. destruct (dropExpired_rest now a) as (E1 & E2 & E3 & E4 & E5). rewrite <- E1, <- E2, <- E4, <- E5.
  unfold open, mbind, st_bind, st_modify, st_get, st_lift. set (a1 := dropExpired now a) in *. clearbody a1. clear E1 E2 E3 E4 E5 a. rename a1 into a.
  intros Hnot Hpn. pose proof Hk as []. rewrite k_suite0. cbn [deref]. rewrite k_phase0, bool_decide_false.
  2:{ intros E. apply (bitOf_eq (S j) j) in E. rewrite Nat.even_succ, <- Nat.negb_even in E. by destruct (Nat.even j). }
  cbn [negb]. assert (E : (0 <? Z.of_nat j) && (firstRcvdWithCurrentKey a =? InvalidPacketNumber) || (pn <? firstRcvdWithCurrentKey a) = false).
  { rewrite (proj2 (Z.ltb_ge _ _) Hpn), orb_false_r. destruct (Z.ltb_spec 0 (Z.of_nat j)); [|done]. apply Z.eqb_neq, Hnot. lia. }
  rewrite E, k_nextRcv0. cbn [deref]. unfold aead_Open, sealedWith. rewrite xorNonce_roundtrip.
  assert (E' : (0 <? Z.of_nat j) && (firstSentWithCurrentKey a =? InvalidPacketNumber) = false).
  { destruct (Z.ltb_spec 0 (Z.of_nat j)); [|done]. apply Z.eqb_neq, Hnot. lia. }
  rewrite E'. destruct (rollKeys_ok b j a Hk Hj) as (a' & -> & Hk' & H1 & H2 & H3 & H4 & H5 & H6 & H7).
  eexists. split; [done|]. split_and!; cbn; try done. eapply keyed_same; [exact Hk'|..]; by auto.
Qed.

(** A packet of an earlier key phase. *)
Lemma open_old r b i j now pn plain ad a : keys_distinct → keyed b j a → (i < j)%nat → Z.of_nat j < 2 ^ 32 →
  firstRcvdWithCurrentKey a = InvalidPacketNumber ∨ pn < firstRcvdWithCurrentKey a → ∃ a' res,
  open r (sealedWith (negb b) i pn plain ad) now pn (bitOf i) ad a = (res, a') ∧ keyed b j a' ∧ rest_same a a' ∧
  numRcvdWithCurrentKey a' = numRcvdWithCurrentKey a ∧ firstRcvdWithCurrentKey a' = firstRcvdWithCurrentKey a ∧
  (if bool_decide (j = S i) then res = if prevKept now a then Ok plain else Err ErrKeysDropped
   else res = Err ErrDecryptionFailed ∨ res = Err ErrKeysDropped).
Proof.
  intros Hd Hk0 Hij Hj. pose proof (dropExpired_prev now a) as Hprev. pose proof (k_prev _ _ _ Hk0) as Hkp. pose proof (dropExpired_keyed b j now a Hk0) as Hk.
  destruct (dropExpired_rest now a) as (E1 & E2 & E3 & E4 & E5). unfold rest_same. rewrite <- E1, <- E2, <- E3, <- E4, <- E5.
  unfold open, mbind, st_bind, st_modify, st_get, st_lift. set (a1 := dropExpired now a) in *. clearbody a1. clear E1 E2 E3 E4 E5.
  intros Hpn. pose proof Hk as []. rewrite k_suite0. cbn [deref]. rewrite k_phase0. exists a1. destruct (decide (bitOf i = bitOf j)) as [E|E].
  - rewrite bool_decide_true by done. cbn [negb]. rewrite k_rcv0. cbn [deref]. unfold aead_Open. rewrite Hd by lia.
    eexists. split; [done|]. split_and!; try done. rewrite bool_decide_false; [by left|]. intros ->. apply bitOf_eq in E. rewrite Nat.even_succ, <- Nat.negb_even in E.
    by destruct (Nat.even i).
  - rewrite bool_decide_false by done. cbn [negb].
    assert (E' : (0 <? Z.of_nat j) && (firstRcvdWithCurrentKey a1 =? InvalidPacketNumber) || (pn <? firstRcvdWithCurrentKey a1) = true).
    { destruct Hpn as [->|Hpn]; [rewrite (proj2 (Z.ltb_lt 0 _)) by lia; done|]. by rewrite (proj2 (Z.ltb_lt _ _) Hpn), orb_true_r. }
    rewrite E'. destruct (prevRcvAEAD a1) as [k|] eqn:Ep.
    + assert (Hkept : prevKept now a = true) by (by destruct (prevKept now a)). rewrite Hkept in *. destruct (k_prev0 k eq_refl) as (i' & -> & ->).
      eexists. split; [done|]. split_and!; try done. unfold aead_Open. destruct (decide (i = i')) as [->|Hne].
      * rewrite bool_decide_true by done. unfold sealedWith. by rewrite xorNonce_roundtrip.
      * rewrite bool_decide_false by lia. rewrite Hd by lia. by left.
    + eexists. split; [done|]. split_and!; try done. destruct (bool_decide_reflect (j = S i)) as [->|_]; [|by right].
      destruct (prevKept now a) eqn:Ekept; [|done]. unfold prevKept in Ekept. by rewrite <- Hprev in Ekept.
Qed.

(** A packet that was not sealed by the peer. *)
Lemma open_forged r b j now src pn kp ad a : keyed b j a → Z.of_nat (S j) < 2 ^ 32 →
  (∀ i, Z.of_nat i < 2 ^ 32 → xorNonce_Open (keyOf (negb b) i) (PutUint64 (u64 pn)) src ad = None) → ∃ a' e,
  open r src now pn kp ad a = (Err e, a') ∧ keyed b j a' ∧ rest_same a a' ∧ numRcvdWithCurrentKey a' = numRcvdWithCurrentKey a ∧
  firstRcvdWithCurrentKey a' = firstRcvdWithCurrentKey a ∧ (e = ErrDecryptionFailed ∨ e = ErrKeysDropped).
Proof.
  intros Hk%(dropExpired_keyed b j now) Hj Hf. destruct (dropExpired_rest now a) as (E1 & E2 & E3 & E4 & E5). unfold rest_same. rewrite <- E1, <- E2, <- E3, <- E4, <- E5.
  unfold open, mbind, st_bind, st_modify, st_get, st_lift. set (a1 := dropExpired now a) in *. clearbody a1. clear E1 E2 E3 E4 E5 a. rename a1 into a.
  pose proof Hk as []. rewrite k_suite0. cbn [deref]. exists a. destruct (bool_decide _); cbn [negb].
  - rewrite k_rcv0. cbn [deref]. unfold aead_Open. rewrite Hf by lia. eexists. split; [done|]. split_and!; try done. by left.
  - destruct (_ || _).
    + destruct (prevRcvAEAD a) as [k|] eqn:Ep; [|eexists; split; [done|]; split_and!; try done; by right].
      destruct (k_prev0 k eq_refl) as (i & -> & ->). unfold aead_Open. rewrite Hf by lia. eexists. split; [done|]. split_and!; try done. by left.
    + rewrite k_nextRcv0. cbn [deref]. unfold aead_Open. rewrite Hf by lia. eexists. split; [done|]. split_and!; try done. by left.
Qed.
End keys.

(** * Two endpoints

    A packet in flight with the key phase it was sealed in and the largest packet
    number it acknowledges, if it carries an ACK. *)

Record sealed := mkSealed { s_pn : Z; s_kp : KeyPhaseBit; s_phase : nat; s_plain : bytes; s_ad : bytes; s_bytes : bytes; s_ack : option Z }.
Record endpoint := mkEnd { aead_of : updatableAEAD; sent : list sealed; opened : list Z }.
Definition system : Type := bool → endpoint.
Definition upd (b : bool) (e : endpoint) (y : system) : system := λ c, if Bool.eqb c b then e else y c.

Section system.
Context `{PrimitivesLaws} (s : cipherSuite) (v : Z) (secret : bool → bytes).
Local Abbreviation keyOf := (keyOf s v secret).
Local Abbreviation keyed := (keyed s v secret).
Local Abbreviation sealedWith := (sealedWith s v secret).
Local Abbreviation keys_distinct := (keys_distinct s v secret).

(** [Open] of a packet, then [SetLargestAcked] for its ACK frame if that is
    processed. *)
Definition receive (r : rtt.RTTStats) (now : Z) (p : sealed) (a : updatableAEAD) : res bytes * updatableAEAD :=
  Open r (s_bytes p) now (s_pn p) (s_kp p) (s_ad p) a.
Definition acknowledge (p : sealed) (a : updatableAEAD) : res () * updatableAEAD :=
  match s_ack p with Some q => SetLargestAcked q a | None => (Ok tt, a) end.
Definition received (p : sealed) (r : res bytes) (a : updatableAEAD) (processed : bool) (e : endpoint) : endpoint :=
  match r with
  | Ok _ => mkEnd (if processed then (acknowledge p a).2 else a) (sent e) (s_pn p :: opened e)
  | _ => mkEnd a (sent e) (opened e)
  end.

(** Packet numbers increase; an ACK is about packets that were opened.  The
    network delivers packets in any order, several times or never, and packets
    that open with no key of the peer. *)
Inductive ku_step : system → system → Prop :=
| ku_phase y b kp a : KeyPhase (aead_of (y b)) = (Ok kp, a) → ku_step y (upd b (mkEnd a (sent (y b)) (opened (y b))) y)
| ku_seal y b kp a1 a2 pn plain ad ack c : Forall (λ p, s_pn p < pn) (sent (y b)) → 0 ≤ pn → (∀ q, ack = Some q → q ∈ opened (y b)) →
    KeyPhase (aead_of (y b)) = (Ok kp, a1) → Seal plain pn ad a1 = (Ok c, a2) →
    ku_step y (upd b (mkEnd a2 (sent (y b) ++ [mkSealed pn kp (Z.to_nat (keyPhase a2)) plain ad c ack]) (opened (y b))) y)
| ku_deliver y b p r now processed res a : p ∈ sent (y (negb b)) → receive r now p (aead_of (y b)) = (res, a) →
    ku_step y (upd b (received p res a processed (y b)) y)
| ku_forged y b r now src pn kp ad res a :
    (∀ i, Z.of_nat i < 2 ^ 32 → xorNonce_Open (keyOf (negb b) i) (PutUint64 (u64 pn)) src ad = None) →
    Open r src now pn kp ad (aead_of (y b)) = (res, a) → ku_step y (upd b (mkEnd a (sent (y b)) (opened (y b))) y)
| ku_confirm y b : ku_step y (upd b (mkEnd (SetHandshakeConfirmed (aead_of (y b))) (sent (y b)) (opened (y b))) y).

(** The client ([true]) installs its read key first, the server its write key. *)
Definition started (b : bool) : res () * updatableAEAD :=
  (if b then _ ← SetReadKey s (secret (negb b)); SetWriteKey s (secret b)
   else _ ← SetWriteKey s (secret b); SetReadKey s (secret (negb b))) (newUpdatableAEAD v).

Inductive ku_reach : nat → system → Prop :=
| kr_initial : ku_reach 0 (λ b, mkEnd (started b).2 [] [])
| kr_step n y y' : ku_reach n y → ku_step y y' → ku_reach (S n) y'.

(** ** The invariant of an endpoint and its peer *)

Record einv (n : nat) (b : bool) (j j' : nat) (e e' : endpoint) : Prop := {
  ei_keyed : keyed b j (aead_of e);
  ei_steps : (j ≤ n)%nat;
  ei_counts : 0 ≤ invalidPacketCount (aead_of e) ≤ Z.of_nat n ∧ 0 ≤ numRcvdWithCurrentKey (aead_of e) ≤ Z.of_nat n;
  ei_sealed p : p ∈ sent e → 0 ≤ s_pn p ∧ s_kp p = bitOf (s_phase p) ∧ s_bytes p = sealedWith b (s_phase p) (s_pn p) (s_plain p) (s_ad p) ∧ (s_phase p ≤ j)%nat;
  ei_acks p q : p ∈ sent e → s_ack p = Some q → q ∈ opened e ∧ ∃ p', p' ∈ sent e' ∧ s_pn p' = q ∧ (s_phase p' ≤ s_phase p)%nat;
  ei_order p q : p ∈ sent e → q ∈ sent e → s_pn p ≤ s_pn q → (s_phase p ≤ s_phase q)%nat;
  ei_firstSent : let f := firstSentWithCurrentKey (aead_of e) in
    f = InvalidPacketNumber ∧ (∀ p, p ∈ sent e → s_phase p ≠ j) ∨ f ≠ InvalidPacketNumber ∧ ∃ p, p ∈ sent e ∧ s_pn p = f ∧ s_phase p = j;
  ei_firstRcvd : let f := firstRcvdWithCurrentKey (aead_of e) in
    f = InvalidPacketNumber ∨ f ≠ InvalidPacketNumber ∧ ∃ p, p ∈ sent e' ∧ s_pn p = f ∧ s_phase p = j;
  ei_opened q : q ∈ opened e → ∃ p, p ∈ sent e' ∧ s_pn p = q ∧ (s_phase p ≤ j)%nat ∧ (s_phase p = j → firstRcvdWithCurrentKey (aead_of e) ≠ InvalidPacketNumber);
  ei_acked : largestAcked (aead_of e) = InvalidPacketNumber ∨ ∃ p, p ∈ sent e' ∧ s_ack p = Some (largestAcked (aead_of e));
  ei_ahead : (j ≤ S j')%nat;
  ei_behind : j' = S j → (0 < j)%nat →
    firstSentWithCurrentKey (aead_of e) ≠ InvalidPacketNumber ∧ firstRcvdWithCurrentKey (aead_of e) ≠ InvalidPacketNumber;
}.

Lemma einv_mono n n' b j j' e e' : (n ≤ n')%nat → einv n b j j' e e' → einv n' b j j' e e'.
Proof. intros Hn []. split; try done; lia. Qed.

(** What the peer does. *)
Lemma einv_peer n b j j1 j2 e e1 e2 : einv n b j j1 e e1 → (∀ p, p ∈ sent e1 → p ∈ sent e2) → (j1 ≤ j2)%nat →
  (j2 = S j → (0 < j)%nat → firstSentWithCurrentKey (aead_of e) ≠ InvalidPacketNumber ∧ firstRcvdWithCurrentKey (aead_of e) ≠ InvalidPacketNumber) →
  einv n b j j2 e e2.
Proof.
  intros [] Hsub Hj Hb. split; try done; try lia.
  - intros p q Hp Hq. destruct (ei_acks0 p q Hp Hq) as (? & p' & ? & ?). split; [done|]. exists p'. auto.
  - destruct ei_firstRcvd0 as [|(? & p & ? & ?)]; [by left|right]. split; [done|]. exists p. auto.
  - intros q Hq. destruct (ei_opened0 q Hq) as (p & ? & ?). exists p. auto.
  - destruct ei_acked0 as [|(p & ? & ?)]; [by left|right]. exists p. auto.
Qed.

(** An acknowledged packet of the current key phase was opened by the peer, which
    has sent a packet in this phase since. *)
Lemma acked_current n b j j' e e' : einv n b j j' e e' → einv n (negb b) j' j e' e → firstSentWithCurrentKey (aead_of e) ≠ InvalidPacketNumber →
  largestAcked (aead_of e) ≠ InvalidPacketNumber → firstSentWithCurrentKey (aead_of e) ≤ largestAcked (aead_of e) →
  (j ≤ j')%nat ∧ (j' = j → firstSentWithCurrentKey (aead_of e') ≠ InvalidPacketNumber ∧ firstRcvdWithCurrentKey (aead_of e') ≠ InvalidPacketNumber).
Proof.
  intros Hi Hi' Hf Hl Hle. destruct (ei_acked _ _ _ _ _ _ Hi) as [|(p & Hp & Ha)]; [done|].
  destruct (ei_acks _ _ _ _ _ _ Hi' p _ Hp Ha) as (Ho & p' & Hp' & Epn & Hph).
  destruct (ei_firstSent _ _ _ _ _ _ Hi) as [[? _]|(_ & p0 & Hp0 & E0 & Eph0)]; [done|].
  pose proof (ei_order _ _ _ _ _ _ Hi p0 p' Hp0 Hp' ltac:(lia)). destruct (ei_sealed _ _ _ _ _ _ Hi p' Hp') as (_ & _ & _ & ?).
  destruct (ei_sealed _ _ _ _ _ _ Hi' p Hp) as (_ & _ & _ & ?). split; [lia|]. intros ->.
  destruct (ei_opened _ _ _ _ _ _ Hi' _ Ho) as (p2 & Hp2 & E2 & _ & Hr).
  pose proof (ei_order _ _ _ _ _ _ Hi p' p2 Hp' Hp2 ltac:(lia)). pose proof (ei_order _ _ _ _ _ _ Hi p2 p' Hp2 Hp' ltac:(lia)). split.
  - destruct (ei_firstSent _ _ _ _ _ _ Hi') as [[_ Hn]|[? _]]; [|done]. exfalso. apply (Hn p Hp). lia.
  - apply Hr. lia.
Qed.

(** [KeyPhase] at [b], before a packet is sealed or on its own. *)
Lemma KeyPhase_inv n b j j' e e' : einv n b j j' e e' → einv n (negb b) j' j e' e → Z.of_nat n < 2 ^ 32 - 1 →
  ∃ a j1, KeyPhase (aead_of e) = (Ok (bitOf j1), a) ∧ (j ≤ j1)%nat ∧ einv (S n) b j1 j' (mkEnd a (sent e) (opened e)) e' ∧
    einv (S n) (negb b) j' j1 e' (mkEnd a (sent e) (opened e)) ∧
    (updateAllowed a = true → numSentWithCurrentKey a < KeyUpdateInterval ∧ numRcvdWithCurrentKey a < KeyUpdateInterval).
Proof.
  intros Hi Hi' Hn. unfold KeyPhase, mbind, st_bind, st_get, mret, st_ret. destruct (shouldInitiateKeyUpdate (aead_of e)) eqn:Es.
  - destruct (rollKeys_ok s v secret b j (aead_of e)) as (a & E & Hk & H1 & H2 & H3 & H4 & H5 & H6 & H7); [apply Hi|destruct Hi; lia|].
    rewrite E. exists a, (S j). rewrite (k_phase _ _ _ _ _ _ Hk). split; [done|]. split; [lia|].
    assert (Hall : (j ≤ j')%nat ∧ (j' = j → (0 < j)%nat → firstSentWithCurrentKey (aead_of e') ≠ InvalidPacketNumber ∧ firstRcvdWithCurrentKey (aead_of e') ≠ InvalidPacketNumber)).
    { unfold shouldInitiateKeyUpdate in Es. destruct (updateAllowed (aead_of e)) eqn:Eu; [|done]. unfold updateAllowed in Eu.
      destruct (handshakeConfirmed (aead_of e)); [|done]. cbn [negb] in Eu. pose proof (k_phase _ _ _ _ _ _ (ei_keyed _ _ _ _ _ _ Hi)) as Ek. rewrite Ek in Eu.
      apply orb_true_iff in Eu as [E0%Z.eqb_eq|[[E1%negb_true_iff%Z.eqb_neq E2%negb_true_iff%Z.eqb_neq]%andb_true_iff E3%Z.leb_le]%andb_true_iff]; [split; [lia|intros; lia]|].
      destruct (acked_current n b j j' e e' Hi Hi' E1 E2 E3) as [? Hc]. split; [done|]. auto. }
    destruct Hall as [Hle Hback]. pose proof Hi as []. split_and!.
    + split; cbn [aead_of sent opened]; try done; try lia.
      * intros p Hp. destruct (ei_sealed0 p Hp) as (? & ? & ? & ?). split_and!; try done. lia.
      * left. split; [done|]. intros p Hp. destruct (ei_sealed0 p Hp) as (? & ? & ? & ?). lia.
      * intros q Hq. destruct (ei_opened0 q Hq) as (p & ? & ? & ? & ?). exists p. split_and!; try done; lia.
      * rewrite H6. done.
      * intros ->. pose proof (ei_ahead _ _ _ _ _ _ Hi'). lia.
    + apply (einv_mono n); [lia|]. eapply einv_peer; [exact Hi'|done|lia|]. intros [= ->]. auto.
    + rewrite H3, H4. done.
  - exists (aead_of e), j. rewrite (k_phase _ _ _ _ _ _ (ei_keyed _ _ _ _ _ _ Hi)). split; [done|]. split; [lia|]. split_and!.
    + apply (einv_mono n); [lia|]. pose proof Hi as []. by split.
    + apply (einv_mono n); [lia|]. pose proof Hi' as []. by eapply einv_peer.
    + intros Hu. unfold shouldInitiateKeyUpdate in Es. rewrite Hu in Es. cbn [negb] in Es. destruct (_ && _); [done|].
      apply orb_false_iff in Es as [?%Z.leb_gt ?%Z.leb_gt]. lia.
Qed.

(** [Seal] after [KeyPhase]. *)
Lemma Seal_inv n b j j' e e' pn plain ad ack : einv n b j j' e e' → einv n (negb b) j' j e' e → Forall (λ p, s_pn p < pn) (sent e) → 0 ≤ pn →
  (∀ q, ack = Some q → q ∈ opened e) → ∃ a, Seal plain pn ad (aead_of e) = (Ok (sealedWith b j pn plain ad), a) ∧ keyPhase a = Z.of_nat j ∧
    let e1 := mkEnd a (sent e ++ [mkSealed pn (bitOf j) j plain ad (sealedWith b j pn plain ad) ack]) (opened e) in
    einv n b j j' e1 e' ∧ einv n (negb b) j' j e' e1.
Proof.
  intros Hi Hi' Hpn Hpos Hack. pose proof Hi as []. pose proof ei_keyed0 as []. unfold Seal, mbind, st_bind, st_modify, st_get, st_lift, mret, st_ret.
  cbn [suite set_sent sendAEAD]. rewrite k_suite0, k_send0. cbn [deref]. eexists. split; [done|]. split; [done|]. rewrite Forall_forall in Hpn.
  set (np := mkSealed _ _ _ _ _ _ _). cbv zeta. split.
  - split; cbn [aead_of sent opened]; try done.
    + intros p [Hp| ->%list_elem_of_singleton]%elem_of_app; [auto|]. cbn. split_and!; try done; lia.
    + intros p q [Hp| ->%list_elem_of_singleton]%elem_of_app Hq; [by auto|]. cbn in *. split; [auto|].
      destruct (ei_opened0 q (Hack q Hq)) as (p' & ? & ? & ? & ?). by exists p'.
    + intros p q [Hp| ->%list_elem_of_singleton]%elem_of_app [Hq| ->%list_elem_of_singleton]%elem_of_app; cbn.
      * auto.
      * intros _. by apply ei_sealed0.
      * intros Hle. specialize (Hpn q Hq). cbn in *. lia.
      * done.
    + cbn. destruct ei_firstSent0 as [[E Hn]|(E & p & Hp & E1 & E2)]; cbn in *.
      * rewrite E, Z.eqb_refl. right. split; [unfold InvalidPacketNumber; lia|]. exists np. split; [|done]. apply elem_of_app. right. by apply list_elem_of_singleton.
      * rewrite (proj2 (Z.eqb_neq _ _) E). right. split; [done|]. exists p. split; [|done]. apply elem_of_app. by left.
    + cbn. intros Hj1 Hj2. destruct (ei_behind0 Hj1 Hj2) as [Hf ?]. by rewrite (proj2 (Z.eqb_neq _ _) Hf).
  - eapply einv_peer; [exact Hi'| |done|by destruct Hi']. intros p Hp. cbn. apply elem_of_app. by left.
Qed.

(** A packet was opened, or not, without rolling the keys. *)
Lemma einv_open n b j j' e e' a' os : einv n b j j' e e' → einv n (negb b) j' j e' e → keyed b j a' →
  firstSentWithCurrentKey a' = firstSentWithCurrentKey (aead_of e) → largestAcked a' = largestAcked (aead_of e) →
  0 ≤ invalidPacketCount a' ≤ Z.of_nat (S n) → 0 ≤ numRcvdWithCurrentKey a' ≤ Z.of_nat (S n) →
  (firstRcvdWithCurrentKey a' = firstRcvdWithCurrentKey (aead_of e) ∨ ∃ p, p ∈ sent e' ∧ s_pn p = firstRcvdWithCurrentKey a' ∧ s_phase p = j) →
  (∀ q, q ∈ opened e → q ∈ os) →
  (∀ q, q ∈ os → q ∈ opened e ∨ ∃ p, p ∈ sent e' ∧ s_pn p = q ∧ (s_phase p ≤ j)%nat ∧ (s_phase p = j → firstRcvdWithCurrentKey a' ≠ InvalidPacketNumber)) →
  einv (S n) b j j' (mkEnd a' (sent e) os) e' ∧ einv (S n) (negb b) j' j e' (mkEnd a' (sent e) os).
Proof.
  intros Hi Hi' Hk E1 E2 Hc1 Hc2 Hf Hos1 Hos2. split.
  2:{ apply (einv_mono n); [lia|]. eapply einv_peer; [exact Hi'|done|done|by destruct Hi']. }
  pose proof Hi as []. assert (Hinv : ∀ p, p ∈ sent e' → s_pn p ≠ InvalidPacketNumber).
  { intros p Hp. destruct (ei_sealed _ _ _ _ _ _ Hi' p Hp) as [? _]. unfold InvalidPacketNumber. lia. }
  assert (Hkeep : firstRcvdWithCurrentKey (aead_of e) ≠ InvalidPacketNumber → firstRcvdWithCurrentKey a' ≠ InvalidPacketNumber).
  { intros Hne. destruct Hf as [->|(p & Hp & <- & _)]; [done|]. by apply Hinv. }
  split; cbn [aead_of sent opened]; try done; try lia.
  - intros p q Hp Hq. destruct (ei_acks0 p q Hp Hq) as [? ?]. split; [by apply Hos1|done].
  - by rewrite E1.
  - destruct Hf as [->|(p & Hp & Ep & Hph)]; [done|]. right. split; [rewrite <- Ep; by apply Hinv|]. by exists p.
  - intros q Hq. destruct (Hos2 q Hq) as [Ho|Ho]; [|done]. destruct (ei_opened0 q Ho) as (p & ? & ? & ? & ?). exists p. split_and!; auto.
  - by rewrite E2.
Qed.

(** The ACK of an opened packet. *)
Lemma acknowledge_inv n b j j' a st os e' p : einv n b j j' (mkEnd a st os) e' → einv n (negb b) j' j e' (mkEnd a st os) → p ∈ sent e' →
  (∀ q, s_ack p = Some q → numRcvdWithCurrentKey a ≠ 0 ∨ firstSentWithCurrentKey a = InvalidPacketNumber ∨ q < firstSentWithCurrentKey a) →
  ∃ a', acknowledge p a = (Ok tt, a') ∧ einv n b j j' (mkEnd a' st os) e' ∧ einv n (negb b) j' j e' (mkEnd a' st os).
Proof.
  intros Hi Hi' Hp Hq. unfold acknowledge. destruct (s_ack p) as [q|] eqn:Ea; [|by exists a]. specialize (Hq q eq_refl).
  unfold SetLargestAcked, mbind, st_bind, st_get. replace (_ && _ && _) with false; [exists (set_acked q a); split; [done|]|].
  - split; [|by apply (einv_peer _ _ _ j _ _ _ _ Hi'); [| |by destruct Hi']]. destruct Hi. cbn in *. split; cbn; try done.
    + by eapply keyed_same; [exact ei_keyed0|..]; try done; left.
    + right. by exists p.
  - symmetry. destruct Hq as [Hq|[Hq|Hq]].
    + rewrite (proj2 (Z.eqb_neq _ _) Hq). apply andb_false_r.
    + by rewrite Hq.
    + rewrite (proj2 (Z.leb_gt _ _) Hq). by rewrite andb_false_r.
Qed.

(** What a packet of the peer is opened to, in key phase [j]. *)
Definition opens_to (now : Z) (j : nat) (p : sealed) (a : updatableAEAD) (r : res bytes) : Prop :=
  if (j <=? s_phase p)%nat then r = Ok (s_plain p)
  else if (j =? S (s_phase p))%nat then r = if prevKept now a then Ok (s_plain p) else Err ErrKeysDropped
  else r = Err ErrDecryptionFailed ∨ r = Err ErrKeysDropped.

Definition delivered (r : rtt.RTTStats) (now : Z) (p : sealed) (n : nat) (b : bool) (j j' : nat) (e e' : endpoint) : Prop := ∃ rs a j1,
  receive r now p (aead_of e) = (rs, a) ∧ opens_to now j p (aead_of e) rs ∧ (is_ok rs = true → (acknowledge p a).1 = Ok tt) ∧
  ∀ processed, let e1 := received p rs a processed e in einv (S n) b j1 j' e1 e' ∧ einv (S n) (negb b) j' j1 e' e1.

(** The two cases of a packet that is opened. *)
Lemma delivered_ok r now p n b j j1 j' e e' a a1 : p ∈ sent e' → open r (s_bytes p) now (s_pn p) (s_kp p) (s_ad p) (aead_of e) = (Ok (s_plain p), a1) →
  opens_to now j p (aead_of e) (Ok (s_plain p)) → a = set_highest (Z.max (highestRcvdPN a1) (s_pn p)) a1 →
  einv (S n) b j1 j' (mkEnd a (sent e) (s_pn p :: opened e)) e' → einv (S n) (negb b) j' j1 e' (mkEnd a (sent e) (s_pn p :: opened e)) →
  (∀ q, s_ack p = Some q → numRcvdWithCurrentKey a ≠ 0 ∨ firstSentWithCurrentKey a = InvalidPacketNumber ∨ q < firstSentWithCurrentKey a) →
  delivered r now p n b j j' e e'.
Proof.
  intros Hp E Hto Ea Hi Hi' Hack. exists (Ok (s_plain p)), a, j1. split; [unfold receive; by rewrite (Open_ok _ _ _ _ _ _ _ _ _ E), Ea|]. split; [done|].
  destruct (acknowledge_inv _ _ _ _ _ _ _ _ p Hi Hi' Hp Hack) as (a' & Ek & Hi1 & Hi2). rewrite Ek. split; [done|].
  intros [|]; cbn; rewrite ?Ek; done.
Qed.

Lemma deliver_current r now p n b j j' e e' : Z.of_nat n < 2 ^ 32 - 1 → einv n b j j' e e' → einv n (negb b) j' j e' e → p ∈ sent e' → s_phase p = j →
  delivered r now p n b j j' e e'.
Proof.
  intros Hn Hi Hi' Hp Hph. destruct (ei_sealed _ _ _ _ _ _ Hi' p Hp) as (Hpn & Hkp & Hby & _). rewrite Hph in *.
  destruct (open_current s v secret r b j now (s_pn p) (s_plain p) (s_ad p) (aead_of e)) as (a & E & Hk & (E1 & E2 & E3) & E4 & E5); [apply Hi|].
  rewrite <- Hby, <- Hkp in E. pose proof Hi as []. rewrite u64_small in E4 by lia.
  assert (Hf : firstRcvdWithCurrentKey a ≠ InvalidPacketNumber).
  { rewrite E5. destruct (Z.eqb_spec (firstRcvdWithCurrentKey (aead_of e)) InvalidPacketNumber); [unfold InvalidPacketNumber; lia|done]. }
  destruct (einv_open n b j j' e e' (set_highest (Z.max (highestRcvdPN a) (s_pn p)) a) (s_pn p :: opened e) Hi Hi') as [Hi1 Hi2]; cbn; try done; try lia.
  - by eapply keyed_same; [exact Hk|..]; try done; left.
  - rewrite E5. destruct (_ =? _); [right; by exists p|by left].
  - intros q Hq. by right.
  - intros q [->|Hq]%elem_of_cons; [right|by left]. exists p. split_and!; try done. lia.
  - eapply delivered_ok; [done|exact E| |reflexivity|exact Hi1|exact Hi2|].
    + unfold opens_to. by rewrite Hph, Nat.leb_refl.
    + intros q _. left. cbn. lia.
Qed.

Lemma deliver_next r now p n b j j' e e' : Z.of_nat n < 2 ^ 32 - 1 → einv n b j j' e e' → einv n (negb b) j' j e' e → p ∈ sent e' → s_phase p = S j →
  delivered r now p n b j j' e e'.
Proof.
  intros Hn Hi Hi' Hp Hph. destruct (ei_sealed _ _ _ _ _ _ Hi' p Hp) as (Hpn & Hkp & Hby & Hle). rewrite Hph in *. pose proof (ei_ahead _ _ _ _ _ _ Hi') as Ha.
  assert (j' = S j) as -> by lia. pose proof Hi as [].
  destruct (open_next s v secret r b j now (s_pn p) (s_plain p) (s_ad p) (aead_of e)) as (a & E & Hk & E1 & E2 & E3 & E4 & E5); [done|lia|auto| |].
  { destruct ei_firstRcvd0 as [->|(Hf & p0 & Hp0 & <- & Hph0)]; [unfold InvalidPacketNumber; lia|].
    destruct (Z.le_ge_cases (s_pn p0) (s_pn p)); [done|]. pose proof (ei_order _ _ _ _ _ _ Hi' p p0 Hp Hp0 ltac:(lia)). lia. }
  rewrite <- Hby, <- Hkp in E. eapply (delivered_ok _ _ _ _ _ _ (S j)); [done|exact E| |reflexivity| | |].
  - unfold opens_to. rewrite Hph. by rewrite (proj2 (Nat.leb_le _ _)) by lia.
  - split; cbn [aead_of sent opened set_highest firstSentWithCurrentKey firstRcvdWithCurrentKey invalidPacketCount numRcvdWithCurrentKey largestAcked];
      try done; try lia.
    + by eapply keyed_same; [exact Hk|..]; try done; left.
    + intros p1 Hp1. destruct (ei_sealed0 p1 Hp1) as (? & ? & ? & ?). split_and!; try done. lia.
    + intros p1 q Hp1 Hq. destruct (ei_acks0 p1 q Hp1 Hq) as [? ?]. split; [by right|done].
    + left. split; [done|]. intros p1 Hp1. destruct (ei_sealed0 p1 Hp1) as (? & ? & ? & ?). lia.
    + right. rewrite E2. split; [unfold InvalidPacketNumber; lia|]. by exists p.
    + intros q [->|Hq]%elem_of_cons; [exists p; split_and!; try done; [lia|]; intros _; rewrite E2; unfold InvalidPacketNumber; lia|].
      destruct (ei_opened0 q Hq) as (p1 & ? & ? & ? & ?). exists p1. split_and!; try done; lia.
    + by rewrite E5.
  - apply (einv_mono n); [lia|]. eapply einv_peer; [exact Hi'|done|lia|lia].
  - intros q _. right. left. exact E1.
Qed.

Lemma deliver_old r now p n b j j' e e' : keys_distinct → Z.of_nat n < 2 ^ 32 - 1 → einv n b j j' e e' → einv n (negb b) j' j e' e → p ∈ sent e' →
  (s_phase p < j)%nat → delivered r now p n b j j' e e'.
Proof.
  intros Hd Hn Hi Hi' Hp Hph. destruct (ei_sealed _ _ _ _ _ _ Hi' p Hp) as (Hpn & Hkp & Hby & _). pose proof Hi as [].
  destruct (open_old s v secret r b (s_phase p) j now (s_pn p) (s_plain p) (s_ad p) (aead_of e)) as (a & rs & E & Hk & (E1 & E2 & E3) & E4 & E5 & Hrs);
    [done|done|done|lia| |].
  { destruct ei_firstRcvd0 as [->|(Hf & p0 & Hp0 & <- & Hph0)]; [by left|right].
    destruct (Z.lt_ge_cases (s_pn p) (s_pn p0)); [done|]. pose proof (ei_order _ _ _ _ _ _ Hi' p0 p Hp0 Hp ltac:(lia)). lia. }
  rewrite <- Hby, <- Hkp in E. assert (Hto : opens_to now j p (aead_of e) rs).
  { unfold opens_to. rewrite (proj2 (Nat.leb_gt _ _)) by done. destruct (bool_decide_reflect (j = S (s_phase p))) as [Ej|Ej]; [|by rewrite (proj2 (Nat.eqb_neq _ _) Ej)].
    by rewrite (proj2 (Nat.eqb_eq _ _) Ej). }
  assert (Hbad : ∀ er, rs = Err er → er = ErrDecryptionFailed ∨ er = ErrKeysDropped).
  { intros er ->. destruct (bool_decide _); [|naive_solver]. destruct (prevKept _ _); naive_solver. }
  destruct rs as [dec|er|m].
  - assert (dec = s_plain p) as ->. { destruct (bool_decide _); [|naive_solver]. destruct (prevKept _ _); naive_solver. }
    destruct (einv_open n b j j' e e' (set_highest (Z.max (highestRcvdPN a) (s_pn p)) a) (s_pn p :: opened e) Hi Hi') as [Hi1 Hi2]; cbn; try done; try lia.
    + by eapply keyed_same; [exact Hk|..]; try done; left.
    + intros q Hq. by right.
    + intros q [->|Hq]%elem_of_cons; [right|by left]. exists p. split_and!; try done; lia.
    + eapply delivered_ok; [done|exact E|done|reflexivity|exact Hi1|exact Hi2|]. cbn. rewrite E1. intros q Hq.
      destruct ei_firstSent0 as [[Hf _]|(Hf & p0 & Hp0 & Ep0 & Hph0)]; [by right; left|]. right. right.
      destruct (ei_acks _ _ _ _ _ _ Hi' p q Hp Hq) as (_ & p' & Hp' & Epn & Hle). rewrite <- Ep0.
      destruct (Z.lt_ge_cases q (s_pn p0)); [done|]. pose proof (ei_order0 p0 p' Hp0 Hp' ltac:(lia)). lia.
  - destruct (Hbad er eq_refl) as [->| ->].
    + destruct (einv_open n b j j' e e' (set_invalid (u64 (invalidPacketCount a + 1)) a) (opened e) Hi Hi') as [Hi1 Hi2]; cbn; try done;
        try (rewrite ?u64_small by lia; lia); auto.
      { by eapply keyed_same; [exact Hk|..]; try done; left. }
      exists (Err ErrDecryptionFailed), (set_invalid (u64 (invalidPacketCount a + 1)) a), j. split.
      { unfold receive, Open. rewrite E, bool_decide_true by done. cbn. rewrite (proj2 (Z.leb_gt _ _)); [done|]. destruct Hk. rewrite u64_small by lia. lia. }
      split; [done|]. split; [done|]. intros ?. by cbn.
    + destruct (einv_open n b j j' e e' a (opened e) Hi Hi') as [Hi1 Hi2]; try done; try lia; auto.
      exists (Err ErrKeysDropped), a, j. split; [unfold receive, Open; rewrite E, bool_decide_false by done; done|]. split; [done|]. split; [done|]. intros ?. by cbn.
  - exfalso. destruct (bool_decide _); [|naive_solver]. destruct (prevKept _ _); naive_solver.
Qed.

Lemma deliver_inv r now p n b j j' e e' : keys_distinct → Z.of_nat n < 2 ^ 32 - 1 → einv n b j j' e e' → einv n (negb b) j' j e' e → p ∈ sent e' →
  delivered r now p n b j j' e e'.
Proof.
  intros Hd Hn Hi Hi' Hp. destruct (ei_sealed _ _ _ _ _ _ Hi' p Hp) as (_ & _ & _ & Hle). pose proof (ei_ahead _ _ _ _ _ _ Hi').
  destruct (lt_eq_lt_dec (s_phase p) j) as [[?|?]|?]; [by apply deliver_old|by apply deliver_current|apply deliver_next; try done; lia].
Qed.

(** ** Reachable states *)

Definition sinv (n : nat) (y : system) : Prop := ∃ j : bool → nat, ∀ b, einv n b (j b) (j (negb b)) (y b) (y (negb b)).

Lemma sinv_upd n (j : bool → nat) j1 b e1 y : einv n b j1 (j (negb b)) e1 (y (negb b)) → einv n (negb b) (j (negb b)) j1 (y (negb b)) e1 → sinv n (upd b e1 y).
Proof. intros H1 H2. exists (λ c, if Bool.eqb c b then j1 else j c). intros c. destruct b, c; cbn in *; done. Qed.

Lemma forged_inv r now src pn kp ad n b j j' e e' : Z.of_nat n < 2 ^ 32 - 1 → einv n b j j' e e' → einv n (negb b) j' j e' e →
  (∀ i, Z.of_nat i < 2 ^ 32 → xorNonce_Open (keyOf (negb b) i) (PutUint64 (u64 pn)) src ad = None) → ∃ a er,
  Open r src now pn kp ad (aead_of e) = (Err er, a) ∧ (er = ErrDecryptionFailed ∨ er = ErrKeysDropped) ∧
  einv (S n) b j j' (mkEnd a (sent e) (opened e)) e' ∧ einv (S n) (negb b) j' j e' (mkEnd a (sent e) (opened e)).
Proof.
  intros Hn Hi Hi' Hf. pose proof Hi as [].
  destruct (open_forged s v secret r b j now src pn kp ad (aead_of e) ei_keyed0 ltac:(lia) Hf) as (a & er & E & Hk & (E1 & E2 & E3) & E4 & E5 & Her).
  destruct Her as [->| ->].
  - exists (set_invalid (u64 (invalidPacketCount a + 1)) a), ErrDecryptionFailed. split.
    { unfold Open. rewrite E, bool_decide_true by done. cbn. rewrite (proj2 (Z.leb_gt _ _)); [done|]. destruct Hk. rewrite u64_small by lia. lia. }
    split; [by left|]. apply einv_open; cbn; try done; try (rewrite ?u64_small by lia; lia); auto. by eapply keyed_same; [exact Hk|..]; try done; left.
  - exists a, ErrKeysDropped. split; [unfold Open; by rewrite E, bool_decide_false|]. split; [by right|]. apply einv_open; try done; try lia; auto.
Qed.

Lemma ku_step_inv n y y' : keys_distinct → Z.of_nat n < 2 ^ 32 - 1 → sinv n y → ku_step y y' → sinv (S n) y'.
Proof.
  intros Hd Hn [j Hy] Hs. destruct Hs as [y b kp a E|y b kp a1 a2 pn plain ad ack c Hpn Hpos Hack E1 E2|y b p r now processed rs a Hp E|y b r now src pn kp ad rs a Hf E|y b];
    pose proof (Hy b) as Hi; pose proof (Hy (negb b)) as Hi'; rewrite negb_involutive in Hi'.
  - destruct (KeyPhase_inv n b _ _ _ _ Hi Hi' Hn) as (a' & j1 & E' & _ & H1 & H2 & _). rewrite E in E'. injection E' as -> ->. by eapply sinv_upd.
  - destruct (KeyPhase_inv n b _ _ _ _ Hi Hi' Hn) as (a' & j1 & E' & _ & H1 & H2 & _). rewrite E1 in E'. injection E' as -> ->.
    destruct (Seal_inv (S n) b _ _ _ _ pn plain ad ack H1 H2 Hpn Hpos Hack) as (a'' & E'' & Hph & H3 & H4). cbn [aead_of] in *. rewrite E2 in E''. injection E'' as -> ->.
    rewrite Hph, Nat2Z.id. by eapply sinv_upd.
  - destruct (deliver_inv r now p n b _ _ _ _ Hd Hn Hi Hi' Hp) as (rs' & a' & j1 & E' & _ & _ & H'). rewrite E in E'. injection E' as -> ->.
    destruct (H' processed). by eapply sinv_upd.
  - destruct (forged_inv r now src pn kp ad n b _ _ _ _ Hn Hi Hi' Hf) as (a' & er & E' & _ & H1 & H2). rewrite E in E'. injection E' as -> ->. by eapply sinv_upd.
  - apply (sinv_upd _ j (j b)); (apply (einv_mono n); [lia|]).
    + destruct Hi. split; cbn; try done. by eapply keyed_same; [done|..]; try done; left.
    + eapply einv_peer; [done|done|done|by destruct Hi'].
Qed.

Lemma setAEADParameters_ok : suite_ok s → ∃ l, 2 ^ 36 ≤ l ∧ ∀ a, setAEADParameters s a = (Ok tt, set_suite s l a).
Proof.
  intros Hs. unfold setAEADParameters. destruct (suite_cases s Hs) as [E|[E|E]]; rewrite E; cbn; (eexists; split; [|done]);
    unfold InvalidPacketLimitAES, InvalidPacketLimitChaCha; lia.
Qed.

Lemma started_ok b : suite_ok s → ∃ a, started b = (Ok tt, a) ∧ einv 0 b 0 0 (mkEnd a [] []) (mkEnd a [] []).
Proof.
  intros Hs. destruct (newHeaderProtector_ok s (secret true) false v Hs) as (h1 & Eh1 & _). destruct (newHeaderProtector_ok s (secret false) false v Hs) as (h2 & Eh2 & _).
  pose proof (createAEAD_keyOf s v secret true 0) as K1. pose proof (createAEAD_keyOf s v secret false 0) as K2. pose proof (createAEAD_keyOf s v secret true 1) as K3.
  pose proof (createAEAD_keyOf s v secret false 1) as K4. change (secretOf s secret true 0) with (secret true) in K1. change (secretOf s secret false 0) with (secret false) in K2.
  destruct (setAEADParameters_ok Hs) as (l & Hl & Hp).
  unfold started, SetReadKey, SetWriteKey, mbind, st_bind, st_modify, st_get, st_lift. destruct b; cbn [negb ua_version newUpdatableAEAD].
  - rewrite K2, Eh2. cbn [suite]. rewrite Hp. cbn [ua_version set_suite]. 
    change (getNextTrafficSecret (suite_Hash s) (secret false)) with (secretOf s secret false 1). rewrite K4. cbn [ua_version]. rewrite K1, Eh1. cbn [suite mret st_ret].
    change (getNextTrafficSecret (suite_Hash s) (secret true)) with (secretOf s secret true 1). rewrite K3. eexists. split; [done|].
    split; cbn; try done; try set_solver; auto.
  - rewrite K2, Eh2. cbn [suite]. rewrite Hp. cbn [ua_version set_suite].
    change (getNextTrafficSecret (suite_Hash s) (secret false)) with (secretOf s secret false 1). rewrite K4. cbn [ua_version]. rewrite K1, Eh1. cbn [suite mret st_ret].
    change (getNextTrafficSecret (suite_Hash s) (secret true)) with (secretOf s secret true 1). rewrite K3. eexists. split; [done|].
    split; cbn; try done; try set_solver; auto.
Qed.

Lemma ku_reach_inv n y : suite_ok s → keys_distinct → Z.of_nat n < 2 ^ 32 → ku_reach n y → sinv n y.
Proof.
  intros Hs Hd Hn. induction 1 as [|n y y' _ IH Hst]; [|eapply ku_step_inv; try done; [lia|apply IH; lia]].
  exists (λ _, 0%nat). intros b. destruct (started_ok b Hs) as (a & Ea & [H1 H2 H3 _ _ _ H4 H5 _ H6 H7 H8]). rewrite Ea. cbn [snd].
  split; cbn in *; try done; try set_solver; [naive_solver..].
Qed.

(** C6: key updates.  Whatever packets are delayed, reordered, repeated, lost or
    forged, the key phases of the two endpoints differ by at most one; a packet
    sealed in the current or the next key phase of the receiver is opened to what
    was sealed, one of the previous phase too as long as the previous keys are
    kept, and older ones and forged ones are only dropped; no honest endpoint is
    accused of a KEY_UPDATE_ERROR, neither for a packet nor for the ACK in it.  A
    key is rolled as soon as it has protected its share of packets and the update
    is allowed. *)
Theorem key_updates_agree n y : suite_ok s → keys_distinct → Z.of_nat n < 2 ^ 32 - 1 → ku_reach n y →
  (∀ b, keyPhase (aead_of (y b)) ≤ keyPhase (aead_of (y (negb b))) + 1) ∧
  (∀ b p r now, p ∈ sent (y (negb b)) → let a := aead_of (y b) in ∃ rs a', receive r now p a = (rs, a') ∧
    opens_to now (Z.to_nat (keyPhase a)) p a rs ∧ (is_ok rs = true → (acknowledge p a').1 = Ok tt)) ∧
  (∀ b, ∃ kp a, KeyPhase (aead_of (y b)) = (Ok kp, a) ∧
    (updateAllowed a = true → numSentWithCurrentKey a < KeyUpdateInterval ∧ numRcvdWithCurrentKey a < KeyUpdateInterval) ∧
    ∀ plain pn ad, (Seal plain pn ad a).1 = Ok (sealedWith b (Z.to_nat (keyPhase a)) pn plain ad)).
Proof.
  intros Hs Hd Hn Hr. destruct (ku_reach_inv n y Hs Hd ltac:(lia) Hr) as [j Hy]. split_and!.
  - intros b. rewrite (k_phase _ _ _ _ _ _ (ei_keyed _ _ _ _ _ _ (Hy b))), (k_phase _ _ _ _ _ _ (ei_keyed _ _ _ _ _ _ (Hy (negb b)))).
    pose proof (ei_ahead _ _ _ _ _ _ (Hy b)). lia.
  - intros b p r now Hp. cbv zeta. pose proof (Hy (negb b)) as Hi'. rewrite negb_involutive in Hi'.
    rewrite (k_phase _ _ _ _ _ _ (ei_keyed _ _ _ _ _ _ (Hy b))), Nat2Z.id.
    destruct (deliver_inv r now p n b _ _ _ _ Hd Hn (Hy b) Hi' Hp) as (rs & a & j1 & E & Hto & Hack & _). exists rs, a. done.
  - intros b. pose proof (Hy (negb b)) as Hi'. rewrite negb_involutive in Hi'.
    destruct (KeyPhase_inv n b _ _ _ _ (Hy b) Hi' Hn) as (a & j1 & E & _ & Hi & _ & Hu). exists (bitOf j1), a. split_and!; [done|done|].
    intros plain pn ad. destruct (ei_keyed _ _ _ _ _ _ Hi). unfold Seal, mbind, st_bind, st_modify, st_get, st_lift, mret, st_ret. cbn in *.
    by rewrite k_suite0, k_send0, k_phase0, Nat2Z.id.
Qed.
End system.

(** * A key update with concrete primitives *)

#[local] Existing Instance toy.
#[local] Existing Instance toy_laws.

Definition toy_suite : cipherSuite := mkSuite TLS_AES_128_GCM_SHA256 SHA256 16 AESGCM.
Definition toy_secret (b : bool) : bytes := zeros 32.

Lemma toy_counter_Put c n : 0 ≤ c < 2 ^ 32 → 4 ≤ n → toy_counter (take (Z.to_nat n) (PutUint32 c ++ zeros n)) = c.
Proof.
  intros Hc Hn. unfold PutUint32. replace (Z.to_nat n) with (4 + (Z.to_nat n - 4))%nat by lia. cbn [plus app take toy_counter]. by apply Uint32_bytes.
Qed.

Lemma toy_secretOf b i : Z.of_nat i < 2 ^ 32 → secretOf toy_suite toy_secret b i = take 32 (PutUint32 (Z.of_nat i) ++ zeros 32).
Proof.
  induction i as [|i IH]; intros Hi; [done|]. cbn [secretOf]. change (secretOf toy_suite toy_secret b (S i)) with
    (getNextTrafficSecret SHA256 (secretOf toy_suite toy_secret b i)). rewrite IH by lia. unfold getNextTrafficSecret, hkdfExpandLabel.
  cbn [hkdf_Expand toy]. unfold toy_Expand. rewrite bool_decide_true by done. change (take 32 (PutUint32 (Z.of_nat i) ++ zeros 32)) with (take (Z.to_nat 32) (PutUint32 (Z.of_nat i) ++ zeros 32)).
  rewrite toy_counter_Put by lia. by replace (Z.of_nat i + 1) with (Z.of_nat (S i)) by lia.
Qed.

Lemma toy_key b i : Z.of_nat i < 2 ^ 32 → ∃ m, keyOf toy_suite Version1 toy_secret b i = mkAEAD m AESGCM (PutUint32 (Z.of_nat i) ++ zeros 12).
Proof.
  intros Hi. pose proof (createAEAD_keyOf toy_suite Version1 toy_secret b i) as E. revert E. generalize (keyOf toy_suite Version1 toy_secret b i). intros k.
  rewrite toy_secretOf by done. unfold createAEAD, aeadNew, hkdfExpandLabel. cbn [hkdf_Expand toy Version1 Version2 Z.eqb Pos.eqb].
  rewrite (expand_length (H := toy) SHA256) by done. cbn [negb Z.eqb aeadNonceLength Pos.eqb suite_AEAD toy_suite suite_Hash suite_KeyLen].
  unfold toy_Expand at 2. rewrite bool_decide_false by done. rewrite (toy_counter_Put _ 32) by lia. intros [= <-]. by eexists.
Qed.

Lemma toy_keys_distinct : keys_distinct toy_suite Version1 toy_secret.
Proof.
  intros b i j pn plain ad Hij Hi Hj. unfold sealedWith. destruct (toy_key b i Hi) as [m ->]. destruct (toy_key b j Hj) as [m' ->].
  unfold xorNonce_Open, xorNonce_Seal. cbn [aead_cipher aead_key gcm_Open gcm_Seal toy]. rewrite toy_roundtrip, bool_decide_false; [done|].
  intros E. assert (Hc : ∀ c, 0 ≤ c < 2 ^ 32 → toy_counter (toy_tag (PutUint32 c ++ zeros 12)) = c) by (intros; by apply Uint32_bytes).
  apply (f_equal toy_counter) in E. rewrite !Hc in E by lia. lia.
Qed.

(** The client seals [k] packets. *)
Fixpoint seal_packets (k : nat) (pn : Z) (y : system) : option system :=
  match k with
  | O => Some y
  | S k =>
      match KeyPhase (aead_of (y true)) with
      | (Ok kp, a1) =>
          match Seal [7] pn [] a1 with
          | (Ok c, a2) => seal_packets k (pn + 1)
              (upd true (mkEnd a2 (sent (y true) ++ [mkSealed pn kp (Z.to_nat (keyPhase a2)) [7] [] c None]) (opened (y true))) y)
          | _ => None
          end
      | _ => None
      end
  end.

Lemma seal_packets_reach k n pn y y' : ku_reach toy_suite Version1 toy_secret n y → Forall (λ p, s_pn p < pn) (sent (y true)) → 0 ≤ pn →
  seal_packets k pn y = Some y' → ku_reach toy_suite Version1 toy_secret (k + n) y'.
Proof.
  revert n pn y. induction k as [|k IH]; intros n pn y Hr Hpn H0 E; cbn in E; [by injection E as <-|].
  destruct (KeyPhase _) as [[kp| |] a1] eqn:E1; try done. destruct (Seal _ _ _ a1) as [[c| |] a2] eqn:E2; try done.
  replace (S k + n)%nat with (k + S n)%nat by lia. eapply IH; [| | |exact E]; [| |lia].
  - eapply kr_step; [exact Hr|]. by eapply ku_seal.
  - unfold upd. cbn. apply Forall_app. split; [|by repeat constructor; cbn; lia]. eapply Forall_impl; [exact Hpn|]. cbn. lia.
Qed.

Definition toy_start : system := λ b, mkEnd (started toy_suite Version1 toy_secret b).2 [] [].
Definition toy_confirmed : system := upd true (mkEnd (SetHandshakeConfirmed (aead_of (toy_start true))) [] []) toy_start.
Definition toy_updated : system := match seal_packets 101 0 toy_confirmed with Some y => y | None => toy_confirmed end.
Definition toy_last : sealed := mkSealed 100 KeyPhaseOne 1 [7] [] [7; 0; 0; 0; 1; 0; 0; 0; 0; 0; 0; 0; 0; 0; 0; 0; 0] None.

Lemma key_updates_agree_witness :
  keyPhase (aead_of (toy_updated true)) = 1 ∧ keyPhase (aead_of (toy_updated false)) = 0 ∧
  ∃ rs a, receive rtt.NewRTTStats 1 toy_last (aead_of (toy_updated false)) = (rs, a) ∧ rs = Ok [7].
Proof.
  assert (Hr : ku_reach toy_suite Version1 toy_secret 102 toy_updated).
  { eapply (seal_packets_reach 101 1 0 toy_confirmed); [|by vm_compute|done|].
    - eapply kr_step; [apply kr_initial|]. apply (ku_confirm toy_suite Version1 toy_secret toy_start true).
    - assert (E : is_Some (seal_packets 101 0 toy_confirmed)) by (apply (bool_decide_eq_true_1 _); by vm_compute).
      unfold toy_updated. destruct E as [y E]. by rewrite E. }
  destruct (key_updates_agree toy_suite Version1 toy_secret 102 toy_updated eq_refl toy_keys_distinct ltac:(lia) Hr) as (_ & Ho & _).
  split; [by vm_compute|]. split; [by vm_compute|].
  assert (Hl : last (sent (toy_updated true)) = Some toy_last) by by vm_compute. apply last_Some_elem_of in Hl.
  destruct (Ho false toy_last rtt.NewRTTStats 1 Hl) as (rs & a & E & Hto & _). exists rs, a. split; [exact E|]. exact Hto.
Defined.

End keyUpdate.
