(* ===== verification/CryptoSetup.v ===== *)
(** The crypto setup (internal/handshake/crypto_setup.go, session_ticket.go,
    internal/qtls): which keys are there at which time, driven by the events of the
    TLS stack, which is a parameter; session tickets and address tokens
    (token_generator.go, token_protector.go). *)

From S2P Require Import Prelude.
From S2P Require Import Varint.
From S2P Require Import Protocol.
From S2P Require Import Headers.
From S2P Require Import Ecn.
From S2P Require Import PacketPacker.
From S2P Require Import TransportParameters.
From S2P Require Import PacketProtection.
From S2P Require Import KeyUpdate.

Module cryptoSetup.
Import protocol headers protection keyUpdate.
Import (hints) rtt transportParameters.

Definition ErrKeysNotYetAvailable : go_error := packer.ErrKeysNotYetAvailable.

(** * The TLS stack (crypto/tls) *)

Inductive QUICEncryptionLevel := LevelInitial | LevelEarly | LevelHandshake | LevelApplication.

Inductive QUICEvent :=
| QUICNoEvent
| QUICSetReadSecret (level : QUICEncryptionLevel) (suite : Z) (data : bytes)
| QUICSetWriteSecret (level : QUICEncryptionLevel) (suite : Z) (data : bytes)
| QUICTransportParameters (data : bytes)
| QUICTransportParametersRequired
| QUICRejectedEarlyData
| QUICWriteData (level : QUICEncryptionLevel) (data : bytes)
| QUICHandshakeDone
| QUICOtherEvent (kind : Z).

(** [tls.QUICConn]; [AlertError] is [errors.As(err, &alertErr)]. *)
Class QUICConn (T : Type) := {
  tls_Start : T → option go_error * T;
  tls_NextEvent : T → QUICEvent * T;
  tls_HandleData : QUICEncryptionLevel → bytes → T → option go_error * T;
  tls_SetTransportParameters : bytes → T → T;
  tls_SendSessionTicket : bool → T → option go_error * T;
  AlertError : go_error → option Z;
  ticketKeysUnavailable : go_error → bool;
}.

Definition ToTLSEncryptionLevel (l : EncryptionLevel) : res QUICEncryptionLevel :=
  match l with
  | EncryptionInitial => Ok LevelInitial
  | EncryptionHandshake => Ok LevelHandshake
  | Encryption1RTT => Ok LevelApplication
  | Encryption0RTT => Ok LevelEarly
  end.

Definition FromTLSEncryptionLevel (l : QUICEncryptionLevel) : EncryptionLevel :=
  match l with
  | LevelInitial => EncryptionInitial
  | LevelHandshake => EncryptionHandshake
  | LevelApplication => Encryption1RTT
  | LevelEarly => Encryption0RTT
  end.

Definition extraPrefix : bytes := string_bytes "quic-go1".
Definition addExtraPrefix (b : bytes) : bytes := extraPrefix ++ b.
Fixpoint findExtraData (extras : list bytes) : option bytes :=
  match extras with
  | [] => None
  | e :: extras => if (blen e <? blen extraPrefix) || negb (bool_decide (extraPrefix = take (length extraPrefix) e)) then findExtraData extras
                   else Some (drop (length extraPrefix) e)
  end.

(** * State *)

Inductive Event :=
| EventNoEvent
| EventWriteInitialData (data : bytes)
| EventWriteHandshakeData (data : bytes)
| EventReceivedReadKeys
| EventDiscard0RTTKeys
| EventReceivedTransportParameters (p : transportParameters.TransportParameters)
| EventRestoredTransportParameters (p : transportParameters.TransportParameters)
| EventHandshakeComplete.

Record cryptoSetup {T : Type} := mkSetup {
  conn : T;
  events : list Event;
  version : Z;
  ourParams : transportParameters.TransportParameters;
  peerParams : option transportParameters.TransportParameters;
  zeroRTTParameters : option transportParameters.TransportParameters;
  allow0RTT : bool;
  rttStats : rtt.RTTStats;
  perspective : Perspective;
  handshakeCompleteTime : Z;
  zeroRTTOpener : option longHeaderOpener;
  zeroRTTSealer : option longHeaderSealer;
  initialOpener : option longHeaderOpener;
  initialSealer : option longHeaderSealer;
  handshakeOpener : option longHeaderOpener;
  handshakeSealer : option longHeaderSealer;
  used0RTT : bool;
  aead : updatableAEAD;
  has1RTTSealer : bool;
  has1RTTOpener : bool;
}.
Arguments cryptoSetup : clear implicits.
Arguments mkSetup {T}.

Section setup.
Context {T : Type} `{QUICConn T} `{Primitives}.
Local Abbreviation CS := (cryptoSetup T).

Definition set_conn (x : T) (h : CS) : CS :=
  mkSetup x (events h) (version h) (ourParams h) (peerParams h) (zeroRTTParameters h) (allow0RTT h) (rttStats h) (perspective h) (handshakeCompleteTime h)
    (zeroRTTOpener h) (zeroRTTSealer h) (initialOpener h) (initialSealer h) (handshakeOpener h) (handshakeSealer h) (used0RTT h) (aead h) (has1RTTSealer h) (has1RTTOpener h).
Definition set_events (x : list Event) (h : CS) : CS :=
  mkSetup (conn h) x (version h) (ourParams h) (peerParams h) (zeroRTTParameters h) (allow0RTT h) (rttStats h) (perspective h) (handshakeCompleteTime h)
    (zeroRTTOpener h) (zeroRTTSealer h) (initialOpener h) (initialSealer h) (handshakeOpener h) (handshakeSealer h) (used0RTT h) (aead h) (has1RTTSealer h) (has1RTTOpener h).
Definition set_params (peer zero : option transportParameters.TransportParameters) (h : CS) : CS :=
  mkSetup (conn h) (events h) (version h) (ourParams h) peer zero (allow0RTT h) (rttStats h) (perspective h) (handshakeCompleteTime h)
    (zeroRTTOpener h) (zeroRTTSealer h) (initialOpener h) (initialSealer h) (handshakeOpener h) (handshakeSealer h) (used0RTT h) (aead h) (has1RTTSealer h) (has1RTTOpener h).
Definition set_rttStats (x : rtt.RTTStats) (h : CS) : CS :=
  mkSetup (conn h) (events h) (version h) (ourParams h) (peerParams h) (zeroRTTParameters h) (allow0RTT h) x (perspective h) (handshakeCompleteTime h)
    (zeroRTTOpener h) (zeroRTTSealer h) (initialOpener h) (initialSealer h) (handshakeOpener h) (handshakeSealer h) (used0RTT h) (aead h) (has1RTTSealer h) (has1RTTOpener h).
Definition set_completeTime (x : Z) (h : CS) : CS :=
  mkSetup (conn h) (events h) (version h) (ourParams h) (peerParams h) (zeroRTTParameters h) (allow0RTT h) (rttStats h) (perspective h) x
    (zeroRTTOpener h) (zeroRTTSealer h) (initialOpener h) (initialSealer h) (handshakeOpener h) (handshakeSealer h) (used0RTT h) (aead h) (has1RTTSealer h) (has1RTTOpener h).
Definition set_zeroRTT (o : option longHeaderOpener) (s : option longHeaderSealer) (used : bool) (h : CS) : CS :=
  mkSetup (conn h) (events h) (version h) (ourParams h) (peerParams h) (zeroRTTParameters h) (allow0RTT h) (rttStats h) (perspective h) (handshakeCompleteTime h)
    o s (initialOpener h) (initialSealer h) (handshakeOpener h) (handshakeSealer h) used (aead h) (has1RTTSealer h) (has1RTTOpener h).
Definition set_initial (o : option longHeaderOpener) (s : option longHeaderSealer) (h : CS) : CS :=
  mkSetup (conn h) (events h) (version h) (ourParams h) (peerParams h) (zeroRTTParameters h) (allow0RTT h) (rttStats h) (perspective h) (handshakeCompleteTime h)
    (zeroRTTOpener h) (zeroRTTSealer h) o s (handshakeOpener h) (handshakeSealer h) (used0RTT h) (aead h) (has1RTTSealer h) (has1RTTOpener h).
Definition set_handshake (o : option longHeaderOpener) (s : option longHeaderSealer) (h : CS) : CS :=
  mkSetup (conn h) (events h) (version h) (ourParams h) (peerParams h) (zeroRTTParameters h) (allow0RTT h) (rttStats h) (perspective h) (handshakeCompleteTime h)
    (zeroRTTOpener h) (zeroRTTSealer h) (initialOpener h) (initialSealer h) o s (used0RTT h) (aead h) (has1RTTSealer h) (has1RTTOpener h).
Definition set_aead (a : updatableAEAD) (sealer opener : bool) (h : CS) : CS :=
  mkSetup (conn h) (events h) (version h) (ourParams h) (peerParams h) (zeroRTTParameters h) (allow0RTT h) (rttStats h) (perspective h) (handshakeCompleteTime h)
    (zeroRTTOpener h) (zeroRTTSealer h) (initialOpener h) (initialSealer h) (handshakeOpener h) (handshakeSealer h) (used0RTT h) a sealer opener.

Definition emit (e : Event) (h : CS) : CS := set_events (events h ++ [e]) h.

(** A method of the 1-RTT AEAD. *)
Definition on_aead {A} (m : st updatableAEAD A) : st CS A := λ h,
  let '(r, a) := m (aead h) in (r, set_aead a (has1RTTSealer h) (has1RTTOpener h) h).

Definition newCryptoSetup (connID : ConnectionID) (tp : transportParameters.TransportParameters) (r : rtt.RTTStats) (pers : Perspective) (v : Z)
    (allow : bool) (t : T) : res CS :=
  '(sealer, opener) ← NewInitialAEAD connID pers v;
  Ok (mkSetup t [] v tp None None allow r pers 0 None None (Some opener) (Some sealer) None None false (newUpdatableAEAD v) false false).

Definition ChangeConnectionID (id : ConnectionID) : st CS () :=
  h ← st_get;
  '(sealer, opener) ← st_lift (NewInitialAEAD id (perspective h) (version h));
  st_modify (set_initial (Some opener) (Some sealer)).

Definition SetLargest1RTTAcked (pn : Z) : st CS () := on_aead (SetLargestAcked pn).

(** * Keys of the TLS stack *)

Definition newLongKeys (suiteID : Z) (secret : bytes) (v : Z) : res (xorNonceAEAD * headerProtector) :=
  suite ← getCipherSuite suiteID;
  a ← createAEAD suite secret v;
  hp ← newHeaderProtector suite secret true v;
  Ok (a, hp).

Definition setReadKey (el : QUICEncryptionLevel) (suiteID : Z) (trafficSecret : bytes) : st CS () :=
  h ← st_get;
  suite ← st_lift (getCipherSuite suiteID);
  _ ← match el with
      | LevelEarly =>
          if bool_decide (perspective h = PerspectiveClient) then st_panic "Received 0-RTT read key for the client" else
          '(a, hp) ← st_lift (newLongKeys suiteID trafficSecret (version h));
          st_modify (λ h, set_zeroRTT (Some (newLongHeaderOpener a hp)) (zeroRTTSealer h) true h)
      | LevelHandshake =>
          '(a, hp) ← st_lift (newLongKeys suiteID trafficSecret (version h));
          st_modify (λ h, set_handshake (Some (newLongHeaderOpener a hp)) (handshakeSealer h) h)
      | LevelApplication =>
          _ ← on_aead (SetReadKey suite trafficSecret);
          st_modify (λ h, set_aead (aead h) (has1RTTSealer h) true h)
      | LevelInitial => st_panic "unexpected read encryption level"
      end;
  st_modify (emit EventReceivedReadKeys).

Definition setWriteKey (el : QUICEncryptionLevel) (suiteID : Z) (trafficSecret : bytes) : st CS () :=
  h ← st_get;
  suite ← st_lift (getCipherSuite suiteID);
  match el with
  | LevelEarly =>
      if bool_decide (perspective h = PerspectiveServer) then st_panic "Received 0-RTT write key for the server" else
      '(a, hp) ← st_lift (newLongKeys suiteID trafficSecret (version h));
      st_modify (λ h, set_zeroRTT (zeroRTTOpener h) (Some (newLongHeaderSealer a hp)) (used0RTT h) h)
  | LevelHandshake =>
      '(a, hp) ← st_lift (newLongKeys suiteID trafficSecret (version h));
      st_modify (λ h, set_handshake (handshakeOpener h) (Some (newLongHeaderSealer a hp)) h)
  | LevelApplication =>
      _ ← on_aead (SetWriteKey suite trafficSecret);
      _ ← st_modify (λ h, set_aead (aead h) true (has1RTTOpener h) h);
      h ← st_get;
      match zeroRTTSealer h with
      | Some _ => st_modify (λ h, set_zeroRTT (zeroRTTOpener h) None true h)
      | None => mret tt
      end
  | LevelInitial => st_panic "unexpected write encryption level"
  end.

Definition writeRecord (el : QUICEncryptionLevel) (p : bytes) : st CS () :=
  match el with
  | LevelInitial => st_modify (emit (EventWriteInitialData p))
  | LevelHandshake => st_modify (emit (EventWriteHandshakeData p))
  | LevelApplication => st_panic "unexpected write"
  | LevelEarly => st_panic "unexpected write encryption level"
  end.

Definition DiscardInitialKeys (h : CS) : CS := set_initial None None h.

Definition handshakeComplete (now : Z) (h : CS) : CS := emit EventHandshakeComplete (set_completeTime now h).

Definition SetHandshakeConfirmed (h : CS) : CS :=
  let h := set_aead (keyUpdate.SetHandshakeConfirmed (aead h)) (has1RTTSealer h) (has1RTTOpener h) h in
  match handshakeOpener h with Some _ => set_handshake None None h | None => h end.

Definition rejected0RTT (h : CS) : CS :=
  match zeroRTTSealer h with
  | Some _ => emit EventDiscard0RTTKeys (set_zeroRTT (zeroRTTOpener h) None (used0RTT h) h)
  | None => h
  end.

(** * Openers and sealers *)

Definition GetInitialSealer (h : CS) : res longHeaderSealer := match initialSealer h with Some s => Ok s | None => Err ErrKeysDropped end.
Definition Get0RTTSealer (h : CS) : res longHeaderSealer := match zeroRTTSealer h with Some s => Ok s | None => Err ErrKeysDropped end.
Definition GetHandshakeSealer (h : CS) : res longHeaderSealer :=
  match handshakeSealer h with
  | Some s => Ok s
  | None => match initialSealer h with None => Err ErrKeysDropped | Some _ => Err ErrKeysNotYetAvailable end
  end.
Definition Get1RTTSealer (h : CS) : res updatableAEAD := if has1RTTSealer h then Ok (aead h) else Err ErrKeysNotYetAvailable.
Definition GetInitialOpener (h : CS) : res longHeaderOpener := match initialOpener h with Some o => Ok o | None => Err ErrKeysDropped end.
Definition Get0RTTOpener (h : CS) : res longHeaderOpener :=
  match zeroRTTOpener h with
  | Some o => Ok o
  | None => match initialOpener h with Some _ => Err ErrKeysNotYetAvailable | None => Err ErrKeysDropped end
  end.
Definition GetHandshakeOpener (h : CS) : res longHeaderOpener :=
  match handshakeOpener h with
  | Some o => Ok o
  | None => match initialOpener h with Some _ => Err ErrKeysNotYetAvailable | None => Err ErrKeysDropped end
  end.
(** [time.Since] saturates. *)
Definition Get1RTTOpener (now : Z) : st CS updatableAEAD := λ h,
  let h := match zeroRTTOpener h with
           | Some _ => if i64 (3 * rtt.PTO true (rttStats h)) <? Z.min (2 ^ 63 - 1) (now - handshakeCompleteTime h) then set_zeroRTT None (zeroRTTSealer h) (used0RTT h) h else h
           | None => h
           end in
  (if has1RTTOpener h then Ok (aead h) else Err ErrKeysNotYetAvailable, h).

(** * The handshake *)

Definition wrapError (e : go_error) : go_error :=
  match AlertError e with
  | Some alert => if negb (alert =? 80) then TransportError (0x100 + alert) 0 e else TransportError InternalError 0 e
  | None => TransportError InternalError 0 e
  end.

Definition handleTransportParameters (data : bytes) : st CS () :=
  h ← st_get;
  let sentBy := match perspective h with PerspectiveClient => PerspectiveServer | PerspectiveServer => PerspectiveClient end in
  tp ← st_lift (transportParameters.Unmarshal data sentBy transportParameters.noTransportParameters);
  _ ← st_modify (λ h, set_params (Some tp) (zeroRTTParameters h) h);
  st_modify (emit (EventReceivedTransportParameters tp)).

(** Marshalling draws random bytes; a client may write additional parameters. *)
Definition handleEvent (now : Z) (random : bytes) (additional : list (Z * bytes)) (ev : QUICEvent) : st CS bool :=
  match ev with
  | QUICNoEvent => mret true
  | QUICSetReadSecret level suite data => _ ← setReadKey level suite data; mret false
  | QUICSetWriteSecret level suite data => _ ← setWriteKey level suite data; mret false
  | QUICTransportParameters data => _ ← handleTransportParameters data; mret false
  | QUICTransportParametersRequired =>
      h ← st_get;
      b ← st_lift (transportParameters.Marshal random additional (perspective h) (ourParams h));
      _ ← st_modify (λ h, set_conn (tls_SetTransportParameters b (conn h)) h); mret false
  | QUICRejectedEarlyData => _ ← st_modify rejected0RTT; mret false
  | QUICWriteData level data => _ ← writeRecord level data; mret false
  | QUICHandshakeDone => _ ← st_modify (handshakeComplete now); mret false
  | QUICOtherEvent _ => st_fail (ErrMsg "unexpected event")
  end.

Definition nextTLSEvent : st CS QUICEvent := λ h, let '(ev, t) := tls_NextEvent (conn h) in (Ok ev, set_conn t h).

Fixpoint eventLoop (fuel : nat) (now : Z) (random : bytes) (additional : list (Z * bytes)) : st CS () :=
  match fuel with
  | O => st_panic "out of fuel"
  | S fuel =>
      ev ← nextTLSEvent;
      done ← handleEvent now random additional ev;
      if (done : bool) then mret tt else eventLoop fuel now random additional
  end.

(** [wrapError] of what a computation returns. *)
Definition wrapped {A} (m : st CS A) : st CS A := λ h, match m h with (Err e, h) => (Err (wrapError e), h) | r => r end.

Definition onTLS (m : T → option go_error * T) : st CS () := λ h,
  let '(e, t) := m (conn h) in (match e with Some e => Err e | None => Ok tt end, set_conn t h).

Definition StartHandshake (fuel : nat) (now : Z) (random : bytes) (additional : list (Z * bytes)) : st CS () :=
  _ ← wrapped (onTLS tls_Start);
  _ ← wrapped (eventLoop fuel now random additional);
  h ← st_get;
  if bool_decide (perspective h = PerspectiveClient) then
    match zeroRTTSealer h, zeroRTTParameters h with
    | Some _, Some p => st_modify (emit (EventRestoredTransportParameters p))
    | _, _ => mret tt
    end
  else mret tt.

Definition handleMessage (fuel : nat) (now : Z) (random : bytes) (additional : list (Z * bytes)) (data : bytes) (encLevel : EncryptionLevel) : st CS () :=
  l ← st_lift (ToTLSEncryptionLevel encLevel);
  _ ← onTLS (tls_HandleData l data);
  eventLoop fuel now random additional.

Definition HandleMessage (fuel : nat) (now : Z) (random : bytes) (additional : list (Z * bytes)) (data : bytes) (encLevel : EncryptionLevel) : st CS () :=
  wrapped (handleMessage fuel now random additional data encLevel).

Definition NextEvent (h : CS) : Event * CS :=
  match events h with
  | [] => (EventNoEvent, h)
  | ev :: evs => (ev, set_events evs h)
  end.
End setup.

(** * Session tickets *)

Definition sessionTicketRevision : Z := 4.
Definition clientSessionStateRevision : Z := 4.
Record sessionTicket := mkTicket { st_Parameters : option transportParameters.TransportParameters; st_RTT : Z }.

(** [d.Microseconds()] *)
Definition Microseconds (d : Z) : Z := Z.quot d rtt.Microsecond.

Definition ticket_Marshal (t : sessionTicket) : res bytes :=
  b ← quicvarint.Append [] sessionTicketRevision;
  b ← quicvarint.Append b (u64 (Microseconds (st_RTT t)));
  match st_Parameters t with None => Ok b | Some p => transportParameters.MarshalForSessionTicket b p end.

Definition ticket_Unmarshal (b : bytes) (using0RTT : bool) : res sessionTicket :=
  match quicvarint.Read b with
  | (Ok rev, b) =>
      if negb (rev =? sessionTicketRevision) then Err (ErrMsg "unknown session ticket revision") else
      match quicvarint.Read b with
      | (Ok r, b) =>
          let rtt := i64 (i64 r * rtt.Microsecond) in
          if using0RTT then
            match (transportParameters.UnmarshalFromSessionTicket transportParameters.noTransportParameters b).1 with
            | Ok tp => Ok (mkTicket (Some tp) rtt)
            | Err e => Err (ErrMsg "unmarshaling transport parameters from session ticket failed")
            | Panic m => Panic m
            end
          else if 0 <? blen b then Err (ErrMsg "the session ticket has more bytes than expected") else Ok (mkTicket None rtt)
      | (Err _, _) => Err (ErrMsg "failed to read RTT")
      | (Panic m, _) => Panic m
      end
  | (Err _, _) => Err (ErrMsg "failed to read session ticket revision")
  | (Panic m, _) => Panic m
  end.

Section tickets.
Context {T : Type} `{QUICConn T}.
Local Abbreviation CS := (cryptoSetup T).

Definition marshalDataForSessionState (earlyData : bool) (h : CS) : res bytes :=
  b ← quicvarint.Append [] clientSessionStateRevision;
  b ← quicvarint.Append b (u64 (Microseconds (rtt.smoothedRTT (rttStats h))));
  if earlyData then p ← deref (peerParams h); transportParameters.MarshalForSessionTicket b p else Ok b.

Definition decodeDataFromSessionState (data : bytes) (earlyData : bool) : res (Z * option transportParameters.TransportParameters) :=
  match (ver ← quicvarint.Read;
         if negb (ver =? clientSessionStateRevision) then rd_fail (ErrMsg "mismatching version") else
         r ← quicvarint.Read;
         let rtt := i64 (i64 r * rtt.Microsecond) in
         if negb earlyData then mret (rtt, None) else
         tp ← transportParameters.UnmarshalFromSessionTicket transportParameters.noTransportParameters;
         mret (rtt, Some tp)) data with
  | (r, _) => r
  end.

Definition handleDataFromSessionState (data : bytes) (earlyData : bool) : st CS bool := λ h,
  match decodeDataFromSessionState data earlyData with
  | Err _ => (Ok false, h)
  | Panic m => (Panic m, h)
  | Ok (r, tp) =>
      let h := set_rttStats (rtt.SetInitialRTT r (rttStats h)) h in
      match tp with
      | Some p => if allow0RTT h then (Ok true, set_params (peerParams h) (Some p) h) else (Ok false, h)
      | None => (Ok false, h)
      end
  end.

Definition getDataForSessionTicket (h : CS) : res bytes :=
  ticket_Marshal (mkTicket (if allow0RTT h then Some (ourParams h) else None) (rtt.smoothedRTT (rttStats h))).

Definition GetSessionTicket : st CS (option bytes) := λ h,
  let '(e, t) := tls_SendSessionTicket (allow0RTT h) (conn h) in
  let h := set_conn t h in
  match e with
  | Some e => if ticketKeysUnavailable e then (Ok None, h) else (Err e, h)
  | None =>
      let '(ev, t) := tls_NextEvent (conn h) in
      let h := set_conn t h in
      match ev with
      | QUICWriteData LevelApplication data =>
          let '(ev, t) := tls_NextEvent (conn h) in
          let h := set_conn t h in
          match ev with QUICNoEvent => (Ok (Some data), h) | _ => (Panic "crypto/tls bug: why more than one ticket?", h) end
      | _ => (Panic "crypto/tls bug: where's my session ticket?", h)
      end
  end.

Definition handleSessionTicket (data : bytes) (using0RTT : bool) : st CS bool := λ h,
  match ticket_Unmarshal data using0RTT with
  | Err _ => (Ok false, h)
  | Panic m => (Panic m, h)
  | Ok t =>
      let h := set_rttStats (rtt.SetInitialRTT (st_RTT t) (rttStats h)) h in
      if negb using0RTT then (Ok false, h) else
      match st_Parameters t with
      | None => (Panic "nil pointer dereference", h)
      | Some p => if negb (transportParameters.ValidFor0RTT p (ourParams h)) then (Ok false, h) else (Ok (allow0RTT h), h)
      end
  end.
End tickets.

(** * Address tokens *)

Inductive net_Addr := net_UDPAddr (ip : bytes) | net_Other (s : bytes).

Definition tokenPrefixIP : Z := 0.
Definition tokenPrefixString : Z := 1.
Definition tokenNonceSize : Z := 32.

Definition encodeRemoteAddr (a : net_Addr) : bytes :=
  match a with net_UDPAddr ip => tokenPrefixIP :: ip | net_Other s => tokenPrefixString :: s end.

(** The struct that is serialized, and the token that callers see. *)
Record token := mkToken { t_IsRetryToken : bool; t_RemoteAddr : bytes; t_Timestamp : Z; t_OriginalDestConnectionID : bytes; t_RetrySrcConnectionID : bytes }.
Record Token := mkAddrToken {
  IsRetryToken : bool;
  SentTime : Z;
  encodedRemoteAddr : bytes;
  OriginalDestConnectionID : ConnectionID;
  RetrySrcConnectionID : ConnectionID;
}.

Definition ValidateRemoteAddr (addr : net_Addr) (t : Token) : bool := bool_decide (encodeRemoteAddr addr = encodedRemoteAddr t).

(** encoding/asn1 *)
Class Asn1 := { asn1_Marshal : token → bytes; asn1_Unmarshal : bytes → res (token * bytes) }.
Class Asn1Laws `{Asn1} := { asn1_roundtrip t : asn1_Unmarshal (asn1_Marshal t) = Ok (t, []) }.

Section tokens.
Context `{Primitives} `{Asn1} (key : bytes).

Definition token_createAEAD (nonce : bytes) : bytes * bytes :=
  let h := hkdf_Expand SHA256 (hkdf_Extract SHA256 key nonce) (string_bytes "quic-go token source") (32 + 12) in
  (take 32 h, drop 32 h).

(** [nonce] are 32 random bytes. *)
Definition protector_NewToken (nonce data : bytes) : bytes :=
  let '(k, n) := token_createAEAD nonce in nonce ++ gcm_Seal k n data [].
Definition protector_DecodeToken (p : bytes) : res bytes :=
  if blen p <? tokenNonceSize then Err (ErrMsg "token too short") else
  let '(k, n) := token_createAEAD (take 32 p) in
  match gcm_Open k n (drop 32 p) [] with Some d => Ok d | None => Err (ErrMsg "cipher: message authentication failed") end.

Definition NewRetryToken (nonce : bytes) (now : Z) (raddr : net_Addr) (origDestConnID retrySrcConnID : ConnectionID) : bytes :=
  protector_NewToken nonce (asn1_Marshal (mkToken true (encodeRemoteAddr raddr) now (ConnectionID_Bytes origDestConnID) (ConnectionID_Bytes retrySrcConnID))).
Definition NewToken (nonce : bytes) (now : Z) (raddr : net_Addr) : bytes :=
  protector_NewToken nonce (asn1_Marshal (mkToken false (encodeRemoteAddr raddr) now [] [])).

Definition DecodeToken (encrypted : bytes) : res (option Token) :=
  if blen encrypted =? 0 then Ok None else
  data ← protector_DecodeToken encrypted;
  '(t, rest) ← asn1_Unmarshal data;
  if negb (blen rest =? 0) then Err (ErrMsg "rest when unpacking token") else
  if t_IsRetryToken t then
    o ← ParseConnectionID (t_OriginalDestConnectionID t);
    r ← ParseConnectionID (t_RetrySrcConnectionID t);
    Ok (Some (mkAddrToken true (t_Timestamp t) (t_RemoteAddr t) o r))
  else Ok (Some (mkAddrToken false (t_Timestamp t) (t_RemoteAddr t) ConnectionID_zero ConnectionID_zero)).
End tokens.

(** * Correctness of tickets and tokens *)

Lemma ticket_rtt r : 0 ≤ r < 2 ^ 63 → quicvarint.encodable (Microseconds r) ∧ u64 (Microseconds r) = Microseconds r ∧
  i64 (i64 (Microseconds r) * rtt.Microsecond) = r - r mod rtt.Microsecond.
Proof.
  intros Hr. unfold Microseconds, rtt.Microsecond in *. rewrite Z.quot_div_nonneg by lia. pose proof (Z.div_mod r 1000 ltac:(lia)). pose proof (Z.mod_pos_bound r 1000 ltac:(lia)).
  assert (0 ≤ r / 1000 < 2 ^ 60) by lia. split_and!; [unfold quicvarint.encodable, quicvarint.Max, quicvarint.maxVarInt8; lia|by rewrite u64_small by lia|]. rewrite (i64_small (r / 1000)) by lia.
  rewrite i64_small by lia. lia.
Qed.

Lemma ticket_read_rtt r b : 0 ≤ r < 2 ^ 63 → quicvarint.Append [] sessionTicketRevision = Ok (quicvarint.enc sessionTicketRevision) ∧
  quicvarint.Append (quicvarint.enc sessionTicketRevision) (u64 (Microseconds r)) = Ok (quicvarint.enc sessionTicketRevision ++ quicvarint.enc (Microseconds r)) ∧
  quicvarint.Read (quicvarint.enc sessionTicketRevision ++ quicvarint.enc (Microseconds r) ++ b) = (Ok sessionTicketRevision, quicvarint.enc (Microseconds r) ++ b) ∧
  quicvarint.Read (quicvarint.enc (Microseconds r) ++ b) = (Ok (Microseconds r), b).
Proof.
  intros Hr. destruct (ticket_rtt r Hr) as (He & Eu & _). assert (quicvarint.encodable sessionTicketRevision) by by vm_compute. rewrite Eu.
  split_and!; [by rewrite quicvarint.Append_enc|by rewrite quicvarint.Append_enc|by apply quicvarint.Read_enc|by apply quicvarint.Read_enc].
Qed.

Section resume.
Context {T : Type} `{QUICConn T}.

(** The ticket a server issues and what it makes of it in a later connection: the
    round-trip time is restored in microseconds; 0-RTT is accepted exactly if it is
    allowed in both connections, is asked for, and none of the limits went down
    since. *)
Theorem session_resumption (h h' : cryptoSetup T) using0RTT : transportParameters.tp_wf (ourParams h) → 0 ≤ rtt.smoothedRTT (rttStats h) < 2 ^ 63 →
  ∃ b, getDataForSessionTicket h = Ok b ∧ ∃ accepted h'', handleSessionTicket b using0RTT h' = (Ok accepted, h'') ∧
    (accepted = true → using0RTT = true ∧ allow0RTT h = true ∧ allow0RTT h' = true) ∧
    (allow0RTT h = true → using0RTT = true → allow0RTT h' = true →
      (accepted = true ↔ transportParameters.not_reduced (ourParams h) (ourParams h') ∧
        transportParameters.ActiveConnectionIDLimit (ourParams h') = transportParameters.ActiveConnectionIDLimit (ourParams h))) ∧
    (using0RTT = allow0RTT h → let r := rtt.smoothedRTT (rttStats h) in rttStats h'' = rtt.SetInitialRTT (r - r mod rtt.Microsecond) (rttStats h')).
Proof.
  intros Hwf Hr. destruct (ticket_rtt _ Hr) as (_ & _ & Ert). destruct (transportParameters.session_ticket _ Hwf) as (pb & Em & Eu & Hv).
  pose proof (λ b, transportParameters.Ticket_items b _ Hwf) as Hti. rewrite Hti, app_nil_l in Em.
  set (tb := quicvarint.enc transportParameters.transportParameterMarshalingVersion ++ _) in *. assert (pb = tb) as -> by congruence.
  assert (Htb : 0 < blen tb).
  { unfold tb. rewrite blen_app. pose proof (blen_nonneg (transportParameters.tlvs (transportParameters.ticketItems (ourParams h)))).
    change (blen (quicvarint.enc transportParameters.transportParameterMarshalingVersion)) with 1. lia. }
  clearbody tb. clear Em.
  unfold getDataForSessionTicket, ticket_Marshal. cbn [st_RTT st_Parameters]. destruct (allow0RTT h).
  - destruct (ticket_read_rtt (rtt.smoothedRTT (rttStats h)) tb Hr) as (E1 & E2 & E3 & E4). rewrite E1. cbn [mbind res_bind]. rewrite E2. cbn [mbind res_bind].
    rewrite Hti. eexists. split; [done|]. rewrite <- app_assoc. unfold handleSessionTicket, ticket_Unmarshal.
    rewrite E3. cbn [negb Z.eqb sessionTicketRevision Pos.eqb]. rewrite E4, Eu, Ert. cbn [fst]. destruct using0RTT; cbn.
    + destruct (Hv (ourParams h')) as [Hval _]. clear Hv Eu E1 E2 E3 E4 Hti Ert Hwf.
      destruct (transportParameters.ValidFor0RTT _ _); cbn; do 2 eexists; (split; [done|]); split_and!; try done.
      intros _ _ Ha. split; [|done]. intros _. by apply Hval.
    + rewrite (proj2 (Z.ltb_lt _ _)) by done. do 2 eexists. by split_and!.
  - destruct (ticket_read_rtt (rtt.smoothedRTT (rttStats h)) [] Hr) as (E1 & E2 & E3 & E4). rewrite E1. cbn [mbind res_bind]. rewrite E2. cbn [mbind res_bind].
    eexists. split; [done|]. rewrite app_nil_r in *. unfold handleSessionTicket, ticket_Unmarshal. rewrite E3. cbn [negb Z.eqb sessionTicketRevision Pos.eqb].
    rewrite E4, Ert. destruct using0RTT; cbn; do 2 eexists; (split; [done|]); by split_and!.
Qed.
End resume.

Section token_laws.
Context `{PrimitivesLaws} `{Asn1Laws} (key : bytes).

Lemma protector_roundtrip nonce data : blen nonce = tokenNonceSize → protector_DecodeToken key (protector_NewToken key nonce data) = Ok data.
Proof.
  intros Hn. assert (Hl : length nonce = 32%nat) by (unfold blen, tokenNonceSize in Hn; lia). unfold protector_DecodeToken, protector_NewToken.
  destruct (token_createAEAD key nonce) as [k n] eqn:E. rewrite (proj2 (Z.ltb_ge _ _)) by (rewrite blen_app, Hn; pose proof (blen_nonneg (gcm_Seal k n data [])); lia).
  rewrite take_app_length', drop_app_length' by done. by rewrite E, gcm_roundtrip.
Qed.

Lemma NewToken_nonempty nonce data : blen nonce = tokenNonceSize → (blen (protector_NewToken key nonce data) =? 0) = false.
Proof.
  intros Hn. unfold protector_NewToken. destruct (token_createAEAD key nonce) as [k n]. apply Z.eqb_neq. rewrite blen_app, Hn.
  pose proof (blen_nonneg (gcm_Seal k n data [])). unfold tokenNonceSize. lia.
Qed.

Lemma ValidateRemoteAddr_same addr addr' b t o r : ValidateRemoteAddr addr' (mkAddrToken b t (encodeRemoteAddr addr) o r) = true ↔ addr' = addr.
Proof.
  unfold ValidateRemoteAddr. rewrite bool_decide_eq_true. cbn [encodedRemoteAddr]. split; [|by intros ->].
  destruct addr, addr'; cbn; unfold tokenPrefixIP, tokenPrefixString; intros E; by inversion E.
Qed.

(** Address tokens: what a server puts into a Retry token or the token of a
    NEW_TOKEN frame it reads back from it, and the token is valid for the address
    it was made for and no other; the empty token is no token; a token whose
    ciphertext is not authentic, or that is shorter than the nonce, is an error. *)
Theorem address_tokens nonce now addr o r : blen nonce = tokenNonceSize → ConnectionID_wf o → ConnectionID_wf r →
  (∃ t, DecodeToken key (NewRetryToken key nonce now addr o r) = Ok (Some t) ∧ IsRetryToken t = true ∧ SentTime t = now ∧
     OriginalDestConnectionID t = o ∧ RetrySrcConnectionID t = r ∧ ∀ addr', ValidateRemoteAddr addr' t = true ↔ addr' = addr) ∧
  (∃ t, DecodeToken key (NewToken key nonce now addr) = Ok (Some t) ∧ IsRetryToken t = false ∧ SentTime t = now ∧
     ∀ addr', ValidateRemoteAddr addr' t = true ↔ addr' = addr) ∧
  DecodeToken key [] = Ok None ∧
  ∀ p, p ≠ [] → blen p < tokenNonceSize ∨ (let '(k, n) := token_createAEAD key (take 32 p) in gcm_Open k n (drop 32 p) [] = None) →
    ∃ e, DecodeToken key p = Err e.
Proof.
  intros Hn Ho Hr. split_and!; [..|done|].
  - unfold DecodeToken, NewRetryToken. rewrite NewToken_nonempty, protector_roundtrip by done. cbn [mbind res_bind]. rewrite asn1_roundtrip. cbn.
    rewrite !ParseConnectionID_Bytes by done. cbn. eexists. split; [done|]. split_and!; try done. intros. apply ValidateRemoteAddr_same.
  - unfold DecodeToken, NewToken. rewrite NewToken_nonempty, protector_roundtrip by done. cbn [mbind res_bind]. rewrite asn1_roundtrip. cbn.
    eexists. split; [done|]. split_and!; try done. intros. apply ValidateRemoteAddr_same.
  - intros p Hp Hbad. unfold DecodeToken. rewrite (proj2 (Z.eqb_neq _ _)) by (intros E%blen_0_nil; done). unfold protector_DecodeToken.
    destruct (Z.ltb_spec (blen p) tokenNonceSize); [by eexists|]. destruct Hbad as [|Hbad]; [lia|].
    destruct (token_createAEAD key (take 32 p)) as [k n]. rewrite Hbad. by eexists.
Qed.
End token_laws.

#[local] Existing Instance toy.
#[local] Existing Instance toy_laws.

(** A serialization with the lengths in front. *)
#[local] Instance toy_asn1 : Asn1 := {
  asn1_Marshal t := [if t_IsRetryToken t then 1 else 0; t_Timestamp t; blen (t_RemoteAddr t); blen (t_OriginalDestConnectionID t)] ++
    t_RemoteAddr t ++ t_OriginalDestConnectionID t ++ t_RetrySrcConnectionID t;
  asn1_Unmarshal b :=
    match b with
    | retry :: ts :: n :: m :: b => Ok (mkToken (retry =? 1) (take (Z.to_nat n) b) ts (take (Z.to_nat m) (drop (Z.to_nat n) b)) (drop (Z.to_nat m) (drop (Z.to_nat n) b)), [])
    | _ => Err (ErrMsg "asn1: syntax error")
    end;
}.

#[local] Instance toy_asn1_laws : Asn1Laws.
Proof.
  split. intros [retry addr ts o r]. cbn -[Z.to_nat]. rewrite !to_nat_blen. repeat first [rewrite take_app_length|rewrite drop_app_length]. by destruct retry.
Qed.

Lemma address_tokens_witness : ∃ t, DecodeToken [1; 2; 3] (NewRetryToken [1; 2; 3] (zeros 32) 77 (net_UDPAddr [192; 0; 2; 1]) (example_cid [1; 2; 3; 4]) (example_cid [5; 6])) = Ok (Some t) ∧
  OriginalDestConnectionID t = example_cid [1; 2; 3; 4] ∧ ValidateRemoteAddr (net_UDPAddr [192; 0; 2; 2]) t = false.
Proof.
  destruct (address_tokens [1; 2; 3] (zeros 32) 77 (net_UDPAddr [192; 0; 2; 1]) (example_cid [1; 2; 3; 4]) (example_cid [5; 6]) eq_refl)
    as [(t & E & _ & _ & Eo & _ & Hv) _]; [exists [1; 2; 3; 4]; by split_and!|exists [5; 6]; by split_and!|].
  exists t. split; [exact E|]. split; [exact Eo|]. apply not_true_iff_false. intros H%Hv. discriminate H.
Defined.

(** * Keys of the two sides *)

Section match_keys.
Context {T : Type} `{QUICConn T} `{PrimitivesLaws}.

Lemma newLongKeys_ok id s secret v : getCipherSuite id = Ok s → ∃ a hp, newLongKeys id secret v = Ok (a, hp) ∧ isLong hp = true.
Proof.
  intros E. unfold newLongKeys. rewrite E. cbn [mbind res_bind]. destruct (createAEAD_ok s secret v) as (a & Ea & _). rewrite Ea. cbn.
  assert (Hs : suite_ok s). { revert E. unfold suite_ok, getCipherSuite. repeat zcase; intros [= <-]; done. }
  destruct (newHeaderProtector_ok s secret true v Hs) as (hp & -> & Hl). by exists a, hp.
Qed.

(** The Handshake keys of one side and of the other, from the same secret of TLS. *)
Lemma handshake_keys_match id s secret (h h' : cryptoSetup T) : getCipherSuite id = Ok s → version h = version h' →
  ∃ h1 h1' sl op, setWriteKey LevelHandshake id secret h = (Ok tt, h1) ∧ setReadKey LevelHandshake id secret h' = (Ok tt, h1') ∧
    GetHandshakeSealer h1 = Ok sl ∧ GetHandshakeOpener h1' = Ok op ∧ matching sl op ∧ isLong (ls_headerProtector sl) = true.
Proof.
  intros E Ev. destruct (newLongKeys_ok id s secret (version h) E) as (a & hp & Ek & Hl). unfold setWriteKey, setReadKey, mbind, st_bind, st_get, st_lift, st_modify.
  rewrite E, <- Ev, Ek. do 4 eexists. by split_and!.
Qed.

(** A 1-RTT packet that arrives before the handshake is complete makes a server
    drop its 0-RTT keys: the time since completion is measured from the zero time. *)
Lemma early_packet_drops_0rtt_keys (h : cryptoSetup T) now o : zeroRTTOpener h = Some o → handshakeCompleteTime h = 0 → has1RTTOpener h = false →
  rttStats h = rtt.NewRTTStats → 2 ^ 63 ≤ now → ∃ h', Get1RTTOpener now h = (Err ErrKeysNotYetAvailable, h') ∧ zeroRTTOpener h' = None.
Proof.
  intros E1 E2 E3 E4 Hn. unfold Get1RTTOpener. rewrite E1, E2, E4, (Z.min_l _ (now - 0)) by lia.
  assert (E : (i64 (3 * rtt.PTO true rtt.NewRTTStats) <? 2 ^ 63 - 1) = true) by by vm_compute. rewrite E. cbn. rewrite E3. by eexists.
Qed.

(** Errors in the peer's transport parameters are reported as internal errors. *)
Lemma parameter_error_internal (h : cryptoSetup T) fuel now random additional ev e h' :
  AlertError (TransportError TransportParameterError 0 e) = None →
  tls_NextEvent (conn h) = (QUICTransportParameters ev, h') → perspective h = PerspectiveClient →
  transportParameters.Unmarshal ev PerspectiveServer transportParameters.noTransportParameters = Err (TransportError TransportParameterError 0 e) →
  ∃ h1 cause, wrapped (eventLoop (S fuel) now random additional) h = (Err (TransportError InternalError 0 cause), h1).
Proof.
  intros Ha En Ep Eu. unfold wrapped. cbn [eventLoop]. unfold mbind, st_bind, nextTLSEvent. rewrite En. cbn.
  unfold handleTransportParameters, mbind, st_bind, st_get, st_lift. cbn [perspective set_conn]. rewrite Ep, Eu. unfold wrapError. rewrite Ha. by do 2 eexists.
Qed.
End match_keys.

End cryptoSetup.
