(* ===== verification/Unpacker.v ===== *)
(** The packet unpacker (packet_unpacker.go): removing header protection and
    opening packets with the keys of the crypto setup, and the proof that what the
    packet packer seals is unpacked by the peer. *)

From S2P Require Import Prelude.
From S2P Require Import Protocol.
From S2P Require Import Headers.
From S2P Require Import Ecn.
From S2P Require Import RetransmissionQueue.
From S2P Require Import PacketPacker.
From S2P Require Import TransportParameters.
From S2P Require Import PacketProtection.
From S2P Require Import KeyUpdate.
From S2P Require Import CryptoSetup.

Module unpacker.
Import protocol headers protection keyUpdate cryptoSetup.
Import (hints) packer.

(** An error of the type [headerParseError] is a result of its own. *)
Inductive unpack (A : Type) := Unpacked (a : A) | HeaderParseError (e : go_error).
Arguments Unpacked {A} _.
Arguments HeaderParseError {A} _.

Record unpackedPacket := mkUnpacked { up_hdr : ExtendedHeader; up_encryptionLevel : EncryptionLevel; up_data : bytes }.

Definition errTooSmall : go_error := ErrMsg "packet too small".
Definition errEmpty : go_error := TransportError ProtocolViolation 0 (ErrMsg "empty packet").

(** Steps 1 and 2: [hd] is applied to the first byte and the four bytes at
    [hdrLen], with the sample behind them. *)
Definition unprotect (hd : bytes → Z → bytes → res (Z * bytes)) (hdrLen : Z) (data : bytes) : res bytes :=
  let n := Z.to_nat hdrLen in
  '(first, pnb) ← hd (take 16 (drop (n + 4) data)) (default 0 (head data)) (take 4 (drop n data));
  Ok (first :: take (n - 1) (tail data) ++ pnb ++ drop (n + 4) data).

(** Step 4: the bytes from [from] to [hdrLen + 4] are those of the packet as it
    was received. *)
Definition restore (from hdrLen : Z) (orig data : bytes) : bytes :=
  take (Z.to_nat from) data ++ drop (Z.to_nat from) (take (Z.to_nat hdrLen + 4) orig) ++ drop (Z.to_nat hdrLen + 4) data.

Definition unpackShortHeader (hd : bytes → Z → bytes → res (Z * bytes)) (connIDLen : Z) (data : bytes)
    : res (Z * Z * Z * KeyPhaseBit * bool * bytes) :=
  let hdrLen := 1 + connIDLen in
  if blen data <? hdrLen + 4 + 16 then Err errTooSmall else
  d ← unprotect hd hdrLen data;
  '(l, pn, pnLen, kp, reserved) ← ParseShortHeader d connIDLen;
  let d := if negb (pnLen =? 4) then restore (hdrLen + pnLen) hdrLen data d else d in
  Ok (l, pn, pnLen, kp, reserved, d).

Definition unpackLongHeader (hd : bytes → Z → bytes → res (Z * bytes)) (hdr : Header) (data : bytes) : res (ExtendedHeader * bool * bytes) :=
  let hdrLen := parsedLen hdr in
  if blen data <? hdrLen + 4 + 16 then Err errTooSmall else
  d ← unprotect hd hdrLen data;
  '(ext, reserved) ← (ParseExtended hdr d).1;
  let d := if negb (PacketNumberLen ext =? 4) then restore (eh_parsedLen ext) hdrLen data d else d in
  Ok (ext, reserved, d).

Section unpack.
Context {T : Type} `{QUICConn T} `{Primitives}.
Local Abbreviation CS := (cryptoSetup T).

Definition unpackShortHeaderPacket (r : rtt.RTTStats) (connIDLen rcvTime : Z) (data : bytes) : st updatableAEAD (unpack (Z * Z * KeyPhaseBit * bytes)) := λ a,
  match unpackShortHeader (λ sample first hdr, short_DecryptHeader sample first hdr a) connIDLen data with
  | Panic m => (Panic m, a)
  | Err e => (Ok (HeaderParseError e), a)
  | Ok (l, pn, pnLen, kp, reserved, d) =>
      let pn := short_DecodePacketNumber pn pnLen a in
      match Open r (drop (Z.to_nat l) d) rcvTime pn kp (take (Z.to_nat l) d) a with
      | (Ok dec, a) => if reserved : bool then (Ok (Unpacked (pn, pnLen, kp, dec)), a) else (Err ErrInvalidReservedBits, a)
      | (Err e, a) => (Err e, a)
      | (Panic m, a) => (Panic m, a)
      end
  end.

Definition UnpackShortHeader (connIDLen now rcvTime : Z) (data : bytes) : st CS (unpack (Z * Z * KeyPhaseBit * bytes)) :=
  _ ← Get1RTTOpener now;
  h ← st_get;
  p ← on_aead (unpackShortHeaderPacket (rttStats h) connIDLen rcvTime data);
  match p with
  | HeaderParseError e => mret (HeaderParseError e)
  | Unpacked (pn, pnLen, kp, dec) => if blen dec =? 0 then st_fail errEmpty else mret (Unpacked (pn, pnLen, kp, dec))
  end.

Definition unpackLongHeaderPacket (hdr : Header) (data : bytes) : st longHeaderOpener (unpack (ExtendedHeader * bytes)) := λ o,
  match unpackLongHeader (hp_apply (lo_headerProtector o)) hdr data with
  | Panic m => (Panic m, o)
  | Err e => (Ok (HeaderParseError e), o)
  | Ok (ext, reserved, d) =>
      let l := Z.to_nat (eh_parsedLen ext) in
      let pn := long_DecodePacketNumber o (PacketNumber ext) (PacketNumberLen ext) in
      match long_Open (drop l d) pn (take l d) o with
      | (Ok dec, o) =>
          if reserved : bool then (Ok (Unpacked (mkExtendedHeader (eh_Header ext) (eh_typeByte ext) (PacketNumberLen ext) pn (eh_parsedLen ext), dec)), o)
          else (Err ErrInvalidReservedBits, o)
      | (Err e, o) => (Err e, o)
      | (Panic m, o) => (Panic m, o)
      end
  end.

(** The opener of a level, and storing it again. *)
Definition getOpener (t : option PacketType) (h : CS) : res (EncryptionLevel * longHeaderOpener) :=
  match t with
  | Some PacketTypeInitial => o ← GetInitialOpener h; Ok (EncryptionInitial, o)
  | Some PacketTypeHandshake => o ← GetHandshakeOpener h; Ok (EncryptionHandshake, o)
  | Some PacketType0RTT => o ← Get0RTTOpener h; Ok (Encryption0RTT, o)
  | _ => Err (ErrMsg "unknown packet type")
  end.
Definition putOpener (l : EncryptionLevel) (o : longHeaderOpener) (h : CS) : CS :=
  match l with
  | EncryptionInitial => set_initial (Some o) (initialSealer h) h
  | EncryptionHandshake => set_handshake (Some o) (handshakeSealer h) h
  | _ => set_zeroRTT (Some o) (zeroRTTSealer h) (used0RTT h) h
  end.

Definition UnpackLongHeader (hdr : Header) (data : bytes) : st CS (unpack unpackedPacket) := λ h,
  match getOpener (h_Type hdr) h with
  | Err e => (Err e, h)
  | Panic m => (Panic m, h)
  | Ok (l, o) =>
      let '(r, o) := unpackLongHeaderPacket hdr data o in
      let h := putOpener l o h in
      match r with
      | Ok (Unpacked (ext, dec)) => if blen dec =? 0 then (Err errEmpty, h) else (Ok (Unpacked (mkUnpacked ext l dec)), h)
      | Ok (HeaderParseError e) => (Ok (HeaderParseError e), h)
      | Err e => (Err e, h)
      | Panic m => (Panic m, h)
      end
  end.

(** The crypto setup as the packer's sealing manager. *)
Definition cs_GetSealer (l : EncryptionLevel) (h : CS) : option go_error :=
  let err {A} (r : res A) := match r with Err e => Some e | _ => None end in
  match l with
  | EncryptionInitial => err (GetInitialSealer h)
  | EncryptionHandshake => err (GetHandshakeSealer h)
  | Encryption0RTT => err (Get0RTTSealer h)
  | Encryption1RTT => err (Get1RTTSealer h)
  end.
Definition longSealer (l : EncryptionLevel) (h : CS) : option longHeaderSealer :=
  match l with EncryptionInitial => initialSealer h | EncryptionHandshake => handshakeSealer h | Encryption0RTT => zeroRTTSealer h | Encryption1RTT => None end.
Definition cs_Seal (l : EncryptionLevel) (src : bytes) (pn : Z) (ad : bytes) : st CS bytes :=
  match l with
  | Encryption1RTT => on_aead (Seal src pn ad)
  | _ => h ← st_get; s ← st_lift (deref (longSealer l h)); mret (long_Seal s src pn ad)
  end.
Definition cs_EncryptHeader (l : EncryptionLevel) (sample : bytes) (first : Z) (hdr : bytes) (h : CS) : res (Z * bytes) :=
  match l with
  | Encryption1RTT => short_EncryptHeader sample first hdr (aead h)
  | _ => s ← deref (longSealer l h); hp_apply (ls_headerProtector s) sample first hdr
  end.

#[export] Instance cs_sealing : packer.sealingManager CS := {
  packer.GetSealer l h := (cs_GetSealer l h, h);
  packer.Overhead l h := xorNonce_Overhead;
  packer.KeyPhase := on_aead KeyPhase;
  packer.Seal := cs_Seal;
  packer.EncryptHeader l sample first hdr h := match cs_EncryptHeader l sample first hdr h with Ok r => r | _ => (first, hdr) end;
}.
End unpack.

(** * Removing the protection of what was protected *)

Section protect.
Context `{PrimitivesLaws}.

(** With a sample header protection is a mask for the first byte and one for the
    packet number. *)
Lemma hp_apply_form p sample : blen sample = 16 → ∃ x m, 0 ≤ x < (if isLong p then 16 else 32) ∧ (4 ≤ length m)%nat ∧
  ∀ first hdr, blen hdr ≤ 4 → hp_apply p sample first hdr = Ok (Z.lxor first x, zip_with Z.lxor hdr m).
Proof.
  intros Hs. pose proof (hp_mask_length p sample) as Hm. destruct (hp_mask p sample) as [|m0 m] eqn:Em; [unfold blen in Hm; cbn in Hm; lia|].
  exists (Z.land m0 (if isLong p then 15 else 31)), m. split_and!.
  - destruct (isLong p); [change 15 with (Z.ones 4)|change 31 with (Z.ones 5)]; rewrite Z.land_ones by lia; by apply Z.mod_pos_bound.
  - destruct (isLong p); [change 15 with (Z.ones 4)|change 31 with (Z.ones 5)]; rewrite Z.land_ones by lia; by apply Z.mod_pos_bound.
  - unfold blen in Hm. cbn in Hm. lia.
  - intros first hdr Hh. unfold hp_apply. rewrite Hs, Em. cbn [negb Z.eqb Pos.eqb]. unfold applyMask. change (get_at (m0 :: m) 0) with (Ok m0).
    cbn [mbind res_bind tail]. by rewrite (proj2 (Z.leb_gt _ _)) by lia.
Qed.

Lemma zip_lxor_take l m : (length l ≤ length m)%nat → zip_with Z.lxor (zip_with Z.lxor l m) (take (length l) m) = l.
Proof.
  revert m. induction l as [|x l IH]; intros [|y m] Hl; cbn in *; try done; [lia|].
  by rewrite Z.lxor_assoc, Z.lxor_nilpotent, Z.lxor_0_r, IH by lia.
Qed.

Lemma lxor_byte a x : 0 ≤ a < 256 → 0 ≤ x < 32 → 0 ≤ Z.lxor a x < 256.
Proof.
  intros Ha Hx. assert (Hn : 0 ≤ Z.lxor a x) by (apply Z.lxor_nonneg; lia). split; [done|]. destruct (decide (Z.lxor a x = 0)) as [->|Hne]; [lia|].
  apply (Z.log2_lt_pow2 _ 8); [lia|]. pose proof (Z.log2_lxor a x ltac:(lia) ltac:(lia)).
  assert (Hb : ∀ y, 0 ≤ y < 256 → Z.log2 y < 8). { intros y Hy. destruct (decide (y = 0)) as [->|]; [done|]. apply Z.log2_lt_pow2; lia. }
  pose proof (Hb a Ha). pose proof (Hb x ltac:(lia)). lia.
Qed.

(** The bytes of a packet with protected header. *)
Definition protected (hp : headerProtector) (f : Z) (mid pnb c : bytes) (wire : bytes) : Prop :=
  let sample := take 16 (drop (4 - length pnb) c) in
  ∃ f' pnb', hp_apply hp sample f pnb = Ok (f', pnb') ∧ wire = f' :: mid ++ pnb' ++ c.

Lemma unprotect_protected hp f mid pnb c wire : protected hp f mid pnb c wire → 1 ≤ blen pnb ≤ 4 → 20 ≤ blen pnb + blen c →
  let n := 1 + blen mid in ∃ g, blen g = 4 - blen pnb ∧
    unprotect (hp_apply hp) n wire = Ok (f :: mid ++ pnb ++ g ++ drop (4 - length pnb) c) ∧
    restore (n + blen pnb) n wire (f :: mid ++ pnb ++ g ++ drop (4 - length pnb) c) = f :: mid ++ pnb ++ c ∧ (blen pnb = 4 → g = [] ∧ drop (4 - length pnb) c = c) ∧
    n + 4 + 16 ≤ blen wire.
Proof.
  intros (f' & pnb' & E & ->) Hp Hc n. assert (Hpl : (1 ≤ length pnb ≤ 4)%nat) by (unfold blen in Hp; lia).
  assert (Hcl : (20 ≤ length pnb + length c)%nat) by (unfold blen in Hc; lia). revert E.
  assert (Hq : length (take (4 - length pnb) c) = (4 - length pnb)%nat) by (rewrite length_take; lia).
  assert (Hc2 : (16 ≤ length (drop (4 - length pnb) c))%nat) by (rewrite length_drop; lia).
  pose proof (take_drop (4 - length pnb) c) as Ec. revert Hq Hc2 Ec. generalize (take (4 - length pnb) c) as q, (drop (4 - length pnb) c) as c2.
  intros q c2 Hq Hc2 <- E. clear Hc Hcl. assert (Hs : blen (take 16 c2) = 16) by (unfold blen; rewrite length_take; lia).
  destruct (hp_apply_form hp _ Hs) as (x & m & Hx & Hm & Hf). rewrite Hf in E by lia. injection E as <- <-.
  assert (Hpl' : length (zip_with Z.lxor pnb m) = length pnb) by (rewrite length_zip_with; lia).
  exists (zip_with Z.lxor q (drop (length pnb) m)). assert (Hg : length (zip_with Z.lxor q (drop (length pnb) m)) = (4 - length pnb)%nat).
  { rewrite length_zip_with, length_drop. lia. }
  assert (En : Z.to_nat n = S (length mid)) by (unfold n, blen; lia). split; [unfold blen in *; lia|]. split; [|split_and!].
  - unfold unprotect. rewrite En. cbn [plus skipn head default tail]. unfold id. rewrite !drop_app_add, drop_app_length.
    rewrite !(app_assoc _ q c2), !(take_app_length' (_ ++ q)), !(drop_app_length' (_ ++ q)) by (rewrite length_app; lia).
    rewrite Hf by (unfold blen; rewrite length_app; lia). cbn [mbind res_bind Nat.sub]. rewrite Nat.sub_0_r, take_app_length.
    rewrite Z.lxor_assoc, Z.lxor_nilpotent, Z.lxor_0_r, zip_with_app_l, Hpl', zip_lxor_take, <- app_assoc by lia. done.
  - unfold restore. rewrite En. replace (Z.to_nat (n + blen pnb)) with (S (length mid + length pnb)) by (unfold n, blen; lia).
    cbn [plus skipn firstn]. f_equal. rewrite take_app_add, take_app_length. cbn [app]. rewrite <- app_assoc. do 3 f_equal.
    rewrite take_app_add, !drop_app_add, !(app_assoc _ q c2), (take_app_length' (_ ++ q)) by (rewrite length_app; lia).
    rewrite (drop_app_length' (zip_with Z.lxor pnb m)) by done. rewrite (app_assoc pnb), drop_app_length' by (rewrite length_app; lia). done.
  - intros Hp4. unfold blen in Hp4. destruct q; [|cbn in Hq; lia]. done.
  - unfold n, blen. cbn [length]. rewrite !length_app, Hpl'. lia.
Qed.
End protect.

(** * What is packed is unpacked *)

Section roundtrip.
Context {T : Type} `{QUICConn T} `{PrimitivesLaws}.
Local Abbreviation CS := (cryptoSetup T).

(** [encryptPacket] of the packer with the keys of a crypto setup. *)
Lemma encryptPacket_protected hp l f mid pnb body pn room p (e e1 : CS) c : let hdr := f :: mid ++ pnb in
  1 ≤ blen pnb ≤ 4 → 4 ≤ blen pnb + blen body → 16 ≤ room → cs_Seal l body pn hdr e = (Ok c, e1) → blen c = blen body + 16 →
  (∀ sample first x, cs_EncryptHeader l sample first x e1 = hp_apply hp sample first x) →
  ∃ wire, packer.encryptPacket (hdr ++ body) l pn (blen hdr) (blen pnb) room (p, e) = (Ok wire, (p, e1)) ∧ protected hp f mid pnb c wire ∧
    blen wire = blen hdr + blen c.
Proof.
  intros hdr Hp Hb Hroom Es Hc Hh. unfold packer.encryptPacket. rewrite to_nat_blen, take_app_length, drop_app_length.
  unfold mbind at 1, st_bind at 1, packer.getE at 1. cbn [packer.Overhead cs_sealing]. rewrite (proj2 (Z.ltb_ge _ _)) by (unfold xorNonce_Overhead; lia).
  unfold mbind at 1, st_bind at 1, packer.onE. cbn [packer.Seal cs_sealing]. rewrite Es.
  assert (Hpl : (1 ≤ length pnb ≤ 4)%nat) by (unfold blen in Hp; lia).
  assert (Hhl : blen hdr = 1 + blen mid + blen pnb) by (unfold hdr; autorewrite with blen; lia).
  replace (blen hdr - blen pnb) with (1 + blen mid) by lia. rewrite (proj2 (Z.ltb_ge _ _)) by (rewrite blen_app; lia).
  unfold mbind at 1, st_bind at 1, packer.getE. cbn [packer.EncryptHeader cs_sealing]. rewrite Hh.
  replace (Z.to_nat (1 + blen mid + 4)) with (S (length mid + 4)) by (unfold blen; lia). replace (Z.to_nat (1 + blen mid)) with (S (length mid)) by (unfold blen; lia).
  unfold hdr. cbn [app skipn head default tail]. unfold id. rewrite <- !app_assoc, drop_app_add, drop_app_length.
  replace (Z.to_nat (blen pnb)) with (length pnb) by (unfold blen; lia). rewrite take_app_length.
  replace (drop 4 (pnb ++ c)) with (drop (4 - length pnb) c) by (rewrite drop_app, (drop_ge pnb) by lia; done).
  set (sample := take 16 (drop (4 - length pnb) c)). assert (Hs : blen sample = 16).
  { unfold sample, blen in *. rewrite length_take, length_drop. lia. }
  destruct (hp_apply_form hp sample Hs) as (x & m & Hx & Hm & Hf). rewrite Hf by lia. eexists. split; [done|].
  replace (Z.to_nat (1 + blen mid - 1)) with (length mid) by (unfold blen; lia). rewrite take_app_length.
  change (f :: mid ++ pnb ++ c) with ([f] ++ mid ++ pnb ++ c). replace ([f] ++ mid ++ pnb ++ c) with ((f :: mid ++ pnb) ++ c) by (cbn; by rewrite <- app_assoc).
  rewrite drop_app_length. split.
  - unfold protected. fold sample. do 2 eexists. split; [by apply Hf; lia|]. done.
  - autorewrite with blen. unfold blen in *. rewrite length_zip_with. lia.
Qed.

(** A short header in its parts. *)
Lemma short_header_form cid pn pnLen kp : ConnectionID_wf cid → 1 ≤ pnLen ≤ 4 → kp ≠ KeyPhaseUndefined →
  ∃ f pnb, AppendShortHeader [] cid pn pnLen kp = Ok (f :: ConnectionID_Bytes cid ++ pnb) ∧ blen pnb = pnLen ∧
    ∀ payload, ParseShortHeader (f :: ConnectionID_Bytes cid ++ pnb ++ payload) (ConnectionID_Len cid) =
      Ok (1 + ConnectionID_Len cid + pnLen, pn mod 2 ^ (8 * pnLen), pnLen, kp, true).
Proof.
  intros Hc Hl Hk. destruct (short_header_roundtrip [] cid pn pnLen kp Hc Hl Hk) as (w & E & Hw & Hp).
  destruct (packet_number_roundtrip ([] ++ [short_first pnLen kp] ++ ConnectionID_Bytes cid) pn pnLen Hl) as (pnb & Ep & Hpl & _).
  change (AppendShortHeader [] cid pn pnLen kp = Ok ((short_first pnLen kp :: ConnectionID_Bytes cid) ++ pnb)) in Ep.
  exists (short_first pnLen kp), pnb. split; [done|]. rewrite E in Ep. assert (w = short_first pnLen kp :: ConnectionID_Bytes cid ++ pnb) as -> by (injection Ep; done).
  split; [done|]. intros payload. destruct (Hp payload) as [_ Eq]. cbn [app] in *. rewrite <- app_assoc in Eq. rewrite Eq.
  destruct (ConnectionID_Len_Bytes _ Hc) as [Hcl _]. unfold ShortHeaderLen in Hw. autorewrite with blen in *. do 5 f_equal; lia.
Qed.

Lemma unpackShortHeader_protected hp cid pn pnLen kp f pnb c wire : ConnectionID_wf cid → 1 ≤ pnLen ≤ 4 → blen pnb = pnLen → 20 ≤ pnLen + blen c →
  (∀ payload, ParseShortHeader (f :: ConnectionID_Bytes cid ++ pnb ++ payload) (ConnectionID_Len cid) =
      Ok (1 + ConnectionID_Len cid + pnLen, pn mod 2 ^ (8 * pnLen), pnLen, kp, true)) →
  protected hp f (ConnectionID_Bytes cid) pnb c wire →
  unpackShortHeader (hp_apply hp) (ConnectionID_Len cid) wire =
    Ok (1 + ConnectionID_Len cid + pnLen, pn mod 2 ^ (8 * pnLen), pnLen, kp, true, (f :: ConnectionID_Bytes cid ++ pnb) ++ c).
Proof.
  intros Hc Hl <- Hcl Hparse Hpr. destruct (ConnectionID_Len_Bytes _ Hc) as [Hcid _].
  destruct (unprotect_protected hp f _ pnb c wire Hpr ltac:(lia) ltac:(lia)) as (g & Hg & Eu & Er & E4 & Hwl). rewrite Hcid in *.
  unfold unpackShortHeader. rewrite (proj2 (Z.ltb_ge _ _)) by lia. rewrite Eu. cbn [mbind res_bind]. rewrite Hparse. cbn [mbind res_bind].
  replace ((f :: ConnectionID_Bytes cid ++ pnb) ++ c) with (f :: ConnectionID_Bytes cid ++ pnb ++ c) by (cbn; by rewrite <- app_assoc).
  destruct (Z.eqb_spec (blen pnb) 4) as [Hp4|]; cbn [negb]; [|by rewrite Er]. by destruct (E4 Hp4) as [-> ->].
Qed.

Lemma Get1RTTOpener_aead now (h : CS) : has1RTTOpener h = true → ∃ h', Get1RTTOpener now h = (Ok (aead h), h') ∧ aead h' = aead h.
Proof. intros Ho. unfold Get1RTTOpener. destruct (zeroRTTOpener h) as [o|]; [destruct (_ <? _)|]; cbn; rewrite Ho; by eexists. Qed.

(** Opening keeps the header keys and, by itself, the highest packet number. *)
Lemma open_keeps r src now pn kp ad a x a' : open r src now pn kp ad a = (x, a') →
  highestRcvdPN a' = highestRcvdPN a ∧ headerDecrypter a' = headerDecrypter a.
Proof.
  assert (Hd : highestRcvdPN (dropExpired now a) = highestRcvdPN a ∧ headerDecrypter (dropExpired now a) = headerDecrypter a).
  { unfold dropExpired. destruct (prevRcvAEAD a); [|done]. by destruct (_ && _). }
  destruct Hd as [<- <-]. unfold open, rollKeys, mbind, st_bind, st_modify, st_get, st_lift, mret, st_ret, st_fail. generalize (dropExpired now a) as a1. intros a1.
  repeat case_match; intros; simplify_eq; done.
Qed.

(** C9: a 1-RTT packet from the packer to the unpacker.  The header and the
    payload that [encryptPacket] protects with the keys of one endpoint are
    recovered by the peer in the same key phase: the packet number (if it can be
    decoded), its length, the key phase and the payload; the packet grows by the
    16 bytes of the tag. *)
Theorem short_packet_unpacked s v secret b j hp cid pn pnLen body room p (e h : CS) now rcvTime :
  ConnectionID_wf cid → 1 ≤ pnLen ≤ 4 → body ≠ [] → 4 ≤ pnLen + blen body → 16 ≤ room →
  keyed s v secret b j (aead e) → headerEncrypter (aead e) = Some hp →
  keyed s v secret (negb b) j (aead h) → headerDecrypter (aead h) = Some hp → has1RTTOpener h = true →
  DecodePacketNumber pnLen (highestRcvdPN (aead h)) (pn mod 2 ^ (8 * pnLen)) = pn →
  ∃ hdr wire e' h', AppendShortHeader [] cid pn pnLen (bitOf j) = Ok hdr ∧
    packer.encryptPacket (hdr ++ body) Encryption1RTT pn (blen hdr) pnLen room (p, e) = (Ok wire, (p, e')) ∧ blen wire = blen hdr + blen body + 16 ∧
    UnpackShortHeader (ConnectionID_Len cid) now rcvTime wire h = (Ok (Unpacked (pn, pnLen, bitOf j, body)), h') ∧
    keyed s v secret (negb b) j (aead h') ∧ highestRcvdPN (aead h') = Z.max (highestRcvdPN (aead h)) pn.
Proof.
  intros Hc Hl Hne Hbody Hroom Hk Hhe Hk' Hhd Hopen Hdec.
  assert (Hkp : bitOf j ≠ KeyPhaseUndefined) by (unfold bitOf, KeyPhase_Bit; by destruct (_ =? _)).
  destruct (short_header_form cid pn pnLen (bitOf j) Hc Hl Hkp) as (f & pnb & Eh & Hpl & Hparse). destruct (ConnectionID_Len_Bytes _ Hc) as [Hcid _].
  set (hdr := f :: ConnectionID_Bytes cid ++ pnb) in *. set (c := sealedWith s v secret b j pn body hdr).
  assert (Hcl : blen c = blen body + 16) by apply xorNonce_length.
  assert (Es : ∃ e1, cs_Seal Encryption1RTT body pn hdr e = (Ok c, e1) ∧ headerEncrypter (aead e1) = Some hp).
  { unfold cs_Seal, on_aead, Seal, mbind, st_bind, st_modify, st_get, st_lift, mret, st_ret. cbn [suite set_sent sendAEAD].
    rewrite (k_suite _ _ _ _ _ _ Hk), (k_send _ _ _ _ _ _ Hk). cbn [deref]. by eexists. }
  destruct Es as (e1 & Es & Hhe1).
  destruct (encryptPacket_protected hp Encryption1RTT f (ConnectionID_Bytes cid) pnb body pn room p e e1 c) as (wire & Ew & Hpr & Hwl); try done; try lia.
  { intros sample first x. cbn. unfold short_EncryptHeader. by rewrite Hhe1. }
  fold hdr in Ew, Hwl. rewrite Hpl in Ew. exists hdr, wire, e1.
  destruct (Get1RTTOpener_aead now h Hopen) as (h0 & Eg & Ha).
  destruct (open_current s v secret (rttStats h0) (negb b) j rcvTime pn body hdr (aead h) Hk') as (a' & Eo & Hk'' & _). rewrite negb_involutive in Eo. fold c in Eo.
  destruct (open_keeps _ _ _ _ _ _ _ _ _ Eo) as [Hhi _].
  eexists. split; [done|]. split; [done|]. split; [lia|]. split; [|split].
  - unfold UnpackShortHeader. rewrite (st_bind_ok _ _ _ _ _ Eg). unfold mbind at 1, st_bind at 1, st_get. unfold mbind, st_bind, on_aead, unpackShortHeaderPacket.
    rewrite Ha. replace (λ sample first hdr0, short_DecryptHeader sample first hdr0 (aead h)) with (hp_apply hp).
    2:{ unfold short_DecryptHeader. by rewrite Hhd. }
    rewrite (unpackShortHeader_protected hp cid pn pnLen (bitOf j) f pnb c wire Hc Hl Hpl ltac:(lia) Hparse Hpr). fold hdr.
    replace (Z.to_nat (1 + ConnectionID_Len cid + pnLen)) with (length hdr) by (unfold hdr, blen in *; cbn; rewrite length_app; lia).
    rewrite take_app_length, drop_app_length. unfold short_DecodePacketNumber. rewrite Hdec, (Open_ok _ _ _ _ _ _ _ _ _ Eo).
    rewrite (proj2 (Z.eqb_neq _ _)); [done|]. by intros E%blen_0_nil.
  - cbn. by eapply keyed_same; [exact Hk''|..]; try done; left.
  - cbn. by rewrite Hhi.
Qed.

(** The level of a packet type *)
Definition levelOf (typ : PacketType) : EncryptionLevel :=
  match typ with PacketTypeHandshake => EncryptionHandshake | PacketType0RTT => Encryption0RTT | _ => EncryptionInitial end.

Lemma getOpener_put typ (h : CS) o o' : getOpener (Some typ) h = Ok (levelOf typ, o) → getOpener (Some typ) (putOpener (levelOf typ) o' h) = Ok (levelOf typ, o').
Proof.
  by destruct typ.
Qed.

Lemma shiftr_lxor_low f x : 0 ≤ x < 16 → Z.shiftr (Z.lxor f x) 4 = Z.shiftr f 4.
Proof. intros Hx. rewrite Z.shiftr_lxor, (Z.shiftr_div_pow2 x), Z.div_small by lia. by rewrite Z.lxor_0_r. Qed.

Lemma unpackLongHeader_protected hp hdr' f mid pnb c wire ext : parsedLen hdr' = 1 + blen mid → 1 ≤ blen pnb ≤ 4 → 20 ≤ blen pnb + blen c →
  (∀ payload, blen payload = blen c → (ParseExtended hdr' (f :: mid ++ pnb ++ payload)).1 = Ok (ext, true)) → PacketNumberLen ext = blen pnb → eh_parsedLen ext = blen (f :: mid ++ pnb) →
  protected hp f mid pnb c wire →
  unpackLongHeader (hp_apply hp) hdr' wire = Ok (ext, true, (f :: mid ++ pnb) ++ c).
Proof.
  intros Hpl Hl Hcl Hparse Hpn Hel Hpr. destruct (unprotect_protected hp f mid pnb c wire Hpr ltac:(lia) ltac:(lia)) as (g & Hg & Eu & Er & E4 & Hwl).
  unfold unpackLongHeader. rewrite Hpl, (proj2 (Z.ltb_ge _ _)) by lia. rewrite Eu. cbn [mbind res_bind].
  rewrite Hparse by (unfold blen in *; rewrite length_app, length_drop; lia). cbn [mbind res_bind].
  replace ((f :: mid ++ pnb) ++ c) with (f :: mid ++ pnb ++ c) by (cbn; by rewrite <- app_assoc).
  rewrite Hpn, Hel. replace (blen (f :: mid ++ pnb)) with (1 + blen mid + blen pnb) by (autorewrite with blen; lia).
  destruct (Z.eqb_spec (blen pnb) 4) as [Hp4|]; cbn [negb]; [|by rewrite Er]. by destruct (E4 Hp4) as [-> ->].
Qed.

(** C10: an Initial, 0-RTT or Handshake packet from the packer to the unpacker.
    What [encryptPacket] protects is, with any coalesced packets behind it, cut
    out of the datagram by [ParsePacket] with its connection IDs, version, token
    and length, and [UnpackLongHeader] of a peer with the matching opener returns
    the payload and the packet number and keeps its opener for the next packet. *)
Theorem long_packet_unpacked v typ eh body room p (e h : CS) sl o next :
  writable v typ eh → body ≠ [] → 4 ≤ PacketNumberLen eh + blen body → 16 ≤ room → h_Length (eh_Header eh) = PacketNumberLen eh + blen body + 16 →
  longSealer (levelOf typ) e = Some sl → getOpener (Some typ) h = Ok (levelOf typ, o) → matching sl o → isLong (ls_headerProtector sl) = true →
  DecodePacketNumber (PacketNumberLen eh) (lo_highestRcvdPN o) (PacketNumber eh mod 2 ^ (8 * PacketNumberLen eh)) = PacketNumber eh →
  ∃ hdr wire hdr' ext o', ExtendedHeader_Append [] v eh = Ok hdr ∧
    packer.encryptPacket (hdr ++ body) (levelOf typ) (PacketNumber eh) (blen hdr) (PacketNumberLen eh) room (p, e) = (Ok wire, (p, e)) ∧
    blen wire = blen hdr + blen body + 16 ∧
    (∀ n, wire_ParseConnectionID (wire ++ next) n = Ok (DestConnectionID (eh_Header eh))) ∧
    ParsePacket (wire ++ next) = Ok (Parsed hdr' wire next) ∧ h_Type hdr' = Some typ ∧ h_Version hdr' = v ∧
    SrcConnectionID hdr' = SrcConnectionID (eh_Header eh) ∧ DestConnectionID hdr' = DestConnectionID (eh_Header eh) ∧ h_Token hdr' = h_Token (eh_Header eh) ∧
    UnpackLongHeader hdr' wire h = (Ok (Unpacked (mkUnpacked ext (levelOf typ) body)), putOpener (levelOf typ) o' h) ∧
    eh_Header ext = hdr' ∧ PacketNumber ext = PacketNumber eh ∧ PacketNumberLen ext = PacketNumberLen eh ∧
    getOpener (Some typ) (putOpener (levelOf typ) o' h) = Ok (levelOf typ, o') ∧ matching sl o' ∧
    lo_highestRcvdPN o' = Z.max (lo_highestRcvdPN o) (PacketNumber eh).
Proof.
  intros Hw Hne Hbody Hroom Hlen Hsl Hop Hm Hlong Hdec. destruct (long_header_roundtrip [] v typ eh Hw) as (f & mid & pnb & Ea & _ & Hpl & Hf & Hall).
  assert (Hl : 1 ≤ PacketNumberLen eh ≤ 4) by apply Hw. assert (Ht : levelOf typ ≠ Encryption1RTT) by (by destruct typ).
  set (hdr := f :: mid ++ pnb) in *. set (hp := ls_headerProtector sl) in *. set (c := long_Seal sl body (PacketNumber eh) hdr).
  assert (Hcl : blen c = blen body + 16) by apply xorNonce_length.
  destruct (encryptPacket_protected hp (levelOf typ) f mid pnb body (PacketNumber eh) room p e e c) as (wire & Ew & Hpr & Hwl); try done; try lia.
  { unfold cs_Seal. destruct (levelOf typ); try done; unfold mbind, st_bind, st_get; cbn [st_lift]; by rewrite Hsl. }
  { intros sample first x. unfold cs_EncryptHeader. destruct (levelOf typ); try done; by rewrite Hsl. }
  fold hdr in Ew, Hwl. rewrite Hpl in Ew. pose proof Hpr as (f' & pnb' & Eh & Ewire).
  assert (Hs : blen (take 16 (drop (4 - length pnb) c)) = 16) by (unfold blen in *; rewrite length_take, length_drop; lia).
  destruct (hp_apply_form hp _ Hs) as (x & m & Hx & Hml & Hfm). rewrite Hlong in Hx. rewrite Hfm in Eh by lia. injection Eh as <- <-.
  assert (Hpl' : blen (zip_with Z.lxor pnb m) = blen pnb) by (unfold blen in *; rewrite length_zip_with; lia).
  assert (Hbl : blen (zip_with Z.lxor pnb m ++ c) = h_Length (eh_Header eh)) by (rewrite blen_app; lia).
  destruct (Hall (Z.lxor f x) (zip_with Z.lxor pnb m) c next) as (Hid & Hpp & _); [by apply lxor_byte; lia|by apply shiftr_lxor_low|done|done|].
  cbv zeta in Hid, Hpp. rewrite <- Ewire in Hid, Hpp.
  set (hdr' := mkHeader (Z.lxor f x) _ _ _ _ _ _ _) in Hpp.
  set (ext := mkExtendedHeader hdr' f (PacketNumberLen eh) (PacketNumber eh mod 2 ^ (8 * PacketNumberLen eh)) (blen hdr)).
  assert (Eul : unpackLongHeader (hp_apply hp) hdr' wire = Ok (ext, true, hdr ++ c)).
  { apply unpackLongHeader_protected; try done; try lia. intros payload Hpay.
    destruct (Hall (Z.lxor f x) (zip_with Z.lxor pnb m) payload next) as (_ & _ & Hext); [by apply lxor_byte; lia|by apply shiftr_lxor_low|done|rewrite blen_app; lia|].
    cbv zeta in Hext. fold hdr' in Hext. by rewrite Hext. }
  destruct (long_roundtrip sl o body (PacketNumber eh) hdr Hm) as (o' & Eo & Hm' & Hhi).
  exists hdr, wire, hdr'. eexists _, o'. split; [done|]. split; [done|]. split; [lia|]. split; [done|]. split; [done|]. do 5 (split; [done|]). split.
  - unfold UnpackLongHeader. change (h_Type hdr') with (Some typ). rewrite Hop. unfold unpackLongHeaderPacket. destruct Hm as [_ ->]. fold hp. rewrite Eul.
    cbn [ext eh_parsedLen PacketNumber PacketNumberLen eh_Header]. rewrite to_nat_blen, take_app_length, drop_app_length.
    unfold long_DecodePacketNumber. rewrite Hdec. unfold c. rewrite Eo. rewrite (proj2 (Z.eqb_neq _ _)); [done|]. by intros E%blen_0_nil.
  - do 3 (split; [done|]). split; [by eapply getOpener_put|done].
Qed.

(** ** Arbitrary input *)

Lemma hp_apply_total hp sample f pnb : blen sample = 16 → blen pnb ≤ 4 → ∃ r, hp_apply hp sample f pnb = Ok r.
Proof. intros Hs Hp. destruct (hp_apply_form hp sample Hs) as (x & m & _ & _ & Hf). rewrite Hf by done. by eexists. Qed.

Lemma unprotect_total hp n data : 0 ≤ n → n + 20 ≤ blen data → ∃ d, unprotect (hp_apply hp) n data = Ok d.
Proof.
  intros Hn Hl. unfold unprotect. destruct (hp_apply_total hp (take 16 (drop (Z.to_nat n + 4) data)) (default 0 (head data)) (take 4 (drop (Z.to_nat n) data))) as [[f pnb] ->].
  - unfold blen in *. rewrite length_take, length_drop. lia.
  - unfold blen. rewrite length_take. lia.
  - by eexists.
Qed.

Lemma ParseShortHeader_total data n : 0 ≤ n → match ParseShortHeader data n with Panic _ => False | _ => True end.
Proof.
  intros Hn. unfold ParseShortHeader. destruct data as [|f data]; [done|]. destruct (_ <? _); [done|]. destruct (_ =? _); [done|].
  destruct (Z.ltb_spec (blen (f :: data)) (1 + u8 (Z.land f 3 + 1) + n)); [done|].
  assert (Hl : u8 (Z.land f 3 + 1) ≤ blen (drop (Z.to_nat (1 + n)) (f :: data))) by (unfold blen in *; rewrite length_drop; lia).
  revert Hl. generalize (u8 (Z.land f 3 + 1)) as k, (drop (Z.to_nat (1 + n)) (f :: data)) as d. intros k d Hl.
  assert (Hg : match getPacketNumber k d with Panic _ => False | _ => True end).
  { unfold getPacketNumber. destruct (Z.eqb_spec k 1); [|destruct (Z.eqb_spec k 2); [|destruct (Z.eqb_spec k 3); [|destruct (Z.eqb_spec k 4); [|done]]]];
      subst; do 5 try (destruct d as [|? d]; [unfold blen in Hl; cbn in Hl; lia|]); done. }
  by destruct (getPacketNumber k d).
Qed.

Lemma ParseExtended_total hdr data : match (ParseExtended hdr data).1 with Panic _ => False | _ => True end.
Proof.
  unfold ParseExtended, readPacketNumber, ReadUint16, ReadUint24, ReadUint32, seek, rd_len, rd_fail, mbind, rd_bind, mret, rd_ret.
  destruct data as [|t data]; [done|]. cbn [ReadByte]. generalize (drop (Z.to_nat (parsedLen hdr - 1)) data) as d. intros d.
  do 4 (destruct (_ =? _); [do 4 try (destruct d as [|? d]; [done|]); done|]). done.
Qed.

Lemma unpackShortHeader_total hp n data : 0 ≤ n → match unpackShortHeader (hp_apply hp) n data with Panic _ => False | _ => True end.
Proof.
  intros Hn. unfold unpackShortHeader. destruct (Z.ltb_spec (blen data) (1 + n + 4 + 16)); [done|].
  destruct (unprotect_total hp (1 + n) data) as [d ->]; [lia..|]. cbn [mbind res_bind]. pose proof (ParseShortHeader_total d n Hn).
  by destruct (ParseShortHeader d n) as [[[[[] ] ] ]| |].
Qed.

Lemma unpackLongHeader_total hp hdr data : 0 ≤ parsedLen hdr → match unpackLongHeader (hp_apply hp) hdr data with Panic _ => False | _ => True end.
Proof.
  intros Hn. unfold unpackLongHeader. destruct (Z.ltb_spec (blen data) (parsedLen hdr + 4 + 16)); [done|].
  destruct (unprotect_total hp (parsedLen hdr) data) as [d ->]; [lia..|]. cbn [mbind res_bind]. pose proof (ParseExtended_total hdr d).
  by destruct (ParseExtended hdr d).1 as [[]| |].
Qed.

(** What opening a 1-RTT packet needs it keeps, and it does not panic. *)
Definition opens (a : updatableAEAD) : Prop := is_Some (suite a) ∧ is_Some (headerDecrypter a) ∧ is_Some (rcvAEAD a) ∧ is_Some (nextRcvAEAD a).

Lemma dropExpired_opens now a : opens a → opens (dropExpired now a).
Proof. intros Ho. unfold dropExpired. destruct (prevRcvAEAD a); [|done]. by destruct (_ && _). Qed.

Lemma rollKeys_opens a : opens a → ∃ a', rollKeys a = (Ok tt, a') ∧ opens a'.
Proof.
  intros ([s Hs] & Hh & Hr & Hn). set (f := λ a, match prevRcvAEAD a with Some _ => set_prev (prevRcvAEAD a) 0 a | None => a end).
  assert (suite (f a) = Some s ∧ headerDecrypter (f a) = headerDecrypter a ∧ nextRcvAEAD (f a) = nextRcvAEAD a) as (E1 & E2 & E3).
  { unfold f. by destruct (prevRcvAEAD a). }
  unfold rollKeys. fold f. unfold mbind, st_bind, st_modify, st_get, st_lift. cbn [suite nextRcvTrafficSecret nextSendTrafficSecret ua_version].
  rewrite E1. cbn [deref]. destruct (createAEAD_ok s (getNextTrafficSecret (suite_Hash s) (nextRcvTrafficSecret (f a))) (ua_version (f a))) as (k1 & -> & _).
  destruct (createAEAD_ok s (getNextTrafficSecret (suite_Hash s) (nextSendTrafficSecret (f a))) (ua_version (f a))) as (k2 & -> & _).
  eexists. split; [done|]. unfold opens. cbn. rewrite E2, E3. eauto.
Qed.

(** One of the keys of the receiver opens the ciphertext. *)
Definition authentic (a : updatableAEAD) (pn : Z) (src ad dec : bytes) : Prop :=
  ∃ k, (rcvAEAD a = Some k ∨ prevRcvAEAD a = Some k ∨ nextRcvAEAD a = Some k) ∧ xorNonce_Open k (PutUint64 (u64 pn)) src ad = Some dec.

Definition errTooQuick : go_error := TransportError KeyUpdateError 0 (ErrMsg "keys updated too quickly").
Definition errAEADLimit : go_error := TransportError AEADLimitReached 0 (ErrMsg "").

Lemma dropExpired_authentic now a pn src ad dec : authentic (dropExpired now a) pn src ad dec → authentic a pn src ad dec.
Proof.
  intros (k & Hk & Ho). exists k. split; [|done]. unfold dropExpired in Hk. destruct (prevRcvAEAD a) eqn:E; [|by rewrite E in Hk].
  destruct (_ && _); cbn in Hk; [|by rewrite E in Hk]. destruct Hk as [|[|]]; [by left|done|by right; right].
Qed.

Lemma open_total r src now pn kp ad a : opens a → let '(x, a') := open r src now pn kp ad a in opens a' ∧
  match x with
  | Panic _ => False
  | Err e => a' = dropExpired now a ∧ (e = ErrDecryptionFailed ∨ e = ErrKeysDropped ∨ e = errTooQuick ∧ ∃ dec, authentic a pn src ad dec)
  | Ok dec => authentic a pn src ad dec
  end.
Proof.
  intros Ho%(dropExpired_opens now). pose proof (dropExpired_authentic now a pn src ad) as Ha.
  unfold open, mbind, st_bind, st_modify, st_get, st_lift. generalize dependent (dropExpired now a). intros a' Ho Ha.
  pose proof Ho as ([s Es] & Hh & [kr Er] & [kn En]). rewrite Es. cbn [deref]. destruct (negb _).
  - destruct (_ || _); [destruct (prevRcvAEAD a') as [k|] eqn:Ep; [|cbn; by auto]; unfold aead_Open; destruct (xorNonce_Open k _ _ _) as [dec|] eqn:E|].
    + split; [done|]. apply Ha. exists k. auto.
    + cbn. auto.
    + rewrite En. cbn [deref]. unfold aead_Open. destruct (xorNonce_Open kn _ _ _) as [dec|] eqn:E; [|cbn; by auto].
      assert (Hd : authentic a pn src ad dec) by (apply Ha; exists kn; auto). destruct (_ && _).
      { split; [done|]. split; [done|]. right; right. split; [done|]. by exists dec. }
      destruct (rollKeys_opens a' Ho) as (a1 & -> & Ho'). by split.
  - rewrite Er. cbn [deref]. unfold aead_Open. destruct (xorNonce_Open kr _ _ _) as [dec|] eqn:E; [|cbn; by auto].
    assert (Hd : authentic a pn src ad dec) by (apply Ha; exists kr; auto). destruct (_ =? _); [|done]. by destruct (_ <? _).
Qed.

(** Once there is an opener for 1-RTT packets, there are the keys that it uses. *)
Definition ready (h : CS) : Prop := has1RTTOpener h = true → opens (aead h).

(** A packet that is not accepted: it is counted, towards the limit of the AEAD,
    or its keys were dropped. *)
Definition rejected (now : Z) (e : go_error) (a a' : updatableAEAD) : Prop :=
  e = (if invalidPacketLimit a <=? u64 (invalidPacketCount a + 1) then errAEADLimit else ErrDecryptionFailed) ∧
    a' = set_invalid (u64 (invalidPacketCount a + 1)) (dropExpired now a) ∨
  e = ErrKeysDropped ∧ a' = dropExpired now a.

Lemma dropExpired_counts now a : invalidPacketLimit (dropExpired now a) = invalidPacketLimit a ∧ invalidPacketCount (dropExpired now a) = invalidPacketCount a.
Proof. unfold dropExpired. destruct (prevRcvAEAD a); [|done]. by destruct (_ && _). Qed.

Lemma Open_total r src now pn kp ad a : opens a → let '(x, a') := Open r src now pn kp ad a in opens a' ∧
  match x with
  | Panic _ => False
  | Err e => rejected now e a a' ∨ e = errTooQuick ∧ a' = dropExpired now a ∧ ∃ dec, authentic a pn src ad dec
  | Ok dec => authentic a pn src ad dec
  end.
Proof.
  intros Ho. pose proof (open_total r src now pn kp ad a Ho) as Hs. unfold Open. destruct (open r src now pn kp ad a) as [[dec|e|m] a'] eqn:E; [|..|done].
  - by destruct Hs.
  - destruct Hs as (Ho' & -> & Hs). destruct (dropExpired_counts now a) as [E1 E2]. case_bool_decide as He.
    + split; [done|]. left. left. cbn [invalidPacketLimit invalidPacketCount set_invalid]. rewrite E1, E2, He. done.
    + split; [done|]. destruct Hs as [|[->|(-> & Hs)]]; [done|left; by right|by right].
Qed.

(** The header of a 1-RTT packet was unprotected and parsed, and its payload was
    opened with one of the receiver's keys. *)
Definition opened (connIDLen : Z) (data : bytes) (a : updatableAEAD) (pn : Z) (dec : bytes) : Prop :=
  ∃ hp l wirePN pnLen kp reserved d, headerDecrypter a = Some hp ∧
    unpackShortHeader (hp_apply hp) connIDLen data = Ok (l, wirePN, pnLen, kp, reserved, d) ∧
    pn = short_DecodePacketNumber wirePN pnLen a ∧ authentic a pn (drop (Z.to_nat l) d) (take (Z.to_nat l) d) dec.

Lemma unpackShortHeaderPacket_total r n rcvTime data a : 0 ≤ n → opens a → let '(x, a') := unpackShortHeaderPacket r n rcvTime data a in opens a' ∧
  match x with
  | Panic _ => False
  | Err e => rejected rcvTime e a a' ∨ ∃ pn dec, opened n data a pn dec ∧ (e = ErrInvalidReservedBits ∨ e = errTooQuick ∧ a' = dropExpired rcvTime a)
  | Ok (HeaderParseError _) => a' = a
  | Ok (Unpacked (pn, _, _, dec)) => opened n data a pn dec
  end.
Proof.
  intros Hn Ho. unfold unpackShortHeaderPacket. pose proof Ho as (_ & [hp Eh] & _). unfold short_DecryptHeader. rewrite Eh. cbn [deref mbind res_bind].
  pose proof (unpackShortHeader_total hp n data Hn) as Hu. change (λ sample first hdr, hp_apply hp sample first hdr) with (hp_apply hp).
  destruct (unpackShortHeader (hp_apply hp) n data) as [[[[[[l pn] pnLen] kp] reserved] d]|e|m] eqn:Eu; [|done|done].
  pose proof (Open_total r (drop (Z.to_nat l) d) rcvTime (short_DecodePacketNumber pn pnLen a) kp (take (Z.to_nat l) d) a Ho) as Hs.
  assert (Hop : ∀ dec, authentic a (short_DecodePacketNumber pn pnLen a) (drop (Z.to_nat l) d) (take (Z.to_nat l) d) dec →
    opened n data a (short_DecodePacketNumber pn pnLen a) dec) by (intros dec Hd; by exists hp, l, pn, pnLen, kp, reserved, d).
  destruct (Open _ _ _ _ _ _ _) as [[dec|e|m] a'] eqn:E; destruct Hs as [Ho' Hs]; [| |done].
  - destruct reserved; (split; [done|]); [by apply Hop|]. right. eexists _, dec. split; [by apply Hop|by left].
  - split; [done|]. destruct Hs as [Hs|(-> & -> & dec & Hs)]; [by left|right]. eexists _, dec. split; [by apply Hop|by right].
Qed.

(** [Get1RTTOpener] drops the keys for 0-RTT packets three PTOs after the handshake
    completed; before that, the time is measured from the zero time. *)
Definition drop_0rtt (now : Z) (h : CS) : CS :=
  if bool_decide (is_Some (zeroRTTOpener h)) && (i64 (3 * rtt.PTO true (rttStats h)) <? Z.min (2 ^ 63 - 1) (now - handshakeCompleteTime h))
  then set_zeroRTT None (zeroRTTSealer h) (used0RTT h) h else h.

Lemma Get1RTTOpener_eq now (h : CS) : Get1RTTOpener now h = (if has1RTTOpener h then Ok (aead h) else Err ErrKeysNotYetAvailable, drop_0rtt now h) ∧
  aead (drop_0rtt now h) = aead h ∧ has1RTTSealer (drop_0rtt now h) = has1RTTSealer h ∧ has1RTTOpener (drop_0rtt now h) = has1RTTOpener h ∧
  set_aead (aead h) (has1RTTSealer h) (has1RTTOpener h) (drop_0rtt now h) = drop_0rtt now h.
Proof. unfold Get1RTTOpener, drop_0rtt. destruct h as [c ev v op pp zp al rs pe hc zo zs io si ho hs us ae s1 o1]; cbn. destruct zo as [o|]; cbn; [destruct (_ <? _)|]; done. Qed.

Lemma putOpener_same t (h : CS) l o : getOpener t h = Ok (l, o) → putOpener l o h = h.
Proof.
  unfold getOpener, mbind, res_bind, GetInitialOpener, GetHandshakeOpener, Get0RTTOpener.
  destruct h. destruct t as [[]|]; cbn; repeat case_match; intros; simplify_eq/=; done.
Qed.

Lemma getOpener_total t (h : CS) m : getOpener t h ≠ Panic m.
Proof.
  unfold getOpener, mbind, res_bind, GetInitialOpener, GetHandshakeOpener, Get0RTTOpener.
  destruct h. destruct t as [[]|]; cbn; repeat case_match; intros; simplify_eq/=; done.
Qed.

(** A long header packet was opened with the key of its level: only the highest
    packet number received at this level changes. *)
Definition long_opened (hdr : Header) (data : bytes) (h h' : CS) (dec : bytes) : Prop :=
  ∃ l o ext reserved d pn, getOpener (h_Type hdr) h = Ok (l, o) ∧ unpackLongHeader (hp_apply (lo_headerProtector o)) hdr data = Ok (ext, reserved, d) ∧
    pn = long_DecodePacketNumber o (PacketNumber ext) (PacketNumberLen ext) ∧
    xorNonce_Open (lo_aead o) (PutUint64 (u64 pn)) (drop (Z.to_nat (eh_parsedLen ext)) d) (take (Z.to_nat (eh_parsedLen ext)) d) = Some dec ∧
    h' = putOpener l (mkLongOpener (lo_aead o) (lo_headerProtector o) (Z.max (lo_highestRcvdPN o) pn)) h.

Lemma UnpackShortHeader_safe (h : CS) connIDLen now rcvTime data : ready h → 0 ≤ connIDLen →
  let '(r, h') := UnpackShortHeader connIDLen now rcvTime data h in ready h' ∧
   h' = set_aead (aead h') (has1RTTSealer h) (has1RTTOpener h) (drop_0rtt now h) ∧
   match r with
   | Panic _ => False
   | Ok (HeaderParseError _) => aead h' = aead h
   | Err e => e = ErrKeysNotYetAvailable ∧ has1RTTOpener h = false ∧ aead h' = aead h ∨ rejected rcvTime e (aead h) (aead h') ∨
       ∃ pn dec, opened connIDLen data (aead h) pn dec ∧
         (e = ErrInvalidReservedBits ∨ e = errEmpty ∧ dec = [] ∨ e = errTooQuick ∧ aead h' = dropExpired rcvTime (aead h))
   | Ok (Unpacked (pn, _, _, dec)) => dec ≠ [] ∧ opened connIDLen data (aead h) pn dec
   end.
Proof.
  intros Hr Hn. destruct (Get1RTTOpener_eq now h) as (Eg & Ea & Es & Eo & Eset). unfold UnpackShortHeader, mbind, st_bind. rewrite Eg.
  destruct (has1RTTOpener h) eqn:Eh.
  2:{ rewrite Ea. split; [unfold ready; by rewrite Eo|]. split; [done|]. by left. }
  unfold st_get, on_aead. rewrite Ea, Es, Eo.
  pose proof (unpackShortHeaderPacket_total (rttStats (drop_0rtt now h)) connIDLen rcvTime data (aead h) Hn (Hr Eh)) as Hu.
  destruct (unpackShortHeaderPacket _ _ _ _ _) as [[[[[[pn pnLen] kp] dec]|e]|e|m] a']; destruct Hu as [Ho' Hu]; [| | |done].
  - destruct (Z.eqb_spec (blen dec) 0) as [Hz|Hz]; (split; [by intros _|]); (split; [done|]).
    + right; right. exists pn, dec. split; [done|]. right; left. split; [done|by apply blen_0_nil].
    + split; [by intros ->|done].
  - split; [by intros _|done].
  - split; [by intros _|]. split; [done|]. right. destruct Hu as [Hu|(pn & dec & Hu & He)]; [by left|right]. exists pn, dec. split; [done|]. tauto.
Qed.

Lemma UnpackLongHeader_safe (h : CS) data hdr : 0 ≤ parsedLen hdr →
  let '(r, h') := UnpackLongHeader hdr data h in aead h' = aead h ∧
   match r with
   | Panic _ => False
   | Ok (HeaderParseError _) => h' = h
   | Err e => h' = h ∧ (e = ErrDecryptionFailed ∨ getOpener (h_Type hdr) h = Err e) ∨
       ∃ dec, long_opened hdr data h h' dec ∧ (e = ErrInvalidReservedBits ∨ e = errEmpty ∧ dec = [])
   | Ok (Unpacked p) => up_data p ≠ [] ∧ long_opened hdr data h h' (up_data p)
   end.
Proof.
  intros Hp. unfold UnpackLongHeader. destruct (getOpener (h_Type hdr) h) as [[l o]|e|m] eqn:Eo; [|by auto|by apply getOpener_total in Eo].
  unfold unpackLongHeaderPacket. pose proof (unpackLongHeader_total (lo_headerProtector o) hdr data Hp) as Hu.
  destruct (unpackLongHeader _ _ _) as [[[ext reserved] d]|e|m] eqn:Eu; [|by rewrite (putOpener_same _ _ _ _ Eo)|done].
  unfold long_Open. destruct (xorNonce_Open _ _ _ _) as [dec|] eqn:Ex; [|rewrite (putOpener_same _ _ _ _ Eo); by auto].
  set (pn := long_DecodePacketNumber o (PacketNumber ext) (PacketNumberLen ext)) in *.
  set (o' := mkLongOpener _ _ _). assert (Ha : aead (putOpener l o' h) = aead h) by (by destruct l).
  assert (Hop : long_opened hdr data h (putOpener l o' h) dec) by (by exists l, o, ext, reserved, d, pn).
  destruct reserved; [|split; [done|]; right; exists dec; by auto]. destruct (Z.eqb_spec (blen dec) 0) as [Hz|Hz]; (split; [done|]).
  - right. exists dec. split; [done|]. right. split; [done|by apply blen_0_nil].
  - cbn [up_data]. split; [by intros ->|done].
Qed.

(** C20: [UnpackShortHeader] and [UnpackLongHeader] are safe on every packet,
    whoever sent it.  They never panic.  Every result of [UnpackShortHeader] leaves
    the crypto setup as it was except for the state of the 1-RTT keys, and for the
    0-RTT keys, which are dropped when their time is over, before the packet is
    authenticated ([drop_0rtt]; before the handshake completes this time counts from
    the zero time).  A payload is returned, or one of the errors for reserved bits,
    an empty payload or an early key update, only if one of the receiver's keys
    opened the packet; then the payload is not empty.  Any other packet does not
    change the keys: without 1-RTT keys or with an unparsable header nothing is
    changed; if no key opens the packet it is counted, with the error
    AEAD_LIMIT_REACHED once the limit is reached, and previous keys that have
    expired are dropped, which is all that happens to a packet whose keys are
    gone.  A long header packet changes the highest packet number received, if the
    key of its level opened it, and nothing otherwise. *)
Theorem unpack_safe (h : CS) connIDLen now rcvTime data hdr : ready h → 0 ≤ connIDLen → 0 ≤ parsedLen hdr →
  (let '(r, h') := UnpackShortHeader connIDLen now rcvTime data h in ready h' ∧
   h' = set_aead (aead h') (has1RTTSealer h) (has1RTTOpener h) (drop_0rtt now h) ∧
   match r with
   | Panic _ => False
   | Ok (HeaderParseError _) => aead h' = aead h
   | Err e => e = ErrKeysNotYetAvailable ∧ has1RTTOpener h = false ∧ aead h' = aead h ∨ rejected rcvTime e (aead h) (aead h') ∨
       ∃ pn dec, opened connIDLen data (aead h) pn dec ∧
         (e = ErrInvalidReservedBits ∨ e = errEmpty ∧ dec = [] ∨ e = errTooQuick ∧ aead h' = dropExpired rcvTime (aead h))
   | Ok (Unpacked (pn, _, _, dec)) => dec ≠ [] ∧ opened connIDLen data (aead h) pn dec
   end) ∧
  (let '(r, h') := UnpackLongHeader hdr data h in aead h' = aead h ∧
   match r with
   | Panic _ => False
   | Ok (HeaderParseError _) => h' = h
   | Err e => h' = h ∧ (e = ErrDecryptionFailed ∨ getOpener (h_Type hdr) h = Err e) ∨
       ∃ dec, long_opened hdr data h h' dec ∧ (e = ErrInvalidReservedBits ∨ e = errEmpty ∧ dec = [])
   | Ok (Unpacked p) => up_data p ≠ [] ∧ long_opened hdr data h h' (up_data p)
   end).
Proof. intros Hr Hn Hp. split; [by apply UnpackShortHeader_safe|by apply UnpackLongHeader_safe]. Qed.
End roundtrip.

(** * Examples *)

#[local] Existing Instance toy.
#[local] Existing Instance toy_laws.

Definition toy_cid : ConnectionID := example_cid [1; 2; 3; 4; 5; 6; 7; 8].
Definition toy_packer : packer.packetPacker := packer.newPacketPacker toy_cid retransmissionQueue.newRetransmissionQueue None PerspectiveClient.

(** An endpoint with the keys of a finished handshake. *)
Definition toy_setup (b : bool) : cryptoSetup () :=
  mkSetup () [] Version1 transportParameters.noTransportParameters None None false rtt.NewRTTStats (if b then PerspectiveClient else PerspectiveServer) 0
    None None None None None None false (started toy_suite Version1 toy_secret b).2 true true.

Lemma short_packet_unpacked_witness : ∃ hdr wire e' h', AppendShortHeader [] toy_cid 5 2 KeyPhaseZero = Ok hdr ∧
  packer.encryptPacket (hdr ++ [1; 2; 3]) Encryption1RTT 5 (blen hdr) 2 100 (toy_packer, toy_setup true) = (Ok wire, (toy_packer, e')) ∧
  UnpackShortHeader 8 1 1 wire (toy_setup false) = (Ok (Unpacked (5, 2, KeyPhaseZero, [1; 2; 3])), h').
Proof.
  destruct (headerEncrypter (aead (toy_setup true))) as [hp|] eqn:E; [|done].
  destruct (short_packet_unpacked toy_suite Version1 toy_secret true 0 hp toy_cid 5 2 [1; 2; 3] 100 toy_packer (toy_setup true) (toy_setup false) 1 1)
    as (hdr & wire & e' & h' & H1 & H2 & _ & H3 & _); try done.
  - by exists [1; 2; 3; 4; 5; 6; 7; 8].
  - by exists hdr, wire, e', h'.
Defined.

(** The Initial keys of client and server. *)
Definition toy_initial (p : Perspective) : cryptoSetup () :=
  match newCryptoSetup toy_cid transportParameters.noTransportParameters rtt.NewRTTStats p Version1 false () with Ok h => h | _ => toy_setup true end.
Definition toy_header : ExtendedHeader := mkExtendedHeader (mkHeader 0 (Some PacketTypeInitial) Version1 (example_cid [9]) toy_cid 21 [7; 7] 0) 0 2 1 0.

Lemma long_packet_unpacked_witness : ∃ hdr wire hdr' ext h', ExtendedHeader_Append [] Version1 toy_header = Ok hdr ∧
  packer.encryptPacket (hdr ++ [1; 2; 3]) EncryptionInitial 1 (blen hdr) 2 100 (toy_packer, toy_initial PerspectiveClient) = (Ok wire, (toy_packer, toy_initial PerspectiveClient)) ∧
  ParsePacket (wire ++ [9; 9]) = Ok (Parsed hdr' wire [9; 9]) ∧
  UnpackLongHeader hdr' wire (toy_initial PerspectiveServer) = (Ok (Unpacked (mkUnpacked ext EncryptionInitial [1; 2; 3])), h').
Proof.
  destruct (NewInitialAEAD_matching toy_cid Version1) as (cs & co & ss & so & Ec & Es & Hm & _ & Hl & _).
  assert (E1 : longSealer EncryptionInitial (toy_initial PerspectiveClient) = Some cs) by (unfold toy_initial, newCryptoSetup; by rewrite Ec).
  assert (E2 : getOpener (Some PacketTypeInitial) (toy_initial PerspectiveServer) = Ok (EncryptionInitial, so)) by (unfold toy_initial, newCryptoSetup; by rewrite Es).
  destruct (long_packet_unpacked Version1 PacketTypeInitial toy_header [1; 2; 3] 100 toy_packer (toy_initial PerspectiveClient) (toy_initial PerspectiveServer) cs so [9; 9])
    as (hdr & wire & hdr' & ext & o' & H1 & H2 & _ & _ & H3 & _ & _ & _ & _ & _ & H4 & _); try done.
  - split_and!; try done; [by left|by exists [1; 2; 3; 4; 5; 6; 7; 8]|by exists [9]].
  - assert (lo_highestRcvdPN so = 0) as -> by (revert Es; vm_compute; by intros [= _ <-]). done.
  - by exists hdr, wire, hdr', ext, (putOpener EncryptionInitial o' (toy_initial PerspectiveServer)).
Defined.

Lemma unpack_safe_witness : let '(r, h') := UnpackShortHeader 8 1 1 (zeros 40) (toy_setup false) in ready h' ∧ match r with Panic _ => False | _ => True end.
Proof.
  destruct (unpack_safe (toy_setup false) 8 1 1 (zeros 40) (eh_Header toy_header)) as [H _]; [|done|done|].
  - intros _. unfold opens. vm_compute. split_and!; by eexists.
  - destruct (UnpackShortHeader _ _ _ _ _) as [[[[[[]]]|]| |] h']; naive_solver.
Defined.
End unpacker.
